(* ===== verification/_CoqProject ===== *)
-Q . S2P
Prelude.v
Text.v
Api.v
AgentApi.v
Effects.v
Workloads.v
Cluster.v
Store.v
DiskMatch.v
ClaimMatch.v
Machine.v
MachineSafety.v
MachineWalk.v
MachineLaws.v
MachineDelete.v
DeployRunGC.v
Claim.v
ClaimSafety.v
SubnetDhcp.v
Bootd.v
Dnsmasq.v
AgentProgress.v
AgentDeployer.v
AgentSafety.v
AgentServer.v
BootServer.v
SiteDerive.v
PlanBuild.v
PlanSafety.v
AgentExec.v
AgentExecSafety.v
AgentBoot.v
NetValidate.v
PostHooks.v
Webhooks.v
Subnets.v
SeedDemand.v
Contents.v
ContentSafety.v
Images.v
ImageSafety.v
Sites.v
Imports.v
ImportSafety.v
Ingest.v
IngestSafety.v
Concurrent.v
ImageService.v
StagingSafety.v
AgentLive.v
AgentLiveSafety.v
Seeding.v
SeedingSafety.v
Bmc.v
BmcSafety.v
FakeDeployer.v
Kezioctl.v
KezioctlSafety.v
IngestTools.v
