(* ===== verification/Prelude.v ===== *)
(** * kezio: a verification library for the bare-metal deploy operator

    kezio enrols bare-metal machines, inspects them through a live agent they
    net-boot, and writes images to their disks over BitTorrent.  It is a set of
    Kubernetes reconcilers, servers and an agent that share objects through the
    API server:

    - a [Machine] is a piece of hardware with a state and, apart from it, an
      error axis; a [MachineClaim] asks for one and carries the deploy intent; a
      [DeployRun] is one attempt to deploy, on which the agent reports;
    - an [Image] is a disk layout whose slots name [PartitionContent] objects,
      each a published directory with a torrent; an [ImageImport] makes both from
      a disk image; a [PostHook] is a list of steps to run after writing;
    - a [Subnet] carries the boot plane (bootd with its DHCP reservations) and a
      [Site] groups Subnets around a seeding Subnet and a tracker.

    The Machine reconciler drives a machine through a [Deployer]; the agent
    deployer implements it with the BMC, boot tokens and DHCP reservations; bootd
    and the boot server bring the agent up; the agent server authenticates it,
    hands out the plan the plan builder makes and records progress; the agent
    executes the plan; the Image and PartitionContent reconcilers see to it that
    each Site with demand has a seeder.

    ** How code becomes definitions

    A Go function without effects is a Rocq function.  A function that talks to
    the outside is a [prog] ([Effects.v]): a finite tree of external calls
    ([Cluster.eff]) and continuations on their answers.  Nothing is assumed of
    the answers, so a theorem about all runs covers every fault, every stale
    read and every interleaving with other writers; what a theorem needs of the
    environment (a patch keeps an annotation, an index answers what it indexes,
    a resource version names one content) is a named hypothesis on the trace.
    [runs p tr a] relates a program to its traces and answers, [exec] runs it
    against a concrete handler, [interp] against an unchanging world, [wp] and
    [obeys] watch its calls with a monitor ([history] is the monitor that
    remembers them all), and [link] puts the implementation of an interface
    under its client.  Pointer arguments a callee writes through come back as
    results.  Records keep the fields of the Go structs; [int32], [int64] and
    [uint32] arithmetic wraps where the code's can; times are nanoseconds with 0
    the zero time; a map is a [gmap], or an association list in the order the
    runtime ranges over it where the order matters.

    ** Files and the code they model

    Foundations.  [Prelude.v]: record update, machine integers, digits, [fmt]
    text, errors with their classification, sorting, tactics and hints.
    [Text.v]: the string functions of Go's library the code uses.  [Effects.v]:
    programs, runs, monitors, histories and linking.  [Api.v]: [api/v1alpha3],
    and the class [ApiMachinery] of apimachinery's condition, finalizer and
    owner-reference helpers, with their documented laws ([ApiMachineryLaws]) and
    the instance [SimpleMeta].  [AgentApi.v]: [internal/agentapi].
    [Workloads.v]: the parts of Deployments, Jobs, claims and pods the code sets
    or reads.  [Cluster.v]: the call signature with [internal/deployer/deployer.go]
    and [bmc.BMC]; [Demo] is a concrete cluster for examples.

    Machines and claims.  [DiskMatch.v]: [internal/diskmatch].  [ClaimMatch.v]:
    [machineclaim_match.go] with its augmenting-path search.  [Machine.v]: the
    Machine reconciler ([machine_controller.go], [machine_annotations.go],
    [machine_claim_intent.go], [crossref.go]), with theorems in
    [MachineSafety.v], [MachineWalk.v] (the state machine as [walk_edge]),
    [MachineLaws.v] and [MachineDelete.v].  [DeployRunGC.v]:
    [deployrun_controller.go].  [Claim.v] and [ClaimSafety.v]:
    [machineclaim_controller.go].

    Booting.  [SubnetDhcp.v]: [internal/subnetdhcp].  [Bootd.v] and [Dnsmasq.v]:
    [internal/bootd]: rendered files, MAC cache, proxy, TFTP, leases; the dnsmasq
    hostsfile loop as a step function over interleavings, and its supervision.
    [BootServer.v]: [internal/bootserver].  [AgentDeployer.v] and
    [AgentSafety.v]: [internal/deployer/agent.go], [dhcpreserve.go] and what they
    use.

    Agent.  [AgentProgress.v], [AgentServer.v]: [internal/agentserver].
    [PlanBuild.v], [PlanSafety.v]: [internal/planbuild] with [SiteDerive.v]
    ([internal/sitederive], [internal/seederdeploy]).  [AgentExec.v],
    [AgentExecSafety.v], [AgentBoot.v]: [internal/agent/deploy], over its own
    signature of commands, daemon calls and reports.

    Validation.  [NetValidate.v]: [internal/nadvalidate],
    [internal/subnetvalidate].  [PostHooks.v]: [internal/posthookvalidate] and
    the PostHook reconciler.  [Webhooks.v]: [internal/webhook/v1alpha3] and the
    BMC registry.

    Content and sites.  [Store.v]: [internal/store].  [Subnets.v]:
    [subnet_controller.go] and its bootd Deployment.  [SeedDemand.v]: what the
    image plane shares ([seeder_demand.go], [partitioncontent_index.go], Job
    results).  [Contents.v], [ContentSafety.v]: the PartitionContent reconciler.
    [Images.v], [ImageSafety.v]: the Image reconciler and its seeders.
    [Sites.v]: the Site reconciler and its tracker.
    [Imports.v], [ImportSafety.v]: the ImageImport reconciler
    ([imageimport_*.go]).  [Ingest.v], [IngestSafety.v]: the ingest and publish
    Jobs ([internal/ingest]).  [Concurrent.v], [ImageService.v],
    [StagingSafety.v]: the upload service ([internal/imageservice]) and its
    concurrent requests.
    [AgentLive.v], [AgentLiveSafety.v]: the agent around the executor
    ([internal/agent], [cmd/agent]), from the kernel command line to the poll loop.
    [Seeding.v], [SeedingSafety.v]: the registration loop of a seeder pod
    ([cmd/seeder], [internal/seeder]) and the leecher ([internal/leech],
    [cmd/leechctl]).
    [Bmc.v], [BmcSafety.v]: the IPMI and Redfish drivers ([internal/bmc]) and what
    the deployer's power commands do to a machine.  [FakeDeployer.v]: the deployer
    of the tests ([internal/deployer/fake.go]).
    [Kezioctl.v], [KezioctlSafety.v]: the command line client ([internal/kezioctl]).
    [IngestTools.v]: the binary of the ingest Jobs ([cmd/ingest]).

    ** What the theorems show

    Machines: each reconcile is at most one edge of the walk, a refused write
    ends it, a machine that lost its status is not redeployed, and deletion ends
    within nine reconciles.  Claims bind only free machines, one at a
    time, and release only their own; selectors are decided exactly.  Booting:
    power comes after the marker, the token and the DHCP acknowledgement are
    stored; a finished step holds no address; the MAC cache and the token store
    refine their histories, a revision reported as applied is loaded, and a boot
    config carries the token and the Subnet of the one Machine it is for.  Agent: nothing is done without
    a live credential; the served plan is for the machine that asked and passes
    the agent's checks; the executor touches no disk it has not checked, reports
    success only when everything is done, and reports failures; from boot to
    reboot the agent works only on plans handed out to its session, the first
    abort stops it, and it reads the kernel arguments the boot server wrote.  Content: the
    torrent's info dict is an address of the content, its text form is read back,
    validation of a directory is exact.  Reconcilers of Subnets, Sites,
    contents, Images and imports: what each may write is stated over the history
    of its reads (one bootd per segment, a tracker pinned to its address, Ready
    only with a reported info hash or with fresh contents, finalizers and seeders
    only dropped when nothing refers to them or the grace period is over, an Image
    only over contents in place, an import deleted only after its time to live).
    Ingest: a source with a checksum is opened only when it matched, read only off
    the attached device or slices of its raw copy, and a staged upload is removed
    only when everything is stored; no device is left attached; and the slots of
    the Image made of it are the partitions the agent will make.
    Uploads: however requests interleave, an acknowledged upload is stored whole
    and a stored one does not change.  Seeding: a torrent file is served only for
    content that ezio holds, and a leecher puts the partition together again.  Power:
    both drivers keep one contract, and over it a net boot sends the board the
    network boot and one power command, nothing else.
    Command line: an import names what was streamed, a deploy sets only its payload.

    ** Bounds and fuel

    The matching search takes as fuel one more than the number of disks, and
    the specification shows it always answers.  [nextFree] takes the size of
    the range, digits take the binary length.  [RetryOnConflict] takes the
    number of further tries as an argument ([retries]), and unbounded loops the
    number of rounds they are followed ([rounds]); a loop that would go on is
    the call [EDiverge], which has no answer, and all theorems hold for every
    value of both.  The delete walk needs at most nine passes: one to enter it
    and four in each of its two stages, each of which gives up at its fourth
    failure; the last one releases.

    ** Parameters

    apimachinery's helpers ([ApiMachinery]), label selectors, SHA-1 and SHA-256
    digests, JSON of annotations, Job results, sfdisk tables and CNI
    configurations, templates, RFC 3339 and duration text ([Encodings]),
    [url.Parse], [GOARCH], the order of map iteration, the BMC protocol libraries and the
    API server (calls with any answer).  Each property that depends on a law of a
    parameter has a witness with a concrete instance.

    ** Not modelled

    The binaries' wiring and flags, process supervision, HTTP listening, JSON, gRPC
    and the external tools the ingest and the agent run; access logs; the default
    PostHooks applied at start. *)

From stdpp Require Export base list gmap strings sorting.
From Stdlib Require Export ZArith Lia Ascii String.

(** [String] shadows the list operations it shares a name with. *)
Abbreviation length := Datatypes.length.

#[export] Set Default Goal Selector "!".
#[export] Set Warnings "-clear-no-such-hyp".

(** ** Scope and notations *)

Declare Scope go_scope.
Delimit Scope go_scope with go.

(** Go's [==] and [!=] on strings. *)
Notation "x =s y" := (String.eqb x y) (at level 70, no associativity) : go_scope.
Notation "x <>s y" := (negb (String.eqb x y)) (at level 70, no associativity) : go_scope.
Open Scope go_scope.

(** ** Functional record update

    [r <| f := v |>] is Go's field assignment [r.f = v] on a copy of [r].
    A record opts in with an [Eta] instance: its constructor applied to its
    own projections. *)

Class Eta (R : Type) := eta : R -> R.

Definition upd {R T : Type} (proj : R -> T) (setter : (T -> T) -> R -> R) : (T -> T) -> R -> R := setter.

Ltac mk_setter proj :=
  match type of proj with
  | ?R -> ?T =>
    let inst := constr:(_ : Eta R) in
    let inst := eval red in inst in
    exact (fun (f : T -> T) (r : R) =>
      ltac:(let body := eval cbv beta in (inst r) in
            let b := eval pattern (proj r) in body in
            match b with
            | ?h _ => let out := eval cbv beta in (h (f (proj r))) in exact out
            end))
  end.

#[warnings="-postfix-notation-not-level-1"] Notation "r <| f := v |>" := (upd f ltac:(mk_setter f) (fun _ => v) r)
  (at level 12, f constr at next level, v at level 200, left associativity, only parsing) : go_scope.

(** ** Fixed-width integers

    Go's [int32] and [int64] wrap around on overflow. *)

Definition wrap (w x : Z) : Z := ((x + 2 ^ (w - 1)) mod 2 ^ w - 2 ^ (w - 1))%Z.
Definition int32 (x : Z) : Z := wrap 32 x.
Definition int64 (x : Z) : Z := wrap 64 x.
Definition uint32 (x : Z) : Z := (x mod 2 ^ 32)%Z.

Lemma wrap_range w x : (0 < w)%Z -> (- 2 ^ (w - 1) <= wrap w x < 2 ^ (w - 1))%Z.
Proof.
  intros Hw. unfold wrap.
  assert (H : (2 ^ w = 2 * 2 ^ (w - 1))%Z).
  { rewrite <- Z.pow_succ_r by lia. f_equal. lia. }
  pose proof (Z.pow_pos_nonneg 2 (w - 1)).
  pose proof (Z.mod_pos_bound (x + 2 ^ (w - 1)) (2 ^ w)). lia.
Qed.

Lemma wrap_id w x : (0 < w)%Z -> (- 2 ^ (w - 1) <= x < 2 ^ (w - 1))%Z -> wrap w x = x.
Proof.
  intros Hw Hx. unfold wrap.
  assert (H : (2 ^ w = 2 * 2 ^ (w - 1))%Z).
  { rewrite <- Z.pow_succ_r by lia. f_equal. lia. }
  rewrite Z.mod_small by lia. lia.
Qed.

Lemma int32_id x : (- 2 ^ 31 <= x < 2 ^ 31)%Z -> int32 x = x.
Proof. intros. apply wrap_id; lia. Qed.

Lemma int64_id x : (- 2 ^ 63 <= x < 2 ^ 63)%Z -> int64 x = x.
Proof. intros. apply wrap_id; lia. Qed.

(** ** Positional numerals

    [digits b n] are the base-[b] digits of [n], most significant first, and
    [undigits b] reads such a list back; [strconv] and the [%d] and [%x] verbs
    of [fmt] are built on them. *)

Fixpoint digits_aux (fuel : nat) (b n : Z) (acc : list Z) : list Z :=
  match fuel with
  | O => acc
  | S fuel =>
    if (n <? b)%Z then n :: acc
    else digits_aux fuel b (n / b)%Z ((n mod b)%Z :: acc)
  end.

Definition digits (b n : Z) : list Z := digits_aux (S (Z.to_nat (Z.log2 n))) b n [].

Definition undigits_from (b v : Z) (ds : list Z) : Z :=
  fold_left (fun v d => (v * b + d)%Z) ds v.
Definition undigits (b : Z) (ds : list Z) : Z := undigits_from b 0 ds.

Lemma undigits_from_app b v ds1 ds2 :
  undigits_from b v (ds1 ++ ds2) = undigits_from b (undigits_from b v ds1) ds2.
Proof. apply fold_left_app. Qed.

Lemma digits_aux_spec fuel b n acc :
  (2 <= b)%Z -> (0 <= n < 2 ^ Z.of_nat fuel)%Z ->
  exists ds, digits_aux fuel b n acc = ds ++ acc /\ undigits b ds = n
    /\ Forall (fun d => 0 <= d < b)%Z ds.
Proof.
  intros Hb. revert n acc. induction fuel as [|fuel IH]; intros n acc Hn.
  { exists []. cbn in *. split_and!; [done| |constructor]. unfold undigits, undigits_from. cbn. lia. }
  cbn [digits_aux]. destruct (Z.ltb_spec n b) as [Hlt|Hge].
  { exists [n]. split_and!; [done| |repeat constructor; lia].
    unfold undigits, undigits_from. cbn. lia. }
  assert (Hq : (0 <= n / b < 2 ^ Z.of_nat fuel)%Z).
  { split; [apply Z.div_pos; lia|]. apply Z.div_lt_upper_bound; [lia|].
    rewrite Nat2Z.inj_succ, Z.pow_succ_r in Hn by lia. nia. }
  destruct (IH (n / b)%Z ((n mod b)%Z :: acc) Hq) as (ds & Heq & Hv & Hf).
  exists (ds ++ [(n mod b)%Z]). split_and!.
  - rewrite Heq, <- app_assoc. done.
  - unfold undigits in *. rewrite undigits_from_app, Hv. unfold undigits_from. cbn.
    pose proof (Z.div_mod n b). lia.
  - apply Forall_app. split; [done|]. repeat constructor; apply Z.mod_pos_bound; lia.
Qed.

Lemma digits_spec b n :
  (2 <= b)%Z -> (0 <= n)%Z ->
  undigits b (digits b n) = n /\ Forall (fun d => 0 <= d < b)%Z (digits b n).
Proof.
  intros Hb Hn. unfold digits.
  destruct (digits_aux_spec (S (Z.to_nat (Z.log2 n))) b n []) as (ds & -> & Hv & Hf); [done| |].
  { pose proof (Z.log2_nonneg n). rewrite Nat2Z.inj_succ, Z2Nat.id by lia.
    destruct (decide (n = 0)%Z) as [->|]; [cbn; lia|].
    pose proof (Z.log2_spec n ltac:(lia)). lia. }
  rewrite app_nil_r. done.
Qed.

(** ** Strings *)

Definition dquote : string := String "034"%char "".

(** One lower-case digit of a base up to 16. *)
Definition digit_char (d : Z) : ascii :=
  ascii_of_nat (Z.to_nat (if d <? 10 then 48 + d else 87 + d)%Z).

Definition string_of_digits (ds : list Z) : string :=
  string_of_list_ascii (map digit_char ds).

(** [%d] on a non-negative or negative integer. *)
Definition show_dec (n : Z) : string :=
  if (n <? 0)%Z then String.append "-" (string_of_digits (digits 10 (- n)))
  else string_of_digits (digits 10 n).

(** [strconv.Quote], the [%q] verb, on the ASCII range; bytes from 0x80 on
    are kept as they are (printable UTF-8). *)
Definition quote_char (c : ascii) : string :=
  let n := nat_of_ascii c in
  if Nat.eqb n 34 then String "\"%char dquote
  else if Nat.eqb n 92 then "\\"
  else if Nat.eqb n 7 then "\a" else if Nat.eqb n 8 then "\b"
  else if Nat.eqb n 12 then "\f" else if Nat.eqb n 10 then "\n"
  else if Nat.eqb n 13 then "\r" else if Nat.eqb n 9 then "\t"
  else if Nat.eqb n 11 then "\v"
  else if (n <? 32) || Nat.eqb n 127 then
    String.append "\x" (string_of_digits [Z.of_nat (n / 16); Z.of_nat (n mod 16)])
  else String c "".

Fixpoint quote_body (s : string) : string :=
  match s with
  | EmptyString => ""
  | String c s' => String.append (quote_char c) (quote_body s')
  end.

Definition quote (s : string) : string :=
  String.append dquote (String.append (quote_body s) dquote).

(** [fmt.Sprintf] over arguments already rendered: each verb takes the next
    argument, [%q] quotes it and every other verb copies it. *)
Fixpoint sprintf (fmt : string) (args : list string) : string :=
  match fmt with
  | EmptyString => ""
  | String c rest =>
    if Nat.eqb (nat_of_ascii c) 37 then
      match rest, args with
      | String v rest', a :: args' =>
        String.append (if Ascii.eqb v "q" then quote a else a) (sprintf rest' args')
      | _, _ => String c rest
      end
    else String c (sprintf rest args)
  end.

(** [strings.HasPrefix]. *)
Definition HasPrefix (s p : string) : bool := String.prefix p s.

(** ** Errors

    A Go error is its message and the classification that [errors.As],
    [errors.Is] and [apierrors.IsNotFound]/[IsConflict] read off its chain.
    Wrapping with [%w] keeps the classification. *)

Inductive ErrKind :=
| KNotFound | KConflict | KNetwork | KNotReady | KDiskSelection | KValidation
| KSubnetNotFound | KSiteNotFound | KSeederSubnetNotFound | KAlreadyExists | KNoMatch | KNADContent
| KNameConflict | KInvalidName | KChecksumMismatch | KUploadNotComplete | KMaxBytes | KNoSpace | KQuota | KOther.

Record GoErr := mkErr { ekind : ErrKind; emsg : string }.

#[export] Instance ErrKind_eq_dec : EqDecision ErrKind.
Proof. solve_decision. Defined.

Definition IsNotFound (e : GoErr) : bool := bool_decide (ekind e = KNotFound).
Definition IsConflict (e : GoErr) : bool := bool_decide (ekind e = KConflict).
Definition IsAlreadyExists (e : GoErr) : bool := bool_decide (ekind e = KAlreadyExists).
Definition IsNoMatchError (e : GoErr) : bool := bool_decide (ekind e = KNoMatch).

(** [client.IgnoreNotFound]. *)
Definition IgnoreNotFound (e : GoErr) : option GoErr :=
  if IsNotFound e then None else Some e.

(** [errors.New] and [fmt.Errorf] without [%w]. *)
Definition errorf (fmt : string) (args : list string) : GoErr :=
  mkErr KOther (sprintf fmt args).

(** [fmt.Errorf] with a trailing [%w]. *)
Definition wrapf (fmt : string) (args : list string) (e : GoErr) : GoErr :=
  mkErr (ekind e) (sprintf fmt (args ++ [emsg e])).

(** ** Lists *)

(** The first element that satisfies [f], as a Go [for]/[return] loop finds it. *)
Fixpoint find_first {A} (f : A -> bool) (l : list A) : option A :=
  match l with
  | [] => None
  | x :: l => if f x then Some x else find_first f l
  end.

Lemma find_first_Some {A} (f : A -> bool) l x :
  find_first f l = Some x -> x ∈ l /\ f x = true.
Proof.
  induction l as [|y l IH]; cbn; [done|]. destruct (f y) eqn:E; intros H.
  - simplify_eq. split; [left|done].
  - destruct (IH H). split; [by right|done].
Qed.

Lemma find_first_None {A} (f : A -> bool) l :
  find_first f l = None <-> forall x, x ∈ l -> f x = false.
Proof.
  induction l as [|y l IH]; cbn.
  { split; [|done]. intros _ x Hx. inversion Hx. }
  destruct (f y) eqn:E.
  - split; [done|]. intros H. rewrite H in E; [done|left].
  - rewrite IH. split.
    + intros H x [->|Hx]%elem_of_cons; auto.
    + intros H x Hx. apply H. by right.
Qed.

(** *** Sorting

    [sort.Slice] with a [less] function.  Its order among elements [less] does
    not tell apart is unspecified; the code sorts by unique names, where the
    sorted permutation is unique, and insertion sort computes it. *)
Fixpoint insert_by {A} (less : A -> A -> bool) (x : A) (l : list A) : list A :=
  match l with
  | [] => [x]
  | y :: l' => if less y x then y :: insert_by less x l' else x :: l
  end.

Definition sort_by {A} (less : A -> A -> bool) (l : list A) : list A :=
  fold_right (insert_by less) [] l.

Lemma insert_by_perm {A} less (x : A) l : insert_by less x l ≡ₚ x :: l.
Proof.
  induction l as [|y l IH]; cbn; [done|]. destruct (less y x); [|done].
  rewrite IH. apply Permutation_swap.
Qed.

Lemma sort_by_perm {A} less (l : list A) : sort_by less l ≡ₚ l.
Proof. induction l as [|x l IH]; cbn; [done|]. by rewrite insert_by_perm, IH. Qed.

(** A strict order that is total on [l]. *)
Definition orders {A} (less : A -> A -> bool) (l : list A) : Prop :=
  (forall x y, x ∈ l -> y ∈ l -> less x y = true -> less y x = false) /\
  (forall x y z, x ∈ l -> y ∈ l -> z ∈ l -> less x y = true -> less y z = true -> less x z = true) /\
  (forall x y, x ∈ l -> y ∈ l -> x <> y -> less x y = true \/ less y x = true).

Lemma insert_by_sorted {A} less (x : A) l :
  orders less (x :: l) -> NoDup (x :: l) -> StronglySorted (fun a b => less a b = true) l ->
  StronglySorted (fun a b => less a b = true) (insert_by less x l).
Proof.
  intros (Has & Htr & Htot) Hnd. induction l as [|y l IH]; intros Hs; cbn; [repeat constructor|].
  apply NoDup_cons in Hnd as [Hx Hnd]. apply StronglySorted_inv in Hs as [Hs Hy].
  assert (Hsub : forall z, z ∈ x :: l -> z ∈ x :: y :: l).
  { intros z [->|Hz]%elem_of_cons; [left|by do 2 right]. }
  destruct (less y x) eqn:E.
  - constructor.
    + apply IH; [by eauto 6|by eauto 6| | |done].
      * intros a b Ha Hb Hne. apply Htot; auto.
      * apply NoDup_cons in Hnd as [_ Hnd]. apply NoDup_cons. split; [|done]. intros Hin. apply Hx. by right.
    + rewrite insert_by_perm. by constructor.
  - constructor; [by constructor|].
    assert (Hxy : less x y = true).
    { destruct (Htot x y) as [?|?]; [left|right; left| |done|congruence]. intros ->. apply Hx. left. }
    constructor; [done|]. rewrite Forall_forall in Hy |- *. intros z Hz.
    apply (Htr x y z); [left|right; left|by do 2 right|done|auto].
Qed.

Lemma sort_by_sorted {A} less (l : list A) :
  orders less l -> NoDup l -> StronglySorted (fun a b => less a b = true) (sort_by less l).
Proof.
  intros Hord Hnd. induction l as [|x l IH]; [constructor|].
  change (sort_by less (x :: l)) with (insert_by less x (sort_by less l)). apply NoDup_cons in Hnd as Hnd'.
  destruct Hnd' as [Hx Hl].
  apply insert_by_sorted.
  - destruct Hord as (Has & Htr & Htot).
    assert (Hin : forall z, z ∈ x :: sort_by less l -> z ∈ x :: l) by (intros z; by rewrite sort_by_perm).
    split_and!; eauto 6.
  - by rewrite sort_by_perm.
  - apply IH; [|done]. destruct Hord as (Has & Htr & Htot).
    assert (Hin : forall z, z ∈ l -> z ∈ x :: l) by (intros; by right).
    split_and!; eauto 6.
Qed.

(** Under a strict total order the result depends on the elements only. *)
Lemma insert_by_comm {A} (less : A -> A -> bool) x y l :
  (forall a b, less a b = true -> less b a = false) ->
  (forall a b c, less a b = true -> less b c = true -> less a c = true) ->
  (forall a b, a <> b -> less a b = true \/ less b a = true) -> EqDecision A ->
  insert_by less x (insert_by less y l) = insert_by less y (insert_by less x l).
Proof.
  intros Has Htr Htot Heq. destruct (decide (x = y)) as [->|Hne]; [done|].
  induction l as [|z l IH]; cbn.
  - destruct (Htot x y Hne) as [H|H]; rewrite H, (Has _ _ H); done.
  - destruct (less z y) eqn:Ey, (less z x) eqn:Ex; cbn; rewrite ?Ey, ?Ex.
    + by rewrite IH.
    + assert (Hxy : less x y = true).
      { destruct (decide (x = z)) as [->|Hxz]; [done|]. destruct (Htot x z Hxz); [eauto|congruence]. }
      by rewrite Hxy.
    + assert (Hyx : less y x = true).
      { destruct (decide (y = z)) as [->|Hyz]; [done|]. destruct (Htot y z Hyz); [eauto|congruence]. }
      by rewrite Hyx.
    + destruct (Htot x y Hne) as [H|H]; rewrite H, (Has _ _ H); done.
Qed.

Lemma ltb_trans a b c : String.ltb a b = true -> String.ltb b c = true -> String.ltb a c = true.
Proof.
  unfold String.ltb. intros H1 H2.
  destruct (String.compare a b) eqn:E1; [done| |done].
  destruct (String.compare b c) eqn:E2; [done| |done].
  assert (E : String.compare a c = Lt); [|by rewrite E].
  clear H1 H2. revert b c E1 E2. induction a as [|x a IH]; intros [|y b] [|z c]; cbn; try done.
  unfold Ascii.compare. intros H1 H2.
  destruct (N.compare_spec (N_of_ascii x) (N_of_ascii y)), (N.compare_spec (N_of_ascii y) (N_of_ascii z)),
    (N.compare_spec (N_of_ascii x) (N_of_ascii z)); cbn in *; try done; try lia; by eapply IH.
Qed.

Lemma ltb_asym a b : String.ltb a b = true -> String.ltb b a = false.
Proof.
  unfold String.ltb. rewrite (String.compare_antisym b a). by destruct (String.compare a b).
Qed.

Lemma ltb_total a b : a <> b -> String.ltb a b = true \/ String.ltb b a = true.
Proof.
  unfold String.ltb. rewrite (String.compare_antisym b a).
  destruct (String.compare a b) eqn:E; cbn; auto. apply String.compare_eq_iff in E. congruence.
Qed.

Lemma sort_strings_perm l l' : l ≡ₚ l' -> sort_by String.ltb l = sort_by String.ltb l'.
Proof.
  induction 1 as [|x l l' _ IH|x y l|l1 l2 l3 _ IH1 _ IH2]; cbn; [done|by f_equal| |congruence].
  apply insert_by_comm; [apply ltb_asym|apply ltb_trans|apply ltb_total|exact _].
Qed.

(** ** Automation *)

Create HintDb kezio.
Create Rewrite HintDb kezio_rw.

(** Splits conjunctions, existentials and equations in the context. *)
Ltac crush_ctx :=
  repeat match goal with
  | H : _ /\ _ |- _ => destruct H
  | H : exists _, _ |- _ => destruct H
  | H : andb _ _ = true |- _ => apply andb_true_iff in H
  | H : orb _ _ = false |- _ => apply orb_false_iff in H
  | H : negb _ = true |- _ => apply negb_true_iff in H
  | H : negb _ = false |- _ => apply negb_false_iff in H
  | H : String.eqb _ _ = true |- _ => apply String.eqb_eq in H
  | H : String.eqb _ _ = false |- _ => apply String.eqb_neq in H
  | H : Z.eqb _ _ = true |- _ => apply Z.eqb_eq in H
  | H : bool_decide _ = true |- _ => apply bool_decide_eq_true in H
  | H : bool_decide _ = false |- _ => apply bool_decide_eq_false in H
  end; simplify_eq.
