(* ===== verification/Text.v ===== *)
(** * Text: Go's string, number and path helpers

    What the sources use of [strings], [strconv], [encoding/hex], [bufio] and
    [path/filepath], on byte strings.  [ParseUint] and hex decoding come with
    the round trips the codecs above them rest on. *)

From S2P Require Import Prelude.
Local Open Scope string_scope.
Local Open Scope list_scope.
Local Open Scope Z_scope.

(** ** Characters *)

Definition in_range (lo hi : nat) (c : ascii) : bool :=
  (lo <=? nat_of_ascii c)%nat && (nat_of_ascii c <=? hi)%nat.

Definition is_digit : ascii -> bool := in_range 48 57.
Definition is_lower : ascii -> bool := in_range 97 122.
Definition is_upper : ascii -> bool := in_range 65 90.
Definition is_hex (c : ascii) : bool := in_range 48 57 c || in_range 65 70 c || in_range 97 102 c.

Definition lower (c : ascii) : ascii :=
  if in_range 65 90 c then ascii_of_nat (nat_of_ascii c + 32) else c.

(** [strings.ToLower], on ASCII. *)
Definition ToLower (s : string) : string :=
  string_of_list_ascii (map lower (list_ascii_of_string s)).

(** [strings.EqualFold], on ASCII. *)
Definition EqualFold (s t : string) : bool := String.eqb (ToLower s) (ToLower t).

(** ** Cutting *)

(** [strings.Split] on one character. *)
Fixpoint split_on (c : ascii) (s : string) : list string :=
  match s with
  | EmptyString => [""]
  | String a rest =>
    if Ascii.eqb a c then "" :: split_on c rest
    else match split_on c rest with
         | x :: l => String a x :: l
         | [] => [String a ""]
         end
  end.

(** [strings.CutPrefix]; [strings.TrimPrefix]. *)
Fixpoint CutPrefix (s p : string) : option string :=
  match p, s with
  | EmptyString, _ => Some s
  | String a p, String b s => if Ascii.eqb a b then CutPrefix s p else None
  | String _ _, EmptyString => None
  end.

Definition TrimPrefix (s p : string) : string := default s (CutPrefix s p).

(** [strings.Cut] on one character. *)
Fixpoint cut_at (c : ascii) (s : string) : option (string * string) :=
  match s with
  | EmptyString => None
  | String a rest =>
    if Ascii.eqb a c then Some ("", rest)
    else '(x, y) ← cut_at c rest; Some (String a x, y)
  end.

(** [strings.HasSuffix]; [strings.TrimSuffix]. *)
Fixpoint TrimSuffix (s p : string) : string :=
  if s =s p then "" else
  match s with
  | EmptyString => ""
  | String a rest => String a (TrimSuffix rest p)
  end.

Fixpoint HasSuffix (s p : string) : bool :=
  (s =s p) || match s with EmptyString => false | String _ rest => HasSuffix rest p end.

(** [strings.Contains]. *)
Fixpoint Contains (s sub : string) : bool :=
  String.prefix sub s || match s with EmptyString => false | String _ rest => Contains rest sub end.

(** [strings.ReplaceAll] of one character by another. *)
Definition replace_char (a b : ascii) (s : string) : string :=
  string_of_list_ascii (map (fun c => if Ascii.eqb c a then b else c) (list_ascii_of_string s)).

(** [strings.TrimRight] and [strings.TrimLeft], the cut set as a predicate. *)
Fixpoint TrimRight (cut : ascii -> bool) (s : string) : string :=
  match s with
  | EmptyString => ""
  | String c rest =>
    match TrimRight cut rest with
    | EmptyString => if cut c then "" else String c ""
    | rest' => String c rest'
    end
  end.

Fixpoint TrimLeft (cut : ascii -> bool) (s : string) : string :=
  match s with
  | EmptyString => ""
  | String c rest => if cut c then TrimLeft cut rest else s
  end.

(** [unicode.IsSpace] on ASCII. *)
Definition is_space (c : ascii) : bool := existsb (Nat.eqb (nat_of_ascii c)) [32; 9; 10; 11; 12; 13]%nat.

(** [strings.Fields]. *)
Fixpoint fields_from (word : string) (s : string) : list string :=
  let flush := if word =s "" then [] else [word] in
  match s with
  | EmptyString => flush
  | String c rest =>
    if is_space c then flush ++ fields_from "" rest
    else fields_from (String.append word (String c "")) rest
  end.
Definition Fields (s : string) : list string := fields_from "" s.

Definition newline : string := String (ascii_of_nat 10) "".

(** *** Lines as [bufio.ScanLines] cuts them: the last line may lack its newline, a
    trailing carriage return is dropped. *)
Fixpoint dropCR (s : string) : string :=
  match s with
  | EmptyString => ""
  | String c EmptyString => if Nat.eqb (nat_of_ascii c) 13 then "" else s
  | String c rest => String c (dropCR rest)
  end.

Definition raw_lines (s : string) : list string :=
  match rev (split_on (ascii_of_nat 10) s) with
  | EmptyString :: rest => rev rest
  | l => rev l
  end.

(** ** Numbers *)

Definition digit_value (a : ascii) : option Z :=
  let n := Z.of_nat (nat_of_ascii a) in
  if (48 <=? n) && (n <=? 57) then Some (n - 48) else None.

Definition decimal (s : string) : option Z :=
  match mapM digit_value (list_ascii_of_string s) with
  | Some (d :: ds) => Some (undigits 10 (d :: ds))
  | _ => None
  end.

(** [strconv.Atoi]: an optional sign and decimal digits, within [int64]. *)
Definition Atoi (s : string) : option Z :=
  let '(sign, ds) := match s with
                     | String "+" rest => (1%Z, rest)
                     | String "-" rest => ((-1)%Z, rest)
                     | _ => (1%Z, s)
                     end in
  v ← decimal ds;
  let v := (sign * v)%Z in
  if ((- 2 ^ 63 <=? v) && (v <? 2 ^ 63))%Z then Some v else None.

(** A hexadecimal digit in either case. *)
Definition hex_value (a : ascii) : option Z :=
  let n := Z.of_nat (nat_of_ascii a) in
  if (48 <=? n) && (n <=? 57) then Some (n - 48)
  else if (97 <=? n) && (n <=? 102) then Some (n - 87)
  else if (65 <=? n) && (n <=? 70) then Some (n - 55)
  else None.

(** [strconv.ParseUint] in base 10 or 16 with a bit size. *)
Definition ParseUint (s : string) (base bits : Z) : option Z :=
  match mapM hex_value (list_ascii_of_string s) with
  | Some (d :: ds) =>
    if forallb (fun d => d <? base) (d :: ds) then
      let v := undigits base (d :: ds) in if v <? 2 ^ bits then Some v else None
    else None
  | _ => None
  end.

(** The [%0*x] verb. *)
Definition pad_zero (width : nat) (s : string) : string :=
  String.append (string_of_list_ascii (repeat "0"%char (width - String.length s))) s.
Definition show_hex (n : Z) : string := string_of_digits (digits 16 n).

(** [hex.EncodeToString] and [hex.Decode]. *)
Fixpoint EncodeToString (bytes : list Z) : string :=
  match bytes with
  | [] => ""
  | b :: bytes => String (digit_char (b / 16)) (String (digit_char (b mod 16)) (EncodeToString bytes))
  end.

Fixpoint DecodeString (s : string) : option (list Z) :=
  match s with
  | EmptyString => Some []
  | String a (String b rest) =>
    x ← hex_value a; y ← hex_value b; bs ← DecodeString rest; Some (x * 16 + y :: bs)
  | String _ EmptyString => None
  end.

(** ** Paths: [path.Clean] and [filepath.Join] on slash-separated paths *)

(** Elements are pushed on a stack; [..] pops one, stays at the root and is
    kept in front of a relative path. *)
Definition clean_step (rooted : bool) (stack : list string) (x : string) : list string :=
  if (x =s "") || (x =s ".") then stack
  else if x =s ".." then
    match stack with
    | [] => if rooted then [] else [".."]
    | y :: rest => if y =s ".." then x :: stack else rest
    end
  else x :: stack.

Definition clean_elements (rooted : bool) (s : string) : list string :=
  rev (fold_left (clean_step rooted) (split_on "/" s) []).

Definition Clean (s : string) : string :=
  let rooted := HasPrefix s "/" in
  let body := String.concat "/" (clean_elements rooted s) in
  if rooted then String.append "/" body else if body =s "" then "." else body.

(** Empty elements are skipped; all empty gives the empty path. *)
Definition Join (l : list string) : string :=
  match List.filter (fun x => x <>s "") l with
  | [] => ""
  | l => Clean (String.concat "/" l)
  end.

(** ** Lemmas *)

Lemma split_on_none c s :
  forallb (fun a => negb (Ascii.eqb a c)) (list_ascii_of_string s) = true -> split_on c s = [s].
Proof.
  induction s as [|a s IH]; cbn [split_on list_ascii_of_string forallb]; [done|].
  intros [Ha Hs]%andb_true_iff. apply negb_true_iff in Ha. rewrite Ha, (IH Hs). done.
Qed.

Lemma split_on_app c s t :
  forallb (fun a => negb (Ascii.eqb a c)) (list_ascii_of_string s) = true ->
  split_on c (String.append s (String c t)) = s :: split_on c t.
Proof.
  induction s as [|a s IH].
  - intros _. change (split_on c (String c t) = "" :: split_on c t). cbn [split_on].
    by rewrite Ascii.eqb_refl.
  - change (String.append (String a s) (String c t)) with (String a (String.append s (String c t))).
    cbn [split_on list_ascii_of_string forallb]. intros [Ha Hs]%andb_true_iff.
    apply negb_true_iff in Ha. rewrite Ha, (IH Hs). done.
Qed.

Lemma mapM_Some_length {A B} (f : A -> option B) l l' : mapM f l = Some l' -> length l' = length l.
Proof. intros H%mapM_Some. symmetry. by eapply Forall2_length. Qed.


(** *** Strings as lists of characters *)

Lemma append_cons a s t : String.append (String a s) t = String a (String.append s t).
Proof. done. Qed.

Lemma append_empty s : String.append "" s = s.
Proof. done. Qed.

Lemma string_app_assoc s t u : String.append (String.append s t) u = String.append s (String.append t u).
Proof. induction s as [|a s IH]; [done|]. rewrite ?append_cons. cbn. by rewrite IH. Qed.

Lemma string_app_nil s : String.append s "" = s.
Proof. induction s as [|a s IH]; [done|]. rewrite ?append_cons. cbn. by rewrite IH. Qed.

Lemma list_ascii_app s t :
  list_ascii_of_string (String.append s t) = list_ascii_of_string s ++ list_ascii_of_string t.
Proof. induction s as [|a s IH]; [done|]. rewrite ?append_cons. cbn. by rewrite IH. Qed.

Lemma string_length_list s : String.length s = length (list_ascii_of_string s).
Proof. induction s as [|a s IH]; [done|]. rewrite ?append_cons. cbn. by rewrite IH. Qed.

Lemma string_length_app s t : String.length (String.append s t) = (String.length s + String.length t)%nat.
Proof. rewrite !string_length_list, list_ascii_app, length_app. done. Qed.

Lemma list_ascii_inj s t : list_ascii_of_string s = list_ascii_of_string t -> s = t.
Proof.
  intros E. rewrite <- (string_of_list_ascii_of_string s), <- (string_of_list_ascii_of_string t). by rewrite E.
Qed.

Lemma substring_all s n : (String.length s <= n)%nat -> String.substring 0 n s = s.
Proof. revert n. induction s as [|a s IH]; intros [|n] Hn; cbn in *; try done; [lia|]. f_equal. apply IH. lia. Qed.

(** No [c] in [s]. *)
Definition free_of (c : ascii) (s : string) : bool :=
  forallb (fun a => negb (Ascii.eqb a c)) (list_ascii_of_string s).

Lemma free_of_app c s t : free_of c (String.append s t) = free_of c s && free_of c t.
Proof. unfold free_of. rewrite list_ascii_app. apply forallb_app. Qed.

(** A text up to its first [c] is determined. *)
Lemma delimited_inj c s t r r' :
  free_of c s = true -> free_of c t = true ->
  String.append s (String c r) = String.append t (String c r') -> s = t /\ r = r'.
Proof.
  revert t. induction s as [|a s IH]; intros [|b t]; rewrite ?append_cons, ?append_empty; cbn; intros Hs Ht E.
  - by simplify_eq.
  - injection E as <- _. by rewrite Ascii.eqb_refl in Ht.
  - injection E as -> _. by rewrite Ascii.eqb_refl in Hs.
  - apply andb_true_iff in Hs as [_ Hs]. apply andb_true_iff in Ht as [_ Ht].
    injection E as -> E. by destruct (IH t Hs Ht E) as [-> ->].
Qed.

Lemma string_app_inj_length s t r r' :
  String.length s = String.length t -> String.append s r = String.append t r' -> s = t /\ r = r'.
Proof.
  revert t. induction s as [|a s IH]; intros [|b t]; rewrite ?append_cons, ?append_empty; cbn; intros Hl E; try done.
  injection E as -> E. by destruct (IH t ltac:(lia) E) as [-> ->].
Qed.

Lemma CutPrefix_app p s : CutPrefix (String.append p s) p = Some s.
Proof. induction p as [|a p IH]; rewrite ?append_cons; cbn; [by destruct s|]. by rewrite Ascii.eqb_refl. Qed.

Lemma CutPrefix_Some s p r : CutPrefix s p = Some r <-> s = String.append p r.
Proof.
  split; [|intros ->; apply CutPrefix_app]. revert s. induction p as [|a p IH]; intros [|b s]; rewrite ?append_cons, ?append_empty; cbn;
    try congruence.
  destruct (Ascii.eqb_spec a b) as [->|]; [|done]. intros E%IH. by subst.
Qed.

(** *** Digits *)

Definition digit_range : list Z := Z.of_nat <$> seq 0 16.

Lemma digit_range_in d : 0 <= d < 16 -> d ∈ digit_range.
Proof. intros. apply list_elem_of_fmap. exists (Z.to_nat d). split; [lia|]. apply elem_of_seq. lia. Qed.

(** A property of the sixteen digits, by evaluation. *)
Lemma digits_forall (f : Z -> bool) d : forallb f digit_range = true -> 0 <= d < 16 -> f d = true.
Proof. rewrite forallb_forall. intros H Hd. apply H, list_elem_of_In, digit_range_in, Hd. Qed.

Lemma hex_value_digit d : 0 <= d < 16 -> hex_value (digit_char d) = Some d.
Proof.
  intros Hd. pose proof (digits_forall (fun d => bool_decide (hex_value (digit_char d) = Some d)) d eq_refl Hd) as H.
  by apply bool_decide_eq_true in H.
Qed.

Lemma hex_value_range c d : hex_value c = Some d -> 0 <= d < 16.
Proof.
  unfold hex_value. repeat (case_match; [intros ?; simplify_eq;
    repeat match goal with H : _ && _ = true |- _ => apply andb_true_iff in H as [? ?] end; lia|]). done.
Qed.

Lemma hex_values_digits ds : Forall (fun d => 0 <= d < 16) ds ->
  mapM hex_value (map digit_char ds) = Some ds.
Proof. induction 1 as [|d ds Hd _ IH]; [done|]. cbn [map mapM]. by rewrite hex_value_digit, IH. Qed.

Lemma digits_nonempty b n : digits b n <> [].
Proof.
  unfold digits. assert (H : forall fuel n acc, digits_aux (S fuel) b n acc <> []); [|apply H].
  intros fuel. induction fuel as [|fuel IH]; intros m acc; cbn [digits_aux].
  - by destruct (m <? b).
  - destruct (m <? b); [done|]. apply IH.
Qed.

Lemma ParseUint_string_of_digits b bits ds :
  2 <= b <= 16 -> ds <> [] -> Forall (fun d => 0 <= d < b) ds -> undigits b ds < 2 ^ bits ->
  ParseUint (string_of_digits ds) b bits = Some (undigits b ds).
Proof.
  intros Hb Hne Hf Hv. unfold ParseUint, string_of_digits.
  rewrite list_ascii_of_string_of_list_ascii, hex_values_digits by (eapply Forall_impl; [done|]; cbn; lia).
  destruct ds as [|d ds]; [done|].
  replace (forallb (fun d => d <? b) (d :: ds)) with true.
  - destruct (Z.ltb_spec (undigits b (d :: ds)) (2 ^ bits)); [done|lia].
  - symmetry. apply forallb_forall. intros x Hx%list_elem_of_In. rewrite Forall_forall in Hf.
    specialize (Hf x Hx). lia.
Qed.

Lemma undigits_zeros b k ds : undigits b (repeat 0 k ++ ds) = undigits b ds.
Proof. unfold undigits. rewrite undigits_from_app. f_equal. induction k as [|k IH]; [done|]. exact IH. Qed.

Lemma ParseUint_dec n bits : 0 <= n < 2 ^ bits -> ParseUint (show_dec n) 10 bits = Some n.
Proof.
  intros Hn. unfold show_dec. destruct (Z.ltb_spec n 0); [lia|].
  destruct (digits_spec 10 n) as [Hu Hf]; [lia|lia|].
  rewrite ParseUint_string_of_digits; [by rewrite Hu|lia|apply digits_nonempty|done|lia].
Qed.

Lemma string_of_list_ascii_app l l' :
  string_of_list_ascii (l ++ l') = String.append (string_of_list_ascii l) (string_of_list_ascii l').
Proof. induction l as [|a l IH]; [done|]. cbn. by rewrite IH. Qed.

Lemma pad_zero_digits w ds :
  pad_zero w (string_of_digits ds) =
  string_of_digits (repeat 0 (w - String.length (string_of_digits ds)) ++ ds).
Proof.
  unfold pad_zero. generalize (w - String.length (string_of_digits ds))%nat. intros k.
  unfold string_of_digits. rewrite map_app, string_of_list_ascii_app. f_equal. by rewrite map_repeat.
Qed.

Lemma ParseUint_hex w n bits : 0 <= n < 2 ^ bits -> ParseUint (pad_zero w (show_hex n)) 16 bits = Some n.
Proof.
  intros Hn. unfold show_hex. rewrite pad_zero_digits.
  destruct (digits_spec 16 n) as [Hu Hf]; [lia|lia|].
  rewrite ParseUint_string_of_digits.
  - by rewrite undigits_zeros, Hu.
  - lia.
  - intros [_ H]%app_eq_nil. by apply digits_nonempty in H.
  - apply Forall_app. split; [|done]. apply Forall_forall. intros x Hx%list_elem_of_In%repeat_spec. lia.
  - rewrite undigits_zeros. lia.
Qed.

Lemma undigits_nonneg b ds : 0 <= b -> Forall (fun d => 0 <= d) ds -> 0 <= undigits b ds.
Proof.
  intros Hb Hf. unfold undigits, undigits_from.
  assert (H : forall v, 0 <= v -> 0 <= fold_left (fun v d => v * b + d) ds v); [|by apply H].
  induction Hf as [|x l Hx _ IH]; intros v Hv; cbn; [done|]. apply IH. nia.
Qed.

Lemma ParseUint_range s b bits n : 0 <= b -> ParseUint s b bits = Some n -> 0 <= n < 2 ^ bits.
Proof.
  intros Hb. unfold ParseUint. destruct (mapM hex_value _) as [[|d ds]|] eqn:E; [done| |done].
  destruct (forallb _ _); [|done]. destruct (Z.ltb_spec (undigits b (d :: ds)) (2 ^ bits)); [|done].
  intros [= <-]. split; [|done]. apply undigits_nonneg; [done|].
  apply mapM_Some in E. remember (d :: ds) as l eqn:El. clear El H.
  induction E as [|a x ss l Ha _ IH]; constructor; [|done]. apply hex_value_range in Ha. lia.
Qed.

(** [digits] has no superfluous length: [n < b ^ k] gives at most [k] digits. *)
Lemma digits_aux_length fuel b n acc k :
  2 <= b -> (0 < k)%nat -> 0 <= n < b ^ Z.of_nat k ->
  (length (digits_aux fuel b n acc) <= k + length acc)%nat.
Proof.
  intros Hb. revert n acc k. induction fuel as [|fuel IH]; intros n acc k Hk Hn; cbn; [lia|].
  destruct (Z.ltb_spec n b) as [|Hge]; [cbn; lia|].
  destruct k as [|[|k]]; [lia|rewrite Z.pow_1_r in Hn; lia|].
  assert (Hq : 0 <= n / b < b ^ Z.of_nat (S k)).
  { split; [apply Z.div_pos; lia|]. apply Z.div_lt_upper_bound; [lia|].
    rewrite (Nat2Z.inj_succ (S k)), Z.pow_succ_r in Hn by lia. lia. }
  specialize (IH (n / b) ((n mod b) :: acc) (S k) ltac:(lia) Hq). cbn in IH. lia.
Qed.

Lemma pad_zero_length w s : (String.length s <= w)%nat -> String.length (pad_zero w s) = w.
Proof.
  intros. unfold pad_zero. rewrite string_length_app, (string_length_list (string_of_list_ascii _)).
  rewrite list_ascii_of_string_of_list_ascii, repeat_length. lia.
Qed.

Lemma show_hex_length n k : (0 < k)%nat -> 0 <= n < 16 ^ Z.of_nat k -> (String.length (show_hex n) <= k)%nat.
Proof.
  intros Hk Hn. unfold show_hex, string_of_digits.
  rewrite string_length_list, list_ascii_of_string_of_list_ascii, length_map.
  unfold digits. etransitivity; [eapply digits_aux_length; [lia|exact Hk|exact Hn]|]. cbn. lia.
Qed.

(** *** Hex bytes *)

Definition is_byte (b : Z) : Prop := 0 <= b < 256.

Lemma byte_nibbles b : is_byte b -> 0 <= b / 16 < 16 /\ 0 <= b mod 16 < 16.
Proof.
  unfold is_byte. intros. split; [|apply Z.mod_pos_bound; lia].
  split; [apply Z.div_pos; lia|apply Z.div_lt_upper_bound; lia].
Qed.

Lemma DecodeString_Encode bs : Forall is_byte bs -> DecodeString (EncodeToString bs) = Some bs.
Proof.
  induction 1 as [|b bs Hb _ IH]; [done|]. cbn [EncodeToString DecodeString].
  destruct (byte_nibbles b Hb). rewrite !hex_value_digit by done. cbn. rewrite IH. cbn.
  do 2 f_equal. pose proof (Z.div_mod b 16). lia.
Qed.

Lemma EncodeToString_length bs : String.length (EncodeToString bs) = (2 * length bs)%nat.
Proof. induction bs as [|b bs IH]; [done|]. cbn [EncodeToString String.length Datatypes.length]. lia. Qed.

Lemma DecodeString_bytes s bs : DecodeString s = Some bs -> Forall is_byte bs /\ String.length s = (2 * length bs)%nat.
Proof.
  revert s. induction bs as [|b bs IH]; intros [|a [|c s]]; cbn; try done.
  - destruct (hex_value a); [|done]. destruct (hex_value c); [|done]. by destruct (DecodeString s).
  - destruct (hex_value a) as [x|] eqn:Ea; [|done]. destruct (hex_value c) as [y|] eqn:Ec; [|done]. cbn.
    destruct (DecodeString s) as [bs'|] eqn:Es; [|done]. intros [= <- <-].
    apply hex_value_range in Ea, Ec. destruct (IH s Es) as [Hf ->].
    split; [|cbn; lia]. constructor; [unfold is_byte; lia|done].
Qed.

(** *** Lines *)

Lemma split_on_lines ls :
  forallb (free_of (ascii_of_nat 10)) ls = true ->
  split_on (ascii_of_nat 10) (String.concat "" (map (fun l => String.append l newline) ls)) = ls ++ [""].
Proof.
  induction ls as [|l ls IH]; [done|]. cbn [forallb]. intros [Hl Hls]%andb_true_iff.
  assert (E : forall l ls, String.concat "" (map (fun l => String.append l newline) (l :: ls)) =
    String.append l (String (ascii_of_nat 10) (String.concat "" (map (fun l => String.append l newline) ls)))).
  { clear. intros l ls. cbn [map]. destruct ls as [|l' ls]; cbn [map String.concat].
    - done.
    - change (String.append "" ?x) with x. rewrite string_app_assoc. done. }
  rewrite E, split_on_app by done. by rewrite (IH Hls).
Qed.

Lemma raw_lines_concat ls :
  forallb (free_of (ascii_of_nat 10)) ls = true ->
  raw_lines (String.concat "" (map (fun l => String.append l newline) ls)) = ls.
Proof. intros H. unfold raw_lines. rewrite split_on_lines, rev_app_distr by done. cbn. apply rev_involutive. Qed.

Lemma dropCR_id s : free_of (ascii_of_nat 13) s = true -> dropCR s = s.
Proof.
  induction s as [|c s IH]; [done|]. intros H.
  change (negb (Ascii.eqb c (ascii_of_nat 13)) && free_of (ascii_of_nat 13) s = true) in H.
  apply andb_true_iff in H as [Hc Hs].
  apply negb_true_iff, Ascii.eqb_neq in Hc. cbn [dropCR]. destruct s as [|c' s].
  - destruct (Nat.eqb_spec (nat_of_ascii c) 13) as [E|]; [|done]. exfalso. apply Hc.
    by rewrite <- (ascii_nat_embedding c), E.
  - by rewrite (IH Hs).
Qed.

(** *** Decimal text *)

Lemma string_of_digits_free c ds :
  forallb (fun d => negb (Ascii.eqb (digit_char d) c)) digit_range = true ->
  Forall (fun d => 0 <= d < 16) ds -> free_of c (string_of_digits ds) = true.
Proof.
  intros Hc. unfold free_of, string_of_digits. rewrite list_ascii_of_string_of_list_ascii.
  induction 1 as [|d ds Hd _ IH]; [done|]. cbn [map forallb]. rewrite IH, andb_true_r.
  by apply (digits_forall (fun d => negb (Ascii.eqb (digit_char d) c))).
Qed.

Definition ten_digits : list Z := Z.of_nat <$> seq 0 10.

Lemma digits10_free c n :
  forallb (fun d => negb (Ascii.eqb (digit_char d) c)) ten_digits = true -> 0 <= n ->
  free_of c (string_of_digits (digits 10 n)) = true.
Proof.
  intros Hc Hn. unfold free_of, string_of_digits. rewrite list_ascii_of_string_of_list_ascii.
  destruct (digits_spec 10 n) as [_ Hf]; [lia|done|].
  induction Hf as [|d ds Hd _ IH]; [done|]. cbn [map forallb]. rewrite IH, andb_true_r.
  rewrite forallb_forall in Hc. apply Hc, list_elem_of_In, list_elem_of_fmap.
  exists (Z.to_nat d). split; [lia|]. apply elem_of_seq. lia.
Qed.

Lemma show_dec_free c n :
  forallb (fun d => negb (Ascii.eqb (digit_char d) c)) ten_digits = true -> Ascii.eqb "-" c = false ->
  free_of c (show_dec n) = true.
Proof.
  intros Hc Hm. unfold show_dec. destruct (Z.ltb_spec n 0).
  - rewrite free_of_app, digits10_free by (done || lia). unfold free_of. cbn [list_ascii_of_string forallb].
    by rewrite Hm.
  - apply digits10_free; [done|lia].
Qed.

Lemma digits_inj n m : 0 <= n -> 0 <= m -> string_of_digits (digits 10 n) = string_of_digits (digits 10 m) -> n = m.
Proof.
  intros Hn Hm E.
  assert (Hp : forall k b, 0 <= k < 2 ^ b -> ParseUint (string_of_digits (digits 10 k)) 10 b = Some k).
  { intros k b Hk. pose proof (ParseUint_dec k b Hk) as H. unfold show_dec in H.
    by rewrite (proj2 (Z.ltb_ge k 0)) in H by lia. }
  pose proof (Z.pow_gt_lin_r 2 (n + m) ltac:(lia) ltac:(lia)) as Hpow.
  pose proof (Hp n (n + m) ltac:(lia)) as E1. pose proof (Hp m (n + m) ltac:(lia)) as E2. congruence.
Qed.

Lemma show_dec_inj n m : show_dec n = show_dec m -> n = m.
Proof.
  assert (Hd : forall k, 0 <= k -> free_of "-" (string_of_digits (digits 10 k)) = true)
    by (intros; by apply digits10_free).
  unfold show_dec. destruct (Z.ltb_spec n 0), (Z.ltb_spec m 0); rewrite ?append_cons, ?append_empty; intros E.
  - injection E as E. apply digits_inj in E; lia.
  - pose proof (Hd m ltac:(lia)) as Hm. rewrite <- E in Hm. done.
  - pose proof (Hd n ltac:(lia)) as Hn. rewrite E in Hn. done.
  - by apply digits_inj.
Qed.

Lemma concat_empty_cons x l : String.concat "" (x :: l) = String.append x (String.concat "" l).
Proof. destruct l; cbn [String.concat]; [by rewrite string_app_nil|done]. Qed.

Lemma string_app_inj_r s t u : String.append s u = String.append t u -> s = t.
Proof.
  intros E%(f_equal list_ascii_of_string). rewrite !list_ascii_app in E.
  by apply app_inv_tail, list_ascii_inj in E.
Qed.

(** *** [slices.Sort] and [slices.Compact] on strings *)

Fixpoint compact (l : list string) : list string :=
  match l with
  | x :: (y :: _) as l' => if x =s y then compact l' else x :: compact l'
  | _ => l
  end.

Definition str_lt (a b : string) : Prop := String.ltb a b = true.
Definition str_le (a b : string) : Prop := a = b \/ str_lt a b.

Lemma str_lt_irrefl a : ~ str_lt a a.
Proof. intros H. pose proof (ltb_asym a a H). unfold str_lt in H. congruence. Qed.

Lemma str_le_trans a b c : str_le a b -> str_le b c -> str_le a c.
Proof. intros [->|H1] [->|H2]; [by left|by right..|right; by eapply ltb_trans]. Qed.

Lemma str_le_total a b : str_le a b \/ str_lt b a.
Proof.
  destruct (decide (a = b)) as [->|Hne]; [by left; left|].
  destruct (ltb_total a b Hne); [left; by right|by right].
Qed.

Lemma insert_str_sorted x l : StronglySorted str_le l -> StronglySorted str_le (insert_by String.ltb x l).
Proof.
  induction 1 as [|y l Hs IH Hf]; cbn; [repeat constructor|].
  destruct (String.ltb y x) eqn:E.
  - constructor; [done|]. rewrite insert_by_perm. constructor; [by right|done].
  - assert (Hxy : str_le x y).
    { destruct (str_le_total x y) as [H|H]; [done|]. unfold str_lt in H. congruence. }
    constructor; [by constructor|]. constructor; [done|].
    eapply Forall_impl; [exact Hf|]. intros z Hz. by eapply str_le_trans.
Qed.

Lemma sort_str_sorted l : StronglySorted str_le (sort_by String.ltb l).
Proof. induction l as [|x l IH]; [constructor|]. by apply insert_str_sorted. Qed.

Lemma elem_of_compact x l : x ∈ compact l <-> x ∈ l.
Proof.
  induction l as [|y [|z l] IH]; [done..|]. cbn [compact] in *.
  destruct (String.eqb_spec y z) as [->|]; rewrite ?elem_of_cons, ?IH, ?elem_of_cons; tauto.
Qed.

Lemma compact_sorted l : StronglySorted str_le l -> StronglySorted str_lt (compact l).
Proof.
  induction l as [|y [|z l] IH]; [constructor|repeat constructor|].
  intros [Hs Hf]%StronglySorted_inv.
  change (StronglySorted str_lt (if y =s z then compact (z :: l) else y :: compact (z :: l))).
  destruct (String.eqb_spec y z) as [->|Hne]; [by apply IH|].
  constructor; [by apply IH|]. apply Forall_cons in Hf as [Hyz Hf].
  assert (Hlt : str_lt y z) by (destruct Hyz; [done|done]).
  apply StronglySorted_inv in Hs as [_ Hz]. apply Forall_forall. intros w Hw. rewrite elem_of_compact in Hw.
  apply elem_of_cons in Hw as [->|Hw]; [done|]. rewrite Forall_forall in Hz.
  destruct (Hz w Hw) as [->|H]; [done|]. by eapply ltb_trans.
Qed.

Lemma strict_sorted_NoDup l : StronglySorted str_lt l -> NoDup l.
Proof.
  induction 1 as [|x l Hs IH Hf]; constructor; [|done]. intros Hx. rewrite Forall_forall in Hf.
  by eapply str_lt_irrefl, Hf.
Qed.

(** Strictly sorted lists with the same elements are equal. *)
Lemma strict_sorted_ext l l' :
  StronglySorted str_lt l -> StronglySorted str_lt l' -> (forall x, x ∈ l <-> x ∈ l') -> l = l'.
Proof.
  intros Hs Hs' He. apply (StronglySorted_unique_strong str_lt); [|done|done|].
  - intros x y _ _ Hxy Hyx. pose proof (ltb_asym _ _ Hxy). unfold str_lt in Hyx. congruence.
  - by apply NoDup_Permutation; [apply strict_sorted_NoDup..|].
Qed.

Definition sorted_set (l : list string) : list string := compact (sort_by String.ltb l).

Lemma sorted_set_spec l : StronglySorted str_lt (sorted_set l) /\ forall x, x ∈ sorted_set l <-> x ∈ l.
Proof.
  unfold sorted_set. split; [apply compact_sorted, sort_str_sorted|].
  intros x. by rewrite elem_of_compact, sort_by_perm.
Qed.
