(* ===== verification/Api.v ===== *)
(** * Api: the custom resources and the apimachinery helpers

    The records mirror the Go structs of [src/api/v1alpha3] field by field
    (JSON tags and kubebuilder markers have no counterpart).  A Go pointer is
    an [option], a Go string stays a string even where the CRD schema
    restricts it to an enumeration, since the controllers compare and store
    arbitrary values, and instants are [Z] nanoseconds since Go's zero time,
    so that [IsZero] is [= 0].

    The helpers of [k8s.io/apimachinery] and [controllerutil] are third-party:
    they are the operations of the class [ApiMachinery], and what the
    controllers rely on are the laws of [ApiMachineryLaws]. *)

From S2P Require Import Prelude.
Local Open Scope string_scope.
Local Open Scope list_scope.
Local Open Scope nat_scope.

(** ** metav1 *)

Record OwnerReference := mkOwnerReference {
  or_APIVersion : string; or_Kind : string; or_Name : string; or_UID : string;
  or_BlockOwnerDeletion : bool; or_Controller : bool }.

Record ObjectMeta := newObjectMeta {
  Name : string;
  GenerateName : string;
  Namespace : string;
  UID : string;
  ResourceVersion : string;
  Generation : Z;
  CreationTimestamp : Z;
  DeletionTimestamp : option Z;
  Finalizers : list string;
  Labels : gmap string string;
  Annotations : gmap string string;
  OwnerReferences : list OwnerReference }.

#[export] Instance eta_ObjectMeta : Eta ObjectMeta := fun r =>
  newObjectMeta (Name r) (GenerateName r) (Namespace r) (UID r) (ResourceVersion r) (Generation r)
    (CreationTimestamp r) (DeletionTimestamp r) (Finalizers r) (Labels r)
    (Annotations r) (OwnerReferences r).

(** The metadata of an object with a name of its own. *)
Abbreviation mkObjectMeta name namespace uid version generation created deleted finalizers labels annotations owners :=
  (newObjectMeta name EmptyString namespace uid version generation created deleted finalizers labels annotations owners).

Definition ConditionTrue : string := "True".
Definition ConditionFalse : string := "False".

(** [metav1.Condition]; [lastTransitionTime] is written by the helpers and
    read by no code of the repository, so it is not kept. *)
Record Condition := mkCondition {
  cd_Type : string;
  cd_Status : string;
  cd_ObservedGeneration : Z;
  cd_Reason : string;
  cd_Message : string }.

Record ObjectKey := mkKey { key_Namespace : string; key_Name : string }.

(** ** Shared reference types *)

Record NameRef := mkNameRef { nr_Namespace : string; nr_Name : string }.
Record SecretReference := mkSecretReference { sr_Name : string }.

#[export] Instance NameRef_eq_dec : EqDecision NameRef.
Proof. solve_decision. Defined.

Record MachineClaimReference := mkClaimReference {
  cr_Name : string; cr_Namespace : string; cr_UID : string }.

(** ** Disks *)

Record TargetDiskHints := mkHints {
  h_DeviceName : string;
  h_SerialNumber : string;
  h_WWN : string;
  h_Model : string;
  h_Vendor : string;
  h_MinSizeGigabytes : option Z;
  h_MaxSizeGigabytes : option Z;
  h_Rotational : option bool;
  h_PciePath : string;
  h_HCTL : string;
  h_SlotNumber : option Z }.

#[export] Instance TargetDiskHints_eq_dec : EqDecision TargetDiskHints.
Proof. solve_decision. Defined.

Record MachineHardwareDisk := mkDisk {
  d_DeviceName : string;
  d_SerialNumber : string;
  d_WWN : string;
  d_Model : string;
  d_Vendor : string;
  d_SizeBytes : Z;
  d_Rotational : option bool;
  d_PciePath : string;
  d_HCTL : string;
  d_SlotNumber : option Z }.

#[export] Instance MachineHardwareDisk_eq_dec : EqDecision MachineHardwareDisk.
Proof. solve_decision. Defined.

Record MachineHardwareNIC := mkNIC { nic_Name : string; nic_MACAddress : string }.

Record MachineHardwareSpec := mkHardwareSpec {
  hw_Disks : list MachineHardwareDisk;
  hw_Nics : list MachineHardwareNIC;
  hw_MemoryBytes : Z;
  hw_CPUCount : Z }.

Record MachineHardware := mkHardware {
  hardware_meta :> ObjectMeta; hw_Spec : MachineHardwareSpec }.

Record MachineDataImage := mkDataImage {
  di_ImageRef : NameRef; di_TargetDisk : option TargetDiskHints }.

#[export] Instance MachineDataImage_eq_dec : EqDecision MachineDataImage.
Proof. solve_decision. Defined.

(** ** Machine *)

Definition AfterDeployReboot : string := "Reboot".
Definition AfterDeployPowerOff : string := "PowerOff".

Definition MachineFinalizer : string := "kezio.kojuro.date/machine".
Definition MachineCredentialsSecretLabel : string := "kezio.kojuro.date/bmc-credentials-secret".
Definition MachineCredentialsSecretFinalizer : string := "kezio.kojuro.date/bmc-credentials".

Definition MachineAnnotationPaused : string := "kezio.kojuro.date/paused".
Definition MachineAnnotationDetached : string := "kezio.kojuro.date/detached".
Definition MachineAnnotationRebootPrefix : string := "kezio.kojuro.date/reboot".
Definition MachineAnnotationInspectDisable : string := "kezio.kojuro.date/inspect-disable".
Definition MachineAnnotationReInspect : string := "kezio.kojuro.date/re-inspect".
Definition MachineAnnotationBMCInsecureSkipVerify : string :=
  "kezio.kojuro.date/bmc-insecure-skip-verify".
Definition MachineAnnotationConfirmStatusLoss : string := "kezio.kojuro.date/confirm-status-loss".
Definition MachineAnnotationClearError : string := "kezio.kojuro.date/clear-error".

Definition MachineRebootModeSoft : string := "soft".
Definition MachineRebootModeHard : string := "hard".

Definition MachineStateEnrolling : string := "Enrolling".
Definition MachineStateInspecting : string := "Inspecting".
Definition MachineStateAvailable : string := "Available".
Definition MachineStateProvisioning : string := "Provisioning".
Definition MachineStateProvisioned : string := "Provisioned".
Definition MachineStateDeprovisioning : string := "Deprovisioning".
Definition MachineStatePoweringOff : string := "PoweringOff".
Definition MachineStateReleased : string := "Released".

Definition MachineOperationalStatusOK : string := "OK".
Definition MachineOperationalStatusError : string := "error".
Definition MachineOperationalStatusDelayed : string := "delayed".
Definition MachineOperationalStatusDetached : string := "detached".

Definition MachineErrorTypeTransient : string := "Transient".
Definition MachineErrorTypeRestart : string := "Restart".

Definition MachineConditionProgressing : string := "Progressing".
Definition MachineConditionAgentRegistered : string := "AgentRegistered".
Definition MachineConditionStatusLossHold : string := "StatusLossHold".
Definition MachineConditionRetryHeld : string := "RetryHeld".

Record MachineBMC := mkBMC { bmc_Address : string; bmc_CredentialsSecretRef : SecretReference }.

Record MachineSpec := mkMachineSpec {
  BMC : MachineBMC;
  BootMACAddress : string;
  SubnetRef : NameRef;
  ClaimRef : option MachineClaimReference;
  Console : list string;
  BootTimeout : option Z }.

#[export] Instance eta_MachineSpec : Eta MachineSpec := fun r =>
  mkMachineSpec (BMC r) (BootMACAddress r) (SubnetRef r) (ClaimRef r) (Console r) (BootTimeout r).

Record MachineCredentialsStatus := mkCredentialsStatus {
  cs_SecretRef : option SecretReference; cs_ResourceVersion : string }.

Record MachineNetBootStatus := mkNetBoot { nb_TokenHash : string; nb_ExpiresAt : Z }.
Record MachineAgentSessionStatus := mkAgentSession { as_TokenHash : string; as_ExpiresAt : Z }.

Record MachineStatus := mkMachineStatus {
  State : string;
  OperationalStatus : string;
  ErrorType : string;
  ErrorCount : Z;
  RestartCount : Z;
  ErrorMessage : string;
  GoodCredentials : MachineCredentialsStatus;
  TriedCredentials : MachineCredentialsStatus;
  CurrentRunRef : option NameRef;
  LastSuccessfulRunRef : option NameRef;
  LastAttemptedRunRef : option NameRef;
  PoweredOn : option bool;
  LastUpdated : option Z;
  NetBoot : option MachineNetBootStatus;
  AgentSession : option MachineAgentSessionStatus;
  Conditions : list Condition }.

#[export] Instance eta_MachineStatus : Eta MachineStatus := fun r =>
  mkMachineStatus (State r) (OperationalStatus r) (ErrorType r) (ErrorCount r) (RestartCount r)
    (ErrorMessage r) (GoodCredentials r) (TriedCredentials r) (CurrentRunRef r)
    (LastSuccessfulRunRef r) (LastAttemptedRunRef r) (PoweredOn r) (LastUpdated r)
    (NetBoot r) (AgentSession r) (Conditions r).

Record Machine := mkMachine {
  machine_meta :> ObjectMeta; Spec : MachineSpec; Status : MachineStatus }.

#[export] Instance eta_Machine : Eta Machine := fun r =>
  mkMachine (machine_meta r) (Spec r) (Status r).

(** [machine.Status.f = v] for an update [f] of the status. *)
Definition with_status (f : MachineStatus -> MachineStatus) (m : Machine) : Machine :=
  m <| Status := f (Status m) |>.

(** ** Slices

    Where the code distinguishes a nil slice from an empty one
    ([reflect.DeepEqual]) a slice is an [option (list A)]. *)
Definition slice {A} (s : option (list A)) : list A := default [] s.

(** ** MachineClaim *)

Record ClaimHardwareDiskSelector := mkDiskSelector {
  ds_Model : string;
  ds_Vendor : string;
  ds_MinSizeGigabytes : option Z;
  ds_Rotational : option bool }.

Record ClaimHardwareSelector := mkHardwareSelector {
  hs_MinCPUCount : option Z;
  hs_MinMemoryBytes : option Z;
  hs_Disks : list ClaimHardwareDiskSelector }.

(** [metav1.LabelSelector]; its meaning is a parameter (see [LabelSelectors]). *)
Record LabelSelectorRequirement := mkRequirement {
  lr_Key : string; lr_Operator : string; lr_Values : list string }.
Record LabelSelector := mkLabelSelector {
  ls_MatchLabels : gmap string string; ls_MatchExpressions : list LabelSelectorRequirement }.

Record MachineClaimSelector := mkClaimSelector {
  sel_LabelSelector : LabelSelector; sel_Hardware : option ClaimHardwareSelector }.

Record MachineEzioTuning := mkEzioTuning {
  ez_CacheSizeMB : option Z; ez_AioThreads : option Z; ez_MaxUploads : option Z;
  ez_MaxConnections : option Z; ez_Port : option Z }.

Record MachineClaimSpec := mkClaimSpec {
  cl_MachineName : string;
  cl_Selector : option MachineClaimSelector;
  cl_ImageRef : option NameRef;
  cl_DataImages : option (list MachineDataImage);
  cl_TargetDisk : option TargetDiskHints;
  cl_PostHookRefs : list NameRef;
  cl_Params : option string;
  cl_Ezio : option MachineEzioTuning;
  cl_AfterDeploy : string }.

Definition MachineClaimPhasePending : string := "Pending".
Definition MachineClaimPhaseBound : string := "Bound".
Definition MachineClaimPhaseFailed : string := "Failed".
Definition MachineClaimConditionBound : string := "Bound".
Definition MachineClaimConditionReady : string := "Ready".
Definition MachineClaimFinalizer : string := "kezio.kojuro.date/machineclaim".

Record MachineClaimStatus := mkClaimStatus {
  cst_Phase : string;
  cst_MachineName : string;
  cst_BoundAt : option Z;
  cst_CurrentRunRef : option NameRef;
  cst_LastSuccessfulRunRef : option NameRef;
  cst_Conditions : list Condition }.

#[export] Instance eta_MachineClaimStatus : Eta MachineClaimStatus := fun r =>
  mkClaimStatus (cst_Phase r) (cst_MachineName r) (cst_BoundAt r) (cst_CurrentRunRef r)
    (cst_LastSuccessfulRunRef r) (cst_Conditions r).

Record MachineClaim := mkClaim {
  claim_meta :> ObjectMeta; claim_Spec : MachineClaimSpec; claim_Status : MachineClaimStatus }.

#[export] Instance eta_MachineClaim : Eta MachineClaim := fun r =>
  mkClaim (claim_meta r) (claim_Spec r) (claim_Status r).

(** ** DeployRun *)

Record DeployRunResolvedDisk := mkResolvedDisk { rd_ImageRef : NameRef; rd_TargetDisk : string }.

Record DeployRunSpec := mkRunSpec {
  run_MachineRef : NameRef;
  run_ClaimRef : option MachineClaimReference;
  run_ImageRef : option NameRef;
  run_DataImages : option (list MachineDataImage);
  run_ResolvedDisks : list DeployRunResolvedDisk;
  run_HooksHash : string }.

#[export] Instance eta_DeployRunSpec : Eta DeployRunSpec := fun r =>
  mkRunSpec (run_MachineRef r) (run_ClaimRef r) (run_ImageRef r) (run_DataImages r)
    (run_ResolvedDisks r) (run_HooksHash r).

Definition DeployRunPhasePending : string := "Pending".
Definition DeployRunPhasePartitioning : string := "Partitioning".
Definition DeployRunPhaseWritingContent : string := "WritingContent".
Definition DeployRunPhaseRunningPostHook : string := "RunningPostHook".
Definition DeployRunPhaseFinalizing : string := "Finalizing".
Definition DeployRunPhaseSucceeded : string := "Succeeded".
Definition DeployRunPhaseFailed : string := "Failed".
Definition DeployRunConditionSucceeded : string := "Succeeded".

Record DeployRunPartitionProgress := mkPartitionProgress {
  pp_Number : Z; pp_Percent : Z; pp_BytesDone : Z }.

Record DeployRunPhaseTiming := mkPhaseTiming {
  pt_Phase : string; pt_StartedAt : Z; pt_FinishedAt : option Z }.

#[export] Instance eta_DeployRunPhaseTiming : Eta DeployRunPhaseTiming := fun r =>
  mkPhaseTiming (pt_Phase r) (pt_StartedAt r) (pt_FinishedAt r).

Record DeployRunStatus := mkRunStatus {
  Phase : string;
  Partitions : list DeployRunPartitionProgress;
  PhaseTimings : list DeployRunPhaseTiming;
  LastProgressAt : option Z;
  run_Conditions : list Condition }.

#[export] Instance eta_DeployRunStatus : Eta DeployRunStatus := fun r =>
  mkRunStatus (Phase r) (Partitions r) (PhaseTimings r) (LastProgressAt r) (run_Conditions r).

Record DeployRun := mkRun {
  run_meta :> ObjectMeta; run_Spec : DeployRunSpec; run_Status : DeployRunStatus }.

#[export] Instance eta_DeployRun : Eta DeployRun := fun r =>
  mkRun (run_meta r) (run_Spec r) (run_Status r).

(** [run.Status.f = v]. *)
Definition with_run_status (f : DeployRunStatus -> DeployRunStatus) (r : DeployRun) : DeployRun :=
  r <| run_Status := f (run_Status r) |>.

(** ** Image *)

Definition OSFamilyLinux : string := "Linux".
Definition OSFamilyWindows : string := "Windows".
Definition OSFamilyFreeBSD : string := "FreeBSD".
Definition OSFamilyOther : string := "Other".
Definition PartitionTableGPT : string := "gpt".
Definition PartitionTableMBR : string := "mbr".
Definition PartitionRoleESP : string := "esp".
Definition PartitionRoleData : string := "data".
Definition PartitionRoleSwap : string := "swap".
Definition PartitionRoleMSR : string := "msr".

Record ImageSlot := mkImageSlot {
  is_Number : Z; is_Role : string; is_ContentRef : option NameRef; is_FSType : string; is_UUID : string;
  is_TypeGUID : string; is_PartUUID : string; is_SizeBytes : Z }.

Record ImageDiskLayout := mkLayout { lay_PartitionTable : string; lay_SfdiskJSON : string; lay_Slots : list ImageSlot }.

(** JSON values are kept as their text. *)
Record ImageSpec := mkImageSpec {
  img_OSFamily : string; img_Bootable : option bool; img_Layout : ImageDiskLayout; img_Params : option string;
  img_PostHookRefs : list NameRef }.

Definition EffectiveBootable (s : ImageSpec) : bool := default true (img_Bootable s).
Definition EffectiveOSFamily (s : ImageSpec) : string := if img_OSFamily s =s "" then OSFamilyLinux else img_OSFamily s.

Definition ImageStatePending : string := "Pending".
Definition ImageStateReady : string := "Ready".
Definition ImageStateFailed : string := "Failed".
Definition ImageConditionReady : string := "Ready".
Definition ImageConditionValid : string := "Valid".
Definition ImageConditionSeederDegraded : string := "SeederDegraded".

Record ImageStatus := mkImageStatus { img_State : string; img_Conditions : list Condition }.

#[export] Instance eta_ImageStatus : Eta ImageStatus := fun r => mkImageStatus (img_State r) (img_Conditions r).

Record Image := mkImage { image_meta :> ObjectMeta; image_Spec : ImageSpec; image_Status : ImageStatus }.

#[export] Instance eta_Image : Eta Image := fun r => mkImage (image_meta r) (image_Spec r) (image_Status r).

Definition image_Conditions (i : Image) : list Condition := img_Conditions (image_Status i).

(** ** PartitionContent *)

Record PartitionContentSource := mkContentSource { pcs_ImportName : string; pcs_PartitionNumber : Z }.

Record PartitionContentSpec := mkContentSpec {
  pc_FSType : string; pc_UsedBytes : Z; pc_SizeBytes : Z; pc_LastExtentEnd : Z; pc_PieceLength : Z;
  pc_Source : PartitionContentSource }.

Definition PartitionContentStatePending : string := "Pending".
Definition PartitionContentStatePublishing : string := "Publishing".
Definition PartitionContentStateReady : string := "Ready".
Definition PartitionContentStateFailed : string := "Failed".
Definition PartitionContentConditionReady : string := "Ready".
Definition PartitionContentConditionValid : string := "Valid".
Definition PartitionContentConditionSeederDegraded : string := "SeederDegraded".
Definition PartitionContentConditionDeletionBlocked : string := "DeletionBlocked".
Definition PartitionContentFinalizer : string := "kezio.kojuro.date/partitioncontent".

Record PartitionContentSeederSite := mkSeederSite { ss_Site : string; ss_MachineCount : Z }.

Record PartitionContentStatus := mkContentStatus {
  pc_State : string; pc_InfoHash : string; pc_PVCRef : option NameRef; pc_Seeders : list PartitionContentSeederSite;
  pc_Conditions : list Condition }.

#[export] Instance eta_PartitionContentStatus : Eta PartitionContentStatus := fun r =>
  mkContentStatus (pc_State r) (pc_InfoHash r) (pc_PVCRef r) (pc_Seeders r) (pc_Conditions r).

Record PartitionContent := mkContent {
  content_meta :> ObjectMeta; content_Spec : PartitionContentSpec; content_Status : PartitionContentStatus }.

#[export] Instance eta_PartitionContent : Eta PartitionContent := fun r =>
  mkContent (content_meta r) (content_Spec r) (content_Status r).

(** ** ImageImport *)

Record ImportSource := mkImportSource { src_URL : string; src_Checksum : string }.

(** [imp_ScratchSize] is the quantity's value in bytes. *)
Record ImageImportSpec := mkImportSpec {
  imp_Source : ImportSource; imp_ImageName : string; imp_ContentPrefix : string; imp_OSFamily : string;
  imp_Bootable : option bool; imp_Params : option string; imp_PostHookRefs : list NameRef;
  imp_ScratchSize : option Z; imp_TTLSecondsAfterFinished : option Z }.

Definition ImageImportStatePending : string := "Pending".
Definition ImageImportStateIngesting : string := "Ingesting".
Definition ImageImportStateSucceeded : string := "Succeeded".
Definition ImageImportStateFailed : string := "Failed".
Definition ImageImportConditionReady : string := "Ready".

Record ImageImportStatus := mkImportStatus {
  imp_State : string; imp_ImageRef : option NameRef; imp_ContentRefs : list NameRef; imp_CompletionTime : option Z;
  imp_Conditions : list Condition }.

#[export] Instance eta_ImageImportStatus : Eta ImageImportStatus := fun r =>
  mkImportStatus (imp_State r) (imp_ImageRef r) (imp_ContentRefs r) (imp_CompletionTime r) (imp_Conditions r).

Record ImageImport := mkImport { import_meta :> ObjectMeta; import_Spec : ImageImportSpec; import_Status : ImageImportStatus }.

#[export] Instance eta_ImageImport : Eta ImageImport := fun r => mkImport (import_meta r) (import_Spec r) (import_Status r).

(** ** PostHook *)

Definition PostHookDefaultTimeoutSeconds : Z := 60.
Definition PostHookReservedParamMachineName : string := "machineName".
Definition PostHookReservedParamImageName : string := "imageName".
Definition PostHookReservedParamTargetDisk : string := "targetDisk".

Record PostHookParam := mkHookParam { hp_Name : string; hp_Default : option string }.

Definition BuiltinStepMkswap : string := "mkswap".
Definition BuiltinStepEfibootmgr : string := "efibootmgr".
Definition BuiltinStepGrowLastPartition : string := "growLastPartition".
Definition BuiltinStepInstallRemovableFallback : string := "install-removable-fallback".

Record PostHookBuiltinStep := mkBuiltinStep { bi_Name : string; bi_TimeoutSeconds : Z; bi_Params : gmap string string }.

(** [EffectiveTimeoutSeconds] of a builtin and of a script step. *)
Definition effective_timeout (t : Z) : Z := if (t =? 0)%Z then PostHookDefaultTimeoutSeconds else t.

Record KeyRef := mkKeyRef { kr_Name : string; kr_Key : string }.

Record PostHookScriptSource := mkScriptSource {
  sc_Script : string; sc_ConfigMapRef : option KeyRef; sc_SecretRef : option KeyRef; sc_TimeoutSeconds : Z }.

Definition PostHookScriptSourceInline : string := "inline".
Definition PostHookScriptSourceConfigMapRef : string := "configMapRef".
Definition PostHookScriptSourceSecretRef : string := "secretRef".
Definition PostHookScriptSourceUnknown : string := "".

Definition SourceKind (s : PostHookScriptSource) : string :=
  if sc_Script s <>s "" then PostHookScriptSourceInline
  else match sc_ConfigMapRef s, sc_SecretRef s with
       | Some _, _ => PostHookScriptSourceConfigMapRef
       | None, Some _ => PostHookScriptSourceSecretRef
       | None, None => PostHookScriptSourceUnknown
       end.

Record PostHookStep := mkPostHookStep {
  ps_OSFamily : string; ps_Builtin : option PostHookBuiltinStep; ps_Script : option PostHookScriptSource }.

Record PostHookSpec := mkPostHookSpec { ph_Params : list PostHookParam; ph_Steps : list PostHookStep }.

Definition PostHookConditionReady : string := "Ready".
Definition PostHookConditionValid : string := "Valid".

Record PostHookStatus := mkPostHookStatus { ph_ObservedGeneration : Z; ph_Conditions : list Condition }.

#[export] Instance eta_PostHookStatus : Eta PostHookStatus := fun r =>
  mkPostHookStatus (ph_ObservedGeneration r) (ph_Conditions r).

Record PostHook := mkPostHook { posthook_meta :> ObjectMeta; ph_Spec : PostHookSpec; ph_Status : PostHookStatus }.

#[export] Instance eta_PostHook : Eta PostHook := fun r => mkPostHook (posthook_meta r) (ph_Spec r) (ph_Status r).

(** ** Site *)

Record SiteTracker := mkTracker { tr_IP : string; tr_ExternalURL : string }.
Record SiteSpec := mkSiteSpec { site_SeederSubnetRef : option NameRef; site_Tracker : SiteTracker }.

Definition SiteConditionReady : string := "Ready".
Definition SiteConditionValid : string := "Valid".
Definition SiteConditionTrackerNetworkReady : string := "TrackerNetworkReady".

Record SiteStatus := mkSiteStatus {
  site_SubnetRefs : list string; site_SeederReady : bool; site_TrackerURL : string; site_Conditions : list Condition }.

#[export] Instance eta_SiteStatus : Eta SiteStatus := fun r =>
  mkSiteStatus (site_SubnetRefs r) (site_SeederReady r) (site_TrackerURL r) (site_Conditions r).

Record Site := mkSite { site_meta :> ObjectMeta; site_Spec : SiteSpec; site_Status : SiteStatus }.

#[export] Instance eta_Site : Eta Site := fun r => mkSite (site_meta r) (site_Spec r) (site_Status r).

(** ** Objects of other API groups: the fields kezio reads *)

Record ConfigMap := mkConfigMap { configmap_meta :> ObjectMeta; cm_Data : gmap string string }.

(** ** Secret ([corev1]) *)

Record Secret := mkSecret {
  secret_meta :> ObjectMeta; secret_Type : string; secret_Data : gmap string string }.

#[export] Instance eta_Secret : Eta Secret := fun r => mkSecret (secret_meta r) (secret_Type r) (secret_Data r).

(** ** Subnet *)

Definition SubnetDHCPModeProxy : string := "proxy".
Definition SubnetDHCPModeLease : string := "lease".
Definition SubnetConditionDHCPPoolExhausted : string := "DHCPPoolExhausted".

Record SubnetDHCP := mkSubnetDHCP {
  dhcp_Mode : string;
  dhcp_LeaseRangeStart : string;
  dhcp_LeaseRangeEnd : string;
  dhcp_Gateway : option string;
  dhcp_LeaseTime : option Z }.

Record SubnetSpec := mkSubnetSpec {
  sub_SiteRef : NameRef;
  sub_CIDR : string;
  sub_BootdServerIP : string;
  sub_BootdNetworkRef : option NameRef;
  sub_SeederNetworkRef : option NameRef;
  sub_NodeSelector : gmap string string;
  sub_DHCP : option SubnetDHCP }.

Record DHCPReservation := mkReservation {
  rsv_Address : string; rsv_Machine : string; rsv_MAC : string; rsv_Since : Z }.

#[export] Instance DHCPReservation_eq_dec : EqDecision DHCPReservation.
Proof. solve_decision. Defined.

Record SubnetDHCPStatus := mkDHCPStatus {
  Reservations : list DHCPReservation; Revision_ : string; AppliedRevision : string }.

#[export] Instance eta_SubnetDHCPStatus : Eta SubnetDHCPStatus := fun r =>
  mkDHCPStatus (Reservations r) (Revision_ r) (AppliedRevision r).

Record SubnetStatus := mkSubnetStatus {
  sub_Conditions : list Condition; sub_DHCPStatus : option SubnetDHCPStatus }.

#[export] Instance eta_SubnetStatus : Eta SubnetStatus := fun r =>
  mkSubnetStatus (sub_Conditions r) (sub_DHCPStatus r).

Record Subnet := mkSubnet {
  subnet_meta :> ObjectMeta; sub_Spec : SubnetSpec; sub_Status : SubnetStatus }.

#[export] Instance eta_Subnet : Eta Subnet := fun r =>
  mkSubnet (subnet_meta r) (sub_Spec r) (sub_Status r).

(** ** The apimachinery helpers *)

Class ApiMachinery := {
  SetStatusCondition : list Condition -> Condition -> list Condition;
  RemoveStatusCondition : list Condition -> string -> list Condition;
  FindStatusCondition : list Condition -> string -> option Condition;
  IsStatusConditionTrue : list Condition -> string -> bool;
  ContainsFinalizer : list string -> string -> bool;
  AddFinalizer : list string -> string -> list string * bool;
  RemoveFinalizer : list string -> string -> list string * bool;
  HasOwnerReference : list OwnerReference -> ObjectMeta -> bool + GoErr;
  SetOwnerReference : list OwnerReference -> ObjectMeta -> list OwnerReference + GoErr;
  SetControllerReference : list OwnerReference -> ObjectMeta -> list OwnerReference + GoErr }.

(** What the helpers document: conditions are a map keyed by type, finalizers
    a set, and the booleans tell whether the object changed. *)
Class ApiMachineryLaws `{ApiMachinery} : Prop := {
  find_set_same cs c : FindStatusCondition (SetStatusCondition cs c) (cd_Type c) = Some c;
  find_set_other cs c t : t <> cd_Type c ->
    FindStatusCondition (SetStatusCondition cs c) t = FindStatusCondition cs t;
  find_remove_same cs t : FindStatusCondition (RemoveStatusCondition cs t) t = None;
  find_remove_other cs t t' : t <> t' ->
    FindStatusCondition (RemoveStatusCondition cs t) t' = FindStatusCondition cs t';
  is_true_find cs t : IsStatusConditionTrue cs t =
    match FindStatusCondition cs t with
    | Some c => String.eqb (cd_Status c) ConditionTrue
    | None => false
    end;
  contains_finalizer fs f : ContainsFinalizer fs f = bool_decide (f ∈ fs);
  add_finalizer fs f g : g ∈ (AddFinalizer fs f).1 <-> g ∈ fs \/ g = f;
  remove_finalizer fs f g : g ∈ (RemoveFinalizer fs f).1 <-> g ∈ fs /\ g <> f;
  remove_finalizer_changed fs f : (RemoveFinalizer fs f).2 = bool_decide (f ∈ fs) }.

Section ConditionLaws.
Context `{ApiMachineryLaws}.

Lemma is_true_set_same cs c :
  IsStatusConditionTrue (SetStatusCondition cs c) (cd_Type c) = String.eqb (cd_Status c) ConditionTrue.
Proof. rewrite is_true_find, find_set_same. done. Qed.

Lemma is_true_set_other cs c t : t <> cd_Type c ->
  IsStatusConditionTrue (SetStatusCondition cs c) t = IsStatusConditionTrue cs t.
Proof. intros. rewrite !is_true_find, find_set_other by done. done. Qed.

Lemma is_true_remove_same cs t : IsStatusConditionTrue (RemoveStatusCondition cs t) t = false.
Proof. rewrite is_true_find, find_remove_same. done. Qed.

Lemma is_true_remove_other cs t t' : t <> t' ->
  IsStatusConditionTrue (RemoveStatusCondition cs t) t' = IsStatusConditionTrue cs t'.
Proof. intros. rewrite !is_true_find, find_remove_other by done. done. Qed.

Lemma contains_remove_finalizer fs f : ContainsFinalizer (RemoveFinalizer fs f).1 f = false.
Proof. rewrite contains_finalizer. apply bool_decide_eq_false. rewrite remove_finalizer. tauto. Qed.

Lemma contains_add_finalizer fs f : ContainsFinalizer (AddFinalizer fs f).1 f = true.
Proof. rewrite contains_finalizer. apply bool_decide_eq_true. rewrite add_finalizer. auto. Qed.
End ConditionLaws.

#[export] Hint Rewrite @is_true_set_same @is_true_remove_same @contains_remove_finalizer
  @contains_add_finalizer using typeclasses eauto : kezio_rw.

(** ** A concrete instance

    The simplest helpers that satisfy the laws, to evaluate the models on
    concrete objects. *)
Module SimpleMeta.

Definition set_condition (cs : list Condition) (c : Condition) : list Condition :=
  if existsb (fun x => cd_Type x =s cd_Type c) cs
  then map (fun x => if cd_Type x =s cd_Type c then c else x) cs
  else (cs ++ [c])%list.

Definition remove_condition (cs : list Condition) (t : string) : list Condition :=
  List.filter (fun x => cd_Type x <>s t) cs.

Definition find_condition (cs : list Condition) (t : string) : option Condition :=
  find_first (fun x => cd_Type x =s t) cs.

Definition owner_ref (m : ObjectMeta) (controller : bool) : OwnerReference :=
  mkOwnerReference "" "" (Name m) (UID m) controller controller.

Definition has_owner (l : list OwnerReference) (m : ObjectMeta) : bool :=
  existsb (fun r => or_UID r =s UID m) l.

#[export] Instance ops : ApiMachinery := {|
  SetStatusCondition := set_condition;
  RemoveStatusCondition := remove_condition;
  FindStatusCondition := find_condition;
  IsStatusConditionTrue cs t :=
    match find_condition cs t with Some c => cd_Status c =s ConditionTrue | None => false end;
  ContainsFinalizer fs f := bool_decide (f ∈ fs);
  AddFinalizer fs f := if decide (f ∈ fs) then (fs, false) else ((fs ++ [f])%list, true);
  RemoveFinalizer fs f := (List.filter (fun g => g <>s f) fs, bool_decide (f ∈ fs));
  HasOwnerReference l m := inl (has_owner l m);
  SetOwnerReference l m := inl (if has_owner l m then l else (l ++ [owner_ref m false])%list);
  SetControllerReference l m := inl (l ++ [owner_ref m true])%list |}.

Lemma find_map_update cs c t : existsb (fun x => cd_Type x =s cd_Type c) cs = true ->
  find_condition (map (fun x => if cd_Type x =s cd_Type c then c else x) cs) t =
  if String.eqb (cd_Type c) t then Some c else find_condition cs t.
Proof.
  unfold find_condition. induction cs as [|x cs IH]; cbn [existsb map find_first]; [done|]. intros E.
  destruct (String.eqb_spec (cd_Type x) (cd_Type c)) as [Hx|Hx].
  - rewrite Hx. destruct (String.eqb (cd_Type c) t) eqn:Ec; [done|].
    destruct (existsb (fun x => cd_Type x =s cd_Type c) cs) eqn:E2; [by apply IH|].
    clear IH E. induction cs as [|y cs IH2]; [done|]. cbn in *. apply orb_false_iff in E2 as [Ey E2].
    rewrite Ey. destruct (String.eqb (cd_Type y) t); [done|]. by apply IH2.
  - cbn in E. rewrite (IH E).
    destruct (String.eqb_spec (cd_Type c) t) as [Ht|]; [|done].
    destruct (String.eqb_spec (cd_Type x) t); congruence.
Qed.

Lemma find_append cs c t : existsb (fun x => cd_Type x =s cd_Type c) cs = false ->
  find_condition (cs ++ [c]) t = if String.eqb (cd_Type c) t then Some c else find_condition cs t.
Proof.
  unfold find_condition. induction cs as [|x cs IH]; cbn [existsb find_first app]; intros E; [done|].
  apply orb_false_iff in E as [Ex E]. rewrite (IH E).
  destruct (String.eqb_spec (cd_Type x) t) as [Hx|]; [|done].
  destruct (String.eqb_spec (cd_Type c) t) as [Hc|]; [|done].
  apply String.eqb_neq in Ex. congruence.
Qed.

Lemma find_set cs c t :
  find_condition (set_condition cs c) t = if String.eqb (cd_Type c) t then Some c else find_condition cs t.
Proof.
  unfold set_condition. destruct (existsb _ cs) eqn:E; auto using find_map_update, find_append.
Qed.

Lemma find_remove cs t t' :
  find_condition (remove_condition cs t) t' = if String.eqb t t' then None else find_condition cs t'.
Proof.
  unfold find_condition, remove_condition.
  induction cs as [|x cs IH]; cbn; [by destruct (String.eqb t t')|].
  destruct (String.eqb_spec (cd_Type x) t) as [->|Hx]; cbn; rewrite IH.
  - by destruct (String.eqb_spec t t').
  - destruct (String.eqb_spec (cd_Type x) t') as [Hx'|]; [|done].
    destruct (String.eqb_spec t t'); congruence.
Qed.

#[export] Instance laws : ApiMachineryLaws.
Proof.
  split; intros; cbn [FindStatusCondition SetStatusCondition RemoveStatusCondition
    IsStatusConditionTrue ContainsFinalizer AddFinalizer RemoveFinalizer fst snd ops].
  - rewrite find_set, String.eqb_refl. done.
  - rewrite find_set. by destruct (String.eqb_spec (cd_Type c) t); [congruence|].
  - rewrite find_remove, String.eqb_refl. done.
  - rewrite find_remove. by destruct (String.eqb_spec t t').
  - done.
  - done.
  - case_decide; cbn; set_solver.
  - rewrite !list_elem_of_In, filter_In, negb_true_iff, String.eqb_neq. done.
  - done.
Qed.

End SimpleMeta.
