(* ===== verification/AgentApi.v ===== *)
(** * AgentApi: the types kezio-agent and the manager exchange

    [src/internal/agentapi/agentapi.go]: the registration and progress bodies,
    the deploy plan, and the plan's own validation with the theorem of what a
    valid plan is. *)

From S2P Require Import Prelude Api.
Local Open Scope string_scope.
Local Open Scope list_scope.

(** ** Wire types *)

Definition AgentSchemaVersion : Z := 3.

Record RegisterRequest := mkRegisterRequest { Hardware : MachineHardwareSpec }.

Definition ActionWait : string := "wait".
Definition ActionDeploy : string := "deploy".

Record DeployTorrent := mkDeployTorrent { tor_URL : string; tor_InfoHash : string }.
Record DeployMkfs := mkDeployMkfs { mkfs_Filesystem : string; mkfs_Label : string; mkfs_UUID : string }.
Record DeploySwap := mkDeploySwap { swap_UUID : string }.

Record DeploySlot := mkDeploySlot {
  slot_Number : Z;
  slot_Device : string;
  slot_Torrent : option DeployTorrent;
  slot_Mkfs : option DeployMkfs;
  slot_Swap : option DeploySwap }.

Record DeployDataImagePlan := mkDataImagePlan {
  dip_ImageRef : NameRef;
  dip_TargetDisk : string;
  dip_SfdiskScript : string;
  dip_Slots : list DeploySlot }.

Definition HookStepTypeBuiltin : string := "builtin".
Definition HookStepTypeScript : string := "script".

Record ResolvedHookStep := mkHookStep {
  step_Type : string;
  step_Builtin : string;
  step_Params : gmap string string;
  step_Content : string;
  step_OSFamily : string;
  step_TimeoutSeconds : Z }.

Record ResolvedHook := mkHook { hook_Name : string; hook_Steps : list ResolvedHookStep }.

Record DeployPlan := mkPlan {
  plan_SchemaVersion : Z;
  plan_RunName : string;
  plan_RunUID : string;
  plan_MachineName : string;
  plan_TargetDisk : string;
  plan_SfdiskScript : string;
  plan_Slots : list DeploySlot;
  plan_DataImages : list DeployDataImagePlan;
  plan_Hooks : list ResolvedHook;
  plan_AfterDeploy : string;
  plan_MaxUploads : Z;
  plan_MaxConnections : Z;
  plan_CacheSizeMB : option Z;
  plan_AioThreads : option Z;
  plan_Port : option Z }.

Record ProgressPartition := mkProgressPartition {
  prog_Number : Z; prog_Percent : Z; prog_BytesDone : Z }.

Definition ProgressStateRunning : string := "running".
Definition ProgressStateSucceeded : string := "succeeded".
Definition ProgressStateFailed : string := "failed".

Record ProgressRequest := mkProgressRequest {
  RunName : string;
  RunUID : string;
  Step : string;
  ReportState : string;
  Message : string;
  PercentDone : option Z;
  BytesDone : option Z;
  ReportPartitions : list ProgressPartition;
  Timestamp : Z }.

Definition ProgressActionContinue : string := "continue".
Definition ProgressActionAbort : string := "abort".

(** ** Validation *)

Definition present {A} (o : option A) : Z := match o with Some _ => 1 | None => 0 end.

Definition slot_kinds (s : DeploySlot) : Z :=
  (present (slot_Torrent s) + present (slot_Mkfs s) + present (slot_Swap s))%Z.

(** The loop of [validateSlots] over the numbers seen. *)
Fixpoint validate_slots_from (seen : gset Z) (slots : list DeploySlot) : option GoErr :=
  match slots with
  | [] => None
  | s :: rest =>
    if bool_decide (slot_Number s ∈ seen)
    then Some (errorf "partition %d appears more than once" [show_dec (slot_Number s)])
    else if negb (slot_kinds s =? 1)%Z
    then Some (errorf "partition %d must set exactly one of torrent, mkfs, or swap; got %d"
                [show_dec (slot_Number s); show_dec (slot_kinds s)])
    else validate_slots_from ({[slot_Number s]} ∪ seen) rest
  end.

Definition validateSlots (slots : list DeploySlot) : option GoErr :=
  match slots with
  | [] => Some (errorf "no slots" [])
  | _ => validate_slots_from ∅ slots
  end.

Definition validateHookStep (s : ResolvedHookStep) : option GoErr :=
  let timeout := if (step_TimeoutSeconds s <=? 0)%Z then Some (errorf "timeoutSeconds must be positive" []) else None in
  if step_Type s =s HookStepTypeBuiltin then
    if step_Builtin s =s "" then Some (errorf "builtin step has no builtin name" []) else timeout
  else if step_Type s =s HookStepTypeScript then
    if step_Content s =s "" then Some (errorf "%s step has no content" [step_Type s]) else timeout
  else Some (errorf "unknown step type %q" [step_Type s]).

(** The first error of a loop with its index. *)
Fixpoint first_error {A} (i : Z) (f : Z -> A -> option GoErr) (l : list A) : option GoErr :=
  match l with
  | [] => None
  | x :: l => match f i x with Some err => Some err | None => first_error (i + 1) f l end
  end.

Definition validate_data_image (i : Z) (di : DeployDataImagePlan) : option GoErr :=
  if dip_TargetDisk di =s "" then Some (errorf "dataImages[%d]: targetDisk is empty" [show_dec i]) else
  match validateSlots (dip_Slots di) with
  | Some err => Some (wrapf "dataImages[%d]: slots: %w" [show_dec i] err)
  | None => None
  end.

Definition validate_hook (i : Z) (h : ResolvedHook) : option GoErr :=
  first_error 0 (fun j s =>
    match validateHookStep s with
    | Some err => Some (wrapf "hooks[%d] %q step[%d]: %w" [show_dec i; hook_Name h; show_dec j] err)
    | None => None
    end) (hook_Steps h).

Definition Validate (p : DeployPlan) : option GoErr :=
  if negb (plan_SchemaVersion p =? AgentSchemaVersion)%Z then
    Some (errorf "schemaVersion %d does not match the agent wire schema version %d"
      [show_dec (plan_SchemaVersion p); show_dec AgentSchemaVersion])
  else
  let slots :=
    if plan_TargetDisk p =s "" then
      match plan_Slots p with [] => None | _ => Some (errorf "slots set with no targetDisk" []) end
    else match validateSlots (plan_Slots p) with
         | Some err => Some (wrapf "slots: %w" [] err)
         | None => None
         end in
  match slots with
  | Some err => Some err
  | None =>
    match first_error 0 validate_data_image (plan_DataImages p) with
    | Some err => Some err
    | None => first_error 0 validate_hook (plan_Hooks p)
    end
  end.

(** ** What a valid plan is *)

(** Exactly one way to fill the partition. *)
Definition one_kind (s : DeploySlot) : Prop :=
  match slot_Torrent s, slot_Mkfs s, slot_Swap s with
  | Some _, None, None | None, Some _, None | None, None, Some _ => True
  | _, _, _ => False
  end.

Definition good_slots (slots : list DeploySlot) : Prop :=
  slots <> [] /\ NoDup (slot_Number <$> slots) /\ Forall one_kind slots.

Definition good_step (s : ResolvedHookStep) : Prop :=
  (0 < step_TimeoutSeconds s)%Z /\
  (step_Type s = HookStepTypeBuiltin /\ step_Builtin s <> ""
   \/ step_Type s = HookStepTypeScript /\ step_Content s <> "").

Definition good_plan (p : DeployPlan) : Prop :=
  plan_SchemaVersion p = AgentSchemaVersion
  /\ (plan_TargetDisk p = "" /\ plan_Slots p = [] \/ plan_TargetDisk p <> "" /\ good_slots (plan_Slots p))
  /\ Forall (fun di => dip_TargetDisk di <> "" /\ good_slots (dip_Slots di)) (plan_DataImages p)
  /\ Forall (fun h => Forall good_step (hook_Steps h)) (plan_Hooks p).

Lemma one_kind_spec s : (slot_kinds s =? 1)%Z = true <-> one_kind s.
Proof.
  unfold slot_kinds, one_kind. by destruct (slot_Torrent s), (slot_Mkfs s), (slot_Swap s).
Qed.

Lemma validate_slots_from_spec seen slots :
  validate_slots_from seen slots = None <->
  NoDup (slot_Number <$> slots) /\ Forall one_kind slots /\ (forall s, s ∈ slots -> slot_Number s ∉ seen).
Proof.
  revert seen. induction slots as [|s slots IH]; intros seen; cbn [validate_slots_from fmap list_fmap].
  { split; [|done]. intros _. split_and!; [apply NoDup_nil_2|constructor|]. intros s Hs. inversion Hs. }
  rewrite NoDup_cons, Forall_cons. case_bool_decide as Hin.
  { split; [done|]. intros (_ & _ & Hs). destruct (Hs s); [left|done]. }
  destruct (slot_kinds s =? 1)%Z eqn:Hk; cbn [negb].
  2: { split; [done|]. intros (_ & [Ho _] & _). apply one_kind_spec in Ho. congruence. }
  apply one_kind_spec in Hk. rewrite IH. split.
  - intros (Hnd & Hf & Hs). split_and!; [|done|done|done|].
    + intros (s' & Es & Hs')%list_elem_of_fmap. apply (Hs s' Hs'). set_solver.
    + intros s' [->|Hs']%elem_of_cons; [done|]. specialize (Hs s' Hs'). set_solver.
  - intros ((Hn & Hnd) & (_ & Hf) & Hs). split_and!; [done|done|]. intros s' Hs'.
    rewrite elem_of_union, elem_of_singleton. intros [E|E].
    + apply Hn. rewrite <- E. by apply list_elem_of_fmap_2.
    + apply (Hs s'); [by right|done].
Qed.

Lemma validateSlots_spec slots : validateSlots slots = None <-> good_slots slots.
Proof.
  unfold validateSlots, good_slots. destruct slots as [|s slots]; [by split; [|intros [? _]]|].
  rewrite validate_slots_from_spec. split; [intros (? & ? & _); done|].
  intros (_ & ? & ?). split_and!; [done|done|]. set_solver.
Qed.

Lemma validateHookStep_spec s : validateHookStep s = None <-> good_step s.
Proof.
  unfold validateHookStep, good_step.
  destruct (Z.leb_spec (step_TimeoutSeconds s) 0), (String.eqb_spec (step_Type s) HookStepTypeBuiltin) as [Eb|Eb],
    (String.eqb_spec (step_Type s) HookStepTypeScript) as [Ec|Ec],
    (String.eqb_spec (step_Builtin s) ""), (String.eqb_spec (step_Content s) "");
    try (rewrite Eb in Ec; discriminate Ec); (split; [try discriminate; intros _|intros [? ?]]);
    try done; try lia; try tauto; naive_solver lia.
Qed.

Lemma first_error_spec {A} i (f : Z -> A -> option GoErr) (P : A -> Prop) l :
  (forall i x, f i x = None <-> P x) -> first_error i f l = None <-> Forall P l.
Proof.
  intros Hf. revert i. induction l as [|x l IH]; intros i; cbn [first_error]; [done|].
  rewrite Forall_cons. destruct (f i x) eqn:E.
  - split; [done|]. intros [Hx _]. apply (Hf i) in Hx. congruence.
  - rewrite IH. apply Hf in E. tauto.
Qed.

Lemma Validate_good p : Validate p = None <-> good_plan p.
Proof.
  unfold Validate, good_plan. destruct (Z.eqb_spec (plan_SchemaVersion p) AgentSchemaVersion) as [Ev|Ev]; cbn [negb].
  2: { split; [done|]. by intros [? _]. }
  assert (Hdi : forall i di, validate_data_image i di = None <-> dip_TargetDisk di <> "" /\ good_slots (dip_Slots di)).
  { intros i di. unfold validate_data_image. rewrite <- validateSlots_spec.
    destruct (String.eqb_spec (dip_TargetDisk di) ""), (validateSlots (dip_Slots di)); naive_solver. }
  assert (Hh : forall i h, validate_hook i h = None <-> Forall good_step (hook_Steps h)).
  { intros i h. apply first_error_spec. intros j s. rewrite <- validateHookStep_spec.
    destruct (validateHookStep s); naive_solver. }
  rewrite <- (first_error_spec 0 _ _ _ Hdi), <- (first_error_spec 0 _ _ _ Hh).
  rewrite <- validateSlots_spec.
  destruct (String.eqb_spec (plan_TargetDisk p) ""), (plan_Slots p), (validateSlots _);
    destruct (first_error 0 validate_data_image _), (first_error 0 validate_hook _); naive_solver.
Qed.

(** C34. The check the agent runs before it touches a disk accepts exactly the
    well-formed plans: its schema version is the agent's, the OS part has a
    target disk with slots or neither, every image that is written has a disk
    and a non-empty list of slots with distinct partition numbers and exactly
    one way to fill each, and every hook step has a positive timeout and the
    content its type asks for. *)
Theorem Validate_spec p : Validate p = None <-> good_plan p.
Proof. apply Validate_good. Qed.
