(* ===== verification/Effects.v ===== *)
(** * Effects: programs over a signature of external calls

    A Go function that talks to the API server, the BMC, the clock or another
    component becomes a [prog]: a finite tree whose nodes are the calls it
    makes and whose branches are the answers it may get.  Nothing is assumed
    about the answers, so a theorem about every run of a program covers every
    fault and every interleaving with other writers; what a theorem needs of
    the environment it states as a property of the trace.

    [runs p tr a] says that [p] may finish with [a] after the calls and
    answers [tr]; [exec] runs [p] against a concrete handler. *)

From S2P Require Import Prelude.

Section Programs.
Context {E : Type} {R : E -> Type}.

Inductive prog (A : Type) : Type :=
| Ret (a : A)
| Vis (e : E) (k : R e -> prog A).
Arguments Ret {A} a.
Arguments Vis {A} e k.

Fixpoint bind {A B} (p : prog A) (f : A -> prog B) : prog B :=
  match p with
  | Ret a => f a
  | Vis e k => Vis e (fun r => bind (k r) f)
  end.

Definition call (e : E) : prog (R e) := Vis e Ret.

(** One call with its answer, and the calls of a run in order. *)
Definition event : Type := { e : E & R e }.
Definition ev (e : E) (r : R e) : event := existT e r.
Definition trace : Type := list event.

Fixpoint runs {A} (p : prog A) (tr : trace) (a : A) : Prop :=
  match p with
  | Ret b => tr = [] /\ a = b
  | Vis e k => exists r tr', tr = ev e r :: tr' /\ runs (k r) tr' a
  end.

(** Running against a handler with its own state; a call the handler does not
    answer ends the run. *)
Fixpoint exec {S A} (h : forall e, S -> option (R e * S)) (p : prog A) (s : S)
  : option (A * S * trace) :=
  match p with
  | Ret a => Some (a, s, [])
  | Vis e k =>
    match h e s with
    | None => None
    | Some (r, s') =>
      match exec h (k r) s' with
      | None => None
      | Some (a, s'', tr) => Some (a, s'', ev e r :: tr)
      end
    end
  end.

(** The answer against a world whose answers depend on the call alone: what a
    sequence of reads of an unchanging cluster gives.  A call without an answer
    ends the run. *)
Fixpoint interp {A} (w : forall e, option (R e)) (p : prog A) : option A :=
  match p with
  | Ret a => Some a
  | Vis e k => match w e with Some r => interp w (k r) | None => None end
  end.

Lemma interp_bind {A B} w (p : prog A) (f : A -> prog B) :
  interp w (bind p f) = match interp w p with Some a => interp w (f a) | None => None end.
Proof. induction p as [a|e k IH]; cbn; [done|]. destruct (w e); [apply IH|done]. Qed.

Lemma interp_runs {A} w (p : prog A) a : interp w p = Some a ->
  exists tr, runs p tr a /\ Forall (fun x => w (projT1 x) = Some (projT2 x)) tr.
Proof.
  induction p as [b|e k IH]; cbn; [intros [= ->]; by exists []|]. destruct (w e) as [r|] eqn:Hw; [|done].
  intros (tr & Hr & Hf)%IH. exists (ev e r :: tr). split; [eauto|by constructor].
Qed.

Lemma runs_bind {A B} (p : prog A) (f : A -> prog B) tr b :
  runs (bind p f) tr b <->
  exists tr1 tr2 a, tr = tr1 ++ tr2 /\ runs p tr1 a /\ runs (f a) tr2 b.
Proof.
  revert tr. induction p as [a|e k IH]; intros tr; cbn.
  - split.
    + intros H. by exists [], tr, a.
    + intros (tr1 & tr2 & a' & -> & [-> ->] & H). done.
  - split.
    + intros (r & tr' & -> & (tr1 & tr2 & a & -> & H1 & H2)%IH).
      exists (ev e r :: tr1), tr2, a. split_and!; [done| |done]. eauto.
    + intros (tr1 & tr2 & a & -> & (r & tr' & -> & H1) & H2).
      exists r, (tr' ++ tr2). split; [done|]. apply IH. eauto 6.
Qed.

Lemma exec_runs {S A} (h : forall e, S -> option (R e * S)) (p : prog A) s a s' tr :
  exec h p s = Some (a, s', tr) -> runs p tr a.
Proof.
  revert s tr. induction p as [b|e k IH]; cbn; intros s tr H.
  - simplify_eq. done.
  - destruct (h e s) as [[r s1]|]; [|done].
    destruct (exec h (k r) s1) as [[[a1 s2] tr1]|] eqn:Ex; [|done].
    simplify_eq. exists r, tr1. split; [done|]. eapply IH, Ex.
Qed.

Lemma runs_vis {A} e (k : R e -> prog A) r tr a : runs (k r) tr a -> runs (Vis e k) (ev e r :: tr) a.
Proof. intros Hr. exists r, tr. done. Qed.

(** *** Replacing calls by programs

    [link h p] answers each call of [p] with the program [h] gives for it:
    how an implementation of an interface is put under its client. *)
Fixpoint link {A} (h : forall e, prog (R e)) (p : prog A) : prog A :=
  match p with
  | Ret a => Ret a
  | Vis e k => bind (h e) (fun r => link h (k r))
  end.

(** A run of the linked program is a run of the program in which every call was
    answered by a run of the component behind it, all of it part of the trace. *)
Lemma runs_link_in {A} (h : forall e, prog (R e)) (p : prog A) tr a :
  runs (link h p) tr a -> exists tr', runs p tr' a /\
    Forall (fun x => exists t, runs (h (projT1 x)) t (projT2 x) /\ forall y, y ∈ t -> y ∈ tr) tr'.
Proof.
  revert tr. induction p as [b|e k IH]; cbn; intros tr H.
  - exists []. destruct H as [-> ->]. done.
  - apply runs_bind in H as (tr1 & tr2 & r & -> & H1 & H2).
    apply IH in H2 as (tr' & Hr & Hf). exists (ev e r :: tr'). split; [eauto|].
    constructor; [exists tr1; split; [done|]; intros y Hy; apply elem_of_app; by left|].
    eapply Forall_impl; [exact Hf|]. intros x (t & Ht & Hin). exists t. split; [done|].
    intros y Hy. apply elem_of_app. right. by apply Hin.
Qed.

Lemma runs_link {A} (h : forall e, prog (R e)) (p : prog A) tr a :
  runs (link h p) tr a -> exists tr', runs p tr' a /\
    Forall (fun x => exists t, runs (h (projT1 x)) t (projT2 x)) tr'.
Proof.
  intros (tr' & Hr & Hf)%runs_link_in. exists tr'. split; [done|]. eapply Forall_impl; [exact Hf|].
  intros x (t & Ht & _). eauto.
Qed.

(** *** Monitors

    A monitor watches the calls of a run: [step] is its state, [allowed] what
    the program may call in a state, and [assumed] what the answers are taken
    to satisfy.  [wp M p s Q]: started in [s], [p] makes allowed calls only
    and finishes in a state and with a value that satisfy [Q]. *)
Record monitor (S : Type) := mkMonitor {
  allowed : S -> E -> Prop;
  assumed : S -> forall e, R e -> Prop;
  step : S -> forall e, R e -> S }.
Arguments allowed {S}.
Arguments assumed {S}.
Arguments step {S}.

Section Monitored.
Context {S : Type} (M : monitor S).

Fixpoint wp {A} (p : prog A) (s : S) (Q : A -> S -> Prop) : Prop :=
  match p with
  | Ret a => Q a s
  | Vis e k => allowed M s e /\ forall r, assumed M s e r -> wp (k r) (step M s e r) Q
  end.

(** The calls of a trace are allowed as long as the answers are as assumed. *)
Fixpoint obeys (s : S) (tr : trace) : Prop :=
  match tr with
  | [] => True
  | existT e r :: tr => allowed M s e /\ (assumed M s e r -> obeys (step M s e r) tr)
  end.

Fixpoint assumes (s : S) (tr : trace) : Prop :=
  match tr with
  | [] => True
  | existT e r :: tr => assumed M s e r /\ assumes (step M s e r) tr
  end.

Fixpoint final (s : S) (tr : trace) : S :=
  match tr with
  | [] => s
  | existT e r :: tr => final (step M s e r) tr
  end.

Lemma wp_bind {A B} (p : prog A) (f : A -> prog B) s Q :
  wp (bind p f) s Q <-> wp p s (fun a s' => wp (f a) s' Q).
Proof. revert s. induction p as [a|e k IH]; intros s; cbn; [done|]. by setoid_rewrite IH. Qed.

Lemma wp_mono {A} (p : prog A) s (Q Q' : A -> S -> Prop) :
  wp p s Q -> (forall a s', Q a s' -> Q' a s') -> wp p s Q'.
Proof. revert s. induction p as [a|e k IH]; cbn; intros s H HQ; [auto|]. naive_solver. Qed.

Lemma wp_seq {A B} (p : prog A) (f : A -> prog B) s Q Q' :
  wp p s Q -> (forall a s', Q a s' -> wp (f a) s' Q') -> wp (bind p f) s Q'.
Proof. intros. apply wp_bind. eapply wp_mono; eauto. Qed.

Lemma wp_obeys {A} (p : prog A) s Q tr a : wp p s Q -> runs p tr a -> obeys s tr.
Proof.
  revert s tr. induction p as [b|e k IH]; cbn; intros s tr Hp.
  - by intros [-> _].
  - intros (r & tr' & -> & Hr). destruct Hp as [He Hk]. split; [done|]. intros Ha.
    eapply IH; eauto.
Qed.

Lemma wp_final {A} (p : prog A) s Q tr a :
  wp p s Q -> runs p tr a -> assumes s tr -> Q a (final s tr).
Proof.
  revert s tr. induction p as [b|e k IH]; cbn; intros s tr Hp.
  - intros [-> ->] _. done.
  - intros (r & tr' & -> & Hr) [Ha Has]. destruct Hp as [He Hk].
    by apply (IH r _ tr' (Hk r Ha)).
Qed.

Lemma obeys_app s tr1 tr2 :
  obeys s (tr1 ++ tr2) -> assumes s tr1 -> obeys (final s tr1) tr2.
Proof.
  revert s. induction tr1 as [|[e r] tr1 IH]; intros s; cbn; [done|].
  intros [_ Hr] [Ha Has]. apply IH; [|done]. by apply Hr.
Qed.

(** Where the assumption does not depend on the state. *)
Lemma assumes_forall (P : forall e, R e -> Prop) s tr :
  (forall s e r, P e r -> assumed M s e r) ->
  Forall (fun x => P (projT1 x) (projT2 x)) tr -> assumes s tr.
Proof.
  intros HP. revert s. induction tr as [|[e r] tr IH]; intros s; [done|].
  intros [Hx Ht]%Forall_cons. split; [by apply HP|by apply IH].
Qed.
End Monitored.

(** The monitor without state or assumptions, and the programs all of whose
    calls satisfy [P]. *)
Definition only (P : E -> Prop) : monitor unit :=
  mkMonitor unit (fun _ => P) (fun _ _ _ => True) (fun _ _ _ => tt).

Lemma obeys_only P tr : obeys (only P) tt tr -> Forall (fun x => P (projT1 x)) tr.
Proof. induction tr as [|[e r] tr IH]; [done|]. intros [He H]. constructor; [done|]. by apply IH, H. Qed.

Definition calls {A} (P : E -> Prop) (p : prog A) : Prop := wp (only P) p tt (fun _ _ => True).

Lemma calls_ret {A} P (a : A) : calls P (Ret a).
Proof. exact I. Qed.

Lemma calls_vis {A} P e (k : R e -> prog A) : P e -> (forall r, calls P (k r)) -> calls P (Vis e k).
Proof. intros He Hk. split; [done|]. intros r _. apply Hk. Qed.

Lemma calls_bind {A B} P (p : prog A) (f : A -> prog B) :
  calls P p -> (forall a, calls P (f a)) -> calls P (bind p f).
Proof. intros Hp Hf. eapply wp_seq; [exact Hp|]. intros a [] _. apply Hf. Qed.

Lemma calls_runs {A} P (p : prog A) tr a : calls P p -> runs p tr a -> Forall (fun x => P (projT1 x)) tr.
Proof. intros. by eapply obeys_only, wp_obeys. Qed.

Lemma calls_impl {A} (P Q : E -> Prop) (p : prog A) :
  (forall e, P e -> Q e) -> calls P p -> calls Q p.
Proof.
  intros HPQ. induction p as [a|e k IH]; [done|]. intros [He Hk]. apply calls_vis; [auto|].
  intros r. apply IH. exact (Hk r I).
Qed.

(** What a program may answer, whatever watches it. *)
Definition answers {A} (p : prog A) (Q : A -> Prop) : Prop := wp (only (fun _ => True)) p tt (fun a _ => Q a).

Lemma answers_wp {A S} (M : monitor S) (p : prog A) s (Q : A -> Prop) :
  (forall s e, allowed M s e) -> answers p Q -> wp M p s (fun a _ => Q a).
Proof.
  intros HM. revert s. induction p as [a|e k IH]; intros s; [done|]. intros [_ Hk].
  split; [apply HM|]. intros r _. apply IH. exact (Hk r I).
Qed.

Lemma answers_runs {A} (p : prog A) (Q : A -> Prop) tr a : answers p Q -> runs p tr a -> Q a.
Proof.
  unfold answers. revert tr. induction p as [b|e k IH]; cbn; intros tr Hp; [by intros [_ ->]|].
  intros (r & tr' & _ & Hr). destruct Hp as [_ Hk]. exact (IH r tr' (Hk r I) Hr).
Qed.

Lemma answers_any {A} (p : prog A) : answers p (fun _ => True).
Proof. unfold answers. induction p as [a|e k IH]; cbn; auto. Qed.

Lemma answers_bind {A B} (p : prog A) (f : A -> prog B) (P : A -> Prop) (Q : B -> Prop) :
  answers p P -> (forall a, P a -> answers (f a) Q) -> answers (bind p f) Q.
Proof. intros Hp Hf. eapply wp_seq; [exact Hp|]. intros a [] Ha. by apply Hf. Qed.

(** A part that makes calls the monitor does not look at. *)
Lemma wp_quiet {A S} (M : monitor S) (P : E -> Prop) (p : prog A) s (Q : A -> Prop) :
  (forall e, P e -> allowed M s e) -> (forall e r, P e -> step M s e r = s) -> calls P p -> answers p Q ->
  wp M p s (fun a s' => Q a /\ s' = s).
Proof.
  intros HM Hs. induction p as [a|e k IH]; intros Hc Ha; [by split|]. destruct Hc as [He Hk], Ha as [_ Ha].
  split; [by apply HM|]. intros r _. rewrite (Hs e r He). exact (IH r (Hk r I) (Ha r I)).
Qed.

(** A part whose calls keep an invariant of the monitor's state. *)
Lemma wp_inv {A S} (M : monitor S) (I : S -> Prop) (P : E -> Prop) (p : prog A) s (Q : A -> Prop) :
  (forall s e, I s -> P e -> allowed M s e) -> (forall s e r, I s -> P e -> I (step M s e r)) -> I s -> calls P p -> answers p Q ->
  wp M p s (fun a s' => Q a /\ I s').
Proof.
  intros HM Hs. revert s. induction p as [a|e k IH]; intros s Hi Hc Ha; [by split|]. destruct Hc as [He Hk], Ha as [_ Ha].
  split; [by apply HM|]. intros r _. apply IH; [by apply Hs|exact (Hk r Logic.I)|exact (Ha r Logic.I)].
Qed.

Lemma calls_link {A} (P Q : E -> Prop) (h : forall e, prog (R e)) (p : prog A) :
  calls P p -> (forall e, P e -> calls Q (h e)) -> calls Q (link h p).
Proof.
  intros Hp Hh. induction p as [a|e k IH]; [done|]. destruct Hp as [He Hk]. cbn [link].
  apply calls_bind; [by apply Hh|]. intros r. apply IH. exact (Hk r I).
Qed.

(** *** Histories

    The monitor that remembers what was called and answered. *)
Section History.
Context (P : trace -> E -> Prop) (A : forall e, R e -> Prop).

Definition history : monitor trace := mkMonitor trace P (fun _ => A) (fun s e r => s ++ [ev e r]).

Lemma wp_history {X} (p : prog X) s (Q : E -> Prop) :
  calls Q p -> (forall t e, Q e -> P (s ++ t) e) ->
  wp history p s (fun x s' => exists t, s' = s ++ t /\ runs p t x /\ Forall (fun y => A (projT1 y) (projT2 y)) t).
Proof.
  revert s. induction p as [x|e k IH]; intros s Hc Hs; cbn [wp].
  - exists []. by rewrite app_nil_r.
  - destruct Hc as [He Hk]. split; [rewrite <- (app_nil_r s); by apply Hs|]. intros r Hr. cbn [step history].
    eapply wp_mono; [apply IH; [exact (Hk r I)|]|].
    + intros t e' He'. rewrite <- app_assoc. by apply Hs.
    + cbn. intros x s' (t & -> & Ht & Hf). exists (ev e r :: t). rewrite <- app_assoc. split_and!; [done|eauto|by constructor].
Qed.

(** A part all of whose calls are allowed whatever happened before. *)
Lemma wp_harmless {X} (Q : E -> Prop) (HQ : forall t e, Q e -> P t e) (p : prog X) s :
  calls Q p -> wp history p s (fun x s' => exists t, s' = s ++ t /\ runs p t x).
Proof. intros Hc. eapply wp_mono; [apply (wp_history p s Q Hc); auto|]. cbn. intros x s' (t & -> & Hr & _). eauto. Qed.

Lemma final_history s t : final history s t = s ++ t.
Proof.
  revert s. induction t as [|[e r] t IH]; intros s; cbn [final]; [by rewrite app_nil_r|]. rewrite IH. cbn.
  by rewrite <- app_assoc.
Qed.

Lemma history_obeyed {X} (p : prog X) Q tr1 e r tr2 x :
  wp history p [] Q -> runs p (tr1 ++ ev e r :: tr2) x -> Forall (fun y => A (projT1 y) (projT2 y)) tr1 -> P tr1 e.
Proof.
  intros Hp Hr Ha. pose proof (wp_obeys history p [] Q _ x Hp Hr) as Ho. apply obeys_app in Ho.
  - destruct Ho as [Ho _]. by rewrite final_history in Ho.
  - by apply (assumes_forall history A).
Qed.
End History.

(** Histories grow. *)
Definition grows (h h' : trace) : Prop := exists t, h' = h ++ t.
Lemma grows_refl h : grows h h.
Proof. exists []. by rewrite app_nil_r. Qed.
Lemma grows_trans h1 h2 h3 : grows h1 h2 -> grows h2 h3 -> grows h1 h3.
Proof. intros [t ->] [u ->]. exists (t ++ u). by rewrite (assoc_L (++)). Qed.
Lemma grows_app h t : grows h (h ++ t).
Proof. by exists t. Qed.
Lemma grows_more h h' t : grows h h' -> grows h (h' ++ t).
Proof. intros Hg. eapply grows_trans; [exact Hg|]. by exists t. Qed.
Lemma grows_in h h' x : grows h h' -> x ∈ h -> x ∈ h'.
Proof. intros [t ->] Hx. apply elem_of_app. by left. Qed.
Lemma grows_last h e (r : R e) : ev e r ∈ h ++ [ev e r].
Proof. apply elem_of_app. right. by left. Qed.

End Programs.

Arguments prog {E} R A.
Arguments Ret {E R A} a.
Arguments Vis {E R A} e k.
Arguments trace {E} R.
Arguments event {E} R.
Arguments monitor {E} R S.
Arguments mkMonitor {E R S} allowed assumed step.
Arguments allowed {E R S} m s e.
Arguments assumed {E R S} m s e r.
Arguments step {E R S} m s e r.

Declare Scope prog_scope.
Delimit Scope prog_scope with prog.
Notation "x <- p ;; q" := (bind p (fun x => q))
  (at level 100, p at next level, q at level 200, right associativity) : prog_scope.
Notation "' pat <- p ;; q" := (bind p (fun x => match x with pat => q end))
  (at level 20, pat pattern, p at level 99, q at level 200) : prog_scope.
Notation "p ;; q" := (bind p (fun _ => q))
  (at level 100, q at level 200, right associativity) : prog_scope.
Open Scope prog_scope.

(** Peels the calls off a run: one step for [Ret], [Vis], or a bind whose
    first part is not a constructor yet. *)
Ltac run_step :=
  match goal with
  | H : runs (Ret _) _ _ |- _ => destruct H as [? ?]
  | H : runs (Vis _ _) _ _ |- _ => destruct H as (? & ? & ? & H)
  | H : runs (bind (Ret _) _) _ _ |- _ => cbn [bind] in H
  | H : runs (bind (Vis _ _) _) _ _ |- _ => cbn [bind] in H
  | H : runs (bind (call _) _) _ _ |- _ => unfold call in H; cbn [bind] in H
  | H : runs (call _) _ _ |- _ => unfold call in H
  | H : runs (bind _ _) _ _ |- _ => apply runs_bind in H as (? & ? & ? & ? & ? & H)
  end; simplify_eq/=.

Ltac head t := lazymatch t with ?f _ => head f | _ => t end.

(** One step through the text of a program whose calls are to satisfy [P]. *)
Ltac calls_step :=
  lazymatch goal with
  | |- calls _ (Ret _) => apply calls_ret
  | |- calls _ (bind _ _) => apply calls_bind; [|intros ?]
  | |- calls _ (Vis _ _) => apply calls_vis; [try done|intros ?]
  | |- calls _ (match ?x with _ => _ end) => destruct x eqn:?
  | |- calls _ (let _ := _ in _) => cbv zeta
  | |- calls _ ((fun _ => _) _) => cbv beta
  | |- calls _ (_ (if ?b then _ else _) _) => destruct b eqn:?
  | |- calls _ ?p => let h := head p in unfold h; cbv beta iota zeta
  end.

(** One step through the text of a monitored program. *)
Ltac wp_step :=
  lazymatch goal with
  | |- wp _ (Ret _) _ _ => cbn [wp]
  | |- wp _ (bind _ _) _ _ => apply wp_bind
  | |- wp _ (Vis _ _) _ _ => split; [|intros ? ?]
  | |- wp _ (match ?x with _ => _ end) _ _ => destruct x eqn:?
  | |- wp _ (let _ := _ in _) _ _ => cbv zeta
  | |- wp _ ((fun _ => _) _) _ _ => cbv beta
  | |- wp _ (_ (if ?b then _ else _) _) _ _ => destruct b eqn:?
  | |- wp _ ?p _ _ => let h := head p in unfold h; cbv beta iota zeta
  end.
