(* ===== verification/Workloads.v ===== *)
(** * Workloads: the Kubernetes objects the controllers build

    The fields of [corev1], [appsv1] and [batchv1] that
    [src/internal/controller] sets or reads: pods and their containers,
    Deployments, Jobs, claims on volumes, and the few other kinds it looks up.
    A field the code never sets is absent.  As under [equality.Semantic], an
    absent list or map and an empty one are the same value. *)

From S2P Require Import Prelude Text Api.
Local Open Scope string_scope.

(** ** Pods *)

Record EnvVar := mkEnv { env_Name : string; env_Value : string }.
Record ContainerPort := mkPort { port_Name : string; port_ContainerPort : Z; port_Protocol : string }.
Record VolumeMount := mkMount { vm_Name : string; vm_MountPath : string; vm_ReadOnly : bool }.

Inductive VolumeSource :=
| EmptyDir
| ClaimVolume (claimName : string) (readOnly : bool)
| HostPath (path : string).

Record Volume := mkVolume { vol_Name : string; vol_Source : VolumeSource }.

Record SecurityContext := mkSecurity {
  sec_RunAsUser : option Z; sec_RunAsGroup : option Z; sec_RunAsNonRoot : option bool; sec_Privileged : option bool;
  sec_AllowPrivilegeEscalation : option bool; sec_ReadOnlyRootFilesystem : option bool;
  sec_CapabilitiesAdd : list string; sec_CapabilitiesDrop : list string }.

Record PodSecurityContext := mkPodSecurity {
  psec_RunAsNonRoot : option bool; psec_RunAsUser : option Z; psec_RunAsGroup : option Z; psec_FSGroup : option Z;
  psec_Seccomp : option string }.

Definition SeccompProfileTypeRuntimeDefault : string := "RuntimeDefault".

(** An HTTP readiness probe: the path, the port by name or number, and the two
    timings the code sets. *)
Record Probe := mkProbe { probe_Path : string; probe_Port : string + Z; probe_InitialDelay : Z; probe_Period : Z }.

Record ResourceRequirements := mkResources { res_Limits : gmap string string; res_Requests : gmap string string }.

Record Container := mkContainer {
  c_Name : string; c_Image : string; c_Command : list string; c_Args : list string; c_Env : list EnvVar;
  c_Ports : list ContainerPort; c_VolumeMounts : list VolumeMount; c_SecurityContext : option SecurityContext;
  c_Resources : ResourceRequirements; c_ReadinessProbe : option Probe; c_TerminationMessagePath : string;
  c_TerminationMessagePolicy : string }.

Definition no_resources : ResourceRequirements := mkResources ∅ ∅.

Record PodSpec := mkPodSpec {
  ps_RestartPolicy : string; ps_ServiceAccountName : string; ps_NodeSelector : gmap string string;
  ps_SecurityContext : option PodSecurityContext; ps_InitContainers : list Container; ps_Containers : list Container;
  ps_Volumes : list Volume }.

Record PodTemplateSpec := mkTemplate {
  pt_Labels : gmap string string; pt_Annotations : gmap string string; pt_Spec : PodSpec }.

#[export] Instance EnvVar_eq_dec : EqDecision EnvVar. Proof. solve_decision. Defined.
#[export] Instance ContainerPort_eq_dec : EqDecision ContainerPort. Proof. solve_decision. Defined.
#[export] Instance VolumeMount_eq_dec : EqDecision VolumeMount. Proof. solve_decision. Defined.
#[export] Instance VolumeSource_eq_dec : EqDecision VolumeSource. Proof. solve_decision. Defined.
#[export] Instance Volume_eq_dec : EqDecision Volume. Proof. solve_decision. Defined.
#[export] Instance SecurityContext_eq_dec : EqDecision SecurityContext. Proof. solve_decision. Defined.
#[export] Instance PodSecurityContext_eq_dec : EqDecision PodSecurityContext. Proof. solve_decision. Defined.
#[export] Instance Probe_eq_dec : EqDecision Probe. Proof. solve_decision. Defined.
#[export] Instance ResourceRequirements_eq_dec : EqDecision ResourceRequirements. Proof. solve_decision. Defined.
#[export] Instance Container_eq_dec : EqDecision Container. Proof. solve_decision. Defined.
#[export] Instance PodSpec_eq_dec : EqDecision PodSpec. Proof. solve_decision. Defined.
#[export] Instance PodTemplateSpec_eq_dec : EqDecision PodTemplateSpec. Proof. solve_decision. Defined.

#[export] Instance eta_PodSpec : Eta PodSpec := fun r =>
  mkPodSpec (ps_RestartPolicy r) (ps_ServiceAccountName r) (ps_NodeSelector r) (ps_SecurityContext r)
    (ps_InitContainers r) (ps_Containers r) (ps_Volumes r).
#[export] Instance eta_PodTemplateSpec : Eta PodTemplateSpec := fun r => mkTemplate (pt_Labels r) (pt_Annotations r) (pt_Spec r).

Definition ProtocolTCP : string := "TCP".
Definition ProtocolUDP : string := "UDP".
Definition RestartPolicyNever : string := "Never".
Definition TerminationMessageReadFile : string := "File".

(** A pod as it is read: its address, the conditions, and the termination
    messages of its containers, in order ([None] for one still running). *)
Record Pod := mkPod {
  pod_meta :> ObjectMeta; pod_IP : string; pod_Phase : string; pod_Conditions : list (string * string);
  pod_Terminations : list (option string) }.

(** ** Deployments *)

Definition RecreateDeploymentStrategyType : string := "Recreate".

Record DeploymentSpec := mkDeploymentSpec {
  ds_Replicas : Z; ds_Strategy : string; ds_Selector : option (gmap string string); ds_Template : PodTemplateSpec }.

#[export] Instance DeploymentSpec_eq_dec : EqDecision DeploymentSpec. Proof. solve_decision. Defined.

#[export] Instance eta_DeploymentSpec : Eta DeploymentSpec := fun r =>
  mkDeploymentSpec (ds_Replicas r) (ds_Strategy r) (ds_Selector r) (ds_Template r).

Record DeploymentCondition := mkDepCondition {
  dc_Type : string; dc_Status : string; dc_Reason : string; dc_Message : string }.

Definition DeploymentAvailable : string := "Available".
Definition DeploymentProgressing : string := "Progressing".
Definition DeploymentReplicaFailure : string := "ReplicaFailure".

Record Deployment := mkDeployment {
  deployment_meta :> ObjectMeta; dep_Spec : DeploymentSpec; dep_AvailableReplicas : Z;
  dep_Conditions : list DeploymentCondition }.

#[export] Instance eta_Deployment : Eta Deployment := fun r =>
  mkDeployment (deployment_meta r) (dep_Spec r) (dep_AvailableReplicas r) (dep_Conditions r).

Definition dep_Selector (d : Deployment) : option (gmap string string) := ds_Selector (dep_Spec d).

(** ** Jobs and claims on volumes *)

Record Job := mkJob {
  job_meta :> ObjectMeta; job_BackoffLimit : Z; job_TTLSecondsAfterFinished : Z; job_Template : PodTemplateSpec;
  job_Succeeded : Z; job_Failed : Z }.

#[export] Instance eta_Job : Eta Job := fun r =>
  mkJob (job_meta r) (job_BackoffLimit r) (job_TTLSecondsAfterFinished r) (job_Template r) (job_Succeeded r) (job_Failed r).

Definition ReadWriteOnce : string := "ReadWriteOnce".
Definition ReadWriteMany : string := "ReadWriteMany".

(** The storage request in bytes. *)
Record PersistentVolumeClaim := mkPVC {
  pvc_meta :> ObjectMeta; pvc_AccessModes : list string; pvc_Request : Z; pvc_StorageClassName : option string }.

#[export] Instance eta_PVC : Eta PersistentVolumeClaim := fun r =>
  mkPVC (pvc_meta r) (pvc_AccessModes r) (pvc_Request r) (pvc_StorageClassName r).

(** ** Objects that are only looked up *)

Record NamespaceObject := mkNamespace { ns_meta :> ObjectMeta }.
Record ServiceAccount := mkServiceAccount { sa_meta :> ObjectMeta }.

(** A NetworkAttachmentDefinition read as an unstructured object; [nad_Config] is
    what [unstructured.NestedString] finds at [spec.config]: an error, nothing,
    or the text. *)
Record NAD := mkNAD { nad_meta :> ObjectMeta; nad_Config : option string + GoErr }.

(** ** Owners *)

(** [metav1.IsControlledBy]: the reference marked as the controller, by UID. *)
Definition IsControlledBy (o owner : ObjectMeta) : bool :=
  match find_first or_Controller (OwnerReferences o) with
  | Some ref => or_UID ref =s UID owner
  | None => false
  end.

Definition set_owners (refs : list OwnerReference) (m : ObjectMeta) : ObjectMeta := m <| OwnerReferences := refs |>.

(** A new object of the given name: what the API server fills in is empty. *)
Definition new_meta (name namespace : string) (labels annotations : gmap string string) : ObjectMeta :=
  mkObjectMeta name namespace "" "" 0 0 None [] labels annotations [].

Definition key_of (m : ObjectMeta) : ObjectKey := mkKey (Namespace m) (Name m).
