(* ===== verification/Cluster.v ===== *)
(** * Cluster: the calls kezio's components make

    The signature [eff] of external calls: the typed Kubernetes client
    (controller-runtime's [client.Client]), the event recorder and metrics, the
    clock and the random source, the [Deployer] interface of
    [src/internal/deployer/deployer.go], the plan builder, the BMC and the boot
    token store.  A pointer argument that the callee may write through appears
    in the answer as the object's new value. *)

From S2P Require Import Prelude Api AgentApi Effects Workloads.
Local Open Scope string_scope.
Local Open Scope list_scope.
Local Open Scope nat_scope.

(** ** Deployer outcomes *)

(** [Unspecified] is the invalid zero value of the Go type. *)
Inductive Outcome := Unspecified | Complete | Continuing | Busy | Failed | Delayed.

#[export] Instance Outcome_eq_dec : EqDecision Outcome.
Proof. solve_decision. Defined.

Definition outcome_string (o : Outcome) : string :=
  match o with
  | Complete => "Complete"
  | Continuing => "Continuing"
  | Busy => "Busy"
  | Failed => "Failed"
  | Delayed => "Delayed"
  | Unspecified => "Unknown"
  end.

(** [deployer.Result]. *)
Record Result := mkResult {
  res_Outcome : Outcome;
  res_RequeueAfter : Z;
  res_ErrorType : string;
  res_ErrorMessage : string }.

Definition outcome (o : Outcome) : Result := mkResult o 0 "" "".
Definition failed (errorType msg : string) : Result := mkResult Failed 0 errorType msg.

(** [planbuild.Snapshot]. *)
Record Snapshot := mkSnapshot {
  snap_ResolvedDisks : list DeployRunResolvedDisk; snap_HooksHash : string }.

(** ** The call signature *)

Inductive kind :=
| KMachine | KClaim | KRun | KHardware | KImage | KSecret | KSubnet
| KContent | KPostHook | KSite | KConfigMap | KDeployment | KPod
| KJob | KPVC | KNAD | KNamespace | KServiceAccount | KImport.

Definition obj (k : kind) : Type :=
  match k with
  | KMachine => Machine
  | KClaim => MachineClaim
  | KRun => DeployRun
  | KHardware => MachineHardware
  | KImage => Image
  | KSecret => Secret
  | KSubnet => Subnet
  | KContent => PartitionContent
  | KPostHook => PostHook
  | KSite => Site
  | KConfigMap => ConfigMap
  | KDeployment => Deployment
  | KPod => Pod
  | KJob => Job
  | KPVC => PersistentVolumeClaim
  | KNAD => NAD
  | KNamespace => NamespaceObject
  | KServiceAccount => ServiceAccount
  | KImport => ImageImport
  end.

(** One method of the [Deployer] interface with its arguments. *)
Inductive deployer_call :=
| DInspect (machine : Machine) (restartOnFailure : bool)
| DProvision (machine : Machine) (run : DeployRun) (restartOnFailure : bool)
| DDeprovision (machine : Machine) (restartOnFailure : bool)
| DPowerOff (machine : Machine)
| DReboot (machine : Machine) (hard : bool).

Definition call_machine (c : deployer_call) : Machine :=
  match c with
  | DInspect m _ | DProvision m _ _ | DDeprovision m _ | DPowerOff m | DReboot m _ => m
  end.

(** One method of the [bmc.BMC] interface. *)
Inductive bmc_op := SetOneTimePXEBoot | GetPowerState | PowerCycle | PowerOn | PowerOff | ForcePowerOff.

Definition PowerStateOn : string := "On".

(** An HTTP response: its status, [resp.ContentLength], which is -1 when the
    length is not known, and the [Content-Range] header. *)
Record HttpResponse := mkHttpResponse { hr_StatusCode : Z; hr_ContentLength : Z; hr_ContentRange : string }.

Inductive eff :=
| EGet (k : kind) (key : ObjectKey)
| EList (k : kind) (namespace : string)
| EListField (k : kind) (field value : string)
| EListLabels (k : kind) (namespace : string) (labels : gmap string string)
| ECreate (k : kind) (o : obj k)
| EUpdate (k : kind) (o : obj k)
| EPatch (k : kind) (base o : obj k)
| EDelete (k : kind) (key : ObjectKey)
| EStatusUpdate (k : kind) (o : obj k)
| EStatusPatch (k : kind) (base o : obj k)
| EStatusApply (k : kind) (o : obj k)
| ECreateOrUpdate (k : kind) (o : obj k)
| EEvent (object etype reason message : string)
| EMetric (name label : string)
| ENow
| ERandFloat64
| ERandRead (n : Z)
| EDeployer (c : deployer_call)
| EBuild (machine : Machine) (claim : option MachineClaim) (run : DeployRun)
| EBuildSnapshot (machine : Machine) (claim : option MachineClaim)
| EBmcConnect (address username password : string) (insecureSkipVerify : bool)
| EBmc (op : bmc_op)
| ETokenIssue (mac : string) (now ttl : Z)
| ETokenLookup (mac wantHash : string)
| ETokenRestore (mac token hash : string)
| EStat (path : string)
| EHttp (method url : string) (headers : list (string * string))
| EPanic (what : string)
| EDiverge.

(** [ECreateOrUpdate k o] is controllerutil's [CreateOrUpdate] with a mutate
    function that sets the fields [o] carries.  [EStat] answers whether the path
    is a directory, or [None] when [os.Stat] fails.  [EHttp] builds a request
    and does it; an error of either is its error.

    An answer is a value or an error. [ERandFloat64] answers the integer [n]
    with [rand.Float64() = n / 2^53].  A nil dereference is the call [EPanic],
    which has no answer: the goroutine does not go on.  A [for] loop without a
    bound is followed for a number of rounds given as an argument, and then is
    the call [EDiverge], without an answer either: a finished run is a run of
    the code, and a bound above the number of rounds the code takes gives it. *)
Definition resp (e : eff) : Type :=
  match e with
  | EGet k _ => (obj k + GoErr)%type
  | EList k _ | EListField k _ _ | EListLabels k _ _ => (list (obj k) + GoErr)%type
  | ECreate k _ | EUpdate k _ | EPatch k _ _ | EStatusUpdate k _ | EStatusPatch k _ _
  | EStatusApply k _ => (obj k + GoErr)%type
  | EDelete _ _ | ECreateOrUpdate _ _ => option GoErr
  | EEvent _ _ _ _ | EMetric _ _ => unit
  | ENow | ERandFloat64 => Z
  | EDeployer _ => (Machine * (Result + GoErr))%type
  | ERandRead _ => (list Z + GoErr)%type
  | EBuild _ _ _ => (DeployPlan * Snapshot + GoErr)%type
  | EBuildSnapshot _ _ => (Snapshot + GoErr)%type
  | EBmcConnect _ _ _ _ => option GoErr
  | EBmc GetPowerState => (string + GoErr)%type
  | EBmc _ => option GoErr
  | ETokenIssue _ _ _ => (string * MachineNetBootStatus + GoErr)%type
  | ETokenLookup _ _ => option string
  | ETokenRestore _ _ _ => unit
  | EStat _ => option bool
  | EHttp _ _ _ => (HttpResponse + GoErr)%type
  | EPanic _ | EDiverge => Empty_set
  end.

Abbreviation go := (prog resp).

Definition Get (k : kind) (key : ObjectKey) : go (obj k + GoErr) := call (R := resp) (EGet k key).
Definition List_ (k : kind) (ns : string) : go (list (obj k) + GoErr) := call (R := resp) (EList k ns).
Definition ListField (k : kind) (field value : string) : go (list (obj k) + GoErr) :=
  call (R := resp) (EListField k field value).
Definition ListLabels (k : kind) (ns : string) (labels : gmap string string) : go (list (obj k) + GoErr) :=
  call (R := resp) (EListLabels k ns labels).
Definition RandRead (n : Z) : go (list Z + GoErr) := call (R := resp) (ERandRead n).
Definition Create (k : kind) (o : obj k) : go (obj k + GoErr) := call (R := resp) (ECreate k o).
Definition Update (k : kind) (o : obj k) : go (obj k + GoErr) := call (R := resp) (EUpdate k o).
Definition Patch (k : kind) (base o : obj k) : go (obj k + GoErr) := call (R := resp) (EPatch k base o).
Definition Delete (k : kind) (key : ObjectKey) : go (option GoErr) := call (R := resp) (EDelete k key).
Definition StatusUpdate (k : kind) (o : obj k) : go (obj k + GoErr) :=
  call (R := resp) (EStatusUpdate k o).
Definition StatusPatch (k : kind) (base o : obj k) : go (obj k + GoErr) :=
  call (R := resp) (EStatusPatch k base o).
Definition StatusApply (k : kind) (o : obj k) : go (obj k + GoErr) :=
  call (R := resp) (EStatusApply k o).
Definition Event (object etype reason message : string) : go unit :=
  call (R := resp) (EEvent object etype reason message).
Definition CreateOrUpdate (k : kind) (o : obj k) : go (option GoErr) :=
  call (R := resp) (ECreateOrUpdate k o).
Definition BmcConnect (address username password : string) (insecureSkipVerify : bool) : go (option GoErr) :=
  call (R := resp) (EBmcConnect address username password insecureSkipVerify).
Definition BmcPowerState : go (string + GoErr) := call (R := resp) (EBmc GetPowerState).
Definition Build (machine : Machine) (claim : option MachineClaim) (run : DeployRun) : go (DeployPlan * Snapshot + GoErr) :=
  call (R := resp) (EBuild machine claim run).
Definition TokenIssue (mac : string) (now ttl : Z) : go (string * MachineNetBootStatus + GoErr) :=
  call (R := resp) (ETokenIssue mac now ttl).
Definition TokenLookup (mac wantHash : string) : go (option string) := call (R := resp) (ETokenLookup mac wantHash).
Definition TokenRestore (mac token hash : string) : go unit := call (R := resp) (ETokenRestore mac token hash).
Definition Stat (path : string) : go (option bool) := call (R := resp) (EStat path).
Definition Http (method url : string) (headers : list (string * string)) : go (HttpResponse + GoErr) :=
  call (R := resp) (EHttp method url headers).
Definition Now : go Z := call (R := resp) ENow.
Definition Deploy (c : deployer_call) : go (Machine * (Result + GoErr)) :=
  call (R := resp) (EDeployer c).

Definition Metric (name label : string) : go unit := call (R := resp) (EMetric name label).
Definition RandFloat64 : go Z := call (R := resp) ERandFloat64.
Definition panic {A} (what : string) : go A :=
  Vis (R := resp) (EPanic what) (fun r : Empty_set => match r with end).

Definition EventTypeNormal : string := "Normal".
Definition EventTypeWarning : string := "Warning".

Definition diverge {A} : go A :=
  Vis (R := resp) EDiverge (fun r : Empty_set => match r with end).

(** ** controller-runtime's reconcile result *)

Record ctrlResult := mkCtrl { Requeue : bool; RequeueAfter : Z }.

Definition noRequeue : ctrlResult := mkCtrl false 0.
Definition requeue : ctrlResult := mkCtrl true 0.
Definition requeueAfter (d : Z) : ctrlResult := mkCtrl false d.

(** A reconciler's [(ctrl.Result, error)]. *)
Abbreviation reply := (ctrlResult * option GoErr)%type.

Definition Millisecond : Z := 1000000.
Definition Second : Z := 1000 * Millisecond.
Definition Minute : Z := 60 * Second.

(** ** Classes of calls *)

Definition is_deployer_call (e : eff) : bool :=
  match e with EDeployer _ => true | _ => false end.

Definition is_write (e : eff) : bool :=
  match e with
  | ECreate _ _ | EUpdate _ _ | EPatch _ _ _ | EDelete _ _ | EStatusUpdate _ _
  | EStatusPatch _ _ _ | EStatusApply _ _ | ECreateOrUpdate _ _ => true
  | _ => false
  end.

(** The Machine statuses a trace sends to the API server, in order. *)
Definition sent_status (e : eff) : option MachineStatus :=
  match e with
  | EStatusApply KMachine m => Some (Status m)
  | EStatusPatch KMachine _ m => Some (Status m)
  | EStatusUpdate KMachine m => Some (Status m)
  | _ => None
  end.

(** ** A concrete environment

    Answers every call the way a healthy cluster would: reads give the stored
    object of the kind, writes are accepted as sent, the deployer gives [result]. *)
Module Demo.

Record world := mkWorld {
  w_machine : option Machine; w_claim : option MachineClaim; w_run : option DeployRun;
  w_image : option Image; w_secret : option Secret; w_subnet : option Subnet;
  w_runs : list DeployRun; w_machines : list Machine; w_result : Result }.

Definition not_found : GoErr := mkErr KNotFound "not found".

Definition answer_get {A} (o : option A) : A + GoErr :=
  match o with Some x => inl x | None => inr not_found end.

Definition get (w : world) (k : kind) : obj k + GoErr :=
  match k with
  | KMachine => answer_get (w_machine w)
  | KClaim => answer_get (w_claim w)
  | KRun => answer_get (w_run w)
  | KHardware => inr not_found
  | KImage => answer_get (w_image w)
  | KSecret => answer_get (w_secret w)
  | KSubnet => answer_get (w_subnet w)
  | _ => inr not_found
  end.

Definition list (w : world) (k : kind) : Datatypes.list (obj k) :=
  match k with
  | KRun => w_runs w
  | KMachine => w_machines w
  | _ => []
  end.

Definition plan : DeployPlan := mkPlan 3 "m1-abcde" "uid-1" "m1" "" "" [] [] [] AfterDeployReboot 0 0 None None None.

Definition handler (w : world) (e : eff) (s : unit) : option (resp e * unit) :=
  match e return option (resp e * unit) with
  | EGet k _ => Some (get w k, s)
  | EList k _ | EListField k _ _ | EListLabels k _ _ => Some (inl (list w k), s)
  | ECreate _ o | EUpdate _ o | EStatusUpdate _ o | EStatusApply _ o => Some (inl o, s)
  | EPatch _ _ o | EStatusPatch _ _ o => Some (inl o, s)
  | EDelete _ _ | ECreateOrUpdate _ _ => Some (None, s)
  | EEvent _ _ _ _ | EMetric _ _ => Some (tt, s)
  | ENow => Some (1000%Z, s)
  | ERandFloat64 => Some (0%Z, s)
  | EDeployer c => Some ((call_machine c, inl (w_result w)), s)
  | ERandRead n => Some (inl (repeat 171%Z (Z.to_nat n)), s)
  | EBuild _ _ _ => Some (inl (plan, mkSnapshot [] "hash"), s)
  | EBuildSnapshot _ _ => Some (inl (mkSnapshot [] "hash"), s)
  | EBmcConnect _ _ _ _ => Some (None, s)
  | EBmc GetPowerState => Some (inl PowerStateOn, s)
  | EBmc _ => Some (None, s)
  | ETokenIssue _ _ _ => Some (inl ("token", mkNetBoot "hash" 2000), s)
  | ETokenLookup _ _ => Some (None, s)
  | ETokenRestore _ _ _ => Some (tt, s)
  | EStat _ => Some (None, s)
  | EHttp _ _ _ => Some (inr (mkErr KOther "no route"), s)
  | EPanic _ | EDiverge => None
  end.

Definition meta (name : string) (annotations : gmap string string) : ObjectMeta :=
  mkObjectMeta name "ns" "uid" "1" 1 0 None [MachineFinalizer] ∅ annotations [].

Definition status (state : string) : MachineStatus :=
  mkMachineStatus state MachineOperationalStatusOK "" 0 0 "" (mkCredentialsStatus None "")
    (mkCredentialsStatus None "") None None None None None None None [].

Definition machine (annotations : gmap string string) (st : MachineStatus) : Machine :=
  mkMachine (meta "m1" annotations)
    (mkMachineSpec (mkBMC "redfish://10.0.0.1" (mkSecretReference "bmc")) "52:54:00:00:00:01"
      (mkNameRef "" "net") None [] None) st.

Definition secret : Secret := mkSecret (meta "bmc" ∅) "Opaque" (<["username":="admin"]> (<["password":="secret"]> ∅)).

Definition world_of (r : Result) : world :=
  mkWorld None None None None (Some secret) None [] [] r.

Definition key : ObjectKey := mkKey "ns" "m1".
Definition no_json (mode value : string) : string + GoErr := inr (errorf "invalid character" []).

End Demo.
