(* ===== verification/Store.v ===== *)
(** * Store: the content store's formats

    [src/internal/store]: partclone's torrent.info (parser and writer), the
    bencoded info dict a content is addressed by, extent file names, object
    names and the layout of a content directory.  A file is its bytes, a
    string; a hash is its list of bytes.  SHA-1 is a parameter.  The text of an
    error that [strconv] or [encoding/hex] gives is left out of the message that
    wraps it.  The file system calls of [layout.go] are the signature [fs]. *)

From S2P Require Import Prelude Text Effects.
Local Open Scope string_scope.
Local Open Scope list_scope.
Local Open Scope Z_scope.

(** ** torrent.info *)

Definition PieceSize : Z := 16 * 1024 * 1024.
Definition SHA1Size : nat := 20.
Definition InfoHashSize : nat := 20.

Record Extent := mkExtent { Offset : Z; Length : Z }.

Abbreviation PieceHash := (list Z).
Abbreviation InfoHash := (list Z).

Record TorrentInfo := mkTorrentInfo {
  BlockSize : Z; BlocksTotal : Z; Extents : list Extent; PieceHashes : list PieceHash }.

#[export] Instance Extent_eq_dec : EqDecision Extent.
Proof. solve_decision. Defined.
#[export] Instance TorrentInfo_eq_dec : EqDecision TorrentInfo.
Proof. solve_decision. Defined.
#[export] Instance eta_TorrentInfo : Eta TorrentInfo := fun r =>
  mkTorrentInfo (BlockSize r) (BlocksTotal r) (Extents r) (PieceHashes r).

Definition prefixBlockSize : string := "block_size: ".
Definition prefixBlocksTotal : string := "blocks_total: ".
Definition prefixOffset : string := "offset: ".
Definition prefixLength : string := "length: ".
Definition prefixSha1 : string := "sha1: ".
Definition hexFieldWidth : nat := 32.

Definition cutPrefix (line prefix : string) : string := default "" (CutPrefix line prefix).

(** The variables of the loop; [pending] is [pendingOffset] while
    [havePendingOffset]. *)
Record parse_state := mkParse {
  info : TorrentInfo; haveBlockSize : bool; haveBlocksTotal : bool; pending : option Z }.

#[export] Instance eta_parse_state : Eta parse_state := fun r =>
  mkParse (info r) (haveBlockSize r) (haveBlocksTotal r) (pending r).

(** An error at a line. *)
Definition line_err {A} (lineNo : nat) (what : string) (args : list string) : A + GoErr :=
  inr (errorf (String.append "torrent.info:%d: " what) (show_dec (Z.of_nat lineNo) :: args)).

(** The body of the loop: one line. *)
Definition parse_line (lineNo : nat) (st : parse_state) (line : string) : parse_state + GoErr :=
  if cutPrefix line prefixBlockSize <>s "" then
    if haveBlockSize st then line_err lineNo "duplicate block_size line" [] else
    match ParseUint (cutPrefix line prefixBlockSize) 10 32 with
    | None => line_err lineNo "invalid block_size" []
    | Some v => inl (st <| info := (info st) <| BlockSize := v |> |> <| haveBlockSize := true |>)
    end
  else if cutPrefix line prefixBlocksTotal <>s "" then
    if haveBlocksTotal st then line_err lineNo "duplicate blocks_total line" [] else
    match ParseUint (cutPrefix line prefixBlocksTotal) 10 64 with
    | None => line_err lineNo "invalid blocks_total" []
    | Some v => inl (st <| info := (info st) <| BlocksTotal := v |> |> <| haveBlocksTotal := true |>)
    end
  else if cutPrefix line prefixOffset <>s "" then
    match pending st with
    | Some _ => line_err lineNo "offset line follows another offset line with no length line between them" []
    | None =>
      match ParseUint (cutPrefix line prefixOffset) 16 64 with
      | None => line_err lineNo "invalid offset" []
      | Some v => inl (st <| pending := Some v |>)
      end
    end
  else if cutPrefix line prefixLength <>s "" then
    match pending st with
    | None => line_err lineNo "length line without a preceding offset" []
    | Some off =>
      match ParseUint (cutPrefix line prefixLength) 16 64 with
      | None => line_err lineNo "invalid length" []
      | Some v => inl (st <| info := (info st) <| Extents := Extents (info st) ++ [mkExtent off v] |> |>
                          <| pending := (@None Z) |>)
      end
    end
  else if cutPrefix line prefixSha1 <>s "" then
    let hexHash := cutPrefix line prefixSha1 in
    if negb (Nat.eqb (String.length hexHash) (SHA1Size * 2)) then
      line_err lineNo "sha1 line has %d hex chars, want %d"
        [show_dec (Z.of_nat (String.length hexHash)); show_dec (Z.of_nat (SHA1Size * 2))]
    else match DecodeString hexHash with
         | None => line_err lineNo "invalid sha1" []
         | Some h => inl (st <| info := (info st) <| PieceHashes := PieceHashes (info st) ++ [h] |> |>)
         end
  else if line =s "" then inl st
  else line_err lineNo "unrecognized line %q" [line].

(** [bufio.MaxScanTokenSize]: a line that fills the buffer without its newline
    ends the scan with an error. *)
Definition MaxScanTokenSize : N := 65536.

Fixpoint parse_lines (lineNo : nat) (st : parse_state) (lines : list string) : parse_state + GoErr :=
  match lines with
  | [] => inl st
  | line :: lines =>
    if (MaxScanTokenSize <=? N.of_nat (String.length line))%N then inr (errorf "torrent.info: bufio.Scanner: token too long" [])
    else match parse_line (S lineNo) st (dropCR line) with
         | inr err => inr err
         | inl st => parse_lines (S lineNo) st lines
         end
  end.

Definition ParseTorrentInfo (data : string) : TorrentInfo + GoErr :=
  match parse_lines 0 (mkParse (mkTorrentInfo 0 0 [] []) false false None) (raw_lines data) with
  | inr err => inr err
  | inl st =>
    if bool_decide (is_Some (pending st)) then
      inr (errorf "torrent.info: trailing offset line without a matching length" [])
    else if negb (haveBlockSize st) then inr (errorf "torrent.info: missing block_size line" [])
    else if negb (haveBlocksTotal st) then inr (errorf "torrent.info: missing blocks_total line" [])
    else inl (info st)
  end.

Definition ParseTorrentInfoBytes (data : string) : TorrentInfo + GoErr := ParseTorrentInfo data.

(** The lines [WriteTorrentInfo] prints, each with its newline. *)
Definition extent_lines (e : Extent) : list string :=
  [String.append prefixOffset (pad_zero hexFieldWidth (show_hex (Offset e)));
   String.append prefixLength (pad_zero hexFieldWidth (show_hex (Length e)))].

Definition torrent_lines (info : TorrentInfo) : list string :=
  [String.append prefixBlockSize (show_dec (BlockSize info));
   String.append prefixBlocksTotal (show_dec (BlocksTotal info))]
  ++ List.concat (map extent_lines (Extents info))
  ++ map (fun h => String.append prefixSha1 (EncodeToString h)) (PieceHashes info).

Definition WriteTorrentInfo (info : TorrentInfo) : string :=
  String.concat "" (map (fun l => String.append l newline) (torrent_lines info)).

(** ** Extent file names and info hashes *)

Definition ExtentFileName (offset : Z) : string := pad_zero hexFieldWidth (show_hex offset).

Definition ParseExtentFileName (name : string) : Z + GoErr :=
  if negb (Nat.eqb (String.length name) hexFieldWidth) then
    inr (errorf "parse extent file name %q: want %d hex chars, got %d"
           [name; show_dec (Z.of_nat hexFieldWidth); show_dec (Z.of_nat (String.length name))])
  else match ParseUint name 16 64 with
       | None => inr (errorf "parse extent file name %q" [name])
       | Some offset => inl offset
       end.

Definition ParseInfoHash (s : string) : InfoHash + GoErr :=
  if negb (Nat.eqb (String.length s) (2 * InfoHashSize)) then
    inr (errorf "parse info hash: %q has %d hex chars, want %d"
           [s; show_dec (Z.of_nat (String.length s)); show_dec (Z.of_nat (2 * InfoHashSize))])
  else match DecodeString s with
       | None => inr (errorf "parse info hash %q" [s])
       | Some h => inl h
       end.

(** [InfoHash.String] writes the nibbles of each byte. *)
Definition InfoHash_String (h : InfoHash) : string :=
  string_of_list_ascii (List.concat (map (fun b => [digit_char (Z.shiftr b 4); digit_char (Z.land b 15)]) h)).

(** ** Bencoding *)

Definition bencodeString (s : string) : string :=
  String.append (show_dec (Z.of_nat (String.length s))) (String.append ":" s).

Definition bencodeInt (n : Z) : string := String.append "i" (String.append (show_dec n) "e").

Definition bencodeExtentFile (name : string) (length : Z) : string :=
  String.concat "" ["d"; bencodeString "length"; bencodeInt (int64 length);
                    bencodeString "path"; "l"; bencodeString name; "e"; "e"].

Definition contentName : string := "content".

(** Raw bytes. *)
Definition bytes_string (bs : list Z) : string :=
  string_of_list_ascii (map (fun b => ascii_of_nat (Z.to_nat b)) bs).

Definition BuildInfoDict (info : TorrentInfo) : string + GoErr :=
  match Extents info, PieceHashes info with
  | [], _ => inr (errorf "build info dict: no extents" [])
  | _, [] => inr (errorf "build info dict: no piece hashes" [])
  | _, _ =>
    let extents := sort_by (fun a b => Offset a <? Offset b) (Extents info) in
    let pieces := bytes_string (List.concat (PieceHashes info)) in
    inl (String.concat ""
      ["d"; bencodeString "files"; "l";
       String.concat "" (map (fun e => bencodeExtentFile (ExtentFileName (Offset e)) (Length e)) extents);
       "e"; bencodeString "name"; bencodeString contentName;
       bencodeString "piece length"; bencodeInt PieceSize;
       bencodeString "pieces"; bencodeString pieces; "e"])
  end.

Section Hash.
Context (sha1 : string -> InfoHash).

Definition ComputeInfoHash (info : TorrentInfo) : InfoHash + GoErr :=
  match BuildInfoDict info with
  | inr err => inr err
  | inl dict => inl (sha1 dict)
  end.
End Hash.

Definition BuildTorrentFile (info : TorrentInfo) (trackerURL : string) : string + GoErr :=
  if trackerURL =s "" then inr (errorf "build torrent file: empty tracker URL" []) else
  match BuildInfoDict info with
  | inr err => inr (wrapf "build torrent file: %w" [] err)
  | inl dict =>
    inl (String.concat "" ["d"; bencodeString "announce"; bencodeString trackerURL; bencodeString "info"; dict; "e"])
  end.

(** ** Names *)

Definition pvcContentSuffix : string := "-content".
Definition partitionInfix : string := "-p".
Definition k8sObjectNameMaxLength : nat := 253.
Definition MaxContentNameLength : nat := k8sObjectNameMaxLength - String.length pvcContentSuffix.

Definition ContentName (prefix : string) (partitionNumber : Z) : string :=
  String.append prefix (String.append partitionInfix (show_dec partitionNumber)).

Definition PVCName (contentName : string) : string := String.append contentName pvcContentSuffix.

(** ** Content directories *)

(** [os.DirEntry]: its name, whether it is a directory, and what [Info] answers:
    the size or an error. *)
Record DirEntry := mkEntry { de_Name : string; de_IsDir : bool; de_Size : Z + GoErr }.

(** The file system calls. *)
Inductive fs := FReadDir (dir : string) | FMkdirAll (dir : string) | FRename (from to : string) | FReadFile (path : string).

Definition fs_resp (e : fs) : Type :=
  match e with
  | FReadDir _ => (list DirEntry + GoErr)%type
  | FMkdirAll _ | FRename _ _ => option GoErr
  | FReadFile _ => (string + GoErr)%type
  end.

Abbreviation fsgo := (prog fs_resp).

Definition TorrentInfoFileName : string := "torrent.info".

Definition ContentDataDir (dir : string) : string := Join [dir; contentName].
Definition ContentDirTorrentInfoPath (dir : string) : string := Join [dir; TorrentInfoFileName].

(** The first loop: only torrent.info and the data directory, of the right kind. *)
Fixpoint check_top (dir : string) (entries : list DirEntry) (sawInfo sawContent : bool) : (bool * bool) + GoErr :=
  match entries with
  | [] => inl (sawInfo, sawContent)
  | e :: entries =>
    if de_Name e =s TorrentInfoFileName then
      if de_IsDir e then inr (errorf "content dir %s: %s is a directory, want a regular file" [dir; TorrentInfoFileName])
      else check_top dir entries true sawContent
    else if de_Name e =s contentName then
      if negb (de_IsDir e) then inr (errorf "content dir %s: %s is a regular file, want a directory" [dir; contentName])
      else check_top dir entries sawInfo true
    else inr (errorf "content dir %s: unexpected entry %s" [dir; de_Name e])
  end.

(** The [%#x] verb. *)
Definition sharp_hex (n : Z) : string := String.append "0x" (show_hex n).

(** The second loop: each extent has its file with its size. *)
Fixpoint check_extents (dataDir : string) (present : gmap string DirEntry) (extents : list Extent) : option GoErr :=
  match extents with
  | [] => None
  | ext :: extents =>
    let name := ExtentFileName (Offset ext) in
    match present !! name with
    | None => Some (errorf "content data dir %s: missing extent file %s (offset %x, length %x)"
                      [dataDir; name; sharp_hex (Offset ext); sharp_hex (Length ext)])
    | Some entry =>
      if de_IsDir entry then Some (errorf "content data dir %s: extent file %s is a directory" [dataDir; name]) else
      match de_Size entry with
      | inr err => Some (wrapf "content data dir %s: stat extent file %s: %w" [dataDir; name] err)
      | inl size =>
        if negb (size =? Length ext) then
          Some (errorf "content data dir %s: extent file %s has size %x, want %x"
                  [dataDir; name; sharp_hex size; sharp_hex (Length ext)])
        else check_extents dataDir present extents
      end
    end
  end.

(** The last loop runs over a Go map, in no particular order; here in the order
    of [map_to_list]. *)
Definition check_unexpected (dataDir : string) (present : gmap string DirEntry) (expected : gset string) : option GoErr :=
  match find_first (fun '(name, _) => negb (bool_decide (name ∈ expected))) (map_to_list present) with
  | None => None
  | Some (name, entry) =>
    Some (if de_IsDir entry then errorf "content data dir %s: unexpected directory %s" [dataDir; name]
          else errorf "content data dir %s: unexpected file %s not listed in torrent.info" [dataDir; name])
  end.

Definition ValidateContentDir (dir : string) (info : TorrentInfo) : fsgo (option GoErr) :=
  r <- call (R := fs_resp) (FReadDir dir) ;;
  match r with
  | inr err => Ret (Some (wrapf "read content dir %s: %w" [dir] err))
  | inl entries =>
    match check_top dir entries false false with
    | inr err => Ret (Some err)
    | inl (sawInfo, sawContent) =>
      if negb sawInfo then Ret (Some (errorf "content dir %s: missing %s" [dir; TorrentInfoFileName])) else
      if negb sawContent then Ret (Some (errorf "content dir %s: missing %s directory" [dir; contentName])) else
      let dataDir := ContentDataDir dir in
      r <- call (R := fs_resp) (FReadDir dataDir) ;;
      match r with
      | inr err => Ret (Some (wrapf "read content data dir %s: %w" [dataDir] err))
      | inl dataEntries =>
        let present : gmap string DirEntry :=
          fold_left (fun m e => <[de_Name e := e]> m) dataEntries ∅ in
        match check_extents dataDir present (Extents info) with
        | Some err => Ret (Some err)
        | None => Ret (check_unexpected dataDir present
                         (list_to_set (map (fun e => ExtentFileName (Offset e)) (Extents info))))
        end
      end
    end
  end.

Fixpoint nest_files (dir dataDir : string) (extents : list Extent) : fsgo (option GoErr) :=
  match extents with
  | [] => Ret None
  | ext :: extents =>
    let name := ExtentFileName (Offset ext) in
    r <- call (R := fs_resp) (FRename (Join [dir; name]) (Join [dataDir; name])) ;;
    match r with
    | Some err => Ret (Some (wrapf "nest extent file %s into %s: %w" [name; dataDir] err))
    | None => nest_files dir dataDir extents
    end
  end.

Definition NestExtentFiles (dir : string) (info : TorrentInfo) : fsgo (option GoErr) :=
  let dataDir := ContentDataDir dir in
  r <- call (R := fs_resp) (FMkdirAll dataDir) ;;
  match r with
  | Some err => Ret (Some (wrapf "create content data dir %s: %w" [dataDir] err))
  | None => nest_files dir dataDir (Extents info)
  end.

Definition LoadContentDirTorrentInfo (dir : string) : fsgo (TorrentInfo + GoErr) :=
  r <- call (R := fs_resp) (FReadFile (ContentDirTorrentInfoPath dir)) ;;
  match r with
  | inr err => Ret (inr (wrapf "open torrent.info in %s: %w" [dir] err))
  | inl data =>
    match ParseTorrentInfo data with
    | inr err => Ret (inr (wrapf "content dir %s: %w" [dir] err))
    | inl info => Ret (inl info)
    end
  end.

(** ** torrent.info is three independent streams

    What a line says, on its own. *)
Inductive item :=
| IBlockSize (v : Z) | IBlocksTotal (v : Z) | IOffset (v : Z) | ILength (v : Z) | ISha1 (h : PieceHash) | IBlank.

Definition classify (line : string) : option item :=
  if cutPrefix line prefixBlockSize <>s "" then IBlockSize <$> ParseUint (cutPrefix line prefixBlockSize) 10 32
  else if cutPrefix line prefixBlocksTotal <>s "" then
    IBlocksTotal <$> ParseUint (cutPrefix line prefixBlocksTotal) 10 64
  else if cutPrefix line prefixOffset <>s "" then IOffset <$> ParseUint (cutPrefix line prefixOffset) 16 64
  else if cutPrefix line prefixLength <>s "" then ILength <$> ParseUint (cutPrefix line prefixLength) 16 64
  else if cutPrefix line prefixSha1 <>s "" then
    if Nat.eqb (String.length (cutPrefix line prefixSha1)) (SHA1Size * 2)
    then ISha1 <$> DecodeString (cutPrefix line prefixSha1) else None
  else if line =s "" then Some IBlank else None.

(** What a line does to the state, if it may come there. *)
Definition take (st : parse_state) (it : item) : option parse_state :=
  match it with
  | IBlockSize v => if haveBlockSize st then None
                    else Some (st <| info := (info st) <| BlockSize := v |> |> <| haveBlockSize := true |>)
  | IBlocksTotal v => if haveBlocksTotal st then None
                      else Some (st <| info := (info st) <| BlocksTotal := v |> |> <| haveBlocksTotal := true |>)
  | IOffset v => match pending st with Some _ => None | None => Some (st <| pending := Some v |>) end
  | ILength v =>
    match pending st with
    | None => None
    | Some off => Some (st <| info := (info st) <| Extents := Extents (info st) ++ [mkExtent off v] |> |>
                           <| pending := (@None Z) |>)
    end
  | ISha1 h => Some (st <| info := (info st) <| PieceHashes := PieceHashes (info st) ++ [h] |> |>)
  | IBlank => Some st
  end.

Fixpoint take_all (st : parse_state) (its : list item) : option parse_state :=
  match its with [] => Some st | it :: its => take st it ≫= fun st => take_all st its end.

Lemma parse_line_take n st line st' :
  parse_line n st line = inl st' <-> classify line ≫= take st = Some st'.
Proof.
  unfold parse_line, classify, line_err.
  destruct (_ <>s _).
  { destruct (ParseUint _ _ _); cbn; destruct (haveBlockSize st); naive_solver. }
  destruct (_ <>s _).
  { destruct (ParseUint _ _ _); cbn; destruct (haveBlocksTotal st); naive_solver. }
  destruct (_ <>s _).
  { destruct (ParseUint _ _ _); cbn; destruct (pending st); naive_solver. }
  destruct (_ <>s _).
  { destruct (ParseUint _ _ _); cbn; destruct (pending st); naive_solver. }
  destruct (_ <>s _).
  { destruct (Nat.eqb _ _); cbn [negb]; [|naive_solver]. destruct (DecodeString _); cbn; naive_solver. }
  destruct (line =s ""); cbn; naive_solver.
Qed.

(** A line that fits the scanner's buffer. *)
Definition fits (line : string) : bool := negb (MaxScanTokenSize <=? N.of_nat (String.length line))%N.

Lemma parse_lines_take n st ls st' :
  parse_lines n st ls = inl st' <->
  forallb fits ls = true /\ exists its, mapM (classify ∘ dropCR) ls = Some its /\ take_all st its = Some st'.
Proof.
  revert n st. induction ls as [|l ls IH]; intros n st; cbn [parse_lines forallb].
  { split; [intros [= <-]; split; [done|by exists []]|]. intros (_ & its & [= <-] & [= ->]). done. }
  unfold fits at 1. destruct (_ <=? _)%N; cbn [negb andb]; [by split; [|intros []]|].
  pose proof (fun st1 => parse_line_take (S n) st (dropCR l) st1) as Hl. cbn [mapM mbind option_bind].
  change ((classify ∘ dropCR) l) with (classify (dropCR l)).
  destruct (parse_line (S n) st (dropCR l)) as [st1|err].
  - pose proof (proj1 (Hl st1) eq_refl) as (it & Ec & Et)%bind_Some. rewrite IH, Ec. cbn. split.
    + intros (Hf & its & E & Hc). split; [done|]. exists (it :: its). rewrite E. cbn. by rewrite Et.
    + intros (Hf & its & E & Hc). split; [done|]. destruct (mapM _ ls) as [its'|]; [|done]. injection E as <-.
      exists its'. cbn in Hc. rewrite Et in Hc. done.
  - split; [done|]. intros (_ & its & E & Hc).
    destruct (classify (dropCR l)) as [it|]; [|done]. cbn in E. destruct (mapM _ ls); [|done]. injection E as <-.
    cbn in Hc. destruct (take st it) as [st1|] eqn:Et; [|done].
    assert (inr err = inl st1 :> parse_state + GoErr); [|done]. apply Hl. cbn. done.
Qed.

(** The streams. *)
Definition block_sizes : list item -> list Z := omap (fun it => match it with IBlockSize v => Some v | _ => None end).
Definition blocks_totals : list item -> list Z := omap (fun it => match it with IBlocksTotal v => Some v | _ => None end).
Definition sha1s : list item -> list PieceHash := omap (fun it => match it with ISha1 h => Some h | _ => None end).
Definition offs_lens : list item -> list (Z + Z) :=
  omap (fun it => match it with IOffset v => Some (inl v) | ILength v => Some (inr v) | _ => None end).

(** Offsets and lengths alternate. *)
Definition paired (es : list Extent) : list (Z + Z) :=
  es ≫= fun e => [inl (Offset e); inr (Length e)].

Definition opt_list {A} (b : bool) (a : A) : list A := if b then [a] else [].

Definition pend_list (p : option Z) : list (Z + Z) := match p with Some v => [inl v] | None => [] end.

Lemma paired_snoc es e : paired (es ++ [e]) = paired es ++ [inl (Offset e); inr (Length e)].
Proof. unfold paired. rewrite bind_app. done. Qed.

Lemma take_all_streams st its st' :
  take_all st its = Some st' ->
  opt_list (haveBlockSize st) (BlockSize (info st)) ++ block_sizes its
    = opt_list (haveBlockSize st') (BlockSize (info st'))
  /\ opt_list (haveBlocksTotal st) (BlocksTotal (info st)) ++ blocks_totals its
    = opt_list (haveBlocksTotal st') (BlocksTotal (info st'))
  /\ paired (Extents (info st)) ++ pend_list (pending st) ++ offs_lens its
    = paired (Extents (info st')) ++ pend_list (pending st')
  /\ PieceHashes (info st) ++ sha1s its = PieceHashes (info st').
Proof.
  revert st. induction its as [|it its IH]; intros st; cbn [take_all].
  { intros [= ->]. cbn. by rewrite !app_nil_r. }
  destruct (take st it) as [st1|] eqn:E; [|done]. cbn. intros (H1 & H2 & H3 & H4)%IH.
  destruct it; cbn in E; repeat (case_match; try done); simplify_eq; cbn in *;
    repeat match goal with H : ?f st = _ |- context [?f st] => rewrite H end;
    rewrite ?paired_snoc, <- ?app_assoc in H3; rewrite <- ?app_assoc in H4; cbn in *; done.
Qed.

(** An offset is awaited, or ([true]) a length. *)
Fixpoint alternates (p : bool) (l : list (Z + Z)) : bool :=
  match l with
  | [] => true
  | inl _ :: l => negb p && alternates true l
  | inr _ :: l => p && alternates false l
  end.

Lemma alternates_paired es : alternates false (paired es) = true.
Proof. induction es as [|e es IH]; [done|]. exact IH. Qed.

Lemma paired_inj es es' p : paired es ++ pend_list p = paired es' -> es = es' /\ p = None.
Proof.
  revert es'. induction es as [|[o l] es IH]; intros [|[o' l'] es']; cbn; try (by destruct p).
  intros [= -> -> E]. by destruct (IH _ E) as [-> ->].
Qed.

Lemma take_all_total st its :
  ((if haveBlockSize st then 1 else 0) + length (block_sizes its) <= 1)%nat ->
  ((if haveBlocksTotal st then 1 else 0) + length (blocks_totals its) <= 1)%nat ->
  alternates (bool_decide (is_Some (pending st))) (offs_lens its) = true ->
  is_Some (take_all st its).
Proof.
  revert st. induction its as [|it its IH]; intros st H1 H2 H3; cbn [take_all]; [by eexists|].
  destruct it; cbn in H1, H2, H3; cbn [take].
  - destruct (haveBlockSize st); [lia|]. apply IH; cbn; [lia|lia|done].
  - destruct (haveBlocksTotal st); [lia|]. apply IH; cbn; [lia|lia|done].
  - destruct (pending st); [done|]. apply IH; cbn; [lia|lia|done].
  - destruct (pending st); [|done]. apply IH; cbn; [lia|lia|done].
  - apply IH; cbn; [lia|lia|done].
  - apply IH; cbn; [lia|lia|done].
Qed.

(** The text [data] holds the three streams of [ti], in any interleaving. *)
Definition streams_of (data : string) (ti : TorrentInfo) : Prop :=
  forallb fits (raw_lines data) = true /\
  exists its, mapM (classify ∘ dropCR) (raw_lines data) = Some its
    /\ block_sizes its = [BlockSize ti] /\ blocks_totals its = [BlocksTotal ti]
    /\ offs_lens its = paired (Extents ti) /\ sha1s its = PieceHashes ti.

Lemma ParseTorrentInfo_iff data ti : ParseTorrentInfo data = inl ti <-> streams_of data ti.
Proof.
  unfold ParseTorrentInfo, streams_of. set (st0 := mkParse _ _ _ _).
  pose proof (parse_lines_take 0 st0 (raw_lines data)) as Hp. split.
  - destruct (parse_lines 0 st0 _) as [st|] eqn:E; [|done].
    destruct (proj1 (Hp st) eq_refl) as (Hf & its & Hm & Ht). apply take_all_streams in Ht. cbn in Ht.
    destruct (pending st); [done|]. cbn. destruct (haveBlockSize st); [|done]. destruct (haveBlocksTotal st); [|done].
    cbn. intros [= <-]. destruct Ht as (H1 & H2 & H3 & H4). rewrite app_nil_r in H3. eauto 8.
  - intros (Hf & its & Hm & H1 & H2 & H3 & H4).
    destruct (take_all_total st0 its) as [st Hst].
    { rewrite H1. cbn. lia. } { rewrite H2. cbn. lia. } { rewrite H3. apply alternates_paired. }
    rewrite (proj2 (Hp st)) by eauto. apply take_all_streams in Hst as (E1 & E2 & E3 & E4).
    rewrite H1 in E1. rewrite H2 in E2. rewrite H3 in E3. rewrite H4 in E4. cbn in E1, E2, E3, E4.
    destruct (haveBlockSize st); [|done]. destruct (haveBlocksTotal st); [|done].
    destruct (paired_inj _ _ _ (eq_sym E3)) as [E5 ->]. cbn.
    destruct st as [[b t e p] ? ? ?], ti as [b' t' e' p']; cbn in *. by simplify_eq.
Qed.

(** The torrent.info parser reads three independent streams: it accepts a
    file exactly when every line is understood on its own and fits the scanner,
    there is one block_size and one blocks_total line, offsets and lengths
    alternate, and the result holds these streams in order; how sha1 lines
    interleave with the others does not matter. *)
Theorem ParseTorrentInfo_streams data ti :
  ParseTorrentInfo data = inl ti <-> streams_of data ti.
Proof. apply ParseTorrentInfo_iff. Qed.

(** *** Widths of parsed values, and the round trip *)

Definition extent_ok (e : Extent) : Prop := 0 <= Offset e < 2 ^ 64 /\ 0 <= Length e < 2 ^ 64.
Definition hash_ok (h : list Z) : Prop := Forall is_byte h /\ length h = SHA1Size.

(** The value fits the Go types. *)
Definition torrent_info_ok (ti : TorrentInfo) : Prop :=
  0 <= BlockSize ti < 2 ^ 32 /\ 0 <= BlocksTotal ti < 2 ^ 64
  /\ Forall extent_ok (Extents ti) /\ Forall hash_ok (PieceHashes ti).

Definition item_ok (it : item) : Prop :=
  match it with
  | IBlockSize v => 0 <= v < 2 ^ 32
  | IBlocksTotal v | IOffset v | ILength v => 0 <= v < 2 ^ 64
  | ISha1 h => hash_ok h
  | IBlank => True
  end.

Lemma classify_ok line it : classify line = Some it -> item_ok it.
Proof.
  unfold classify. destruct (_ <>s _); [intros (v & H & ->)%fmap_Some; by eapply ParseUint_range, H|].
  destruct (_ <>s _); [intros (v & H & ->)%fmap_Some; by eapply ParseUint_range, H|].
  destruct (_ <>s _); [intros (v & H & ->)%fmap_Some; by eapply ParseUint_range, H|].
  destruct (_ <>s _); [intros (v & H & ->)%fmap_Some; by eapply ParseUint_range, H|].
  destruct (_ <>s _).
  - destruct (Nat.eqb_spec (String.length (cutPrefix line prefixSha1)) (SHA1Size * 2)) as [E|]; [|done].
    intros (h & [Hb Hl]%DecodeString_bytes & ->)%fmap_Some. split; [done|]. unfold SHA1Size in *. lia.
  - destruct (_ =s _); [|done]. by intros [= <-].
Qed.

Lemma take_ok st it st' :
  item_ok it -> take st it = Some st' ->
  torrent_info_ok (info st) /\ (forall v, pending st = Some v -> 0 <= v < 2 ^ 64) ->
  torrent_info_ok (info st') /\ (forall v, pending st' = Some v -> 0 <= v < 2 ^ 64).
Proof.
  unfold torrent_info_ok. intros Hi E ((H1 & H2 & H3 & H4) & Hp).
  destruct it; cbn in E, Hi; repeat (case_match; try done); simplify_eq; cbn;
    rewrite ?Forall_app, ?Forall_singleton; unfold extent_ok; cbn; try rewrite H; naive_solver.
Qed.

Lemma take_all_ok st its st' :
  Forall item_ok its -> take_all st its = Some st' ->
  torrent_info_ok (info st) /\ (forall v, pending st = Some v -> 0 <= v < 2 ^ 64) ->
  torrent_info_ok (info st').
Proof.
  intros Hf. revert st. induction Hf as [|it its Hi _ IH]; intros st; cbn [take_all].
  { intros [= ->] []. done. }
  destruct (take st it) as [st1|] eqn:E; [|done]. intros Ht Hok. eapply IH; [exact Ht|]. by eapply take_ok.
Qed.

Lemma ParseTorrentInfo_in_range data ti : ParseTorrentInfo data = inl ti -> torrent_info_ok ti.
Proof.
  unfold ParseTorrentInfo. destruct (parse_lines _ _ _) as [st|] eqn:E; [|done].
  apply parse_lines_take in E as (_ & its & Hm & Ht). repeat (case_match; try done). intros [= <-].
  apply mapM_Some in Hm. eapply take_all_ok; [|exact Ht|].
  - clear -Hm. induction Hm as [|l it ls its Hl _ IH]; constructor; [by eapply classify_ok|done].
  - split; [|done]. unfold torrent_info_ok. cbn. split_and!; try lia; constructor.
Qed.

(** What a written line says. *)
Lemma classify_block_size v : 0 <= v < 2 ^ 32 ->
  classify (String.append prefixBlockSize (show_dec v)) = Some (IBlockSize v).
Proof.
  intros Hv. unfold classify, cutPrefix. rewrite CutPrefix_app. cbn [default from_option id].
  destruct (String.eqb_spec (show_dec v) "") as [E|]; cbn [negb].
  - pose proof (ParseUint_dec v 32 Hv) as H. by rewrite E in H.
  - by rewrite ParseUint_dec.
Qed.

Lemma classify_blocks_total v : 0 <= v < 2 ^ 64 ->
  classify (String.append prefixBlocksTotal (show_dec v)) = Some (IBlocksTotal v).
Proof.
  intros Hv. unfold classify, cutPrefix. rewrite CutPrefix_app.
  change (CutPrefix (String.append prefixBlocksTotal (show_dec v)) prefixBlockSize) with (@None string).
  cbn [default from_option id negb String.eqb].
  destruct (String.eqb_spec (show_dec v) "") as [E|]; cbn [negb].
  - pose proof (ParseUint_dec v 64 Hv) as H. by rewrite E in H.
  - by rewrite ParseUint_dec.
Qed.

Lemma hex_field_nonempty v : 0 <= v < 2 ^ 64 -> pad_zero hexFieldWidth (show_hex v) <> "".
Proof. intros Hv E. pose proof (ParseUint_hex hexFieldWidth v 64 Hv) as H. by rewrite E in H. Qed.

Lemma classify_offset v : 0 <= v < 2 ^ 64 ->
  classify (String.append prefixOffset (pad_zero hexFieldWidth (show_hex v))) = Some (IOffset v).
Proof.
  intros Hv. unfold classify, cutPrefix. set (x := pad_zero _ _). rewrite CutPrefix_app.
  change (CutPrefix (String.append prefixOffset x) prefixBlockSize) with (@None string).
  change (CutPrefix (String.append prefixOffset x) prefixBlocksTotal) with (@None string).
  cbn [default from_option id negb String.eqb].
  destruct (String.eqb_spec x "") as [E|]; cbn [negb]; [by apply hex_field_nonempty in E|].
  unfold x. by rewrite ParseUint_hex.
Qed.

Lemma classify_length v : 0 <= v < 2 ^ 64 ->
  classify (String.append prefixLength (pad_zero hexFieldWidth (show_hex v))) = Some (ILength v).
Proof.
  intros Hv. unfold classify, cutPrefix. set (x := pad_zero _ _). rewrite CutPrefix_app.
  change (CutPrefix (String.append prefixLength x) prefixBlockSize) with (@None string).
  change (CutPrefix (String.append prefixLength x) prefixBlocksTotal) with (@None string).
  change (CutPrefix (String.append prefixLength x) prefixOffset) with (@None string).
  cbn [default from_option id negb String.eqb].
  destruct (String.eqb_spec x "") as [E|]; cbn [negb]; [by apply hex_field_nonempty in E|].
  unfold x. by rewrite ParseUint_hex.
Qed.

Lemma classify_sha1 h : hash_ok h -> classify (String.append prefixSha1 (EncodeToString h)) = Some (ISha1 h).
Proof.
  intros [Hb Hl]. unfold classify, cutPrefix. pose proof (EncodeToString_length h) as Hlen.
  pose proof (DecodeString_Encode h Hb) as Hd. set (x := EncodeToString h) in *. rewrite CutPrefix_app.
  change (CutPrefix (String.append prefixSha1 x) prefixBlockSize) with (@None string).
  change (CutPrefix (String.append prefixSha1 x) prefixBlocksTotal) with (@None string).
  change (CutPrefix (String.append prefixSha1 x) prefixOffset) with (@None string).
  change (CutPrefix (String.append prefixSha1 x) prefixLength) with (@None string).
  cbn [default from_option id negb String.eqb]. rewrite Hl in Hlen.
  destruct (String.eqb_spec x "") as [E|]; cbn [negb]; [by rewrite E in Hlen|].
  rewrite Hlen. cbn. by rewrite Hd.
Qed.

(** Written text is made of printable characters. *)
Definition plain (s : string) : bool := forallb (fun a => (32 <=? nat_of_ascii a)%nat) (list_ascii_of_string s).

Lemma plain_app s t : plain (String.append s t) = plain s && plain t.
Proof. unfold plain. rewrite list_ascii_app. apply forallb_app. Qed.

Lemma plain_digits ds : Forall (fun d => 0 <= d < 16) ds -> plain (string_of_digits ds) = true.
Proof.
  unfold plain, string_of_digits. rewrite list_ascii_of_string_of_list_ascii.
  induction 1 as [|d ds Hd _ IH]; [done|]. cbn [map forallb]. rewrite IH, andb_true_r.
  by apply (digits_forall (fun d => (32 <=? nat_of_ascii (digit_char d))%nat)).
Qed.

Lemma plain_dec v : 0 <= v -> plain (show_dec v) = true.
Proof.
  intros. unfold show_dec. destruct (Z.ltb_spec v 0); [lia|]. apply plain_digits.
  destruct (digits_spec 10 v) as [_ Hf]; [lia|lia|]. eapply Forall_impl; [exact Hf|]. cbn. lia.
Qed.

Lemma plain_hex w v : 0 <= v -> plain (pad_zero w (show_hex v)) = true.
Proof.
  intros. unfold show_hex. rewrite pad_zero_digits. apply plain_digits, Forall_app. split.
  - apply Forall_forall. intros x Hx%list_elem_of_In%repeat_spec. lia.
  - destruct (digits_spec 16 v) as [_ Hf]; [lia|lia|done].
Qed.

Lemma plain_encode bs : Forall is_byte bs -> plain (EncodeToString bs) = true.
Proof.
  induction 1 as [|b bs Hb _ IH]; [done|]. destruct (byte_nibbles b Hb) as [H1 H2].
  unfold plain in *. cbn [EncodeToString list_ascii_of_string forallb]. rewrite IH, andb_true_r.
  apply andb_true_iff. split; by apply (digits_forall (fun d => (32 <=? nat_of_ascii (digit_char d))%nat)).
Qed.

Lemma plain_free n s : (n < 32)%nat -> plain s = true -> free_of (ascii_of_nat n) s = true.
Proof.
  intros Hn. unfold plain, free_of. rewrite !forallb_forall. intros H x Hx. specialize (H x Hx).
  apply negb_true_iff, Ascii.eqb_neq. intros ->. rewrite nat_ascii_embedding in H by lia.
  apply Nat.leb_le in H. lia.
Qed.

(** A written line, with what it says. *)
Definition good_line (l : string) (it : item) : Prop :=
  plain l = true /\ (String.length l <= 100)%nat /\ classify l = Some it.

Lemma good_lines_parse ls its :
  Forall2 good_line ls its ->
  forallb (free_of (ascii_of_nat 10)) ls = true
  /\ forallb fits ls = true /\ mapM (classify ∘ dropCR) ls = Some its.
Proof.
  induction 1 as [|l it ls its (Hp & Hl & Hc) _ (IH1 & IH2 & IH3)]; [done|]. cbn [forallb mapM].
  assert (Hfit : fits l = true).
  { unfold fits. apply negb_true_iff, N.leb_gt. unfold MaxScanTokenSize. lia. }
  rewrite (plain_free 10), IH1, Hfit, IH2 by (done || lia). cbn [andb].
  change ((classify ∘ dropCR) l) with (classify (dropCR l)).
  rewrite dropCR_id, Hc by (by apply plain_free; [lia|]). cbn. by rewrite IH3.
Qed.

Definition extent_items (e : Extent) : list item := [IOffset (Offset e); ILength (Length e)].

Definition torrent_items (ti : TorrentInfo) : list item :=
  [IBlockSize (BlockSize ti); IBlocksTotal (BlocksTotal ti)]
  ++ List.concat (map extent_items (Extents ti)) ++ map ISha1 (PieceHashes ti).

Lemma show_dec_length v : 0 <= v < 2 ^ 64 -> (String.length (show_dec v) <= 20)%nat.
Proof.
  intros Hv. unfold show_dec. destruct (Z.ltb_spec v 0); [lia|]. unfold string_of_digits.
  rewrite string_length_list, list_ascii_of_string_of_list_ascii, length_map.
  unfold digits. etransitivity; [eapply (digits_aux_length _ _ _ _ 20); cbn; lia|]. cbn. lia.
Qed.

Lemma hex_field_length v : 0 <= v < 2 ^ 64 -> String.length (pad_zero hexFieldWidth (show_hex v)) = hexFieldWidth.
Proof. intros. apply pad_zero_length, show_hex_length; unfold hexFieldWidth; [lia|]. change (Z.of_nat 32) with 32. lia. Qed.

Lemma short_line p s : (String.length p <= 20)%nat -> (String.length s <= 40)%nat ->
  (String.length (String.append p s) <= 100)%nat.
Proof. rewrite string_length_app. lia. Qed.

Lemma good_prefixed p s it :
  (String.length p <= 20)%nat -> plain p = true -> (String.length s <= 40)%nat -> plain s = true ->
  classify (String.append p s) = Some it -> good_line (String.append p s) it.
Proof. intros. split_and!; [rewrite plain_app; by apply andb_true_iff|by apply short_line|done]. Qed.

Lemma good_hex p v it :
  (String.length p <= 20)%nat -> plain p = true -> 0 <= v < 2 ^ 64 ->
  classify (String.append p (pad_zero hexFieldWidth (show_hex v))) = Some it ->
  good_line (String.append p (pad_zero hexFieldWidth (show_hex v))) it.
Proof.
  intros. apply good_prefixed; [done|done| |apply plain_hex; lia|done].
  rewrite hex_field_length by done. unfold hexFieldWidth. lia.
Qed.

Lemma good_dec p v it :
  (String.length p <= 20)%nat -> plain p = true -> 0 <= v < 2 ^ 64 ->
  classify (String.append p (show_dec v)) = Some it -> good_line (String.append p (show_dec v)) it.
Proof.
  intros. apply good_prefixed; [done|done| |apply plain_dec; lia|done].
  pose proof (show_dec_length v). lia.
Qed.

Lemma torrent_lines_good ti :
  torrent_info_ok ti -> Forall2 good_line (torrent_lines ti) (torrent_items ti).
Proof.
  intros (H1 & H2 & H3 & H4). unfold torrent_lines, torrent_items. cbn [app].
  apply Forall2_cons; split; [|apply Forall2_cons; split; [|apply Forall2_app]].
  - apply good_dec; [vm_compute; lia|done|lia|]. by apply classify_block_size.
  - apply good_dec; [vm_compute; lia|done|lia|]. by apply classify_blocks_total.
  - induction H3 as [|e es [Ho Hl] _ IH]; cbn [map List.concat]; [constructor|].
    apply Forall2_cons; split; [|apply Forall2_cons; split; [|done]].
    + apply good_hex; [vm_compute; lia|done|done|]. by apply classify_offset.
    + apply good_hex; [vm_compute; lia|done|done|]. by apply classify_length.
  - induction H4 as [|h hs Hh _ IH]; cbn [map]; constructor; [|done].
    destruct (Hh) as [Hb Hl]. apply good_prefixed; [vm_compute; lia|done| |by apply plain_encode|by apply classify_sha1].
    rewrite EncodeToString_length, Hl. unfold SHA1Size. lia.
Qed.

(** Streams of the grouped layout. *)
Lemma extent_items_streams es (l := List.concat (map extent_items es)) :
  block_sizes l = [] /\ blocks_totals l = [] /\ offs_lens l = paired es /\ sha1s l = [].
Proof.
  unfold l. clear l. induction es as [|e es (IH1 & IH2 & IH3 & IH4)]; [done|].
  split_and!; [exact IH1|exact IH2| |exact IH4].
  exact (f_equal (fun x => inl (Offset e) :: inr (Length e) :: x) IH3).
Qed.

Lemma sha1_items_streams hs (l := map ISha1 hs) :
  block_sizes l = [] /\ blocks_totals l = [] /\ offs_lens l = [] /\ sha1s l = hs.
Proof.
  unfold l. clear l. induction hs as [|h hs (IH1 & IH2 & IH3 & IH4)]; [done|].
  split_and!; [exact IH1|exact IH2|exact IH3|]. exact (f_equal (cons h) IH4).
Qed.

Lemma torrent_items_streams ti :
  block_sizes (torrent_items ti) = [BlockSize ti] /\ blocks_totals (torrent_items ti) = [BlocksTotal ti]
  /\ offs_lens (torrent_items ti) = paired (Extents ti) /\ sha1s (torrent_items ti) = PieceHashes ti.
Proof.
  destruct (extent_items_streams (Extents ti)) as (E1 & E2 & E3 & E4).
  destruct (sha1_items_streams (PieceHashes ti)) as (S1 & S2 & S3 & S4).
  unfold torrent_items, block_sizes, blocks_totals, offs_lens, sha1s in *. rewrite !omap_app.
  rewrite E1, E2, E3, E4, S1, S2, S3, S4. split_and!; cbn; rewrite ?app_nil_r; done.
Qed.

Lemma ParseTorrentInfo_Write_iff ti : torrent_info_ok ti -> ParseTorrentInfo (WriteTorrentInfo ti) = inl ti.
Proof.
  intros Hok. apply ParseTorrentInfo_iff. unfold streams_of, WriteTorrentInfo.
  destruct (good_lines_parse _ _ (torrent_lines_good ti Hok)) as (Hf & Hfit & Hm).
  rewrite raw_lines_concat by done. split; [done|]. exists (torrent_items ti). split; [done|].
  apply torrent_items_streams.
Qed.

(** C30. Writing and parsing torrent.info are inverse: every value of the Go type
    is read back from the text written for it, and every file the parser accepts
    is, rewritten in the grouped layout, read as the same value. *)
Theorem torrent_info_roundtrip :
  (forall ti, torrent_info_ok ti -> ParseTorrentInfo (WriteTorrentInfo ti) = inl ti) /\
  (forall data ti, ParseTorrentInfo data = inl ti -> ParseTorrentInfo (WriteTorrentInfo ti) = inl ti).
Proof. split; eauto using ParseTorrentInfo_Write_iff, ParseTorrentInfo_in_range. Qed.

(** ** Names round trip *)

Lemma InfoHash_String_encode h : Forall is_byte h -> InfoHash_String h = EncodeToString h.
Proof.
  unfold InfoHash_String. induction 1 as [|b h Hb _ IH]; [done|]. cbn [map List.concat app].
  cbn [string_of_list_ascii EncodeToString]. rewrite IH.
  replace (Z.shiftr b 4) with (b / 16) by (rewrite Z.shiftr_div_pow2 by lia; done).
  replace (Z.land b 15) with (b mod 16); [done|].
  change 15 with (Z.ones 4). by rewrite Z.land_ones by lia.
Qed.

(** Extent file names and info hashes are printed so that they parse back to
    the same 64-bit offset and the same twenty bytes, and PVC and content names
    stay within the Kubernetes limit when the content name does. *)
Theorem store_names_roundtrip :
  (forall o, 0 <= o < 2 ^ 64 -> ParseExtentFileName (ExtentFileName o) = inl o) /\
  (forall h, hash_ok h -> ParseInfoHash (InfoHash_String h) = inl h) /\
  (forall n, (String.length n <= MaxContentNameLength)%nat -> (String.length (PVCName n) <= k8sObjectNameMaxLength)%nat).
Proof.
  split_and!.
  - intros o Ho. unfold ParseExtentFileName, ExtentFileName.
    rewrite hex_field_length, Nat.eqb_refl by done. cbn [negb]. by rewrite ParseUint_hex.
  - intros h [Hb Hl]. unfold ParseInfoHash.
    rewrite InfoHash_String_encode, EncodeToString_length, Hl by done. cbn [negb Nat.eqb].
    by rewrite DecodeString_Encode.
  - intros n Hn. unfold PVCName. rewrite string_length_app. unfold MaxContentNameLength in Hn.
    cbv [k8sObjectNameMaxLength pvcContentSuffix String.length] in *. lia.
Qed.

(** ** The info dict is a content address *)

Lemma int64_inj a b : 0 <= a < 2 ^ 64 -> 0 <= b < 2 ^ 64 -> int64 a = int64 b -> a = b.
Proof.
  unfold int64, wrap. intros Ha Hb E. change (64 - 1) with 63 in E.
  pose proof (Z.div_mod (a + 2 ^ 63) (2 ^ 64) ltac:(lia)). pose proof (Z.div_mod (b + 2 ^ 63) (2 ^ 64) ltac:(lia)).
  assert ((a + 2 ^ 63) mod 2 ^ 64 = (b + 2 ^ 63) mod 2 ^ 64) by lia. 
  assert (Hq : forall x, 0 <= x < 2 ^ 64 -> (x + 2 ^ 63) / 2 ^ 64 = 0 \/ (x + 2 ^ 63) / 2 ^ 64 = 1).
  { intros x Hx. assert ((x + 2 ^ 63) / 2 ^ 64 < 2) by (apply Z.div_lt_upper_bound; lia).
    assert (0 <= (x + 2 ^ 63) / 2 ^ 64) by (apply Z.div_pos; lia). lia. }
  destruct (Hq a Ha), (Hq b Hb); lia.
Qed.

Lemma ExtentFileName_length o : 0 <= o < 2 ^ 64 -> String.length (ExtentFileName o) = hexFieldWidth.
Proof. apply hex_field_length. Qed.

Definition files_string (es : list Extent) : string :=
  String.concat "" (map (fun e => bencodeExtentFile (ExtentFileName (Offset e)) (Length e)) es).

Lemma files_cons e es r : extent_ok e ->
  String.append (files_string (e :: es)) r =
  String.append "d6:lengthi" (String.append (show_dec (int64 (Length e))) (String "e"
    (String.append "4:pathl32:" (String.append (ExtentFileName (Offset e)) (String.append "ee"
      (String.append (files_string es) r)))))).
Proof.
  intros [Ho Hl]. unfold files_string. cbn [map]. rewrite concat_empty_cons. unfold bencodeExtentFile.
  rewrite !concat_empty_cons. cbn [String.concat]. unfold bencodeString at 3, ExtentFileName at 1.
  rewrite hex_field_length by done. unfold bencodeInt.
  rewrite !string_app_assoc, ?append_empty. done.
Qed.

Lemma files_inj es es' r r' :
  Forall extent_ok es -> Forall extent_ok es' ->
  String.append (files_string es) (String "e" r) = String.append (files_string es') (String "e" r') ->
  es = es' /\ r = r'.
Proof.
  intros He. revert es'. induction He as [|e es Hok He IH]; intros [|e' es'] He' E.
  - split; [done|]. by injection E.
  - apply Forall_cons in He' as [Hok' He']. rewrite files_cons in E by done. done.
  - rewrite files_cons in E by done. done.
  - apply Forall_cons in He' as [Hok' He']. rewrite !files_cons in E by done.
    apply string_app_inj_length in E as [_ E]; [|done].
    apply delimited_inj in E as [Elen E]; [|by apply show_dec_free..].
    apply string_app_inj_length in E as [_ E]; [|done].
    destruct Hok as [Ho Hl], Hok' as [Ho' Hl'].
    apply string_app_inj_length in E as [Eoff E]; [|by rewrite !ExtentFileName_length].
    apply string_app_inj_length in E as [_ E]; [|done].
    destruct (IH es' He' E) as [-> ->]. split; [|done]. f_equal.
    apply show_dec_inj, int64_inj in Elen; [|done..].
    apply (f_equal (fun s => ParseUint s 16 64)) in Eoff. unfold ExtentFileName in Eoff.
    rewrite !ParseUint_hex in Eoff by done. destruct e, e'; cbn in *. congruence.
Qed.

Lemma bytes_string_inj bs bs' : Forall is_byte bs -> Forall is_byte bs' -> bytes_string bs = bytes_string bs' -> bs = bs'.
Proof.
  unfold bytes_string. intros Hb Hb' E%(f_equal list_ascii_of_string).
  rewrite !list_ascii_of_string_of_list_ascii in E. revert bs' Hb' E.
  induction Hb as [|b bs Hx _ IH]; intros [|b' bs'] Hb' E; try done. apply Forall_cons in Hb' as [Hx' Hb'].
  cbn in E. injection E as E1 E2. f_equal; [|by apply IH].
  apply (f_equal nat_of_ascii) in E1. unfold is_byte in *. rewrite !nat_ascii_embedding in E1 by lia. lia.
Qed.

Lemma concat_hashes_inj hs hs' : Forall hash_ok hs -> Forall hash_ok hs' ->
  List.concat hs = List.concat hs' -> hs = hs'.
Proof.
  intros H. revert hs'. induction H as [|h hs [Hb Hl] _ IH]; intros [|h' hs'] H' E; try done.
  - apply Forall_cons in H' as [[_ Hl'] _]. cbn in E. by destruct h'.
  - cbn in E. by destruct h.
  - apply Forall_cons in H' as [[_ Hl'] H']. cbn in E. apply app_inj_1 in E as [-> E]; [|congruence].
    f_equal. by apply IH.
Qed.

Lemma hashes_bytes hs : Forall hash_ok hs -> Forall is_byte (List.concat hs).
Proof. induction 1 as [|h hs [Hb _] _ IH]; cbn; [done|]. by apply Forall_app. Qed.

Abbreviation by_offset := (fun a b => Offset a <? Offset b).

(** The info dict in one piece. *)
Lemma BuildInfoDict_text ti d : BuildInfoDict ti = inl d ->
  let pieces := bytes_string (List.concat (PieceHashes ti)) in
  d = String.append "d5:filesl" (String.append (files_string (sort_by by_offset (Extents ti))) (String "e"
        (String.append "4:name7:content12:piece lengthi16777216e6:pieces"
          (String.append (show_dec (Z.of_nat (String.length pieces))) (String ":" (String.append pieces "e")))))).
Proof.
  unfold BuildInfoDict. destruct (Extents ti) eqn:Ee; [done|]. destruct (PieceHashes ti) eqn:Ep; [done|].
  intros E. apply (f_equal (fun r => match r with inl s => s | inr _ => d end)) in E. rewrite <- E. clear E.
  cbv zeta. rewrite !concat_empty_cons. cbn [String.concat]. unfold bencodeString at 6.
  rewrite !string_app_assoc. done.
Qed.

Lemma offsets_ordered es : NoDup (Offset <$> es) -> orders by_offset es.
Proof.
  intros Hnd. split_and!; intros; try lia.
  assert (Offset x <> Offset y); [|lia]. intros E.
  apply list_elem_of_lookup in H as [i Hi], H0 as [j Hj].
  assert (i = j); [|congruence]. apply (NoDup_lookup _ i j (Offset x) Hnd).
  - by rewrite list_lookup_fmap, Hi.
  - by rewrite list_lookup_fmap, Hj, E.
Qed.

Lemma sort_offsets_perm es es' :
  NoDup (Offset <$> es) -> es ≡ₚ es' -> sort_by by_offset es = sort_by by_offset es'.
Proof.
  intros Hnd Hp. assert (Hnd' : NoDup (Offset <$> es')) by (by rewrite <- Hp).
  apply (StronglySorted_unique_strong (fun a b => by_offset a b = true)).
  - intros. lia.
  - apply sort_by_sorted; [by apply offsets_ordered|by eapply NoDup_fmap_1].
  - apply sort_by_sorted; [by apply offsets_ordered|by eapply NoDup_fmap_1].
  - by rewrite !sort_by_perm.
Qed.

(** C28. The info dict is a content address: for contents with distinct extent
    offsets, two dicts are the same bytes exactly when the extents are the same
    up to their order and the piece hashes are the same sequence; the digest of
    the dict is the info hash, and a .torrent file carries that dict unchanged
    whatever the tracker. *)
Theorem info_dict_is_content_address sha1 ti ti' d d' tracker
    (Hok : torrent_info_ok ti) (Hok' : torrent_info_ok ti')
    (Hnd : NoDup (Offset <$> Extents ti))
    (Hd : BuildInfoDict ti = inl d) (Hd' : BuildInfoDict ti' = inl d') (Ht : tracker <> "") :
  (d = d' <-> Extents ti ≡ₚ Extents ti' /\ PieceHashes ti = PieceHashes ti')
  /\ ComputeInfoHash sha1 ti = inl (sha1 d)
  /\ exists pre, BuildTorrentFile ti tracker = inl (String.append pre (String.append d "e")).
Proof.
  split_and!.
  - pose proof (BuildInfoDict_text _ _ Hd) as E. pose proof (BuildInfoDict_text _ _ Hd') as E'. cbv zeta in E, E'.
    destruct Hok as (_ & _ & He & Hp), Hok' as (_ & _ & He' & Hp'). split.
    + intros <-. rewrite E' in E. apply string_app_inj_length in E as [_ E]; [|done].
      apply files_inj in E as [Es E]; [|by rewrite sort_by_perm..].
      apply string_app_inj_length in E as [_ E]; [|done].
      apply delimited_inj in E as [_ E]; [|by apply show_dec_free..].
      apply string_app_inj_r, bytes_string_inj, concat_hashes_inj in E; [|auto using hashes_bytes..].
      split; [|done]. by rewrite <- (sort_by_perm by_offset (Extents ti)), <- Es, sort_by_perm.
    + intros [Hperm Hpieces]. by rewrite E, E', Hpieces, (sort_offsets_perm _ _ Hnd Hperm).
  - unfold ComputeInfoHash. by rewrite Hd.
  - unfold BuildTorrentFile. rewrite (proj2 (String.eqb_neq tracker "") Ht), Hd.
    exists (String.concat "" ["d"; bencodeString "announce"; bencodeString tracker; bencodeString "info"]).
    f_equal. rewrite !concat_empty_cons. cbn [String.concat]. rewrite !string_app_assoc, ?append_empty. done.
Qed.

(** *** The content directory *)

(** The directory holds torrent.info and the data directory and nothing else;
    the data directory exactly the extent files with their sizes. *)
Definition top_ok (entries : list DirEntry) : Prop :=
  (forall e, e ∈ entries -> (de_Name e = TorrentInfoFileName /\ de_IsDir e = false) \/ (de_Name e = contentName /\ de_IsDir e = true))
  /\ (exists e, e ∈ entries /\ de_Name e = TorrentInfoFileName) /\ (exists e, e ∈ entries /\ de_Name e = contentName).

Definition data_ok (entries : list DirEntry) (extents : list Extent) : Prop :=
  (forall x, x ∈ extents -> exists e, e ∈ entries /\ de_Name e = ExtentFileName (Offset x) /\ de_IsDir e = false
     /\ de_Size e = inl (Length x))
  /\ (forall e, e ∈ entries -> exists x, x ∈ extents /\ de_Name e = ExtentFileName (Offset x)).

Lemma check_top_spec dir entries i c :
  match check_top dir entries i c with
  | inl (i', c') =>
    (forall e, e ∈ entries -> (de_Name e = TorrentInfoFileName /\ de_IsDir e = false) \/ (de_Name e = contentName /\ de_IsDir e = true))
    /\ i' = i || existsb (fun e => de_Name e =s TorrentInfoFileName) entries
    /\ c' = c || existsb (fun e => de_Name e =s contentName) entries
  | inr _ => exists e, e ∈ entries /\ ~ ((de_Name e = TorrentInfoFileName /\ de_IsDir e = false) \/ (de_Name e = contentName /\ de_IsDir e = true))
  end.
Proof.
  revert i c. induction entries as [|e entries IH]; intros i c; cbn [check_top existsb].
  { split_and!; [intros e He; inversion He|by rewrite orb_false_r..]. }
  destruct (String.eqb_spec (de_Name e) TorrentInfoFileName) as [E1|N1].
  - assert (E2 : (de_Name e =s contentName) = false) by (rewrite E1; done). rewrite E2.
    destruct (de_IsDir e) eqn:Ed.
    { exists e. split; [left|]. intros [[]|[? _]]; [congruence|]. by rewrite E1 in *. }
    specialize (IH true c). destruct (check_top dir entries true c) as [[i' c']|].
    + destruct IH as (H1 & -> & ->). split_and!; [|by rewrite orb_true_r|done].
      intros x [->|Hx]%elem_of_cons; auto.
    + destruct IH as (x & Hx & Hn). exists x. split; [by right|done].
  - destruct (String.eqb_spec (de_Name e) contentName) as [E2|N2].
    + destruct (de_IsDir e) eqn:Ed; cbn [negb].
      * specialize (IH i true). destruct (check_top dir entries i true) as [[i' c']|].
        -- destruct IH as (H1 & -> & ->). split_and!; [|done|by rewrite orb_true_r].
           intros x [->|Hx]%elem_of_cons; auto.
        -- destruct IH as (x & Hx & Hn). exists x. split; [by right|done].
      * exists e. split; [left|]. intros [[]|[]]; congruence.
    + exists e. split; [left|]. naive_solver.
Qed.

Lemma check_extents_spec dataDir present extents :
  check_extents dataDir present extents = None <->
  forall x, x ∈ extents -> exists e, present !! ExtentFileName (Offset x) = Some e /\ de_IsDir e = false
    /\ de_Size e = inl (Length x).
Proof.
  induction extents as [|x xs IH]; cbn [check_extents].
  { split; [|done]. intros _ x Hx. inversion Hx. }
  destruct (present !! ExtentFileName (Offset x)) as [e|] eqn:Ee.
  - destruct (de_IsDir e) eqn:Ed.
    { split; [done|]. intros H. destruct (H x) as (e' & ? & ? & ?); [left|]. congruence. }
    destruct (de_Size e) as [size|] eqn:Es.
    + destruct (Z.eqb_spec size (Length x)) as [->|Hne]; cbn [negb].
      * rewrite IH. split; [|intros H y Hy; apply H; by right].
        intros H y [->|Hy]%elem_of_cons; [eauto|auto].
      * split; [done|]. intros H. destruct (H x) as (e' & ? & ? & ?); [left|]. congruence.
    + split; [done|]. intros H. destruct (H x) as (e' & ? & ? & ?); [left|]. congruence.
  - split; [done|]. intros H. destruct (H x) as (e' & ? & ? & ?); [left|]. congruence.
Qed.

(** The names of a directory are distinct, as every file system keeps them. *)
Lemma present_lookup entries (m : gmap string DirEntry) n e :
  NoDup (de_Name <$> entries) ->
  fold_left (fun m e => <[de_Name e := e]> m) entries m !! n = Some e <->
  (e ∈ entries /\ de_Name e = n) \/ (n ∉ de_Name <$> entries) /\ m !! n = Some e.
Proof.
  revert m. induction entries as [|x entries IH]; intros m; cbn [fold_left fmap list_fmap].
  { intros _. set_solver. }
  intros [Hx Hnd]%NoDup_cons. rewrite IH by done. destruct (decide (de_Name x = n)) as [<-|Hne].
  - rewrite lookup_insert_eq. split.
    + intros [[He En]|[_ [= ->]]]; [|left; split; [left|done]].
      exfalso. apply Hx. apply list_elem_of_fmap. eauto.
    + intros [[He En]|[Hn _]]; [|exfalso; apply Hn; left].
      apply elem_of_cons in He as [->|He]; [right; done|]. exfalso. apply Hx. apply list_elem_of_fmap. eauto.
  - rewrite lookup_insert_ne by done. rewrite !elem_of_cons. split; [naive_solver|].
    intros [[[->|He] En]|[Hn Hm]]; naive_solver.
Qed.

Lemma check_unexpected_spec dataDir present expected :
  check_unexpected dataDir present expected = None <->
  forall n e, present !! n = Some e -> n ∈ expected.
Proof.
  unfold check_unexpected.
  pose proof (find_first_None (fun '(name, _) => negb (bool_decide (name ∈ expected))) (map_to_list present)) as Hn.
  destruct (find_first _ _) as [[n e]|] eqn:E.
  - split; [destruct (de_IsDir e); done|]. intros H. apply find_first_Some in E as [Hin Hf].
    apply elem_of_map_to_list, H in Hin. by rewrite bool_decide_eq_true_2 in Hf.
  - split; [|done]. intros _ n e Hne. apply elem_of_map_to_list in Hne.
    pose proof (proj1 Hn eq_refl _ Hne) as Hf. cbn in Hf.
    by apply negb_false_iff, bool_decide_eq_true in Hf.
Qed.

Lemma existsb_name (n : string) entries :
  existsb (fun e => de_Name e =s n) entries = true <-> exists e, e ∈ entries /\ de_Name e = n.
Proof.
  rewrite existsb_exists. setoid_rewrite <- list_elem_of_In. by setoid_rewrite String.eqb_eq.
Qed.

(** What the two directory listings of a run said. *)
Definition listed (dir : string) (tr : trace fs_resp) (top data : list DirEntry) : Prop :=
  tr = [ev (R := fs_resp) (FReadDir dir) (inl top); ev (R := fs_resp) (FReadDir (ContentDataDir dir)) (inl data)].

Definition listing_of (x : event fs_resp) : option (list DirEntry) :=
  match x with existT (FReadDir _) (inl l) => Some l | _ => None end.

Lemma listed_answers dir tr top data :
  listed dir tr top data -> map listing_of tr = [Some top; Some data].
Proof. by intros ->. Qed.

(** The verdict on the data directory. *)
Definition data_verdict (dir : string) (ti : TorrentInfo) (data : list DirEntry) : option GoErr :=
  let present : gmap string DirEntry := fold_left (fun m e => <[de_Name e := e]> m) data ∅ in
  match check_extents (ContentDataDir dir) present (Extents ti) with
  | Some err => Some err
  | None => check_unexpected (ContentDataDir dir) present
              (list_to_set (map (fun e => ExtentFileName (Offset e)) (Extents ti)))
  end.

Lemma data_verdict_spec dir ti data :
  NoDup (de_Name <$> data) -> data_verdict dir ti data = None <-> data_ok data (Extents ti).
Proof.
  intros Hnd. unfold data_verdict. cbv zeta. set (present := fold_left _ data ∅).
  assert (Hp : forall n e, present !! n = Some e <-> e ∈ data /\ de_Name e = n).
  { intros n e. unfold present. rewrite present_lookup, lookup_empty by done. naive_solver. }
  pose proof (check_extents_spec (ContentDataDir dir) present (Extents ti)) as Hx.
  pose proof (check_unexpected_spec (ContentDataDir dir) present
    (list_to_set (map (fun e => ExtentFileName (Offset e)) (Extents ti)))) as Hu.
  setoid_rewrite Hp in Hx. setoid_rewrite Hp in Hu. unfold data_ok.
  assert (Hset : forall n, n ∈@{gset string} list_to_set (map (fun e => ExtentFileName (Offset e)) (Extents ti))
     <-> exists x, x ∈ Extents ti /\ n = ExtentFileName (Offset x)).
  { intros n. rewrite elem_of_list_to_set, list_elem_of_In, in_map_iff. setoid_rewrite list_elem_of_In. naive_solver. }
  setoid_rewrite Hset in Hu. destruct (check_extents _ _ _); naive_solver.
Qed.

Lemma ValidateContentDir_runs dir ti tr err :
  runs (ValidateContentDir dir ti) tr err ->
  (exists top data, listed dir tr top data /\ top_ok top /\ err = data_verdict dir ti data) \/
  (err <> None /\ forall top data, listed dir tr top data -> ~ top_ok top).
Proof.
  assert (Hbad : forall l (e : GoErr) (P : list DirEntry -> Prop) t', (forall top data, l = [Some top; Some data] -> P top) ->
    map listing_of t' = l -> Some e <> None /\ forall top data, listed dir t' top data -> P top).
  { intros l e P t' HP <-. split; [done|]. intros top data Hl%listed_answers. eauto. }
  unfold ValidateContentDir. intros (r & tr1 & -> & Hrun). cbn [bind] in Hrun.
  destruct r as [entries|e]; [|destruct Hrun as [-> ->]; right; eapply Hbad; [|reflexivity]; done].
  pose proof (check_top_spec dir entries false false) as Ht. unfold top_ok.
  destruct (check_top dir entries false false) as [[i c]|e].
  2:{ destruct Hrun as [-> ->]. right. eapply Hbad; [|reflexivity]; done. }
  destruct Ht as (Hall & Hi & Hc). cbn [orb] in Hi, Hc. symmetry in Hi, Hc.
  destruct i; [|destruct Hrun as [-> ->]; right; eapply Hbad; [|reflexivity]; done].
  destruct c; [|destruct Hrun as [-> ->]; right; eapply Hbad; [|reflexivity]; done].
  rewrite existsb_name in Hi, Hc. destruct Hrun as (r & tr2 & -> & Hrun). cbn [bind] in Hrun.
  destruct r as [data|e]; [|destruct Hrun as [-> ->]; right; eapply Hbad; [|reflexivity]; done].
  left. exists entries, data. unfold data_verdict. cbv zeta.
  destruct (check_extents _ _ _); destruct Hrun as [-> ->]; done.
Qed.

(** C40. Content validation accepts a directory exactly when two listings were
    answered, the first shows the file torrent.info and the data directory and
    nothing else, and in the second every extent has an entry that is no
    directory, named by its offset and of exactly its length, and every entry is
    named by the offset of an extent: a missing, extra, misnamed or truncated
    file is an error, and so is a listing or a stat that fails.  The names in
    the listing of the data directory are taken to be distinct. *)
Theorem ValidateContentDir_spec dir ti tr err
    (Hdirs : forall top data, listed dir tr top data -> NoDup (de_Name <$> data))
    (Hrun : runs (ValidateContentDir dir ti) tr err) :
  err = None <-> exists top data, listed dir tr top data /\ top_ok top /\ data_ok data (Extents ti).
Proof.
  destruct (ValidateContentDir_runs _ _ _ _ Hrun) as [(top & data & Hl & Ht & ->)|[He Hn]].
  - rewrite data_verdict_spec by eauto. split; [eauto 6|]. intros (top' & data' & Hl' & _ & Hd).
    apply listed_answers in Hl, Hl'. rewrite Hl in Hl'. by simplify_eq.
  - split; [done|]. intros (top & data & Hl & Ht & _). by destruct (Hn _ _ Hl).
Qed.

(** *** Concrete contents *)

Module Example.
Definition hash : PieceHash := repeat 171 20.
Definition ti : TorrentInfo := mkTorrentInfo 4096 100 [mkExtent 0 8192; mkExtent 16384 4096] [hash].
Definition swapped : TorrentInfo := mkTorrentInfo 4096 100 [mkExtent 16384 4096; mkExtent 0 8192] [hash].
Definition dict : string := match BuildInfoDict ti with inl d => d | inr _ => "" end.
Definition top : list DirEntry := [mkEntry "content" true (inl 0); mkEntry "torrent.info" false (inl 120)].
Definition data : list DirEntry :=
  [mkEntry (ExtentFileName 0) false (inl 8192); mkEntry (ExtentFileName 16384) false (inl 4096)].
Definition handler (e : fs) (s : unit) : option (fs_resp e * unit) :=
  match e with
  | FReadDir d => Some (inl (if d =s "/pvc" then top else data), s)
  | FMkdirAll _ => Some (None, s)
  | FRename _ _ => Some (None, s)
  | FReadFile _ => Some (inl (WriteTorrentInfo ti), s)
  end.
End Example.

Lemma example_ok ti' : ti' = Example.ti \/ ti' = Example.swapped -> torrent_info_ok ti'.
Proof.
  unfold torrent_info_ok, extent_ok, hash_ok, is_byte, SHA1Size.
  intros [-> | ->]; cbn; split_and!; try lia; repeat constructor; cbn; lia.
Qed.

Lemma info_dict_is_content_address_witness :
  ComputeInfoHash (fun _ => Example.hash) Example.ti = inl Example.hash.
Proof.
  refine (proj1 (proj2 (info_dict_is_content_address (fun _ => Example.hash) Example.ti Example.swapped
    Example.dict Example.dict "http://tracker" (example_ok _ (or_introl eq_refl)) (example_ok _ (or_intror eq_refl))
    _ _ _ _))).
  - apply (bool_decide_unpack _). vm_compute. exact I.
  - reflexivity.
  - vm_compute. reflexivity.
  - discriminate.
Defined.

Lemma ValidateContentDir_spec_witness :
  exists tr, runs (ValidateContentDir "/pvc" Example.ti) tr None /\
    exists top data, listed "/pvc" tr top data /\ top_ok top /\ data_ok data (Extents Example.ti).
Proof.
  exists [ev (R := fs_resp) (FReadDir "/pvc") (inl Example.top); ev (R := fs_resp) (FReadDir (ContentDataDir "/pvc")) (inl Example.data)].
  assert (H : runs (ValidateContentDir "/pvc" Example.ti)
    [ev (R := fs_resp) (FReadDir "/pvc") (inl Example.top); ev (R := fs_resp) (FReadDir (ContentDataDir "/pvc")) (inl Example.data)] None).
  { eapply (exec_runs Example.handler _ tt _ tt). vm_compute. reflexivity. }
  split; [exact H|]. refine (proj1 (ValidateContentDir_spec _ _ _ _ _ H) eq_refl).
  intros top data Hl%listed_answers. cbn in Hl. injection Hl as <- <-.
  apply (bool_decide_unpack _). vm_compute. exact I.
Defined.
