(* ===== verification/DiskMatch.v ===== *)
(** * DiskMatch: target-disk hints against the hardware inventory

    [src/internal/diskmatch/diskmatch.go].  [satisfies] states what the hints
    ask of one disk; [Match_spec] shows that [Match], with its separate path
    for absent hints, returns a disk exactly when one position of the
    inventory satisfies them, and [CheckDistinct_spec] that no two selections
    share a physical disk when the check passes. *)

From S2P Require Import Prelude Api.
Local Open Scope string_scope.
Local Open Scope list_scope.
Local Open Scope nat_scope.

(** ** strings.TrimSpace

    The UTF-8 encodings of the runes [unicode.IsSpace] accepts. *)
Definition space_encodings : list (list nat) :=
  [[9]; [10]; [11]; [12]; [13]; [32]; [194; 133]; [194; 160]; [225; 154; 128];
   [226; 128; 128]; [226; 128; 129]; [226; 128; 130]; [226; 128; 131]; [226; 128; 132];
   [226; 128; 133]; [226; 128; 134]; [226; 128; 135]; [226; 128; 136]; [226; 128; 137];
   [226; 128; 138]; [226; 128; 168]; [226; 128; 169]; [226; 128; 175]; [226; 129; 159];
   [227; 128; 128]].

Fixpoint strip_prefix (p l : list nat) : option (list nat) :=
  match p, l with
  | [], _ => Some l
  | x :: p, y :: l => if Nat.eqb x y then strip_prefix p l else None
  | _ :: _, [] => None
  end.

Fixpoint strip_any (ps : list (list nat)) (l : list nat) : option (list nat) :=
  match ps with
  | [] => None
  | p :: ps => match strip_prefix p l with Some l' => Some l' | None => strip_any ps l end
  end.

Fixpoint trim_left (fuel : nat) (ps : list (list nat)) (l : list nat) : list nat :=
  match fuel with
  | O => l
  | S fuel => match strip_any ps l with Some l' => trim_left fuel ps l' | None => l end
  end.

Definition TrimSpace (s : string) : string :=
  let l := map nat_of_ascii (list_ascii_of_string s) in
  let l := trim_left (length l) space_encodings l in
  let l := rev (trim_left (length l) (map (@rev nat) space_encodings) (rev l)) in
  string_of_list_ascii (map ascii_of_nat l).

(** ** The code *)

Definition giB : Z := 2 ^ 30.

Definition maxListedDisks : nat := 5.

(** [ErrNoMatch] and [ErrAmbiguous]; an error is the sentinel it wraps and its text. *)
Inductive MatchErr := ErrNoMatch | ErrAmbiguous.

Definition sentinel_text (e : MatchErr) : string :=
  match e with
  | ErrNoMatch => "no disk matches the hints"
  | ErrAmbiguous => "multiple disks match the hints"
  end.

Definition match_error (e : MatchErr) (fmt : string) (args : list string) : MatchErr * string :=
  (e, sprintf fmt (sentinel_text e :: args)).

Definition hasAnyHint (h : option TargetDiskHints) : bool :=
  match h with
  | None => false
  | Some h =>
    (h_DeviceName h <>s "") || (h_SerialNumber h <>s "") || (h_WWN h <>s "") ||
    (h_Model h <>s "") || (h_Vendor h <>s "") ||
    bool_decide (h_MinSizeGigabytes h <> None) || bool_decide (h_MaxSizeGigabytes h <> None) ||
    bool_decide (h_Rotational h <> None) || (h_PciePath h <>s "") || (h_HCTL h <>s "") ||
    bool_decide (h_SlotNumber h <> None)
  end.

(** The guards are the code's early returns, in its order. *)
Definition hintsMatch (d : MachineHardwareDisk) (h : TargetDiskHints) : bool :=
  if (h_DeviceName h <>s "") && (d_DeviceName d <>s h_DeviceName h) then false else
  if (h_SerialNumber h <>s "") && (d_SerialNumber d <>s h_SerialNumber h) then false else
  if (h_WWN h <>s "") && (d_WWN d <>s h_WWN h) then false else
  if (h_Model h <>s "") && (TrimSpace (d_Model d) <>s TrimSpace (h_Model h)) then false else
  if (h_Vendor h <>s "") && (TrimSpace (d_Vendor d) <>s TrimSpace (h_Vendor h)) then false else
  if match h_MinSizeGigabytes h with
     | Some g => (d_SizeBytes d <? int64 (g * giB))%Z | None => false end then false else
  if match h_MaxSizeGigabytes h with
     | Some g => (int64 (g * giB) <? d_SizeBytes d)%Z | None => false end then false else
  if match h_Rotational h with
     | Some b => match d_Rotational d with None => true | Some b' => negb (Bool.eqb b' b) end
     | None => false end then false else
  if (h_PciePath h <>s "") && (d_PciePath d <>s h_PciePath h) then false else
  if (h_HCTL h <>s "") && (d_HCTL d <>s h_HCTL h) then false else
  if match h_SlotNumber h with
     | Some n => match d_SlotNumber d with None => true | Some n' => negb (n' =? n)%Z end
     | None => false end then false else
  true.

(** [strings.Join]. *)
Definition join (sep : string) (l : list string) : string := String.concat sep l.

(** The loop over [disks] from index [i]; [n] is [len(disks)]. *)
Fixpoint describe_from (i n : nat) (disks : list MachineHardwareDisk) : list string :=
  match disks with
  | [] => []
  | d :: disks =>
    if maxListedDisks <=? i
    then [sprintf "and %d more" [show_dec (Z.of_nat n - Z.of_nat maxListedDisks)]]
    else (if d_DeviceName d =s "" then "(unnamed device)" else d_DeviceName d)
         :: describe_from (S i) n disks
  end.

Definition describeDisks (disks : list MachineHardwareDisk) : string :=
  join ", " (describe_from 0 (length disks) disks).

Definition Match (disks : list MachineHardwareDisk) (hints : option TargetDiskHints)
  : MachineHardwareDisk + (MatchErr * string) :=
  if negb (hasAnyHint hints) then
    match disks with
    | [] => inr (match_error ErrNoMatch "%w: no disks reported" [])
    | [d] => inl d
    | _ => inr (match_error ErrAmbiguous "%w: %d disks present; a targetDisk hint is required: %s"
             [show_dec (Z.of_nat (length disks)); describeDisks disks])
    end
  else
    match List.filter (fun d => from_option (hintsMatch d) false hints) disks with
    | [] => inr (match_error ErrNoMatch "%w: no disk matches the hints" [])
    | [d] => inl d
    | matches =>
      inr (match_error ErrAmbiguous "%w: %d disks match the hints; refine them: %s"
        [show_dec (Z.of_nat (length matches)); describeDisks matches])
    end.

Record Selection := mkSelection { sel_Label : string; sel_Disk : option MachineHardwareDisk }.

Definition diskIdentity (d : MachineHardwareDisk) : string :=
  if d_SerialNumber d <>s "" then d_SerialNumber d else d_DeviceName d.

Definition describeIdentity (d : MachineHardwareDisk) : string :=
  if d_SerialNumber d <>s ""
  then sprintf "%s (serial %s)" [d_DeviceName d; d_SerialNumber d]
  else d_DeviceName d.

(** The loop of [CheckDistinct] with the map [firstLabel] built so far. *)
Fixpoint check_distinct_from (firstLabel : gmap string string) (selections : list Selection)
  : option (MatchErr * string) :=
  match selections with
  | [] => None
  | s :: rest =>
    match sel_Disk s with
    | None => check_distinct_from firstLabel rest
    | Some d =>
      let id := diskIdentity d in
      match firstLabel !! id with
      | Some prev =>
        Some (match_error ErrAmbiguous "%w: target disk conflict: %s and %s both resolve to disk %s"
          [prev; sel_Label s; describeIdentity d])
      | None => check_distinct_from (<[id := sel_Label s]> firstLabel) rest
      end
    end
  end.

Definition CheckDistinct (selections : list Selection) : option (MatchErr * string) :=
  check_distinct_from ∅ selections.


(** ** What the hints ask of one disk *)

Definition str_hint (h d : string) : Prop := h = "" \/ d = h.

Definition satisfies (hints : option TargetDiskHints) (d : MachineHardwareDisk) : Prop :=
  match hints with
  | None => True
  | Some h =>
    str_hint (h_DeviceName h) (d_DeviceName d) /\
    str_hint (h_SerialNumber h) (d_SerialNumber d) /\
    str_hint (h_WWN h) (d_WWN d) /\
    (h_Model h = "" \/ TrimSpace (d_Model d) = TrimSpace (h_Model h)) /\
    (h_Vendor h = "" \/ TrimSpace (d_Vendor d) = TrimSpace (h_Vendor h)) /\
    (forall g, h_MinSizeGigabytes h = Some g -> (g * 2 ^ 30 <= d_SizeBytes d)%Z) /\
    (forall g, h_MaxSizeGigabytes h = Some g -> (d_SizeBytes d <= g * 2 ^ 30)%Z) /\
    (forall b, h_Rotational h = Some b -> d_Rotational d = Some b) /\
    str_hint (h_PciePath h) (d_PciePath d) /\
    str_hint (h_HCTL h) (d_HCTL d) /\
    (forall n, h_SlotNumber h = Some n -> d_SlotNumber d = Some n)
  end.

(** The size hints for which the multiplication by [giB] stays in [int64]. *)
Definition gigabytes_ok (g : option Z) : Prop :=
  forall x, g = Some x -> (- 2 ^ 33 <= x < 2 ^ 33)%Z.
Definition hints_ok (hints : option TargetDiskHints) : Prop :=
  forall h, hints = Some h ->
    gigabytes_ok (h_MinSizeGigabytes h) /\ gigabytes_ok (h_MaxSizeGigabytes h).

(** ** Lemmas *)

Lemma int64_giB g : (- 2 ^ 33 <= g < 2 ^ 33)%Z -> int64 (g * giB) = (g * 2 ^ 30)%Z.
Proof. intros. apply int64_id. unfold giB. lia. Qed.

(** One early return of [hintsMatch]: the guard fails exactly when the
    disk meets that hint. *)
Lemma str_guard h d x (P : Prop) :
  (x = true <-> P) ->
  ((if (h <>s "") && (d <>s h) then false else x) = true <-> str_hint h d /\ P).
Proof.
  unfold str_hint. intros <-. destruct (String.eqb_spec h ""), (String.eqb_spec d h); cbn;
    naive_solver.
Qed.

Lemma trim_guard h d x (P : Prop) :
  (x = true <-> P) ->
  ((if (h <>s "") && (TrimSpace d <>s TrimSpace h) then false else x) = true <->
   (h = "" \/ TrimSpace d = TrimSpace h) /\ P).
Proof.
  intros <-. destruct (String.eqb_spec h ""), (String.eqb_spec (TrimSpace d) (TrimSpace h)); cbn;
    naive_solver.
Qed.

Lemma opt_guard {A} (o : option A) (f : A -> bool) (Q : A -> Prop) x (P : Prop) :
  (forall a, o = Some a -> (f a = false <-> Q a)) -> (x = true <-> P) ->
  ((if match o with Some a => f a | None => false end then false else x) = true <->
   (forall a, o = Some a -> Q a) /\ P).
Proof.
  intros Hf <-. destruct o as [a|]; [|naive_solver].
  specialize (Hf a eq_refl). destruct (f a); naive_solver.
Qed.

Lemma hintsMatch_spec d h :
  hints_ok (Some h) -> hintsMatch d h = true <-> satisfies (Some h) d.
Proof.
  intros Hok. destruct (Hok h eq_refl) as [Hmin Hmax]. unfold hintsMatch, satisfies.
  repeat first [apply str_guard | apply trim_guard | apply opt_guard].
  - intros g Hg. rewrite int64_giB by eauto. apply Z.ltb_ge.
  - intros g Hg. rewrite int64_giB by eauto. apply Z.ltb_ge.
  - intros b _. destruct (d_Rotational d) as [[]|], b; cbn; naive_solver.
  - rewrite <- (and_True (forall n, _)). apply opt_guard; [|done].
    intros n _. destruct (d_SlotNumber d); [|naive_solver].
    rewrite negb_false_iff, Z.eqb_eq. naive_solver.
Qed.

(** The two paths of [Match] are one: both select the disks that satisfy the
    hints, absent hints asking nothing. *)
Definition selected (disks : list MachineHardwareDisk) (hints : option TargetDiskHints) :=
  List.filter (fun d => negb (hasAnyHint hints) || from_option (hintsMatch d) false hints) disks.

Lemma filter_true {A} (l : list A) : List.filter (fun _ => true) l = l.
Proof. induction l as [|x l IH]; cbn; congruence. Qed.

(** The verdict on a list of candidates, error text aside. *)
Definition verdict {A} (l : list A) : A + MatchErr :=
  match l with [] => inr ErrNoMatch | [d] => inl d | _ => inr ErrAmbiguous end.

Definition drop_text {A} (r : A + (MatchErr * string)) : A + MatchErr :=
  match r with inl d => inl d | inr e => inr e.1 end.

Lemma Match_verdict disks hints : drop_text (Match disks hints) = verdict (selected disks hints).
Proof.
  unfold Match, selected. destruct (hasAnyHint hints); cbn [negb orb].
  - by destruct (List.filter _ disks) as [|d [|d' l]].
  - rewrite filter_true. by destruct disks as [|d [|d' l]].
Qed.

Lemma hasAnyHint_satisfies h d : hasAnyHint (Some h) = false -> satisfies (Some h) d.
Proof.
  cbn. intros H. repeat apply orb_false_iff in H as [H ?].
  repeat match goal with
  | H : negb _ = false |- _ => apply negb_false_iff, String.eqb_eq in H; rewrite H
  | H : bool_decide _ = false |- _ => apply bool_decide_eq_false, dec_stable in H; rewrite H
  end.
  unfold str_hint. naive_solver.
Qed.

Lemma selects_satisfies hints d :
  hints_ok hints ->
  negb (hasAnyHint hints) || from_option (hintsMatch d) false hints = true <-> satisfies hints d.
Proof.
  destruct hints as [h|]; [|done]. intros Hok.
  destruct (hasAnyHint (Some h)) eqn:E; cbn [negb orb from_option].
  - by apply hintsMatch_spec.
  - split; [|done]. intros _. by apply hasAnyHint_satisfies.
Qed.

(** Where the kept elements of a filtered list sit in it. *)
Lemma filter_nil {A} (f : A -> bool) l :
  List.filter f l = [] -> forall x, x ∈ l -> f x = false.
Proof.
  intros H x Hx. destruct (f x) eqn:E; [|done]. exfalso.
  assert (Hin : In x (List.filter f l)) by (apply filter_In; split; [by apply list_elem_of_In|done]).
  by rewrite H in Hin.
Qed.

Lemma filter_cons {A} (f : A -> bool) l x r :
  List.filter f l = x :: r ->
  exists l1 l2, l = l1 ++ x :: l2 /\ (forall y, y ∈ l1 -> f y = false) /\ f x = true
    /\ List.filter f l2 = r.
Proof.
  induction l as [|y l IH]; cbn; [done|]. destruct (f y) eqn:E.
  - intros [= -> <-]. exists [], l. split_and!; [done| |done|done]. intros z Hz. inversion Hz.
  - intros (l1 & l2 & -> & H1 & H2 & H3)%IH. exists (y :: l1), l2.
    split_and!; [done| |done|done]. intros z [->|Hz]%elem_of_cons; auto.
Qed.

(** The loop of [CheckDistinct] passes when the identities still to come are
    distinct and none of them is in the map. *)
Definition identities (selections : list Selection) : list string :=
  omap (fun s => diskIdentity <$> sel_Disk s) selections.

Lemma check_distinct_from_None m selections :
  check_distinct_from m selections = None <->
  NoDup (identities selections) /\ forall id, id ∈ identities selections -> m !! id = None.
Proof.
  revert m. induction selections as [|[l [d|]] sels IH]; intros m; cbn.
  - split; [|done]. intros _. split; [constructor|]. intros id Hid. inversion Hid.
  - destruct (m !! diskIdentity d) eqn:E.
    + split; [done|]. intros [_ H]. rewrite H in E; [done|left].
    + rewrite IH, NoDup_cons. setoid_rewrite elem_of_cons. split.
      * intros [Hnd Hm]. split_and!; [|done|].
        -- intros Hin. specialize (Hm _ Hin). by rewrite lookup_insert_eq in Hm.
        -- intros id [->|Hid]; [done|]. specialize (Hm _ Hid).
           by apply lookup_insert_None in Hm as [? _].
      * intros [[Hni Hnd] Hm]. split; [done|]. intros id Hid.
        apply lookup_insert_None. split; [auto|]. by intros <-.
  - apply IH.
Qed.

Lemma describe_from_length i n disks :
  i <= maxListedDisks -> length (describe_from i n disks) <= S maxListedDisks - i.
Proof.
  revert i. induction disks as [|d disks IH]; intros i Hi; cbn [describe_from].
  { cbn [Datatypes.length]. lia. }
  destruct (Nat.leb_spec maxListedDisks i) as [H|H]; cbn [Datatypes.length]; [lia|].
  specialize (IH (S i) H). lia.
Qed.

(** ** Theorems *)

(** [Match] answers a disk exactly when one position of the inventory
    satisfies every set hint (absent hints ask nothing), [ErrNoMatch] exactly
    when none does and [ErrAmbiguous] exactly when two different positions do;
    so no disk is ever picked arbitrarily. *)
Theorem Match_spec disks hints (Hok : hints_ok hints) :
  match Match disks hints with
  | inl d => exists l1 l2, disks = l1 ++ d :: l2 /\ satisfies hints d
      /\ forall d', d' ∈ l1 ++ l2 -> ~ satisfies hints d'
  | inr (ErrNoMatch, _) => forall d, d ∈ disks -> ~ satisfies hints d
  | inr (ErrAmbiguous, _) => exists l1 d1 l2 d2 l3,
      disks = l1 ++ d1 :: l2 ++ d2 :: l3 /\ satisfies hints d1 /\ satisfies hints d2
  end.
Proof.
  pose proof (Match_verdict disks hints) as Hv. unfold selected in Hv.
  set (f := fun d => negb (hasAnyHint hints) || from_option (hintsMatch d) false hints) in Hv.
  assert (Hs : forall d, f d = true <-> satisfies hints d)
    by (intros d; by apply selects_satisfies).
  assert (Hn : forall d, f d = false -> ~ satisfies hints d) by (intros d Hd Hc%Hs; congruence).
  destruct (List.filter f disks) as [|d r] eqn:E.
  { destruct (Match disks hints) as [|[[] ?]]; try done. intros d Hd. by eapply Hn, filter_nil. }
  apply filter_cons in E as (l1 & l2 & -> & H1 & H2 & H3). destruct r as [|d' r].
  - destruct (Match _ hints) as [d0|[[] ?]]; try done. cbn in Hv. simplify_eq.
    exists l1, l2. split_and!; [done|by apply Hs|].
    intros d' [Hd|Hd]%elem_of_app; apply Hn; [by apply H1|by eapply filter_nil].
  - apply filter_cons in H3 as (l3 & l4 & -> & _ & H4 & _).
    destruct (Match _ hints) as [d0|[[] ?]]; try done.
    exists l1, d, l3, d', l4. split_and!; [done|by apply Hs|by apply Hs].
Qed.

Definition sda : MachineHardwareDisk :=
  mkDisk "/dev/sda" "S1" "" " ACME " "" (500 * 2 ^ 30) (Some true) "" "" None.
Definition sdb : MachineHardwareDisk :=
  mkDisk "/dev/sdb" "" "" "FAST" "" (100 * 2 ^ 30) (Some false) "" "" None.
Definition hint_min (g : Z) : option TargetDiskHints :=
  Some (mkHints "" "" "" "" "" (Some g) None None "" "" None).

Lemma Match_spec_witness :
  Match [sdb; sda] (hint_min 200) = inl sda /\ satisfies (hint_min 200) sda.
Proof.
  split; [vm_compute; reflexivity|].
  assert (Hok : hints_ok (hint_min 200)).
  { intros h [= <-]. split; intros x; cbn; [intros [= <-]; lia|done]. }
  pose proof (Match_spec [sdb; sda] (hint_min 200) Hok) as H.
  assert (E : Match [sdb; sda] (hint_min 200) = inl sda) by (vm_compute; reflexivity).
  rewrite E in H. destruct H as (_ & _ & _ & H & _). exact H.
Defined.

(** A minimum size whose byte count leaves [int64] is not enforced: a
    [minSizeGigabytes] of 2^34 multiplies to zero, so a disk of any
    non-negative size, however small, still matches. *)
Theorem Match_min_size_wraps d :
  (0 <= d_SizeBytes d)%Z -> Match [d] (hint_min (2 ^ 34)) = inl d.
Proof.
  intros H. unfold Match. cbn -[int64 Z.mul Z.pow]. unfold hintsMatch. cbn -[int64 Z.mul Z.pow].
  replace (int64 (2 ^ 34 * giB)) with 0%Z by (vm_compute; reflexivity).
  destruct (Z.ltb_spec (d_SizeBytes d) 0); [lia|done].
Qed.

Lemma Match_min_size_wraps_witness :
  (0 <= d_SizeBytes sdb)%Z /\ Match [sdb] (hint_min (2 ^ 34)) = inl sdb.
Proof. split; [cbn; lia|]. apply (Match_min_size_wraps sdb). cbn. lia. Defined.

(** [CheckDistinct] passes exactly when the disks the selections resolved
    to (nil selections skipped) have pairwise distinct identities: the serial
    number where one is reported, else the device name. *)
Theorem CheckDistinct_spec selections :
  CheckDistinct selections = None <-> NoDup (identities selections).
Proof.
  unfold CheckDistinct. rewrite check_distinct_from_None. split; [by intros [? _]|].
  intros H. split; [done|]. intros id _. apply lookup_empty.
Qed.

(** An ambiguous-match message lists at most [maxListedDisks] device names
    and one summary entry, whatever the number of disks. *)
Theorem describeDisks_bounded disks :
  exists names, describeDisks disks = join ", " names /\ length names <= maxListedDisks + 1.
Proof.
  eexists. split; [reflexivity|].
  pose proof (describe_from_length 0 (length disks) disks ltac:(lia)). lia.
Qed.
