(* ===== verification/ClaimMatch.v ===== *)
(** * ClaimMatch: a claim's hardware selector against a machine's inventory

    [src/internal/controller/machineclaim_match.go].  The bipartite matching
    of disk requirements to disks is Kuhn's algorithm on mutable arrays; here
    the arrays are lists that the calls thread, an index out of range is
    [None] (Go's panic), and so is running out of fuel.  [disksSatisfy_spec]
    shows that the algorithm returns, and that it answers [true] exactly when
    some assignment of pairwise distinct disks meets every requirement. *)

From S2P Require Import Prelude Api DiskMatch.
Local Open Scope string_scope.
Local Open Scope list_scope.
Local Open Scope nat_scope.

(** ** The code *)

Definition machineClaimGiB : Z := 2 ^ 30.

Definition diskMatchesRequirement (disk : MachineHardwareDisk) (req : ClaimHardwareDiskSelector) : bool :=
  if (ds_Model req <>s "") && (ds_Model req <>s d_Model disk) then false else
  if (ds_Vendor req <>s "") && (ds_Vendor req <>s d_Vendor disk) then false else
  if match ds_MinSizeGigabytes req with
     | Some g => (d_SizeBytes disk <? int64 (g * machineClaimGiB))%Z | None => false end then false else
  if match ds_Rotational req with
     | Some b => match d_Rotational disk with None => true | Some b' => negb (Bool.eqb b' b) end
     | None => false end then false else
  true.

(** [matchOfDisk] holds the requirement each disk is given to; Go's [-1] is [None]. *)
Abbreviation matching := (list (option nat)).

(** The loop over [adj[req]]; [rec] is the recursive call. *)
Fixpoint augment_loop (rec : nat -> list bool -> matching -> option (bool * list bool * matching))
    (req : nat) (ds : list nat) (visited : list bool) (matchOfDisk : matching)
  : option (bool * list bool * matching) :=
  match ds with
  | [] => Some (false, visited, matchOfDisk)
  | disk :: ds =>
    match visited !! disk with
    | None => None
    | Some true => augment_loop rec req ds visited matchOfDisk
    | Some false =>
      let visited := <[disk := true]> visited in
      match matchOfDisk !! disk with
      | None => None
      | Some None => Some (true, visited, <[disk := Some req]> matchOfDisk)
      | Some (Some r) =>
        match rec r visited matchOfDisk with
        | None => None
        | Some (true, visited, matchOfDisk) =>
          Some (true, visited, <[disk := Some req]> matchOfDisk)
        | Some (false, visited, matchOfDisk) => augment_loop rec req ds visited matchOfDisk
        end
      end
    end
  end.

Fixpoint tryAugmentDiskMatch (fuel : nat) (adj : list (list nat)) (req : nat)
    (visited : list bool) (matchOfDisk : matching) : option (bool * list bool * matching) :=
  match fuel with
  | O => None
  | S fuel =>
    match adj !! req with
    | None => None
    | Some ds => augment_loop (tryAugmentDiskMatch fuel adj) req ds visited matchOfDisk
    end
  end.

(** The indices of the disks that meet [req]: one row of [adj]. *)
Fixpoint adjacent_from (j : nat) (disks : list MachineHardwareDisk) (req : ClaimHardwareDiskSelector)
  : list nat :=
  match disks with
  | [] => []
  | disk :: disks =>
    if diskMatchesRequirement disk req then j :: adjacent_from (S j) disks req
    else adjacent_from (S j) disks req
  end.

(** The loop over the requirements [i .. i + n - 1]. *)
Fixpoint augment_all (fuel : nat) (adj : list (list nat)) (ndisks i n : nat) (matchOfDisk : matching)
  : option bool :=
  match n with
  | O => Some true
  | S n =>
    match tryAugmentDiskMatch fuel adj i (replicate ndisks false) matchOfDisk with
    | None => None
    | Some (false, _, _) => Some false
    | Some (true, _, matchOfDisk) => augment_all fuel adj ndisks (S i) n matchOfDisk
    end
  end.

Definition disksSatisfy (disks : list MachineHardwareDisk) (reqs : list ClaimHardwareDiskSelector)
  : option bool :=
  if Nat.eqb (length reqs) 0 then Some true else
  if length disks <? length reqs then Some false else
  let adj := map (adjacent_from 0 disks) reqs in
  augment_all (S (length disks)) adj (length disks) 0 (length reqs)
    (replicate (length disks) None).

Definition hardwareMatchesSelector (hw : MachineHardwareSpec) (sel : ClaimHardwareSelector)
  : option bool :=
  if match hs_MinCPUCount sel with Some c => (hw_CPUCount hw <? c)%Z | None => false end
  then Some false else
  if match hs_MinMemoryBytes sel with Some b => (hw_MemoryBytes hw <? b)%Z | None => false end
  then Some false else
  disksSatisfy (hw_Disks hw) (hs_Disks sel).

(** ** Counting *)

Definition uses (r : nat) (m : matching) : nat :=
  count_occ (fun x y : option nat => decide (x = y)) m (Some r).
Definition unvisited (v : list bool) : nat := count_occ Bool.bool_dec v false.

Lemma count_occ_insert {A} (dec : forall x y : A, {x = y} + {x <> y}) l i (x y z : A) :
  l !! i = Some x ->
  count_occ dec (<[i := y]> l) z + (if dec x z then 1 else 0) =
  count_occ dec l z + (if dec y z then 1 else 0).
Proof.
  revert i. induction l as [|w l IH]; intros [|i] H; simplify_eq/=.
  - destruct (dec x z), (dec y z); lia.
  - specialize (IH i H). destruct (dec w z); lia.
Qed.

Lemma uses_insert r m d x y :
  m !! d = Some x ->
  uses r (<[d := y]> m) + (if decide (x = Some r) then 1 else 0) =
  uses r m + (if decide (y = Some r) then 1 else 0).
Proof. exact (count_occ_insert (fun x y : option nat => decide (x = y)) m d x y (Some r)). Qed.

Lemma unvisited_insert v d :
  v !! d = Some false -> S (unvisited (<[d := true]> v)) = unvisited v.
Proof. intros H. pose proof (count_occ_insert Bool.bool_dec v d false true false H) as E. cbn in E. unfold unvisited. lia. Qed.

(** [v'] keeps every mark of [v]. *)
Definition grows (v v' : list bool) : Prop :=
  length v' = length v /\ forall d, v !! d = Some true -> v' !! d = Some true.

#[export] Instance grows_preorder : PreOrder grows.
Proof. split; [by split|]. intros v1 v2 v3 [E1 H1] [E2 H2]. split; [congruence|auto]. Qed.

Lemma grows_mark v d : grows v (<[d := true]> v).
Proof.
  split; [apply length_insert|]. intros d' H. destruct (decide (d = d')) as [<-|].
  - apply list_lookup_insert_eq. by eapply lookup_lt_Some.
  - by rewrite list_lookup_insert_ne.
Qed.

Lemma grows_unvisited v v' : grows v v' -> unvisited v' <= unvisited v.
Proof.
  intros [E H]. revert v' E H. induction v as [|b v IH]; intros [|b' v'] E H; simplify_eq/=; [done|].
  assert (IH' : unvisited v' <= unvisited v).
  { apply IH; [done|]. intros d Hd. exact (H (S d) Hd). }
  unfold unvisited in *. cbn. specialize (H 0). destruct b, b'; cbn in *; try lia. naive_solver.
Qed.

(** ** The augmenting step *)

(** Every disk of the matching is given to a requirement it meets. *)
Definition valid (adj : list (list nat)) (m : matching) : Prop :=
  forall d r, m !! d = Some (Some r) -> exists ds, adj !! r = Some ds /\ d ∈ ds.

Lemma valid_insert adj m d r ds :
  valid adj m -> adj !! r = Some ds -> d ∈ ds -> valid adj (<[d := Some r]> m).
Proof.
  intros Hv Hr Hd d' r' H. apply list_lookup_insert_Some in H as [(-> & ? & ?)|[_ ?]]; simplify_eq; eauto.
Qed.

(** What the step promises: on success one more use of [req] and the disks
    marked before untouched; on failure the same matching and a set of marked
    disks closed under "held by a requirement that wants". *)
Definition augment_spec (adj : list (list nat)) (req : nat) (ds : list nat) (v : list bool)
    (m : matching) (out : option (bool * list bool * matching)) : Prop :=
  match out with
  | None => False
  | Some (true, v', m') =>
    grows v v' /\ length m' = length m /\ valid adj m' /\
    (forall d, v !! d = Some true -> m' !! d = m !! d) /\
    (forall r, uses r m' = uses r m + if decide (r = req) then 1 else 0)
  | Some (false, v', m') =>
    grows v v' /\ m' = m /\
    (forall d, d ∈ ds -> v' !! d = Some true) /\
    (forall d, v' !! d = Some true -> v !! d = Some true \/
      exists r ds', m !! d = Some (Some r) /\ adj !! r = Some ds' /\
        forall d', d' ∈ ds' -> v' !! d' = Some true)
  end.

(** The holder of [d] moved elsewhere, so [d] is free for [req]. *)
Lemma augment_displace adj r ds' req row ds v v1 m m1 d :
  augment_spec adj r ds' (<[d := true]> v) m (Some (true, v1, m1)) ->
  v !! d = Some false -> d < length v -> m !! d = Some (Some r) ->
  adj !! req = Some row -> d ∈ row ->
  augment_spec adj req ds v m (Some (true, v1, <[d := Some req]> m1)).
Proof.
  intros (Hg & Hl & Hval & Hsame & Hcnt) Hd Hlt Hm Hrow Hin. cbn.
  assert (Hm1 : m1 !! d = Some (Some r)).
  { rewrite Hsame; [done|]. by apply list_lookup_insert_eq. }
  split_and!; [by etrans; [apply grows_mark|]|by rewrite length_insert|by eapply valid_insert| |].
  - intros d' Hd'. rewrite list_lookup_insert_ne by (intros <-; congruence).
    apply Hsame. by apply grows_mark.
  - intros q. pose proof (uses_insert q m1 d (Some r) (Some req) Hm1) as E. specialize (Hcnt q).
    repeat case_decide; simplify_eq; lia.
Qed.

(** The holder of [d] cannot move, so the search goes on past [d]. *)
Lemma augment_retry adj r ds' req ds v v1 m out d :
  augment_spec adj r ds' (<[d := true]> v) m (Some (false, v1, m)) ->
  adj !! r = Some ds' -> d < length v -> m !! d = Some (Some r) ->
  augment_spec adj req ds v1 m out -> augment_spec adj req (d :: ds) v m out.
Proof.
  intros (Hg & _ & Hin & Hc) Hr Hlt Hm Hout.
  assert (Hg' : grows v v1) by by etrans; [apply grows_mark|].
  assert (Hd1 : v1 !! d = Some true) by by apply Hg, list_lookup_insert_eq.
  destruct out as [[[[] v2] m2]|]; cbn in *; [| |done].
  - destruct Hout as (Hg2 & ? & ? & Hsame & ?). split_and!; [by etrans|done|done| |done].
    intros e He. apply Hsame. by apply Hg'.
  - destruct Hout as (Hg2 & -> & Hin2 & Hc2). split_and!; [by etrans|done| |].
    + intros e [->|He]%elem_of_cons; [by apply Hg2|auto].
    + intros e He. destruct (Hc2 e He) as [He1|?]; [|by right].
      destruct (Hc e He1) as [He0|(q & dq & ? & ? & Hq)].
      * destruct (decide (d = e)) as [<-|Hne].
        -- right. exists r, ds'. split_and!; [done|done|]. intros. by apply Hg2, Hin.
        -- left. by rewrite list_lookup_insert_ne in He0.
      * right. exists q, dq. split_and!; [done|done|]. intros. by apply Hg2, Hq.
Qed.

Section Augment.
Context (adj : list (list nat)) (ndisks : nat).
Hypothesis adj_range : forall r ds d, adj !! r = Some ds -> d ∈ ds -> d < ndisks.

Definition step_ok (fuel : nat) (rec : nat -> list bool -> matching -> option (bool * list bool * matching)) : Prop :=
  forall req ds v m, adj !! req = Some ds -> length v = ndisks -> length m = ndisks ->
    valid adj m -> unvisited v < fuel -> augment_spec adj req ds v m (rec req v m).

Lemma augment_loop_ok fuel rec req row :
  step_ok fuel rec -> adj !! req = Some row ->
  forall ds v m, (forall d, d ∈ ds -> d ∈ row) -> length v = ndisks -> length m = ndisks ->
    valid adj m -> unvisited v <= fuel ->
    augment_spec adj req ds v m (augment_loop rec req ds v m).
Proof.
  intros Hrec Hrow ds. induction ds as [|d ds IH]; intros v m Hsub Hv Hm Hval Hu; cbn [augment_loop].
  { cbn. split_and!; [done|done| |auto]. intros d Hd. inversion Hd. }
  assert (Hd : d ∈ row) by (apply Hsub; left).
  assert (Hlt : d < ndisks) by eauto.
  destruct (lookup_lt_is_Some_2 v d ltac:(lia)) as [b Hb]. rewrite Hb.
  assert (Hsub' : forall d', d' ∈ ds -> d' ∈ row) by (intros; apply Hsub; by right).
  destruct b.
  { specialize (IH v m Hsub' Hv Hm Hval Hu). unfold augment_spec in *.
    destruct (augment_loop rec req ds v m) as [[[[] v'] m']|]; [done| |done].
    destruct IH as (Hg & -> & Hin & Hc). split_and!; [done|done| |done].
    intros d' [->|?]%elem_of_cons; [by apply Hg|auto]. }
  assert (Hmark : grows v (<[d := true]> v)) by apply grows_mark.
  assert (Hu' : S (unvisited (<[d := true]> v)) = unvisited v) by by apply unvisited_insert.
  assert (Hv' : length (<[d := true]> v) = ndisks) by by rewrite length_insert.
  destruct (lookup_lt_is_Some_2 m d ltac:(lia)) as [x Hx]. rewrite Hx. destruct x as [r|].
  - destruct (Hval d r Hx) as (ds' & Hr & _).
    pose proof (Hrec r ds' _ m Hr Hv' Hm Hval ltac:(lia)) as Hs.
    destruct (rec r (<[d := true]> v) m) as [[[[] v1] m1]|]; [| |done].
    + eapply augment_displace; eauto; lia.
    + pose proof Hs as (Hg & -> & _). eapply augment_retry; eauto; [lia|].
      apply IH; [done| |done|done|].
      * destruct Hg as [-> _]. done.
      * apply grows_unvisited in Hg. lia.
  - cbn. split_and!; [done|by rewrite length_insert|by eapply valid_insert| |].
    + intros d' Hd'. rewrite list_lookup_insert_ne; [done|]. by intros <-; rewrite Hb in Hd'.
    + intros r. pose proof (uses_insert r m d None (Some req) Hx) as E.
      repeat case_decide; simplify_eq; lia.
Qed.
Lemma tryAugment_ok fuel : step_ok fuel (tryAugmentDiskMatch fuel adj).
Proof.
  induction fuel as [|fuel IH]; intros req ds v m Hr Hv Hm Hval Hu; [lia|].
  cbn. rewrite Hr. eapply augment_loop_ok; eauto. lia.
Qed.
End Augment.

(** ** The matching *)

(** [a] gives each requirement a disk that meets it, no two the same. *)
Definition assignment (adj : list (list nat)) (a : list nat) : Prop :=
  NoDup a /\ length a = length adj /\
  forall r d, a !! r = Some d -> exists ds, adj !! r = Some ds /\ d ∈ ds.

(** After the first [i] requirements, exactly those are used, once each. *)
Definition served (i : nat) (m : matching) : Prop :=
  forall r, uses r m = if decide (r < i) then 1 else 0.

Lemma uses_lookup r m : 0 < uses r m <-> exists d, m !! d = Some (Some r).
Proof.
  unfold uses. rewrite <- list_elem_of_lookup, list_elem_of_In.
  rewrite (count_occ_In (fun x y : option nat => decide (x = y))). lia.
Qed.

Lemma uses_inj r m d d' :
  uses r m <= 1 -> m !! d = Some (Some r) -> m !! d' = Some (Some r) -> d = d'.
Proof.
  intros H Hd Hd'. destruct (decide (d = d')) as [|Hne]; [done|exfalso].
  pose proof (uses_insert r m d (Some r) None Hd) as E.
  assert (0 < uses r (<[d := None]> m)).
  { apply uses_lookup. exists d'. by rewrite list_lookup_insert_ne. }
  repeat case_decide; simplify_eq; lia.
Qed.

(** A matching that serves everybody is an assignment read backwards. *)
Lemma served_assignment adj m :
  valid adj m -> served (length adj) m -> exists a, assignment adj a.
Proof.
  intros Hval Hs.
  assert (H : forall r, r ∈ seq 0 (length adj) -> exists d, m !! d = Some (Some r)).
  { intros r Hr%elem_of_seq. apply uses_lookup. rewrite Hs, decide_True; lia. }
  apply Forall_forall, Forall_exists_Forall2_l in H as [a Ha].
  assert (Hlook : forall r d, a !! r = Some d -> m !! d = Some (Some r)).
  { intros r d Hr. destruct (Forall2_lookup_r _ _ _ _ _ Ha Hr) as (r' & Hr' & Hd).
    apply lookup_seq in Hr' as [-> _]. done. }
  exists a. split_and!.
  - apply NoDup_alt. intros i j d Hi%Hlook Hj%Hlook. congruence.
  - apply Forall2_length in Ha. by rewrite length_seq in Ha.
  - intros r d Hr. by apply Hval, Hlook.
Qed.

(** Hall's condition fails on [i] and the holders of the disks [V]: one more
    requirement than disks. *)
Lemma pigeonhole_violation adj i ds m (V : list nat) a :
  served i m -> adj !! i = Some ds -> NoDup V -> (forall d, d ∈ ds -> In d V) ->
  (forall d, In d V -> exists r ds', m !! d = Some (Some r) /\ adj !! r = Some ds' /\
      forall d', d' ∈ ds' -> In d' V) ->
  assignment adj a -> False.
Proof.
  intros Hs Hi HV Hds Hcl (Hnd & Hlen & Ha).
  set (holder := fun d => default 0 (mjoin (m !! d))).
  set (L := i :: map holder V).
  assert (Hhold : forall d, In d V -> m !! d = Some (Some (holder d))).
  { intros d (r & ds' & Hd & _)%Hcl. unfold holder. by rewrite Hd. }
  assert (HL : NoDup L).
  { apply NoDup_cons. split.
    - intros (d & Hi' & Hd)%list_elem_of_fmap. apply list_elem_of_In in Hd. apply Hhold in Hd. rewrite <- Hi' in Hd.
      assert (0 < uses i m) by (apply uses_lookup; eauto).
      rewrite Hs, decide_False in *; lia.
    - apply NoDup_fmap_2_strong; [|done]. intros d d' Hd Hd' E.
      apply list_elem_of_In in Hd, Hd'. apply Hhold in Hd, Hd'. rewrite <- E in Hd'.
      eapply uses_inj; [|done|done]. rewrite Hs. case_decide; lia. }
  assert (Hrow : forall r, In r L -> exists row, adj !! r = Some row /\ forall d, d ∈ row -> In d V).
  { intros r [<-|(d & <- & Hd)%in_map_iff]; [eauto|].
    destruct (Hcl d Hd) as (r & ds' & Hr & ? & ?). exists ds'. split; [|done].
    unfold holder. by rewrite Hr. }
  set (f := fun r => default 0 (a !! r)).
  assert (Hf : forall r, In r L -> a !! r = Some (f r) /\ In (f r) V).
  { intros r Hr. destruct (Hrow r Hr) as (row & Hrow1 & Hrow2).
    destruct (lookup_lt_is_Some_2 a r) as [d Hd].
    { rewrite Hlen. by eapply lookup_lt_Some. }
    unfold f. rewrite Hd. split; [done|]. destruct (Ha r d Hd) as (row' & ? & ?).
    simplify_eq. auto. }
  assert (Hinj : List.NoDup (map f L)).
  { apply NoDup_ListNoDup, NoDup_fmap_2_strong; [|done]. intros r r' Hr Hr' E.
    apply list_elem_of_In in Hr, Hr'. destruct (Hf r Hr), (Hf r' Hr').
    eapply NoDup_lookup; [exact Hnd|done|]. by rewrite E. }
  assert (Hle := List.NoDup_incl_length Hinj (l' := V)).
  cbn in Hle. rewrite !length_map in Hle.
  enough (S (length V) <= length V) by lia. apply Hle.
  intros d [<-|(r & <- & Hr)%in_map_iff]; [apply Hf; by left|apply Hf; by right].
Qed.

(** A failed step exhibits requirements with too few disks between them. *)
Lemma failed_no_assignment adj ndisks i ds m v' a :
  length m = ndisks -> served i m -> adj !! i = Some ds ->
  augment_spec adj i ds (replicate ndisks false) m (Some (false, v', m)) ->
  ~ assignment adj a.
Proof.
  intros Hm Hs Hi (Hg & _ & Hin & Hc) (Hnd & Hlen & Ha).
  set (V := List.filter (fun d => default false (v' !! d)) (seq 0 (length v'))).
  assert (HV : forall d, In d V <-> v' !! d = Some true).
  { intros d. unfold V. rewrite filter_In, in_seq. split.
    - intros [_ H]. by destruct (v' !! d) as [[]|].
    - intros H. rewrite H. apply lookup_lt_Some in H. split; [lia|done]. }
  assert (Hclosed : forall d, In d V -> exists r ds', m !! d = Some (Some r) /\ adj !! r = Some ds' /\
      forall d', d' ∈ ds' -> In d' V).
  { intros d [Hd|(r & ds' & ? & ? & Hr)]%HV%Hc.
    - by apply lookup_replicate in Hd as [? _].
    - exists r, ds'. split_and!; [done|done|]. intros. by apply HV, Hr. }
  apply (pigeonhole_violation adj i ds m V a); try done.
  - apply NoDup_ListNoDup, List.NoDup_filter, seq_NoDup.
  - intros d Hd. by apply HV, Hin.
Qed.


Lemma served_step i m m' :
  served i m -> (forall r, uses r m' = uses r m + if decide (r = i) then 1 else 0) -> served (S i) m'.
Proof. intros Hs Hm r. rewrite Hm, Hs. repeat case_decide; lia. Qed.

Lemma unvisited_replicate n : unvisited (replicate n false) = n.
Proof. induction n; unfold unvisited in *; cbn; congruence. Qed.

Lemma augment_all_ok adj ndisks n i m :
  (forall r ds d, adj !! r = Some ds -> d ∈ ds -> d < ndisks) ->
  i + n = length adj -> length m = ndisks -> valid adj m -> served i m ->
  exists b, augment_all (S ndisks) adj ndisks i n m = Some b /\
    (b = true <-> exists a, assignment adj a).
Proof.
  intros Hadj. revert i m. induction n as [|n IH]; intros i m Hn Hm Hval Hs; cbn [augment_all].
  { exists true. split; [done|]. split; [|done]. intros _. apply (served_assignment adj m); [done|].
    by replace (length adj) with i by lia. }
  destruct (lookup_lt_is_Some_2 adj i ltac:(lia)) as [ds Hi].
  pose proof (tryAugment_ok adj ndisks Hadj (S ndisks) i ds (replicate ndisks false) m Hi
    (length_replicate _ _) Hm Hval) as Hstep.
  rewrite unvisited_replicate in Hstep. specialize (Hstep ltac:(lia)).
  destruct (tryAugmentDiskMatch _ adj i _ m) as [[[[] v'] m']|]; [| |done].
  - destruct Hstep as (_ & Hl & Hval' & _ & Hcnt). apply IH; [lia|congruence|done|].
    by eapply served_step.
  - pose proof Hstep as (_ & -> & _). exists false. split; [done|]. split; [done|].
    intros [a Ha]. exfalso. by eapply failed_no_assignment.
Qed.

Lemma adjacent_from_spec k disks req j :
  j ∈ adjacent_from k disks req <->
  exists d disk, j = k + d /\ disks !! d = Some disk /\ diskMatchesRequirement disk req = true.
Proof.
  revert k. induction disks as [|disk disks IH]; intros k; cbn.
  { split; [intros H; inversion H|intros (? & ? & _ & ? & _); done]. }
  assert (Hshift : (exists d disk', j = S k + d /\ disks !! d = Some disk' /\ diskMatchesRequirement disk' req = true) <->
    exists d disk', j = k + S d /\ disks !! d = Some disk' /\ diskMatchesRequirement disk' req = true).
  { split; intros (d & disk' & -> & H); exists d, disk'; (split; [lia|done]). }
  destruct (diskMatchesRequirement disk req) eqn:E; rewrite ?elem_of_cons, IH, Hshift; split.
  - intros [->|(d & disk' & -> & H)]; [exists 0, disk|exists (S d), disk']; (split; [lia|done]).
  - intros ([|d] & disk' & -> & H & ?); [left; lia|right; eauto].
  - intros (d & disk' & -> & H). exists (S d), disk'. done.
  - intros ([|d] & disk' & -> & H & ?); [cbn in H; congruence|eauto].
Qed.

(** ** Theorems *)

(** The disk meets the requirement. *)
Definition meets (disk : MachineHardwareDisk) (req : ClaimHardwareDiskSelector) : Prop :=
  str_hint (ds_Model req) (d_Model disk) /\ str_hint (ds_Vendor req) (d_Vendor disk) /\
  (forall g, ds_MinSizeGigabytes req = Some g -> (g * 2 ^ 30 <= d_SizeBytes disk)%Z) /\
  (forall b, ds_Rotational req = Some b -> d_Rotational disk = Some b).

Lemma diskMatchesRequirement_spec disk req :
  gigabytes_ok (ds_MinSizeGigabytes req) ->
  diskMatchesRequirement disk req = true <-> meets disk req.
Proof.
  intros Hg. unfold diskMatchesRequirement, meets.
  rewrite (String.eqb_sym (ds_Model req) (d_Model disk)), (String.eqb_sym (ds_Vendor req) (d_Vendor disk)).
  apply str_guard, str_guard, opt_guard.
  - intros g E. change machineClaimGiB with giB. rewrite int64_giB by eauto. apply Z.ltb_ge.
  - rewrite <- (and_True (forall b, _)). apply opt_guard; [|done].
    intros b _. destruct (d_Rotational disk) as [[]|], b; cbn; naive_solver.
Qed.

(** [a] lists, for each requirement, the position of a disk of its own. *)
Definition distinct_disks (ok : MachineHardwareDisk -> ClaimHardwareDiskSelector -> Prop)
    (disks : list MachineHardwareDisk) (reqs : list ClaimHardwareDiskSelector) (a : list nat) : Prop :=
  NoDup a /\ Forall2 (fun req j => exists disk, disks !! j = Some disk /\ ok disk req) reqs a.

Lemma assignment_distinct disks reqs a :
  assignment (map (adjacent_from 0 disks) reqs) a <->
  distinct_disks (fun d r => diskMatchesRequirement d r = true) disks reqs a.
Proof.
  unfold assignment, distinct_disks. rewrite length_map. split; intros [Hnd Ha]; (split; [done|]).
  - destruct Ha as [Hlen Ha]. apply Forall2_same_length_lookup. split; [done|].
    intros i req j Hr Hj. destruct (Ha i j Hj) as (ds & Hds & Hin).
    rewrite list_lookup_fmap, Hr in Hds. cbn in Hds. simplify_eq.
    apply adjacent_from_spec in Hin as (d & disk & -> & H). eauto.
  - split; [by apply Forall2_length in Ha|]. intros r j Hj.
    destruct (Forall2_lookup_r _ _ _ _ _ Ha Hj) as (req & Hr & disk & Hd).
    exists (adjacent_from 0 disks req). rewrite list_lookup_fmap, Hr. split; [done|].
    apply adjacent_from_spec. exists j, disk. done.
Qed.

Lemma disksSatisfy_decides disks reqs :
  exists b, disksSatisfy disks reqs = Some b /\
    (b = true <-> exists a, distinct_disks (fun d r => diskMatchesRequirement d r = true) disks reqs a).
Proof.
  unfold disksSatisfy. destruct (Nat.eqb_spec (length reqs) 0) as [H0|H0].
  { destruct reqs; [|done]. exists true. split; [done|]. split; [|done].
    intros _. exists []. split; constructor. }
  destruct (Nat.ltb_spec (length disks) (length reqs)) as [H1|H1].
  { exists false. split; [done|]. split; [done|]. intros [a [Hnd Ha]]. exfalso.
    assert (Hle : length a <= length (seq 0 (length disks))).
    { apply List.NoDup_incl_length; [by apply NoDup_ListNoDup|]. intros j Hj.
      apply list_elem_of_In, list_elem_of_lookup in Hj as [i Hi].
      destruct (Forall2_lookup_r _ _ _ _ _ Ha Hi) as (req & _ & disk & Hd & _).
      apply in_seq. apply lookup_lt_Some in Hd. lia. }
    rewrite length_seq in Hle. apply Forall2_length in Ha. lia. }
  setoid_rewrite <- assignment_distinct. apply augment_all_ok.
  - intros r ds d Hr Hd. rewrite list_lookup_fmap in Hr. destruct (reqs !! r); simplify_eq/=.
    apply adjacent_from_spec in Hd as (d' & disk & -> & H & _). by apply lookup_lt_Some in H.
  - by rewrite length_map.
  - apply length_replicate.
  - intros d r H. by apply lookup_replicate in H as [? _].
  - intros r. rewrite decide_False by lia. destruct (uses r _) eqn:E; [done|].
    destruct (proj1 (uses_lookup r (replicate (length disks) None))) as [d Hd]; [lia|].
    by apply lookup_replicate in Hd as [? _].
Qed.

Lemma floor_guard (o : option Z) x y :
  (if match o with Some c => (x <? c)%Z | None => false end then Some false else y) = Some true <->
  (forall c, o = Some c -> (c <= x)%Z) /\ y = Some true.
Proof.
  destruct o as [c|]; [|naive_solver]. destruct (Z.ltb_spec x c) as [H|H].
  - split; [done|]. intros [Hc _]. specialize (Hc c eq_refl). lia.
  - split; [|by intros [_ ?]]. intros ->. split; [|done]. by intros c' [= <-].
Qed.

(** C4. The augmenting-path search always returns (no panic, no unbounded
    recursion), and it answers [true] exactly when every disk requirement can
    be given a disk of its own that [diskMatchesRequirement] accepts: two
    requirements are never counted as met by one disk, and no satisfiable set
    of requirements is refused. *)
Theorem disksSatisfy_spec disks reqs :
  exists b, disksSatisfy disks reqs = Some b /\
    (b = true <-> exists a : list nat, NoDup a /\
       Forall2 (fun req j => exists disk, disks !! j = Some disk /\
                  diskMatchesRequirement disk req = true) reqs a).
Proof. apply disksSatisfy_decides. Qed.

(** A machine's hardware matches a claim's selector exactly when its CPU
    count and memory reach the floors and the disk requirements are met by
    pairwise distinct disks, sizes compared in true bytes as long as the
    minimum stays below 2^33 GiB. *)
Theorem hardwareMatchesSelector_spec hw sel
    (Hok : forall req, req ∈ hs_Disks sel -> gigabytes_ok (ds_MinSizeGigabytes req)) :
  hardwareMatchesSelector hw sel = Some true <->
  (forall c, hs_MinCPUCount sel = Some c -> (c <= hw_CPUCount hw)%Z) /\
  (forall b, hs_MinMemoryBytes sel = Some b -> (b <= hw_MemoryBytes hw)%Z) /\
  exists a, distinct_disks meets (hw_Disks hw) (hs_Disks sel) a.
Proof.
  assert (Hd : disksSatisfy (hw_Disks hw) (hs_Disks sel) = Some true <->
    exists a, distinct_disks meets (hw_Disks hw) (hs_Disks sel) a).
  { destruct (disksSatisfy_decides (hw_Disks hw) (hs_Disks sel)) as (b & -> & Hb).
    transitivity (b = true); [naive_solver|]. rewrite Hb.
    apply exist_proper. intros a. unfold distinct_disks. f_equiv.
    split; intros H; apply Forall2_same_length_lookup in H as [Hl H];
      apply Forall2_same_length_lookup; (split; [done|]); intros i req j Hr Hj;
      destruct (H i req j Hr Hj) as (disk & Hd & Hm); exists disk; (split; [done|]);
      apply (diskMatchesRequirement_spec disk req); try done;
      by eapply Hok, list_elem_of_lookup_2. }
  rewrite <- Hd. unfold hardwareMatchesSelector. by rewrite !floor_guard.
Qed.

Definition req_min (g : Z) (rot : option bool) : ClaimHardwareDiskSelector :=
  mkDiskSelector "" "" (Some g) rot.

(** The first requirement takes the big disk and must be displaced to the
    small one for the second. *)
Lemma hardwareMatchesSelector_spec_witness :
  hardwareMatchesSelector (mkHardwareSpec [sda; sdb] [] 4096 8)
    (mkHardwareSelector (Some 4%Z) None [req_min 50 None; req_min 200 None]) = Some true /\
  exists a, distinct_disks meets [sda; sdb] [req_min 50 None; req_min 200 None] a.
Proof.
  assert (E : hardwareMatchesSelector (mkHardwareSpec [sda; sdb] [] 4096 8)
    (mkHardwareSelector (Some 4%Z) None [req_min 50 None; req_min 200 None]) = Some true)
    by (vm_compute; reflexivity).
  split; [exact E|].
  apply (hardwareMatchesSelector_spec (mkHardwareSpec [sda; sdb] [] 4096 8)
    (mkHardwareSelector (Some 4%Z) None [req_min 50 None; req_min 200 None])); [|exact E].
  intros req [->|[->|H]%elem_of_cons]%elem_of_cons; [| |inversion H]; intros x [= <-]; lia.
Defined.
