(* ===== verification/Machine.v ===== *)
(** * Machine: the Machine reconciler

    [src/internal/controller/machine_controller.go],
    [machine_annotations.go], [machine_claim_intent.go] and [crossref.go].
    Every method of [MachineReconciler] is a program over the calls of
    [Cluster]; the [*Machine] the Go code mutates in place is passed in and,
    where the caller goes on with it, passed back.  A patch that succeeds
    decodes the server's object into it.  Log lines are not modelled.

    The Section's parameters: the apimachinery helpers, whether [r.Builder] is
    set, and [json.Unmarshal] of a reboot annotation into a struct whose [Mode]
    starts as given. *)

From S2P Require Import Prelude Api Effects Cluster.
Local Open Scope string_scope.
Local Open Scope list_scope.
Local Open Scope nat_scope.

(** ** Constants *)

Definition continuingRequeueInterval : Z := Second.
Definition defaultBusyRequeueInterval : Z := 10 * Second.
Definition failedRequeueInterval : Z := 30 * Second.
Definition delayedRequeueInterval : Z := 15 * Second.
Definition credentialsSecretAbsentRequeueInterval : Z := 10 * Second.
Definition deleteStageMaxErrorCount : Z := 3.
Definition maxRestartFailures : Z := 3.
Definition annotationValueTrue : string := "true".

(** ** Requeue jitter *)

(** The [float64] nearest to a non-negative integer [p], ties to even. *)
Definition round53 (p : Z) : Z :=
  let k := (Z.log2 p - 52)%Z in
  if (k <=? 0)%Z then p else
  let u := (2 ^ k)%Z in
  let q := (p / u)%Z in
  let r := (p mod u)%Z in
  if (2 * r <? u)%Z then (q * u)%Z
  else if (u <? 2 * r)%Z then ((q + 1) * u)%Z
  else if Z.even q then (q * u)%Z else ((q + 1) * u)%Z.

(** [d + Duration(x * 0.25 * float64(d))] for [x = n / 2^53]: the scaling by
    powers of two is exact, the one rounding is that of the product. *)
Definition jittered (n d : Z) : Z := int64 (d + round53 (n * d) / 2 ^ 55).

Definition jitter (d : Z) : go Z := n <- RandFloat64 ;; Ret (jittered n d).

(** ** machine_annotations.go *)

Definition has_annotation (key : string) (m : ObjectMeta) : bool :=
  bool_decide (is_Some (Annotations m !! key)).

Definition isPaused (machine : Machine) : bool := has_annotation MachineAnnotationPaused machine.
Definition isDetached (machine : Machine) : bool := has_annotation MachineAnnotationDetached machine.
Definition reInspectRequested (machine : Machine) : bool :=
  has_annotation MachineAnnotationReInspect machine.
Definition clearErrorRequested (machine : Machine) : bool :=
  has_annotation MachineAnnotationClearError machine.

Definition inspectDisabled (machine : Machine) : bool :=
  default "" (Annotations machine !! MachineAnnotationInspectDisable) =s annotationValueTrue.

Definition isRebootAnnotationKey (key : string) : bool :=
  (key =s MachineAnnotationRebootPrefix) ||
  HasPrefix key (String.append MachineAnnotationRebootPrefix "-").

(** [delete(machine.Annotations, key)]. *)
Definition drop_annotation (key : string) (machine : Machine) : Machine :=
  machine <| machine_meta := (machine_meta machine) <| Annotations := delete key (Annotations machine) |> |>.

(** ** Pure helpers of the controller *)

Definition restartOnFailure (machine : Machine) : bool :=
  (OperationalStatus (Status machine) =s MachineOperationalStatusError) &&
  (ErrorType (Status machine) =s MachineErrorTypeRestart).

Definition releaseEligible (state : string) : bool :=
  (state =s MachineStateProvisioning) || (state =s MachineStateProvisioned).

Definition hasUnknownErrorType (machine : Machine) : bool :=
  if OperationalStatus (Status machine) <>s MachineOperationalStatusError then false else
  let t := ErrorType (Status machine) in
  if (t =s "") || (t =s MachineErrorTypeTransient) || (t =s MachineErrorTypeRestart)
  then false else true.

Definition applyFailure (machine : Machine) (errorType errorMessage : string) : Machine :=
  with_status (fun s =>
    let s := s <| OperationalStatus := MachineOperationalStatusError |>
               <| ErrorType := errorType |> <| ErrorMessage := errorMessage |>
               <| ErrorCount := int32 (ErrorCount s + 1) |> in
    if errorType =s MachineErrorTypeRestart
    then s <| RestartCount := int32 (RestartCount s + 1) |> else s) machine.

Definition markOperational (machine : Machine) : Machine :=
  with_status (fun s => s <| OperationalStatus := MachineOperationalStatusOK |>
    <| ErrorType := "" |> <| ErrorMessage := "" |>) machine.

Definition conditionObservedGenerationStale (cond : option Condition) (generation : Z) : bool :=
  match cond with
  | None => false
  | Some c => negb (cd_ObservedGeneration c =? generation)%Z
  end.

Definition isEmptyDeployPayload (claim : option MachineClaim) : bool :=
  match claim with
  | None => true
  | Some c => bool_decide (cl_ImageRef (claim_Spec c) = None) &&
              Nat.eqb (length (slice (cl_DataImages (claim_Spec c)))) 0
  end.

Definition nameRefEqual (a b : option NameRef) : bool :=
  match a, b with
  | None, None => true
  | Some a, Some b => (nr_Name a =s nr_Name b) && (nr_Namespace a =s nr_Namespace b)
  | _, _ => false
  end.

(** [reflect.DeepEqual] tells a nil slice from an empty one. *)
Definition intentSubsetEqual (claim : MachineClaim) (lastRun : DeployRun) (hooksHash : string) : bool :=
  nameRefEqual (cl_ImageRef (claim_Spec claim)) (run_ImageRef (run_Spec lastRun)) &&
  bool_decide (cl_DataImages (claim_Spec claim) = run_DataImages (run_Spec lastRun)) &&
  (hooksHash =s run_HooksHash (run_Spec lastRun)).

Definition shouldProvision (claim : option MachineClaim) (lastRun : option DeployRun)
    (hooksHash : string) : bool :=
  if isEmptyDeployPayload claim then false else
  match lastRun, claim with
  | None, _ => true
  | Some r, Some c => negb (intentSubsetEqual c r hooksHash)
  | Some _, None => false
  end.

Definition claimUnresolved (machine : Machine) (claim : option MachineClaim) : bool :=
  bool_decide (ClaimRef (Spec machine) <> None) && bool_decide (claim = None).

(** The zero [MachineClaimReference] stands for a dereferenced nil; the
    callers have checked [claimUnresolved]. *)
Definition claimUnresolvedMessage (machine : Machine) : string :=
  let ref := default (mkClaimReference "" "" "") (ClaimRef (Spec machine)) in
  sprintf "claimRef names MachineClaim %s/%s (uid %s), which does not exist or was recreated with a different uid"
    [cr_Namespace ref; cr_Name ref; cr_UID ref].

Definition secret_ref_eqb (a b : option SecretReference) : bool :=
  match a, b with
  | None, None => true
  | Some a, Some b => sr_Name a =s sr_Name b
  | _, _ => false
  end.

Definition credentialsStatusEqual (a b : MachineCredentialsStatus) : bool :=
  if cs_ResourceVersion a <>s cs_ResourceVersion b then false
  else secret_ref_eqb (cs_SecretRef a) (cs_SecretRef b).

(** [errors.As] against the plan builder's error types. *)
Definition classifyPlanBuildError (err : GoErr) : bool * bool :=
  match ekind err with
  | KNotReady => (true, false)
  | KDiskSelection | KValidation => (false, true)
  | _ => (false, false)
  end.

(** The finalizer multiset comparison of the update predicate. *)
Definition count_string (f : string) (l : list string) : Z :=
  Z.of_nat (count_occ String.string_dec l f).

Definition finalizerSetsEqual (a b : list string) : bool :=
  if negb (Nat.eqb (length a) (length b)) then false else
  forallb (fun f => (count_string f a - count_string f b =? 0)%Z) (a ++ b).

Definition mapClaimToMachine (claim : MachineClaim) : list ObjectKey :=
  if cst_MachineName (claim_Status claim) =s "" then []
  else [mkKey (Namespace claim) (cst_MachineName (claim_Status claim))].

(** ** The reconciler *)

Definition fail (e : GoErr) : reply := (noRequeue, Some e).
Definition done_ (r : ctrlResult) : reply := (r, None).

Section Reconciler.
Context `{ApiMachinery} (hasBuilder : bool).
Context (json_reboot : string -> string -> string + GoErr).

(** [parseRebootAnnotation]; the arguments struct is its [Mode]. *)
Definition parseRebootAnnotation (value : string) : string + GoErr :=
  if value =s "" then inl MachineRebootModeSoft
  else json_reboot MachineRebootModeSoft value.

Definition reboot_step (acc : bool * bool) (kv : string * string) : bool * bool :=
  let '(requested, hard) := acc in
  if negb (isRebootAnnotationKey kv.1) then (requested, hard) else
  match parseRebootAnnotation kv.2 with
  | inr _ => (true, hard)
  | inl mode => (true, if mode =s MachineRebootModeHard then true else hard)
  end.

(** The loop over the annotation map. *)
Definition rebootRequested (machine : Machine) : bool * bool :=
  fold_left reboot_step (map_to_list (Annotations machine)) (false, false).

Definition statusLossHeld (machine : Machine) : bool :=
  IsStatusConditionTrue (Conditions (Status machine)) MachineConditionStatusLossHold.

Definition retryHeld (machine : Machine) : bool :=
  IsStatusConditionTrue (Conditions (Status machine)) MachineConditionRetryHeld.

Definition stampLastUpdated (machine : Machine) : go Machine :=
  now <- Now ;; Ret (with_status (fun s => s <| LastUpdated := Some now |>) machine).

Definition set_condition (c : Condition) (machine : Machine) : Machine :=
  with_status (fun s => s <| Conditions := SetStatusCondition (Conditions s) c |>) machine.
Definition remove_condition (t : string) (machine : Machine) : Machine :=
  with_status (fun s => s <| Conditions := RemoveStatusCondition (Conditions s) t |>) machine.

(** The callbacks run on the object the patch answered. *)
Fixpoint run_callbacks (cbs : list (Machine -> go unit)) (machine : Machine) : go unit :=
  match cbs with
  | [] => Ret tt
  | cb :: cbs => cb machine ;; run_callbacks cbs machine
  end.

Definition applyMachineStatus (machine : Machine) (onSuccess : list (Machine -> go unit))
  : go (Machine + GoErr) :=
  r <- StatusApply KMachine machine ;;
  match r with
  | inr err => Ret (inr err)
  | inl m => run_callbacks onSuccess m ;; Ret (inl m)
  end.

(** A status write that ends a reconcile: stamp, apply, answer. *)
Definition apply_and_return (machine : Machine) (onSuccess : list (Machine -> go unit))
    (fmt : string) (args : list string) (result : go ctrlResult) : go reply :=
  r <- applyMachineStatus machine onSuccess ;;
  match r with
  | inr err => Ret (fail (wrapf fmt args err))
  | inl _ => res <- result ;; Ret (done_ res)
  end.

Definition resetCounts (machine : Machine) : Machine :=
  with_status (fun s => s <| ErrorCount := 0%Z |> <| RestartCount := 0%Z |>) machine.

Definition setState (machine : Machine) (state : string) (onSuccess : list (Machine -> go unit))
  : go reply :=
  let machine := with_status (fun s => s <| State := state |>) machine in
  let machine := resetCounts (markOperational machine) in
  let machine := remove_condition MachineConditionStatusLossHold machine in
  let machine := remove_condition MachineConditionRetryHeld machine in
  machine <- stampLastUpdated machine ;;
  apply_and_return machine onSuccess "machine %q: setting status.state to %q: %w"
    [Name machine; state] (Ret requeue).

Definition markDelayed (machine : Machine) (after : Z) : go reply :=
  let machine := with_status (fun s => s <| OperationalStatus := MachineOperationalStatusDelayed |>) machine in
  machine <- stampLastUpdated machine ;;
  apply_and_return machine [] "machine %q: recording delayed status: %w" [Name machine]
    (d <- jitter after ;; Ret (requeueAfter d)).

Definition markDelayedNotReady (machine : Machine) (reason message : string) : go reply :=
  markDelayed (set_condition (mkCondition MachineConditionProgressing ConditionFalse
    (Generation machine) reason message) machine) delayedRequeueInterval.

Definition recordDelayed (machine : Machine) : go reply := markDelayed machine delayedRequeueInterval.

Definition clearRetryStatus (machine : Machine) (restarting : bool) (result : ctrlResult) : go reply :=
  let os := OperationalStatus (Status machine) in
  if (os =s MachineOperationalStatusDelayed) ||
     (restarting && (os =s MachineOperationalStatusError))
  then
    machine <- stampLastUpdated (markOperational machine) ;;
    apply_and_return machine [] "machine %q: clearing retry status: %w" [Name machine] (Ret result)
  else Ret (done_ result).

Definition holdForRetry (machine : Machine) : go reply :=
  let st := Status machine in
  let machine := set_condition (mkCondition MachineConditionRetryHeld ConditionTrue 0 "BootRetryExhausted"
    (sprintf "%d consecutive restart failures in state %q: %s; set the %q annotation to clear and retry"
      [show_dec (RestartCount st); State st; ErrorMessage st; MachineAnnotationClearError])) machine in
  apply_and_return machine
    [fun m : Machine => Event (Name m) EventTypeWarning "BootRetryExhausted"
      (sprintf "%d consecutive restart failures in state %q: holding until the %q annotation is set"
        [show_dec (RestartCount (Status m)); State (Status m); MachineAnnotationClearError])]
    "machine %q: entering retry hold: %w" [Name machine] (Ret noRequeue).

Definition recordFailure (machine : Machine) (result : Result) : go reply :=
  machine <- stampLastUpdated (applyFailure machine (res_ErrorType result) (res_ErrorMessage result)) ;;
  if (res_ErrorType result =s MachineErrorTypeRestart) &&
     (maxRestartFailures <=? RestartCount (Status machine))%Z
  then holdForRetry machine
  else apply_and_return machine [] "machine %q: recording deployer failure: %w" [Name machine]
    (Ret (requeueAfter failedRequeueInterval)).

Definition recordCurrentRunDeleted (machine : Machine) : go reply :=
  match CurrentRunRef (Status machine) with
  | None => panic "recordCurrentRunDeleted: nil currentRunRef"
  | Some ref =>
    recordFailure (with_status (fun s => s <| CurrentRunRef := @None NameRef |>) machine)
      (failed MachineErrorTypeRestart
        (sprintf "current DeployRun %q no longer exists" [nr_Name ref]))
  end.

Definition busy_requeue (result : Result) : go Z :=
  d <- jitter defaultBusyRequeueInterval ;;
  Ret (if (0 <? res_RequeueAfter result)%Z then res_RequeueAfter result else d).

Definition applyNonCompleteOutcome (machine : Machine) (result : Result) (restarting : bool) : go reply :=
  match res_Outcome result with
  | Continuing => d <- jitter continuingRequeueInterval ;; clearRetryStatus machine restarting (requeueAfter d)
  | Busy => d <- busy_requeue result ;; clearRetryStatus machine restarting (requeueAfter d)
  | Delayed => recordDelayed machine
  | Failed => recordFailure machine result
  | o => Ret (fail (errorf "machine %q: deployer step returned unrecognized outcome %v"
               [Name machine; outcome_string o]))
  end.

(** *** Claim intent *)

Definition resolveClaimIntent (machine : Machine) : go (option MachineClaim + GoErr) :=
  match ClaimRef (Spec machine) with
  | None => Ret (inl None)
  | Some ref =>
    r <- Get KClaim (mkKey (cr_Namespace ref) (cr_Name ref)) ;;
    match r with
    | inr err => Ret (if IsNotFound err then inl None else inr err)
    | inl claim =>
      Ret (inl (if UID (claim : MachineClaim) <>s cr_UID ref then None else Some claim))
    end
  end.

(** *** Status loss *)

Definition hasPriorDeployRuns (machine : Machine) : go (bool + GoErr) :=
  r <- List_ KRun (Namespace machine) ;;
  match r with
  | inr err => Ret (inr (wrapf "machine %q: listing DeployRuns for status-loss detection: %w"
                 [Name machine] err))
  | inl runs => Ret (inl (existsb (fun run : DeployRun =>
                 nr_Name (run_MachineRef (run_Spec run)) =s Name machine) runs))
  end.

Definition enterStatusLossHold (machine : Machine) : go reply :=
  let machine := set_condition (mkCondition MachineConditionStatusLossHold ConditionTrue 0
    "PriorDeployRunsFound"
    (String.append "status was never recorded but spec carries deploy intent and DeployRuns already exist for this machine; holding until "
      (String.append MachineAnnotationConfirmStatusLoss " is set"))) machine in
  machine <- stampLastUpdated machine ;;
  apply_and_return machine
    [fun m : Machine => Event (Name m) EventTypeWarning "StatusLossHold"
      (sprintf "status was never recorded but spec carries deploy intent and DeployRuns already exist for this machine; holding until the %q annotation is set"
        [MachineAnnotationConfirmStatusLoss])]
    "machine %q: entering status-loss hold: %w" [Name machine] (Ret noRequeue).

(** The merge patch that removes one annotation. *)
Definition patch_annotation (key : string) (machine : Machine) (fmt : string) : go (Machine + GoErr) :=
  r <- Patch KMachine machine (drop_annotation key machine) ;;
  match r with
  | inr err => Ret (inr (wrapf fmt [Name machine] err))
  | inl m => Ret (inl (m : Machine))
  end.

Definition consumeConfirmStatusLossAnnotation (machine : Machine) : go (Machine + GoErr) :=
  patch_annotation MachineAnnotationConfirmStatusLoss machine
    "machine %q: consuming confirm-status-loss annotation: %w".

Definition reconcileStatusLossHold (machine : Machine) : go reply :=
  if negb (has_annotation MachineAnnotationConfirmStatusLoss machine) then Ret (done_ noRequeue) else
  r <- consumeConfirmStatusLossAnnotation machine ;;
  match r with
  | inr err => Ret (fail err)
  | inl machine =>
    setState machine MachineStateEnrolling
      [fun m : Machine => Event (Name m) EventTypeNormal "StatusLossHoldCleared"
        "confirm-status-loss annotation accepted: resuming the normal state walk from Enrolling"]
  end.

Definition reconcileEmptyStatus (machine : Machine) : go reply :=
  if statusLossHeld machine then reconcileStatusLossHold machine else
  if bool_decide (LastUpdated (Status machine) = None) then
    r <- resolveClaimIntent machine ;;
    match r with
    | inr err => Ret (fail err)
    | inl claim =>
      if isEmptyDeployPayload claim then setState machine MachineStateEnrolling [] else
      r <- hasPriorDeployRuns machine ;;
      match r with
      | inr err => Ret (fail err)
      | inl true => enterStatusLossHold machine
      | inl false => setState machine MachineStateEnrolling []
      end
    end
  else setState machine MachineStateEnrolling [].

(** *** The clear-error annotation *)

Definition consumeClearErrorAnnotation (machine : Machine) : go (Machine + GoErr) :=
  patch_annotation MachineAnnotationClearError machine
    "machine %q: consuming clear-error annotation: %w".

Definition reconcileClearError (machine : Machine) : go reply :=
  r <- consumeClearErrorAnnotation machine ;;
  match r with
  | inr err => Ret (fail err)
  | inl machine =>
    let machine := resetCounts (markOperational machine) in
    let machine := remove_condition MachineConditionRetryHeld machine in
    machine <- stampLastUpdated machine ;;
    apply_and_return machine
      [fun m : Machine => Event (Name m) EventTypeNormal "ErrorCleared"
        "clear-error annotation accepted: error and retry counters reset, resuming the state walk"]
      "machine %q: clearing error: %w" [Name machine] (Ret requeue)
  end.

(** *** BMC credentials *)

Definition claimCredentialsSecret (machine : Machine) (secret : Secret) : go (Secret + GoErr) :=
  let labelled := default "" (Labels secret !! MachineCredentialsSecretLabel) =s annotationValueTrue in
  let meta1 :=
    if labelled then secret_meta secret
    else (secret_meta secret) <| Labels := <[MachineCredentialsSecretLabel := annotationValueTrue]> (Labels secret) |> in
  match HasOwnerReference (OwnerReferences meta1) machine with
  | inr err => Ret (inr (wrapf "machine %q: checking BMC credentials secret %q owner reference: %w"
                 [Name machine; Name secret] err))
  | inl hasOwner =>
    match (if hasOwner then inl (OwnerReferences meta1) else SetOwnerReference (OwnerReferences meta1) machine) with
    | inr err => Ret (inr (wrapf "machine %q: setting BMC credentials secret %q owner reference: %w"
                   [Name machine; Name secret] err))
    | inl owners =>
      let '(fs, added) := AddFinalizer (Finalizers meta1) MachineCredentialsSecretFinalizer in
      let secret' := secret <| secret_meta := meta1 <| OwnerReferences := owners |> <| Finalizers := fs |> |> in
      if negb (negb labelled || negb hasOwner || added) then Ret (inl secret') else
      r <- Patch KSecret secret secret' ;;
      match r with
      | inr err => Ret (inr (wrapf "machine %q: claiming BMC credentials secret %q: %w"
                     [Name machine; Name secret] err))
      | inl s => Ret (inl (s : Secret))
      end
    end
  end.

(** [inl]: the secret, claimed; [inr]: blocked, with the reply to give. *)
Definition resolveCredentialsSecret (machine : Machine) : go (Secret + reply) :=
  let name := sr_Name (bmc_CredentialsSecretRef (BMC (Spec machine))) in
  if name =s "" then Ret (inr (done_ noRequeue)) else
  r <- Get KSecret (mkKey (Namespace machine) name) ;;
  match r with
  | inr err =>
    if negb (IsNotFound err)
    then Ret (inr (fail (wrapf "machine %q: getting BMC credentials secret %q: %w" [Name machine; name] err)))
    else res <- markDelayed machine credentialsSecretAbsentRequeueInterval ;; Ret (inr res)
  | inl secret =>
    r <- claimCredentialsSecret machine secret ;;
    match r with
    | inr err => Ret (inr (fail err))
    | inl secret => Ret (inl secret)
    end
  end.

Definition releaseCredentialsSecretFinalizer (machine : Machine) : go (option GoErr) :=
  let name := sr_Name (bmc_CredentialsSecretRef (BMC (Spec machine))) in
  if name =s "" then Ret None else
  r <- Get KSecret (mkKey (Namespace machine) name) ;;
  match r with
  | inr err =>
    Ret (if IsNotFound err then None
         else Some (wrapf "machine %q: getting BMC credentials secret %q for finalizer release: %w"
                [Name machine; name] err))
  | inl secret =>
    let '(fs, removed) := RemoveFinalizer (Finalizers (secret : Secret)) MachineCredentialsSecretFinalizer in
    if negb removed then Ret None else
    r <- Update KSecret ((secret : Secret) <| secret_meta := (secret_meta secret) <| Finalizers := fs |> |>) ;;
    match r with
    | inr err => Ret (Some (wrapf "machine %q: releasing BMC credentials secret %q finalizer: %w"
                   [Name machine; name] err))
    | inl _ => Ret None
    end
  end.

Definition noCredentials : MachineCredentialsStatus := mkCredentialsStatus None "".

Definition recordTriedCredentials (machine : Machine) (secret : Secret) : go (Machine + GoErr) :=
  let observed := mkCredentialsStatus (Some (mkSecretReference (Name secret))) (ResourceVersion secret) in
  let st := Status machine in
  let goodStale := bool_decide (cs_SecretRef (GoodCredentials st) <> None) &&
    negb (credentialsStatusEqual (GoodCredentials st) observed) in
  if credentialsStatusEqual (TriedCredentials st) observed && negb goodStale then Ret (inl machine) else
  let base := machine in
  let machine := with_status (fun s => s <| TriedCredentials := observed |>) machine in
  let machine := if goodStale then with_status (fun s => s <| GoodCredentials := noCredentials |>) machine
                 else machine in
  machine <- stampLastUpdated machine ;;
  r <- StatusPatch KMachine base machine ;;
  match r with
  | inr err => Ret (inr (wrapf "machine %q: recording tried BMC credentials: %w" [Name machine] err))
  | inl m => Ret (inl (m : Machine))
  end.

Definition recordGoodCredentials (machine : Machine) : go (Machine + GoErr) :=
  let st := Status machine in
  if bool_decide (cs_SecretRef (TriedCredentials st) = None) then Ret (inl machine) else
  if credentialsStatusEqual (GoodCredentials st) (TriedCredentials st) then Ret (inl machine) else
  machine <- stampLastUpdated (with_status (fun s => s <| GoodCredentials := TriedCredentials s |>) machine) ;;
  r <- applyMachineStatus machine [] ;;
  match r with
  | inr err => Ret (inr (wrapf "machine %q: recording good BMC credentials: %w" [Name machine] err))
  | inl m => Ret (inl m)
  end.

(** *** Inspection *)

(** The part Inspecting and Provisioning share: resolve and record the
    credentials, call the deployer, record good credentials unless it failed;
    [k] goes on with the object and the result. *)
Definition deployer_attempt (machine : Machine) (step : Machine -> bool -> deployer_call)
    (k : Machine -> Result -> bool -> go reply) : go reply :=
  r <- resolveCredentialsSecret machine ;;
  match r with
  | inr res => Ret res
  | inl secret =>
    r <- recordTriedCredentials machine secret ;;
    match r with
    | inr err => Ret (fail err)
    | inl machine =>
      let restarting := restartOnFailure machine in
      '(machine, r) <- Deploy (step machine restarting) ;;
      match r with
      | inr err => Ret (fail err)
      | inl result =>
        if bool_decide (res_Outcome result = Failed) then k machine result restarting else
        r <- recordGoodCredentials machine ;;
        match r with
        | inr err => Ret (fail err)
        | inl machine => k machine result restarting
        end
      end
    end
  end.

Definition reconcileInspecting (machine : Machine) : go reply :=
  if inspectDisabled machine then setState machine MachineStateAvailable [] else
  deployer_attempt machine DInspect (fun machine result restarting =>
    if bool_decide (res_Outcome result = Complete)
    then setState machine MachineStateAvailable []
    else applyNonCompleteOutcome machine result restarting).

Definition reInspectAcceptable (machine : Machine) : go (bool + GoErr) :=
  let state := State (Status machine) in
  if state =s MachineStateAvailable then Ret (inl true) else
  if state =s MachineStateProvisioned then
    r <- resolveClaimIntent machine ;;
    match r with
    | inr err => Ret (inr err)
    | inl claim => Ret (inl (isEmptyDeployPayload claim))
    end
  else if state =s MachineStateReleased then Ret (inl true)
  else Ret (inl false).

Definition consumeReInspectAnnotation (machine : Machine) : go (Machine + GoErr) :=
  patch_annotation MachineAnnotationReInspect machine "machine %q: consuming re-inspect annotation: %w".

Definition deleteMachineHardware (machine : Machine) : go (option GoErr) :=
  r <- Delete KHardware (mkKey (Namespace machine) (Name machine)) ;;
  match r with
  | None => Ret None
  | Some err =>
    Ret (if IsNotFound err then None
         else Some (wrapf "machine %q: deleting MachineHardware for re-inspection: %w" [Name machine] err))
  end.

Definition reconcileReInspect (machine : Machine) : go reply :=
  r <- reInspectAcceptable machine ;;
  match r with
  | inr err => Ret (fail err)
  | inl accepted =>
    r <- consumeReInspectAnnotation machine ;;
    match r with
    | inr err => Ret (fail err)
    | inl machine =>
      if negb accepted then
        Event (Name machine) EventTypeWarning "ReInspectRefused"
          (sprintf "re-inspect annotation refused: machine is in state %q; re-inspect is accepted in %q, or in %q with an empty deploy payload"
            [State (Status machine); MachineStateAvailable; MachineStateProvisioned]) ;;
        Ret (done_ noRequeue)
      else
        r <- deleteMachineHardware machine ;;
        match r with
        | Some err => Ret (fail err)
        | None =>
          setState machine MachineStateInspecting
            [fun m : Machine => Event (Name m) EventTypeNormal "ReInspectAccepted"
              "re-inspect annotation accepted: MachineHardware deleted, machine moving to Inspecting"]
        end
    end
  end.

(** *** Provisioning *)

Definition getRun (machine : Machine) (ref : NameRef) : go (DeployRun + GoErr) :=
  let ns := if nr_Namespace ref =s "" then Namespace machine else nr_Namespace ref in
  Get KRun (mkKey ns (nr_Name ref)).

Definition lastSuccessfulRun (machine : Machine) : go (option DeployRun + GoErr) :=
  match LastSuccessfulRunRef (Status machine) with
  | None => Ret (inl None)
  | Some ref =>
    r <- getRun machine ref ;;
    match r with
    | inr err => Ret (if IsNotFound err then inl None else inr err)
    | inl run => Ret (inl (Some run))
    end
  end.

(** [inl None]: ready; [inl (Some (reason, message))]: not ready. *)
Definition imageReadyForProvisioning (claim : option MachineClaim)
  : go (option (string * string) + GoErr) :=
  match claim with
  | None => Ret (inl None)
  | Some claim =>
    match cl_ImageRef (claim_Spec claim) with
    | None => Ret (inl None)
    | Some ref =>
      let namespace := if nr_Namespace ref =s "" then Namespace claim else nr_Namespace ref in
      r <- Get KImage (mkKey namespace (nr_Name ref)) ;;
      match r with
      | inr err =>
        if IsNotFound err
        then Ret (inl (Some ("ImageNotFound", sprintf "Image %q not found" [nr_Name ref])))
        else Ret (inr (wrapf "machineclaim %q: getting Image %q: %w" [Name claim; nr_Name ref] err))
      | inl image =>
        match FindStatusCondition (image_Conditions image) ImageConditionReady with
        | None => Ret (inl (Some ("ImageNotReady",
            sprintf "Image %q has no Ready condition yet" [nr_Name ref])))
        | Some cond =>
          if conditionObservedGenerationStale (Some cond) (Generation (image : Image))
          then Ret (inl (Some ("ImageStatusStale",
            sprintf "Image %q status has not caught up to its current generation" [nr_Name ref])))
          else if cd_Status cond <>s ConditionTrue
          then Ret (inl (Some ("ImageNotReady",
            sprintf "Image %q is not Ready (%s)" [nr_Name ref; cd_Reason cond])))
          else Ret (inl None)
        end
      end
    end
  end.

(** The reply to a plan that does not build. *)
Definition plan_build_error (machine : Machine) (err : GoErr) (fmt : string) : go reply :=
  match classifyPlanBuildError err with
  | (true, _) => markDelayedNotReady machine "PlanNotReady" (emsg err)
  | (false, true) => recordFailure machine (failed MachineErrorTypeTransient (emsg err))
  | (false, false) => Ret (fail (wrapf fmt [Name machine] err))
  end.

(** [inl]: the hash, go on; [inr]: the reply to give. *)
Definition currentHooksHash (machine : Machine) (claim : option MachineClaim) : go (string + reply) :=
  if negb hasBuilder then Ret (inl "") else
  r <- call (R := resp) (EBuildSnapshot machine claim) ;;
  match r with
  | inl snapshot => Ret (inl (snap_HooksHash snapshot))
  | inr buildErr =>
    res <- plan_build_error machine buildErr "machine %q: resolving deploy plan snapshot: %w" ;;
    Ret (inr res)
  end.

(** [append([]T(nil), s...)] is nil when [s] is empty. *)
Definition copy_slice {A} (s : option (list A)) : option (list A) :=
  match slice s with [] => None | l => Some l end.

Definition emptyMeta : ObjectMeta := mkObjectMeta "" "" "" "" 0 0 None [] ∅ ∅ [].

(** The name is left to the server, which answers the object under the name it
    made from [GenerateName]. *)
Definition new_run (machine : Machine) (claim : MachineClaim) : DeployRun :=
  mkRun (emptyMeta <| GenerateName := String.append (Name machine) "-" |> <| Namespace := Namespace machine |>)
    (mkRunSpec (mkNameRef "" (Name machine)) (ClaimRef (Spec machine))
      (cl_ImageRef (claim_Spec claim)) (copy_slice (cl_DataImages (claim_Spec claim))) [] "")
    (mkRunStatus "" [] [] None []).

Definition ApplySnapshot (run : DeployRun) (snap : Snapshot) : DeployRun :=
  run <| run_Spec := (run_Spec run) <| run_ResolvedDisks := snap_ResolvedDisks snap |>
                                    <| run_HooksHash := snap_HooksHash snap |> |>.

Definition createDeployRun (machine : Machine) (claim : option MachineClaim) : go (DeployRun + GoErr) :=
  match claim with
  | None => panic "createDeployRun: nil claim"
  | Some c =>
    let run := new_run machine c in
    r <- (if hasBuilder then
            r <- Build machine claim run ;;
            match r with
            | inr err => Ret (inr err)
            | inl (_, snapshot) => Ret (inl (ApplySnapshot run snapshot))
            end
          else Ret (inl run)) ;;
    match r with
    | inr err => Ret (inr err)
    | inl run =>
      match SetControllerReference (OwnerReferences (run : DeployRun)) machine with
      | inr err => Ret (inr (wrapf "setting owner reference: %w" [] err))
      | inl owners =>
        Create KRun (run <| run_meta := (run_meta run) <| OwnerReferences := owners |> |>)
      end
    end
  end.

Definition startProvisioningRun (machine : Machine) (claim : option MachineClaim) : go reply :=
  r <- createDeployRun machine claim ;;
  match r with
  | inr err => plan_build_error machine err "machine %q: creating DeployRun: %w"
  | inl run =>
    let machine := with_status (fun s => s <| State := MachineStateProvisioning |>
      <| CurrentRunRef := Some (mkNameRef "" (Name run)) |>) machine in
    machine <- stampLastUpdated (resetCounts (markOperational machine)) ;;
    apply_and_return machine [] "machine %q: setting status.state to Provisioning: %w" [Name machine]
      (Ret requeue)
  end.

Definition reconcileIdle (machine : Machine) : go reply :=
  r <- lastSuccessfulRun machine ;;
  match r with
  | inr err => Ret (fail (wrapf "machine %q: reading last successful DeployRun: %w" [Name machine] err))
  | inl lastRun =>
    r <- resolveClaimIntent machine ;;
    match r with
    | inr err => Ret (fail (wrapf "machine %q: resolving MachineClaim: %w" [Name machine] err))
    | inl claim =>
      if claimUnresolved machine claim
      then markDelayedNotReady machine "ClaimUnresolved" (claimUnresolvedMessage machine) else
      if isEmptyDeployPayload claim then Ret (done_ noRequeue) else
      r <- imageReadyForProvisioning claim ;;
      match r with
      | inr err => Ret (fail err)
      | inl (Some (reason, message)) => markDelayedNotReady machine reason message
      | inl None =>
        r <- currentHooksHash machine claim ;;
        match r with
        | inr res => Ret res
        | inl hooksHash =>
          if negb (shouldProvision claim lastRun hooksHash) then Ret (done_ noRequeue)
          else startProvisioningRun (remove_condition MachineConditionProgressing machine) claim
        end
      end
    end
  end.

Definition reconcileProvisioning (machine : Machine) : go reply :=
  match CurrentRunRef (Status machine) with
  | None =>
    r <- resolveClaimIntent machine ;;
    match r with
    | inr err => Ret (fail (wrapf "machine %q: resolving MachineClaim: %w" [Name machine] err))
    | inl claim =>
      if claimUnresolved machine claim
      then markDelayedNotReady machine "ClaimUnresolved" (claimUnresolvedMessage machine)
      else startProvisioningRun machine claim
    end
  | Some ref =>
    r <- getRun machine ref ;;
    match r with
    | inr err =>
      if IsNotFound err then recordCurrentRunDeleted machine
      else Ret (fail (wrapf "machine %q: getting DeployRun %q: %w" [Name machine; nr_Name ref] err))
    | inl run =>
      deployer_attempt machine (fun m restarting => DProvision m run restarting)
        (fun machine result restarting =>
          let attempted := Some (mkNameRef "" (Name run)) in
          if bool_decide (res_Outcome result <> Complete) then
            let machine :=
              if bool_decide (res_Outcome result = Failed)
              then with_status (fun s => s <| LastAttemptedRunRef := attempted |>) machine
              else machine in
            applyNonCompleteOutcome machine result restarting
          else
            let machine := with_status (fun s => s <| State := MachineStateProvisioned |>
              <| LastSuccessfulRunRef := attempted |> <| LastAttemptedRunRef := attempted |>) machine in
            machine <- stampLastUpdated (resetCounts (markOperational machine)) ;;
            apply_and_return machine [] "machine %q: setting status.state to Provisioned: %w" [Name machine]
              (Ret requeue))
    end
  end.

(** *** Detached and reboot *)

Definition reconcileDetached (machine : Machine) : go reply :=
  if OperationalStatus (Status machine) =s MachineOperationalStatusDetached then Ret (done_ noRequeue) else
  machine <- stampLastUpdated
    (with_status (fun s => s <| OperationalStatus := MachineOperationalStatusDetached |>) machine) ;;
  apply_and_return machine [] "machine %q: recording detached status: %w" [Name machine] (Ret noRequeue).

Definition clearDetached (machine : Machine) : go reply :=
  machine <- stampLastUpdated (markOperational machine) ;;
  apply_and_return machine [] "machine %q: clearing detached status: %w" [Name machine] (Ret requeue).

Definition clearSuffixlessRebootAnnotation (machine : Machine) : go (option GoErr) :=
  if negb (has_annotation MachineAnnotationRebootPrefix machine) then Ret None else
  r <- patch_annotation MachineAnnotationRebootPrefix machine
         "machine %q: clearing suffixless reboot annotation: %w" ;;
  match r with inr err => Ret (Some err) | inl _ => Ret None end.

Definition reconcileReboot (machine : Machine) (hard : bool) : go reply :=
  '(machine, r) <- Deploy (DReboot machine hard) ;;
  match r with
  | inr err => Ret (fail err)
  | inl result =>
    if bool_decide (res_Outcome result <> Complete)
    then applyNonCompleteOutcome machine result false else
    r <- clearSuffixlessRebootAnnotation machine ;;
    match r with
    | Some err => Ret (fail err)
    | None => Ret (done_ noRequeue)
    end
  end.

(** *** The forward walk *)

Definition onChange (machine : Machine) : go reply :=
  if isDetached machine then reconcileDetached machine else
  if OperationalStatus (Status machine) =s MachineOperationalStatusDetached then clearDetached machine else
  let '(requested, hard) := rebootRequested machine in
  if requested then reconcileReboot machine hard else
  if reInspectRequested machine then reconcileReInspect machine else
  if clearErrorRequested machine then reconcileClearError machine else
  if retryHeld machine then Ret (done_ noRequeue) else
  if hasUnknownErrorType machine then
    setState (with_status (fun s => s <| CurrentRunRef := @None NameRef |>) machine) MachineStateEnrolling [] else
  let state := State (Status machine) in
  if bool_decide (ClaimRef (Spec machine) = None) && releaseEligible state then
    setState (with_status (fun s => s <| CurrentRunRef := @None NameRef |>) machine) MachineStateReleased
      [fun m : Machine => Event (Name m) EventTypeNormal "MachineReleased"
        "claimRef is gone: moving to Released with the disk left as it is"]
  else
  if state =s "" then reconcileEmptyStatus machine else
  if state =s MachineStateEnrolling then setState machine MachineStateInspecting [] else
  if state =s MachineStateInspecting then reconcileInspecting machine else
  if (state =s MachineStateAvailable) || (state =s MachineStateProvisioned) then reconcileIdle machine else
  if state =s MachineStateProvisioning then reconcileProvisioning machine else
  Ret (fail (errorf "machine %q: unknown status.state %q" [Name machine; state])).

(** *** The delete walk *)

Definition releaseMachine (machine : Machine) : go reply :=
  r <- releaseCredentialsSecretFinalizer machine ;;
  match r with
  | Some err => Ret (fail err)
  | None =>
    let '(fs, _) := RemoveFinalizer (Finalizers machine) MachineFinalizer in
    r <- Update KMachine (machine <| machine_meta := (machine_meta machine) <| Finalizers := fs |> |>) ;;
    match r with
    | inr err => Ret (fail err)
    | inl _ => Ret (done_ noRequeue)
    end
  end.

Definition advanceDeleteStage (machine : Machine) (nextState : string) : go reply :=
  if nextState =s "" then releaseMachine machine else
  let machine := markOperational (with_status (fun s => s <| State := nextState |>) machine) in
  machine <- stampLastUpdated (with_status (fun s => s <| ErrorCount := 0%Z |>) machine) ;;
  apply_and_return machine [] "machine %q: advancing delete walk to %q: %w" [Name machine; nextState]
    (Ret requeue).

Definition giveUpMetric : string := "kezio_machine_delete_stage_giveups_total".

Definition recordDeleteStageFailure (machine : Machine) (result : Result) (stageName nextState : string)
  : go reply :=
  let machine := applyFailure machine (res_ErrorType result) (res_ErrorMessage result) in
  let giveUp := (deleteStageMaxErrorCount <? ErrorCount (Status machine))%Z in
  machine <- stampLastUpdated machine ;;
  r <- applyMachineStatus machine (if giveUp then [fun _ => Metric giveUpMetric stageName] else []) ;;
  match r with
  | inr err => Ret (fail (wrapf "machine %q: recording delete stage %q failure: %w"
                 [Name machine; stageName] err))
  | inl machine =>
    if negb giveUp then Ret (done_ (requeueAfter failedRequeueInterval))
    else advanceDeleteStage machine nextState
  end.

Definition runDeleteStage (machine : Machine) (step : deployer_call) (stageName nextState : string)
  : go reply :=
  '(machine, r) <- Deploy step ;;
  match r with
  | inr err => Ret (fail err)
  | inl result =>
    match res_Outcome result with
    | Complete => advanceDeleteStage machine nextState
    | Continuing => d <- jitter continuingRequeueInterval ;; clearRetryStatus machine false (requeueAfter d)
    | Busy => d <- busy_requeue result ;; clearRetryStatus machine false (requeueAfter d)
    | Delayed => markDelayed machine delayedRequeueInterval
    | Failed => recordDeleteStageFailure machine result stageName nextState
    | Unspecified => Ret (fail (errorf "machine %q: delete stage %q returned unrecognized outcome %v"
                       [Name machine; stageName; outcome_string Unspecified]))
    end
  end.

Definition reconcileDeprovisioning (machine : Machine) : go reply :=
  if isDetached machine then advanceDeleteStage machine MachineStatePoweringOff else
  runDeleteStage machine (DDeprovision machine (restartOnFailure machine)) "deprovision"
    MachineStatePoweringOff.

Definition reconcilePoweringOff (machine : Machine) : go reply :=
  if isDetached machine then advanceDeleteStage machine "" else
  runDeleteStage machine (DPowerOff machine) "power-off" "".

Definition onDelete (machine : Machine) : go reply :=
  if negb (ContainsFinalizer (Finalizers machine) MachineFinalizer) then Ret (done_ noRequeue) else
  let state := State (Status machine) in
  if state =s MachineStateDeprovisioning then reconcileDeprovisioning machine else
  if state =s MachineStatePoweringOff then reconcilePoweringOff machine else
  advanceDeleteStage machine MachineStateDeprovisioning.

(** [DeletionTimestamp.IsZero] holds of a nil pointer and of the zero time. *)
Definition deleting (machine : Machine) : bool :=
  match DeletionTimestamp machine with None => false | Some t => negb (t =? 0)%Z end.

Definition Reconcile (req : ObjectKey) : go reply :=
  r <- Get KMachine req ;;
  match r with
  | inr err => Ret (noRequeue, IgnoreNotFound err)
  | inl machine =>
    let machine : Machine := machine in
    if isPaused machine then Ret (done_ noRequeue) else
    if deleting machine then onDelete machine else
    if negb (ContainsFinalizer (Finalizers machine) MachineFinalizer) then
      let '(fs, _) := AddFinalizer (Finalizers machine) MachineFinalizer in
      r <- Update KMachine (machine <| machine_meta := (machine_meta machine) <| Finalizers := fs |> |>) ;;
      match r with
      | inr err => Ret (fail err)
      | inl _ => Ret (done_ requeue)
      end
    else onChange machine
  end.

End Reconciler.
