(* ===== verification/MachineSafety.v ===== *)
(** * MachineSafety: what a reconcile never does

    Theorems about every run of [Machine.Reconcile], whatever the API server,
    the deployer and the clock answer: the paused and detached gates, the retry
    hold, the absence of nil dereferences and the end of a reconcile at its
    first failed write. *)

From S2P Require Import Prelude Api Effects Cluster Machine.
Local Open Scope string_scope.
Local Open Scope list_scope.
Local Open Scope nat_scope.

(** The Machine a [Get] answered. *)
Definition machine_answer (x : event resp) : option (Machine + GoErr) :=
  match x with
  | existT e r =>
    match e return resp e -> option (Machine + GoErr) with
    | EGet KMachine _ => fun r => Some r
    | _ => fun _ => None
    end r
  end.

Section Safety.
Context `{ApiMachinery} (hasBuilder : bool).
Context (json_reboot : string -> string -> string + GoErr).

Abbreviation Reconcile := (Machine.Reconcile hasBuilder json_reboot).
Abbreviation onChange := (Machine.onChange hasBuilder json_reboot).

(** ** Runs that start from a given Machine *)

(** What [Reconcile] does once it has read the Machine. *)
Definition reconcile_read (m : Machine) : go reply :=
  if isPaused m then Ret (done_ noRequeue) else
  if deleting m then onDelete m else
  if negb (ContainsFinalizer (Finalizers m) MachineFinalizer) then
    let '(fs, _) := AddFinalizer (Finalizers m) MachineFinalizer in
    r <- Update KMachine (m <| machine_meta := (machine_meta m) <| Finalizers := fs |> |>) ;;
    match r with
    | inr err => Ret (fail err)
    | inl _ => Ret (done_ requeue)
    end
  else onChange m.

Lemma Reconcile_read key m tr res :
  runs (Reconcile key) (ev (EGet KMachine key) (inl m : resp (EGet KMachine key)) :: tr) res ->
  runs (reconcile_read m) tr res.
Proof.
  intros (r & tr' & Heq & Hr). pose proof (f_equal (@tl _) Heq) as Htl. cbn in Htl. subst tr'.
  apply (f_equal (fun l => hd_error l ≫= machine_answer)) in Heq. cbn in Heq. by injection Heq as <-.
Qed.

(** ** Gates *)

Definition no_deployer_call (e : eff) : Prop := is_deployer_call e = false.

Lemma detached_quiet m : isDetached m = true -> calls no_deployer_call (reconcile_read m).
Proof.
  intros Hd. unfold reconcile_read, onDelete, Machine.onChange, reconcileDeprovisioning,
    reconcilePoweringOff. rewrite Hd. repeat calls_step.
Qed.

Definition no_panic (e : eff) : Prop := match e with EPanic _ => False | _ => True end.

Lemma run_callbacks_calls P cbs m :
  Forall (fun cb : Machine -> go unit => forall m, calls P (cb m)) cbs -> calls P (run_callbacks cbs m).
Proof. induction 1 as [|cb cbs Hcb _ IH]; [done|]. by apply calls_bind. Qed.

Lemma recordCurrentRunDeleted_no_panic m :
  CurrentRunRef (Status m) <> None -> calls no_panic (recordCurrentRunDeleted m).
Proof.
  intros Hr. unfold recordCurrentRunDeleted. destruct (CurrentRunRef (Status m)); [|done].
  repeat calls_step.
Qed.

Lemma startProvisioningRun_no_panic m claim :
  claim <> None -> calls no_panic (startProvisioningRun hasBuilder m claim).
Proof.
  intros Hc. destruct claim as [c|]; [|done]. repeat calls_step.
Qed.

Lemma reconcileProvisioning_no_panic m :
  ClaimRef (Spec m) <> None -> calls no_panic (reconcileProvisioning hasBuilder m).
Proof.
  intros Href. unfold reconcileProvisioning. destruct (CurrentRunRef (Status m)) as [ref|] eqn:Hrun.
  - apply calls_bind; [repeat calls_step|]. intros [run|err].
    + repeat calls_step.
    + destruct (IsNotFound err); [|repeat calls_step].
      apply recordCurrentRunDeleted_no_panic. by rewrite Hrun.
  - apply calls_bind; [repeat calls_step|]. intros [claim|err]; [|repeat calls_step].
    destruct (claimUnresolved m claim) eqn:Hu; [repeat calls_step|].
    apply startProvisioningRun_no_panic. intros ->. unfold claimUnresolved in Hu.
    rewrite !bool_decide_true in Hu by done. done.
Qed.

Lemma reconcileIdle_no_panic m : calls no_panic (reconcileIdle hasBuilder m).
Proof.
  unfold reconcileIdle. apply calls_bind; [repeat calls_step|]. intros [lastRun|err]; [|repeat calls_step].
  apply calls_bind; [repeat calls_step|]. intros [claim|err]; [|repeat calls_step].
  destruct (claimUnresolved m claim); [repeat calls_step|].
  destruct (isEmptyDeployPayload claim) eqn:He; [repeat calls_step|].
  apply calls_bind; [repeat calls_step|]. intros [[[]|]|err]; [repeat calls_step| |repeat calls_step].
  apply calls_bind; [repeat calls_step|]. intros [h|res]; [|repeat calls_step].
  destruct (negb _); [repeat calls_step|]. apply startProvisioningRun_no_panic. by intros ->.
Qed.

Lemma reconcile_no_panic m : calls no_panic (reconcile_read m).
Proof.
  unfold reconcile_read, Machine.onChange.
  repeat lazymatch goal with
  | |- calls _ (reconcileIdle _ _) => apply reconcileIdle_no_panic
  | |- calls _ (reconcileProvisioning _ _) => apply reconcileProvisioning_no_panic
  | |- calls _ _ => calls_step
  end.
  intros Hnone. rewrite Hnone in *. crush_ctx.
  match goal with E : State (Status m) = _, G : _ && _ = false |- _ => by rewrite E in G end.
Qed.

(** ** Failed writes *)

(** The write was refused; [Create] and [Delete] have handled errors of their own. *)
Definition write_refused (e : eff) : resp e -> bool :=
  match e return resp e -> bool with
  | EUpdate _ _ | EPatch _ _ _ | EStatusUpdate _ _ | EStatusPatch _ _ _ | EStatusApply _ _ =>
    fun r => match r with inl _ => false | inr _ => true end
  | _ => fun _ => false
  end.

Definition refusal : monitor resp bool :=
  mkMonitor (fun refused _ => refused = false) (fun _ _ _ => True)
    (fun refused e r => refused || write_refused e r).

(** How each kind of result reports a refused write. *)
Definition told {A} (r : A + GoErr) (refused : bool) : Prop := refused = true -> exists err, r = inr err.
Definition told_opt (r : option GoErr) (refused : bool) : Prop := refused = true -> r <> None.
Definition told_reply (r : reply) (refused : bool) : Prop := refused = true -> r.2 <> None.
Definition told_block {A} (r : A + reply) (refused : bool) : Prop :=
  refused = true -> exists rep, r = inr rep /\ rep.2 <> None.


(** Uses a lemma for the function in front, or steps into its text. *)
Ltac refuse :=
  repeat first
    [ solve [eauto 1 with kezio]
    | eapply wp_mono; [solve [eauto 1 with kezio]|];
      let s' := fresh "s" in let H := fresh "H" in
      intros ? s' H; destruct s'; [specialize (H eq_refl); crush_ctx | clear H]
    | wp_step | done | by intros ?; eauto | by intros ?; simplify_eq/= ].

Lemma markDelayed_refusal m d : wp refusal (markDelayed m d) false told_reply.
Proof. refuse. Qed.
Lemma setState_refusal m st cbs :
  Forall (fun cb : Machine -> go unit => forall m', exists o t r msg, cb m' = Event o t r msg) cbs ->
  wp refusal (setState m st cbs) false told_reply.
Proof.
  intros Hcbs. unfold setState, apply_and_return, applyMachineStatus.
  refuse. induction Hcbs as [|cb cbs Hcb _ IH]; [by refuse|]. cbn [run_callbacks].
  destruct (Hcb o) as (? & ? & ? & ? & ->). refuse.
Qed.
#[local] Hint Resolve markDelayed_refusal : kezio.
#[local] Hint Extern 1 (wp refusal (setState _ _ _) _ _) =>
  apply setState_refusal; repeat constructor; intros; eexists _, _, _, _; reflexivity : kezio.

Lemma clearRetryStatus_refusal m b r : wp refusal (clearRetryStatus m b r) false told_reply.
Proof. refuse. Qed.
Lemma recordFailure_refusal m r : wp refusal (recordFailure m r) false told_reply.
Proof. refuse. Qed.
#[local] Hint Resolve clearRetryStatus_refusal recordFailure_refusal : kezio.

Lemma applyNonCompleteOutcome_refusal m r b : wp refusal (applyNonCompleteOutcome m r b) false told_reply.
Proof. refuse. Qed.
Lemma resolveCredentialsSecret_refusal m : wp refusal (resolveCredentialsSecret m) false told_block.
Proof. refuse. Qed.
Lemma recordTriedCredentials_refusal m s : wp refusal (recordTriedCredentials m s) false told.
Proof. refuse. Qed.
Lemma recordGoodCredentials_refusal m : wp refusal (recordGoodCredentials m) false told.
Proof. refuse. Qed.
Lemma patch_annotation_refusal k m f : wp refusal (patch_annotation k m f) false told.
Proof. refuse. Qed.
#[local] Hint Resolve applyNonCompleteOutcome_refusal resolveCredentialsSecret_refusal
  recordTriedCredentials_refusal recordGoodCredentials_refusal patch_annotation_refusal : kezio.

Lemma deployer_attempt_refusal m step k :
  (forall m r b, wp refusal (k m r b) false told_reply) ->
  wp refusal (deployer_attempt m step k) false told_reply.
Proof. intros Hk. refuse. Qed.

Lemma plan_build_error_refusal m e f : wp refusal (plan_build_error m e f) false told_reply.
Proof. unfold plan_build_error, markDelayedNotReady. refuse. Qed.
Lemma advanceDeleteStage_refusal m st : wp refusal (advanceDeleteStage m st) false told_reply.
Proof. refuse. Qed.
#[local] Hint Resolve deployer_attempt_refusal plan_build_error_refusal advanceDeleteStage_refusal : kezio.

Lemma startProvisioningRun_refusal m c : wp refusal (startProvisioningRun hasBuilder m c) false told_reply.
Proof. refuse. Qed.
Lemma runDeleteStage_refusal m s n st : wp refusal (runDeleteStage m s n st) false told_reply.
Proof. refuse. Qed.
#[local] Hint Resolve startProvisioningRun_refusal runDeleteStage_refusal : kezio.

Lemma onDelete_refusal m : wp refusal (onDelete m) false told_reply.
Proof. refuse. Qed.
Lemma reconcileIdle_refusal m : wp refusal (reconcileIdle hasBuilder m) false told_reply.
Proof. refuse. Qed.
Lemma reconcileProvisioning_refusal m : wp refusal (reconcileProvisioning hasBuilder m) false told_reply.
Proof.
  unfold reconcileProvisioning. refuse.
Qed.
Lemma reconcileInspecting_refusal m : wp refusal (reconcileInspecting m) false told_reply.
Proof. unfold reconcileInspecting. refuse. Qed.
#[local] Hint Resolve onDelete_refusal reconcileIdle_refusal reconcileProvisioning_refusal
  reconcileInspecting_refusal : kezio.
Lemma reconcile_refusal m : wp refusal (reconcile_read m) false told_reply.
Proof. refuse. Qed.

Lemma Reconcile_refusal key : wp refusal (Reconcile key) false told_reply.
Proof.
  split; [done|]. intros [m|err] _; [apply reconcile_refusal|]. intros Hr. done.
Qed.

(** A monitor whose state is set once no more calls follow. *)
Lemma refusal_last tr1 e r tr2 s :
  obeys refusal s (tr1 ++ existT e r :: tr2) -> write_refused e r = true ->
  tr2 = [] /\ final refusal s (tr1 ++ existT e r :: tr2) = true.
Proof.
  revert s. induction tr1 as [|[e' r'] tr1 IH]; intros s; cbn [app obeys final].
  - intros [_ H1] Hr. specialize (H1 I). cbn [step refusal] in *. rewrite Hr, orb_true_r in *.
    destruct tr2 as [|[e2 r2] tr2]; [done|]. destruct H1 as [H1 _]. done.
  - intros [_ H1] Hr. eapply IH; [|done]. exact (H1 I).
Qed.

(** ** Theorems *)

(** The paused annotation is absolute: a reconcile of a paused Machine,
    deletion timestamp or not, makes no call after reading it, changes nothing
    and does not requeue. *)
Theorem paused_is_absolute key m tr res
    (Hrun : runs (Reconcile key) (ev (EGet KMachine key) (inl m : resp (EGet KMachine key)) :: tr) res)
    (Hp : isPaused m = true) :
  tr = [] /\ res = done_ noRequeue.
Proof. apply Reconcile_read in Hrun. unfold reconcile_read in Hrun. by rewrite Hp in Hrun. Qed.

(** A detached Machine never reaches the deployer: no run of a reconcile of
    it, on the forward walk or on the delete walk, calls Inspect, Provision,
    Deprovision, PowerOff or Reboot. *)
Theorem detached_never_deploys key m tr res
    (Hrun : runs (Reconcile key) (ev (EGet KMachine key) (inl m : resp (EGet KMachine key)) :: tr) res)
    (Hd : isDetached m = true) :
  Forall (fun x => is_deployer_call (projT1 x) = false) tr.
Proof. apply Reconcile_read in Hrun. exact (calls_runs no_deployer_call _ _ _ (detached_quiet m Hd) Hrun). Qed.

(** While the retry hold is on and nobody asks for a reboot, a re-inspection
    or the error to be cleared, a reconcile of a live Machine is inert: it
    makes no call after the read and does not requeue, so the machine is never
    power-cycled again until an operator edits it. *)
Theorem retry_hold_is_inert key m tr res
    (Hrun : runs (Reconcile key) (ev (EGet KMachine key) (inl m : resp (EGet KMachine key)) :: tr) res)
    (Hheld : retryHeld m = true)
    (Hlive : deleting m = false /\ ContainsFinalizer (Finalizers m) MachineFinalizer = true)
    (Hatt : isDetached m = false /\ OperationalStatus (Status m) <> MachineOperationalStatusDetached)
    (Hask : (rebootRequested json_reboot m).1 = false /\ reInspectRequested m = false
            /\ clearErrorRequested m = false) :
  tr = [] /\ res = done_ noRequeue.
Proof.
  apply Reconcile_read in Hrun. destruct Hlive as [Hl Hf], Hatt as [Ha Ho], Hask as (Hb & Hi & Hc).
  unfold reconcile_read, Machine.onChange in Hrun.
  apply String.eqb_neq in Ho. rewrite Hl, Hf, Ha, Ho, Hi, Hc, Hheld in Hrun.
  destruct (rebootRequested json_reboot m). cbn in Hb. subst. cbn [negb] in Hrun.
  destruct (isPaused m); exact Hrun.
Qed.

(** No nil pointer is dereferenced on any path of a reconcile, whatever the
    cluster answers: the run of a vanished claim or DeployRun never reaches
    [createDeployRun] or [recordCurrentRunDeleted] with a nil argument. *)
Theorem Reconcile_never_panics key : calls no_panic (Reconcile key).
Proof. apply calls_vis; [done|]. intros [m|err]; [apply reconcile_no_panic|done]. Qed.

(** C35. A refused write ends the reconcile: once an update, patch or status
    write is answered with an error no further call is made (so no event or
    metric reports a state that was not stored, and no deployer step follows)
    and the error is returned for the retry. *)
Theorem refused_write_ends_reconcile key tr1 e r tr2 res
    (Hrun : runs (Reconcile key) (tr1 ++ existT e r :: tr2) res)
    (Href : write_refused e r = true) :
  tr2 = [] /\ res.2 <> None.
Proof.
  pose proof (Reconcile_refusal key) as Hwp.
  destruct (refusal_last tr1 e r tr2 false) as [-> Hf]; [by eapply wp_obeys|done|].
  split; [done|]. pose proof (wp_final _ _ _ _ _ _ Hwp Hrun) as Hq. rewrite Hf in Hq.
  apply Hq; [|done]. clear. generalize (tr1 ++ [existT e r]) false.
  intros l. induction l as [|[e' r'] l IH]; intros b; cbn; [done|]. auto.
Qed.

(** A Machine that reached [Released] is stuck: with no annotation to act
    on, every reconcile of it answers the unknown-state error and makes no
    call, so controller-runtime retries it with backoff forever. *)
Theorem released_machine_errors key m tr res
    (Hrun : runs (Reconcile key) (ev (EGet KMachine key) (inl m : resp (EGet KMachine key)) :: tr) res)
    (Hst : State (Status m) = MachineStateReleased /\ OperationalStatus (Status m) = MachineOperationalStatusOK)
    (Hlive : deleting m = false /\ ContainsFinalizer (Finalizers m) MachineFinalizer = true)
    (Hann : Annotations m = ∅) (Hheld : retryHeld m = false) :
  tr = [] /\ exists err, res = fail err.
Proof.
  apply Reconcile_read in Hrun. destruct Hst as [Hs Ho], Hlive as [Hl Hf].
  unfold reconcile_read, Machine.onChange, isPaused, isDetached, reInspectRequested, clearErrorRequested,
    rebootRequested, has_annotation, hasUnknownErrorType in Hrun.
  rewrite Hann, Hl, Hf, Hs, Ho, Hheld, !lookup_empty in Hrun.
  rewrite map_to_list_empty, bool_decide_false in Hrun by (by intros [? ?]).
  cbn in Hrun. rewrite andb_false_r in Hrun. destruct Hrun as [-> ->]. split; [done|by eexists].
Qed.

End Safety.

(** ** Witnesses *)

#[local] Existing Instances SimpleMeta.ops SimpleMeta.laws.

Lemma Reconcile_runs `{ApiMachinery} hasBuilder json_reboot key m tr res :
  runs (reconcile_read hasBuilder json_reboot m) tr res ->
  runs (Machine.Reconcile hasBuilder json_reboot key)
    (ev (EGet KMachine key) (inl m : resp (EGet KMachine key)) :: tr) res.
Proof. intros Hr. by apply runs_vis. Qed.

(** Replays a reconcile of [m] in the demo cluster. *)
Abbreviation demo result m :=
  (exec (Demo.handler (Demo.world_of result)) (reconcile_read true Demo.no_json m) tt).

Ltac replay :=
  apply Reconcile_runs;
  eapply (exec_runs (Demo.handler (Demo.world_of (outcome Complete))) _ tt _ tt); vm_compute; reflexivity.

Definition paused_machine : Machine :=
  Demo.machine {[MachineAnnotationPaused := ""]} (Demo.status MachineStateProvisioning).

Lemma paused_is_absolute_witness :
  demo (outcome Complete) paused_machine = Some (done_ noRequeue, tt, []) /\
  (@nil (event resp) = [] /\ done_ noRequeue = done_ noRequeue).
Proof.
  split; [vm_compute; reflexivity|].
  apply (paused_is_absolute true Demo.no_json Demo.key paused_machine); [replay|vm_compute; reflexivity].
Defined.

Definition detached_machine : Machine :=
  Demo.machine {[MachineAnnotationDetached := ""]} (Demo.status MachineStateProvisioning).

Lemma detached_never_deploys_witness :
  exists res tr, demo (outcome Complete) detached_machine = Some (res, tt, tr) /\ length tr = 2 /\
    Forall (fun x => is_deployer_call (projT1 x) = false) tr.
Proof.
  eexists _, _. split; [vm_compute; reflexivity|]. split; [reflexivity|].
  eapply (detached_never_deploys true Demo.no_json Demo.key detached_machine);
    [replay|vm_compute; reflexivity].
Defined.

Definition held_machine : Machine :=
  Demo.machine ∅ ((Demo.status MachineStateProvisioning)
    <| OperationalStatus := MachineOperationalStatusError |> <| ErrorType := MachineErrorTypeRestart |>
    <| RestartCount := 3%Z |>
    <| Conditions := [mkCondition MachineConditionRetryHeld ConditionTrue 0 "BootRetryExhausted" ""] |>).

Lemma retry_hold_is_inert_witness :
  demo (outcome Complete) held_machine = Some (done_ noRequeue, tt, []) /\
  (@nil (event resp) = [] /\ done_ noRequeue = done_ noRequeue).
Proof.
  split; [vm_compute; reflexivity|].
  eapply (retry_hold_is_inert true Demo.no_json Demo.key held_machine);
    [replay|vm_compute; reflexivity|vm_compute; split; reflexivity| |vm_compute; repeat split].
  split; [vm_compute; reflexivity|]. vm_compute. discriminate.
Defined.

(** A server that refuses every status write. *)
Definition refusing (e : eff) (s : unit) : option (resp e * unit) :=
  match e return option (resp e * unit) with
  | EStatusApply _ _ => Some (inr (mkErr KConflict "conflict"), s)
  | e => Demo.handler (Demo.world_of (outcome Complete)) e s
  end.

Lemma refused_write_ends_reconcile_witness :
  exists res tr1 o err,
    exec refusing (reconcile_read true Demo.no_json detached_machine) tt =
      Some (res, tt, tr1 ++ [ev (EStatusApply KMachine o) (inr err : resp (EStatusApply KMachine o))])
    /\ res.2 <> None.
Proof.
  eexists _, [_], _, _. split; [vm_compute; reflexivity|].
  eapply (refused_write_ends_reconcile true Demo.no_json Demo.key [_; _] (EStatusApply KMachine _)).
  - apply (Reconcile_runs _ _ _ detached_machine).
    eapply (exec_runs refusing _ tt _ tt). vm_compute. reflexivity.
  - reflexivity.
Defined.

Definition released_machine : Machine := Demo.machine ∅ (Demo.status MachineStateReleased).

Lemma released_machine_errors_witness :
  exists err, demo (outcome Complete) released_machine = Some (fail err, tt, []) /\
    (@nil (event resp) = [] /\ exists err', fail err = fail err').
Proof.
  eexists. split; [vm_compute; reflexivity|].
  eapply (released_machine_errors true Demo.no_json Demo.key released_machine);
    [replay|split; vm_compute; reflexivity|split; vm_compute; reflexivity|vm_compute; reflexivity
    |vm_compute; reflexivity].
Defined.
