(* ===== verification/MachineWalk.v ===== *)
(** * MachineWalk: the state machine of [status.state]

    The abstract machine of a Machine's life is the relation [walk_edge]; the
    monitor [walk] watches the statuses a reconcile sends and allows only
    those that keep the state or follow an edge whose evidence is at hand (a
    completed deployer call, an annotation, a missing claim).
    [Reconcile_follows_walk] is the refinement: every reconcile is one step of
    the abstract machine at most.

    The assumption on the environment is [keeps_state]: nobody else writes
    [status.state] (the code's own single-writer discipline), so the object an
    accepted write or the deployer hands back has the state it was sent with. *)

From S2P Require Import Prelude Api Effects Cluster Machine MachineSafety.
Local Open Scope string_scope.
Local Open Scope list_scope.
Local Open Scope nat_scope.

(** ** The abstract machine *)

(** The deployer call that completed last in this reconcile. *)
Definition completed (c : deployer_call) (r : Machine * (Result + GoErr)) : bool :=
  match r.2 with inl res => bool_decide (res_Outcome res = Complete) | inr _ => false end.

(** [walk_edge m c from s']: with [m] read at the start and [c] completed, the
    status may move from state [from] to [s']. *)
Inductive walk_edge (m : Machine) (c : option deployer_call) : string -> MachineStatus -> Prop :=
| edge_first s' : deleting m = false -> State s' = MachineStateEnrolling ->
    walk_edge m c "" s'
| edge_unknown_error from s' : deleting m = false -> hasUnknownErrorType m = true ->
    State s' = MachineStateEnrolling -> CurrentRunRef s' = None -> walk_edge m c from s'
| edge_enrolled s' : deleting m = false -> State s' = MachineStateInspecting ->
    walk_edge m c MachineStateEnrolling s'
| edge_inspected s' : deleting m = false -> State s' = MachineStateAvailable ->
    inspectDisabled m = true \/ (exists m0 b, c = Some (DInspect m0 b)) ->
    walk_edge m c MachineStateInspecting s'
| edge_triggered from s' : deleting m = false ->
    from = MachineStateAvailable \/ from = MachineStateProvisioned ->
    State s' = MachineStateProvisioning -> CurrentRunRef s' <> None -> walk_edge m c from s'
| edge_provisioned s' m0 run b : deleting m = false -> State s' = MachineStateProvisioned ->
    c = Some (DProvision m0 run b) -> LastSuccessfulRunRef s' = Some (mkNameRef "" (Name run)) ->
    walk_edge m c MachineStateProvisioning s'
| edge_released from s' : deleting m = false -> ClaimRef (Spec m) = None ->
    from = MachineStateProvisioning \/ from = MachineStateProvisioned ->
    State s' = MachineStateReleased -> CurrentRunRef s' = None -> walk_edge m c from s'
| edge_reinspect from s' : deleting m = false -> reInspectRequested m = true ->
    from = MachineStateAvailable \/ from = MachineStateProvisioned \/ from = MachineStateReleased ->
    State s' = MachineStateInspecting -> walk_edge m c from s'
| edge_deprovision from s' : deleting m = true ->
    from <> MachineStateDeprovisioning -> from <> MachineStatePoweringOff ->
    State s' = MachineStateDeprovisioning -> walk_edge m c from s'
| edge_poweroff s' : deleting m = true -> State s' = MachineStatePoweringOff ->
    walk_edge m c MachineStateDeprovisioning s'.

(** ** The monitor *)

Record walking := mkWalking { at_state : string; moved : bool; last_complete : option deployer_call }.

Definition walk_allowed (m : Machine) (w : walking) (e : eff) : Prop :=
  match sent_status e with
  | None => True
  | Some s' => moved w = false /\
      (State s' = at_state w \/ walk_edge m (last_complete w) (at_state w) s')
  end.

(** The state a Machine carries; nothing for the other kinds. *)
Definition obj_state (k : kind) : obj k -> option string :=
  match k return obj k -> option string with
  | KMachine => fun m => Some (State (Status m))
  | _ => fun _ => None
  end.

Definition same_state (k : kind) (o : obj k) (r : obj k + GoErr) : Prop :=
  match r with inl o' => obj_state k o' = obj_state k o | inr _ => True end.

Definition keeps_state (e : eff) : resp e -> Prop :=
  match e return resp e -> Prop with
  | EStatusApply k o => same_state k o
  | EStatusUpdate k o => same_state k o
  | EStatusPatch k _ o => same_state k o
  | EPatch k _ o => same_state k o
  | EDeployer c => fun r => State (Status r.1) = State (Status (call_machine c))
  | _ => fun _ => True
  end.

Definition move_to (w : walking) (st : option string) : walking :=
  match st with
  | None => w
  | Some st => if st =s at_state w then w else mkWalking st true (last_complete w)
  end.

Definition walk_step (w : walking) (e : eff) : resp e -> walking :=
  match e return resp e -> walking with
  | EStatusApply k o => fun _ => move_to w (obj_state k o)
  | EStatusUpdate k o => fun _ => move_to w (obj_state k o)
  | EStatusPatch k _ o => fun _ => move_to w (obj_state k o)
  | EDeployer c => fun r =>
    mkWalking (at_state w) (moved w) (if completed c r then Some c else last_complete w)
  | _ => fun _ => w
  end.

Definition walk (m : Machine) : monitor resp walking :=
  mkMonitor (walk_allowed m) (fun _ => keeps_state) walk_step.

Section Walk.
Context `{ApiMachinery} (hasBuilder : bool).
Context (json_reboot : string -> string -> string + GoErr).
Context (m0 : Machine).

(** The monitor before any move. *)
Abbreviation here c := (mkWalking (State (Status m0)) false c).
Abbreviation any := (fun _ _ => True).

(** Programs that send no status are of no interest to the monitor. *)
Definition sends_none (e : eff) : Prop := sent_status e = None.

Lemma sends_none_walk {A} (p : go A) w : calls sends_none p -> wp (walk m0) p w any.
Proof.
  revert w. induction p as [a|e k IH]; intros w; [done|]. intros [He Hk]. split.
  - cbn. unfold walk_allowed. by rewrite He.
  - intros r _. apply IH. exact (Hk r I).
Qed.

(** The status write that ends a reconcile. *)
Lemma apply_walk m cbs fmt args res w :
  walk_allowed m0 w (EStatusApply KMachine m) ->
  (forall m', calls sends_none (run_callbacks cbs m')) -> calls sends_none res ->
  wp (walk m0) (apply_and_return m cbs fmt args res) w any.
Proof.
  intros Hw Hcbs Hres. unfold apply_and_return, applyMachineStatus, StatusApply, call. cbn [bind].
  split; [done|]. intros [m'|err] _; [|done]. apply sends_none_walk. cbn [bind].
  repeat first [apply Hcbs | apply Hres | calls_step].
Qed.

Lemma apply_keeps m cbs fmt args res c :
  State (Status m) = State (Status m0) ->
  (forall m', calls sends_none (run_callbacks cbs m')) -> calls sends_none res ->
  wp (walk m0) (apply_and_return m cbs fmt args res) (here c) any.
Proof. intros Hst. apply apply_walk. split; [done|]. by left. Qed.

Lemma apply_moves m cbs fmt args res c :
  walk_edge m0 c (State (Status m0)) (Status m) ->
  (forall m', calls sends_none (run_callbacks cbs m')) -> calls sends_none res ->
  wp (walk m0) (apply_and_return m cbs fmt args res) (here c) any.
Proof. intros He. apply apply_walk. split; [done|]. by right. Qed.

Ltac none := intros; repeat calls_step.
Ltac stamp := unfold stampLastUpdated, Now, call; cbn [bind]; split; [done|];
  let now := fresh "now" in intros now _.

(** ** Writes that keep the state *)

Lemma setState_walk m st cbs c :
  (forall now, walk_edge m0 c (State (Status m0))
    (Status (with_status (fun s => s <| LastUpdated := Some now |>)
      (remove_condition MachineConditionRetryHeld (remove_condition MachineConditionStatusLossHold
        (resetCounts (markOperational (with_status (fun s => s <| State := st |>) m)))))))) ->
  (forall m', calls sends_none (run_callbacks cbs m')) ->
  wp (walk m0) (setState m st cbs) (here c) any.
Proof. intros He Hcbs. unfold setState. stamp. apply apply_moves; [apply He|done|none]. Qed.

Lemma markDelayed_walk m d c :
  State (Status m) = State (Status m0) -> wp (walk m0) (markDelayed m d) (here c) any.
Proof. intros Hst. unfold markDelayed. stamp. apply apply_keeps; [done|none|none]. Qed.

Lemma clearRetryStatus_walk m b r c :
  State (Status m) = State (Status m0) -> wp (walk m0) (clearRetryStatus m b r) (here c) any.
Proof.
  intros Hst. unfold clearRetryStatus. destruct (_ || _); [|done].
  stamp. apply apply_keeps; [done|none|none].
Qed.

Lemma applyFailure_state m t msg : State (Status (applyFailure m t msg)) = State (Status m).
Proof. unfold applyFailure. cbn. by destruct (t =s _). Qed.

Lemma recordFailure_walk m r c :
  State (Status m) = State (Status m0) -> wp (walk m0) (recordFailure m r) (here c) any.
Proof.
  intros Hst. unfold recordFailure, holdForRetry. stamp. cbv beta zeta.
  destruct (_ && _); (apply apply_keeps; [|none|none]);
    exact (eq_trans (applyFailure_state m (res_ErrorType r) (res_ErrorMessage r)) Hst).
Qed.

Lemma applyNonCompleteOutcome_walk m r b c :
  State (Status m) = State (Status m0) -> wp (walk m0) (applyNonCompleteOutcome m r b) (here c) any.
Proof.
  intros Hst. unfold applyNonCompleteOutcome.
  destruct (res_Outcome r); try done.
  - split; [done|]. intros ? _. by apply clearRetryStatus_walk.
  - split; [done|]. intros ? _. by apply clearRetryStatus_walk.
  - by apply recordFailure_walk.
  - by apply markDelayed_walk.
Qed.

(** ** Reads, credentials and annotations *)

(** The post-condition of the steps that hand the object on. *)
Abbreviation handed c := (fun r w =>
  w = here c /\ forall m' : Machine, r = inl m' -> State (Status m') = State (Status m0)).

Lemma sends_none_here {A} (p : go A) c :
  calls (fun e => sends_none e /\ is_deployer_call e = false) p -> wp (walk m0) p (here c) (fun _ w => w = here c).
Proof.
  induction p as [a|e k IH]; [done|]. intros [[He Hd] Hk]. split.
  - cbn. unfold walk_allowed. by rewrite He.
  - intros r _. assert (Hs : step (walk m0) (here c) e r = here c).
    { clear -He Hd. unfold sends_none in He. destruct e; try done; destruct k; done. }
    rewrite Hs. apply IH. exact (Hk r I).
Qed.

Lemma patch_annotation_walk key m fmt c :
  State (Status m) = State (Status m0) ->
  wp (walk m0) (patch_annotation key m fmt) (here c) (handed c).
Proof.
  intros Hst. unfold patch_annotation, Patch, call. cbn [bind]. split; [done|].
  intros [m'|err] Hk; cbn in Hk |- *; (split; [done|]); [|done].
  intros ? [= <-]. cbn in Hk. congruence.
Qed.

Lemma recordTriedCredentials_walk m secret c :
  State (Status m) = State (Status m0) ->
  wp (walk m0) (recordTriedCredentials m secret) (here c) (handed c).
Proof.
  intros Hst. unfold recordTriedCredentials. cbv zeta. destruct (_ && negb _) eqn:?.
  { split; [done|]. by intros ? [= <-]. }
  stamp. unfold StatusPatch, call. cbn [bind].
  assert (Hs : forall g : bool, State (Status (if g
    then with_status (fun s => s <| GoodCredentials := noCredentials |>)
      (with_status (fun s => s <| TriedCredentials := mkCredentialsStatus
        (Some (mkSecretReference (Name secret))) (ResourceVersion secret) |>) m)
    else with_status (fun s => s <| TriedCredentials := mkCredentialsStatus
        (Some (mkSecretReference (Name secret))) (ResourceVersion secret) |>) m)) = State (Status m0))
    by by intros [].
  split.
  - split; [done|]. left. apply Hs.
  - intros r Hk. cbn in Hk. cbn [step walk walk_step move_to obj_state].
    cbn -[String.eqb] in *. rewrite Hs, String.eqb_refl. destruct r as [m'|err]; (split; [done|]); [|done].
    intros ? [= <-]. cbn in Hk. rewrite Hs in Hk. congruence.
Qed.

(** A status write in the middle of a reconcile. *)
Lemma applyMachineStatus_walk m c cbs :
  State (Status m) = State (Status m0) ->
  (forall m' c, wp (walk m0) (run_callbacks cbs m') (here c) (fun _ w => w = here c)) ->
  wp (walk m0) (applyMachineStatus m cbs) (here c) (handed c).
Proof.
  intros Hst Hcbs. unfold applyMachineStatus, StatusApply, call. cbn [bind]. split.
  { split; [done|]. by left. }
  assert (Hs : forall r, step (walk m0) (here c) (EStatusApply KMachine m) r = here c).
  { intros r. cbn -[String.eqb]. by rewrite Hst, String.eqb_refl. }
  intros r Hk. rewrite Hs. destruct r as [m'|err]; [|done]. cbn in Hk.
  eapply wp_seq; [apply Hcbs|]. intros [] w ->. split; [done|]. intros ? [= <-]. congruence.
Qed.

Lemma recordGoodCredentials_walk m c :
  State (Status m) = State (Status m0) -> wp (walk m0) (recordGoodCredentials m) (here c) (handed c).
Proof.
  intros Hst. unfold recordGoodCredentials. cbv zeta.
  destruct (bool_decide _). { split; [done|]. by intros ? [= <-]. }
  destruct (credentialsStatusEqual _ _). { split; [done|]. by intros ? [= <-]. }
  stamp. eapply wp_seq; [apply applyMachineStatus_walk; done|].
  intros [m'|err] w [-> Hm]; (split; [done|]); [|done]. intros ? [= <-]. auto.
Qed.

Lemma resolveCredentialsSecret_walk m c :
  State (Status m) = State (Status m0) ->
  wp (walk m0) (resolveCredentialsSecret m) (here c)
    (fun r w => match r with inl _ => w = here c | inr _ => True end).
Proof.
  intros Hst. unfold resolveCredentialsSecret. cbv zeta. destruct (_ =s ""); [done|].
  apply wp_bind. split; [done|]. intros [secret|err] _; cbn [wp].
  - eapply wp_seq; [apply sends_none_here; repeat first [done | calls_step]|].
    intros [s|e] w ->; done.
  - destruct (negb _); [done|]. eapply wp_seq; [by apply markDelayed_walk|]. done.
Qed.

Lemma deployer_attempt_walk m call k :
  State (Status m) = State (Status m0) ->
  (forall m b, call_machine (call m b) = m) ->
  (forall m' m1 r b, State (Status m') = State (Status m0) ->
    wp (walk m0) (k m' r b)
      (here (if bool_decide (res_Outcome r = Complete) then Some (call m1 b) else None)) any) ->
  wp (walk m0) (deployer_attempt m call k) (here None) any.
Proof.
  intros Hst Hcall Hk. unfold deployer_attempt.
  eapply wp_seq; [by apply resolveCredentialsSecret_walk|]. intros [secret|rep] w; [|done]. intros ->.
  eapply wp_seq; [by apply recordTriedCredentials_walk|]. intros [m1|err] w [-> Hm1]; [|done].
  specialize (Hm1 m1 eq_refl). cbv zeta. unfold Deploy, Effects.call. cbn [bind].
  split; [done|]. intros [m2 [res|err]] Ha; [|done]. cbn in Ha. rewrite Hcall in Ha.
  assert (Hm2 : State (Status m2) = State (Status m0)) by congruence.
  change (step _ _ _ _) with
    (here (if completed (call m1 (restartOnFailure m1)) (m2, inl res)
           then Some (call m1 (restartOnFailure m1)) else None)).
  unfold completed. cbn [snd]. destruct (bool_decide (res_Outcome res = Failed)); [by apply Hk|].
  eapply wp_seq; [by apply recordGoodCredentials_walk|]. intros [m3|err] w [-> Hm3]; [|done]. auto.
Qed.

(** ** The forward walk *)

Lemma plan_build_error_walk m err fmt c :
  State (Status m) = State (Status m0) -> wp (walk m0) (plan_build_error m err fmt) (here c) any.
Proof.
  intros Hst. unfold plan_build_error. destruct (classifyPlanBuildError err) as [[] []]; try done.
  - by apply markDelayed_walk.
  - by apply markDelayed_walk.
  - by apply recordFailure_walk.
Qed.

Lemma startProvisioningRun_walk m claim c :
  deleting m0 = false -> State (Status m) = State (Status m0) ->
  State (Status m0) = MachineStateAvailable \/ State (Status m0) = MachineStateProvisioned
    \/ State (Status m0) = MachineStateProvisioning ->
  wp (walk m0) (startProvisioningRun hasBuilder m claim) (here c) any.
Proof.
  intros Hdel Hst Hfrom. unfold startProvisioningRun.
  eapply wp_seq; [apply sends_none_here; repeat first [done | calls_step]|].
  intros [run|err] w ->; [|by apply plan_build_error_walk]. stamp.
  apply apply_walk; [|none|none]. split; [done|]. cbn [at_state last_complete].
  destruct Hfrom as [Hf|[Hf|Hf]]; [right|right|left; by rewrite Hf];
    rewrite Hf; apply edge_triggered; auto; done.
Qed.

Lemma reconcileIdle_walk m :
  deleting m0 = false -> State (Status m) = State (Status m0) ->
  State (Status m0) = MachineStateAvailable \/ State (Status m0) = MachineStateProvisioned ->
  wp (walk m0) (reconcileIdle hasBuilder m) (here None) any.
Proof.
  intros Hdel Hst Hfrom. unfold reconcileIdle.
  eapply wp_seq; [apply sends_none_here; repeat first [done | calls_step]|]. intros [lastRun|err] w ->; [|done].
  eapply wp_seq; [apply sends_none_here; repeat first [done | calls_step]|]. intros [claim|err] w ->; [|done].
  destruct (claimUnresolved m claim); [by apply markDelayed_walk|].
  destruct (isEmptyDeployPayload claim); [done|].
  eapply wp_seq; [apply sends_none_here; repeat first [done | calls_step]|].
  intros [[[]|]|err] w ->; [by apply markDelayed_walk| |done].
  unfold currentHooksHash. destruct (negb hasBuilder); cbn [bind].
  - destruct (negb _); [done|]. apply startProvisioningRun_walk; [done|done|tauto].
  - apply wp_bind, wp_bind. split; [done|]. intros [snap|err] _.
    + cbn [wp]. destruct (negb _); [done|]. apply startProvisioningRun_walk; [done|done|tauto].
    + eapply wp_seq; [by apply plan_build_error_walk|]. done.
Qed.

Lemma reconcileProvisioning_walk :
  deleting m0 = false -> State (Status m0) = MachineStateProvisioning ->
  wp (walk m0) (reconcileProvisioning hasBuilder m0) (here None) any.
Proof.
  intros Hdel Hfrom. unfold reconcileProvisioning. destruct (CurrentRunRef (Status m0)) as [ref|] eqn:Href.
  - eapply wp_seq; [apply sends_none_here; repeat first [done | calls_step]|]. intros [run|err] w ->.
    + apply deployer_attempt_walk; [done|done|]. intros m' m1 r b Hm'.
      destruct (bool_decide (res_Outcome r = Complete)) eqn:Ec.
      * apply bool_decide_eq_true in Ec. rewrite Ec. cbv zeta.
        rewrite bool_decide_false by (by intros []). stamp. apply apply_moves; [|none|none].
        rewrite Hfrom. by eapply edge_provisioned.
      * apply bool_decide_eq_false in Ec. cbv zeta. rewrite bool_decide_true by done.
        destruct (bool_decide (res_Outcome r = Failed)); by apply applyNonCompleteOutcome_walk.
    + destruct (IsNotFound err); [|done]. unfold recordCurrentRunDeleted. rewrite Href.
      by apply recordFailure_walk.
  - eapply wp_seq; [apply sends_none_here; repeat first [done | calls_step]|]. intros [claim|err] w ->; [|done].
    destruct (claimUnresolved m0 claim); [by apply markDelayed_walk|].
    apply startProvisioningRun_walk; [done|done|tauto].
Qed.

Lemma reconcileInspecting_walk :
  deleting m0 = false -> State (Status m0) = MachineStateInspecting ->
  wp (walk m0) (reconcileInspecting m0) (here None) any.
Proof.
  intros Hdel Hfrom. unfold reconcileInspecting. destruct (inspectDisabled m0) eqn:Hi.
  { apply setState_walk; [|none]. intros now. rewrite Hfrom. apply edge_inspected; auto. }
  apply deployer_attempt_walk; [done|done|]. intros m' m1 r b Hm'.
  destruct (bool_decide (res_Outcome r = Complete)); [|by apply applyNonCompleteOutcome_walk].
  apply setState_walk; [|none]. intros now. rewrite Hfrom. apply edge_inspected; eauto.
Qed.

Lemma reconcileReInspect_walk :
  deleting m0 = false -> reInspectRequested m0 = true -> wp (walk m0) (reconcileReInspect m0) (here None) any.
Proof.
  intros Hdel Hreq. unfold reconcileReInspect.
  assert (Hacc : wp (walk m0) (reInspectAcceptable m0) (here None) (fun r w => w = here None /\
    (r = inl true -> State (Status m0) = MachineStateAvailable \/ State (Status m0) = MachineStateProvisioned
       \/ State (Status m0) = MachineStateReleased))).
  { unfold reInspectAcceptable. cbv zeta.
    destruct (String.eqb_spec (State (Status m0)) MachineStateAvailable); [naive_solver|].
    destruct (String.eqb_spec (State (Status m0)) MachineStateProvisioned).
    - eapply wp_seq; [apply sends_none_here; repeat first [done | calls_step]|].
      intros [claim|err] w ->; naive_solver.
    - destruct (String.eqb_spec (State (Status m0)) MachineStateReleased); naive_solver. }
  eapply wp_seq; [exact Hacc|]. intros [accepted|err] w [-> Hst]; [|done].
  eapply wp_seq; [by apply patch_annotation_walk|]. intros [m1|err] w [-> Hm1]; [|done].
  destruct accepted; cbn [negb]; [|apply sends_none_walk; none].
  eapply wp_seq; [apply sends_none_here; repeat first [done | calls_step]|]. intros [err|] w ->; [done|].
  apply setState_walk; [|none]. intros now. apply edge_reinspect; auto.
Qed.

Lemma reconcileEmptyStatus_walk :
  deleting m0 = false -> State (Status m0) = "" -> wp (walk m0) (reconcileEmptyStatus m0) (here None) any.
Proof.
  intros Hdel Hfrom.
  assert (Hset : forall m cbs, (forall m', calls sends_none (run_callbacks cbs m')) ->
    wp (walk m0) (setState m MachineStateEnrolling cbs) (here None) any).
  { intros m cbs Hcbs. apply setState_walk; [|done]. intros now. rewrite Hfrom. by apply edge_first. }
  unfold reconcileEmptyStatus. destruct (statusLossHeld m0).
  { unfold reconcileStatusLossHold. destruct (negb _); [done|].
    eapply wp_seq; [by apply patch_annotation_walk|]. intros [m1|err] w [-> Hm1]; [|done].
    apply Hset. none. }
  destruct (bool_decide _); [|apply Hset; none].
  eapply wp_seq; [apply sends_none_here; repeat first [done | calls_step]|]. intros [claim|err] w ->; [|done].
  destruct (isEmptyDeployPayload claim); [apply Hset; none|].
  eapply wp_seq; [apply sends_none_here; repeat first [done | calls_step]|].
  intros [[]|err] w ->; [|apply Hset; none|done].
  unfold enterStatusLossHold. stamp. apply apply_keeps; [done|none|none].
Qed.

Lemma reconcileReboot_walk hard : wp (walk m0) (reconcileReboot m0 hard) (here None) any.
Proof.
  unfold reconcileReboot, Deploy, call. cbn [bind]. split; [done|].
  intros [m1 [res|err]] Ha; [|done]. cbn in Ha.
  change (step _ _ _ _) with (here (if completed (DReboot m0 hard) (m1, inl res)
    then Some (DReboot m0 hard) else None)).
  destruct (bool_decide _); [by apply applyNonCompleteOutcome_walk|].
  apply sends_none_walk. none.
Qed.

Lemma reconcileClearError_walk : wp (walk m0) (reconcileClearError m0) (here None) any.
Proof.
  unfold reconcileClearError. eapply wp_seq; [by apply patch_annotation_walk|].
  intros [m1|err] w [-> Hm1]; [|done]. cbv zeta. stamp. apply apply_keeps; [|none|none]. cbn. auto.
Qed.

Lemma onChange_walk :
  deleting m0 = false -> wp (walk m0) (Machine.onChange hasBuilder json_reboot m0) (here None) any.
Proof.
  intros Hdel. unfold Machine.onChange. destruct (isDetached m0).
  { unfold reconcileDetached. destruct (_ =s _); [done|]. stamp. apply apply_keeps; [done|none|none]. }
  destruct (_ =s MachineOperationalStatusDetached).
  { unfold clearDetached. stamp. apply apply_keeps; [done|none|none]. }
  destruct (rebootRequested json_reboot m0) as [[] hard]; [apply reconcileReboot_walk|].
  destruct (reInspectRequested m0) eqn:?; [by apply reconcileReInspect_walk|].
  destruct (clearErrorRequested m0); [apply reconcileClearError_walk|].
  destruct (retryHeld m0); [done|]. destruct (hasUnknownErrorType m0) eqn:?.
  { apply setState_walk; [|none]. intros now. by apply edge_unknown_error. }
  cbv zeta. destruct (_ && _) eqn:Hrel.
  { apply setState_walk; [|none]. intros now. apply andb_true_iff in Hrel as [Hc Hr].
    apply bool_decide_eq_true in Hc. unfold releaseEligible in Hr.
    apply orb_true_iff in Hr as [Hr|Hr]; apply String.eqb_eq in Hr; apply edge_released; auto. }
  repeat match goal with
  | |- wp _ (if ?a =s ?b then _ else _) _ _ => destruct (String.eqb_spec a b)
  | |- wp _ (if (?a =s ?b) || (?a =s ?c) then _ else _) _ _ =>
    destruct (String.eqb_spec a b), (String.eqb_spec a c); cbn [orb]
  end; try done; auto using reconcileEmptyStatus_walk, reconcileInspecting_walk,
    reconcileProvisioning_walk, reconcileIdle_walk.
  apply setState_walk; [|none]. intros now. rewrite e. by apply edge_enrolled.
Qed.

(** ** The delete walk *)

Lemma advanceDeleteStage_walk m next c :
  next = "" \/ (forall s', State s' = next -> walk_edge m0 c (State (Status m0)) s') ->
  wp (walk m0) (advanceDeleteStage m next) (here c) any.
Proof.
  intros Hnext. unfold advanceDeleteStage. destruct (String.eqb_spec next "").
  - apply sends_none_walk. none.
  - destruct Hnext as [?|Hedge]; [done|]. cbv zeta. stamp. apply apply_moves; [by apply Hedge|none|none].
Qed.

Lemma runDeleteStage_walk call name next :
  call_machine call = m0 ->
  (forall c, next = "" \/ (forall s', State s' = next -> walk_edge m0 c (State (Status m0)) s')) ->
  wp (walk m0) (runDeleteStage m0 call name next) (here None) any.
Proof.
  intros Hcall Hnext. unfold runDeleteStage, Deploy, Effects.call. cbn [bind]. split; [done|].
  intros [m1 [res|err]] Ha; [|done]. cbn in Ha. rewrite Hcall in Ha.
  change (step _ _ _ _) with (here (if completed call (m1, inl res) then Some call else None)).
  destruct (res_Outcome res); try done.
  - by apply advanceDeleteStage_walk.
  - split; [done|]. intros ? _. by apply clearRetryStatus_walk.
  - split; [done|]. intros ? _. by apply clearRetryStatus_walk.
  - unfold recordDeleteStageFailure. cbv zeta. stamp.
    eapply wp_seq.
    + apply applyMachineStatus_walk.
      * exact (eq_trans (applyFailure_state m1 (res_ErrorType res) (res_ErrorMessage res)) Ha).
      * intros m' c. apply sends_none_here. repeat first [done | calls_step].
    + intros [m2|err] w [-> Hm2]; [|done]. destruct (negb _); [done|]. by apply advanceDeleteStage_walk.
  - by apply markDelayed_walk.
Qed.

Lemma onDelete_walk : deleting m0 = true -> wp (walk m0) (onDelete m0) (here None) any.
Proof.
  intros Hdel. unfold onDelete. destruct (negb _); [done|]. cbv zeta.
  destruct (String.eqb_spec (State (Status m0)) MachineStateDeprovisioning) as [Hs|Hs].
  { assert (Hedge : forall c s', State s' = MachineStatePoweringOff -> walk_edge m0 c (State (Status m0)) s').
    { intros c s' Hs'. rewrite Hs. by apply edge_poweroff. }
    unfold reconcileDeprovisioning. destruct (isDetached m0); [apply advanceDeleteStage_walk; auto|].
    apply runDeleteStage_walk; auto. }
  destruct (String.eqb_spec (State (Status m0)) MachineStatePoweringOff) as [Hp|Hp].
  { unfold reconcilePoweringOff. destruct (isDetached m0); [apply advanceDeleteStage_walk; auto|].
    apply runDeleteStage_walk; auto. }
  apply advanceDeleteStage_walk. right. intros s' Hs'. by apply edge_deprovision.
Qed.

Lemma reconcile_walk : wp (walk m0) (reconcile_read hasBuilder json_reboot m0) (here None) any.
Proof.
  unfold reconcile_read. destruct (isPaused m0); [done|].
  destruct (deleting m0) eqn:Hdel; [by apply onDelete_walk|].
  destruct (negb _); [apply sends_none_walk; none|by apply onChange_walk].
Qed.
End Walk.

(** ** From the monitor to traces *)

Definition honest (x : event resp) : Prop := keeps_state (projT1 x) (projT2 x).

Section Traces.
Context (m0 : Machine).

Lemma step_moved w e r : moved w = true -> moved (walk_step w e r) = true.
Proof.
  intros Hm. destruct e; try done; cbn; unfold move_to; destruct (obj_state _ _); try done;
    by destruct (_ =s _).
Qed.

Lemma moved_sends_none w tr :
  obeys (walk m0) w tr -> Forall honest tr -> moved w = true -> Forall (fun x => sent_status (projT1 x) = None) tr.
Proof.
  revert w. induction tr as [|[e r] tr IH]; intros w; [constructor|].
  intros [He Hr] [Hh Ht]%Forall_cons Hm. constructor.
  - cbn in *. unfold walk_allowed in He. destruct (sent_status e); [|done]. destruct He; congruence.
  - eapply IH; [apply Hr, Hh|done|by apply step_moved].
Qed.

Lemma unmoved_at w tr :
  moved (final (walk m0) w tr) = false -> at_state (final (walk m0) w tr) = at_state w.
Proof.
  revert w. induction tr as [|[e r] tr IH]; intros w; [done|]. cbn [final]. intros Hm.
  rewrite IH by done.
  destruct (moved (walk_step w e r)) eqn:Hs.
  - exfalso. clear IH. revert Hm. cbn [step walk]. generalize (walk_step w e r), Hs. clear.
    intros w Hs. revert w Hs. induction tr as [|[e r] tr IH]; intros w Hs; cbn; [congruence|].
    apply IH. by apply step_moved.
  - destruct e; try done; cbn in *; unfold move_to in *; destruct (obj_state _ _); try done;
      by destruct (_ =s _).
Qed.

Lemma completed_in w tr c :
  last_complete w = None -> last_complete (final (walk m0) w tr) = Some c ->
  exists r, ev (EDeployer c) r ∈ tr /\ completed c r = true.
Proof.
  assert (Hgen : forall w, last_complete (final (walk m0) w tr) = Some c ->
    last_complete w = Some c \/ exists r, ev (EDeployer c) r ∈ tr /\ completed c r = true).
  { induction tr as [|[e r] tr IH]; intros v; cbn [final]; [auto|].
    intros [Hv|(r' & Hin & Hc)]%IH; [|right; exists r'; split; [by right|done]].
    destruct e; auto.
    - left. cbn in Hv. unfold move_to in Hv. destruct (obj_state _ _); [|done]. by destruct (_ =s _).
    - left. cbn in Hv. unfold move_to in Hv. destruct (obj_state _ _); [|done]. by destruct (_ =s _).
    - left. cbn in Hv. unfold move_to in Hv. destruct (obj_state _ _); [|done]. by destruct (_ =s _).
    - cbn in Hv. destruct (completed c0 r) eqn:Hcr; [|auto]. right. simplify_eq.
      exists r. split; [left|done]. }
  intros Hnone Hf. destruct (Hgen w Hf); [congruence|done].
Qed.
End Traces.

(** ** Theorem *)

(** C1. Every reconcile is at most one step of the Machine state machine.  As
    long as nobody else writes the state, a status sent to the API server
    either keeps the state read at the start or follows one edge of
    [walk_edge] from it, with the evidence that edge asks for (the completed
    Inspect or Provision call of this very reconcile, the re-inspect
    annotation, the vanished claim, the deletion timestamp), and after such a
    move no further status is sent. *)
Theorem Reconcile_follows_walk `{ApiMachinery} hasBuilder json_reboot key m tr1 e r tr2 res s'
    (Hrun : runs (Machine.Reconcile hasBuilder json_reboot key)
      (ev (EGet KMachine key) (inl m : resp (EGet KMachine key)) :: tr1 ++ existT e r :: tr2) res)
    (Hhonest : Forall honest (tr1 ++ existT e r :: tr2))
    (Hsent : sent_status e = Some s') :
  State s' = State (Status m) \/
  exists c, walk_edge m c (State (Status m)) s'
    /\ (forall d, c = Some d -> exists a, ev (EDeployer d) a ∈ tr1 /\ completed d a = true)
    /\ Forall (fun x => sent_status (projT1 x) = None) tr2.
Proof.
  apply Reconcile_read in Hrun.
  pose proof (wp_obeys _ _ _ _ _ _ (reconcile_walk hasBuilder json_reboot m) Hrun) as Hob.
  apply Forall_app in Hhonest as [Hh1 [Hx Hh2]%Forall_cons].
  apply obeys_app in Hob as [Hal Hob]; [|by apply (assumes_forall _ keeps_state)].
  specialize (Hob Hx).
  set (w := final (walk m) (mkWalking (State (Status m)) false None) tr1) in *.
  cbn in Hal. unfold walk_allowed in Hal. rewrite Hsent in Hal. destruct Hal as [Hmv Hedge].
  assert (Hat : at_state w = State (Status m)) by by apply (unmoved_at m).
  rewrite Hat in Hedge.
  destruct (decide (State s' = State (Status m))) as [|Hne]; [by left|right].
  exists (last_complete w). split_and!; [by destruct Hedge| |].
  - intros d Hd. by apply (completed_in m (mkWalking (State (Status m)) false None)).
  - eapply moved_sends_none; [exact Hob|done|].
    destruct e; try done; destruct k; try done; cbn in Hsent |- *; simplify_eq;
      rewrite Hat; apply String.eqb_neq in Hne; by rewrite Hne.
Qed.

(** ** Witness *)

#[local] Existing Instances SimpleMeta.ops SimpleMeta.laws.

Definition enrolling_machine : Machine := Demo.machine ∅ (Demo.status MachineStateEnrolling).

(** The Enrolling machine moves to Inspecting. *)
Lemma Reconcile_follows_walk_witness :
  exists res tr1 m',
    demo (outcome Complete) enrolling_machine =
      Some (res, tt, tr1 ++ [ev (EStatusApply KMachine m') (inl m' : resp (EStatusApply KMachine m'))])
    /\ State (Status m') = MachineStateInspecting
    /\ (State (Status m') = MachineStateEnrolling \/
        exists c, walk_edge enrolling_machine c MachineStateEnrolling (Status m')
          /\ (forall d, c = Some d -> exists a, ev (EDeployer d) a ∈ tr1 /\ completed d a = true)
          /\ Forall (fun x : event resp => sent_status (projT1 x) = None) []).
Proof.
  eexists _, [_], _. split; [vm_compute; reflexivity|]. split; [vm_compute; reflexivity|].
  eapply (Reconcile_follows_walk true Demo.no_json Demo.key enrolling_machine [_] (EStatusApply KMachine _)
    _ []).
  - replay.
  - repeat constructor.
  - reflexivity.
Defined.
