(* ===== verification/MachineLaws.v ===== *)
(** * MachineLaws: the functional behaviour of the Machine reconciler's steps

    The provisioning trigger, the reboot annotations, the requeue jitter, the
    failure bookkeeping with its retry hold, the status-loss guard, and the
    update predicate. *)

From S2P Require Import Prelude Api Effects Cluster Machine MachineSafety.
Local Open Scope string_scope.
Local Open Scope list_scope.
Local Open Scope nat_scope.

(** ** The provisioning trigger *)

Lemma nameRefEqual_spec a b : nameRefEqual a b = true <-> a = b.
Proof.
  destruct a as [[na a]|], b as [[nb b]|]; cbn; try naive_solver.
  rewrite andb_true_iff, !String.eqb_eq. naive_solver.
Qed.

Lemma isEmptyDeployPayload_false claim :
  isEmptyDeployPayload claim = false <->
  exists c, claim = Some c /\ (cl_ImageRef (claim_Spec c) <> None \/ slice (cl_DataImages (claim_Spec c)) <> []).
Proof.
  destruct claim as [c|]; cbn; [|naive_solver].
  rewrite andb_false_iff, bool_decide_eq_false, Nat.eqb_neq.
  split.
  - intros [Hi|Hd]; exists c; (split; [done|]); [by left|right]. intros E. by rewrite E in Hd.
  - intros (c' & [= <-] & [Hi|Hd]); [by left|right]. by destruct (slice _).
Qed.

Lemma shouldProvision_iff claim lastRun hooksHash :
  shouldProvision claim lastRun hooksHash = true <->
  exists c, claim = Some c
    /\ (cl_ImageRef (claim_Spec c) <> None \/ slice (cl_DataImages (claim_Spec c)) <> [])
    /\ forall r, lastRun = Some r ->
         cl_ImageRef (claim_Spec c) <> run_ImageRef (run_Spec r)
         \/ cl_DataImages (claim_Spec c) <> run_DataImages (run_Spec r)
         \/ hooksHash <> run_HooksHash (run_Spec r).
Proof.
  unfold shouldProvision. destruct (isEmptyDeployPayload claim) eqn:He.
  { split; [done|]. intros (c & -> & Hp & _).
    rewrite (proj2 (isEmptyDeployPayload_false (Some c))) in He by eauto. done. }
  apply isEmptyDeployPayload_false in He as (c & -> & Hp).
  destruct lastRun as [r|]; [|naive_solver].
  rewrite negb_true_iff. unfold intentSubsetEqual. rewrite !andb_false_iff, bool_decide_eq_false, String.eqb_neq.
  assert (Hn : nameRefEqual (cl_ImageRef (claim_Spec c)) (run_ImageRef (run_Spec r)) = false <->
    cl_ImageRef (claim_Spec c) <> run_ImageRef (run_Spec r)).
  { rewrite <- not_true_iff_false, nameRefEqual_spec. done. }
  rewrite Hn. split.
  - intros H. exists c. split_and!; [done|done|]. intros r' [= <-]. tauto.
  - intros (c' & [= <-] & _ & H). specialize (H r eq_refl). tauto.
Qed.

(** The provisioning trigger fires exactly when the claim carries a payload
    and either no successful run is known or the payload or the hooks hash
    differs from the one the last successful run recorded; a change of
    resolved disks alone never triggers a redeploy. *)
Theorem shouldProvision_spec claim lastRun hooksHash :
  shouldProvision claim lastRun hooksHash = true <->
  exists c, claim = Some c
    /\ (cl_ImageRef (claim_Spec c) <> None \/ slice (cl_DataImages (claim_Spec c)) <> [])
    /\ forall r, lastRun = Some r ->
         cl_ImageRef (claim_Spec c) <> run_ImageRef (run_Spec r)
         \/ cl_DataImages (claim_Spec c) <> run_DataImages (run_Spec r)
         \/ hooksHash <> run_HooksHash (run_Spec r).
Proof. apply shouldProvision_iff. Qed.

(** Provisioning does not repeat: the run created for a claim, once it is
    the last successful run and neither the claim nor its hooks changed, does
    not trigger again, so a success can never loop into another disk write.
    (The API server stores an absent [dataImages] for an empty one.) *)
Theorem provisioned_claim_is_stable m claim snap
    (Hstored : cl_DataImages (claim_Spec claim) <> Some []) :
  shouldProvision (Some claim) (Some (ApplySnapshot (new_run m claim) snap)) (snap_HooksHash snap) = false.
Proof.
  apply not_true_iff_false. intros (c & [= <-] & _ & H)%shouldProvision_iff.
  specialize (H _ eq_refl). cbn in H. unfold copy_slice in H.
  destruct (cl_DataImages (claim_Spec claim)) as [[|]|]; cbn in H; naive_solver.
Qed.

(** ** Reboot annotations *)

Section Reboot.
Context (json_reboot : string -> string -> string + GoErr).

Lemma reboot_fold l requested hard :
  fold_left (reboot_step json_reboot) l (requested, hard) =
  (requested || existsb (fun kv => isRebootAnnotationKey kv.1) l,
   hard || existsb (fun kv => isRebootAnnotationKey kv.1 &&
     match parseRebootAnnotation json_reboot kv.2 with
     | inl mode => mode =s MachineRebootModeHard | inr _ => false end) l).
Proof.
  revert requested hard. induction l as [|[k v] l IH]; intros requested hard; cbn -[isRebootAnnotationKey].
  { by rewrite !orb_false_r. }
  destruct (isRebootAnnotationKey k); cbn -[isRebootAnnotationKey]; [|by rewrite IH].
  destruct (parseRebootAnnotation json_reboot v) as [mode|]; rewrite IH; [|by rewrite orb_true_r].
  destruct (mode =s MachineRebootModeHard); by rewrite ?orb_true_r.
Qed.

(** A reboot is requested exactly when the suffixless annotation or any
    suffixed holder is present, and it is hard exactly when at least one
    holder's value decodes to the hard mode, whatever order Go visits the map
    in and however many other holders ask for soft or carry invalid JSON. *)
Theorem rebootRequested_spec m :
  ((rebootRequested json_reboot m).1 = true <->
     exists k v, Annotations m !! k = Some v /\ isRebootAnnotationKey k = true) /\
  ((rebootRequested json_reboot m).2 = true <->
     exists k v, Annotations m !! k = Some v /\ isRebootAnnotationKey k = true /\
       parseRebootAnnotation json_reboot v = inl MachineRebootModeHard).
Proof.
  unfold rebootRequested. rewrite reboot_fold. cbn [fst snd orb]. rewrite !existsb_exists. split; split.
  - intros ([k v] & Hin & Hk). exists k, v. split; [|done]. by apply elem_of_map_to_list, list_elem_of_In.
  - intros (k & v & Hin & Hk). exists (k, v). split; [|done]. by apply list_elem_of_In, elem_of_map_to_list.
  - intros ([k v] & Hin & [Hk Hp]%andb_true_iff). exists k, v. cbn [fst snd] in *.
    split_and!; [by apply elem_of_map_to_list, list_elem_of_In|done|].
    destruct (parseRebootAnnotation json_reboot v); [|done]. by apply String.eqb_eq in Hp as ->.
  - intros (k & v & Hin & Hk & Hp). exists (k, v).
    split; [by apply list_elem_of_In, elem_of_map_to_list|]. cbn [fst snd]. by rewrite Hk, Hp.
Qed.
End Reboot.

(** ** Jitter *)

(** Rounding to 53 bits never passes a number that is a multiple of the unit. *)
Lemma round53_le p b d :
  (0 <= p < 2 ^ 53 * d)%Z -> (0 < d < 2 ^ 53)%Z -> b = (2 ^ 53 * d)%Z -> (0 <= round53 p <= b)%Z.
Proof.
  intros Hp Hd ->. unfold round53. set (k := (Z.log2 p - 52)%Z). destruct (Z.leb_spec k 0) as [|Hk]; [lia|].
  assert (Hk53 : (k <= 53)%Z).
  { assert (Z.log2 p < 53 + 53)%Z; [|lia].
    destruct (decide (p = 0)%Z) as [->|]; [cbn; lia|]. apply Z.log2_lt_pow2; [lia|].
    rewrite Z.pow_add_r by lia. nia. }
  assert (Hu : (0 < 2 ^ k)%Z) by (apply Z.pow_pos_nonneg; lia).
  assert (Hb : (2 ^ 53 * d = (2 ^ (53 - k) * d) * 2 ^ k)%Z).
  { replace (2 ^ 53)%Z with (2 ^ (53 - k) * 2 ^ k)%Z; [ring|]. rewrite <- Z.pow_add_r by lia. f_equal. lia. }
  pose proof (Z.div_mod p (2 ^ k)) as Hdm. pose proof (Z.mod_pos_bound p (2 ^ k) Hu) as Hm.
  assert (Hq : (p / 2 ^ k < 2 ^ (53 - k) * d)%Z) by (apply Z.div_lt_upper_bound; lia).
  assert (H0 : (0 <= p / 2 ^ k)%Z) by (apply Z.div_pos; lia).
  cbv zeta. rewrite Hb.
  destruct (_ <? _)%Z; [|destruct (_ <? _)%Z; [|destruct (Z.even _)]]; nia.
Qed.

(** The jitter of a requeue delay adds between nothing and a quarter of it,
    the [float64] rounding of the product included, for every value the random
    source can give and every positive delay below 2^53 ns (104 days). *)
Theorem jittered_bounds n d
    (Hn : (0 <= n < 2 ^ 53)%Z) (Hd : (0 < d < 2 ^ 53)%Z) :
  (d <= jittered n d <= d + d / 4)%Z.
Proof.
  unfold jittered.
  destruct (round53_le (n * d) (2 ^ 53 * d) d) as [H0 H1]; [nia|done|done|].
  assert (Hlo : (0 <= round53 (n * d) / 2 ^ 55)%Z) by (apply Z.div_pos; lia).
  assert (Hhi : (round53 (n * d) / 2 ^ 55 <= d / 4)%Z).
  { replace (d / 4)%Z with (2 ^ 53 * d / 2 ^ 55)%Z; [apply Z.div_le_mono; lia|].
    replace (2 ^ 55)%Z with (2 ^ 53 * 4)%Z by lia. rewrite Z.div_mul_cancel_l; lia. }
  assert (d / 4 <= d)%Z by (apply Z.div_le_upper_bound; lia).
  rewrite int64_id; lia.
Qed.

Lemma jittered_bounds_witness :
  (delayedRequeueInterval <= jittered (2 ^ 53 - 1) delayedRequeueInterval
     <= delayedRequeueInterval + delayedRequeueInterval / 4)%Z.
Proof. apply (jittered_bounds (2 ^ 53 - 1) delayedRequeueInterval); vm_compute; split; congruence. Defined.

Lemma provisioned_claim_is_stable_witness :
  let claim := mkClaim (Demo.meta "c1" ∅)
    (mkClaimSpec "m1" None (Some (mkNameRef "" "os")) None None [] None None AfterDeployReboot)
    (mkClaimStatus MachineClaimPhaseBound "m1" None None None []) in
  let m := Demo.machine ∅ (Demo.status MachineStateProvisioned) in
  shouldProvision (Some claim) None "h" = true /\
  shouldProvision (Some claim) (Some (ApplySnapshot (new_run m claim) (mkSnapshot [] "h"))) "h" = false.
Proof.
  intros claim m. split; [vm_compute; reflexivity|].
  apply (provisioned_claim_is_stable m claim (mkSnapshot [] "h")). discriminate.
Defined.

(** ** The update predicate *)

(** The watch predicate's finalizer comparison is equality of multisets: it
    reports no change exactly when one list is a permutation of the other. *)
Theorem finalizerSetsEqual_spec a b : finalizerSetsEqual a b = true <-> a ≡ₚ b.
Proof.
  unfold finalizerSetsEqual.
  assert (Hc : forallb (fun f => (count_string f a - count_string f b =? 0)%Z) (a ++ b) = true <-> a ≡ₚ b).
  { rewrite forallb_forall, (Permutation_count_occ String.string_dec). unfold count_string. split.
    - intros Hall f. destruct (in_dec String.string_dec f (a ++ b)) as [Hin|Hout].
      + specialize (Hall f Hin). apply Z.eqb_eq in Hall. lia.
      + rewrite in_app_iff in Hout.
        rewrite !(proj1 (count_occ_not_In String.string_dec _ f)); tauto.
    - intros Hall f _. rewrite Hall. apply Z.eqb_eq. lia. }
  destruct (Nat.eqb_spec (length a) (length b)) as [|Hne]; cbn [negb]; [done|].
  split; [done|]. intros Hp. by apply Permutation_length in Hp.
Qed.

(** ** Failures *)

Section Failures.
Context `{ApiMachineryLaws}.

(** The fields of the status no failure touches. *)
Definition same_progress (s s' : MachineStatus) : Prop :=
  State s' = State s /\ CurrentRunRef s' = CurrentRunRef s
  /\ LastSuccessfulRunRef s' = LastSuccessfulRunRef s /\ LastAttemptedRunRef s' = LastAttemptedRunRef s
  /\ GoodCredentials s' = GoodCredentials s /\ TriedCredentials s' = TriedCredentials s
  /\ NetBoot s' = NetBoot s /\ AgentSession s' = AgentSession s.

Definition in_int32 (x : Z) : Prop := (0 <= x < 2 ^ 31 - 1)%Z.

(** The failure that uses up the last restart. *)
Definition exhausts (m : Machine) (result : Result) : bool :=
  (res_ErrorType result =s MachineErrorTypeRestart) && (3 <=? RestartCount (Status m) + 1)%Z.

Lemma applyFailure_counts m t msg :
  in_int32 (ErrorCount (Status m)) -> in_int32 (RestartCount (Status m)) ->
  let s := Status (applyFailure m t msg) in
  same_progress (Status m) s /\ Conditions s = Conditions (Status m)
  /\ OperationalStatus s = MachineOperationalStatusError /\ ErrorType s = t /\ ErrorMessage s = msg
  /\ ErrorCount s = (ErrorCount (Status m) + 1)%Z
  /\ RestartCount s = (RestartCount (Status m) + if t =s MachineErrorTypeRestart then 1 else 0)%Z.
Proof.
  unfold in_int32, same_progress. intros He Hr. unfold applyFailure, with_status. cbn.
  destruct (t =s MachineErrorTypeRestart); cbn; rewrite ?int32_id by lia; split_and!; done || lia.
Qed.

Lemma retryHeld_set m reason msg :
  retryHeld (set_condition (mkCondition MachineConditionRetryHeld ConditionTrue 0 reason msg) m) = true.
Proof. exact (is_true_set_same _ (mkCondition MachineConditionRetryHeld ConditionTrue 0 reason msg)). Qed.

(** A failed step is recorded on the error axis alone.  Every run of
    [recordFailure] sends one status: the state, the run references, the
    credentials and the boot and agent sessions are those of before, the error
    count is one higher, and the restart count is one higher exactly for a
    Restart error.  When that is the third consecutive Restart failure the
    status sets the retry hold and, once it is stored, nothing is requeued;
    otherwise no hold is added and the retry follows after 30 seconds. *)
Theorem recordFailure_spec m result tr res
    (Hrun : runs (recordFailure m result) tr res)
    (Hcounts : in_int32 (ErrorCount (Status m)) /\ in_int32 (RestartCount (Status m))) :
  exists now m' answer rest,
    tr = ev ENow now :: ev (EStatusApply KMachine m') answer :: rest
    /\ same_progress (Status m) (Status m')
    /\ OperationalStatus (Status m') = MachineOperationalStatusError
    /\ ErrorType (Status m') = res_ErrorType result /\ ErrorMessage (Status m') = res_ErrorMessage result
    /\ ErrorCount (Status m') = (ErrorCount (Status m) + 1)%Z
    /\ RestartCount (Status m') =
         (RestartCount (Status m) + if res_ErrorType result =s MachineErrorTypeRestart then 1 else 0)%Z
    /\ retryHeld m' = (exhausts m result || retryHeld m)
    /\ (forall stored, answer = inl stored ->
          res = done_ (if exhausts m result then noRequeue else requeueAfter failedRequeueInterval)).
Proof.
  destruct Hcounts as [He Hr].
  pose proof (applyFailure_counts m (res_ErrorType result) (res_ErrorMessage result) He Hr) as Hc.
  cbv zeta in Hc. destruct Hc as (Hp & Hcond & Hos & Het & Hem & Hec & Hrc).
  unfold recordFailure, stampLastUpdated, Now, call in Hrun. cbn [bind] in Hrun.
  destruct Hrun as (now & tr' & -> & Hrun).
  set (m1 := with_status _ (applyFailure _ _ _)) in Hrun.
  assert (Hex : (res_ErrorType result =s MachineErrorTypeRestart) &&
    (maxRestartFailures <=? RestartCount (Status m1))%Z = exhausts m result).
  { unfold exhausts. change (RestartCount (Status m1)) with
      (RestartCount (Status (applyFailure m (res_ErrorType result) (res_ErrorMessage result)))).
    rewrite Hrc. by destruct (res_ErrorType result =s MachineErrorTypeRestart). }
  rewrite Hex in Hrun.
  destruct (exhausts m result) eqn:Ee;
    unfold holdForRetry, apply_and_return, applyMachineStatus, StatusApply, call in Hrun; cbn [bind] in Hrun;
    destruct Hrun as (answer & rest & -> & Hrun); exists now; eexists _, answer, rest;
    (split; [reflexivity|]); (split; [exact Hp|]); do 5 (split; [done|]); split.
  - apply retryHeld_set.
  - intros stored ->. destruct Hrun as (? & ? & ? & [_ ->]). done.
  - unfold retryHeld. cbn [orb]. by rewrite <- Hcond.
  - intros stored ->. by destruct Hrun as [_ ->].
Qed.
End Failures.

(** ** Status loss *)

Section StatusLoss.
Context `{ApiMachineryLaws}.

Definition names_machine (m : Machine) (run : DeployRun) : bool :=
  nr_Name (run_MachineRef (run_Spec run)) =s Name m.

Lemma statusLossHeld_set m reason msg :
  statusLossHeld (set_condition (mkCondition MachineConditionStatusLossHold ConditionTrue 0 reason msg) m) = true.
Proof. exact (is_true_set_same _ (mkCondition MachineConditionStatusLossHold ConditionTrue 0 reason msg)). Qed.

(** A Machine whose status was never recorded but whose claim asks for a
    deployment is not walked into a redeploy when DeployRuns of its name
    already exist (a restore wiped its status): against any cluster, the one
    status sent keeps the empty state and sets the status-loss hold, and no
    requeue follows.  Without such a run it is a fresh Machine and is enrolled
    with no hold. *)
Theorem status_loss_guard {S} (h : forall e, S -> option (resp e * S)) s s1 s2 s' m ref claim rs res tr
    (Hfresh : LastUpdated (Status m) = None /\ statusLossHeld m = false)
    (Href : ClaimRef (Spec m) = Some ref)
    (Hclaim : h (EGet KClaim (mkKey (cr_Namespace ref) (cr_Name ref))) s = Some (inl claim, s1))
    (Huid : UID (claim : MachineClaim) = cr_UID ref /\ isEmptyDeployPayload (Some (claim : MachineClaim)) = false)
    (Hlist : h (EList KRun (Namespace m)) s1 = Some (inl rs, s2))
    (Hexec : exec h (reconcileEmptyStatus m) s = Some (res, s', tr)) :
  exists now m' answer rest,
    tail (tail tr) = ev ENow now :: ev (EStatusApply KMachine m') answer :: rest
    /\ if existsb (names_machine m) rs
       then State (Status m') = State (Status m) /\ statusLossHeld m' = true /\
            (forall stored, answer = inl stored -> res = done_ noRequeue)
       else State (Status m') = MachineStateEnrolling /\ statusLossHeld m' = false.
Proof.
  destruct Hfresh as [Hlu Hnot], Huid as [Hu He].
  unfold reconcileEmptyStatus in Hexec. rewrite Hnot, bool_decide_true in Hexec by done.
  unfold resolveClaimIntent in Hexec. rewrite Href in Hexec. cbn [bind] in Hexec.
  unfold Get, call in Hexec. cbn [bind exec] in Hexec. rewrite Hclaim in Hexec.
  rewrite Hu, String.eqb_refl in Hexec. cbn [negb bind] in Hexec.
  match type of Hexec with context [isEmptyDeployPayload ?c] =>
    change c with (Some (claim : MachineClaim)) in Hexec end.
  rewrite He in Hexec.
  unfold hasPriorDeployRuns, List_, call in Hexec. cbn [bind exec] in Hexec. rewrite Hlist in Hexec.
  change (fun run : DeployRun => nr_Name (run_MachineRef (run_Spec run)) =s Name m) with (names_machine m) in Hexec.
  destruct (existsb (names_machine m) rs);
    unfold enterStatusLossHold, setState, stampLastUpdated, apply_and_return, applyMachineStatus,
      Now, StatusApply, call in Hexec; cbn [bind exec] in Hexec;
    destruct (h ENow s2) as [[now s3]|]; [|done| |done]; cbn [bind exec] in Hexec;
    match type of Hexec with context [h (EStatusApply KMachine ?x) s3] =>
      destruct (h (EStatusApply KMachine x) s3) as [[answer s4]|] eqn:Ha; [|done] end.
  - destruct (exec h _ s4) as [[[res' s5] rest]|] eqn:Hx; [|done]. simplify_eq.
    eexists now, _, answer, rest. split; [reflexivity|]. split_and!; [done|apply statusLossHeld_set|].
    intros stored ->. apply exec_runs in Hx. destruct Hx as (? & ? & ? & [_ ->]). done.
  - destruct (exec h _ s4) as [[[res' s5] rest]|] eqn:Hx; [|done]. simplify_eq.
    eexists now, _, answer, rest. split; [reflexivity|]. split; [done|].
    unfold statusLossHeld. cbn -[IsStatusConditionTrue RemoveStatusCondition].
    rewrite is_true_remove_other by done. apply is_true_remove_same.
Qed.
End StatusLoss.

(** ** Witnesses *)

#[local] Existing Instances SimpleMeta.ops SimpleMeta.laws.

Definition twice_restarted : Machine :=
  Demo.machine ∅ ((Demo.status MachineStateProvisioning) <| ErrorCount := 2%Z |> <| RestartCount := 2%Z |>).

Lemma recordFailure_spec_witness :
  exists res tr, exec (Demo.handler (Demo.world_of (outcome Complete)))
      (recordFailure twice_restarted (failed MachineErrorTypeRestart "agent lost")) tt = Some (res, tt, tr)
    /\ res = done_ noRequeue
    /\ exists m' : Machine, retryHeld m' = true /\ RestartCount (Status m') = 3%Z.
Proof.
  eexists _, _. split; [vm_compute; reflexivity|]. split; [reflexivity|].
  edestruct (recordFailure_spec twice_restarted (failed MachineErrorTypeRestart "agent lost"))
    as (now & m' & answer & rest & _ & _ & _ & _ & _ & _ & Hrc & Hheld & _).
  - eapply (exec_runs (Demo.handler (Demo.world_of (outcome Complete))) _ tt _ tt).
    vm_compute. reflexivity.
  - split; vm_compute; split; congruence.
  - exists m'. rewrite Hheld, Hrc. split; vm_compute; reflexivity.
Defined.

Definition restored_machine : Machine :=
  (Demo.machine ∅ (Demo.status "")) <| Spec := (Spec (Demo.machine ∅ (Demo.status "")))
    <| ClaimRef := Some (mkClaimReference "c1" "ns" "uid") |> |>.

Definition os_claim : MachineClaim :=
  mkClaim (Demo.meta "c1" ∅)
    (mkClaimSpec "m1" None (Some (mkNameRef "" "os")) None None [] None None AfterDeployReboot)
    (mkClaimStatus MachineClaimPhaseBound "m1" None None None []).

Definition restored_world : Demo.world :=
  Demo.mkWorld None (Some os_claim) None None None None [new_run restored_machine os_claim] []
    (outcome Complete).

Lemma status_loss_guard_witness :
  exists res tr, exec (Demo.handler restored_world) (reconcileEmptyStatus restored_machine) tt = Some (res, tt, tr)
    /\ exists m' : Machine, State (Status m') = "" /\ statusLossHeld m' = true.
Proof.
  eexists _, _. split; [vm_compute; reflexivity|].
  edestruct (status_loss_guard (Demo.handler restored_world) tt tt tt tt restored_machine
    (mkClaimReference "c1" "ns" "uid") os_claim [new_run restored_machine os_claim])
    as (now & m' & answer & rest & _ & Hs);
    [split; vm_compute; reflexivity|reflexivity|reflexivity|split; vm_compute; reflexivity|reflexivity
    |vm_compute; reflexivity|].
  change (existsb (names_machine restored_machine) [new_run restored_machine os_claim]) with true in Hs.
  exists m'. destruct Hs as (Hst & Hh & _). split; [exact Hst|exact Hh].
Defined.
