(* ===== verification/MachineDelete.v ===== *)
(** * MachineDelete: the delete walk

    [src/internal/controller/machine_controller.go], [onDelete] and the stages
    below it.  [delete_walk_terminates]: with a server that accepts the writes
    and a deployer whose steps complete or fail, the finalizer is gone after
    at most nine reconciles, dead BMC or not.
    [machine_finalizer_released_last]: against any cluster, the Machine's
    finalizer is removed only once its credentials Secret is free of kezio's. *)

From S2P Require Import Prelude Api Effects Cluster Machine MachineSafety.
Local Open Scope string_scope.
Local Open Scope list_scope.
Local Open Scope nat_scope.

(** ** Termination *)

(** The Machine the server holds. *)
Definition store_obj (k : kind) (s : Machine) : obj k -> Machine :=
  match k return obj k -> Machine with KMachine => fun m => m | _ => fun _ => s end.

Definition store_step (s : Machine) (e : eff) : resp e -> Machine :=
  match e return resp e -> Machine with
  | EStatusApply k o => fun _ => store_obj k s o
  | EUpdate k o => fun _ => store_obj k s o
  | _ => fun _ => s
  end.

(** What the deployer leaves alone. *)
Definition same_core (m m' : Machine) : Prop :=
  machine_meta m' = machine_meta m /\ Spec m' = Spec m /\ State (Status m') = State (Status m)
  /\ ErrorCount (Status m') = ErrorCount (Status m).

(** Writes are accepted as sent, the Secret is readable or gone, and the
    deployer's delete steps complete or fail. *)
Definition cooperates (e : eff) : resp e -> Prop :=
  match e return resp e -> Prop with
  | EStatusApply k o => fun r => r = inl o
  | EUpdate k o => fun r => r = inl o
  | EGet _ _ => fun r => match r with inl _ => True | inr err => IsNotFound err = true end
  | EDeployer c => fun r => same_core (call_machine c) r.1 /\
      exists res, r.2 = inl res /\ (res_Outcome res = Complete \/ res_Outcome res = Failed)
  | _ => fun _ => True
  end.

Definition store : monitor resp Machine :=
  mkMonitor (fun _ _ => True) (fun _ => cooperates) store_step.

Section Delete.
Context `{ApiMachineryLaws} (hasBuilder : bool).
Context (json_reboot : string -> string -> string + GoErr).

Definition finalized (m : Machine) : bool := negb (ContainsFinalizer (Finalizers m) MachineFinalizer).

(** How many reconciles are left at most. *)
Definition rank (m : Machine) : nat :=
  if finalized m then 0 else
  let left := Z.to_nat (3 - ErrorCount (Status m)) in
  if State (Status m) =s MachineStatePoweringOff then 1 + left
  else if State (Status m) =s MachineStateDeprovisioning then 5 + left
  else 9.

(** A deletion in progress that no one paused, its error count in range as
    long as the finalizer is there. *)
Definition on_delete_walk (m : Machine) : Prop :=
  isPaused m = false /\ deleting m = true /\
  (finalized m = true \/ (0 <= ErrorCount (Status m) < 2 ^ 31 - 1)%Z).

Lemma rank_le m : on_delete_walk m -> rank m <= 9.
Proof.
  intros (_ & _ & Hec). unfold rank. destruct (finalized m); [lia|].
  destruct Hec as [?|Hec]; [done|]. repeat case_match; lia.
Qed.

(** [m'] is below rank [n] and still on the walk. *)
Definition further (n : nat) (m' : Machine) : Prop := rank m' < n /\ on_delete_walk m'.

Lemma on_walk_meta (m m' : Machine) :
  on_delete_walk m -> Annotations m' = Annotations m -> DeletionTimestamp m' = DeletionTimestamp m ->
  finalized m' = true \/ (0 <= ErrorCount (Status m') < 2 ^ 31 - 1)%Z -> on_delete_walk m'.
Proof.
  unfold on_delete_walk, isPaused, has_annotation, deleting. intros (H1 & H2 & H3) -> -> ?. done.
Qed.

Lemma releaseMachine_further w m s n :
  on_delete_walk w -> machine_meta m = machine_meta w -> 0 < n ->
  wp store (releaseMachine m) s (fun _ m' => further n m').
Proof.
  intros Hw Hmeta Hn. unfold releaseMachine. eapply wp_seq with (Q := fun r _ => r = None).
  - unfold releaseCredentialsSecretFinalizer. cbv zeta. destruct (_ =s ""); [done|].
    split; [done|]. intros [secret|err] Ha; cbn in Ha |- *; [|by rewrite Ha].
    destruct (RemoveFinalizer _ _) as [fs []]; [|done]. split; [done|]. by intros r ->.
  - intros ? s' ->. destruct (RemoveFinalizer (Finalizers m) MachineFinalizer) as [fs b] eqn:E.
    split; [done|]. intros r ->. cbn [bind wp step store store_step store_obj].
    match goal with |- further n ?x => set (m' := x) end.
    assert (Hfin : finalized m' = true).
    { unfold finalized, m'. cbn -[ContainsFinalizer MachineFinalizer].
      change fs with (fs, b).1. by rewrite <- E, contains_remove_finalizer. }
    split; [unfold rank; by rewrite Hfin|]. apply (on_walk_meta w); [done| | |by left];
      unfold m'; cbn; by rewrite Hmeta.
Qed.

(** Moving to a stage whose full rank is below [n]. *)
Lemma advanceDeleteStage_further w m next s n :
  on_delete_walk w -> machine_meta m = machine_meta w -> 0 < n ->
  next = "" \/ (next = MachineStatePoweringOff /\ 4 < n) \/ (next = MachineStateDeprovisioning /\ 8 < n) ->
  wp store (advanceDeleteStage m next) s (fun _ m' => further n m').
Proof.
  intros Hw Hmeta Hn Hnext. unfold advanceDeleteStage. destruct (String.eqb_spec next "").
  { by eapply releaseMachine_further. }
  cbv zeta. unfold stampLastUpdated, Now, call. cbn [bind]. split; [done|]. intros now _.
  unfold apply_and_return, applyMachineStatus, StatusApply, call. cbn [bind]. split; [done|].
  intros r ->. cbn [bind run_callbacks wp step store store_step store_obj]. split.
  - unfold rank, finalized. cbn -[ContainsFinalizer String.eqb].
    destruct (negb _); [lia|]. destruct Hnext as [?|[[-> ?]|[-> ?]]]; [done| |]; cbn; lia.
  - apply (on_walk_meta w); [done|cbn; by rewrite Hmeta|cbn; by rewrite Hmeta|]. right. cbn. lia.
Qed.

(** The two stages: the state they run in, where they lead and the rank left
    on entering the next one. *)
Definition stage (m : Machine) (next : string) : Prop :=
  (State (Status m) = MachineStateDeprovisioning /\ next = MachineStatePoweringOff) \/
  (State (Status m) = MachineStatePoweringOff /\ next = "").

Lemma stage_rank m next :
  finalized m = false -> stage m next ->
  0 < rank m /\ (next = "" \/ (next = MachineStatePoweringOff /\ 4 < rank m)
    \/ (next = MachineStateDeprovisioning /\ 8 < rank m)).
Proof.
  intros Hf [[Hs ->]|[Hs ->]]; unfold rank; rewrite Hf, Hs; cbn; (split; [lia|]); [right; left|by left].
  split; [done|lia].
Qed.

Lemma recordDeleteStageFailure_further w m res name next s :
  on_delete_walk w -> finalized w = false -> stage w next -> same_core w m ->
  wp store (recordDeleteStageFailure m res name next) s (fun _ m' => further (rank w) m').
Proof.
  intros Hw Hf Hst (Hmeta & _ & Hs & Hc). pose proof Hw as (_ & _ & Hec). destruct Hec as [?|Hec]; [congruence|].
  destruct (stage_rank w next Hf Hst) as [Hpos Hnext].
  unfold recordDeleteStageFailure. cbv zeta.
  set (m1 := applyFailure m (res_ErrorType res) (res_ErrorMessage res)).
  assert (Hm1 : machine_meta m1 = machine_meta w /\ State (Status m1) = State (Status w) /\
    ErrorCount (Status m1) = (ErrorCount (Status w) + 1)%Z).
  { unfold m1, applyFailure, with_status. cbn. destruct (_ =s MachineErrorTypeRestart); cbn;
      rewrite Hc, int32_id by lia; done. }
  destruct Hm1 as (Hmeta1 & Hstate1 & Hcount1). clearbody m1.
  unfold stampLastUpdated, Now, call. cbn [bind]. split; [done|]. intros now _.
  unfold applyMachineStatus, StatusApply, call. cbn [bind]. split; [done|]. intros r ->.
  rewrite Hcount1. change deleteStageMaxErrorCount with 3%Z.
  destruct (Z.ltb_spec 3 (ErrorCount (Status w) + 1)) as [Hg|Hg]; cbn [bind run_callbacks negb].
  - split; [done|]. intros ? _. by eapply advanceDeleteStage_further.
  - cbn [wp step store store_step store_obj]. split.
    + unfold rank, finalized in *. cbn -[ContainsFinalizer String.eqb].
      rewrite Hmeta1, Hstate1, Hcount1, Hf.
      destruct Hst as [[-> _]|[-> _]]; cbn; lia.
    + apply (on_walk_meta w); [done|cbn; by rewrite Hmeta1|cbn; by rewrite Hmeta1|]. right. cbn. lia.
Qed.

Lemma runDeleteStage_further w c name next s :
  on_delete_walk w -> finalized w = false -> stage w next -> call_machine c = w ->
  wp store (runDeleteStage w c name next) s (fun _ m' => further (rank w) m').
Proof.
  intros Hw Hf Hst Hc. destruct (stage_rank w next Hf Hst) as [Hpos Hnext].
  unfold runDeleteStage, Deploy, call. cbn [bind]. split; [done|]. intros [m r] (Hcore & res & Hr & Ho).
  cbn in Hcore, Hr. subst r. rewrite Hc in Hcore. destruct Ho as [-> | ->].
  - eapply advanceDeleteStage_further; try done. apply Hcore.
  - by apply recordDeleteStageFailure_further.
Qed.

Lemma reconcile_further m s :
  on_delete_walk m -> finalized m = false ->
  wp store (reconcile_read hasBuilder json_reboot m) s (fun _ m' => further (rank m) m').
Proof.
  intros Hw Hf. pose proof Hw as (Hp & Hd & _). unfold reconcile_read. rewrite Hp, Hd.
  unfold onDelete. unfold finalized in Hf. rewrite Hf. fold (finalized m) in Hf. cbv zeta.
  destruct (String.eqb_spec (State (Status m)) MachineStateDeprovisioning) as [Hs|Hs].
  { assert (Hst : stage m MachineStatePoweringOff) by by left.
    destruct (stage_rank _ _ Hf Hst). unfold reconcileDeprovisioning. destruct (isDetached m).
    - by eapply advanceDeleteStage_further.
    - by apply runDeleteStage_further. }
  destruct (String.eqb_spec (State (Status m)) MachineStatePoweringOff) as [Hs'|Hs'].
  { assert (Hst : stage m "") by by right.
    destruct (stage_rank _ _ Hf Hst). unfold reconcilePoweringOff. destruct (isDetached m).
    - by eapply advanceDeleteStage_further.
    - by apply runDeleteStage_further. }
  assert (Hr : rank m = 9).
  { unfold rank. rewrite Hf. apply String.eqb_neq in Hs, Hs'. by rewrite Hs, Hs'. }
  eapply advanceDeleteStage_further; [done|done|lia|]. right. right. split; [done|lia].
Qed.

(** One reconcile against a cooperating cluster takes the stored Machine [m] to [m']. *)
Definition pass (m m' : Machine) : Prop :=
  exists tr res, runs (reconcile_read hasBuilder json_reboot m) tr res
    /\ assumes store m tr /\ m' = final store m tr.

Lemma pass_finalized m m' : on_delete_walk m -> finalized m = true -> pass m m' -> m' = m.
Proof.
  intros (Hp & Hd & _) Hf (tr & res & Hrun & _ & ->). unfold reconcile_read in Hrun.
  rewrite Hp, Hd in Hrun. unfold onDelete in Hrun. unfold finalized in Hf. rewrite Hf in Hrun.
  destruct Hrun as [-> _]. done.
Qed.

(** C24. The delete walk ends, dead hardware or not: for a Machine under deletion
    that is not paused and whose error count is in range, nine reconciles against
    a cooperating cluster leave a Machine without kezio's finalizer, whatever
    stage and error count the walk started from.  Cooperating means that the API
    server accepts every update and status write as sent and answers every read
    with the object or with not-found, and that each deprovision and power-off
    step of the deployer answers Complete or Failed, with no Go error, and gives
    back the Machine with its metadata, spec, state and error count unchanged; a
    step that keeps answering Continuing, Delayed or Busy, or keeps
    returning errors, is waited for instead. *)
Theorem delete_walk_terminates m m'
    (Hwalk : on_delete_walk m) (Hpasses : nsteps pass 9 m m') :
  ContainsFinalizer (Finalizers m') MachineFinalizer = false.
Proof.
  assert (Hgen : forall n m, on_delete_walk m -> rank m <= n -> nsteps pass n m m' ->
    finalized m' = true).
  { clear m Hwalk Hpasses. induction n as [|n IH]; intros m Hw Hr Hn.
    - inversion Hn; subst. unfold rank in Hr. destruct (finalized m') eqn:E; [done|].
      repeat case_match; lia.
    - inversion Hn as [|? ? m1 ? Hpass Hrest]; subst. destruct (finalized m) eqn:E.
      + apply pass_finalized in Hpass; [subst m1|done|done]. apply (IH m); [done| |done].
        unfold rank. rewrite E. lia.
      + destruct Hpass as (tr & res & Hrun & Has & ->).
        pose proof (wp_final _ _ _ _ _ _ (reconcile_further m m Hw E) Hrun Has) as [Hlt Hw'].
        apply (IH _ Hw'); [lia|done]. }
  specialize (Hgen 9 m Hwalk (rank_le m Hwalk) Hpasses). by apply negb_true_iff in Hgen.
Qed.
End Delete.

(** ** The order of release *)

Section Release.
Context `{ApiMachineryLaws} (hasBuilder : bool).
Context (json_reboot : string -> string -> string + GoErr).

Definition secret_key (m : Machine) : ObjectKey :=
  mkKey (Namespace m) (sr_Name (bmc_CredentialsSecretRef (BMC (Spec m)))).

Definition secret_free (s : Secret) : bool :=
  negb (ContainsFinalizer (Finalizers s) MachineCredentialsSecretFinalizer).

(** The Secrets seen without kezio's finalizer: not found, read without it, or
    written without it. *)
Definition freed_get (k : kind) (key : ObjectKey) (freed : list ObjectKey) : obj k + GoErr -> list ObjectKey :=
  match k return obj k + GoErr -> list ObjectKey with
  | KSecret => fun r =>
    match r with
    | inr err => if IsNotFound err then key :: freed else freed
    | inl s => if secret_free s then key :: freed else freed
    end
  | _ => fun _ => freed
  end.

Definition freed_update (k : kind) (freed : list ObjectKey) : obj k -> obj k + GoErr -> list ObjectKey :=
  match k return obj k -> obj k + GoErr -> list ObjectKey with
  | KSecret => fun s r =>
    match r with
    | inl _ => if secret_free s then mkKey (Namespace s) (Name s) :: freed else freed
    | inr _ => freed
    end
  | _ => fun _ _ => freed
  end.

Definition freed_step (freed : list ObjectKey) (e : eff) : resp e -> list ObjectKey :=
  match e return resp e -> list ObjectKey with
  | EGet k key => freed_get k key freed
  | EUpdate k o => freed_update k freed o
  | _ => fun _ => freed
  end.

(** A Secret is answered under its own name. *)
Definition named_get (k : kind) (key : ObjectKey) : obj k + GoErr -> Prop :=
  match k return obj k + GoErr -> Prop with
  | KSecret => fun r => match r with inl s => mkKey (Namespace s) (Name s) = key | inr _ => True end
  | _ => fun _ => True
  end.

Definition named (e : eff) : resp e -> Prop :=
  match e return resp e -> Prop with EGet k key => named_get k key | _ => fun _ => True end.

Definition may_release (freed : list ObjectKey) (e : eff) : Prop :=
  match e with
  | EUpdate KMachine m =>
    ContainsFinalizer (Finalizers (m : Machine)) MachineFinalizer = true
    \/ key_Name (secret_key m) = "" \/ secret_key m ∈ freed
  | _ => True
  end.

Definition release : monitor resp (list ObjectKey) :=
  mkMonitor may_release (fun _ => named) freed_step.

(** Programs that do not update the Machine itself are free to run. *)
Definition not_machine_update (e : eff) : Prop := match e with EUpdate KMachine _ => False | _ => True end.

Lemma quiet_release {A} (p : go A) freed : calls not_machine_update p -> wp release p freed (fun _ _ => True).
Proof.
  revert freed. induction p as [a|e k IH]; intros freed; [done|]. intros [He Hk]. split.
  - destruct e; try done. by destruct k0.
  - intros r _. apply IH. exact (Hk r I).
Qed.

Lemma releaseMachine_release m freed : wp release (releaseMachine m) freed (fun _ _ => True).
Proof.
  unfold releaseMachine. eapply wp_seq with
    (Q := fun r freed => r = None -> key_Name (secret_key m) = "" \/ secret_key m ∈ freed).
  - unfold releaseCredentialsSecretFinalizer. cbv zeta.
    destruct (String.eqb_spec (sr_Name (bmc_CredentialsSecretRef (BMC (Spec m)))) ""); [intros _; by left|].
    split; [done|]. intros [secret|err] Hn; cbn [bind wp].
    + destruct (RemoveFinalizer (Finalizers secret) MachineCredentialsSecretFinalizer) as [fs removed] eqn:E.
      pose proof (remove_finalizer_changed (Finalizers secret) MachineCredentialsSecretFinalizer) as Hch.
      rewrite E in Hch. cbn in Hch. subst removed.
      destruct (bool_decide _) eqn:Hb; cbn [negb].
      * split; [done|]. intros [secret'|err] _; cbn [bind wp]; [|done]. intros _. right.
        cbn -[secret_free].
        match goal with |- _ ∈ (if secret_free ?x then _ else _) => assert (Hsf : secret_free x = true) end.
        { unfold secret_free. cbn -[ContainsFinalizer].
          change fs with (fs, true).1. rewrite <- E. by rewrite contains_remove_finalizer. }
        rewrite Hsf. cbn in Hn. cbn. rewrite Hn. left.
      * intros _. right. cbn. assert (Hsf : secret_free secret = true).
        { unfold secret_free. by rewrite contains_finalizer, Hb. }
        rewrite Hsf. left.
    + destruct (IsNotFound err) eqn:E; [|done]. intros _. right. cbn. rewrite E. left.
  - intros [err|] freed' Hf; [done|]. destruct (RemoveFinalizer _ _) as [fs b].
    split; [|by intros [] _]. right. by apply Hf.
Qed.

Lemma advanceDeleteStage_release m next freed :
  wp release (advanceDeleteStage m next) freed (fun _ _ => True).
Proof.
  unfold advanceDeleteStage. destruct (next =s ""); [apply releaseMachine_release|].
  apply quiet_release. repeat calls_step.
Qed.

Lemma runDeleteStage_release m c name next freed :
  wp release (runDeleteStage m c name next) freed (fun _ _ => True).
Proof.
  unfold runDeleteStage. eapply wp_seq; [apply quiet_release; repeat calls_step|].
  intros [m1 [res|err]] freed1 _; [|done].
  destruct (res_Outcome res); try (apply quiet_release; repeat calls_step; done).
  - apply advanceDeleteStage_release.
  - unfold recordDeleteStageFailure. cbv zeta.
    eapply wp_seq; [apply quiet_release; repeat calls_step|]. intros m2 freed2 _.
    eapply wp_seq; [apply quiet_release; repeat calls_step|]. intros [m3|err] freed3 _; [|done].
    destruct (negb _); [done|apply advanceDeleteStage_release].
Qed.

Lemma reconcile_release m freed : wp release (reconcile_read hasBuilder json_reboot m) freed (fun _ _ => True).
Proof.
  unfold reconcile_read. destruct (isPaused m); [done|]. destruct (deleting m).
  - unfold onDelete, reconcileDeprovisioning, reconcilePoweringOff. cbv zeta.
    destruct (negb _); [done|]. destruct (_ =s _); [|destruct (_ =s _)];
      try destruct (isDetached m); auto using advanceDeleteStage_release, runDeleteStage_release.
  - destruct (negb _); [|apply quiet_release; repeat calls_step].
    destruct (AddFinalizer _ _) as [fs b] eqn:E. split; [|by intros [] _]. left.
    cbn -[ContainsFinalizer MachineFinalizer]. change fs with (fs, b).1. by rewrite <- E, contains_add_finalizer.
Qed.

(** C31. The Machine's finalizer goes last: whatever the cluster answers, an
    update that drops kezio's finalizer from the Machine is sent only after the
    credentials Secret it names was seen absent, read without kezio's
    finalizer, or successfully updated to drop it in the same reconcile, unless
    the Machine names no Secret. *)
Theorem machine_finalizer_released_last key m tr1 m' r tr2 res
    (Hrun : runs (Machine.Reconcile hasBuilder json_reboot key)
      (ev (EGet KMachine key) (inl m : resp (EGet KMachine key))
        :: tr1 ++ existT (EUpdate KMachine m') r :: tr2) res)
    (Hnamed : Forall (fun x => named (projT1 x) (projT2 x)) tr1)
    (Hdrop : ContainsFinalizer (Finalizers (m' : Machine)) MachineFinalizer = false) :
  key_Name (secret_key m') = "" \/ secret_key m' ∈ final release [] tr1.
Proof.
  apply Reconcile_read in Hrun.
  pose proof (wp_obeys _ _ _ _ _ _ (reconcile_release m []) Hrun) as Hob.
  apply obeys_app in Hob; [|by apply (assumes_forall _ named)].
  destruct Hob as [[?|?] _]; [congruence|done].
Qed.
End Release.

(** ** Witnesses *)

#[local] Existing Instances SimpleMeta.ops SimpleMeta.laws.

Definition dying_machine : Machine :=
  (Demo.machine ∅ (Demo.status MachineStateProvisioned))
    <| machine_meta := (Demo.meta "m1" ∅) <| DeletionTimestamp := Some 5%Z |> |>.

(** A deployer that always fails. *)
Definition dead_bmc : Demo.world := Demo.world_of (failed MachineErrorTypeTransient "no answer").

(** The Machine the server holds after one reconcile. *)
Definition after (m : Machine) : Machine :=
  match exec (Demo.handler dead_bmc) (reconcile_read true Demo.no_json m) tt with
  | Some (_, _, tr) => final store m tr
  | None => m
  end.

Lemma after_pass m res tr :
  exec (Demo.handler dead_bmc) (reconcile_read true Demo.no_json m) tt = Some (res, tt, tr) ->
  assumes store m tr -> pass true Demo.no_json m (after m).
Proof.
  intros Hx Has. exists tr, res. split; [by eapply exec_runs|]. split; [done|].
  unfold after. by rewrite Hx.
Qed.

Lemma iter_passes n m :
  (forall k, k < n -> pass true Demo.no_json (Nat.iter k after m) (after (Nat.iter k after m))) ->
  nsteps (pass true Demo.no_json) n m (Nat.iter n after m).
Proof.
  induction n as [|n IH]; intros Hp; [constructor|]. eapply nsteps_r; [apply IH; auto|].
  apply Hp. lia.
Qed.

Lemma delete_walk_terminates_witness :
  ContainsFinalizer (Finalizers (Nat.iter 8 after dying_machine)) MachineFinalizer = true /\
  ContainsFinalizer (Finalizers (Nat.iter 9 after dying_machine)) MachineFinalizer = false.
Proof.
  split; [vm_compute; reflexivity|].
  apply (delete_walk_terminates true Demo.no_json dying_machine).
  - split; [vm_compute; reflexivity|]. split; [vm_compute; reflexivity|]. right. vm_compute. split; congruence.
  - apply (iter_passes 9). intros k Hk.
    do 9 (destruct k as [|k];
      [eapply after_pass; [vm_compute; reflexivity|vm_compute; repeat split; repeat eexists; right; reflexivity]|]).
    lia.
Defined.

Definition powering_off : Machine :=
  dying_machine <| Status := Demo.status MachineStatePoweringOff |>.

Lemma machine_finalizer_released_last_witness :
  exists res tr1 m', exec (Demo.handler (Demo.world_of (outcome Complete)))
      (reconcile_read true Demo.no_json powering_off) tt =
      Some (res, tt, tr1 ++ [ev (EUpdate KMachine m') (inl m' : resp (EUpdate KMachine m'))])
    /\ (key_Name (secret_key m') = "" \/ secret_key m' ∈ final release [] tr1).
Proof.
  eexists _, [_; _], _. split; [vm_compute; reflexivity|].
  eapply (machine_finalizer_released_last true Demo.no_json Demo.key powering_off [_; _] _ _ []).
  - apply Reconcile_runs. eapply (exec_runs (Demo.handler (Demo.world_of (outcome Complete))) _ tt _ tt).
    vm_compute. reflexivity.
  - repeat constructor.
  - vm_compute. reflexivity.
Defined.
