(* ===== verification/DeployRunGC.v ===== *)
(** * DeployRunGC: retention of DeployRuns

    [src/internal/controller/deployrun_controller.go].  [runsToGC_spec]
    characterises the runs the collector picks; [gc_deletes_only_victims] lifts
    it to every run of the reconciler. *)

From S2P Require Import Prelude Api Effects Cluster Machine.
Local Open Scope string_scope.
Local Open Scope list_scope.
Local Open Scope nat_scope.

(** ** The code *)

Definition retainedRunsPerMachine : nat := 5.
Definition minRunAgeBeforeGC : Z := 10 * Minute.

(** [ti] newest first, then the greater name. *)
Definition run_less (a b : DeployRun) : bool :=
  if negb (CreationTimestamp a =? CreationTimestamp b)%Z
  then (CreationTimestamp b <? CreationTimestamp a)%Z
  else String.ltb (Name b) (Name a).

Definition protect (ref : option NameRef) (protected : gset string) : gset string :=
  match ref with Some r => {[nr_Name r]} ∪ protected | None => protected end.

Definition protectedRunNames (machine : Machine) : gset string :=
  let st := Status machine in
  protect (LastAttemptedRunRef st) (protect (LastSuccessfulRunRef st) (protect (CurrentRunRef st) ∅)).

(** The loop over [ordered] from index [i]. *)
Fixpoint victims_from (i retain : nat) (protected : gset string) (now : Z) (ordered : list DeployRun)
  : list DeployRun :=
  match ordered with
  | [] => []
  | candidate :: rest =>
    if i <? retain then victims_from (S i) retain protected now rest else
    if bool_decide (Name candidate ∈ protected) then victims_from (S i) retain protected now rest else
    if (now - CreationTimestamp candidate <? minRunAgeBeforeGC)%Z
    then victims_from (S i) retain protected now rest
    else candidate :: victims_from (S i) retain protected now rest
  end.

Definition runsToGC (runs : list DeployRun) (machine : Machine) (retain : nat) (now : Z)
  : list DeployRun :=
  victims_from 0 retain (protectedRunNames machine) now (sort_by run_less runs).

(** The deletions, in order; a victim already gone is fine. *)
Fixpoint delete_runs (victims : list DeployRun) : go reply :=
  match victims with
  | [] => Ret (done_ noRequeue)
  | victim :: rest =>
    r <- Delete KRun (mkKey (Namespace victim) (Name victim)) ;;
    match r with
    | Some err =>
      if negb (IsNotFound err)
      then Ret (fail (wrapf "deleting DeployRun %q: %w" [Name victim] err))
      else delete_runs rest
    | None => delete_runs rest
    end
  end.

Definition Reconcile (req : ObjectKey) : go reply :=
  r <- Get KRun req ;;
  match r with
  | inr err => Ret (noRequeue, IgnoreNotFound err)
  | inl run =>
    let run : DeployRun := run in
    let machineNamespace :=
      if nr_Namespace (run_MachineRef (run_Spec run)) =s "" then Namespace run
      else nr_Namespace (run_MachineRef (run_Spec run)) in
    r <- Get KMachine (mkKey machineNamespace (nr_Name (run_MachineRef (run_Spec run)))) ;;
    match r with
    | inr err => Ret (noRequeue, IgnoreNotFound err)
    | inl machine =>
      r <- List_ KRun (Namespace run) ;;
      match r with
      | inr err => Ret (fail (wrapf "listing DeployRuns in namespace %q: %w" [Namespace run] err))
      | inl items =>
        let siblings := List.filter (fun item : DeployRun =>
          nr_Name (run_MachineRef (run_Spec item)) =s Name (machine : Machine)) items in
        now <- Now ;;
        delete_runs (runsToGC siblings machine retainedRunsPerMachine now)
      end
    end
  end.

(** ** Lemmas *)

Lemma victims_from_spec i retain protected now l (v : DeployRun) :
  v ∈ victims_from i retain protected now l <->
  exists j, l !! j = Some v /\ retain <= i + j /\ (Name v ∉ protected)
    /\ (minRunAgeBeforeGC <= now - CreationTimestamp v)%Z.
Proof.
  revert i. induction l as [|c l IH]; intros i; cbn [victims_from].
  { split; [intros H; inversion H|intros (j & H & _); by rewrite lookup_nil in H]. }
  assert (Hshift : v ∈ victims_from (S i) retain protected now l <->
    exists j, (c :: l) !! S j = Some v /\ retain <= i + S j /\ (Name v ∉ protected)
      /\ (minRunAgeBeforeGC <= now - CreationTimestamp v)%Z).
  { rewrite IH. split; intros (j & ? & ? & ?); exists j; (split; [done|split; [lia|done]]). }
  assert (Hskip : ~ (retain <= i + 0 /\ (Name c ∉ protected) /\ (minRunAgeBeforeGC <= now - CreationTimestamp c)%Z) ->
    (v ∈ victims_from (S i) retain protected now l <->
     exists j, (c :: l) !! j = Some v /\ retain <= i + j /\ (Name v ∉ protected)
       /\ (minRunAgeBeforeGC <= now - CreationTimestamp v)%Z)).
  { intros Hc. rewrite Hshift. split; [intros (j & H); by exists (S j)|].
    intros ([|j] & Hj & H); [|by exists j]. cbn in Hj. simplify_eq. exfalso. by apply Hc. }
  destruct (Nat.ltb_spec i retain); [apply Hskip; lia|].
  destruct (bool_decide_reflect (Name c ∈ protected)); [apply Hskip; tauto|].
  destruct (Z.ltb_spec (now - CreationTimestamp c) minRunAgeBeforeGC); [apply Hskip; lia|].
  rewrite elem_of_cons, Hshift. split.
  - intros [->|(j & H2)]; [exists 0|by exists (S j)]. split_and!; [done|lia|done|done].
  - intros ([|j] & Hj & H2); [left; by simplify_eq/=|right; by exists j].
Qed.

Lemma run_less_orders l : NoDup (Name <$> (run_meta <$> l)) -> orders run_less l.
Proof.
  intros Hnd. unfold orders, run_less. split_and!.
  - intros x y _ _. rewrite (Z.eqb_sym (CreationTimestamp y)).
    destruct (Z.eqb_spec (CreationTimestamp x) (CreationTimestamp y)); cbn [negb]; [apply ltb_asym|].
    rewrite Z.ltb_lt, Z.ltb_ge. lia.
  - intros x y z _ _ _.
    destruct (Z.eqb_spec (CreationTimestamp x) (CreationTimestamp y)),
      (Z.eqb_spec (CreationTimestamp y) (CreationTimestamp z)),
      (Z.eqb_spec (CreationTimestamp x) (CreationTimestamp z)); cbn [negb]; try lia;
      rewrite ?Z.ltb_lt; try lia. intros H1 H2. by eapply ltb_trans.
  - intros x y Hx Hy Hne. rewrite (Z.eqb_sym (CreationTimestamp y)).
    destruct (Z.eqb_spec (CreationTimestamp x) (CreationTimestamp y)); cbn [negb]; rewrite ?Z.ltb_lt; [|lia].
    apply ltb_total. intros E. apply Hne.
    apply list_elem_of_lookup in Hx as [i Hi], Hy as [j Hj].
    assert (i = j).
    { eapply (NoDup_lookup _ i j (Name x)); [exact Hnd| |]; rewrite !list_lookup_fmap; [by rewrite Hi|].
      rewrite Hj. cbn. congruence. }
    congruence.
Qed.

(** In a sorted list the elements before a position are those that sort before it. *)
Lemma sorted_before {A} (less : A -> A -> bool) l j v :
  orders less l -> StronglySorted (fun a b => less a b = true) l -> l !! j = Some v ->
  length (List.filter (fun x => less x v) l) = j.
Proof.
  intros (Has & _ & _) Hs. revert j. induction Hs as [|y l Hs IH Hy]; intros j Hj; [done|].
  rewrite Forall_forall in Hy.
  assert (Has' : forall x y, x ∈ l -> y ∈ l -> less x y = true -> less y x = false).
  { intros a b Ha Hb. apply Has; by right. }
  destruct j as [|j]; cbn in Hj.
  - simplify_eq. cbn. assert (less v v = false) as ->.
    { destruct (less v v) eqn:E; [|done]. rewrite (Has v v) in E; [done|left|left|done]. }
    apply length_zero_iff_nil. destruct (List.filter _ l) eqn:E; [done|].
    assert (Hin : In a (List.filter (fun x => less x v) l)) by (rewrite E; by left).
    apply filter_In in Hin as [Hin Hl]. apply list_elem_of_In in Hin.
    rewrite (Has v a) in Hl; [done|left|by right|by apply Hy].
  - cbn. rewrite (Hy v) by by eapply list_elem_of_lookup_2. cbn. f_equal. by apply IH.
Qed.

Lemma Permutation_filter_bool {A} (f : A -> bool) l l' : l ≡ₚ l' -> List.filter f l ≡ₚ List.filter f l'.
Proof.
  induction 1; cbn; repeat case_match; eauto using Permutation_skip, Permutation_swap, Permutation_trans.
Qed.

(** ** Theorems *)

Lemma runsToGC_iff runs machine retain now (v : DeployRun)
    (Hnames : NoDup (Name <$> (run_meta <$> runs))) :
  v ∈ runsToGC runs machine retain now <->
  v ∈ runs
  /\ retain <= length (List.filter (fun x => run_less x v) runs)
  /\ (forall ref, CurrentRunRef (Status machine) = Some ref \/ LastSuccessfulRunRef (Status machine) = Some ref
        \/ LastAttemptedRunRef (Status machine) = Some ref -> nr_Name ref <> Name v)
  /\ (minRunAgeBeforeGC <= now - CreationTimestamp v)%Z.
Proof.
  unfold runsToGC. rewrite victims_from_spec.
  assert (Hord := run_less_orders runs Hnames).
  assert (Hnd : NoDup runs) by (do 2 apply NoDup_fmap_1 in Hnames; done).
  assert (Hsorted := sort_by_sorted run_less runs Hord Hnd).
  assert (Hord' : orders run_less (sort_by run_less runs)).
  { unfold orders in *. setoid_rewrite (sort_by_perm run_less runs). exact Hord. }
  assert (Hlen : length (List.filter (fun x => run_less x v) runs) =
    length (List.filter (fun x => run_less x v) (sort_by run_less runs))).
  { apply Permutation_length. symmetry. apply Permutation_filter_bool, sort_by_perm. }
  assert (Hprot : Name v ∉ protectedRunNames machine <->
    forall ref, CurrentRunRef (Status machine) = Some ref \/ LastSuccessfulRunRef (Status machine) = Some ref
        \/ LastAttemptedRunRef (Status machine) = Some ref -> nr_Name ref <> Name v).
  { unfold protectedRunNames, protect.
    destruct (CurrentRunRef _), (LastSuccessfulRunRef _), (LastAttemptedRunRef _); set_solver. }
  rewrite Hlen, <- Hprot. split.
  - intros (j & Hj & Hr & Hp & Ha). split_and!; [| |done|done].
    + rewrite <- (sort_by_perm run_less runs). by eapply list_elem_of_lookup_2.
    + by rewrite (sorted_before run_less _ j v).
  - intros (Hin & Hr & Hp & Ha). rewrite <- (sort_by_perm run_less runs) in Hin.
    apply list_elem_of_lookup in Hin as [j Hj]. exists j. split_and!; [done| |done|done].
    by rewrite (sorted_before run_less _ j v) in Hr.
Qed.

(** The collector picks exactly the runs that are not named by the
    Machine's current, last successful or last attempted run, are at least ten
    minutes old, and have at least [retain] newer siblings: a protected, young
    or recent run is never deleted, and every other one is. *)
Theorem runsToGC_spec runs machine retain now (v : DeployRun)
    (Hnames : NoDup (Name <$> (run_meta <$> runs))) :
  v ∈ runsToGC runs machine retain now <->
  v ∈ runs
  /\ retain <= length (List.filter (fun x => run_less x v) runs)
  /\ (forall ref, CurrentRunRef (Status machine) = Some ref \/ LastSuccessfulRunRef (Status machine) = Some ref
        \/ LastAttemptedRunRef (Status machine) = Some ref -> nr_Name ref <> Name v)
  /\ (minRunAgeBeforeGC <= now - CreationTimestamp v)%Z.
Proof. by apply runsToGC_iff. Qed.

(** ** The reconciler *)

(** What the reconciler has read so far. *)
Record gc_view := mkView { seen_machine : option Machine; seen_runs : list DeployRun; seen_now : Z }.

Definition view_get (k : kind) (w : gc_view) : obj k + GoErr -> gc_view :=
  match k return obj k + GoErr -> gc_view with
  | KMachine => fun r =>
    match r with inl m => mkView (Some m) (seen_runs w) (seen_now w) | inr _ => w end
  | _ => fun _ => w
  end.

Definition view_list (k : kind) (w : gc_view) : list (obj k) + GoErr -> gc_view :=
  match k return list (obj k) + GoErr -> gc_view with
  | KRun => fun r =>
    match r with inl l => mkView (seen_machine w) l (seen_now w) | inr _ => w end
  | _ => fun _ => w
  end.

Definition view_step (w : gc_view) (e : eff) : resp e -> gc_view :=
  match e return resp e -> gc_view with
  | EGet k _ => view_get k w
  | EList k _ => view_list k w
  | ENow => fun now => mkView (seen_machine w) (seen_runs w) now
  | _ => fun _ => w
  end.

(** The run may go: it is a listed run of the Machine read, unprotected by its
    status, old enough, and outnumbered by newer siblings. *)
Definition collectable (w : gc_view) (key : ObjectKey) : Prop :=
  exists (m : Machine) (v : DeployRun), seen_machine w = Some m /\ v ∈ seen_runs w
    /\ key = mkKey (Namespace v) (Name v)
    /\ nr_Name (run_MachineRef (run_Spec v)) = Name m
    /\ retainedRunsPerMachine <= length (List.filter (fun x => run_less x v)
         (List.filter (fun x : DeployRun => nr_Name (run_MachineRef (run_Spec x)) =s Name m) (seen_runs w)))
    /\ (forall ref, CurrentRunRef (Status m) = Some ref \/ LastSuccessfulRunRef (Status m) = Some ref
          \/ LastAttemptedRunRef (Status m) = Some ref -> nr_Name ref <> Name v)
    /\ (minRunAgeBeforeGC <= seen_now w - CreationTimestamp v)%Z.

Definition gc_allowed (w : gc_view) (e : eff) : Prop :=
  match e with
  | EDelete k key => k = KRun /\ collectable w key
  | _ => is_write e = false
  end.

(** The server lists each DeployRun once. *)
Definition listed_once (k : kind) : list (obj k) + GoErr -> Prop :=
  match k return list (obj k) + GoErr -> Prop with
  | KRun => fun r => match r with inl l => NoDup (Name <$> (run_meta <$> l)) | inr _ => True end
  | _ => fun _ => True
  end.

Definition gc_assumed (e : eff) : resp e -> Prop :=
  match e return resp e -> Prop with EList k _ => listed_once k | _ => fun _ => True end.

Definition gc : monitor resp gc_view := mkMonitor gc_allowed (fun _ => gc_assumed) view_step.

Lemma delete_runs_gc victims w :
  (forall v : DeployRun, v ∈ victims -> collectable w (mkKey (Namespace v) (Name v))) ->
  wp gc (delete_runs victims) w (fun _ _ => True).
Proof.
  induction victims as [|v victims IH]; intros Hv; [done|]. cbn [delete_runs].
  assert (Hrest : wp gc (delete_runs victims) w (fun _ _ => True)).
  { apply IH. intros v' Hv'. apply Hv. by right. }
  unfold Delete, call. cbn [bind]. split; [split; [done|apply Hv; left]|].
  intros [err|] _; [|exact Hrest]. destruct (negb _); [done|exact Hrest].
Qed.

Lemma filter_names (f : DeployRun -> bool) l :
  NoDup (Name <$> (run_meta <$> l)) -> NoDup (Name <$> (run_meta <$> List.filter f l)).
Proof.
  induction l as [|x l IH]; cbn; [done|]. rewrite NoDup_cons. intros [Hx Hl].
  destruct (f x); cbn; [|auto]. apply NoDup_cons. split; [|auto].
  intros (y & Hy & (z & -> & Hz)%list_elem_of_fmap)%list_elem_of_fmap. apply Hx. rewrite Hy.
  apply list_elem_of_In, filter_In in Hz as [Hz _]. apply list_elem_of_fmap. exists (run_meta z).
  split; [done|]. apply list_elem_of_fmap. exists z. split; [done|]. by apply list_elem_of_In.
Qed.

(** Garbage collection is safe on every run of its reconciler, whatever
    fails on the way: the only writes it sends are deletions of DeployRuns it
    listed for the Machine it read, each with five newer siblings, none of them
    named by that Machine's current, last successful or last attempted run and
    none younger than ten minutes by the clock it read. *)
Theorem gc_deletes_only_collectable req tr res
    (Hrun : runs (Reconcile req) tr res) :
  obeys gc (mkView None [] 0) tr.
Proof.
  eapply (wp_obeys _ _ _ (fun _ _ => True)); [|exact Hrun]. unfold Reconcile, Get, List_, Now, call. cbn [bind].
  split; [done|]. intros [run|err] _; [|exact I]. cbv zeta. split; [done|]. intros [m|err] _; [|exact I].
  split; [done|]. intros [items|err] Hn; [|exact I]. split; [done|]. intros now _.
  apply (delete_runs_gc _ (mkView (Some m) items now)). cbn in Hn.
  intros v (Hin & Hc & Hp & Ha)%runsToGC_iff; [|by apply filter_names].
  apply list_elem_of_In, filter_In in Hin as [Hin Hm]. apply String.eqb_eq in Hm.
  exists m, v. split_and!; [done|by apply list_elem_of_In|done|done|exact Hc|done|done].
Qed.

(** ** Witnesses *)

Definition old_run (name : string) (created : Z) : DeployRun :=
  mkRun (emptyMeta <| Name := name |> <| Namespace := "ns" |> <| CreationTimestamp := created |>)
    (mkRunSpec (mkNameRef "" "m1") None None None [] "") (mkRunStatus "" [] [] None []).

Definition six_runs : list DeployRun :=
  [old_run "m1-a" 100; old_run "m1-b" 200; old_run "m1-c" 300; old_run "m1-d" 400;
   old_run "m1-e" 500; old_run "m1-f" 600].

Definition gc_machine : Machine := Demo.machine ∅ (Demo.status MachineStateProvisioned).

Lemma runsToGC_spec_witness :
  runsToGC six_runs gc_machine 5 (20 * Minute) = [old_run "m1-a" 100] /\
  5 <= length (List.filter (fun x => run_less x (old_run "m1-a" 100)) six_runs).
Proof.
  assert (E : runsToGC six_runs gc_machine 5 (20 * Minute) = [old_run "m1-a" 100])
    by (vm_compute; reflexivity).
  split; [exact E|].
  apply (runsToGC_spec six_runs gc_machine 5 (20 * Minute) (old_run "m1-a" 100)).
  - apply (bool_decide_unpack _). vm_compute. exact I.
  - rewrite E. left.
Defined.

Definition gc_world : Demo.world :=
  Demo.mkWorld (Some gc_machine) None (Some (old_run "m1-f" 600)) None None None six_runs [] (outcome Complete).

(** The same cluster twenty minutes later. *)
Definition gc_handler (e : eff) (s : unit) : option (resp e * unit) :=
  match e return option (resp e * unit) with
  | ENow => Some ((20 * Minute)%Z, s)
  | e => Demo.handler gc_world e s
  end.

Lemma gc_deletes_only_collectable_witness :
  exists res tr, exec gc_handler (Reconcile (mkKey "ns" "m1-f")) tt =
      Some (res, tt, tr ++ [ev (EDelete KRun (mkKey "ns" "m1-a")) (None : resp (EDelete KRun (mkKey "ns" "m1-a")))])
    /\ obeys gc (mkView None [] 0)
         (tr ++ [ev (EDelete KRun (mkKey "ns" "m1-a")) (None : resp (EDelete KRun (mkKey "ns" "m1-a")))]).
Proof.
  eexists _, [_; _; _; _]. split; [vm_compute; reflexivity|].
  eapply (gc_deletes_only_collectable (mkKey "ns" "m1-f")).
  eapply (exec_runs gc_handler _ tt _ tt). vm_compute. reflexivity.
Defined.
