(* ===== verification/Claim.v ===== *)
(** * Claim: the MachineClaim reconciler

    [src/internal/controller/machineclaim_controller.go].  The claim the Go
    code mutates is passed along; an accepted write decodes the server's
    object into it.  [metav1.LabelSelectorAsSelector] is a parameter: a
    selector is an error or a predicate on labels. *)

From S2P Require Import Prelude Api Effects Cluster ClaimMatch Machine.
Local Open Scope string_scope.
Local Open Scope list_scope.
Local Open Scope nat_scope.

Definition machineClaimNoCandidateRequeueInterval : Z := 30 * Second.

Definition claimRefMatches (ref : option MachineClaimReference) (claim : MachineClaim) : bool :=
  match ref with
  | None => false
  | Some ref => (cr_Name ref =s Name claim) && (cr_Namespace ref =s Namespace claim) &&
                (cr_UID ref =s UID claim)
  end.

Definition machineIsFreeAndAvailable (machine : Machine) : bool :=
  bool_decide (ClaimRef (Spec machine) = None) && (State (Status machine) =s MachineStateAvailable).

Definition with_claim_status (f : MachineClaimStatus -> MachineClaimStatus) (c : MachineClaim) : MachineClaim :=
  c <| claim_Status := f (claim_Status c) |>.

Definition set_claimRef (ref : option MachineClaimReference) (m : Machine) : Machine :=
  m <| Spec := (Spec m) <| ClaimRef := ref |> |>.

Definition claim_reference (claim : MachineClaim) : MachineClaimReference :=
  mkClaimReference (Name claim) (Namespace claim) (UID claim).

Section ClaimReconciler.
Context `{ApiMachinery}.
Context (label_selector : LabelSelector -> (gmap string string -> bool) + GoErr).

(** The [Bound] condition. *)
Definition bound_condition (claim : MachineClaim) (status reason message : string) (s : MachineClaimStatus)
  : MachineClaimStatus :=
  s <| cst_Conditions := SetStatusCondition (cst_Conditions s)
    (mkCondition MachineClaimConditionBound status (Generation claim) reason message) |>.

(** [r.Status().Update(ctx, claim)]. *)
Definition update_status (claim : MachineClaim) (fmt : string) : go (MachineClaim + GoErr) :=
  r <- StatusUpdate KClaim claim ;;
  match r with
  | inr err => Ret (inr (wrapf fmt [Name claim] err))
  | inl c => Ret (inl (c : MachineClaim))
  end.

Definition findBoundMachine (claim : MachineClaim) : go (option Machine + GoErr) :=
  let name := cst_MachineName (claim_Status claim) in
  if name <>s "" then
    r <- Get KMachine (mkKey (Namespace claim) name) ;;
    match r with
    | inr err =>
      Ret (if IsNotFound err then inl None
           else inr (wrapf "machineclaim %q: getting bound machine %q: %w" [Name claim; name] err))
    | inl machine =>
      Ret (inl (if claimRefMatches (ClaimRef (Spec machine)) claim then Some (machine : Machine) else None))
    end
  else
    r <- List_ KMachine (Namespace claim) ;;
    match r with
    | inr err => Ret (inr (wrapf "machineclaim %q: listing machines: %w" [Name claim] err))
    | inl machines =>
      Ret (inl (find_first (fun m : Machine => claimRefMatches (ClaimRef (Spec m)) claim) machines))
    end.

Definition clearClaimRef (machine : Machine) : go (Machine + GoErr) :=
  r <- Patch KMachine machine (set_claimRef None machine) ;;
  match r with
  | inr err => Ret (inr (wrapf "machine %q: clearing claimRef: %w" [Name machine] err))
  | inl m => Ret (inl (m : Machine))
  end.

Definition onDelete (claim : MachineClaim) : go reply :=
  if negb (ContainsFinalizer (Finalizers claim) MachineClaimFinalizer) then Ret (done_ noRequeue) else
  r <- findBoundMachine claim ;;
  match r with
  | inr err => Ret (fail err)
  | inl machine =>
    r <- match machine with
         | None => Ret None
         | Some m => r <- clearClaimRef m ;; match r with inr err => Ret (Some err) | inl _ => Ret None end
         end ;;
    match r with
    | Some err => Ret (fail err)
    | None =>
      let '(fs, _) := RemoveFinalizer (Finalizers claim) MachineClaimFinalizer in
      r <- Update KClaim (claim <| claim_meta := (claim_meta claim) <| Finalizers := fs |> |>) ;;
      match r with
      | inr err => Ret (fail err)
      | inl _ => Ret (done_ noRequeue)
      end
    end
  end.

(** The loop over the listed machines. *)
Fixpoint clear_orphans (namespace name : string) (machines : list Machine) : go reply :=
  match machines with
  | [] => Ret (done_ noRequeue)
  | machine :: rest =>
    match ClaimRef (Spec machine) with
    | None => clear_orphans namespace name rest
    | Some ref =>
      if (cr_Name ref <>s name) || (cr_Namespace ref <>s namespace)
      then clear_orphans namespace name rest else
      r <- clearClaimRef machine ;;
      match r with
      | inr err => Ret (fail err)
      | inl m =>
        Event (Name (m : Machine)) EventTypeWarning "ClaimLost"
          (sprintf "clearing claimRef: MachineClaim %s/%s no longer exists" [namespace; name]) ;;
        clear_orphans namespace name rest
      end
    end
  end.

Definition clearOrphanedClaimRefs (namespace name : string) : go reply :=
  r <- List_ KMachine namespace ;;
  match r with
  | inr err => Ret (fail (wrapf "listing machines to find a claimRef orphaned by the deletion of %s/%s: %w"
                 [namespace; name] err))
  | inl machines => clear_orphans namespace name machines
  end.

Definition recordLostBinding (claim : MachineClaim) (reason : string) : go reply :=
  let lostMachine := cst_MachineName (claim_Status claim) in
  let claim := with_claim_status (fun s => bound_condition claim ConditionFalse "LostBinding" reason
    (s <| cst_Phase := MachineClaimPhasePending |> <| cst_MachineName := "" |> <| cst_BoundAt := @None Z |>)) claim in
  r <- update_status claim "machineclaim %q: recording lost binding: %w" ;;
  match r with
  | inr err => Ret (fail err)
  | inl claim =>
    Event (Name claim) EventTypeWarning "LostBinding"
      (sprintf "cleared binding to machine %q: %s" [lostMachine; reason]) ;;
    Ret (done_ requeue)
  end.

(** What the [Ready] condition is to say of [machine]. *)
Definition ready_condition (claim : MachineClaim) (machine : Machine) : Condition :=
  if State (Status machine) =s MachineStateProvisioned
  then mkCondition MachineClaimConditionReady ConditionTrue (Generation claim) "MachineProvisioned"
         (sprintf "machine %q reached Provisioned" [Name machine])
  else mkCondition MachineClaimConditionReady ConditionFalse (Generation claim) "MachineNotProvisioned"
         (sprintf "machine %q has not reached Provisioned" [Name machine]).

(** The comparison against the existing [Ready] condition. *)
Definition ready_current (s : MachineClaimStatus) (want : Condition) : bool :=
  match FindStatusCondition (cst_Conditions s) MachineClaimConditionReady with
  | None => false
  | Some existing =>
    (cd_Status existing =s cd_Status want) && (cd_Reason existing =s cd_Reason want) &&
    (cd_ObservedGeneration existing =? cd_ObservedGeneration want)%Z
  end.

(** The four updates of [mirrorMachineStatus], each with the [changed] flag. *)
Definition mirrored (claim : MachineClaim) (machine : Machine) : MachineClaim * bool :=
  let st := Status machine in
  let '(s, changed) := (claim_Status claim, false) in
  let '(s, changed) :=
    if negb (nameRefEqual (cst_CurrentRunRef s) (CurrentRunRef st))
    then (s <| cst_CurrentRunRef := CurrentRunRef st |>, true) else (s, changed) in
  let '(s, changed) :=
    if negb (nameRefEqual (cst_LastSuccessfulRunRef s) (LastSuccessfulRunRef st))
    then (s <| cst_LastSuccessfulRunRef := LastSuccessfulRunRef st |>, true) else (s, changed) in
  let ready := ready_condition claim machine in
  let '(s, changed) :=
    if negb (ready_current s ready)
    then (s <| cst_Conditions := SetStatusCondition (cst_Conditions s) ready |>, true) else (s, changed) in
  let '(s, changed) :=
    if negb (IsStatusConditionTrue (cst_Conditions s) MachineClaimConditionBound)
    then (bound_condition claim ConditionTrue "Bound" (sprintf "bound to machine %q" [Name machine]) s, true)
    else (s, changed) in
  (with_claim_status (fun _ => s) claim, changed).

Definition mirrorMachineStatus (claim : MachineClaim) (machine : Machine) : go reply :=
  let '(claim, changed) := mirrored claim machine in
  if negb changed then Ret (done_ noRequeue) else
  r <- update_status claim "machineclaim %q: mirroring machine status: %w" ;;
  match r with
  | inr err => Ret (fail err)
  | inl _ => Ret (done_ noRequeue)
  end.

Definition reconcileBound (claim : MachineClaim) : go reply :=
  let name := cst_MachineName (claim_Status claim) in
  r <- Get KMachine (mkKey (Namespace claim) name) ;;
  match r with
  | inr err =>
    if IsNotFound err
    then recordLostBinding claim (sprintf "bound machine %q no longer exists" [name])
    else Ret (fail (wrapf "machineclaim %q: getting bound machine %q: %w" [Name claim; name] err))
  | inl machine =>
    if negb (claimRefMatches (ClaimRef (Spec machine)) claim)
    then recordLostBinding claim (sprintf "machine %q no longer carries this claim's claimRef" [name])
    else mirrorMachineStatus claim machine
  end.

(** The in-memory claim is not used after an adoption. *)
Definition adoptExistingBinding (claim : MachineClaim) : go (bool + GoErr) :=
  r <- findBoundMachine claim ;;
  match r with
  | inr err => Ret (inr err)
  | inl None => Ret (inl false)
  | inl (Some machine) =>
    now <- Now ;;
    let claim := with_claim_status (fun s =>
      let s := s <| cst_Phase := MachineClaimPhaseBound |> <| cst_MachineName := Name (machine : Machine) |> in
      let s := match cst_BoundAt s with None => s <| cst_BoundAt := Some now |> | Some _ => s end in
      bound_condition claim ConditionTrue "Bound" (sprintf "bound to machine %q" [Name (machine : Machine)]) s) claim in
    r <- update_status claim "machineclaim %q: recording bound status: %w" ;;
    match r with
    | inr err => Ret (inr err)
    | inl _ => Ret (inl true)
    end
  end.

Definition markNoCandidate (claim : MachineClaim) (message : string) : go reply :=
  let claim := with_claim_status (fun s => bound_condition claim ConditionFalse "NoMatchingMachine" message
    (s <| cst_Phase := MachineClaimPhasePending |>)) claim in
  r <- update_status claim "machineclaim %q: recording no matching machine: %w" ;;
  match r with
  | inr err => Ret (fail err)
  | inl _ => Ret (done_ (requeueAfter machineClaimNoCandidateRequeueInterval))
  end.

Definition markFailed (claim : MachineClaim) (reason message : string) : go reply :=
  let claim := with_claim_status (fun s => bound_condition claim ConditionFalse reason message
    (s <| cst_Phase := MachineClaimPhaseFailed |>)) claim in
  r <- update_status claim "machineclaim %q: recording failed phase: %w" ;;
  match r with
  | inr err => Ret (fail err)
  | inl claim => Event (Name claim) EventTypeWarning reason message ;; Ret (done_ noRequeue)
  end.

Definition tryBind (claim : MachineClaim) (machine : Machine) : go (bool + GoErr) :=
  r <- Update KMachine (set_claimRef (Some (claim_reference claim)) machine) ;;
  match r with
  | inr err =>
    Ret (if IsConflict err then inl false
         else inr (wrapf "machine %q: binding claimRef: %w" [Name machine] err))
  | inl machine =>
    now <- Now ;;
    let claim := with_claim_status (fun s =>
      bound_condition claim ConditionTrue "Bound" (sprintf "bound to machine %q" [Name (machine : Machine)])
        (s <| cst_Phase := MachineClaimPhaseBound |> <| cst_MachineName := Name (machine : Machine) |>
           <| cst_BoundAt := Some now |>)) claim in
    r <- update_status claim "machineclaim %q: recording bound status: %w" ;;
    match r with
    | inr err => Ret (inr err)
    | inl claim =>
      Event (Name claim) EventTypeNormal "Bound" (sprintf "bound to machine %q" [Name (machine : Machine)]) ;;
      Ret (inl true)
    end
  end.

Definition reconcilePendingByName (claim : MachineClaim) : go reply :=
  let name := cl_MachineName (claim_Spec claim) in
  r <- Get KMachine (mkKey (Namespace claim) name) ;;
  match r with
  | inr err =>
    if IsNotFound err
    then markFailed claim "MachineNotFound"
           (sprintf "spec.machineName names Machine %q, which does not exist" [name])
    else Ret (fail (wrapf "machineclaim %q: getting machine %q: %w" [Name claim; name] err))
  | inl machine =>
    if negb (machineIsFreeAndAvailable machine)
    then markNoCandidate claim
           (sprintf "machine %q is not Available, or is already bound to another claim" [name])
    else
      r <- tryBind claim machine ;;
      match r with
      | inr err => Ret (fail err)
      | inl true => Ret (done_ requeue)
      | inl false => markNoCandidate claim
          (sprintf "machine %q was bound by another MachineClaim first" [name])
      end
  end.

Definition machineMatchesHardware (machine : Machine) (sel : ClaimHardwareSelector) : go (bool + GoErr) :=
  r <- Get KHardware (mkKey (Namespace machine) (Name machine)) ;;
  match r with
  | inr err =>
    Ret (if IsNotFound err then inl false
         else inr (wrapf "machine %q: getting MachineHardware: %w" [Name machine] err))
  | inl hw =>
    match hardwareMatchesSelector (hw_Spec hw) sel with
    | Some b => Ret (inl b)
    | None => panic "hardwareMatchesSelector: index out of range"
    end
  end.

(** The loop over the listed machines, the candidates in list order. *)
Fixpoint collect_candidates (matches : gmap string string -> bool) (hardware : option ClaimHardwareSelector)
    (machines : list Machine) : go (list Machine + GoErr) :=
  match machines with
  | [] => Ret (inl [])
  | machine :: rest =>
    if negb (machineIsFreeAndAvailable machine) then collect_candidates matches hardware rest else
    if negb (matches (Labels machine)) then collect_candidates matches hardware rest else
    r <- match hardware with
         | None => Ret (inl true)
         | Some sel => machineMatchesHardware machine sel
         end ;;
    match r with
    | inr err => Ret (inr err)
    | inl false => collect_candidates matches hardware rest
    | inl true =>
      r <- collect_candidates matches hardware rest ;;
      match r with
      | inr err => Ret (inr err)
      | inl l => Ret (inl (machine :: l))
      end
    end
  end.

Definition name_less (a b : Machine) : bool := String.ltb (Name a) (Name b).

Definition matchingCandidates (claim : MachineClaim) : go (list Machine + GoErr) :=
  match cl_Selector (claim_Spec claim) with
  | None => panic "matchingCandidates: nil selector"
  | Some sel =>
    match label_selector (sel_LabelSelector sel) with
    | inr err => Ret (inr (wrapf "machineclaim %q: parsing spec.selector: %w" [Name claim] err))
    | inl matches =>
      r <- List_ KMachine (Namespace claim) ;;
      match r with
      | inr err => Ret (inr (wrapf "machineclaim %q: listing machines: %w" [Name claim] err))
      | inl machines =>
        r <- collect_candidates matches (sel_Hardware sel) machines ;;
        match r with
        | inr err => Ret (inr err)
        | inl candidates => Ret (inl (sort_by name_less candidates))
        end
      end
    end
  end.

Fixpoint bind_first (claim : MachineClaim) (candidates : list Machine) : go reply :=
  match candidates with
  | [] => markNoCandidate claim "no Machine currently matches spec.selector"
  | machine :: rest =>
    r <- tryBind claim machine ;;
    match r with
    | inr err => Ret (fail err)
    | inl true => Ret (done_ requeue)
    | inl false => bind_first claim rest
    end
  end.

Definition reconcilePendingBySelector (claim : MachineClaim) : go reply :=
  r <- matchingCandidates claim ;;
  match r with
  | inr err => Ret (fail err)
  | inl candidates => bind_first claim candidates
  end.

Definition reconcilePending (claim : MachineClaim) : go reply :=
  r <- adoptExistingBinding claim ;;
  match r with
  | inr err => Ret (fail err)
  | inl true => Ret (done_ requeue)
  | inl false =>
    if cl_MachineName (claim_Spec claim) <>s "" then reconcilePendingByName claim else
    match cl_Selector (claim_Spec claim) with
    | Some _ => reconcilePendingBySelector claim
    | None => markNoCandidate claim
        "spec gives neither machineName nor selector: nothing can bind this claim"
    end
  end.

Definition onChange (claim : MachineClaim) : go reply :=
  if cst_Phase (claim_Status claim) =s MachineClaimPhaseBound then reconcileBound claim
  else reconcilePending claim.

Definition claim_deleting (claim : MachineClaim) : bool :=
  match DeletionTimestamp claim with None => false | Some t => negb (t =? 0)%Z end.

Definition Reconcile (req : ObjectKey) : go reply :=
  r <- Get KClaim req ;;
  match r with
  | inr err =>
    if IsNotFound err then clearOrphanedClaimRefs (key_Namespace req) (key_Name req) else Ret (fail err)
  | inl claim =>
    let claim : MachineClaim := claim in
    if claim_deleting claim then onDelete claim else
    if negb (ContainsFinalizer (Finalizers claim) MachineClaimFinalizer) then
      let '(fs, _) := AddFinalizer (Finalizers claim) MachineClaimFinalizer in
      r <- Update KClaim (claim <| claim_meta := (claim_meta claim) <| Finalizers := fs |> |>) ;;
      match r with
      | inr err => Ret (fail err)
      | inl _ => Ret (done_ requeue)
      end
    else onChange claim
  end.

Definition mapMachineToClaims (machine : Machine) : go (list ObjectKey) :=
  match ClaimRef (Spec machine) with
  | Some ref => Ret [mkKey (cr_Namespace ref) (cr_Name ref)]
  | None =>
    if State (Status machine) <>s MachineStateAvailable then Ret [] else
    r <- List_ KClaim (Namespace machine) ;;
    match r with
    | inr _ => Ret []
    | inl claims =>
      Ret (map (fun c : MachineClaim => mkKey (Namespace c) (Name c))
        (List.filter (fun c : MachineClaim =>
          cst_Phase (claim_Status c) =s MachineClaimPhasePending) claims))
    end
  end.

End ClaimReconciler.
