(* ===== verification/ClaimSafety.v ===== *)
(** * ClaimSafety: what a MachineClaim reconcile does to Machines

    The monitor [binding] watches every run of [Claim.Reconcile]: a claimRef is
    written only onto a Machine that was read free and Available, at most once
    per reconcile, and cleared only where it names the claim at hand.  With the
    API server's optimistic concurrency this gives [binding_never_steals].
    [mirror_settles] shows that mirroring a Machine's progress is idempotent. *)

From S2P Require Import Prelude Api Effects Cluster ClaimMatch Machine MachineLaws Claim.
Local Open Scope string_scope.
Local Open Scope list_scope.
Local Open Scope nat_scope.

(** ** The monitor *)

Record bind_view := mkBind { b_claim : option MachineClaim; b_seen : list Machine; b_bound : bool }.

Definition bind_get (k : kind) (w : bind_view) : obj k + GoErr -> bind_view :=
  match k return obj k + GoErr -> bind_view with
  | KClaim => fun r => match r with inl c => mkBind (Some c) (b_seen w) (b_bound w) | inr _ => w end
  | KMachine => fun r => match r with inl m => mkBind (b_claim w) (m :: b_seen w) (b_bound w) | inr _ => w end
  | _ => fun _ => w
  end.

Definition bind_list (k : kind) (w : bind_view) : list (obj k) + GoErr -> bind_view :=
  match k return list (obj k) + GoErr -> bind_view with
  | KMachine => fun r => match r with inl l => mkBind (b_claim w) (l ++ b_seen w) (b_bound w) | inr _ => w end
  | _ => fun _ => w
  end.

Definition bind_update (k : kind) (w : bind_view) : obj k + GoErr -> bind_view :=
  match k return obj k + GoErr -> bind_view with
  | KMachine => fun r => match r with inl _ => mkBind (b_claim w) (b_seen w) true | inr _ => w end
  | _ => fun _ => w
  end.

Definition bind_step (w : bind_view) (e : eff) : resp e -> bind_view :=
  match e return resp e -> bind_view with
  | EGet k _ => bind_get k w
  | EList k _ => bind_list k w
  | EUpdate k _ => bind_update k w
  | _ => fun _ => w
  end.

(** The Machine [base] holds a reference to the claim [req] names; where that
    claim still exists it is of the same incarnation and being deleted. *)
Definition holds_claim (req : ObjectKey) (w : bind_view) (base : Machine) : Prop :=
  exists ref, ClaimRef (Spec base) = Some ref /\ mkKey (cr_Namespace ref) (cr_Name ref) = req
    /\ forall c, b_claim w = Some c -> cr_UID ref = UID c /\ claim_deleting c = true.

Definition bind_allowed (req : ObjectKey) (w : bind_view) (e : eff) : Prop :=
  match e with
  | EUpdate KMachine m' => b_bound w = false /\
      exists c m, b_claim w = Some c /\ claim_deleting c = false
        /\ m ∈ b_seen w /\ machineIsFreeAndAvailable m = true /\ m' = set_claimRef (Some (claim_reference c)) m
  | EPatch KMachine base m' => base ∈ b_seen w /\ m' = set_claimRef None base /\ holds_claim req w base
  | EUpdate KClaim _ | EStatusUpdate KClaim _ => True
  | EPanic _ => False
  | _ => is_write e = false /\ is_deployer_call e = false
  end.

Definition claim_named (k : kind) (key : ObjectKey) : obj k + GoErr -> Prop :=
  match k return obj k + GoErr -> Prop with
  | KClaim => fun r => match r with inl c => mkKey (Namespace c) (Name c) = key | inr _ => True end
  | _ => fun _ => True
  end.

Definition bind_assumed (e : eff) : resp e -> Prop :=
  match e return resp e -> Prop with EGet k key => claim_named k key | _ => fun _ => True end.

Definition binding (req : ObjectKey) : monitor resp bind_view :=
  mkMonitor (bind_allowed req) (fun _ => bind_assumed) bind_step.

Section ClaimSafety.
Context `{ApiMachinery}.
Context (label_selector : LabelSelector -> (gmap string string -> bool) + GoErr).
Context (req : ObjectKey).

Abbreviation any := (fun _ _ => True).

(** Programs that only read, write the claim or emit events. *)
Definition own_write (e : eff) : Prop :=
  match e with
  | EUpdate KClaim _ | EStatusUpdate KClaim _ => True
  | EPanic _ => False
  | _ => is_write e = false /\ is_deployer_call e = false
  end.

Lemma own_binding {A} (p : go A) w : calls own_write p -> wp (binding req) p w any.
Proof.
  revert w. induction p as [a|e k IH]; intros w; [done|]. intros [He Hk]. split.
  - destruct e; try done; destruct k0; first [done | by destruct He].
  - intros r _. apply IH. exact (Hk r I).
Qed.

Ltac own := apply own_binding; repeat first [done | calls_step].

Lemma claimRefMatches_spec ref claim :
  claimRefMatches ref claim = true <-> ref = Some (claim_reference claim).
Proof.
  destruct ref as [[n ns u]|]; cbn; [|done]. unfold claim_reference.
  rewrite !andb_true_iff, !String.eqb_eq. split; [intros [[-> ->] ->]; done|by intros [= -> -> ->]].
Qed.

(** The reads keep what was seen and add to it. *)
Definition extends (w w' : bind_view) : Prop :=
  b_claim w' = b_claim w /\ b_bound w' = b_bound w /\ forall m, m ∈ b_seen w -> m ∈ b_seen w'.

#[local] Instance extends_preorder : PreOrder extends.
Proof. split; [by split|]. intros w1 w2 w3 (? & ? & ?) (? & ? & ?). split_and!; [congruence|congruence|auto]. Qed.

Lemma findBoundMachine_binding claim w :
  wp (binding req) (findBoundMachine claim) w (fun r w' => extends w w' /\
    forall m, r = inl (Some m) -> m ∈ b_seen w' /\ ClaimRef (Spec m) = Some (claim_reference claim)).
Proof.
  unfold findBoundMachine. cbv zeta. destruct (_ <>s "").
  - split; [done|]. intros [m|err] _; cbn.
    + split; [split_and!; [done|done|]; intros; by right|]. intros m' Hm.
      destruct (claimRefMatches (ClaimRef (Spec m)) claim) eqn:E; [|done]. simplify_eq.
      split; [left|by apply claimRefMatches_spec].
    + split; [done|]. intros m Hm. by destruct (IsNotFound err).
  - split; [done|]. intros [l|err] _; cbn; [|split; [done|by intros]].
    split; [split_and!; [done|done|]; intros; apply elem_of_app; by right|].
    intros m [= Hm]. apply find_first_Some in Hm as [Hin Hm].
    split; [apply elem_of_app; by left|by apply claimRefMatches_spec].
Qed.

Lemma clearClaimRef_binding m w :
  m ∈ b_seen w -> holds_claim req w m ->
  wp (binding req) (clearClaimRef m) w (fun _ w' => w' = w).
Proof. intros Hm Hh. split; [done|]. by intros [m'|err] _. Qed.

Lemma clear_orphans_binding l w :
  b_claim w = None -> (forall m, m ∈ l -> m ∈ b_seen w) ->
  wp (binding req) (clear_orphans (key_Namespace req) (key_Name req) l) w any.
Proof.
  intros Hc. induction l as [|m l IH]; intros Hl; [done|]. cbn [clear_orphans].
  assert (Hrest : wp (binding req) (clear_orphans (key_Namespace req) (key_Name req) l) w any).
  { apply IH. intros m' Hm'. apply Hl. by right. }
  destruct (ClaimRef (Spec m)) as [ref|] eqn:Href; [|done].
  destruct (_ || _) eqn:Hne; [done|]. crush_ctx.
  eapply wp_seq; [apply clearClaimRef_binding; [apply Hl; left|]|].
  { exists ref. split_and!; [done| |by rewrite Hc]. destruct req. cbn in *. congruence. }
  intros [m'|err] w' ->; [|done]. split; [done|]. intros [] _. exact Hrest.
Qed.

(** One attempt to bind a candidate; a lost race leaves the way free for the next. *)
Lemma tryBind_binding claim m w :
  b_claim w = Some claim -> claim_deleting claim = false -> b_bound w = false -> m ∈ b_seen w -> machineIsFreeAndAvailable m = true ->
  wp (binding req) (tryBind claim m) w (fun r w' => r = inl false -> w' = w).
Proof.
  intros Hc Hd Hb Hm Hf. unfold tryBind. apply wp_bind. split.
  { split; [done|]. exists claim, m. done. }
  intros [m'|err] _; cbn [wp].
  - apply wp_bind. split; [done|]. intros now _. cbn [wp]. cbv zeta. apply wp_bind.
    eapply wp_mono; [own|]. intros [c|err] w' _; [|done].
    apply wp_bind. split; [done|]. intros [] _. done.
  - destruct (IsConflict err); [|done]. intros _. cbn. by destruct w.
Qed.

Lemma bind_first_binding claim l w :
  b_claim w = Some claim -> claim_deleting claim = false -> b_bound w = false ->
  (forall m, m ∈ l -> m ∈ b_seen w /\ machineIsFreeAndAvailable m = true) ->
  wp (binding req) (bind_first claim l) w any.
Proof.
  intros Hc Hd Hb. induction l as [|m l IH]; intros Hl; cbn [bind_first]; [own|].
  destruct (Hl m) as [Hm Hf]; [left|].
  eapply wp_seq; [by apply tryBind_binding|]. intros [[]|err] w' Hw; [done| |done].
  rewrite Hw by done. apply IH. intros m' Hm'. apply Hl. by right.
Qed.

Lemma hardware_total hw sel : hardwareMatchesSelector hw sel <> None.
Proof.
  unfold hardwareMatchesSelector.
  destruct (disksSatisfy_decides (hw_Disks hw) (hs_Disks sel)) as (b & -> & _).
  repeat case_match; done.
Qed.

Lemma collect_candidates_binding matches hardware l w :
  wp (binding req) (collect_candidates matches hardware l) w (fun r w' => extends w w' /\
    forall c, r = inl c -> forall m, m ∈ c -> m ∈ l /\ machineIsFreeAndAvailable m = true).
Proof.
  revert w. induction l as [|m l IH]; intros w; cbn [collect_candidates].
  { split; [done|]. intros c [= <-] m Hm. inversion Hm. }
  assert (Hskip : wp (binding req) (collect_candidates matches hardware l) w (fun r w' => extends w w' /\
    forall c, r = inl c -> forall m', m' ∈ c -> m' ∈ m :: l /\ machineIsFreeAndAvailable m' = true)).
  { eapply wp_mono; [apply IH|]. intros r w' [He Hr]. split; [done|]. intros c Hc m' Hm'.
    destruct (Hr c Hc m' Hm'). split; [by right|done]. }
  destruct (machineIsFreeAndAvailable m) eqn:Hf; cbn [negb]; [|done].
  destruct (negb (matches (Labels m))); [done|].
  eapply wp_seq with (Q := fun _ w' => w' = w).
  { destruct hardware as [sel|]; [|done]. split; [done|]. intros [hw|err] _; cbn; [|done].
    pose proof (hardware_total (hw_Spec hw) sel). by destruct (hardwareMatchesSelector (hw_Spec hw) sel). }
  intros [[]|err] w' ->; [|done|done].
  eapply wp_seq; [apply IH|]. intros [c|err] w' [He Hr]; (split; [done|]); [|done].
  intros c' [= <-] m' [->|Hm']%elem_of_cons; [split; [left|done]|].
  destruct (Hr c eq_refl m' Hm'). split; [by right|done].
Qed.

Lemma matchingCandidates_binding claim w :
  cl_Selector (claim_Spec claim) <> None ->
  wp (binding req) (matchingCandidates label_selector claim) w (fun r w' => extends w w' /\
    forall c, r = inl c -> forall m, m ∈ c -> m ∈ b_seen w' /\ machineIsFreeAndAvailable m = true).
Proof.
  intros Hsel. unfold matchingCandidates. destruct (cl_Selector (claim_Spec claim)) as [sel|]; [|done].
  destruct (label_selector _) as [matches|err]; [|done].
  split; [done|]. intros [l|err] _; cbn [bind]; [|done].
  eapply wp_seq; [apply collect_candidates_binding|].
  assert (Hext : forall w', extends (step (binding req) w (EList KMachine (Namespace claim)) (inl l)) w' ->
    extends w w' /\ forall m, m ∈ l -> m ∈ b_seen w').
  { intros w' (Hc & Hb & Hs). split; [split_and!; [done|done|]|]; intros m Hm; apply Hs; cbn;
      apply elem_of_app; auto. }
  intros [c|err] w' [[Hw Hl]%Hext Hr]; (split; [done|]); [|done].
  intros c' [= <-] m Hm. rewrite sort_by_perm in Hm. destruct (Hr c eq_refl m Hm). auto.
Qed.

Lemma reconcilePending_binding claim w :
  b_claim w = Some claim -> claim_deleting claim = false -> b_bound w = false ->
  wp (binding req) (reconcilePending label_selector claim) w any.
Proof.
  intros Hc Hd Hb. unfold reconcilePending.
  eapply wp_seq with (Q := fun r w' => extends w w').
  { unfold adoptExistingBinding. eapply wp_seq; [apply findBoundMachine_binding|].
    intros [[m|]|err] w' [He _]; [|done|done]. split; [done|]. intros now _. cbv zeta.
    unfold update_status, StatusUpdate, call. cbn [bind]. split; [done|]. intros [c|err] _; exact He. }
  intros [[]|err] w' (Hc' & Hb' & _); [done| |done].
  destruct (_ <>s "").
  - unfold reconcilePendingByName. cbv zeta. unfold Get, call. cbn [bind].
    split; [done|]. intros [m|err] _.
    + destruct (machineIsFreeAndAvailable m) eqn:Hf; cbn [negb]; [|own].
      eapply wp_seq; [apply tryBind_binding; cbn; try congruence; left|].
      intros [[]|err] w2 _; [done|own|done].
    + destruct (IsNotFound err); [own|done].
  - destruct (cl_Selector (claim_Spec claim)) eqn:Hsel; [|own].
    unfold reconcilePendingBySelector.
    eapply wp_seq; [apply matchingCandidates_binding; by rewrite Hsel|].
    intros [c|err] w2 [(Hc2 & Hb2 & _) Hr]; [|done].
    apply bind_first_binding; [congruence|done|congruence|]. by apply Hr.
Qed.

Lemma Reconcile_binding : wp (binding req) (Claim.Reconcile label_selector req) (mkBind None [] false) any.
Proof.
  unfold Claim.Reconcile, Get, call. cbn [bind]. split; [done|]. intros [claim|err] Hn; cbv zeta.
  - cbn in Hn. change (step _ _ _ _) with (mkBind (Some claim) [] false).
    destruct (claim_deleting claim) eqn:Hdel.
    + unfold Claim.onDelete. destruct (negb _); [done|].
      eapply wp_seq; [apply findBoundMachine_binding|]. intros [om|err] w [He Hm]; [|done].
      eapply wp_seq with (Q := any).
      { destruct om as [m|]; [|done]. destruct (Hm m eq_refl) as [Hin Href].
        destruct He as (Hc & _ & _). eapply wp_seq; [apply clearClaimRef_binding; [done|]|].
        - exists (claim_reference claim). split_and!; [done|done|]. rewrite Hc. by intros ? [= <-].
        - by intros [] w' _. }
      intros [err|] w' _; [done|]. destruct (RemoveFinalizer _ _). own.
    + destruct (negb _). { destruct (AddFinalizer _ _). own. }
      unfold Claim.onChange. destruct (_ =s _); [own|by apply reconcilePending_binding].
  - destruct (IsNotFound err); [|done]. unfold clearOrphanedClaimRefs, List_, call. cbn [bind].
    split; [done|]. intros [l|err'] _; [|done]. apply clear_orphans_binding; [done|].
    intros m Hm. cbn. apply elem_of_app. by left.
Qed.
End ClaimSafety.

(** ** Theorems *)

(** The object a conditional update of [m'] is compared with: it has the
    resource version sent, and a resource version names one content. *)
Definition compared_with (w : bind_view) (m' stored : Machine) : Prop :=
  ResourceVersion stored = ResourceVersion m'
  /\ forall m : Machine, m ∈ b_seen w -> ResourceVersion m = ResourceVersion stored -> m = stored.

(** What a call of the reconciler may do to the cluster, after [w] was seen. *)
Definition claim_write (req : ObjectKey) (w : bind_view) (e : eff) : Prop :=
  match e with
  | EUpdate KMachine m' => forall stored, compared_with w m' stored ->
      ClaimRef (Spec stored) = None /\ State (Status stored) = MachineStateAvailable
      /\ exists c, b_claim w = Some c /\ claim_deleting c = false
           /\ m' = set_claimRef (Some (claim_reference c)) stored
  | EPatch KMachine base m' => base ∈ b_seen w /\ m' = set_claimRef None base /\ holds_claim req w base
  | EUpdate KClaim _ | EStatusUpdate KClaim _ => True
  | _ => is_write e = false
  end.

Definition machine_updated (x : event resp) : bool :=
  match x with existT (EUpdate KMachine _) (inl _) => true | _ => false end.

Definition updates_machine (e : eff) : bool := match e with EUpdate KMachine _ => true | _ => false end.

Lemma binding_once req w tr :
  b_bound w = true -> obeys (binding req) w tr -> Forall (fun x => bind_assumed (projT1 x) (projT2 x)) tr ->
  Forall (fun x => updates_machine (projT1 x) = false) tr.
Proof.
  revert w. induction tr as [|[e r] tr IH]; intros w Hbd Hob Hn; [constructor|].
  destruct Hob as [Hal Hob]. apply Forall_cons in Hn as [Hx Hn]. constructor.
  - destruct e; try done. destruct k; try done. destruct Hal as [? _]. congruence.
  - eapply IH; [|by apply Hob|done]. destruct e; try done; destruct k; try done; by destruct r.
Qed.

(** C2. Binding never steals a Machine and releases only its own.  Take any
    call of any run of the claim reconciler.  An update of a Machine changes
    nothing but the claimRef, sets it to the claim that was read, which is not
    being deleted, and the stored object whose resource version the API server
    compares it with was unclaimed and Available, provided a resource version
    names one content.  A patch of a Machine only clears its claimRef, and as
    read the Machine referred to the reconciled claim: a claim that no longer
    exists, or this incarnation of it, which is being deleted.  Nothing else is
    written but the claim itself, and once the update of a Machine was accepted
    no second Machine is updated in the same reconcile.  A claim read at a key
    is taken to carry that name. *)
Theorem binding_never_steals `{ApiMachinery} label_selector req tr1 x tr2 res
    (Hrun : runs (Claim.Reconcile label_selector req) (tr1 ++ x :: tr2) res)
    (Hnamed : Forall (fun x => bind_assumed (projT1 x) (projT2 x)) (tr1 ++ x :: tr2)) :
  claim_write req (final (binding req) (mkBind None [] false) tr1) (projT1 x)
  /\ (machine_updated x = true -> Forall (fun y => updates_machine (projT1 y) = false) tr2).
Proof.
  pose proof (wp_obeys _ _ _ _ _ _ (Reconcile_binding label_selector req) Hrun) as Hob.
  apply Forall_app in Hnamed as [Hn1 [Hx Hn2]%Forall_cons]. destruct x as [e r].
  apply obeys_app in Hob as [Hal Hob]; [|by apply (assumes_forall _ bind_assumed)]. specialize (Hob Hx).
  split.
  - destruct e; try done; destruct k; try done; try (by destruct Hal).
    destruct Hal as (Hb & c & m & Hc & Hd & Hm & Hf & ->). intros stored [Hv Hone].
    assert (m = stored) as <- by by apply Hone.
    unfold machineIsFreeAndAvailable in Hf. crush_ctx. eauto 10.
  - intros Hu. eapply binding_once; [|exact Hob|done].
    destruct e; try done; destruct k; try done; destruct r; done.
Qed.

Section Mirror.
Context `{ApiMachineryLaws}.

Lemma nameRefEqual_refl a : nameRefEqual a a = true.
Proof. destruct a as [[ns n]|]; cbn; [by rewrite !String.eqb_refl|done]. Qed.

Lemma ready_type claim m : cd_Type (ready_condition claim m) = MachineClaimConditionReady.
Proof. unfold ready_condition. by destruct (_ =s _). Qed.

Lemma ready_current_set cs want :
  cd_Type want = MachineClaimConditionReady ->
  forall s, cst_Conditions s = SetStatusCondition cs want -> ready_current s want = true.
Proof.
  intros Ht s Hs. unfold ready_current. rewrite Hs, <- Ht, find_set_same.
  by rewrite !String.eqb_refl, Z.eqb_refl.
Qed.

Lemma ready_current_other cs c want s s' :
  cd_Type c <> MachineClaimConditionReady -> cst_Conditions s = cs ->
  cst_Conditions s' = SetStatusCondition cs c -> ready_current s' want = ready_current s want.
Proof. intros Ht <- Hs'. unfold ready_current. by rewrite Hs', find_set_other. Qed.

(** A status [mirrored] has nothing to add to. *)
Definition in_step (claim : MachineClaim) (machine : Machine) (s : MachineClaimStatus) : Prop :=
  cst_CurrentRunRef s = CurrentRunRef (Status machine)
  /\ cst_LastSuccessfulRunRef s = LastSuccessfulRunRef (Status machine)
  /\ ready_current s (ready_condition claim machine) = true
  /\ IsStatusConditionTrue (cst_Conditions s) MachineClaimConditionBound = true.

Lemma in_step_mirrored claim machine :
  in_step claim machine (claim_Status claim) -> (mirrored claim machine).2 = false.
Proof.
  intros (Hc & Hl & Hr & Hb). unfold mirrored. rewrite Hc, nameRefEqual_refl. cbn [negb].
  rewrite Hl, nameRefEqual_refl. cbn [negb]. rewrite Hr. cbn [negb]. by rewrite Hb.
Qed.

Lemma mirrored_in_step claim machine :
  in_step claim machine (claim_Status (mirrored claim machine).1).
Proof.
  unfold mirrored. set (st := Status machine). set (ready := ready_condition claim machine).
  destruct (if negb (nameRefEqual (cst_CurrentRunRef (claim_Status claim)) (CurrentRunRef st)) then _ else _)
    as [s1 ch1] eqn:E1.
  assert (H1 : cst_CurrentRunRef s1 = CurrentRunRef st).
  { destruct (nameRefEqual _ _) eqn:En in E1; simplify_eq/=; [by apply nameRefEqual_spec|done]. }
  clear E1.
  destruct (if negb (nameRefEqual (cst_LastSuccessfulRunRef s1) (LastSuccessfulRunRef st)) then _ else _)
    as [s2 ch2] eqn:E2.
  assert (H2 : cst_CurrentRunRef s2 = CurrentRunRef st /\ cst_LastSuccessfulRunRef s2 = LastSuccessfulRunRef st).
  { destruct (nameRefEqual _ _) eqn:En in E2; simplify_eq/=; [|done]. by apply nameRefEqual_spec in En. }
  clear E2 H1. destruct H2 as [Hc2 Hl2].
  destruct (if negb (ready_current s2 ready) then _ else _) as [s3 ch3] eqn:E3.
  assert (H3 : cst_CurrentRunRef s3 = CurrentRunRef st /\ cst_LastSuccessfulRunRef s3 = LastSuccessfulRunRef st
    /\ ready_current s3 ready = true).
  { destruct (ready_current s2 ready) eqn:Er; simplify_eq/=; [done|]. split_and!; [done|done|].
    by eapply ready_current_set; [apply ready_type|]. }
  clear E3 Hc2 Hl2. destruct H3 as (Hc3 & Hl3 & Hr3).
  destruct (IsStatusConditionTrue (cst_Conditions s3) MachineClaimConditionBound) eqn:Eb; cbn [negb fst].
  - done.
  - split_and!; [done|done| |].
    + erewrite (ready_current_other (cst_Conditions s3)); [exact Hr3| |done|reflexivity]. done.
    + exact (is_true_set_same _ (mkCondition MachineClaimConditionBound ConditionTrue (Generation claim) "Bound" _)).
Qed.

(** Mirroring settles: the status [mirrorMachineStatus] sends carries the
    Machine's run references, a Ready condition for the claim's generation and
    Bound, and a further reconcile against the same Machine finds nothing to
    write, so a Bound claim's status does not churn. *)
Theorem mirror_settles claim machine :
  let claim' := (mirrored claim machine).1 in
  cst_CurrentRunRef (claim_Status claim') = CurrentRunRef (Status machine)
  /\ cst_LastSuccessfulRunRef (claim_Status claim') = LastSuccessfulRunRef (Status machine)
  /\ IsStatusConditionTrue (cst_Conditions (claim_Status claim')) MachineClaimConditionBound = true
  /\ mirrorMachineStatus claim' machine = Ret (done_ noRequeue).
Proof.
  cbv zeta. pose proof (mirrored_in_step claim machine) as (Hc & Hl & Hr & Hb).
  split_and!; [done|done|done|].
  assert (Hmeta : claim_meta (mirrored claim machine).1 = claim_meta claim).
  { unfold mirrored. repeat case_match; done. }
  assert (Hready : ready_condition (mirrored claim machine).1 machine = ready_condition claim machine).
  { unfold ready_condition. by rewrite Hmeta. }
  unfold mirrorMachineStatus.
  pose proof (in_step_mirrored (mirrored claim machine).1 machine) as Hs.
  destruct (mirrored (mirrored claim machine).1 machine) as [c ch]. cbn [snd] in Hs. rewrite Hs; [done|].
  unfold in_step. by rewrite Hready.
Qed.
End Mirror.

(** ** Witnesses *)

#[local] Existing Instances SimpleMeta.ops SimpleMeta.laws.

Definition any_labels (s : LabelSelector) : (gmap string string -> bool) + GoErr := inl (fun _ => true).

Definition free_machine : Machine := Demo.machine ∅ (Demo.status MachineStateAvailable).

Definition named_claim (phase : string) : MachineClaim :=
  mkClaim ((Demo.meta "c1" ∅) <| Finalizers := [MachineClaimFinalizer] |>)
    (mkClaimSpec "m1" None (Some (mkNameRef "" "os")) None None [] None None AfterDeployReboot)
    (mkClaimStatus phase "" None None None []).

Definition claim_world (phase : string) : Demo.world :=
  Demo.mkWorld (Some free_machine) (Some (named_claim phase)) None None None None [] [] (outcome Complete).

Definition claim_key : ObjectKey := mkKey "ns" "c1".

Definition binding_log : trace resp :=
  match exec (Demo.handler (claim_world "")) (Claim.Reconcile any_labels claim_key) tt with Some (_, _, tr) => tr | None => [] end.

Lemma binding_never_steals_witness :
  (machine_updated <$> binding_log !! 3) = Some true /\
  forall x, binding_log !! 3 = Some x ->
    claim_write claim_key (final (binding claim_key) (mkBind None [] false) (take 3 binding_log)) (projT1 x).
Proof.
  split; [vm_compute; reflexivity|]. intros x Hx.
  pose proof (take_drop_middle _ _ _ Hx) as Hlog.
  assert (Hrun : runs (Claim.Reconcile any_labels claim_key) binding_log (done_ requeue)).
  { eapply (exec_runs (Demo.handler (claim_world "")) _ tt _ tt). vm_compute. reflexivity. }
  assert (Hn : Forall (fun x => bind_assumed (projT1 x) (projT2 x)) binding_log) by (vm_compute; repeat constructor).
  rewrite <- Hlog in Hrun, Hn.
  exact (proj1 (binding_never_steals any_labels claim_key (take 3 binding_log) x (drop 4 binding_log) (done_ requeue) Hrun Hn)).
Defined.
