(* ===== verification/SubnetDhcp.v ===== *)
(** * SubnetDhcp: boot-scoped DHCP reservations

    [src/internal/subnetdhcp/subnetdhcp.go].  A Subnet is passed in and back; an
    IPv4 address is its [uint32].  [net.ParseIP(s).To4()] and [net.ParseCIDR]
    are modelled on dotted-quad text, the only text the CRD's patterns admit;
    other text does not parse, and the parser's own error text is left out.  The digest ([hex] of [sha256]) is a parameter
    about which nothing is assumed. *)

From S2P Require Import Prelude Text Api.
Local Open Scope string_scope.
Local Open Scope list_scope.
Local Open Scope Z_scope.

(** ** IPv4 text *)

(** One field: one to three digits, no leading zero, at most 255. *)
Definition parse_octet (s : string) : option Z :=
  if (3 <? String.length s)%nat then None else
  if (1 <? String.length s)%nat && String.prefix "0" s then None else
  v ← decimal s; if v <=? 255 then Some v else None.

(** [net.ParseIP(s).To4()] as a [uint32]. *)
Definition ParseIP4 (s : string) : option Z :=
  match mapM parse_octet (split_on "." s) with
  | Some [a; b; c; d] => Some (((a * 256 + b) * 256 + c) * 256 + d)
  | _ => None
  end.

(** [net.ParseCIDR]: the network address and the mask. *)
Definition ParseCIDR (s : string) : option (Z * Z) :=
  match split_on "/" s with
  | [addr; bits] =>
    ip ← ParseIP4 addr; n ← decimal bits;
    if n <=? 32 then let mask := 2 ^ 32 - 2 ^ (32 - n) in Some (Z.land ip mask, mask) else None
  | _ => None
  end.

(** [net.IP.String]. *)
Definition show_ip (v : Z) : string :=
  String.concat "." [show_dec (v / 2 ^ 24); show_dec (v / 2 ^ 16 mod 256); show_dec (v / 2 ^ 8 mod 256);
    show_dec (v mod 256)].

(** ** The code *)

Inductive DhcpErr := ErrPoolExhausted | ErrRange (msg : string).

Definition ResolveNamespace (ref : NameRef) (defaultNamespace : string) : string :=
  if nr_Namespace ref <>s "" then nr_Namespace ref else defaultNamespace.

(** Bitwise complement on [uint32]. *)
Definition not32 (m : Z) : Z := 2 ^ 32 - 1 - m.

Definition LeaseRange (subnet : Subnet) : (Z * Z) + DhcpErr :=
  match sub_DHCP (sub_Spec subnet) with
  | None => inr (ErrRange (sprintf "subnetdhcp: Subnet %q has no dhcp configuration" [Name subnet]))
  | Some dhcp =>
    let cidr := sub_CIDR (sub_Spec subnet) in
    match ParseCIDR cidr with
    | None => inr (ErrRange (sprintf "subnetdhcp: Subnet %q cidr %q is not a valid IPv4 CIDR" [Name subnet; cidr]))
    | Some (n, m) =>
      let startStr := dhcp_LeaseRangeStart dhcp in
      let endStr := dhcp_LeaseRangeEnd dhcp in
      if (startStr <>s "") && (endStr <>s "") then
        match ParseIP4 startStr, ParseIP4 endStr with
        | Some start, Some end_ => inl (start, end_)
        | _, _ => inr (ErrRange (sprintf "subnetdhcp: Subnet %q has an invalid lease range %q-%q"
                    [Name subnet; startStr; endStr]))
        end
      else if uint32 (not32 m - 1) <? 1
      then inr (ErrRange (sprintf "subnetdhcp: Subnet %q cidr %q has no usable host addresses for an auto-derived lease range"
                 [Name subnet; cidr]))
      else inl (uint32 (n + 1), uint32 (Z.lor n (not32 m) - 1))
    end
  end.

Definition ReservedAddresses (subnet : Subnet) : gset string :=
  let taken : gset string :=
    if sub_BootdServerIP (sub_Spec subnet) <>s "" then {[sub_BootdServerIP (sub_Spec subnet)]} else ∅ in
  match sub_DHCP (sub_Spec subnet) ≫= dhcp_Gateway with
  | Some g => if g <>s "" then {[g]} ∪ taken else taken
  | None => taken
  end.

(** The loop from [v]; the [break] at [e] is the last unit of fuel. *)
Fixpoint next_free_from (fuel : nat) (v : Z) (taken : gset string) : option Z :=
  match fuel with
  | O => None
  | S fuel => if bool_decide (show_ip v ∈ taken) then next_free_from fuel (v + 1) taken else Some v
  end.

Definition nextFree (start end_ : Z) (taken : gset string) : option Z :=
  next_free_from (Z.to_nat (end_ - start + 1)) start taken.

Section Digest.
Context (digest : string -> string).

Definition Revision (reservations : list DHCPReservation) : string :=
  match reservations with
  | [] => ""
  | _ =>
    let pairs := map (fun r => String.append (rsv_Machine r) (String.append "=" (String.append (rsv_MAC r)
      (String.append "=" (rsv_Address r))))) reservations in
    digest (String.concat newline (sort_by String.ltb pairs))
  end.

Definition reservations (subnet : Subnet) : list DHCPReservation :=
  match sub_DHCPStatus (sub_Status subnet) with Some dhcp => Reservations dhcp | None => [] end.

(** Writing the table back, the status created when it is nil. *)
Definition set_table (table : list DHCPReservation) (subnet : Subnet) : Subnet :=
  let dhcp := default (mkDHCPStatus [] "" "") (sub_DHCPStatus (sub_Status subnet)) in
  subnet <| sub_Status := (sub_Status subnet) <| sub_DHCPStatus :=
    Some (dhcp <| Reservations := table |> <| Revision_ := Revision table |>) |> |>.

(** The address, whether the table changed, and the Subnet. *)
Definition Reserve (subnet : Subnet) (machineName mac : string) (now : Z)
  : (string * bool * Subnet) + DhcpErr :=
  match find_first (fun r => rsv_Machine r =s machineName) (reservations subnet) with
  | Some r => inl (rsv_Address r, false, subnet)
  | None =>
    match LeaseRange subnet with
    | inr err => inr err
    | inl (start, end_) =>
      let existing := reservations subnet in
      let taken := ReservedAddresses subnet ∪ list_to_set (rsv_Address <$> existing) in
      match nextFree start end_ taken with
      | None => inr ErrPoolExhausted
      | Some addr =>
        let entry := mkReservation (show_ip addr) machineName mac now in
        inl (show_ip addr, true, set_table (existing ++ [entry]) subnet)
      end
    end
  end.

Definition Release (subnet : Subnet) (machineName : string) : bool * Subnet :=
  match sub_DHCPStatus (sub_Status subnet) with
  | None => (false, subnet)
  | Some dhcp =>
    let kept := List.filter (fun r => rsv_Machine r <>s machineName) (Reservations dhcp) in
    let removed := existsb (fun r => rsv_Machine r =s machineName) (Reservations dhcp) in
    if negb removed then (false, subnet) else (true, set_table kept subnet)
  end.
End Digest.

(** ** IPv4 round trip *)

Definition octets : list Z := Z.of_nat <$> seq 0 256.

Lemma octet_in v : 0 <= v < 256 -> v ∈ octets.
Proof.
  intros Hv. apply list_elem_of_fmap. exists (Z.to_nat v). split; [lia|]. apply elem_of_seq. lia.
Qed.

(** What is needed of the 256 octets, by evaluation. *)
Definition octet_ok (v : Z) : bool :=
  bool_decide (parse_octet (show_dec v) = Some v) &&
  forallb (fun a => negb (Ascii.eqb a ".")) (list_ascii_of_string (show_dec v)).

Lemma octets_ok v : 0 <= v < 256 -> octet_ok v = true.
Proof.
  intros Hv. assert (H : forallb octet_ok octets = true) by (vm_compute; reflexivity).
  rewrite forallb_forall in H. apply H, list_elem_of_In, octet_in, Hv.
Qed.

Lemma uint32_octets v :
  0 <= v < 2 ^ 32 ->
  0 <= v / 2 ^ 24 < 256 /\ 0 <= v / 2 ^ 16 mod 256 < 256 /\ 0 <= v / 2 ^ 8 mod 256 < 256 /\ 0 <= v mod 256 < 256
  /\ ((v / 2 ^ 24 * 256 + v / 2 ^ 16 mod 256) * 256 + v / 2 ^ 8 mod 256) * 256 + v mod 256 = v.
Proof.
  intros Hv.
  assert (H1 : v / 2 ^ 24 < 256) by (apply Z.div_lt_upper_bound; lia).
  assert (H2 : 0 <= v / 2 ^ 24) by (apply Z.div_pos; lia).
  split_and!; try (apply Z.mod_pos_bound; lia); try lia.
  replace (v / 2 ^ 24) with (v / 2 ^ 8 / 2 ^ 8 / 2 ^ 8) by (rewrite !Z.div_div by lia; done).
  replace (v / 2 ^ 16) with (v / 2 ^ 8 / 2 ^ 8) by (rewrite !Z.div_div by lia; done).
  change (2 ^ 8) with 256.
  pose proof (Z.div_mod v 256). pose proof (Z.div_mod (v / 256) 256).
  pose proof (Z.div_mod (v / 256 / 256) 256). lia.
Qed.

Lemma ParseIP4_show v : 0 <= v < 2 ^ 32 -> ParseIP4 (show_ip v) = Some v.
Proof.
  intros Hv. destruct (uint32_octets v Hv) as (Ha & Hb & Hc & Hd & Heq).
  unfold ParseIP4, show_ip.
  set (a := v / 2 ^ 24) in *. set (b := v / 2 ^ 16 mod 256) in *. set (c := v / 2 ^ 8 mod 256) in *.
  set (d := v mod 256) in *. clearbody a b c d.
  apply octets_ok in Ha, Hb, Hc, Hd. unfold octet_ok in *.
  apply andb_true_iff in Ha as [Pa Na], Hb as [Pb Nb], Hc as [Pc Nc], Hd as [Pd Nd].
  apply bool_decide_eq_true in Pa, Pb, Pc, Pd.
  assert (Hdot : forall s, String.append "." s = String "." s) by done.
  cbn [String.concat]. rewrite !Hdot.
  rewrite !split_on_app, split_on_none by done. cbn [mapM mret option_ret].
  rewrite Pa, Pb, Pc, Pd. cbn. by rewrite Heq.
Qed.

Lemma show_ip_inj v w : 0 <= v < 2 ^ 32 -> 0 <= w < 2 ^ 32 -> show_ip v = show_ip w -> v = w.
Proof.
  intros Hv Hw E. apply (f_equal ParseIP4) in E. rewrite !ParseIP4_show in E by done. congruence.
Qed.

(** ** Allocation *)

Lemma next_free_from_spec fuel v taken :
  match next_free_from fuel v taken with
  | Some a => v <= a < v + Z.of_nat fuel /\ (show_ip a ∉ taken) /\ forall w, v <= w < a -> show_ip w ∈ taken
  | None => forall w, v <= w < v + Z.of_nat fuel -> show_ip w ∈ taken
  end.
Proof.
  revert v. induction fuel as [|fuel IH]; intros v; cbn [next_free_from]; [intros; lia|].
  destruct (bool_decide_reflect (show_ip v ∈ taken)) as [Hin|Hout].
  - specialize (IH (v + 1)). destruct (next_free_from fuel (v + 1) taken) as [a|].
    + destruct IH as (Hr & Hf & Hlow). split_and!; [lia|lia|done|]. intros w Hw.
      destruct (decide (w = v)) as [->|]; [done|]. apply Hlow. lia.
    + intros w Hw. destruct (decide (w = v)) as [->|]; [done|]. apply IH. lia.
  - split_and!; [lia|lia|done|]. intros w Hw. lia.
Qed.

Lemma nextFree_spec start end_ taken :
  match nextFree start end_ taken with
  | Some a => start <= a <= end_ /\ (show_ip a ∉ taken) /\ forall w, start <= w < a -> show_ip w ∈ taken
  | None => forall w, start <= w <= end_ -> show_ip w ∈ taken
  end.
Proof.
  unfold nextFree. pose proof (next_free_from_spec (Z.to_nat (end_ - start + 1)) start taken) as H.
  destruct (next_free_from _ _ _) as [a|].
  - destruct H as (Hr & Hf & Hlow). split_and!; [lia|lia|done|done].
  - intros w Hw. apply H. lia.
Qed.

Lemma ParseIP4_range s v : ParseIP4 s = Some v -> 0 <= v < 2 ^ 32.
Proof.
  unfold ParseIP4. destruct (mapM parse_octet _) as [l|] eqn:E; [|done].
  apply mapM_Some in E.
  assert (Hl : Forall (fun x => 0 <= x <= 255) l).
  { clear v. induction E as [|s' x ss l Hx _ IH]; constructor; [|done].
    unfold parse_octet in Hx. destruct (_ <? _)%nat; [done|]. destruct (_ && _); [done|].
    destruct (decimal s') as [y|] eqn:Ed; cbn in Hx; [|done].
    destruct (Z.leb_spec y 255); [|done]. simplify_eq. split; [|done].
    unfold decimal in Ed. destruct (mapM digit_value _) as [[|d ds]|] eqn:Em; [done| |done].
    simplify_eq. apply mapM_Some in Em.
    assert (Hds : Forall (fun d => 0 <= d) (d :: ds)).
    { clear -Em. remember (d :: ds) as l'. clear Heql'. induction Em as [|a x ss l Ha _ IH]; constructor; [|done].
      unfold digit_value in Ha. destruct (_ && _) eqn:Eb; [|done]. simplify_eq.
      apply andb_true_iff in Eb as [Eb _]. lia. }
    clear -Hds. unfold undigits, undigits_from. revert Hds. generalize (d :: ds). intros l Hl.
    assert (Hgen : forall v, 0 <= v -> 0 <= fold_left (fun v d => v * 10 + d) l v); [|by apply Hgen].
    induction Hl as [|x l Hx _ IH]; intros v Hv; cbn; [done|]. apply IH. lia. }
  destruct l as [|a [|b [|c [|d [|]]]]]; try done. intros [= <-].
  repeat match goal with H : Forall _ (_ :: _) |- _ => apply Forall_cons in H as [? H] end. lia.
Qed.

(** The range the code works with lies in [uint32]. *)
Lemma LeaseRange_range subnet start end_ :
  LeaseRange subnet = inl (start, end_) -> 0 <= start < 2 ^ 32 /\ 0 <= end_ < 2 ^ 32.
Proof.
  unfold LeaseRange. destruct (sub_DHCP _) as [dhcp|]; [|done].
  destruct (ParseCIDR _) as [[n m]|]; [|done]. destruct (_ && _).
  - destruct (ParseIP4 (dhcp_LeaseRangeStart dhcp)) as [a|] eqn:Ea; [|done].
    destruct (ParseIP4 (dhcp_LeaseRangeEnd dhcp)) as [b|] eqn:Eb; [|done].
    intros [= <- <-]. eauto using ParseIP4_range.
  - destruct (_ <? 1); [done|]. intros [= <- <-]. split; apply Z.mod_pos_bound; lia.
Qed.

Section Table.
Context (digest : string -> string).

Lemma reservations_set_table t s : reservations (set_table digest t s) = t.
Proof. done. Qed.

(** A table bootd can serve: one entry per machine, no address twice, none of
    them bootd's own or the gateway's. *)
Definition table_ok (subnet : Subnet) : Prop :=
  NoDup (rsv_Machine <$> reservations subnet) /\ NoDup (rsv_Address <$> reservations subnet)
  /\ forall r, r ∈ reservations subnet -> rsv_Address r ∉ ReservedAddresses subnet.

Lemma ReservedAddresses_set_table t s : ReservedAddresses (set_table digest t s) = ReservedAddresses s.
Proof. done. Qed.

(** The machine holds the address it is answered. *)
Lemma reserve_has_row subnet machine mac now address changed subnet' :
  Reserve digest subnet machine mac now = inl (address, changed, subnet') ->
  exists r, r ∈ reservations subnet' /\ rsv_Machine r = machine /\ rsv_Address r = address.
Proof.
  unfold Reserve. destruct (find_first _ _) as [r|] eqn:Ef.
  { intros [= <- <- <-]. apply find_first_Some in Ef as [Hin Hm]. apply String.eqb_eq in Hm. eauto. }
  destruct (LeaseRange subnet) as [[start end_]|]; [|done]. destruct (nextFree _ _ _) as [a|]; [|done].
  intros [= <- <- <-]. eexists. split; [apply elem_of_app; right; left|]. done.
Qed.

(** Reservations never collide: from a table with one entry per machine, no
    address twice and none of bootd's or the gateway's addresses, [Reserve]
    yields such a table again, in which the machine holds the address returned. *)
Theorem Reserve_keeps_table subnet machine mac now address changed subnet'
    (Hok : table_ok subnet)
    (Hres : Reserve digest subnet machine mac now = inl (address, changed, subnet')) :
  table_ok subnet' /\ exists r, r ∈ reservations subnet' /\ rsv_Machine r = machine /\ rsv_Address r = address.
Proof.
  unfold Reserve in Hres. destruct (find_first _ _) as [r|] eqn:Ef.
  { simplify_eq. apply find_first_Some in Ef as [Hin Hm]. apply String.eqb_eq in Hm. eauto. }
  destruct (LeaseRange subnet) as [[start end_]|]; [|done].
  pose proof (nextFree_spec start end_
    (ReservedAddresses subnet ∪ list_to_set (rsv_Address <$> reservations subnet))) as Hnf.
  destruct (nextFree _ _ _) as [a|]; [|done]. destruct Hnf as (_ & Hfree & _).
  injection Hres as <- <- <-. rewrite not_elem_of_union, elem_of_list_to_set in Hfree.
  destruct Hfree as [Hr Ht], Hok as (Hm & Ha & Hresv).
  assert (Hnew : machine ∉ rsv_Machine <$> reservations subnet).
  { intros (r & -> & Hin)%list_elem_of_fmap.
    pose proof (proj1 (find_first_None _ _) Ef r Hin) as Hne.
    cbv beta in Hne. by rewrite String.eqb_refl in Hne. }
  unfold table_ok. rewrite reservations_set_table, ReservedAddresses_set_table, !fmap_app. cbn. split.
  - split_and!.
    + apply NoDup_app. split_and!; [done| |apply NoDup_singleton].
      intros x Hx [->|Hn]%elem_of_cons; [done|inversion Hn].
    + apply NoDup_app. split_and!; [done| |apply NoDup_singleton].
      intros x Hx [->|Hn]%elem_of_cons; [done|inversion Hn].
    + intros r [Hin|[->|Hn]%elem_of_cons]%elem_of_app; [by apply Hresv|done|inversion Hn].
  - eexists. split; [apply elem_of_app; right; left|]. done.
Qed.

(** A fresh reservation is the lowest free address: it lies in the lease
    range, nobody holds it, and every lower address of the range is bootd's,
    the gateway's or already reserved.  The pool is reported exhausted exactly
    when the machine has no entry and every address of the range is taken. *)
Theorem Reserve_lowest_free subnet machine mac now start end_
    (Hnone : forall r, r ∈ reservations subnet -> rsv_Machine r <> machine)
    (Hrange : LeaseRange subnet = inl (start, end_)) :
  let taken v := show_ip v ∈ ReservedAddresses subnet \/ exists r, r ∈ reservations subnet /\ rsv_Address r = show_ip v in
  match Reserve digest subnet machine mac now with
  | inl (address, changed, _) => changed = true /\
      exists v, address = show_ip v /\ start <= v <= end_ /\ ~ taken v /\ forall w, start <= w < v -> taken w
  | inr err => err = ErrPoolExhausted /\ forall w, start <= w <= end_ -> taken w
  end.
Proof.
  intros taken. unfold Reserve.
  assert (Hf : find_first (fun r => rsv_Machine r =s machine) (reservations subnet) = None).
  { apply find_first_None. intros r Hr. apply String.eqb_neq. auto. }
  rewrite Hf, Hrange.
  assert (Ht : forall v, show_ip v ∈ ReservedAddresses subnet ∪ list_to_set (rsv_Address <$> reservations subnet)
    <-> taken v).
  { intros v. unfold taken. rewrite elem_of_union, elem_of_list_to_set, list_elem_of_fmap. naive_solver. }
  pose proof (nextFree_spec start end_
    (ReservedAddresses subnet ∪ list_to_set (rsv_Address <$> reservations subnet))) as Hnf.
  destruct (nextFree _ _ _) as [a|]; setoid_rewrite Ht in Hnf; [|done].
  split; [done|]. exists a. tauto.
Qed.

(** Reserving is idempotent: asking again for the machine of a reservation,
    under any MAC and at any time, answers the same address and leaves the
    Subnet as it is. *)
Theorem Reserve_idempotent subnet machine mac now mac' now' address changed subnet'
    (Hok : table_ok subnet)
    (Hres : Reserve digest subnet machine mac now = inl (address, changed, subnet')) :
  Reserve digest subnet' machine mac' now' = inl (address, false, subnet').
Proof.
  unfold Reserve in Hres. destruct (find_first _ _) as [r|] eqn:Ef.
  { simplify_eq. unfold Reserve. by rewrite Ef. }
  destruct (LeaseRange subnet) as [[start end_]|]; [|done].
  destruct (nextFree _ _ _) as [a|]; [|done]. injection Hres as <- <- <-.
  unfold Reserve. rewrite reservations_set_table.
  assert (Hfind : forall l, find_first (fun r => rsv_Machine r =s machine) l = None ->
    forall e, rsv_Machine e = machine -> find_first (fun r => rsv_Machine r =s machine) (l ++ [e]) = Some e).
  { intros l. induction l as [|x l IH]; cbn; intros Hl e He; [by rewrite He, String.eqb_refl|].
    destruct (rsv_Machine x =s machine); [done|auto]. }
  by rewrite (Hfind _ Ef).
Qed.

(** Releasing removes exactly the machine's entry: afterwards the table
    holds the other machines' entries in their order and none of this one,
    it is still collision-free, and the flag says whether anything changed. *)
Theorem Release_spec subnet machine (Hok : table_ok subnet) :
  let '(changed, subnet') := Release digest subnet machine in
  reservations subnet' = List.filter (fun r => rsv_Machine r <>s machine) (reservations subnet)
  /\ (changed = true <-> exists r, r ∈ reservations subnet /\ rsv_Machine r = machine)
  /\ table_ok subnet'.
Proof.
  assert (Hfilter : forall l, existsb (fun r => rsv_Machine r =s machine) l = false ->
    List.filter (fun r => rsv_Machine r <>s machine) l = l).
  { induction l as [|x l IH]; cbn; [done|]. intros [-> Hl]%orb_false_iff. cbn. by rewrite IH. }
  assert (Hex : forall l, existsb (fun r => rsv_Machine r =s machine) l = true <->
    exists r, r ∈ l /\ rsv_Machine r = machine).
  { intros l. rewrite existsb_exists. setoid_rewrite list_elem_of_In. setoid_rewrite String.eqb_eq. done. }
  assert (Hkeep : forall {B} (g : DHCPReservation -> B) (f : DHCPReservation -> bool) l,
    NoDup (g <$> l) -> NoDup (g <$> List.filter f l)).
  { intros B g f l. induction l as [|x l IH]; cbn; [done|]. rewrite NoDup_cons. intros [Hx Hl].
    destruct (f x); cbn; [|auto]. apply NoDup_cons. split; [|auto].
    intros (y & Hy & Hin)%list_elem_of_fmap. apply Hx. rewrite Hy. apply list_elem_of_fmap. exists y.
    split; [done|]. apply list_elem_of_In in Hin. apply list_elem_of_In. by apply filter_In in Hin as [? _]. }
  unfold Release, reservations in *. destruct (sub_DHCPStatus (sub_Status subnet)) as [dhcp|] eqn:Ed.
  2: { rewrite Ed. split_and!; [done| |done]. split; [done|]. intros (r & Hr & _). inversion Hr. }
  destruct (existsb _ (Reservations dhcp)) eqn:E; cbn [negb].
  - split_and!; [done|by rewrite <- Hex|].
    destruct Hok as (Hm & Ha & Hr). unfold table_ok. rewrite reservations_set_table, ReservedAddresses_set_table.
    unfold reservations in *. rewrite Ed in *. split_and!; [by apply Hkeep|by apply Hkeep|].
    intros r Hin. apply Hr. apply list_elem_of_In in Hin. apply list_elem_of_In. by apply filter_In in Hin as [? _].
  - rewrite Ed. split_and!; [by rewrite Hfilter| |done]. rewrite <- Hex, E. done.
Qed.
End Table.

(** ** Revision *)

(** The revision is a digest of the set of reservations: two tables that
    are permutations of each other have the same revision, so the manager and
    bootd agree on it whatever order either lists the table in. *)
Theorem Revision_order_independent digest t t' (Hperm : t ≡ₚ t') : Revision digest t = Revision digest t'.
Proof.
  unfold Revision. destruct t as [|r t], t' as [|r' t']; [done| | |].
  - apply Permutation_nil_l in Hperm. done.
  - symmetry in Hperm. apply Permutation_nil_l in Hperm. done.
  - f_equal. f_equal. apply sort_strings_perm. by apply Permutation_map.
Qed.

(** ** The auto-derived range *)

Definition lease_subnet (cidr : string) (table : list DHCPReservation) : Subnet :=
  mkSubnet (mkObjectMeta "net" "ns" "u" "1" 1 0 None [] ∅ ∅ [])
    (mkSubnetSpec (mkNameRef "" "site") cidr "10.0.0.1" None None ∅
      (Some (mkSubnetDHCP SubnetDHCPModeLease "" "" (Some "10.0.0.2") None)))
    (mkSubnetStatus [] (Some (mkDHCPStatus table "" ""))).

(** A /32 Subnet slips through the guard against ranges without host
    addresses: the [uint32] subtraction [^m - 1] wraps, so instead of the error
    a /31 gets, the range comes back reversed and every reservation reports an
    exhausted pool. *)
Theorem LeaseRange_slash32_wraps digest :
  (exists msg, LeaseRange (lease_subnet "10.0.0.8/31" []) = inr (ErrRange msg)) /\
  LeaseRange (lease_subnet "10.0.0.8/32" []) = inl (167772169, 167772167) /\
  Reserve digest (lease_subnet "10.0.0.8/32" []) "m1" "52:54:00:00:00:01" 0 = inr ErrPoolExhausted.
Proof. split_and!; [eexists; vm_compute; reflexivity|vm_compute; reflexivity|vm_compute; reflexivity]. Qed.

(** The text a fresh reservation is stored under, rendered into bootd's
    hosts file and compared with the other rows, is an exact name of its
    address: it parses back to a [uint32] of the lease range and printing that
    gives the text again. *)
Theorem reserved_address_roundtrip digest subnet machine mac now address subnet' start end_
    (Hrange : LeaseRange subnet = inl (start, end_))
    (Hres : Reserve digest subnet machine mac now = inl (address, true, subnet')) :
  exists v, ParseIP4 address = Some v /\ show_ip v = address /\ start <= v <= end_.
Proof.
  unfold Reserve in Hres. destruct (find_first _ _); [done|]. rewrite Hrange in Hres.
  pose proof (nextFree_spec start end_
    (ReservedAddresses subnet ∪ list_to_set (rsv_Address <$> reservations subnet))) as Hnf.
  destruct (nextFree _ _ _) as [v|]; [|done]. simplify_eq. exists v.
  pose proof (LeaseRange_range _ _ _ Hrange). split; [apply ParseIP4_show; lia|]. split; [done|tauto].
Qed.

(** ** Witnesses *)

Definition fake_digest (s : string) : string := s.

Definition one_taken : list DHCPReservation := [mkReservation "10.0.0.3" "m0" "52:54:00:00:00:00" 0].

Lemma one_taken_ok : table_ok (lease_subnet "10.0.0.0/29" one_taken).
Proof.
  split_and!; [apply NoDup_singleton|apply NoDup_singleton|].
  intros r [->|Hr]%elem_of_cons; [|inversion Hr]. apply (bool_decide_unpack _). vm_compute. exact I.
Qed.

Lemma Reserve_keeps_table_witness :
  exists s', Reserve fake_digest (lease_subnet "10.0.0.0/29" one_taken) "m1" "52:54:00:00:00:01" 7
    = inl ("10.0.0.4", true, s') /\ table_ok s'.
Proof.
  eexists. split; [vm_compute; reflexivity|].
  eapply (Reserve_keeps_table fake_digest (lease_subnet "10.0.0.0/29" one_taken) "m1" "52:54:00:00:00:01" 7
    "10.0.0.4" true); [exact one_taken_ok|vm_compute; reflexivity].
Defined.

Lemma Reserve_lowest_free_witness :
  exists v, show_ip v = "10.0.0.4" /\ forall w, 167772161 <= w < v ->
    show_ip w ∈ ReservedAddresses (lease_subnet "10.0.0.0/29" one_taken) \/
    exists r, r ∈ one_taken /\ rsv_Address r = show_ip w.
Proof.
  pose proof (Reserve_lowest_free fake_digest (lease_subnet "10.0.0.0/29" one_taken) "m1" "52:54:00:00:00:01" 7
    167772161 167772166) as H.
  destruct H as [_ (v & Hv & _ & _ & Hlow)].
  - intros r [->|Hr]%elem_of_cons; [discriminate|inversion Hr].
  - vm_compute. reflexivity.
  - exists v. split; [rewrite <- Hv; vm_compute; reflexivity|exact Hlow].
Defined.

Lemma Reserve_idempotent_witness :
  exists s', Reserve fake_digest s' "m1" "other" 9 = inl ("10.0.0.4", false, s').
Proof.
  eexists.
  eapply (Reserve_idempotent fake_digest (lease_subnet "10.0.0.0/29" one_taken) "m1" "52:54:00:00:00:01" 7
    "other" 9 "10.0.0.4" true); [exact one_taken_ok|vm_compute; reflexivity].
Defined.

Lemma Release_spec_witness :
  table_ok (Release fake_digest (lease_subnet "10.0.0.0/29" one_taken) "m0").2.
Proof.
  pose proof (Release_spec fake_digest (lease_subnet "10.0.0.0/29" one_taken) "m0" one_taken_ok) as H.
  destruct (Release fake_digest (lease_subnet "10.0.0.0/29" one_taken) "m0") as [b s']. apply H.
Defined.

Lemma Revision_order_independent_witness :
  let a := mkReservation "10.0.0.3" "m0" "aa" 0 in let b := mkReservation "10.0.0.4" "m1" "bb" 0 in
  Revision fake_digest [a; b] = Revision fake_digest [b; a].
Proof. intros a b. apply (Revision_order_independent fake_digest [a; b] [b; a]). apply Permutation_swap. Defined.

Lemma reserved_address_roundtrip_witness :
  exists address subnet', Reserve fake_digest (lease_subnet "10.0.0.0/29" one_taken) "m1" "52:54:00:00:00:01" 0
      = inl (address, true, subnet')
    /\ exists v, ParseIP4 address = Some v /\ 167772161 <= v <= 167772166.
Proof.
  eexists _, _. split; [vm_compute; reflexivity|].
  edestruct (reserved_address_roundtrip fake_digest (lease_subnet "10.0.0.0/29" one_taken) "m1" "52:54:00:00:00:01" 0)
    as (v & Hp & _ & Hv); [vm_compute; reflexivity|vm_compute; reflexivity|].
  exists v. split; [exact Hp|exact Hv].
Defined.
