(* ===== verification/Bootd.v ===== *)
(** * Bootd: the DHCP, TFTP and proxy front on a provisioning segment

    [src/internal/bootd]: [mac.go], [grubpath.go], [config.go], [identity.go],
    [render.go], [leaserelease.go] (the lease file texts), [tftp.go] (the read
    handler), [proxy.go] (upstream checks and routing), [readyz.go] and
    [maccache.go].  The dnsmasq supervisor is in [Dnsmasq.v].

    A [net.IP] is nil or IPv4 here ([option Z]); [url.Parse] is a parameter. *)

From S2P Require Import Prelude Text Api Effects Cluster SubnetDhcp.
Local Open Scope string_scope.
Local Open Scope list_scope.
Local Open Scope nat_scope.

(** ** MAC addresses *)

(** [([0-9A-Fa-f]{2}:){n}[0-9A-Fa-f]{2}] on the whole text. *)
Fixpoint mac_shape (n : nat) (s : string) : bool :=
  match n, s with
  | O, String a (String b EmptyString) => is_hex a && is_hex b
  | S n, String a (String b (String c rest)) =>
    is_hex a && is_hex b && Ascii.eqb c ":" && mac_shape n rest
  | _, _ => false
  end.

Definition NormalizeMAC (mac : string) : option string :=
  if negb (mac_shape 5 mac) then None else Some (ToLower mac).

(** ** URLs *)

Record URL := mkURL { Scheme : string; Host : string; Path : string }.

Definition is_slash (c : ascii) : bool := Ascii.eqb c "/".

Definition httpScheme : string := "http".
Definition ShimFilename : string := "shimx64.efi".
Definition GrubFilename : string := "grubx64.efi".
Definition DefaultProxyPort : Z := 80.
Definition DefaultBootFilename : string := ShimFilename.
Definition DefaultLeaseTime : Z := 30 * Minute.
Definition kezioTag : string := "kezio".
Definition httpClientTag : string := "httpclient".
Definition archX64UEFIHTTP : Z := 16.
Definition httpBootVendorClass : string := "HTTPClient".
Definition pxeVendorClass : string := "PXEClient".
Definition HostsfileName : string := "dhcp-hosts.conf".
Definition leasefileName : string := "dnsmasq.leases".
Definition GrubConfigPath : string := "grub/grub.cfg".

Section Urls.
Context (ParseURL : string -> URL + GoErr).

Definition GrubNetPath (serverURL filePath : string) : string + GoErr :=
  match ParseURL serverURL with
  | inr err => inr (wrapf "parsing server URL %q: %w" [serverURL] err)
  | inl u =>
    if Scheme u <>s httpScheme then
      inr (errorf "server URL %q: GRUB's network stack supports only http, not %q" [serverURL; Scheme u])
    else if Host u =s "" then inr (errorf "server URL %q carries no host" [serverURL])
    else
      let filePath := if negb (HasPrefix filePath "/") then String.append "/" filePath else filePath in
      inl (sprintf "(%s,%s)%s%s" [Scheme u; Host u; TrimRight is_slash (Path u); filePath])
  end.

Definition validateHTTPBootURL (rawURL : string) : option GoErr :=
  match ParseURL rawURL with
  | inr err => Some (wrapf "HTTPBootURL %q is not a valid URL: %w" [rawURL] err)
  | inl u =>
    if (Scheme u <>s httpScheme) && (Scheme u <>s "https") then
      Some (errorf "HTTPBootURL %q must be an http or https URL, firmware fetches nothing else" [rawURL])
    else if Host u =s "" then Some (errorf "HTTPBootURL %q names no host" [rawURL])
    else None
  end.

Definition RenderGrubConfig (bootConfigURL : string) : string + GoErr :=
  match GrubNetPath bootConfigURL "/boot/grub.cfg-${net_default_mac}" with
  | inr err => inr (wrapf "rendering %s: %w" [GrubConfigPath] err)
  | inl configPath =>
    inl (sprintf (String.concat newline ["# Generated by kezio-bootd - do not edit."; "configfile %s"; ""]) [configPath])
  end.

(** ** The dnsmasq configuration *)

(** [net.IPNet]: address and mask. *)
Record IPNet := mkIPNet { net_IP : Z; net_Mask : Z }.

#[export] Instance IPNet_eq_dec : EqDecision IPNet.
Proof. solve_decision. Defined.

Record Config := mkConfig {
  Interface : string; ServerIP : option Z; NextServerIP : option Z; ProvisioningNet : option IPNet;
  BootFilename : string; TFTPDir : string; HTTPBootURL : string; AnswerAll : bool; LeaseMode : bool;
  Gateway : option string; cfg_LeaseRangeStart : option Z; cfg_LeaseRangeEnd : option Z;
  LeaseTime : Z; LeaseFilePath : string }.

#[export] Instance eta_Config : Eta Config := fun r =>
  mkConfig (Interface r) (ServerIP r) (NextServerIP r) (ProvisioningNet r) (BootFilename r) (TFTPDir r)
    (HTTPBootURL r) (AnswerAll r) (LeaseMode r) (Gateway r) (cfg_LeaseRangeStart r) (cfg_LeaseRangeEnd r)
    (LeaseTime r) (LeaseFilePath r).

Definition withDefaults (c : Config) : Config :=
  let c := if BootFilename c =s "" then c <| BootFilename := DefaultBootFilename |> else c in
  if (LeaseTime c =? 0)%Z then c <| LeaseTime := DefaultLeaseTime |> else c.

Definition HostsfilePath (runDir : string) : string := Join [runDir; HostsfileName].

Definition prefixLen (mask : Z) : Z := Z.of_nat (length (List.filter id (map (fun i => Z.testbit mask (Z.of_nat i)) (seq 0 32)))).

Definition leaseRange (cfg : Config) (network mask : Z) : (Z * Z) + GoErr :=
  let startSet := bool_decide (is_Some (cfg_LeaseRangeStart cfg)) in
  let endSet := bool_decide (is_Some (cfg_LeaseRangeEnd cfg)) in
  if negb (Bool.eqb startSet endSet) then
    inr (errorf "LeaseRangeStart and LeaseRangeEnd must both be set, or both left empty for auto-derivation" [])
  else match cfg_LeaseRangeStart cfg, cfg_LeaseRangeEnd cfg with
       | Some start, Some end_ => inl (start, end_)
       | _, _ =>
         if (uint32 (not32 mask - 1) <? 1)%Z then
           inr (errorf "ProvisioningNet %s/%d has no usable host addresses for an auto-derived lease range; set LeaseRangeStart/LeaseRangeEnd explicitly"
                  [show_ip network; show_dec (prefixLen mask)])
         else inl (uint32 (network + 1), uint32 (Z.lor network (not32 mask) - 1))
       end.

Definition Hour : Z := 60 * Minute.

(** [int64(d.Seconds())] is exact below 2^53 nanoseconds of fraction. *)
Definition formatDNSMasqDuration (d : Z) : string :=
  if (Z.rem d Hour =? 0)%Z then sprintf "%dh" [show_dec (Z.quot d Hour)]
  else if (Z.rem d Minute =? 0)%Z then sprintf "%dm" [show_dec (Z.quot d Minute)]
  else show_dec (Z.quot d Second).

(** The lines about the router option. *)
Definition gateway_lines (cfg : Config) : list string + GoErr :=
  match Gateway cfg with
  | Some g =>
    if negb (LeaseMode cfg) then inl []
    else if g =s "" then inl ["dhcp-option=3"]
    else match ParseIP4 g with
         | None => inr (errorf "Config.Gateway %q is not a valid IPv4 address" [g])
         | Some gw => inl [sprintf "dhcp-option=3,%s" [show_ip gw]]
         end
  | None => inl []
  end.

Definition boot_lines (cfg : Config) (nextServer : string) : list string :=
  if LeaseMode cfg then
    [sprintf "dhcp-boot=%s,,%s" [BootFilename cfg; nextServer];
     "dhcp-match=set:efi-x86_64,option:client-arch,7";
     sprintf "dhcp-boot=tag:efi-x86_64,%s,,%s" [BootFilename cfg; nextServer]]
    ++ (if HTTPBootURL cfg <>s "" then
          [sprintf "dhcp-match=set:%s,option:client-arch,%d" [httpClientTag; show_dec archX64UEFIHTTP];
           sprintf "dhcp-option-force=tag:%s,60,%s" [httpClientTag; httpBootVendorClass];
           sprintf "dhcp-boot=tag:%s,%s" [httpClientTag; HTTPBootURL cfg]]
        else [])
  else if AnswerAll cfg then
    [sprintf "pxe-service=x86-64_EFI,%q,%s,%s" ["kezio network boot"; BootFilename cfg; nextServer]]
  else
    [sprintf "pxe-service=tag:%s,x86-64_EFI,%q,%s,%s" [kezioTag; "kezio network boot"; BootFilename cfg; nextServer]].

Definition http_lines (cfg : Config) : list string :=
  if negb (LeaseMode cfg) && (HTTPBootURL cfg <>s "") then
    [sprintf "dhcp-pxe-vendor=%s,%s" [pxeVendorClass; httpBootVendorClass];
     sprintf "dhcp-match=set:%s,option:client-arch,%d" [httpClientTag; show_dec archX64UEFIHTTP];
     sprintf "dhcp-boot=tag:%s,%s" [httpClientTag; HTTPBootURL cfg]]
  else [].

(** The lines of the configuration, each printed with its newline. *)
Definition dnsmasq_lines (cfg0 : Config) (runDir : string) : list string + GoErr :=
  let cfg := withDefaults cfg0 in
  match (if HTTPBootURL cfg <>s "" then validateHTTPBootURL (HTTPBootURL cfg) else None) with
  | Some err => inr err
  | None =>
    match ServerIP cfg, ProvisioningNet cfg with
    | None, _ => inr (errorf "ServerIP %v is not a valid IPv4 address" ["<nil>"])
    | Some _, None => inr (errorf "ProvisioningNet is required" [])
    | Some serverIP, Some net =>
      let network := Z.land (net_IP net) (net_Mask net) in
      let mask := net_Mask net in
      let nextServer := show_ip (default serverIP (NextServerIP cfg)) in
      match (if LeaseMode cfg then leaseRange cfg network mask else inl (0, 0)%Z), gateway_lines cfg with
      | inr err, _ => inr err
      | _, inr err => inr err
      | inl (leaseStart, leaseEnd), inl gateway =>
        let leaseFilePath := if LeaseFilePath cfg =s "" then Join [runDir; leasefileName] else LeaseFilePath cfg in
        inl (["# Generated by kezio-bootd - do not edit.";
              "# dnsmasq re-reads only dhcp-hostsfile on SIGHUP; any change here";
              "# requires a dnsmasq restart (bootd restarts it on crash only).";
              "port=0"; "log-dhcp"]
             ++ (if Interface cfg <>s "" then ["bind-interfaces"; sprintf "interface=%s" [Interface cfg]] else [])
             ++ [sprintf "dhcp-leasefile=%s" [leaseFilePath];
                 if LeaseMode cfg
                 then sprintf "dhcp-range=%s,%s,%s" [show_ip leaseStart; show_ip leaseEnd; formatDNSMasqDuration (LeaseTime cfg)]
                 else sprintf "dhcp-range=%s,proxy,%s" [show_ip network; show_ip mask];
                 sprintf "dhcp-hostsfile=%s" [HostsfilePath runDir]]
             ++ gateway ++ boot_lines cfg nextServer ++ http_lines cfg
             ++ (if AnswerAll cfg then [] else [sprintf "dhcp-ignore=tag:!%s" [kezioTag]])
             ++ ["dhcp-no-override"; "dhcp-ignore-clid"])
      end
    end
  end.

Definition RenderDnsmasqConf (cfg : Config) (runDir : string) : string + GoErr :=
  match dnsmasq_lines cfg runDir with
  | inr err => inr err
  | inl lines => inl (String.concat "" (map (fun l => String.append l newline) lines))
  end.

(** ** The reverse proxy *)

Record ProxyConfig := mkProxyConfig { Addr : string; AgentUpstreamURL : string; BootUpstreamURL : string }.

Definition bootRoutePrefix : string := "/boot/".
Definition agentRoutePrefix : string := "/agent/".
Definition grubNetSearchRoutePrefix : string := "/grub/".

Definition Enabled (c : ProxyConfig) : bool := (AgentUpstreamURL c <>s "") || (BootUpstreamURL c <>s "").

(** The target of a reverse proxy, checked. *)
Definition newReverseProxy (rawURL : string) : URL + GoErr :=
  match ParseURL rawURL with
  | inr err => inr (wrapf "parsing URL: %w" [] err)
  | inl target =>
    if (Scheme target <>s httpScheme) && (Scheme target <>s "https")
    then inr (errorf "scheme %q is not http or https" [Scheme target])
    else if Host target =s "" then inr (errorf "missing host" [])
    else inl target
  end.

(** The routes of the mux: prefix and upstream. *)
Definition NewProxyServer (cfg : ProxyConfig) : list (string * URL) + GoErr :=
  if negb (Enabled cfg) then
    inr (errorf "bootd: NewProxyServer requires at least one of AgentUpstreamURL or BootUpstreamURL" [])
  else
    let agent := if AgentUpstreamURL cfg <>s "" then
        match newReverseProxy (AgentUpstreamURL cfg) with
        | inr err => inr (wrapf "agent upstream URL %q: %w" [AgentUpstreamURL cfg] err)
        | inl u => inl [(agentRoutePrefix, u)]
        end
      else inl [] in
    match agent with
    | inr err => inr err
    | inl agent =>
      if BootUpstreamURL cfg <>s "" then
        match newReverseProxy (BootUpstreamURL cfg) with
        | inr err => inr (wrapf "boot upstream URL %q: %w" [BootUpstreamURL cfg] err)
        | inl u => inl (agent ++ [(bootRoutePrefix, u); (grubNetSearchRoutePrefix, u)])
        end
      else inl agent
    end.
End Urls.

(** ** The dhcp-hostsfile *)

Definition host_line (reservations : gmap string string) (mac : string) : string :=
  match reservations !! mac with
  | Some addr => if addr <>s "" then sprintf "%s,set:%s,%s" [mac; kezioTag; addr] else sprintf "%s,set:%s" [mac; kezioTag]
  | None => sprintf "%s,set:%s" [mac; kezioTag]
  end.

Definition RenderHostsfile (macs : list string) (reservations : gmap string string) : string :=
  match macs with
  | [] => ""
  | _ =>
    let sorted := compact (sort_by String.ltb macs) in
    String.concat "" (map (fun mac => String.append (host_line reservations mac) newline) sorted)
  end.

(** ** The lease file *)

Definition macDiff (old current : list string) : list string :=
  List.filter (fun mac => negb (bool_decide (mac ∈ current))) old.

Definition parseLeaseLine (line : string) : option (string * string) :=
  match Fields line with
  | _ :: m :: ip :: _ => match NormalizeMAC m with Some mac => Some (mac, ip) | None => None end
  | _ => None
  end.

(** The loop of [readLeaseFileByMAC] over the lines. *)
Definition leases_of (data : string) : gmap string string :=
  fold_left (fun m line =>
    if line =s "" then m else
    match parseLeaseLine line with Some (mac, ip) => <[mac := ip]> m | None => m end)
    (split_on (ascii_of_nat 10) data) ∅.

Definition is_newline (c : ascii) : bool := Ascii.eqb c (ascii_of_nat 10).

Definition keeps_lease (allowed : list string) (line : string) : bool :=
  match parseLeaseLine line with None => true | Some (mac, _) => bool_decide (mac ∈ allowed) end.

(** [filterLeaseFile]'s rewrite: the new content and the number of dropped lines. *)
Definition filter_leases (allowed : list string) (data : string) : string * nat :=
  let lines := List.filter (fun l => l <>s "") (split_on (ascii_of_nat 10) (TrimRight is_newline data)) in
  let kept := List.filter (keeps_lease allowed) lines in
  (match kept with [] => "" | _ => String.append (String.concat newline kept) newline end,
   length (List.filter (fun l => negb (keeps_lease allowed l)) lines)).

(** ** TFTP *)

(** [filepath.Base]. *)
Definition Base (path : string) : string :=
  if path =s "" then "." else
  let stripped := TrimRight is_slash path in
  match stripped with
  | EmptyString => "/"
  | _ => List.last (split_on "/" stripped) ""
  end.

Inductive TFTPAnswer :=
| ServeContent (content : string)
| OpenFile (path : string)
| Refuse (err : GoErr).

Record TFTPServer := mkTFTPServer { tftp_Dir : string; GrubConfig : string }.

Definition allowedTFTPFiles (name : string) : bool := (name =s ShimFilename) || (name =s GrubFilename).

Definition readHandler (t : TFTPServer) (filename : string) : TFTPAnswer :=
  let name := TrimPrefix filename "/" in
  if (name =s GrubConfigPath) && (GrubConfig t <>s "") then ServeContent (GrubConfig t)
  else
    let base := Base name in
    if negb (allowedTFTPFiles base) || (base <>s name) then Refuse (errorf "file %q not available" [filename])
    else OpenFile (Join [tftp_Dir t; base]).

(** ** Readiness *)

(** [IPNet.Contains] on IPv4. *)
Definition net_contains (net : IPNet) (ip : Z) : bool :=
  (Z.land ip (net_Mask net) =? Z.land (net_IP net) (net_Mask net))%Z.

(** [addrs] are the answers of the lookup: [None] for an address that is not
    an IPv4 network address. *)
Definition ProvisioningInterfaceReady (ifaceName : string) (provisioningNet : option IPNet)
    (lookup : list (option Z) + GoErr) : option GoErr :=
  match provisioningNet with
  | None => Some (errorf "no provisioning CIDR configured" [])
  | Some net =>
    let label := if ifaceName =s "" then "<any>" else ifaceName in
    match lookup with
    | inr err => Some (wrapf "looking up interface %q: %w" [label] err)
    | inl addrs =>
      if existsb (fun a => match a with Some ip4 => net_contains net ip4 | None => false end) addrs then None
      else Some (errorf "interface %q has no IPv4 address inside provisioning CIDR %s"
                   [label; String.append (show_ip (net_IP net)) (String.append "/" (show_dec (prefixLen (net_Mask net))))])
    end
  end.

(** ** The MAC allowlist *)

Record machineRecord := mkRecord { rec_mac : string; rec_local : bool }.

Record MACCache := mkMACCache {
  counts : gmap string nat; localCounts : gmap string nat; records : gmap string machineRecord;
  localNamespace : string; localName : string; synced : bool }.

#[export] Instance eta_MACCache : Eta MACCache := fun r =>
  mkMACCache (counts r) (localCounts r) (records r) (localNamespace r) (localName r) (synced r).

Definition NewMACCache (localNamespace localName : string) : MACCache :=
  mkMACCache ∅ ∅ ∅ localNamespace localName false.

Definition snapshotLocked (c : MACCache) : list string := sort_by String.ltb (map fst (map_to_list (counts c))).

Definition Snapshot (c : MACCache) : option (list string) := if synced c then Some (snapshotLocked c) else None.

(** What [pushLocked] gives the sink, if anything. *)
Definition pushLocked (c : MACCache) : option (list string) := if synced c then Some (snapshotLocked c) else None.

Definition isLocalLocked (c : MACCache) (machine : Machine) : bool :=
  if localName c =s "" then false else
  let ns := ResolveNamespace (SubnetRef (Spec machine)) (Namespace machine) in
  (ns =s localNamespace c) && (nr_Name (SubnetRef (Spec machine)) =s localName c).

(** Go's [m[k]++] and the removal of the last count. *)
Definition incr (k : string) (m : gmap string nat) : gmap string nat := <[k := S (default 0 (m !! k))]> m.
Definition decr (k : string) (m : gmap string nat) : gmap string nat :=
  if (default 0 (m !! k) <=? 1) then base.delete k m else <[k := pred (default 0 (m !! k))]> m.

Definition addRecordLocked (rec : machineRecord) (c : MACCache) : MACCache :=
  let c := c <| counts := incr (rec_mac rec) (counts c) |> in
  if rec_local rec then c <| localCounts := incr (rec_mac rec) (localCounts c) |> else c.

Definition removeRecordLocked (rec : machineRecord) (c : MACCache) : MACCache :=
  let c := c <| counts := decr (rec_mac rec) (counts c) |> in
  if rec_local rec then c <| localCounts := decr (rec_mac rec) (localCounts c) |> else c.

Definition machine_key (m : Machine) : string := String.append (Namespace m) (String.append "/" (Name m)).

Definition applyLocked (identity : Machine) (newMachine : option Machine) (c : MACCache) : MACCache :=
  let key := machine_key identity in
  let c := match records c !! key with
           | Some prev => (removeRecordLocked prev c) <| records := base.delete key (records c) |>
           | None => c
           end in
  match newMachine with
  | None => c
  | Some m =>
    match NormalizeMAC (BootMACAddress (Spec m)) with
    | None => c
    | Some mac =>
      let rec := mkRecord mac (isLocalLocked c m) in
      addRecordLocked rec (c <| records := <[key := rec]> (records c) |>)
    end
  end.

(** What an informer hands to a handler. *)
Inductive Obj := OMachine (m : Machine) | OTombstone (m : option Machine) | OOther.

Inductive informer_event := OnAdd (o : Obj) | OnUpdate (old new : Obj) | OnDelete (o : Obj) | CacheSynced.

(** One handler, or [Start] after the first sync, with what it pushes. *)
Definition on_event (c : MACCache) (e : informer_event) : MACCache * option (list string) :=
  match e with
  | OnAdd (OMachine m) => let c := applyLocked m (Some m) c in (c, pushLocked c)
  | OnUpdate (OMachine old) (OMachine new) => let c := applyLocked old (Some new) c in (c, pushLocked c)
  | OnDelete (OMachine m) | OnDelete (OTombstone (Some m)) => let c := applyLocked m None c in (c, pushLocked c)
  | CacheSynced => let c := c <| synced := true |> in (c, pushLocked c)
  | _ => (c, None)
  end.

Definition HasLocalMember (c : MACCache) (mac : string) : bool :=
  if negb (synced c) then false else 0 <? default 0 (localCounts c !! mac).

(** *** The set of enrolled Machines the events describe *)

Abbreviation enrolled := (gmap string Machine).

Definition enrol (ms : enrolled) (e : informer_event) : enrolled :=
  match e with
  | OnAdd (OMachine m) => <[machine_key m := m]> ms
  | OnUpdate (OMachine old) (OMachine new) => <[machine_key old := new]> ms
  | OnDelete (OMachine m) | OnDelete (OTombstone (Some m)) => base.delete (machine_key m) ms
  | _ => ms
  end.

Definition is_sync (e : informer_event) : bool := match e with CacheSynced => true | _ => false end.

Definition record_of (c : MACCache) (m : Machine) : option machineRecord :=
  mac ← NormalizeMAC (BootMACAddress (Spec m)); Some (mkRecord mac (isLocalLocked c m)).

(** How many records satisfy [P]. *)
Definition cnt (P : machineRecord -> bool) (rs : gmap string machineRecord) : nat :=
  length (List.filter P (map snd (map_to_list rs))).

Definition counted (P : machineRecord -> bool) (rs : gmap string machineRecord) (m : gmap string nat) : Prop :=
  forall mac, default 0 (m !! mac) = cnt (fun r => P r && (rec_mac r =s mac)) rs /\ m !! mac <> Some 0.

Lemma filter_length_perm {A} (P : A -> bool) l l' : l ≡ₚ l' -> length (List.filter P l) = length (List.filter P l').
Proof.
  induction 1 as [|x l l' _ IH|x y l|l1 l2 l3 _ IH1 _ IH2]; cbn; [done|destruct (P x); cbn; lia| |lia].
  destruct (P x), (P y); done.
Qed.

Lemma cnt_insert P rs k r : rs !! k = None -> cnt P (<[k := r]> rs) = (if P r then 1 else 0) + cnt P rs.
Proof.
  intros Hk. unfold cnt. rewrite (filter_length_perm P _ (r :: map snd (map_to_list rs))).
  - cbn. by destruct (P r).
  - change (map snd) with (fmap (M := list) (@snd string machineRecord)). by rewrite map_to_list_insert.
Qed.

Lemma cnt_delete P rs k r : rs !! k = Some r -> cnt P rs = (if P r then 1 else 0) + cnt P (base.delete k rs).
Proof.
  intros Hk. rewrite <- (cnt_insert P (base.delete k rs) k r) by apply lookup_delete_eq. by rewrite insert_delete_id.
Qed.

Lemma counted_incr P rs m k r :
  counted P rs m -> rs !! k = None ->
  counted P (<[k := r]> rs) (if P r then incr (rec_mac r) m else m).
Proof.
  intros Hc Hk mac. rewrite cnt_insert by done. destruct (Hc mac) as [Hm Hz].
  destruct (P r); cbn [andb]; [|split; [lia|done]]. unfold incr.
  destruct (String.eqb_spec (rec_mac r) mac) as [->|Hne].
  - rewrite lookup_insert_eq. cbn. rewrite Hm. split; [lia|congruence].
  - rewrite lookup_insert_ne by done. split; [lia|done].
Qed.

Lemma counted_decr P rs m k r :
  counted P rs m -> rs !! k = Some r ->
  counted P (base.delete k rs) (if P r then decr (rec_mac r) m else m).
Proof.
  intros Hc Hk mac. destruct (Hc mac) as [Hm Hz]. rewrite (cnt_delete _ _ _ _ Hk) in Hm.
  destruct (P r); cbn [andb] in Hm; [|split; [lia|done]]. unfold decr.
  destruct (String.eqb_spec (rec_mac r) mac) as [->|Hne].
  - destruct (Nat.leb_spec (default 0 (m !! mac)) 1).
    + rewrite lookup_delete_eq. cbn. split; [lia|done].
    + rewrite lookup_insert_eq. cbn. split; [lia|]. intros [= E]. lia.
  - destruct (_ <=? _); [rewrite lookup_delete_ne by done|rewrite lookup_insert_ne by done]; split; [lia|done|lia|done].
Qed.

(** *** The cache refines the set of enrolled Machines *)

Definition cache_ok (c : MACCache) (ms : enrolled) : Prop :=
  records c = omap (record_of c) ms
  /\ counted (fun _ => true) (records c) (counts c) /\ counted rec_local (records c) (localCounts c).

Lemma record_of_ext c c' m :
  localName c' = localName c -> localNamespace c' = localNamespace c -> record_of c' m = record_of c m.
Proof. intros E1 E2. unfold record_of, isLocalLocked. by rewrite E1, E2. Qed.

Lemma omap_record_ext c c' ms :
  localName c' = localName c -> localNamespace c' = localNamespace c ->
  omap (record_of c') ms = omap (record_of c) ms :> gmap string machineRecord.
Proof.
  intros. apply map_eq. intros k. rewrite !lookup_omap. destruct (ms !! k); [|done]. cbn. by apply record_of_ext.
Qed.

(** The fields of an updated cache. *)
Ltac cache_fields :=
  cbv [upd]; cbn [records counts localCounts localNamespace localName synced].

(** Taking the old record of a key out. *)
Definition drop_record (key : string) (c : MACCache) : MACCache :=
  match records c !! key with
  | Some prev => (removeRecordLocked prev c) <| records := base.delete key (records c) |>
  | None => c
  end.

Lemma drop_record_ok key c ms :
  cache_ok c ms -> cache_ok (drop_record key c) (base.delete key ms)
  /\ localName (drop_record key c) = localName c /\ localNamespace (drop_record key c) = localNamespace c
  /\ synced (drop_record key c) = synced c.
Proof.
  intros (Hr & Hc & Hl). unfold drop_record. destruct (records c !! key) as [prev|] eqn:Ek.
  - pose proof (counted_decr _ _ _ _ _ Hc Ek) as Hc'. pose proof (counted_decr _ _ _ _ _ Hl Ek) as Hl'.
    unfold removeRecordLocked. destruct prev as [mac [|]]; cbn [rec_mac rec_local] in *; (split_and!; [|done..]);
      (split_and!; [|done|done]); cache_fields; rewrite Hr; (etransitivity; [symmetry; apply omap_delete|]);
      by apply omap_record_ext.
  - split_and!; [|done..]. split_and!; [|done..]. rewrite omap_delete, <- Hr. by rewrite delete_id.
Qed.

Lemma applyLocked_ok identity new c ms :
  cache_ok c ms ->
  cache_ok (applyLocked identity new c)
    (match new with Some m => <[machine_key identity := m]> ms | None => base.delete (machine_key identity) ms end)
  /\ localName (applyLocked identity new c) = localName c
  /\ localNamespace (applyLocked identity new c) = localNamespace c
  /\ synced (applyLocked identity new c) = synced c.
Proof.
  intros Hok. unfold applyLocked. set (key := machine_key identity).
  change (match records c !! key with Some prev => _ | None => c end) with (drop_record key c).
  destruct (drop_record_ok key c ms Hok) as (Hd & En & Ens & Es).
  destruct new as [m|]; [|done]. rewrite <- (insert_delete_eq ms key m).
  set (c1 := drop_record key c) in *. set (ms1 := base.delete key ms) in *.
  assert (Hkey : ms1 !! key = None) by apply lookup_delete_eq. clearbody c1 ms1.
  destruct Hd as (Hr & Hc & Hl).
  assert (Hrk : records c1 !! key = None) by (by rewrite Hr, lookup_omap, Hkey).
  destruct (NormalizeMAC (BootMACAddress (Spec m))) as [mac|] eqn:Em.
  - pose proof (counted_incr _ _ _ _ (mkRecord mac (isLocalLocked c1 m)) Hc Hrk) as Hc'.
    pose proof (counted_incr _ _ _ _ (mkRecord mac (isLocalLocked c1 m)) Hl Hrk) as Hl'.
    assert (Hrec : record_of c1 m = Some (mkRecord mac (isLocalLocked c1 m))) by (unfold record_of; by rewrite Em).
    unfold addRecordLocked. cbn [rec_local rec_mac] in *.
    destruct (isLocalLocked c1 m); (split_and!; [|done..]); (split_and!; [|done|done]); cache_fields;
      rewrite Hr, <- (omap_insert_Some _ _ _ _ _ Hrec); by apply omap_record_ext.
  - split_and!; [|done..]. split_and!; [|done..].
    rewrite omap_insert_None by (unfold record_of; by rewrite Em). rewrite <- Hr. by rewrite delete_id.
Qed.

Lemma on_event_ok c ms e :
  cache_ok c ms -> cache_ok (on_event c e).1 (enrol ms e)
  /\ localName (on_event c e).1 = localName c /\ localNamespace (on_event c e).1 = localNamespace c
  /\ synced (on_event c e).1 = synced c || is_sync e.
Proof.
  intros Hok.
  destruct e as [[m|[m|]|]|[old|[m|]|] [new|[m'|]|]|[m|[m|]|]|]; cbn [on_event enrol is_sync fst];
    rewrite ?orb_false_r; try (split_and!; done).
  - exact (applyLocked_ok m (Some m) c ms Hok).
  - exact (applyLocked_ok old (Some new) c ms Hok).
  - exact (applyLocked_ok m None c ms Hok).
  - exact (applyLocked_ok m None c ms Hok).
  - split_and!; [|done|done|by rewrite orb_true_r]. destruct Hok as (Hr & Hc & Hl). split_and!; [|done|done].
    cbn. rewrite Hr. by apply omap_record_ext.
Qed.

Definition run_events (c : MACCache) (es : list informer_event) : MACCache :=
  fold_left (fun c e => (on_event c e).1) es c.

Lemma run_events_ok c ms es :
  cache_ok c ms -> cache_ok (run_events c es) (fold_left enrol es ms)
  /\ localName (run_events c es) = localName c /\ localNamespace (run_events c es) = localNamespace c
  /\ synced (run_events c es) = synced c || existsb is_sync es.
Proof.
  revert c ms. induction es as [|e es IH]; intros c ms Hok; cbn [existsb fold_left].
  { cbn. by rewrite orb_false_r. }
  change (run_events c (e :: es)) with (run_events (on_event c e).1 es).
  destruct (on_event_ok c ms e Hok) as (Hok' & E1 & E2 & E3).
  destruct (IH _ _ Hok') as (H & F1 & F2 & F3). rewrite F1, F2, E1, E2.
  split_and!; [done..|]. rewrite F3, E3. by rewrite orb_assoc.
Qed.

Lemma NewMACCache_ok ns n : cache_ok (NewMACCache ns n) ∅.
Proof. split_and!; [done|..]; intros mac; by vm_compute. Qed.

Lemma cnt_pos P rs : 0 < cnt P rs <-> exists k r, rs !! k = Some r /\ P r = true.
Proof.
  unfold cnt. split.
  - intros H. destruct (List.filter P _) as [|r l] eqn:E; [cbn in H; lia|].
    assert (Hin : In r (List.filter P (map snd (map_to_list rs)))) by (rewrite E; left; done).
    apply filter_In in Hin as [Hin HP]. apply in_map_iff in Hin as ([k r'] & <- & Hin).
    apply list_elem_of_In, elem_of_map_to_list in Hin. eauto.
  - intros (k & r & Hk & HP). apply elem_of_map_to_list, list_elem_of_In in Hk.
    assert (Hin : In r (List.filter P (map snd (map_to_list rs)))).
    { apply filter_In. split; [|done]. apply in_map_iff. by exists (k, r). }
    destruct (List.filter P _); [done|cbn; lia].
Qed.

(** A boot MAC of the enrolled Machines, on the own Subnet. *)
Definition claims_mac (ms : enrolled) (mac : string) (P : Machine -> bool) : Prop :=
  exists k m, ms !! k = Some m /\ NormalizeMAC (BootMACAddress (Spec m)) = Some mac /\ P m = true.

Lemma counted_claims c ms P Q m :
  records c = omap (record_of c) ms -> counted P (records c) m ->
  (forall x mac, NormalizeMAC (BootMACAddress (Spec x)) = Some mac -> P (mkRecord mac (isLocalLocked c x)) = Q x) ->
  forall mac, 0 < default 0 (m !! mac) <-> claims_mac ms mac Q.
Proof.
  intros Hr Hc HPQ mac. destruct (Hc mac) as [-> _]. rewrite cnt_pos, Hr. unfold claims_mac. split.
  - intros (k & r & Hk & HP). rewrite lookup_omap in Hk. apply bind_Some in Hk as (x & Hx & Hrec).
    unfold record_of in Hrec. destruct (NormalizeMAC _) as [mac'|] eqn:Em; [|done]. cbn in Hrec. simplify_eq.
    apply andb_true_iff in HP as [HP Heq]. cbn in Heq. apply String.eqb_eq in Heq as ->.
    exists k, x. split_and!; [done|done|]. by rewrite <- (HPQ x mac).
  - intros (k & x & Hk & Hm & HQ). exists k, (mkRecord mac (isLocalLocked c x)). split.
    + rewrite lookup_omap, Hk. cbn. unfold record_of. by rewrite Hm.
    + rewrite (HPQ x mac Hm), HQ. cbn. by rewrite String.eqb_refl.
Qed.

Lemma sorted_NoDup_strict l : StronglySorted str_le l -> NoDup l -> StronglySorted str_lt l.
Proof.
  induction 1 as [|x l Hs IH Hf]; [constructor|]. intros [Hx Hnd]%NoDup_cons. constructor; [by apply IH|].
  rewrite Forall_forall in *. intros y Hy. destruct (Hf y Hy) as [->|?]; [done|done].
Qed.

Lemma snapshot_spec c ms :
  cache_ok c ms -> StronglySorted str_lt (snapshotLocked c)
  /\ forall mac, mac ∈ snapshotLocked c <-> claims_mac ms mac (fun _ => true).
Proof.
  intros (Hr & Hc & Hl). unfold snapshotLocked. split.
  - apply sorted_NoDup_strict; [apply sort_str_sorted|]. rewrite sort_by_perm. apply (NoDup_fst_map_to_list (M := gmap string)).
  - intros mac. rewrite sort_by_perm, <- (counted_claims c ms (fun _ => true) (fun _ => true) (counts c)) by done.
    destruct (Hc mac) as [_ Hz]. rewrite list_elem_of_In, in_map_iff. split.
    + intros ([k n] & <- & Hin). apply list_elem_of_In, elem_of_map_to_list in Hin. cbn in *. rewrite Hin in *. cbn.
      destruct n; [done|lia].
    + destruct (counts c !! mac) as [n|] eqn:E; cbn; [|lia]. intros _. exists (mac, n). split; [done|].
      by apply list_elem_of_In, elem_of_map_to_list.
Qed.

(** C27. The MAC allowlist refines the set of enrolled Machines: after any
    sequence of informer events (objects, tombstones, unrelated objects), the
    snapshot is the strictly sorted list of exactly the boot MACs some Machine
    that is still enrolled carries, even when two Machines share one or one
    changes its MAC or Subnet; [HasLocalMember] holds exactly for the MACs of
    Machines on the own Subnet; and before the first sync both say nothing. *)
Theorem mac_cache_refines_enrolment ns name es
    (c := run_events (NewMACCache ns name) es) (ms := fold_left enrol es (∅ : enrolled)) :
  (existsb is_sync es = false -> Snapshot c = None /\ forall mac, HasLocalMember c mac = false) /\
  (existsb is_sync es = true ->
    (exists l, Snapshot c = Some l /\ StronglySorted str_lt l /\ forall mac, mac ∈ l <-> claims_mac ms mac (fun _ => true))
    /\ forall mac, HasLocalMember c mac = true <-> claims_mac ms mac (isLocalLocked (NewMACCache ns name))).
Proof.
  destruct (run_events_ok (NewMACCache ns name) ∅ es (NewMACCache_ok ns name)) as (Hok & E1 & E2 & E3).
  fold c in Hok, E1, E2, E3. fold ms in Hok. clearbody c ms.
  cbn in E1, E2, E3. unfold Snapshot, HasLocalMember. rewrite E3. split; intros ->; [done|]. cbn [negb]. split.
  - exists (snapshotLocked c). split; [done|]. by apply snapshot_spec.
  - intros mac. destruct Hok as (Hr & Hc & Hl). rewrite Nat.ltb_lt.
    apply (counted_claims c ms rec_local); [done|done|]. intros x mac' _. cbn. unfold isLocalLocked. by rewrite E1, E2.
Qed.

(** ** The hostsfile admits exactly the allowlist *)

Lemma RenderHostsfile_sorted macs r :
  RenderHostsfile macs r = String.concat "" (map (fun mac => String.append (host_line r mac) newline) (sorted_set macs)).
Proof. by destruct macs. Qed.

Lemma sorted_set_ext l l' : (forall x, x ∈ l <-> x ∈ l') -> sorted_set l = sorted_set l'.
Proof.
  intros H. destruct (sorted_set_spec l) as [Hs He], (sorted_set_spec l') as [Hs' He'].
  apply strict_sorted_ext; [done|done|]. intros x. by rewrite He, He'.
Qed.

(** The MAC a hostsfile line is for: the text before its first comma. *)
Definition line_mac (line : string) : option string := fst <$> cut_at "," line.

Lemma cut_at_app c s t : free_of c s = true -> cut_at c (String.append s (String c t)) = Some (s, t).
Proof.
  induction s as [|a s IH]; rewrite ?append_cons, ?append_empty; cbn; [by rewrite Ascii.eqb_refl|].
  intros [Ha Hs]%andb_true_iff. apply negb_true_iff in Ha. rewrite Ha, IH by done. done.
Qed.

Lemma host_line_mac r mac : free_of "," mac = true -> line_mac (host_line r mac) = Some mac.
Proof.
  intros Hf. unfold line_mac, host_line.
  assert (Hc : forall s, line_mac (String.append mac (String "," s)) = Some mac)
    by (intros s; unfold line_mac; by rewrite cut_at_app).
  unfold line_mac in Hc. destruct (r !! mac) as [addr|]; [destruct (addr <>s "")|]; apply Hc.
Qed.

(** The hostsfile depends on the allowlist as a set and on the addresses
    reserved for its members only: pushes in another order, with repetitions or
    with reservations for MACs that are not enrolled render the same bytes, and
    its lines carry exactly the allowed MACs, each once; an empty allowlist
    renders the empty file. *)
Theorem hostsfile_is_the_allowlist macs macs' r r'
    (Hset : forall mac, mac ∈ macs <-> mac ∈ macs') (Hres : forall mac, mac ∈ macs -> r !! mac = r' !! mac)
    (Hmacs : forall mac, mac ∈ macs -> free_of "," mac = true) :
  RenderHostsfile macs r = RenderHostsfile macs' r'
  /\ (exists lines, RenderHostsfile macs r = String.concat "" (map (fun l => String.append l newline) lines)
       /\ omap line_mac lines = sorted_set macs /\ length lines = length (sorted_set macs))
  /\ NoDup (sorted_set macs) /\ RenderHostsfile [] r = "".
Proof.
  destruct (sorted_set_spec macs) as [Hs He]. split_and!.
  - rewrite !RenderHostsfile_sorted, <- (sorted_set_ext macs macs' Hset). f_equal. apply map_ext_in.
    intros mac Hin. f_equal. unfold host_line. rewrite Hres; [done|]. by apply He, list_elem_of_In.
  - exists (map (host_line r) (sorted_set macs)). split_and!; [by rewrite RenderHostsfile_sorted, map_map| |by rewrite length_map].
    assert (H : Forall (fun mac => free_of "," mac = true) (sorted_set macs)).
    { apply Forall_forall. intros mac Hm. apply Hmacs. by apply He. }
    clear He Hs. induction H as [|mac l Hm _ IH]; [done|]. cbn [map omap list_omap]. rewrite host_line_mac by done.
    by rewrite IH.
  - by apply strict_sorted_NoDup.
  - done.
Qed.

(** ** What TFTP serves *)

(** TFTP opens only the two allowlisted loaders directly under its directory:
    whatever name a client asks for (absolute, nested, with [..]), the answer is
    the bootstrap config kept in memory, one of these two files, or a refusal. *)
Theorem tftp_opens_only_loaders t filename :
  match readHandler t filename with
  | ServeContent c => c = GrubConfig t /\ c <> "" /\ TrimPrefix filename "/" = GrubConfigPath
  | OpenFile path =>
    (path = Join [tftp_Dir t; ShimFilename] /\ TrimPrefix filename "/" = ShimFilename)
    \/ (path = Join [tftp_Dir t; GrubFilename] /\ TrimPrefix filename "/" = GrubFilename)
  | Refuse _ => TrimPrefix filename "/" <> ShimFilename /\ TrimPrefix filename "/" <> GrubFilename
  end.
Proof.
  unfold readHandler. set (name := TrimPrefix filename "/").
  destruct (String.eqb_spec name GrubConfigPath) as [E|Hne]; destruct (String.eqb_spec (GrubConfig t) "") as [Eg|Hg]; cbn [andb negb].
  2: done.
  all: unfold allowedTFTPFiles.
  all: destruct (String.eqb_spec (Base name) ShimFilename) as [Es|Ns]; cbn [negb orb];
    [|destruct (String.eqb_spec (Base name) GrubFilename) as [Eg2|Ng]; cbn [negb orb]].
  all: try (destruct (String.eqb_spec (Base name) name) as [En|Nn]; cbn [negb]).
  all: try (by left; rewrite <- Es; split; [done|congruence]).
  all: try (by right; rewrite <- Eg2; split; [done|congruence]).
  all: split; intros ->; try done.
Qed.

Lemma hostsfile_is_the_allowlist_witness :
  RenderHostsfile ["b"; "a"; "b"] (<["a" := "10.0.0.5"]> ∅) =
  RenderHostsfile ["a"; "b"] (<["c" := "10.0.0.9"]> (<["a" := "10.0.0.5"]> ∅)).
Proof.
  apply hostsfile_is_the_allowlist.
  - intros mac. set_solver.
  - intros mac Hm. repeat (apply elem_of_cons in Hm as [->|Hm]; [reflexivity|]). by apply not_elem_of_nil in Hm.
  - intros mac Hm. repeat (apply elem_of_cons in Hm as [->|Hm]; [reflexivity|]). by apply not_elem_of_nil in Hm.
Defined.
