(* ===== verification/Dnsmasq.v ===== *)
(** * Dnsmasq: bootd's supervisor of dnsmasq and its DHCP reservation cache

    [src/internal/bootd/dnsmasq.go] (the two sinks, the hostsfile loop, the lease
    releases and the restart policy), [leaserelease.go] and [subnetdhcp.go].
    The goroutines run concurrently: [sys_step] is one atomic step of one of them (a
    critical section, a file write, a signal, a log line noted), and an arbitrary
    list of events is an arbitrary interleaving with the two informers, the
    dnsmasq child and its log. *)

From S2P Require Import Prelude Text Api Effects Cluster SubnetDhcp Bootd.
Local Open Scope string_scope.
Local Open Scope list_scope.
Local Open Scope nat_scope.

(** ** The shared state *)

(** [dirty] is the one-slot channel, [firstMACs] whether [firstMACsCh] is
    closed, [child] whether a child process is recorded. *)
Record Dnsmasq := mkDnsmasq {
  d_macs : list string; d_reservations : gmap string string; revision : string; revSet : bool;
  child : bool; pendingReleases : list string; dirty : bool; firstMACs : bool; readSeq : nat }.

#[export] Instance eta_Dnsmasq : Eta Dnsmasq := fun r =>
  mkDnsmasq (d_macs r) (d_reservations r) (revision r) (revSet r) (child r) (pendingReleases r) (dirty r)
    (firstMACs r) (readSeq r).

Definition requeueDirty (d : Dnsmasq) : Dnsmasq := d <| dirty := true |>.

Definition SetAllowedMACs (leaseMode : bool) (new : list string) (d : Dnsmasq) : Dnsmasq :=
  let old := d_macs d in
  let d := d <| d_macs := new |> in
  let d := if leaseMode then d <| pendingReleases := pendingReleases d ++ macDiff old new |> else d in
  d <| firstMACs := true |> <| dirty := true |>.

(** The first critical section of [SetReservations]; the candidates for release
    are computed from what it saw, without the lock. *)
Definition set_reservations (rev : string) (new : gmap string string) (d : Dnsmasq) : Dnsmasq :=
  d <| d_reservations := new |> <| revision := rev |> <| revSet := true |>.

Definition released_by (leaseMode : bool) (subnetMember : option (string -> bool))
    (old new : gmap string string) (allowed : list string) : list string :=
  match subnetMember with
  | Some member =>
    if leaseMode then
      List.filter (fun mac => negb (bool_decide (is_Some (new !! mac))) && bool_decide (mac ∈ allowed) && negb (member mac))
        (map fst (map_to_list old))
    else []
  | None => []
  end.

Definition queue_releases (toRelease : list string) (d : Dnsmasq) : Dnsmasq :=
  d <| pendingReleases := pendingReleases d ++ toRelease |>.

(** The whole call when nothing comes in between. *)
Definition SetReservations (leaseMode : bool) (subnetMember : option (string -> bool))
    (rev : string) (new : gmap string string) (d : Dnsmasq) : Dnsmasq :=
  requeueDirty (queue_releases (released_by leaseMode subnetMember (d_reservations d) new (d_macs d))
    (set_reservations rev new d)).

Definition noteHostsfileRead (d : Dnsmasq) : Dnsmasq := d <| readSeq := S (readSeq d) |>.
Definition currentReadSeq (d : Dnsmasq) : nat := readSeq d.

Definition hostsfileReadMarker (path : string) : string := String.append "read " path.

(** ** The hostsfile loop *)

(** Where the loop is: waiting for a change, debouncing, drained, with a rendered
    snapshot, deciding whether the written file still has to be confirmed,
    with the baseline taken, waiting for the confirming read, and about to
    report.  [r] is the revision of the snapshot, [s] whether one was set. *)
Inductive loop_pc :=
| LIdle
| LDebounce
| LDrained
| LSnapped (content : string) (alive : bool) (r : string) (s : bool)
| LConfirm (alive : bool) (r : string) (s : bool)
| LSignal (baseline : nat) (r : string) (s : bool)
| LWait (baseline : nat) (r : string) (s : bool)
| LReport (r : string) (s : bool).

(** The loop's variables, and around it: the file on disk, what dnsmasq read
    last, how many of its read lines are not noted yet, the revisions reported
    with what dnsmasq had read at that time, the MACs handed to
    [releaseLeases], and in [pushed] every configuration that was in force since
    a revision was set: the allowed MACs, the revision and its reservations
    together, as they stood after a call of one of the two sinks. *)
Record sys := mkSys {
  dn : Dnsmasq; pc : loop_pc; lastWritten : string; confirmed : bool; lastAppliedRev : option string;
  file : string; last_read : option string; inflight : nat;
  applied : list (string * option string); pushed : list (list string * string * gmap string string); releases : list string }.

#[export] Instance eta_sys : Eta sys := fun r =>
  mkSys (dn r) (pc r) (lastWritten r) (confirmed r) (lastAppliedRev r) (file r) (last_read r) (inflight r)
    (applied r) (pushed r) (releases r).

Inductive event_in :=
| EvMACs (allowed : list string)                                 (* SetAllowedMACs *)
| EvReservations (rev : string) (res : gmap string string)    (* SetReservations: first critical section *)
| EvQueue (toRelease : list string)                           (* SetReservations: releases queued and the nudge *)
| EvChildStart | EvChildExit                                  (* runChild records and clears the child *)
| EvRead                                                      (* dnsmasq reads the hostsfile and logs it *)
| EvNote                                                      (* a forwarded line is matched *)
| EvLoop (ok : bool).                                         (* the loop's next step; [ok = false]: the write or
                                                                 the signal fails, or the wait times out *)

(** One step of the loop; [None] when it is blocked. *)
Definition hostsfileLoop (ok : bool) (s : sys) : option sys :=
  match pc s with
  | LIdle => if dirty (dn s) then Some (s <| dn := (dn s) <| dirty := false |> |> <| pc := LDebounce |>) else None
  | LDebounce => Some (s <| dn := (dn s) <| dirty := false |> |> <| pc := LDrained |>)
  | LDrained =>
    let d := dn s in
    let content := RenderHostsfile (d_macs d) (d_reservations d) in
    Some (s <| dn := d <| pendingReleases := @nil string |> |>
            <| releases := releases s ++ pendingReleases d |>
            <| pc := LSnapped content (child d) (revision d) (revSet d) |>)
  | LSnapped content alive r st =>
    if content =s lastWritten s then Some (s <| pc := LConfirm alive r st |>)
    else if negb ok then Some (s <| pc := LIdle |>)
    else Some (s <| file := content |> <| lastWritten := content |> <| confirmed := false |> <| pc := LConfirm alive r st |>)
  | LConfirm alive r st =>
    if confirmed s then Some (s <| pc := LReport r st |>)
    else if negb alive then Some (s <| dn := requeueDirty (dn s) |> <| pc := LIdle |>)
    else Some (s <| pc := LSignal (currentReadSeq (dn s)) r st |>)
  | LSignal baseline r st =>
    if negb ok then Some (s <| dn := requeueDirty (dn s) |> <| pc := LIdle |>)
    else Some (s <| pc := LWait baseline r st |>)
  | LWait baseline r st =>
    if baseline <? readSeq (dn s) then Some (s <| confirmed := true |> <| pc := LReport r st |>)
    else if negb ok then Some (s <| dn := requeueDirty (dn s) |> <| pc := LIdle |>)
    else None
  | LReport r st =>
    if st && negb (bool_decide (lastAppliedRev s = Some r)) then
      Some (s <| lastAppliedRev := Some r |> <| applied := applied s ++ [(r, last_read s)] |> <| pc := LIdle |>)
    else Some (s <| pc := LIdle |>)
  end.

(** The configuration in force; none before the first [SetReservations]. *)
Definition in_force (d : Dnsmasq) : list (list string * string * gmap string string) :=
  if revSet d then [(d_macs d, revision d, d_reservations d)] else [].

(** A sink's critical section: the new shared state is a configuration in force. *)
Definition sink (d : Dnsmasq) (s : sys) : sys := s <| dn := d |> <| pushed := pushed s ++ in_force d |>.

Section System.
Context (leaseMode : bool).

Definition sys_step (e : event_in) (s : sys) : option sys :=
  match e with
  | EvMACs l => Some (sink (SetAllowedMACs leaseMode l (dn s)) s)
  | EvReservations rev res => Some (sink (set_reservations rev res (dn s)) s)
  | EvQueue l => Some (s <| dn := requeueDirty (queue_releases l (dn s)) |>)
  | EvChildStart => Some (s <| dn := (dn s) <| child := true |> |>)
  | EvChildExit => Some (s <| dn := (dn s) <| child := false |> |>)
  | EvRead => Some (s <| last_read := Some (file s) |> <| inflight := S (inflight s) |>)
  | EvNote =>
    match inflight s with
    | O => None
    | S n => Some (s <| dn := noteHostsfileRead (dn s) |> <| inflight := n |>)
    end
  | EvLoop ok => hostsfileLoop ok s
  end.

(** The start: the initial hostsfile is written, nothing is confirmed. *)
Definition start (d : Dnsmasq) : sys :=
  let initial := RenderHostsfile (d_macs d) (d_reservations d) in
  mkSys d LIdle initial false None initial None 0 [] (in_force d) [].

(** No read line is under way when the loop takes its baseline. *)
Definition prompt (s : sys) (e : event_in) : bool :=
  match e, pc s with
  | EvLoop _, LConfirm true _ _ => confirmed s || Nat.eqb (inflight s) 0
  | _, _ => true
  end.

Inductive reachable (d : Dnsmasq) : sys -> Prop :=
| reach_start : reachable d (start d)
| reach_step s e s' : reachable d s -> prompt s e = true -> sys_step e s = Some s' -> reachable d s'.

(** *** What the loop knows *)

(** [content] renders a configuration that was in force with revision [r]. *)
Definition renders (s : sys) (content r : string) : Prop :=
  exists ms res, (ms, r, res) ∈ pushed s /\ content = RenderHostsfile ms res.

(** The revision a snapshot carries was in force with what [content] renders. *)
Definition carries (s : sys) (content r : string) (st : bool) : Prop :=
  st = true -> renders s content r.

Definition loop_inv (s : sys) : Prop :=
  match pc s with
  | LIdle | LDebounce | LDrained => True
  | LSnapped content _ r st => carries s content r st
  | LConfirm _ r st => carries s (lastWritten s) r st
  | LSignal b r st | LWait b r st =>
    carries s (lastWritten s) r st /\ (b < readSeq (dn s) + inflight s -> last_read s = Some (file s))
  | LReport r st => carries s (lastWritten s) r st /\ confirmed s = true
  end.

Definition inv (s : sys) : Prop :=
  file s = lastWritten s
  /\ (confirmed s = true -> last_read s = Some (file s))
  /\ (revSet (dn s) = true -> (d_macs (dn s), revision (dn s), d_reservations (dn s)) ∈ pushed s)
  /\ (forall r read, (r, read) ∈ applied s ->
       exists ms res, (ms, r, res) ∈ pushed s /\ read = Some (RenderHostsfile ms res))
  /\ loop_inv s.

Lemma inv_start d : inv (start d).
Proof.
  unfold inv, start. cbn. split_and!; [done|done| |set_solver|done].
  unfold in_force. intros ->. set_solver.
Qed.

Lemma carries_mono s s' content r st :
  (forall x, x ∈ pushed s -> x ∈ pushed s') -> carries s content r st -> carries s' content r st.
Proof. intros Hp H Hst. destruct (H Hst) as (ms & res & Hin & E). exists ms, res. auto. Qed.

Lemma inv_sink d s : inv s -> inv (sink d s <| dn := d <| readSeq := readSeq (dn s) |> |>).
Proof.
  intros (Hf & Hc & Hr & Ha & Hl). split_and!; [done|done| | |].
  - cbn. unfold in_force. intros ->. set_solver.
  - intros r read Hin. destruct (Ha r read Hin) as (ms & res & Hin' & E). exists ms, res. cbn. set_solver.
  - assert (Hm : forall c r st, carries s c r st -> carries (sink d s <| dn := d <| readSeq := readSeq (dn s) |> |>) c r st)
      by (intros c r st; apply carries_mono; cbn; set_solver).
    revert Hl. unfold loop_inv. cbn. destruct (pc s); cbn; naive_solver.
Qed.

Lemma inv_step s e s' : inv s -> prompt s e = true -> sys_step e s = Some s' -> inv s'.
Proof.
  intros Hi Hp. destruct e as [l|rev res|l| | | | |ok].
  1,2: intros [= <-];
    match goal with |- inv (sink ?d _) => pose proof (inv_sink d s Hi) as H end;
    destruct s as [[] ? ? ? ? ? ? ? ? ? ?]; destruct leaseMode; exact H.
  all: revert Hi; intros (Hf & Hc & Hr & Ha & Hl); destruct s as [d p lw cf la fl lr nf ap ps rl];
    cbn in *; subst lw; cbn -[Nat.ltb]; intros Hs.
  - injection Hs as <-. by split_and!.
  - injection Hs as <-. by split_and!.
  - injection Hs as <-. by split_and!.
  - injection Hs as <-. split_and!; try done. revert Hl. unfold loop_inv, carries. destruct p; cbn; naive_solver.
  - destruct nf as [|nf]; [done|]. injection Hs as <-. split_and!; try done.
    revert Hl. unfold loop_inv, carries. destruct p; cbn; try done; intros [? Hb]; (split; [done|]); intros; apply Hb; lia.
  - unfold hostsfileLoop in Hs. destruct p as [| | |content alive r st|alive r st|b r st|b r st|r st]; cbn -[Nat.ltb] in *.
    + destruct (dirty d); [|done]. injection Hs as <-. by split_and!.
    + injection Hs as <-. by split_and!.
    + injection Hs as <-. split_and!; try done. unfold loop_inv, carries, renders. cbn. eauto.
    + destruct (String.eqb_spec content fl) as [->|Hne].
      * injection Hs as <-. by split_and!.
      * destruct ok; injection Hs as <-; by split_and!.
    + destruct cf.
      * injection Hs as <-. by split_and!.
      * destruct alive; injection Hs as <-; [|by split_and!]. split_and!; try done.
        unfold loop_inv. cbn. split; [done|]. cbn in Hp. apply Nat.eqb_eq in Hp as ->. unfold currentReadSeq. lia.
    + destruct ok; injection Hs as <-; by split_and!.
    + destruct Hl as [Hcar Hb]. destruct (Nat.ltb_spec b (readSeq d)) as [Hlt|].
      * injection Hs as <-. split_and!; try done; cbn. intros _. apply Hb. lia.
      * destruct ok; [done|]. injection Hs as <-. by split_and!.
    + destruct Hl as [Hcar ->]. destruct st; cbn in Hs; [|injection Hs as <-; by split_and!].
      destruct (bool_decide _); cbn in Hs; injection Hs as <-; split_and!; try done. cbn.
      intros r' read' [Hin|[= -> ->]%list_elem_of_singleton]%elem_of_app; [eauto|].
      destruct (Hcar eq_refl) as (ms & res & Hin & E). cbn in *. exists ms, res. split; [done|].
      rewrite <- E. by apply Hc.
Qed.

Lemma reachable_inv d s : reachable d s -> inv s.
Proof. induction 1; eauto using inv_start, inv_step. Qed.
End System.

(** C25. A reported DHCP revision is loaded: in every interleaving of the two
    informers, the dnsmasq child, its log and the hostsfile loop in which no
    read line is still under way when the loop takes its baseline, the file
    dnsmasq had last read when a revision was reported as applied is the
    rendering of a configuration (allowed MACs and reservations together) that
    was in force with that revision. *)
Theorem applied_revision_is_loaded leaseMode d s
    (Hreach : reachable leaseMode d s) r read (Hin : (r, read) ∈ applied s) :
  exists ms res, (ms, r, res) ∈ pushed s /\ read = Some (RenderHostsfile ms res).
Proof. apply (reachable_inv _ _ _ Hreach). done. Qed.

(** *** A line that comes late

    dnsmasq's startup read is logged before the loop writes the new file, but
    its line is noted after the loop took its baseline: the loop takes it for
    the confirmation of a file dnsmasq has not read. *)
Definition fresh : Dnsmasq := mkDnsmasq [] ∅ "" false true [] false false 0.

Definition late_line : list event_in :=
  [EvRead; EvMACs ["52:54:00:00:00:01"]; EvReservations "r1" {["52:54:00:00:00:01" := "192.0.2.10"]}; EvQueue [];
   EvLoop true; EvLoop true; EvLoop true; EvLoop true; EvLoop true; EvLoop true; EvNote; EvLoop true; EvLoop true].

Fixpoint run_sys (leaseMode : bool) (es : list event_in) (s : sys) : option sys :=
  match es with
  | [] => Some s
  | e :: es => sys_step leaseMode e s ≫= run_sys leaseMode es
  end.

(** Without that timing the report can be early: there is an interleaving in
    which a revision is reported as applied while dnsmasq has only read the
    empty hostsfile it started with, because the line of its startup read was
    noted after the loop's baseline, and no configuration in force with that
    revision renders to the file it read. *)
Theorem late_read_line_reports_early :
  exists s, run_sys true late_line (start fresh) = Some s /\ applied s = [("r1", Some "")]
    /\ file s = RenderHostsfile ["52:54:00:00:00:01"] {["52:54:00:00:00:01" := "192.0.2.10"]}
    /\ ~ (exists ms res, (ms, "r1", res) ∈ pushed s /\ Some "" = Some (RenderHostsfile ms res)).
Proof.
  eexists. split; [vm_compute; reflexivity|]. split_and!; [reflexivity|vm_compute; reflexivity|].
  intros (ms & res & [= -> ->]%list_elem_of_singleton & E). by vm_compute in E.
Qed.

(** ** Releasing leases *)

(** The releases sent for [ms], given the lease file ([None]: no such file). *)
Definition releaseLeases (interface : string) (leaseFile : option string) (ms : list string) : list (string * string * string) :=
  if interface =s "" then [] else
  let leases := default ∅ (leases_of <$> leaseFile) in
  omap (fun mac => (fun ip => (interface, ip, mac)) <$> (leases !! mac : option string)) ms.

(** ** Restarting dnsmasq *)

Definition maxBackoff : Z := 30 * Second.
Definition maxFastExits : nat := 3.
Definition DefaultReloadTimeout : Z := 30 * Second.

Record supervisor := mkSupervisor { backoff : Z; fastExits : nat }.

(** After a child exited with [uptime]: the delay before the next start and the
    next state, or [None] when [Start] gives up. *)
Definition after_exit (initialBackoff fastExitWindow : Z) (s : supervisor) (uptime : Z) : option (Z * supervisor) :=
  let '(b, n) := if (uptime <? fastExitWindow)%Z then (backoff s, S (fastExits s)) else (initialBackoff, 0) in
  if maxFastExits <=? n then None
  else Some (b, mkSupervisor (Z.min (int64 (b * 2)) maxBackoff) n).

Fixpoint supervise (initialBackoff fastExitWindow : Z) (s : supervisor) (uptimes : list Z) : list Z * option supervisor :=
  match uptimes with
  | [] => ([], Some s)
  | u :: us =>
    match after_exit initialBackoff fastExitWindow s u with
    | None => ([], None)
    | Some (delay, s) => let '(ds, r) := supervise initialBackoff fastExitWindow s us in (delay :: ds, r)
    end
  end.

Section Restart.
Context (w : Z).

Definition fast (u : Z) : Prop := (u < w)%Z.

(** Three fast exits in a row. *)
Definition three_in_a_row (us : list Z) : Prop :=
  exists pre a b c post, us = pre ++ a :: b :: c :: post /\ fast a /\ fast b /\ fast c.

(** [us] starts with [n] fast exits. *)
Fixpoint starts_fast (n : nat) (us : list Z) : Prop :=
  match n, us with
  | O, _ => True
  | S n, u :: us => fast u /\ starts_fast n us
  | S _, [] => False
  end.

Lemma three_cons u us : three_in_a_row (u :: us) <-> starts_fast 3 (u :: us) \/ three_in_a_row us.
Proof.
  split.
  - intros (pre & a & b & c & post & E & Ha & Hb & Hc). destruct pre as [|x pre]; cbn in E; simplify_eq.
    + left. done.
    + right. by exists pre, a, b, c, post.
  - intros [H|(pre & a & b & c & post & -> & H)].
    + destruct us as [|b [|c post]]; cbn in H; try naive_solver.
      exists [], u, b, c, post. naive_solver.
    + exists (u :: pre), a, b, c, post. done.
Qed.

Lemma starts_fast_le n m us : n <= m -> starts_fast m us -> starts_fast n us.
Proof.
  revert m us. induction n as [|n IH]; intros m us Hle; [done|]. destruct m as [|m]; [lia|].
  destruct us as [|u us]; cbn; [done|]. intros [Hu H]. split; [done|]. apply (IH m); [lia|done].
Qed.

Lemma supervise_gives_up i s us :
  fastExits s < maxFastExits ->
  (supervise i w s us).2 = None <-> starts_fast (maxFastExits - fastExits s) us \/ three_in_a_row us.
Proof.
  revert s. induction us as [|u us IH]; intros [b n] Hn; cbn [fastExits] in *.
  { cbn [supervise snd]. split; [done|]. unfold maxFastExits in *. intros [H|(pre & ? & ? & ? & ? & E & _)].
    - destruct (3 - n) eqn:E; [lia|done].
    - by destruct pre. }
  cbn [supervise]. unfold after_exit. cbn [backoff fastExits]. rewrite three_cons.
  unfold maxFastExits in *. destruct (Z.ltb_spec u w) as [Hu|Hu].
  - destruct (Nat.leb_spec 3 (S n)) as [H3|H3].
    + split; [|done]. intros _. left. replace (3 - n) with 1 by lia. done.
    + specialize (IH (mkSupervisor (Z.min (int64 (b * 2)) maxBackoff) (S n))).
      destruct (supervise _ _ _ us) as [ds r]. cbn [snd fastExits] in *. rewrite IH by lia.
      replace (3 - n) with (S (3 - S n)) by lia. cbn [starts_fast]. split.
      * intros [H|H]; [left; done|right; right; done].
      * intros [[_ H]|[[_ H]|H]]; [left; done| |right; done]. left. apply (starts_fast_le _ 2); [lia|exact H].
  - specialize (IH (mkSupervisor (Z.min (int64 (i * 2)) maxBackoff) 0)). cbn [Nat.leb].
    destruct (supervise _ _ _ us) as [ds r]. cbn [snd fastExits] in *. rewrite IH by lia.
    replace (3 - n) with (S (2 - n)) by lia. replace (3 - 0) with 3 by lia. cbn [starts_fast].
    assert (Hnf : ~ fast u) by (unfold fast; lia). split.
    + intros [H|H]; right; right; [|done]. destruct us as [|x us]; [done|]. apply three_cons. left. done.
    + intros [[? _]|[[? _]|H]]; [done|done|right; done].
Qed.

Lemma supervise_delays i s us :
  (0 < i <= maxBackoff)%Z -> (i <= backoff s <= maxBackoff)%Z ->
  Forall (fun d => i <= d <= maxBackoff)%Z (supervise i w s us).1.
Proof.
  intros Hi. revert s. induction us as [|u us IH]; intros [b n] Hb; cbn [supervise backoff] in *; [constructor|].
  unfold after_exit. cbn [backoff fastExits].
  assert (Hd : forall x, (i <= x <= maxBackoff -> i <= Z.min (int64 (x * 2)) maxBackoff <= maxBackoff)%Z).
  { intros x Hx. rewrite int64_id by (unfold maxBackoff, Second, Millisecond in *; lia). lia. }
  destruct (u <? w)%Z; (destruct (_ <=? _); [constructor|]).
  - specialize (IH (mkSupervisor (Z.min (int64 (b * 2)) maxBackoff) (S n)) (Hd _ Hb)).
    destruct (supervise _ _ _ us). by constructor.
  - specialize (IH (mkSupervisor (Z.min (int64 (i * 2)) maxBackoff) 0) (Hd i ltac:(lia))).
    destruct (supervise _ _ _ us). constructor; [lia|done].
Qed.
End Restart.

(** The restart policy: from the start, [Start] gives dnsmasq up exactly when
    three exits in a row came within the fast-exit window, however the exits
    before them went, and every delay before a restart lies between the initial
    backoff and thirty seconds. *)
Theorem dnsmasq_restart_policy i w us (Hi : (0 < i <= maxBackoff)%Z) :
  ((supervise i w (mkSupervisor i 0) us).2 = None <-> three_in_a_row w us)
  /\ Forall (fun d => i <= d <= maxBackoff)%Z (supervise i w (mkSupervisor i 0) us).1.
Proof.
  split; [|apply supervise_delays; [done|cbn; lia]].
  rewrite supervise_gives_up by (cbn; unfold maxFastExits; lia). cbn [fastExits]. split; [|auto].
  intros [H|H]; [|done]. destruct us as [|u us]; [done|]. apply three_cons. by left.
Qed.

Lemma dnsmasq_restart_policy_witness :
  three_in_a_row (10 * Second) [Second; 60 * Second; Second; Second; Second]%Z.
Proof.
  refine (proj1 (proj1 (dnsmasq_restart_policy Second (10 * Second) _ _)) _); [|vm_compute; reflexivity].
  unfold maxBackoff, Second, Millisecond. lia.
Defined.

Definition prompt_line : list event_in :=
  [EvMACs ["52:54:00:00:00:01"]; EvReservations "r1" {["52:54:00:00:00:01" := "192.0.2.10"]}; EvQueue [];
   EvLoop true; EvLoop true; EvLoop true; EvLoop true; EvLoop true; EvLoop true; EvRead; EvNote; EvLoop true; EvLoop true].

Lemma run_reachable leaseMode d es s s' :
  reachable leaseMode d s ->
  (fix go es s := match es with
     | [] => Some s
     | e :: es => if prompt s e then sys_step leaseMode e s ≫= go es else None
     end) es s = Some s' -> reachable leaseMode d s'.
Proof.
  revert s. induction es as [|e es IH]; intros s Hr; [by intros [= <-]|].
  destruct (prompt s e) eqn:Ep; [|done]. destruct (sys_step leaseMode e s) as [s1|] eqn:Es; [|done]. cbn.
  apply IH. by eapply reach_step.
Qed.

Lemma applied_revision_is_loaded_witness :
  exists s, reachable true fresh s /\ applied s <> [] /\
    forall r read, (r, read) ∈ applied s ->
      exists ms res, (ms, r, res) ∈ pushed s /\ read = Some (RenderHostsfile ms res).
Proof.
  assert (Hs : exists s, run_sys true prompt_line (start fresh) = Some s /\ reachable true fresh s /\ applied s <> []).
  { eexists. split; [vm_compute; reflexivity|]. split; [|discriminate].
    eapply (run_reachable true fresh prompt_line (start fresh)); [constructor|]. vm_compute. reflexivity. }
  destruct Hs as (s & _ & Hr & Hne). exists s. split; [exact Hr|]. split; [exact Hne|].
  intros r read Hin. exact (applied_revision_is_loaded true fresh s Hr r read Hin).
Defined.

(** ** The reservation cache *)

Record SubnetDHCPCache := mkSubnetDHCPCache {
  SubnetName : string; SubnetNamespace : string; sc_synced : bool; sc_revision : string }.

#[export] Instance eta_SubnetDHCPCache : Eta SubnetDHCPCache := fun r =>
  mkSubnetDHCPCache (SubnetName r) (SubnetNamespace r) (sc_synced r) (sc_revision r).

(** The reservations of a lease-mode Subnet by normalized MAC; a later entry
    for the same MAC wins, one whose MAC is malformed is left out. *)
Definition addresses_of (rs : list DHCPReservation) : gmap string string :=
  fold_left (fun m r => match NormalizeMAC (rsv_MAC r) with Some mac => <[mac := rsv_Address r]> m | None => m end) rs ∅.

Definition snapshot_of (subnet : Subnet) : string * gmap string string :=
  match sub_DHCP (sub_Spec subnet), sub_DHCPStatus (sub_Status subnet) with
  | Some dhcp, Some st =>
    if dhcp_Mode dhcp =s SubnetDHCPModeLease then (Revision_ st, addresses_of (Reservations st)) else ("", ∅)
  | _, _ => ("", ∅)
  end.

(** [push]: the new cache and what the sink is given. *)
Definition push (subnet : Subnet) (sc : SubnetDHCPCache) : SubnetDHCPCache * (string * gmap string string) :=
  (sc <| sc_revision := (snapshot_of subnet).1 |>, snapshot_of subnet).

Inductive SubnetObj := OSubnet (s : Subnet) | OSubnetTombstone (s : option Subnet) | OOtherObject.

Definition onSubnetEvent (obj : SubnetObj) (sc : SubnetDHCPCache) : SubnetDHCPCache * option (string * gmap string string) :=
  match obj with
  | OSubnet s | OSubnetTombstone (Some s) =>
    if (Namespace s <>s SubnetNamespace sc) || (Name s <>s SubnetName sc) then (sc, None)
    else if negb (sc_synced sc) then (sc, None)
    else let '(sc, p) := push s sc in (sc, Some p)
  | _ => (sc, None)
  end.

Definition getAndPush (sc : SubnetDHCPCache) : go (SubnetDHCPCache * option (string * gmap string string)) :=
  r <- Get KSubnet (mkKey (SubnetNamespace sc) (SubnetName sc)) ;;
  match r with
  | inl subnet => let '(sc, p) := push subnet sc in Ret (sc, Some p)
  | inr _ => Ret (sc, None)
  end.

(** [subnet.Status.DHCP.AppliedRevision = revision], the status created when nil. *)
Definition with_applied (rev : string) (subnet : Subnet) : Subnet :=
  let dhcp := default (mkDHCPStatus [] "" "") (sub_DHCPStatus (sub_Status subnet)) in
  subnet <| sub_Status := (sub_Status subnet) <| sub_DHCPStatus := Some (dhcp <| AppliedRevision := rev |>) |> |>.

(** The object after the nil status was filled in: the base of the patch. *)
Definition with_dhcp_status (subnet : Subnet) : Subnet :=
  match sub_DHCPStatus (sub_Status subnet) with
  | Some _ => subnet
  | None => subnet <| sub_Status := (sub_Status subnet) <| sub_DHCPStatus := Some (mkDHCPStatus [] "" "") |> |>
  end.

Definition MarkApplied (sc : SubnetDHCPCache) (rev : string) : go unit :=
  if rev <>s sc_revision sc then Ret tt else
  r <- Get KSubnet (mkKey (SubnetNamespace sc) (SubnetName sc)) ;;
  match r with
  | inr _ => Ret tt
  | inl subnet =>
    let base := with_dhcp_status subnet in
    if AppliedRevision (default (mkDHCPStatus [] "" "") (sub_DHCPStatus (sub_Status base))) =s rev then Ret tt
    else StatusPatch KSubnet base (with_applied rev base) ;; Ret tt
  end.

(** [MarkApplied] acknowledges only the revision the cache pushed last, reads
    its own Subnet first, and writes at most once: a status patch of the object
    it read in which the applied revision, and nothing else of the table or the
    status, becomes that revision. *)
Theorem MarkApplied_acks_current sc rev tr (Hrun : runs (MarkApplied sc rev) tr tt) :
  tr = [] \/
  (rev = sc_revision sc /\ exists r tail,
     tr = ev (R := resp) (EGet KSubnet (mkKey (SubnetNamespace sc) (SubnetName sc))) r :: tail /\
     (tail = [] \/ exists subnet base ans, r = inl subnet /\ base = with_dhcp_status subnet
        /\ tail = [ev (R := resp) (EStatusPatch KSubnet base (with_applied rev base)) ans]
        /\ reservations (with_applied rev base) = reservations (subnet : Subnet)
        /\ sub_Spec (with_applied rev base) = sub_Spec (subnet : Subnet)
        /\ sub_Conditions (sub_Status (with_applied rev base)) = sub_Conditions (sub_Status (subnet : Subnet))
        /\ (AppliedRevision <$> sub_DHCPStatus (sub_Status (with_applied rev base))) = Some rev)).
Proof.
  unfold MarkApplied in Hrun. destruct (String.eqb_spec rev (sc_revision sc)) as [->|]; cbn [negb] in Hrun.
  2:{ destruct Hrun as [-> _]. by left. }
  right. split; [done|]. destruct Hrun as (r & tail & -> & Hrun). exists r, tail. split; [done|]. cbn [bind] in Hrun.
  destruct r as [subnet|e]; [|destruct Hrun as [-> _]; by left]. cbv zeta in Hrun.
  destruct (_ =s _); [destruct Hrun as [-> _]; by left|].
  destruct Hrun as (ans & tail' & -> & Hrun). destruct Hrun as [-> _]. right.
  exists subnet, (with_dhcp_status subnet), ans. split_and!; [done|done|done| | | |done];
    destruct subnet as [m sp [cs [dh|]]]; done.
Qed.

Lemma MarkApplied_acks_current_witness :
  exists tr, runs (MarkApplied (mkSubnetDHCPCache "net" "ns" true "r1") "r1") tr tt /\ length tr = 2 /\ tr <> [].
Proof.
  set (sc := mkSubnetDHCPCache "net" "ns" true "r1").
  set (s := mkSubnet (Demo.meta "net" ∅) (mkSubnetSpec (mkNameRef "" "site") "192.0.2.0/24" "192.0.2.2" None None ∅ None)
              (mkSubnetStatus [] None)).
  assert (H : exists tr, runs (MarkApplied sc "r1") tr tt /\ length tr = 2).
  { eexists. split; [|]. 1: eapply (exec_runs (Demo.handler (Demo.mkWorld None None None None None (Some s) [] []
      (outcome Complete))) _ tt tt tt); vm_compute; reflexivity. reflexivity. }
  destruct H as (tr & Hr & Hl). exists tr. split; [exact Hr|]. split; [exact Hl|].
  destruct (MarkApplied_acks_current sc "r1" tr Hr) as [->|_]; [discriminate Hl|]. intros ->. discriminate Hl.
Defined.
