(* ===== verification/AgentProgress.v ===== *)
(** * AgentProgress: the agent's reports onto a DeployRun

    [src/internal/agentserver/progress.go] and [abort.go].  A report is applied
    to the DeployRun's status; [client-go]'s [RetryOnConflict] with the default
    back-off is a loop of at most [attempts] tries that retries conflicts only
    and answers the last error.  *)

From S2P Require Import Prelude Api AgentApi Effects Cluster.
Local Open Scope string_scope.
Local Open Scope list_scope.
Local Open Scope nat_scope.

(** ** The code *)

(** [slices.IndexFunc], then the entry replaced in place, else appended. *)
Fixpoint upsert (entry : DeployRunPartitionProgress) (l : list DeployRunPartitionProgress)
  : list DeployRunPartitionProgress :=
  match l with
  | [] => [entry]
  | e :: l' => if (pp_Number e =? pp_Number entry)%Z then entry :: l' else e :: upsert entry l'
  end.

Definition progress_entry (p : ProgressPartition) : DeployRunPartitionProgress :=
  mkPartitionProgress (prog_Number p) (prog_Percent p) (prog_BytesDone p).

Definition applyPartitionProgress (run : DeployRun) (partitions : list ProgressPartition) : DeployRun :=
  with_run_status (fun s =>
    s <| Partitions := fold_left (fun l p => upsert (progress_entry p) l) partitions (Partitions s) |>) run.

(** The last entry closed at [ts] unless it is closed already. *)
Fixpoint close_last (ts : Z) (l : list DeployRunPhaseTiming) : list DeployRunPhaseTiming :=
  match l with
  | [] => []
  | [t] => [match pt_FinishedAt t with None => t <| pt_FinishedAt := Some ts |> | Some _ => t end]
  | t :: l' => t :: close_last ts l'
  end.

Definition closeCurrentPhaseTiming (run : DeployRun) (ts : Z) : DeployRun :=
  with_run_status (fun s => s <| PhaseTimings := close_last ts (PhaseTimings s) |>) run.

Definition enterPhase (run : DeployRun) (step : string) (ts : Z) : DeployRun :=
  if Phase (run_Status run) =s step then run else
  let run := closeCurrentPhaseTiming run ts in
  with_run_status (fun s => s <| Phase := step |>
    <| PhaseTimings := PhaseTimings s ++ [mkPhaseTiming step ts None] |>) run.

Definition progressMessage (msg fallback : string) : string := if msg <>s "" then msg else fallback.

Section Progress.
Context `{ApiMachinery}.

Definition setSucceededCondition (run : DeployRun) (status reason message : string) : DeployRun :=
  with_run_status (fun s => s <| run_Conditions := SetStatusCondition (run_Conditions s)
    (mkCondition DeployRunConditionSucceeded status (Generation run) reason message) |>) run.

(** [now] is [progressNow()]. *)
Definition applyProgressToDeployRun (run : DeployRun) (req : ProgressRequest) (now : Z) : DeployRun :=
  let ts := Timestamp req in
  let run := with_run_status (fun s => s <| LastProgressAt := Some now |>) run in
  let run := enterPhase run (Step req) ts in
  let run := applyPartitionProgress run (ReportPartitions req) in
  if ReportState req =s ProgressStateSucceeded then
    let run := closeCurrentPhaseTiming run ts in
    if Step req =s DeployRunPhaseSucceeded
    then setSucceededCondition run ConditionTrue "DeploySucceeded"
           (progressMessage (Message req) "deploy completed successfully")
    else run
  else if ReportState req =s ProgressStateFailed then
    let run := closeCurrentPhaseTiming run ts in
    let run := with_run_status (fun s => s <| Phase := DeployRunPhaseFailed |>) run in
    setSucceededCondition run ConditionFalse "DeployFailed" (progressMessage (Message req) "deploy failed")
  else run.

(** One try: get, check the UID, apply, update. *)
Definition progress_try (key : ObjectKey) (req : ProgressRequest) : go (option GoErr) :=
  r <- Get KRun key ;;
  match r with
  | inr err => Ret (Some err)
  | inl run =>
    if (RunUID req <>s "") && (UID (run : DeployRun) <>s RunUID req) then Ret None else
    now <- Now ;;
    r <- StatusUpdate KRun (applyProgressToDeployRun run req now) ;;
    match r with inr err => Ret (Some err) | inl _ => Ret None end
  end.

Fixpoint retry_on_conflict (attempts : nat) (fn : go (option GoErr)) : go (option GoErr) :=
  r <- fn ;;
  match attempts, r with
  | S attempts, Some err => if IsConflict err then retry_on_conflict attempts fn else Ret (Some err)
  | _, r => Ret r
  end.

(** [retries] is the number of tries after the first. *)
Definition persistProgress (retries : nat) (machine : Machine) (req : ProgressRequest) : go (option GoErr) :=
  r <- retry_on_conflict retries (progress_try (mkKey (Namespace machine) (RunName req)) req) ;;
  match r with
  | None => Ret None
  | Some err =>
    Ret (if IsNotFound err then None
         else Some (wrapf "persisting progress onto DeployRun %q: %w" [RunName req] err))
  end.

(** *** Aborting *)

(** The loop of [findMachineByName]. *)
Fixpoint find_only (name : string) (found : option Machine) (items : list Machine) : option Machine :=
  match items with
  | [] => found
  | m :: items =>
    if Name m <>s name then find_only name found items else
    match found with
    | Some _ => None
    | None => find_only name (Some m) items
    end
  end.

Definition findMachineByName (name : string) : go (option Machine + GoErr) :=
  r <- List_ KMachine "" ;;
  match r with
  | inr err => Ret (inr err)
  | inl items => Ret (inl (find_only name None items))
  end.

(** The decider [NewAbortDecider] builds; [runUID] is not looked at. *)
Definition NewAbortDecider (machineName runName runUID : string) : go bool :=
  r <- findMachineByName machineName ;;
  match r with
  | inr _ | inl None => Ret true
  | inl (Some machine) =>
    match CurrentRunRef (Status machine) with
    | None => Ret true
    | Some ref =>
      if nr_Name ref <>s runName then Ret true else
      let ns := if nr_Namespace ref =s "" then Namespace machine else nr_Namespace ref in
      r <- Get KRun (mkKey ns runName) ;;
      match r with
      | inr _ => Ret true
      | inl run =>
        match DeletionTimestamp (run : DeployRun) with
        | Some t => Ret (negb (t =? 0)%Z)
        | None => Ret false
        end
      end
    end
  end.
End Progress.

(** ** Phase timings

    [timed t l]: the entries follow one another in time, every entry but the
    last is closed, no entry starts or ends after [t]. *)
Inductive timed : Z -> list DeployRunPhaseTiming -> Prop :=
| timed_nil t : timed t []
| timed_last t e : (pt_StartedAt e <= t)%Z ->
    (forall f, pt_FinishedAt e = Some f -> pt_StartedAt e <= f <= t)%Z -> timed t [e]
| timed_cons t e e' l f : pt_FinishedAt e = Some f -> (pt_StartedAt e <= f)%Z ->
    (f <= pt_StartedAt e')%Z -> timed t (e' :: l) -> timed t (e :: e' :: l).

Lemma timed_close t ts l : (t <= ts)%Z -> timed t l -> timed ts (close_last ts l).
Proof.
  intros Hle Ht. induction Ht as [t|t e Hs Hf|t e e' l f Ef Hs Hn Ht IH]; cbn; [constructor| |].
  - destruct (pt_FinishedAt e) as [f|] eqn:Ef; constructor; cbn; try lia; intros f' E.
    + specialize (Hf f' (eq_trans (eq_sym Ef) E)). lia.
    + injection E as <-. lia.
  - specialize (IH Hle). destruct l as [|e2 l]; cbn in *; [|by econstructor].
    econstructor; [exact Ef|done| |exact IH]. by destruct (pt_FinishedAt e').
Qed.

(** Opening an entry after a closed list. *)
Lemma timed_open t ts l step :
  (t <= ts)%Z -> timed t l -> timed ts (close_last ts l ++ [mkPhaseTiming step ts None]).
Proof.
  intros Hle Ht. induction Ht as [t|t e Hs Hf|t e e' l f Ef Hs Hn Ht IH].
  - constructor; cbn; [lia|done].
  - cbn. destruct (pt_FinishedAt e) as [f|] eqn:Ef; (econstructor; [cbn; eauto| | |constructor]); cbn; try done; try lia.
    all: try specialize (Hf f eq_refl); lia.
  - specialize (IH Hle). destruct l as [|e2 l]; cbn in *; [|by econstructor].
    econstructor; [exact Ef|done| |exact IH]. by destruct (pt_FinishedAt e').
Qed.

Section Reports.
Context `{ApiMachinery}.

(** The reports of a session with the server's clock at each, in order. *)
Definition apply_reports (run : DeployRun) (reports : list (ProgressRequest * Z)) : DeployRun :=
  fold_left (fun run '(req, now) => applyProgressToDeployRun run req now) reports run.

Fixpoint in_order (t : Z) (reports : list (ProgressRequest * Z)) : Prop :=
  match reports with
  | [] => True
  | (req, _) :: reports => (t <= Timestamp req)%Z /\ in_order (Timestamp req) reports
  end.

Fixpoint last_time (t : Z) (reports : list (ProgressRequest * Z)) : Z :=
  match reports with [] => t | (req, _) :: reports => last_time (Timestamp req) reports end.

Lemma enterPhase_timed t run step ts :
  (t <= ts)%Z -> timed t (PhaseTimings (run_Status run)) ->
  timed ts (PhaseTimings (run_Status (enterPhase run step ts)))
  /\ Phase (run_Status (enterPhase run step ts)) = step.
Proof.
  intros Hle Ht. unfold enterPhase. destruct (String.eqb_spec (Phase (run_Status run)) step) as [E|E].
  - split; [|done]. clear E. induction Ht; [constructor| |by econstructor; eauto].
    constructor; [lia|]. intros f Hf. specialize (H1 f Hf). lia.
  - split; [|done]. by apply (timed_open t).
Qed.

Lemma apply_timed t run req now :
  (t <= Timestamp req)%Z -> timed t (PhaseTimings (run_Status run)) ->
  timed (Timestamp req) (PhaseTimings (run_Status (applyProgressToDeployRun run req now))).
Proof.
  intros Hle Ht. unfold applyProgressToDeployRun. cbv zeta.
  set (run' := with_run_status _ run).
  destruct (enterPhase_timed t run' (Step req) (Timestamp req) Hle Ht) as [He _].
  assert (Hc := timed_close _ (Timestamp req) _ (Z.le_refl _) He).
  repeat case_match; cbn; done.
Qed.
(** However many reports an agent sends for a run, as long as their
    timestamps do not go backwards, the run's phase timings stay a history:
    every phase but the last is closed, each phase ends no earlier than it
    starts and no later than the next one starts, and none is dated after the
    newest report. *)
Theorem phase_timings_are_a_history run reports t
    (Hrun : timed t (PhaseTimings (run_Status run)))
    (Hord : in_order t reports) :
  timed (last_time t reports) (PhaseTimings (run_Status (apply_reports run reports))).
Proof.
  revert run t Hrun Hord. unfold apply_reports.
  induction reports as [|[req now] reports IH]; intros run t Hrun Hord; [done|].
  destruct Hord as [Hle Hord]. cbn. apply IH; [|done]. by apply (apply_timed t).
Qed.

(** ** Partition progress *)

(** The last report for a partition number, if any. *)
Definition latest (n : Z) (reported : list ProgressPartition) : option ProgressPartition :=
  find_first (fun p => (prog_Number p =? n)%Z) (reverse reported).

Definition entry_of (n : Z) (l : list DeployRunPartitionProgress) : option DeployRunPartitionProgress :=
  find_first (fun e => (pp_Number e =? n)%Z) l.

Lemma upsert_entry_of entry l n :
  entry_of n (upsert entry l) = if (pp_Number entry =? n)%Z then Some entry else entry_of n l.
Proof.
  induction l as [|e l IH]; cbn.
  - done.
  - destruct (Z.eqb_spec (pp_Number e) (pp_Number entry)) as [E|E]; cbn.
    + rewrite E. by destruct (_ =? n)%Z.
    + unfold entry_of in IH. rewrite IH.
      destruct (Z.eqb_spec (pp_Number e) n) as [E1|], (Z.eqb_spec (pp_Number entry) n) as [E2|]; congruence.
Qed.

Lemma upsert_numbers entry l :
  (exists new, pp_Number <$> upsert entry l = (pp_Number <$> l) ++ new)
  /\ (NoDup (pp_Number <$> l) -> NoDup (pp_Number <$> upsert entry l))
  /\ (forall n, n ∈ pp_Number <$> upsert entry l -> n = pp_Number entry \/ n ∈ pp_Number <$> l).
Proof.
  induction l as [|e l ([new IH1] & IH2 & IH3)]; cbn.
  - split_and!; [by exists [pp_Number entry]|intros _; apply NoDup_singleton|set_solver].
  - destruct (Z.eqb_spec (pp_Number e) (pp_Number entry)) as [E|E]; cbn.
    + rewrite E. split_and!; [exists []; by rewrite app_nil_r|done|set_solver].
    + split_and!.
      * exists new. by rewrite IH1.
      * rewrite !NoDup_cons. intros [He Hl]. split; [|auto]. intros [?|?]%IH3; congruence.
      * set_solver.
Qed.

(** Partition progress is a table keyed by partition number that a report
    overwrites: after a report every partition shows the last value reported
    for it, or its earlier value when the report does not name it; rows are
    never reordered or dropped, only appended; and a number has one row. *)
Theorem applyPartitionProgress_spec run reported
    (rows := Partitions (run_Status run))
    (rows' := Partitions (run_Status (applyPartitionProgress run reported))) :
  (forall n, entry_of n rows' =
     match latest n reported with Some p => Some (progress_entry p) | None => entry_of n rows end)
  /\ (exists new, pp_Number <$> rows' = (pp_Number <$> rows) ++ new)
  /\ (NoDup (pp_Number <$> rows) -> NoDup (pp_Number <$> rows')).
Proof.
  unfold rows', rows, applyPartitionProgress. cbn. clear rows rows'.
  generalize (Partitions (run_Status run)) as rows. unfold latest.
  induction reported as [|p reported IH] using rev_ind; intros rows.
  - cbn. split_and!; [done|exists []; by rewrite app_nil_r|done].
  - rewrite fold_left_app, reverse_app. cbn [fold_left].
    destruct (IH rows) as (IH1 & [new IH2] & IH3).
    destruct (upsert_numbers (progress_entry p)
      (fold_left (fun l q => upsert (progress_entry q) l) reported rows)) as ([new' U1] & U2 & _).
    split_and!; [|exists (new ++ new'); by rewrite U1, IH2, app_assoc|auto].
    intros n. etrans; [apply upsert_entry_of|]. cbn [pp_Number progress_entry find_first app reverse rev_append].
    destruct (_ =? n)%Z; [done|apply IH1].
Qed.

(** ** Persisting a report *)

(** What the server knows: nothing yet, the run it read last, or that the
    report is settled. *)
Inductive persisting := Unread | Read (run : DeployRun) (now : option Z) | Settled.

Definition persist_read (k : kind) (req : ProgressRequest) : obj k + GoErr -> persisting :=
  match k return obj k + GoErr -> persisting with
  | KRun => fun r =>
    match r with
    | inl run => if (RunUID req <>s "") && (UID (run : DeployRun) <>s RunUID req) then Settled
                 else Read run None
    | inr err => if IsNotFound err then Settled else Unread
    end
  | _ => fun _ => Unread
  end.

Definition persist_step (req : ProgressRequest) (s : persisting) (e : eff) : resp e -> persisting :=
  match e return resp e -> persisting with
  | EGet k _ => persist_read k req
  | ENow => fun now => match s with Read run None => Read run (Some now) | _ => s end
  | EStatusUpdate k _ => fun r =>
    match r with inl _ => Settled | inr err => if IsNotFound err then Settled else Unread end
  | _ => fun _ => s
  end.

(** The one write: the status of the run just read, its UID the one reported,
    with the report applied. *)
Definition persist_allowed (machine : Machine) (req : ProgressRequest) (s : persisting) (e : eff) : Prop :=
  match e with
  | EGet k key => k = KRun /\ key = mkKey (Namespace machine) (RunName req)
  | EStatusUpdate KRun o => exists run now, s = Read run (Some now)
      /\ (RunUID req = "" \/ UID run = RunUID req)
      /\ o = applyProgressToDeployRun run req now
  | ENow => True
  | _ => False
  end.

Definition persist (machine : Machine) (req : ProgressRequest) : monitor resp persisting :=
  mkMonitor (persist_allowed machine req) (fun _ _ _ => True) (persist_step req).

Lemma progress_try_wp machine req s :
  wp (persist machine req) (progress_try (mkKey (Namespace machine) (RunName req)) req) s
    (fun r s' => match r with None => s' = Settled | Some err => IsNotFound err = true -> s' = Settled end).
Proof.
  unfold progress_try, Get, Now, StatusUpdate, call. cbn [bind]. split; [done|].
  intros [run|err] _; [|cbn; by intros ->].
  destruct ((RunUID req <>s "") && _) eqn:E; [by cbn; rewrite E|].
  cbn [bind]. split; [done|]. intros now _. cbn [bind]. split.
  - exists run, now. cbn. rewrite E. split_and!; [done| |done].
    destruct (String.eqb_spec (RunUID req) ""); [by left|right].
    apply andb_false_iff in E as [E|E]; [done|]. by apply negb_false_iff, String.eqb_eq in E.
  - intros [run'|err] _; cbn; [done|]. by intros ->.
Qed.

Lemma retry_wp machine req n s :
  wp (persist machine req)
    (retry_on_conflict n (progress_try (mkKey (Namespace machine) (RunName req)) req)) s
    (fun r s' => match r with None => s' = Settled | Some err => IsNotFound err = true -> s' = Settled end).
Proof.
  revert s. induction n as [|n IH]; intros s; cbn [retry_on_conflict];
    (eapply wp_seq; [apply progress_try_wp|]); [done|].
  intros [err|] s' Hs; [|done]. destruct (IsConflict err); [apply IH|done].
Qed.

(** Persisting a report is safe and loses nothing: whatever the API
    server answers and however often the update conflicts, the only write is a
    status update of the DeployRun just read, under the name the report gives
    and with the UID it gives (or none), equal to that run with the report
    applied; and the caller is told it went well only when the update was
    accepted, the run no longer exists, or another run has taken its name. *)
Theorem persistProgress_safe retries machine req tr res
    (Hrun : runs (persistProgress retries machine req) tr res) :
  obeys (persist machine req) Unread tr
  /\ (res = None -> final (persist machine req) Unread tr = Settled).
Proof.
  assert (W : wp (persist machine req) (persistProgress retries machine req) Unread
    (fun res s => res = None -> s = Settled)).
  { unfold persistProgress. eapply wp_seq; [apply retry_wp|].
    intros [err|] s' Hs; cbn; [|by intros _]. destruct (IsNotFound err); [auto|done]. }
  split; [by eapply wp_obeys|]. eapply (wp_final _ _ _ _ _ _ W Hrun).
  apply (assumes_forall _ (fun _ _ => True)); [done|]. by apply Forall_true.
Qed.
End Reports.

(** ** Aborting *)

Lemma find_only_spec name found items :
  find_only name found items =
  match option_list found ++ List.filter (fun m : Machine => Name m =s name) items with
  | [m] => Some m
  | _ => None
  end.
Proof.
  revert found. induction items as [|m items IH]; intros found; cbn.
  - by destruct found.
  - destruct (Name m =s name) eqn:E; cbn; [|apply IH].
    destruct found; [done|]. by rewrite IH.
Qed.

(** The run an event answers. *)
Definition read_run (x : event resp) : option DeployRun :=
  match x with existT (EGet KRun _) (inl run) => Some run | _ => None end.

(** An agent is told to go on only when its run is alive and current:
    exactly one Machine in the cluster has the reported name, its current run
    is the run reported, and that DeployRun could be read and is not being
    deleted.  In every other case, errors included, it is told to abort. *)
Theorem abort_unless_current machineName runName runUID tr abort
    (Hrun : runs (NewAbortDecider machineName runName runUID) tr abort) :
  abort = false <->
  exists (items : list Machine) (machine : Machine) (ref : NameRef) (run : DeployRun),
    tr = [ev (EList KMachine "") (inl items);
          ev (EGet KRun (mkKey (if nr_Namespace ref =s "" then Namespace machine else nr_Namespace ref)
                          runName)) (inl run)]
    /\ List.filter (fun m : Machine => Name m =s machineName) items = [machine]
    /\ CurrentRunRef (Status machine) = Some ref /\ nr_Name ref = runName
    /\ (DeletionTimestamp run = None \/ DeletionTimestamp run = Some 0%Z).
Proof.
  unfold NewAbortDecider, findMachineByName, List_, Get, call in Hrun. cbn [bind] in Hrun.
  destruct Hrun as ([items|err] & tr1 & -> & Hrun); cbn [bind] in Hrun.
  2: { destruct Hrun as [-> ->]. split; [done|]. intros (? & ? & ? & ? & ? & _). simplify_eq. }
  rewrite find_only_spec in Hrun. change (option_list None) with (@nil Machine) in Hrun.
  cbn [app] in Hrun.
  destruct (List.filter (fun m : Machine => Name m =s machineName) items) as [|machine [|]] eqn:Ef.
  1, 3: by destruct Hrun as [-> ->]; split; [|intros (? & ? & ? & ? & ? & _)].
  destruct (CurrentRunRef (Status machine)) as [ref|] eqn:Ec.
  2: by destruct Hrun as [-> ->]; split; [|intros (? & ? & ? & ? & ? & _)].
  destruct (String.eqb_spec (nr_Name ref) runName) as [En|En]; cbn [negb] in Hrun.
  2: by destruct Hrun as [-> ->]; split; [|intros (? & ? & ? & ? & ? & _)].
  cbn [bind] in Hrun. destruct Hrun as ([run|err] & tr2 & -> & Hrun).
  - assert (Hrun' : tr2 = [] /\ (abort = false <-> DeletionTimestamp run = None \/ DeletionTimestamp run = Some 0%Z)).
    { destruct (DeletionTimestamp run) as [d|]; destruct Hrun as [-> ->]; split; [done| |done|naive_solver].
      destruct (Z.eqb_spec d 0); naive_solver. }
    destruct Hrun' as [-> ->]. split.
    + intros Hd. exists items, machine, ref, run. done.
    + intros (items' & m & ref' & run' & E & _ & _ & _ & Hd).
      apply (f_equal (fun tr => read_run <$> tr !! 1)) in E. cbn in E. by simplify_eq.
  - destruct Hrun as [-> ->]. split; [done|].
    intros (items' & m & ref' & run' & E & _).
    by apply (f_equal (fun tr => read_run <$> tr !! 1)) in E.
Qed.

(** ** Witnesses *)

Definition report (step state : string) (at_ : Z) (parts : list ProgressPartition) : ProgressRequest :=
  mkProgressRequest "m1-abcde" "uid-1" step state "" None None parts at_.

Definition session : list (ProgressRequest * Z) :=
  [(report "Partitioning" "running" 10 [], 11%Z);
   (report "Partitioning" "succeeded" 20 [], 21%Z);
   (report "WritingContent" "running" 20 [mkProgressPartition 1 50 512], 22%Z);
   (report "WritingContent" "running" 40 [mkProgressPartition 1 100 1024; mkProgressPartition 2 10 9], 41%Z);
   (report "Succeeded" "succeeded" 60 [], 61%Z)].

Definition fresh_run : DeployRun :=
  mkRun (Demo.meta "m1-abcde" ∅ <| UID := "uid-1" |>)
    (mkRunSpec (mkNameRef "" "m1") None None None [] "") (mkRunStatus "" [] [] None []).

Section Witness.
Existing Instance SimpleMeta.ops.

Lemma phase_timings_are_a_history_witness :
  PhaseTimings (run_Status (apply_reports fresh_run session)) =
    [mkPhaseTiming "Partitioning" 10 (Some 20%Z); mkPhaseTiming "WritingContent" 20 (Some 60%Z);
     mkPhaseTiming "Succeeded" 60 (Some 60%Z)]
  /\ timed 60 (PhaseTimings (run_Status (apply_reports fresh_run session))).
Proof.
  split; [vm_compute; reflexivity|].
  apply (phase_timings_are_a_history fresh_run session 0); [constructor|].
  vm_compute. repeat split; discriminate.
Defined.

Definition progress_world : Demo.world :=
  Demo.mkWorld None None (Some fresh_run) None None None [] [] (outcome Complete).

Lemma persistProgress_safe_witness :
  exists run tr, exec (Demo.handler progress_world)
      (persistProgress 3 (Demo.machine ∅ (Demo.status "")) (report "Partitioning" "running" 10 [])) tt
    = Some (None, tt, tr ++ [ev (EStatusUpdate KRun run) (inl run : resp (EStatusUpdate KRun run))])
  /\ Phase (run_Status run) = "Partitioning"
  /\ obeys (persist (Demo.machine ∅ (Demo.status "")) (report "Partitioning" "running" 10 [])) Unread
       (tr ++ [ev (EStatusUpdate KRun run) (inl run : resp (EStatusUpdate KRun run))]).
Proof.
  eexists _, [_; _]. split; [vm_compute; reflexivity|]. split; [reflexivity|].
  eapply (persistProgress_safe 3).
  eapply (exec_runs (Demo.handler progress_world) _ tt None tt). vm_compute. reflexivity.
Defined.
End Witness.

Definition current_machine : Machine :=
  Demo.machine ∅ (Demo.status "provisioning" <| CurrentRunRef := Some (mkNameRef "" "m1-abcde") |>).

Definition abort_world : Demo.world :=
  Demo.mkWorld None None (Some fresh_run) None None None [] [current_machine] (outcome Complete).

Lemma abort_unless_current_witness :
  exists tr, exec (Demo.handler abort_world) (NewAbortDecider "m1" "m1-abcde" "uid-1") tt = Some (false, tt, tr)
  /\ exists items machine ref, List.filter (fun m : Machine => Name m =s "m1") items = [machine]
       /\ CurrentRunRef (Status machine) = Some ref /\ nr_Name ref = "m1-abcde".
Proof.
  eexists. split; [vm_compute; reflexivity|].
  edestruct (abort_unless_current "m1" "m1-abcde" "uid-1") as [Hcur _].
  - eapply (exec_runs (Demo.handler abort_world) _ tt false tt). vm_compute. reflexivity.
  - destruct (Hcur eq_refl) as (items & machine & ref & run & _ & Hf & Hc & Hn & _).
    exists items, machine, ref. auto.
Defined.
