(* ===== verification/AgentDeployer.v ===== *)
(** * AgentDeployer: the deployer behind the Machine reconciler

    [src/internal/deployer/agent.go], [dhcpreserve.go] and [claim_intent.go],
    with [bmc.CredentialsFromSecretData].  Each method
    takes the Machine the reconciler holds and gives it back as the method
    leaves it.  A time is its nanoseconds, the zero time 0.

    RFC 3339 text, the text of a duration and the JSON of the boot marker are
    the operations of [Encodings].  The [for] loops that retry on a conflict are followed for
    [rounds] rounds; [client-go]'s [RetryOnConflict] tries again [retries]
    times. *)

From S2P Require Import Prelude Text Api Effects Cluster SubnetDhcp Bootd Machine.
Local Open Scope string_scope.
Local Open Scope list_scope.
Local Open Scope nat_scope.

(** ** BMC credentials *)

(** [strings.TrimRight] with the cut set space, tab, carriage return, newline. *)
Definition blank (c : ascii) : bool :=
  existsb (Nat.eqb (nat_of_ascii c)) [32; 9; 13; 10].

Definition trim_right : string -> string := TrimRight blank.

Definition CredentialsFromSecretData (data : gmap string string) : string * string + GoErr :=
  let username := trim_right (default "" (data !! "username")) in
  let password := trim_right (default "" (data !! "password")) in
  if (username =s "") && (password =s "") then
    inr (errorf "bmc: secret data missing %q and %q keys" ["username"; "password"])
  else if username =s "" then inr (errorf "bmc: secret data missing %q key" ["username"])
  else if password =s "" then inr (errorf "bmc: secret data missing %q key" ["password"])
  else inl (username, password).

(** ** The boot marker *)

Record agentDeployerProvisionBootMarker := mkMarker { ArmedAt : Z; BaselineSessionHash : string }.

Class Encodings := {
  FormatRFC3339 : Z -> string;
  ParseRFC3339 : string -> option Z;
  ShowDuration : Z -> string;
  MarshalMarker : agentDeployerProvisionBootMarker -> string + GoErr;
  UnmarshalMarker : string -> option agentDeployerProvisionBootMarker }.

(** What is formatted parses, what is marshalled is read back. *)
Class EncodingsLaws `{Encodings} : Prop := {
  parse_format t : is_Some (ParseRFC3339 (FormatRFC3339 t));
  unmarshal_marshal m s : MarshalMarker m = inl s -> UnmarshalMarker s = Some m }.

(** *** A concrete instance

    A binary text for times, and the marker as its time followed by its hash. *)
Module SimpleEncodings.

Fixpoint pos_text (p : positive) (rest : string) : string :=
  match p with
  | xH => String "." rest
  | xO p => String "0" (pos_text p rest)
  | xI p => String "1" (pos_text p rest)
  end.

Fixpoint read_pos (s : string) : option (positive * string) :=
  match s with
  | String "." rest => Some (xH, rest)
  | String "0" s => '(p, rest) ← read_pos s; Some (xO p, rest)
  | String "1" s => '(p, rest) ← read_pos s; Some (xI p, rest)
  | _ => None
  end.

Definition time_text (t : Z) (rest : string) : string :=
  match t with
  | Z0 => String "z" rest
  | Zpos p => String "+" (pos_text p rest)
  | Zneg p => String "-" (pos_text p rest)
  end.

Definition read_time (s : string) : option (Z * string) :=
  match s with
  | String "z" rest => Some (0%Z, rest)
  | String "+" s => '(p, rest) ← read_pos s; Some (Zpos p, rest)
  | String "-" s => '(p, rest) ← read_pos s; Some (Zneg p, rest)
  | _ => None
  end.

Lemma read_pos_text p rest : read_pos (pos_text p rest) = Some (p, rest).
Proof. induction p as [p IH|p IH|]; cbn; [by rewrite IH|by rewrite IH|done]. Qed.

Lemma read_time_text t rest : read_time (time_text t rest) = Some (t, rest).
Proof. destruct t; cbn; [done|by rewrite read_pos_text..]. Qed.

#[export] Instance encodings : Encodings := {|
  FormatRFC3339 t := time_text t "";
  ParseRFC3339 s := fst <$> read_time s;
  ShowDuration n := time_text n "";
  MarshalMarker m := inl (time_text (ArmedAt m) (BaselineSessionHash m));
  UnmarshalMarker s := (fun '(t, h) => mkMarker t h) <$> read_time s |}.

#[export] Instance encodings_laws : EncodingsLaws.
Proof.
  split; cbn.
  - intros t. rewrite read_time_text. by eexists.
  - intros [t h] s [= <-]. by rewrite read_time_text.
Qed.
End SimpleEncodings.

Definition agentDeployerPXEArmedAnnotation : string := "kezio.kojuro.date/agent-pxe-armed-at".
Definition agentDeployerProvisionBootAnnotation : string :=
  "kezio.kojuro.date/agent-provision-boot-armed".
Definition agentDeployerProvisionStallDeadline : Z := 30 * Minute.
Definition DefaultTokenTTL : Z := 60 * Minute.
Definition dhcpAckRequeueInterval : Z := 2 * Second.

(** [Tokens] and [Recorder] say whether the pointer is set; the client and the
    plan builder are always. *)
Record AgentDeployer := mkAgentDeployer { Tokens : bool; TokenTTL : Z; Recorder : bool }.

Definition set_annotation (key value : string) (m : Machine) : Machine :=
  m <| machine_meta := (machine_meta m) <| Annotations := <[key := value]> (Annotations m) |> |>.

Definition delete_annotation (key : string) (m : Machine) : Machine :=
  m <| machine_meta := (machine_meta m) <| Annotations := base.delete key (Annotations m) |> |>.

Definition machineOwnerReference (machine : Machine) : OwnerReference :=
  mkOwnerReference "kezio.kojuro.date/v1alpha3" "Machine" (Name machine) (UID machine) true true.

Definition BootTokenSecretName (machineName : string) : string := String.append machineName "-boot-token".

(** ** Errors and results *)

Definition isNetworkUnreachable (err : GoErr) : bool := bool_decide (ekind err = KNetwork).

Definition classifyBMCError (err : GoErr) : Result :=
  if isNetworkUnreachable err then outcome Delayed
  else failed MachineErrorTypeTransient (emsg err).

Definition planBuildErrorResult (err : GoErr) : option Result :=
  match ekind err with
  | KNotReady => Some (outcome Delayed)
  | KDiskSelection | KValidation => Some (failed MachineErrorTypeTransient (emsg err))
  | _ => None
  end.

Definition agentSessionFresh (machine : Machine) (baseline : string) : bool :=
  match AgentSession (Status machine) with
  | Some session => as_TokenHash session <>s baseline
  | None => false
  end.

(** A deployer step's [(Result, error)] with the Machine it leaves. *)
Abbreviation step_reply := (Machine * (Result + GoErr))%type.

Section Deployer.
Context `{ApiMachinery} `{Encodings} (digest : string -> string) (rounds retries : nat).
Context (d : AgentDeployer).

Definition pxeArmedAt (machine : Machine) : option Z :=
  Annotations machine !! agentDeployerPXEArmedAnnotation ≫= ParseRFC3339.

Definition provisionBootMarker (machine : Machine) : option agentDeployerProvisionBootMarker :=
  Annotations machine !! agentDeployerProvisionBootAnnotation ≫= UnmarshalMarker.

Definition connectBMC (machine : Machine) : go (option GoErr) :=
  let name := sr_Name (bmc_CredentialsSecretRef (BMC (Spec machine))) in
  r <- Get KSecret (mkKey (Namespace machine) name) ;;
  match r with
  | inr err => Ret (Some (wrapf "agent deployer: getting BMC credentials secret %q: %w" [name] err))
  | inl secret =>
    match CredentialsFromSecretData (secret_Data (secret : Secret)) with
    | inr err => Ret (Some (wrapf "agent deployer: resolving BMC credentials: %w" [] err))
    | inl (username, password) =>
      let insecure := match Annotations machine !! MachineAnnotationBMCInsecureSkipVerify with
                      | Some v => v =s "true" | None => false end in
      r <- BmcConnect (bmc_Address (BMC (Spec machine))) username password insecure ;;
      match r with
      | Some err => Ret (Some (wrapf "agent deployer: connecting to BMC: %w" [] err))
      | None => Ret None
      end
    end
  end.

(** *** Boot tokens *)

Definition tokenTTL (machine : Machine) : Z :=
  let ttl := if (TokenTTL d <=? 0)%Z then DefaultTokenTTL else TokenTTL d in
  match BootTimeout (Spec machine) with
  | Some timeout => Z.max ttl timeout
  | None => ttl
  end.

Definition bootTokenExpired (machine : Machine) : go bool :=
  if negb (Tokens d) then Ret false else
  match NetBoot (Status machine) with
  | None => Ret true
  | Some nb =>
    if (nb_ExpiresAt nb =? 0)%Z then Ret true else
    now <- Now ;;
    Ret (negb (now <? nb_ExpiresAt nb)%Z)
  end.

Definition writeBootTokenSecret (machine : Machine) (mac token : string) (expiresAt : Z) : go (option GoErr) :=
  let meta := mkObjectMeta (BootTokenSecretName (Name machine)) (Namespace machine) "" "" 0 0 None [] ∅ ∅
                [machineOwnerReference machine] in
  r <- CreateOrUpdate KSecret (mkSecret meta "Opaque"
         (<["token" := token]> (<["mac" := mac]> (<["expiresAt" := FormatRFC3339 expiresAt]> ∅)))) ;;
  match r with
  | Some err => Ret (Some (wrapf "agent deployer: persisting boot token secret for %q: %w" [Name machine] err))
  | None => Ret None
  end.

(** One try of the closure: [first] skips the re-read. *)
Definition status_try (first : bool) (key : ObjectKey) (desired : MachineStatus) (machine : Machine)
  : go (Machine * option GoErr) :=
  r <- (if first then Ret (inl machine) else
        r <- Get KMachine key ;;
        match r with
        | inr err => Ret (inr err)
        | inl m => Ret (inl (with_status (fun _ => desired) m))
        end) ;;
  match r with
  | inr err => Ret (machine, Some err)
  | inl machine =>
    r <- StatusUpdate KMachine machine ;;
    match r with
    | inr err => Ret (machine, Some err)
    | inl machine => Ret (machine, None)
    end
  end.

Fixpoint status_retry (n : nat) (first : bool) (key : ObjectKey) (desired : MachineStatus) (machine : Machine)
  : go (Machine * option GoErr) :=
  '(machine, r) <- status_try first key desired machine ;;
  match n, r with
  | S n, Some err =>
    if IsConflict err then status_retry n false key desired machine else Ret (machine, Some err)
  | _, _ => Ret (machine, r)
  end.

Definition updateMachineStatusRetryOnConflict (machine : Machine) : go (Machine * option GoErr) :=
  status_retry retries true (mkKey (Namespace machine) (Name machine)) (Status machine) machine.

Definition issueBootToken (machine : Machine) (forceFresh : bool) : go (Machine * option GoErr) :=
  if negb (Tokens d) then Ret (machine, None) else
  match NormalizeMAC (BootMACAddress (Spec machine)) with
  | None => Ret (machine, None)
  | Some mac =>
    reuse <- (if forceFresh then Ret false else
              match NetBoot (Status machine) with
              | Some nb => if nb_TokenHash nb <>s "" then
                             expired <- bootTokenExpired machine ;; Ret (negb expired)
                           else Ret false
              | None => Ret false
              end) ;;
    if (reuse : bool) then Ret (machine, None) else
    now <- Now ;;
    r <- TokenIssue mac now (tokenTTL machine) ;;
    match r with
    | inr err => Ret (machine, Some (wrapf "agent deployer: minting boot token: %w" [] err))
    | inl (token, status) =>
      r <- writeBootTokenSecret machine mac token (nb_ExpiresAt status) ;;
      match r with
      | Some err => Ret (machine, Some err)
      | None =>
        let machine := with_status (fun s => s <| NetBoot := Some status |>) machine in
        '(machine, r) <- updateMachineStatusRetryOnConflict machine ;;
        match r with
        | Some err => Ret (machine, Some (wrapf "agent deployer: persisting boot token hash: %w" [] err))
        | None => Ret (machine, None)
        end
      end
    end
  end.

(** *** Arming markers *)

(** [Client.Patch] of the Machine as mutated. *)
Definition patch_machine (base machine : Machine) (fmt : string) : go (Machine * option GoErr) :=
  r <- Patch KMachine base machine ;;
  match r with
  | inr err => Ret (machine, Some (wrapf fmt [] err))
  | inl machine => Ret (machine, None)
  end.

Definition armPXE (machine : Machine) : go (Machine * option GoErr) :=
  now <- Now ;;
  patch_machine machine (set_annotation agentDeployerPXEArmedAnnotation (FormatRFC3339 now) machine)
    "agent deployer: recording PXE-armed marker: %w".

Definition disarmPXE (machine : Machine) : go (Machine * option GoErr) :=
  match Annotations machine !! agentDeployerPXEArmedAnnotation with
  | None => Ret (machine, None)
  | Some _ =>
    patch_machine machine (delete_annotation agentDeployerPXEArmedAnnotation machine)
      "agent deployer: clearing PXE-armed marker: %w"
  end.

Definition armProvisionBoot (machine : Machine) : go (Machine * option GoErr) :=
  let baseline := match AgentSession (Status machine) with
                  | Some session => as_TokenHash session | None => "" end in
  now <- Now ;;
  match MarshalMarker (mkMarker now baseline) with
  | inr err => Ret (machine, Some (wrapf "agent deployer: encoding provision boot marker: %w" [] err))
  | inl data =>
    patch_machine machine (set_annotation agentDeployerProvisionBootAnnotation data machine)
      "agent deployer: recording provision-boot marker: %w"
  end.

Definition disarmProvisionBoot (machine : Machine) : go (Machine * option GoErr) :=
  match Annotations machine !! agentDeployerProvisionBootAnnotation with
  | None => Ret (machine, None)
  | Some _ =>
    patch_machine machine (delete_annotation agentDeployerProvisionBootAnnotation machine)
      "agent deployer: clearing provision-boot marker: %w"
  end.

(** *** DHCP reservations *)

Definition subnet_key (machine : Machine) : ObjectKey :=
  mkKey (ResolveNamespace (SubnetRef (Spec machine)) (Namespace machine)) (nr_Name (SubnetRef (Spec machine))).

Fixpoint reserve_loop (n : nat) (subnetKey : ObjectKey) (machineName mac : string) (current : Subnet)
  : go (Subnet * bool + GoErr) :=
  match n with
  | O => diverge
  | S n =>
    now <- Now ;;
    match Reserve digest current machineName mac now with
    | inr ErrPoolExhausted => Ret (inl (current, true))
    | inr (ErrRange msg) =>
      Ret (inr (errorf "agent deployer: reserving a DHCP address on Subnet %q: %w" [key_Name subnetKey; msg]))
    | inl (_, false, _) => Ret (inl (current, false))
    | inl (_, true, current) =>
      r <- StatusUpdate KSubnet current ;;
      match r with
      | inl current => Ret (inl (current, false))
      | inr err =>
        if IsConflict err then
          r <- Get KSubnet subnetKey ;;
          match r with
          | inr err => Ret (inr (wrapf "agent deployer: re-getting Subnet %q after a conflict: %w" [key_Name subnetKey] err))
          | inl current => reserve_loop n subnetKey machineName mac current
          end
        else Ret (inr (wrapf "agent deployer: persisting DHCP reservation on Subnet %q: %w" [key_Name subnetKey] err))
      end
    end
  end.

Definition reserveOnSubnet (subnetKey : ObjectKey) (machineName mac : string) : go (Subnet * bool + GoErr) :=
  r <- Get KSubnet subnetKey ;;
  match r with
  | inr err => Ret (inr (wrapf "agent deployer: getting Subnet %q for DHCP reservation: %w" [key_Name subnetKey] err))
  | inl current => reserve_loop rounds subnetKey machineName mac current
  end.

Definition with_exhausted (subnet : Subnet) : Subnet :=
  subnet <| sub_Status := (sub_Status subnet) <| sub_Conditions :=
    SetStatusCondition (sub_Conditions (sub_Status subnet))
      (mkCondition SubnetConditionDHCPPoolExhausted ConditionTrue (Generation subnet) "DHCPPoolExhausted"
        "the lease-mode DHCP address pool has no free address left for a new reservation") |> |>.

Fixpoint exhausted_loop (n : nat) (subnetKey : ObjectKey) : go (option GoErr) :=
  match n with
  | O => diverge
  | S n =>
    r <- Get KSubnet subnetKey ;;
    match r with
    | inr err => Ret (Some (wrapf "agent deployer: getting Subnet %q to record pool exhaustion: %w" [key_Name subnetKey] err))
    | inl subnet =>
      r <- StatusUpdate KSubnet (with_exhausted subnet) ;;
      match r with
      | inl _ => Ret None
      | inr err =>
        if IsConflict err then exhausted_loop n subnetKey
        else Ret (Some (wrapf "agent deployer: recording DHCP pool exhaustion on Subnet %q: %w" [key_Name subnetKey] err))
      end
    end
  end.

Definition recordDHCPPoolExhausted (subnetKey : ObjectKey) : go (option GoErr) := exhausted_loop rounds subnetKey.

Fixpoint release_loop (n : nat) (subnetKey : ObjectKey) (machineName : string) : go (option GoErr) :=
  match n with
  | O => diverge
  | S n =>
    r <- Get KSubnet subnetKey ;;
    match r with
    | inr err =>
      Ret (if IsNotFound err then None
           else Some (wrapf "agent deployer: getting Subnet %q to release a DHCP reservation: %w" [key_Name subnetKey] err))
    | inl subnet =>
      match Release digest subnet machineName with
      | (false, _) => Ret None
      | (true, subnet) =>
        r <- StatusUpdate KSubnet subnet ;;
        match r with
        | inl _ => Ret None
        | inr err =>
          if IsConflict err then release_loop n subnetKey machineName
          else Ret (Some (wrapf "agent deployer: releasing DHCP reservation on Subnet %q: %w" [key_Name subnetKey] err))
        end
      end
    end
  end.

Definition releaseDHCPReservation (machine : Machine) : go (option GoErr) :=
  release_loop rounds (subnet_key machine) (Name machine).

(** bootd has applied the newest table. *)
Definition acknowledged (subnet : Subnet) : bool :=
  match sub_DHCPStatus (sub_Status subnet) with
  | Some dhcp => (Revision_ dhcp =s "") || (AppliedRevision dhcp =s Revision_ dhcp)
  | None => true
  end.

Definition lease_mode (subnet : Subnet) : bool :=
  match sub_DHCP (sub_Spec subnet) with Some dhcp => dhcp_Mode dhcp =s SubnetDHCPModeLease | None => false end.

(** [None] is [proceed]; otherwise the result to return. *)
Definition reserveAndAwaitDHCP (machine : Machine) : go (option Result + GoErr) :=
  let subnetKey := subnet_key machine in
  r <- Get KSubnet subnetKey ;;
  match r with
  | inr err =>
    if IsNotFound err then Ret (inl (Some (outcome Delayed)))
    else Ret (inr (wrapf "agent deployer: getting Subnet %q for DHCP reservation: %w" [key_Name subnetKey] err))
  | inl subnet =>
    if negb (lease_mode subnet) then Ret (inl None) else
    match NormalizeMAC (BootMACAddress (Spec machine)) with
    | None => Ret (inl None)
    | Some mac =>
      r <- reserveOnSubnet subnetKey (Name machine) mac ;;
      match r with
      | inr err => Ret (inr err)
      | inl (_, true) =>
        r <- recordDHCPPoolExhausted subnetKey ;;
        match r with
        | Some err => Ret (inr err)
        | None =>
          (if Recorder d then
             Event (Name machine) EventTypeWarning "DHCPPoolExhausted"
               (sprintf "Subnet %q's lease-mode DHCP address pool has no free address to reserve for this machine's boot"
                  [key_Name subnetKey])
           else Ret tt) ;;
          Ret (inl (Some (outcome Delayed)))
        end
      | inl (subnet, false) =>
        if acknowledged subnet then Ret (inl None)
        else Ret (inl (Some (mkResult Busy dhcpAckRequeueInterval "" "")))
      end
    end
  end.

(** *** Power *)

(** [None] is [ok]. *)
Definition powerOnForNetBoot : go (option Result) :=
  r <- call (R := resp) (EBmc SetOneTimePXEBoot) ;;
  match (r : option GoErr) with
  | Some err => Ret (Some (classifyBMCError (wrapf "agent deployer: setting one-time PXE boot: %w" [] err)))
  | None =>
    r <- BmcPowerState ;;
    match r with
    | inr err => Ret (Some (classifyBMCError (wrapf "agent deployer: reading BMC power state: %w" [] err)))
    | inl state =>
      r <- (if state =s PowerStateOn then call (R := resp) (EBmc PowerCycle) : go (option GoErr)
            else call (R := resp) (EBmc PowerOn) : go (option GoErr)) ;;
      match r with
      | Some err => Ret (Some (classifyBMCError (wrapf "agent deployer: powering on machine for net boot: %w" [] err)))
      | None => Ret None
      end
    end
  end.

(** The body [armPXEAndPowerOn] and [armProvisionBootAndPowerOn] share, over
    the marker they write and clear. *)
Definition arm_and_power_on (arm disarm : Machine -> go (Machine * option GoErr))
    (machine : Machine) (forceFreshToken : bool) : go step_reply :=
  r <- connectBMC machine ;;
  match r with
  | Some err => Ret (machine, inl (classifyBMCError err))
  | None =>
    r <- reserveAndAwaitDHCP machine ;;
    match r with
    | inr err => Ret (machine, inr err)
    | inl (Some result) => Ret (machine, inl result)
    | inl None =>
      '(machine, r) <- issueBootToken machine forceFreshToken ;;
      match r with
      | Some err => Ret (machine, inr err)
      | None =>
        '(machine, r) <- arm machine ;;
        match r with
        | Some err => Ret (machine, inr err)
        | None =>
          r <- powerOnForNetBoot ;;
          match r with
          | Some result =>
            '(machine, r) <- disarm machine ;;
            match r with
            | Some err => Ret (machine, inr err)
            | None => Ret (machine, inl result)
            end
          | None => Ret (machine, inl (outcome Continuing))
          end
        end
      end
    end
  end.

Definition armPXEAndPowerOn := arm_and_power_on armPXE disarmPXE.
Definition armProvisionBootAndPowerOn := arm_and_power_on armProvisionBoot disarmProvisionBoot.

Definition registration_deadline (machine : Machine) : Result :=
  failed MachineErrorTypeRestart
    (sprintf "agent deployer: no agent registration before the boot token expired (%s)"
       [ShowDuration (tokenTTL machine)]).

(** The tail of both polls: give up once the token has expired. *)
Definition await_registration (machine : Machine) : go step_reply :=
  expired <- bootTokenExpired machine ;;
  Ret (machine, inl (if (expired : bool) then registration_deadline machine else outcome Continuing)).

Definition pollAgentRegistration (machine : Machine) : go step_reply :=
  if IsStatusConditionTrue (Conditions (Status machine)) MachineConditionAgentRegistered then
    r <- Get KHardware (mkKey (Namespace machine) (Name machine)) ;;
    match r with
    | inl _ =>
      '(machine, r) <- disarmPXE machine ;;
      match r with
      | Some err => Ret (machine, inr err)
      | None =>
        r <- releaseDHCPReservation machine ;;
        match r with
        | Some err => Ret (machine, inr err)
        | None => Ret (machine, inl (outcome Complete))
        end
      end
    | inr err =>
      if IsNotFound err then await_registration machine
      else Ret (machine, inr (wrapf "agent deployer: getting MachineHardware %q: %w" [Name machine] err))
    end
  else await_registration machine.

Definition Inspect (machine : Machine) (restartOnFailure : bool) : go step_reply :=
  match pxeArmedAt machine, restartOnFailure with
  | Some _, false => pollAgentRegistration machine
  | _, _ => armPXEAndPowerOn machine restartOnFailure
  end.

(** *** Provisioning *)

Definition commitProvisionPending (machine : Machine) (run : DeployRun) : go (Result + GoErr) :=
  r <- resolveClaimIntent machine ;;
  match r with
  | inr err => Ret (inr (wrapf "agent deployer: resolving MachineClaim for %q: %w" [Name machine] err))
  | inl claim =>
    r <- Build machine claim run ;;
    match r with
    | inr err =>
      match planBuildErrorResult err with
      | Some result => Ret (inl result)
      | None => Ret (inr (wrapf "agent deployer: resolving deploy plan for %q: %w" [Name run] err))
      end
    | inl _ =>
      now <- Now ;;
      let run := with_run_status (fun s => s <| Phase := DeployRunPhasePending |>
        <| PhaseTimings := PhaseTimings s ++ [mkPhaseTiming DeployRunPhasePending now None] |>
        <| LastProgressAt := Some now |>) run in
      r <- StatusUpdate KRun run ;;
      match r with
      | inr err => Ret (inr (wrapf "agent deployer: recording DeployRun %q pending: %w" [Name run] err))
      | inl _ => Ret (inl (outcome Continuing))
      end
    end
  end.

Definition pollAgentBoot (machine : Machine) (run : DeployRun) (marker : agentDeployerProvisionBootMarker)
  : go step_reply :=
  if agentSessionFresh machine (BaselineSessionHash marker) then
    r <- commitProvisionPending machine run ;;
    match r with
    | inr err => Ret (machine, inr err)
    | inl result =>
      if bool_decide (res_Outcome result = Continuing) then
        '(machine, r) <- disarmProvisionBoot machine ;;
        match r with
        | Some err => Ret (machine, inr err)
        | None => Ret (machine, inl result)
        end
      else Ret (machine, inl result)
    end
  else await_registration machine.

Definition startProvision (machine : Machine) (run : DeployRun) (restartOnFailure : bool) : go step_reply :=
  match provisionBootMarker machine, restartOnFailure with
  | Some marker, false => pollAgentBoot machine run marker
  | _, _ => armProvisionBootAndPowerOn machine restartOnFailure
  end.

Definition resetProvisionAttempt (run : DeployRun) : go (DeployRun + GoErr) :=
  r <- StatusUpdate KRun (with_run_status (fun _ => mkRunStatus "" [] [] None []) run) ;;
  match r with
  | inr err => Ret (inr (wrapf "agent deployer: resetting DeployRun %q for restart: %w" [Name run] err))
  | inl run => Ret (inl run)
  end.

Definition deployRunFailureMessage (run : DeployRun) : string :=
  let generic := sprintf "DeployRun %q failed" [Name run] in
  match FindStatusCondition (run_Conditions (run_Status run)) DeployRunConditionSucceeded with
  | Some cond => if cd_Message cond <>s "" then cd_Message cond else generic
  | None => generic
  end.

Definition last_progress (run : DeployRun) : option Z :=
  match LastProgressAt (run_Status run) with
  | Some t => Some t
  | None => pt_StartedAt <$> last (PhaseTimings (run_Status run))
  end.

Definition provisionStallResult (run : DeployRun) : go Result :=
  match last_progress run with
  | None => Ret (outcome Continuing)
  | Some t =>
    now <- Now ;;
    if (now - t <=? agentDeployerProvisionStallDeadline)%Z then Ret (outcome Continuing) else
    Ret (failed MachineErrorTypeRestart
      (sprintf "agent deployer: no deploy progress observed for %s with DeployRun %q in phase %s; treating the run as stalled"
         [ShowDuration agentDeployerProvisionStallDeadline; Name run; Phase (run_Status run)]))
  end.

Definition provisionResultFromPhase (machine : Machine) (run : DeployRun) : go step_reply :=
  if Phase (run_Status run) =s DeployRunPhaseSucceeded then
    r <- releaseDHCPReservation machine ;;
    match r with
    | Some err => Ret (machine, inr err)
    | None => Ret (machine, inl (outcome Complete))
    end
  else if Phase (run_Status run) =s DeployRunPhaseFailed then
    Ret (machine, inl (failed MachineErrorTypeRestart (deployRunFailureMessage run)))
  else
    result <- provisionStallResult run ;;
    Ret (machine, inl result).

Definition Provision (machine : Machine) (run : DeployRun) (restartOnFailure : bool) : go step_reply :=
  r <- (if restartOnFailure && (Phase (run_Status run) <>s "") then resetProvisionAttempt run else Ret (inl run)) ;;
  match r with
  | inr err => Ret (machine, inr err)
  | inl run =>
    if Phase (run_Status (run : DeployRun)) =s "" then startProvision machine run restartOnFailure
    else provisionResultFromPhase machine run
  end.

Definition Deprovision (machine : Machine) (restartOnFailure : bool) : go step_reply :=
  r <- releaseDHCPReservation machine ;;
  match r with
  | Some err => Ret (machine, inr err)
  | None => Ret (machine, inl (outcome Complete))
  end.

(** *** Power control *)

Definition bmc_error (machine : Machine) (fmt : string) (err : GoErr) : step_reply :=
  (machine, inl (classifyBMCError (wrapf fmt [] err))).

Definition AgentDeployer_PowerOff (machine : Machine) : go step_reply :=
  r <- connectBMC machine ;;
  match r with
  | Some err => Ret (machine, inl (classifyBMCError err))
  | None =>
    r <- call (R := resp) (EBmc PowerOff) ;;
    match (r : option GoErr) with
    | Some err => Ret (bmc_error machine "agent deployer: requesting graceful power-off: %w" err)
    | None =>
      r <- BmcPowerState ;;
      match r with
      | inr err => Ret (bmc_error machine "agent deployer: reading power state after graceful power-off: %w" err)
      | inl state =>
        if state =s PowerStateOn then
          r <- call (R := resp) (EBmc ForcePowerOff) ;;
          match (r : option GoErr) with
          | Some err => Ret (bmc_error machine "agent deployer: forcing power off: %w" err)
          | None => Ret (machine, inl (outcome Complete))
          end
        else Ret (machine, inl (outcome Complete))
      end
    end
  end.

Definition Reboot (machine : Machine) (hard : bool) : go step_reply :=
  r <- connectBMC machine ;;
  match r with
  | Some err => Ret (machine, inl (classifyBMCError err))
  | None =>
    if hard then
      r <- call (R := resp) (EBmc PowerCycle) ;;
      match (r : option GoErr) with
      | Some err => Ret (bmc_error machine "agent deployer: power-cycling for a hard reboot: %w" err)
      | None => Ret (machine, inl (outcome Complete))
      end
    else
      r <- call (R := resp) (EBmc PowerOff) ;;
      match (r : option GoErr) with
      | Some err => Ret (bmc_error machine "agent deployer: requesting graceful shutdown for a soft reboot: %w" err)
      | None =>
        r <- call (R := resp) (EBmc PowerOn) ;;
        match (r : option GoErr) with
        | Some err => Ret (bmc_error machine "agent deployer: powering back on for a soft reboot: %w" err)
        | None => Ret (machine, inl (outcome Complete))
        end
      end
  end.

(** ** The deployer under the reconciler *)

(** What the [Deployer] interface of [deployer.go] dispatches to. *)
Definition dispatch (c : deployer_call) : go step_reply :=
  match c with
  | DInspect machine restartOnFailure => Inspect machine restartOnFailure
  | DProvision machine run restartOnFailure => Provision machine run restartOnFailure
  | DDeprovision machine restartOnFailure => Deprovision machine restartOnFailure
  | DPowerOff machine => AgentDeployer_PowerOff machine
  | DReboot machine hard => Reboot machine hard
  end.

(** Answers the reconciler's deployer calls with this deployer and passes
    every other call on. *)
Definition agent_handler (e : eff) : go (resp e) :=
  match e return go (resp e) with
  | EDeployer c => dispatch c
  | e => call (R := resp) e
  end.
End Deployer.
