(* ===== verification/AgentSafety.v ===== *)
(** * AgentSafety: what the agent deployer guarantees

    Theorems about every run of the steps of [AgentDeployer], and of the
    Machine reconciler with this deployer under it: a machine is net-booted
    only once everything the boot needs is stored, a boot that never got power
    leaves no marker behind, waiting is bounded, and a detached machine's BMC
    is left alone. *)

From S2P Require Import Prelude Api Effects Cluster SubnetDhcp Bootd Machine MachineSafety AgentDeployer.
Local Open Scope string_scope.
Local Open Scope list_scope.
Local Open Scope nat_scope.

(** ** The boot monitor *)

(** What has been stored and seen since the step began: the Subnet last read or
    written, whether the clock was read before the expiry of the token the
    Machine came with, the token minted, whether its Secret and its status
    landed, and whether the marker stands. *)
Record boot_view := mkBoot {
  bv_subnet : option Subnet;
  bv_live : bool;
  bv_minted : option (string * MachineNetBootStatus);
  bv_secret : bool;
  bv_stored : bool;
  bv_armed : bool }.

#[export] Instance eta_boot_view : Eta boot_view := fun r =>
  mkBoot (bv_subnet r) (bv_live r) (bv_minted r) (bv_secret r) (bv_stored r) (bv_armed r).

Definition boot_start : boot_view := mkBoot None false None false false false.

Definition has_marker (marker : string) (m : Machine) : bool :=
  bool_decide (is_Some (Annotations m !! marker)).

(** The Machine's stored token, its hash recorded, is good at [now]. *)
Definition token_live (m : Machine) (now : Z) : bool :=
  match NetBoot (Status m) with
  | Some nb => (nb_TokenHash nb <>s "") && (now <? nb_ExpiresAt nb)%Z
  | None => false
  end.

Definition seen_subnet (v : boot_view) (k : kind) : obj k + GoErr -> boot_view :=
  match k return obj k + GoErr -> boot_view with
  | KSubnet => fun r => match r with inl s => v <| bv_subnet := Some s |> | inr _ => v end
  | _ => fun _ => v
  end.

Definition status_stored (v : boot_view) (k : kind) : obj k + GoErr -> boot_view :=
  match k return obj k + GoErr -> boot_view with
  | KMachine => fun r => match r with inl _ => v <| bv_stored := true |> | inr _ => v end
  | k => seen_subnet v k
  end.

Definition marker_stored (marker : string) (v : boot_view) (k : kind) : obj k + GoErr -> boot_view :=
  match k return obj k + GoErr -> boot_view with
  | KMachine => fun r => match r with inl m => v <| bv_armed := has_marker marker m |> | inr _ => v end
  | _ => fun _ => v
  end.

Definition boot_step (m0 : Machine) (marker : string) (v : boot_view) (e : eff) : resp e -> boot_view :=
  match e return resp e -> boot_view with
  | ENow => fun now => v <| bv_live := bv_live v || token_live m0 now |>
  | EGet k _ => seen_subnet v k
  | EStatusUpdate k _ => status_stored v k
  | EPatch k _ _ => marker_stored marker v k
  | ECreateOrUpdate _ _ => fun r => match r with None => v <| bv_secret := true |> | Some _ => v end
  | ETokenIssue _ _ _ => fun r =>
    match r with
    | inl minted => mkBoot (bv_subnet v) (bv_live v) (Some minted) false false (bv_armed v)
    | inr _ => v
    end
  | _ => fun _ => v
  end.

(** The agent will be let in: its token was minted by this step and both its
    Secret and its hash are stored, or, unless the step starts the boot over,
    the Machine came with a token that a clock reading of this step found
    unexpired. *)
Definition token_in_force (restart : bool) (v : boot_view) : Prop :=
  (bv_minted v <> None /\ bv_secret v = true /\ bv_stored v = true)
  \/ (bv_minted v = None /\ restart = false /\ bv_live v = true).

(** The machine may be told to net-boot. *)
Definition may_boot (m0 : Machine) (tokens restart : bool) (v : boot_view) : Prop :=
  bv_armed v = true
  /\ (tokens = true -> NormalizeMAC (BootMACAddress (Spec m0)) <> None -> token_in_force restart v)
  /\ exists subnet, bv_subnet v = Some subnet /\
       (lease_mode subnet = false \/ NormalizeMAC (BootMACAddress (Spec m0)) = None
        \/ acknowledged subnet = true).

(** The Secret of a minted token: the Machine's own, with that token. *)
Definition secret_of (m0 : Machine) (v : boot_view) (k : kind) : obj k -> Prop :=
  match k return obj k -> Prop with
  | KSecret => fun s => Name s = BootTokenSecretName (Name m0) /\ Namespace s = Namespace m0
      /\ exists token nb, bv_minted v = Some (token, nb) /\ secret_Data s !! "token" = Some token
  | _ => fun _ => False
  end.

Definition boot_allowed (m0 : Machine) (tokens restart : bool) (v : boot_view) (e : eff) : Prop :=
  match e with
  | EBmc SetOneTimePXEBoot | EBmc PowerOn | EBmc PowerCycle => may_boot m0 tokens restart v
  | EBmc GetPowerState => True
  | EBmc _ => False
  | ETokenIssue mac _ _ => NormalizeMAC (BootMACAddress (Spec m0)) = Some mac
  | ECreateOrUpdate k o => secret_of m0 v k o
  | EStatusUpdate KMachine m => bv_secret v = true
      /\ exists token nb, bv_minted v = Some (token, nb) /\ NetBoot (Status m) = Some nb
  | _ => True
  end.

(** The server keeps the marker annotation as sent. *)
Definition keeps_marker (marker : string) (k : kind) : obj k -> obj k + GoErr -> Prop :=
  match k return obj k -> obj k + GoErr -> Prop with
  | KMachine => fun o r =>
    match r with inl m => Annotations m !! marker = Annotations o !! marker | inr _ => True end
  | _ => fun _ _ => True
  end.

Definition boot_assumed (marker : string) (e : eff) : resp e -> Prop :=
  match e return resp e -> Prop with
  | EPatch k _ o => keeps_marker marker k o
  | _ => fun _ => True
  end.

Definition boot (m0 : Machine) (tokens restart : bool) (marker : string) : monitor resp boot_view :=
  mkMonitor (boot_allowed m0 tokens restart) (fun _ => boot_assumed marker) (boot_step m0 marker).

Section Safety.
Context `{ApiMachinery} `{EncodingsLaws} (digest : string -> string) (rounds retries : nat).
Context (d : AgentDeployer).

Abbreviation boots m0 fresh marker p v Q := (wp (boot m0 (Tokens d) fresh marker) p v Q).

(** *** The parts of a step *)

(** Nothing but the clock was looked at. *)
Definition same_but_clock (v v' : boot_view) : Prop := v' = v <| bv_live := bv_live v' |>.

Lemma same_clock_refl v : same_but_clock v v.
Proof. by destruct v. Qed.

(** Nothing but the Subnet seen and the clock has changed. *)
Definition same_but_subnet (v v' : boot_view) : Prop :=
  bv_minted v' = bv_minted v /\ bv_secret v' = bv_secret v /\ bv_stored v' = bv_stored v
  /\ bv_armed v' = bv_armed v.

Definition gate_open (m0 : Machine) (v : boot_view) : Prop :=
  exists subnet, bv_subnet v = Some subnet /\
    (lease_mode subnet = false \/ NormalizeMAC (BootMACAddress (Spec m0)) = None \/ acknowledged subnet = true).

Lemma connectBMC_boots m0 fresh marker m v : boots m0 fresh marker (connectBMC m) v (fun _ v' => v' = v).
Proof. repeat wp_step; done. Qed.

Lemma same_refl v : same_but_subnet v v.
Proof. done. Qed.

Lemma same_seen v v' s : same_but_subnet v v' -> same_but_subnet v (v' <| bv_subnet := s |>).
Proof. done. Qed.

Lemma reserve_loop_boots m0 fresh marker n key name mac current v0 v :
  same_but_subnet v0 v -> bv_subnet v = Some current ->
  boots m0 fresh marker (reserve_loop digest n key name mac current) v
    (fun r v' => same_but_subnet v0 v' /\
       forall subnet b, r = inl (subnet, b) -> b = false -> bv_subnet v' = Some subnet).
Proof.
  revert current v. induction n as [|n IH]; intros current v Hs Hc; cbn [reserve_loop].
  - split; [done|]. intros [].
  - unfold Now, StatusUpdate, Get, call. cbn [bind]. split; [done|]. intros now _. cbn [bind].
    destruct (Reserve digest current name mac now) as [[[addr [|]] current']|[]] eqn:Hr; cbn [bind].
    2-4: split; [done|intros; by simplify_eq].
    split; [done|]. intros [current2|err] _; cbn [bind].
    + split; [by apply same_seen|]. intros; by simplify_eq.
    + destruct (IsConflict err); [|split; [done|intros; by simplify_eq]].
      cbn [bind]. split; [done|]. intros [current2|err'] _; cbn [bind].
      * apply IH; [by apply same_seen|done].
      * split; [done|intros; by simplify_eq].
Qed.

Lemma exhausted_loop_boots m0 fresh marker n key v0 v :
  same_but_subnet v0 v ->
  boots m0 fresh marker (exhausted_loop n key) v (fun _ v' => same_but_subnet v0 v').
Proof.
  revert v. induction n as [|n IH]; intros v Hs; cbn [exhausted_loop]; [by split|].
  unfold Get, StatusUpdate, call. cbn [bind]. split; [done|]. intros [s|err] _; [|done]. cbn [bind].
  split; [done|]. intros [s'|err] _; [by apply same_seen, same_seen|].
  destruct (IsConflict err); [apply IH|]; by apply same_seen.
Qed.

Lemma release_loop_boots m0 fresh marker n key name v0 v :
  same_but_subnet v0 v ->
  boots m0 fresh marker (release_loop digest n key name) v (fun _ v' => same_but_subnet v0 v').
Proof.
  revert v. induction n as [|n IH]; intros v Hs; cbn [release_loop]; [by split|].
  unfold Get, StatusUpdate, call. cbn [bind]. split; [done|]. intros [s|err] _; [|done].
  destruct (Release digest s name) as [[|] s']; [|by apply same_seen]. cbn [bind].
  split; [done|]. intros [s2|err] _; [by apply same_seen, same_seen|].
  destruct (IsConflict err); [apply IH|]; by apply same_seen.
Qed.

Lemma reserveAndAwaitDHCP_boots fresh marker m v :
  boots m fresh marker (reserveAndAwaitDHCP digest rounds d m) v
    (fun r v' => same_but_subnet v v' /\ (r = inl None -> gate_open m v')).
Proof.
  unfold reserveAndAwaitDHCP, Get, call. cbn [bind]. split; [done|].
  intros [subnet|err] _.
  2: { destruct (IsNotFound err); (split; [apply same_refl|done]). }
  destruct (lease_mode subnet) eqn:Hl; cbn [negb].
  2: { split; [apply same_seen, same_refl|]. intros _. exists subnet. auto. }
  destruct (NormalizeMAC (BootMACAddress (Spec m))) as [mac|] eqn:Hm.
  2: { split; [apply same_seen, same_refl|]. intros _. exists subnet. auto. }
  unfold reserveOnSubnet, Get, call. cbn [bind]. split; [done|].
  intros [s|err] _; cbn [bind]; [|split; [apply same_seen, same_refl|done]].
  eapply wp_seq; [apply (reserve_loop_boots _ _ _ _ _ _ _ _ v); [by apply same_seen, same_seen, same_refl|done]|].
  intros [[s' [|]]|err] v' [Hs Hsub].
  - eapply wp_seq; [by apply exhausted_loop_boots|]. intros [err|] v2 Hv2; [done|].
    apply wp_bind. destruct (Recorder d); [split; [done|]; intros ? _|]; done.
  - destruct (acknowledged s') eqn:Ha; (split; [done|]); [|done].
    intros _. exists s'. split; [by eapply Hsub|auto].
  - done.
Qed.

Lemma bootTokenExpired_boots m0 fresh marker m v :
  boots m0 fresh marker (bootTokenExpired d m) v (fun _ v' => same_but_clock v v').
Proof. repeat wp_step; by destruct v. Qed.

(** A token whose hash is stored is reused only when a look at the clock found
    it unexpired. *)
Lemma bootTokenExpired_live m0 fresh marker nb v :
  Tokens d = true -> NetBoot (Status m0) = Some nb -> (nb_TokenHash nb <>s "") = true ->
  boots m0 fresh marker (bootTokenExpired d m0) v
    (fun expired v' => same_but_clock v v' /\ (expired = false -> bv_live v' = true)).
Proof.
  intros Ht Hnb Hh. unfold bootTokenExpired. rewrite Ht, Hnb. cbn [negb].
  destruct (nb_ExpiresAt nb =? 0)%Z; [split; [apply same_clock_refl|done]|].
  unfold Now, call. cbn [bind]. split; [done|]. intros now _. split; [done|].
  intros Hlt%negb_false_iff. cbn. unfold token_live. rewrite Hnb, Hh, Hlt. apply orb_true_r.
Qed.

(** Storing the hash: every try sends the status that carries it. *)
Definition hash_stored (minted : string * MachineNetBootStatus) (v : boot_view) (r : option GoErr)
    (v' : boot_view) : Prop :=
  bv_minted v' = Some minted /\ bv_secret v' = true /\ bv_armed v' = bv_armed v
  /\ bv_subnet v' = bv_subnet v /\ (r = None -> bv_stored v' = true).

Lemma status_try_boots m0 fresh marker first key desired m minted v :
  bv_minted v = Some minted -> bv_secret v = true -> NetBoot desired = Some minted.2 -> Status m = desired ->
  boots m0 fresh marker (status_try first key desired m) v
    (fun x v' => hash_stored minted v x.2 v' /\ (x.2 <> None -> Status x.1 = desired)).
Proof.
  intros Hm Hsec Hnb Hst. unfold status_try. apply wp_bind.
  assert (Hup : forall o : Machine, Status o = desired ->
    boots m0 fresh marker (r <- StatusUpdate KMachine o ;;
      match r with inr err => Ret (o, Some err) | inl o => Ret (o, None) end) v
    (fun x v' => hash_stored minted v x.2 v' /\ (x.2 <> None -> Status x.1 = desired))).
  { intros o Ho. unfold StatusUpdate, call. cbn [bind]. split.
    - split; [done|]. destruct minted as [token nb]. exists token, nb. by rewrite Ho.
    - intros [o'|err] _; by split. }
  destruct first; [by apply Hup|]. unfold Get, call. cbn [bind]. split; [done|].
  intros [o|err] _; [by apply Hup|]. by split.
Qed.

Lemma status_retry_boots m0 fresh marker n first key desired m minted v :
  bv_minted v = Some minted -> bv_secret v = true -> NetBoot desired = Some minted.2 -> Status m = desired ->
  boots m0 fresh marker (status_retry n first key desired m) v (fun x v' => hash_stored minted v x.2 v').
Proof.
  revert first m v. induction n as [|n IH]; intros first m v Hm Hsec Hnb Hst; cbn [status_retry];
    (eapply wp_seq; [by apply (status_try_boots _ _ _ _ _ _ _ minted)|]); intros [o r] v' [Hh Hs]; [done|].
  destruct r as [err|]; [|done]. destruct (IsConflict err); [|done].
  destruct Hh as (G1 & G2 & G3 & G4 & _). eapply wp_mono; [apply IH; auto|].
  unfold hash_stored. intros x v2 (E1 & E2 & E3 & E4 & E5). by rewrite E3, E4.
Qed.

(** What minting leaves behind when it does not fail. *)
Definition token_ready (m : Machine) (restart : bool) (v v' : boot_view) : Prop :=
  bv_subnet v' = bv_subnet v
  /\ (Tokens d = true -> NormalizeMAC (BootMACAddress (Spec m)) <> None -> token_in_force restart v').

Lemma issueBootToken_boots fresh marker m v :
  bv_minted v = None ->
  boots m fresh marker (issueBootToken retries d m fresh) v
    (fun x v' => bv_armed v' = bv_armed v /\ (x.2 = None -> token_ready m fresh v v')).
Proof.
  intros Hm. unfold issueBootToken. destruct (Tokens d) eqn:Ht; cbn [negb].
  2: { split; [done|]. intros _. split; [done|congruence]. }
  destruct (NormalizeMAC (BootMACAddress (Spec m))) as [mac|] eqn:Hmac.
  2: { split; [done|]. intros _. split; [done|congruence]. }
  rewrite <- Ht.
  eapply (wp_seq _ _ _ _ (fun r v' => same_but_clock v v' /\ (r = true -> fresh = false /\ bv_live v' = true))).
  { pose proof (same_clock_refl v). destruct fresh; [done|].
    destruct (NetBoot (Status m)) as [nb|] eqn:Hnb; [|done]. destruct (nb_TokenHash nb <>s "") eqn:Hh; [|done].
    eapply wp_seq; [by apply (bootTokenExpired_live _ _ _ nb)|]. intros [|] v' [Hc Hl]; split; auto; done. }
  intros reuse v' [Hc Hf]. assert (Hm' : bv_minted v' = None) by (rewrite Hc; done).
  assert (Ha : bv_armed v' = bv_armed v) by (rewrite Hc; done).
  assert (Hs : bv_subnet v' = bv_subnet v) by (rewrite Hc; done).
  destruct reuse.
  { destruct (Hf eq_refl) as [-> Hl]. split; [done|]. intros _. split; [done|]. right. auto. }
  clear Hf Hc. unfold Now, TokenIssue, call. cbn [bind]. split; [done|]. intros now _. cbn [bind].
  split; [done|]. intros [[token nb]|err] _; [|by split].
  unfold writeBootTokenSecret, CreateOrUpdate, call. cbn [bind]. split.
  { split_and!; [done|done|]. exists token, nb. split; [done|]. cbn. by simplify_map_eq. }
  intros [err|] _; cbn [bind]; [by split|].
  eapply wp_seq; [by apply (status_retry_boots _ _ _ _ _ _ _ _ (token, nb))|].
  intros [m' r] v2 (G1 & G2 & G3 & G4 & G5). cbn in G3, G4. destruct r as [err|]; [split; [congruence|done]|].
  split; [congruence|]. intros _. split; [congruence|]. left. rewrite G1. split_and!; [done|done|by apply G5].
Qed.

(** Writing and clearing a marker. *)
Definition same_but_marker (v v' : boot_view) : Prop :=
  bv_subnet v' = bv_subnet v /\ bv_minted v' = bv_minted v /\ bv_secret v' = bv_secret v
  /\ bv_stored v' = bv_stored v /\ (bv_live v = true -> bv_live v' = true).

Lemma marker_refl v : same_but_marker v v.
Proof. done. Qed.

Lemma clock_marker v b v' : same_but_marker (v <| bv_live := bv_live v || b |>) v' -> same_but_marker v v'.
Proof. intros (?&?&?&?&Hl). split_and!; [done..|]. intros E. apply Hl. cbn. by rewrite E. Qed.

Definition arms (m0 : Machine) (fresh : bool) (marker : string) (arm : Machine -> go (Machine * option GoErr)) : Prop :=
  forall m v, boots m0 fresh marker (arm m) v (fun x v' =>
    same_but_marker v v' /\
    (x.2 = None -> bv_armed v' = true /\ has_marker marker x.1 = true)).

Definition disarms (m0 : Machine) (fresh : bool) (marker : string) (disarm : Machine -> go (Machine * option GoErr)) : Prop :=
  forall m v, (bv_armed v = true -> has_marker marker m = true) ->
  boots m0 fresh marker (disarm m) v (fun x v' => x.2 = None -> bv_armed v' = false).

Lemma patch_marker_boots m0 fresh marker base o fmt v :
  boots m0 fresh marker (patch_machine base o fmt) v (fun x v' =>
    same_but_marker v v' /\
    (x.2 = None -> bv_armed v' = has_marker marker o /\ has_marker marker x.1 = has_marker marker o)).
Proof.
  unfold patch_machine, Patch, call. cbn [bind]. split; [done|]. intros [m|err] Hr; [|done].
  split; [done|]. intros _. cbn in Hr |- *. unfold has_marker. by rewrite Hr.
Qed.

Lemma has_marker_set marker value m : has_marker marker (set_annotation marker value m) = true.
Proof. unfold has_marker, set_annotation. cbn. rewrite lookup_insert_eq. by apply bool_decide_true. Qed.

Lemma has_marker_delete marker m : has_marker marker (delete_annotation marker m) = false.
Proof.
  unfold has_marker, delete_annotation. cbn. rewrite lookup_delete_eq. apply bool_decide_false.
  by intros [? ?].
Qed.

Lemma armPXE_arms m0 fresh : arms m0 fresh agentDeployerPXEArmedAnnotation armPXE.
Proof.
  intros m v. unfold armPXE, Now, call. cbn [bind]. split; [done|]. intros now _.
  eapply wp_mono; [apply patch_marker_boots|]. intros x v' [Hv Hx]. rewrite has_marker_set in Hx.
  split; [by apply clock_marker in Hv|done].
Qed.

Lemma armProvisionBoot_arms m0 fresh : arms m0 fresh agentDeployerProvisionBootAnnotation armProvisionBoot.
Proof.
  intros m v. unfold armProvisionBoot, Now, call. cbn [bind]. split; [done|]. intros now _.
  destruct (MarshalMarker _); [|split; [by eapply clock_marker, marker_refl|done]].
  eapply wp_mono; [apply patch_marker_boots|]. intros x v' [Hv Hx]. rewrite has_marker_set in Hx.
  split; [by apply clock_marker in Hv|done].
Qed.

Lemma disarm_disarms m0 fresh marker fmt :
  disarms m0 fresh marker (fun m => match Annotations m !! marker with
    | None => Ret (m, None)
    | Some _ => patch_machine m (delete_annotation marker m) fmt
    end).
Proof.
  intros m v Hv. destruct (Annotations m !! marker) eqn:Ha.
  - eapply wp_mono; [apply patch_marker_boots|]. intros x v' [_ Hx] Hn.
    destruct (Hx Hn) as [-> _]. apply has_marker_delete.
  - cbn. intros _. destruct (bv_armed v); [|done]. specialize (Hv eq_refl).
    unfold has_marker in Hv. rewrite Ha in Hv. by apply bool_decide_eq_true in Hv as [? ?].
Qed.

Lemma disarmPXE_disarms m0 fresh : disarms m0 fresh agentDeployerPXEArmedAnnotation disarmPXE.
Proof. apply disarm_disarms. Qed.
Lemma disarmProvisionBoot_disarms m0 fresh : disarms m0 fresh agentDeployerProvisionBootAnnotation disarmProvisionBoot.
Proof. apply disarm_disarms. Qed.

Lemma powerOnForNetBoot_boots m0 fresh marker v :
  may_boot m0 (Tokens d) fresh v -> boots m0 fresh marker powerOnForNetBoot v (fun _ v' => v' = v).
Proof.
  intros Hv. unfold powerOnForNetBoot, BmcPowerState, call. cbn [bind]. split; [done|].
  intros [err|] _; [done|]. cbn [bind]. split; [done|]. intros [state|err] _; [|done].
  destruct (state =s PowerStateOn); cbn [bind]; (split; [done|]); intros [err|] _; done.
Qed.

(** The step's answer and the marker agree: only a step that goes on may leave
    the marker it wrote. *)
Definition marker_cleared (x : Machine * (Result + GoErr)) (v : boot_view) : Prop :=
  forall r, x.2 = inl r -> res_Outcome r <> Continuing -> bv_armed v = false.

Lemma token_kept restart v v' : same_but_marker v v' -> token_in_force restart v -> token_in_force restart v'.
Proof. intros (_ & Hm & Hse & Hst & Hl). unfold token_in_force. rewrite Hm, Hse, Hst. naive_solver. Qed.

Lemma arm_and_power_on_boots marker arm disarm m force :
  arms m force marker arm -> disarms m force marker disarm ->
  boots m force marker (arm_and_power_on digest rounds retries d arm disarm m force) boot_start marker_cleared.
Proof.
  intros Harm Hdis. unfold arm_and_power_on.
  eapply wp_seq; [apply connectBMC_boots|]. intros [err|] v ->; [by intros r _ _|].
  eapply wp_seq; [apply reserveAndAwaitDHCP_boots|]. intros r v [(Hm & Hse & Hst & Ha) Hg]. cbn in Hm, Hse, Hst, Ha.
  destruct r as [[result|]|err]; [by intros r _ _| |by intros r _ _].
  eapply wp_seq; [by apply issueBootToken_boots|]. intros [m2 [err|]] v2 [Ha2 Ht]; [by intros r ? _|].
  destruct (Ht eq_refl) as (Hsub & Htok).
  eapply wp_seq; [apply Harm|]. intros [m3 [err|]] v3 [Ev3 Hv3]; [by intros r ? _|].
  destruct (Hv3 eq_refl) as [Harmed Hmark]. cbn in Hmark.
  eapply wp_seq.
  { apply powerOnForNetBoot_boots. destruct (Hg eq_refl) as (subnet & Es & Hs). split_and!; [done| |].
    - intros Hd Hmac. eapply token_kept, Htok; done.
    - exists subnet. split; [|done]. destruct Ev3 as [-> _]. by rewrite Hsub. }
  intros [result|] v4 ->.
  - eapply wp_seq; [by apply Hdis|]. intros [m5 [err|]] v5 H5; [by intros r ? _|].
    intros r _ _. by apply H5.
  - intros r [= <-] Hr. done.
Qed.

Lemma await_registration_boots m0 fresh marker m v :
  boots m0 fresh marker (await_registration d m) v (fun _ v' => bv_armed v' = bv_armed v).
Proof. eapply wp_seq; [apply bootTokenExpired_boots|]. intros b v' ->. done. Qed.

Lemma releaseDHCPReservation_boots m0 fresh marker m v :
  boots m0 fresh marker (releaseDHCPReservation digest rounds m) v (fun _ v' => bv_armed v' = bv_armed v).
Proof.
  eapply wp_mono; [apply (release_loop_boots _ _ _ _ _ _ v), same_refl|]. by intros r v' (_ & _ & _ & ?).
Qed.

Lemma pollAgentRegistration_boots m0 fresh m v :
  bv_armed v = false ->
  boots m0 fresh agentDeployerPXEArmedAnnotation (pollAgentRegistration digest rounds d m) v marker_cleared.
Proof.
  intros Hv. unfold pollAgentRegistration.
  assert (Hw : boots m0 fresh agentDeployerPXEArmedAnnotation (await_registration d m) v marker_cleared).
  { eapply wp_mono; [apply await_registration_boots|]. intros x v' E r _ _. congruence. }
  destruct (IsStatusConditionTrue _ _); [|done]. unfold Get, call. cbn [bind]. split; [done|].
  intros [hw|err] _; [|destruct (IsNotFound err); [done|by intros r ?]].
  eapply wp_seq; [apply disarmPXE_disarms; cbn; by rewrite Hv|]. intros [m' [err|]] v' Hd; [by intros r ?|].
  eapply wp_seq; [apply releaseDHCPReservation_boots|]. intros [err|] v2 Hv2; [by intros r ?|].
  intros r _ _. rewrite Hv2. by apply Hd.
Qed.

Lemma commitProvisionPending_boots m0 fresh marker m run v :
  boots m0 fresh marker (commitProvisionPending m run) v (fun _ v' => bv_armed v' = bv_armed v).
Proof. repeat wp_step; done. Qed.

Lemma pollAgentBoot_boots m0 fresh m run mark v :
  bv_armed v = false ->
  boots m0 fresh agentDeployerProvisionBootAnnotation (pollAgentBoot d m run mark) v marker_cleared.
Proof.
  intros Hv. unfold pollAgentBoot. destruct (agentSessionFresh _ _).
  - eapply wp_seq; [apply commitProvisionPending_boots|]. intros [result|err] v' E; [|by intros r ?].
    destruct (bool_decide _); [|intros r _ _; congruence].
    eapply wp_seq; [apply disarmProvisionBoot_disarms; cbn; by rewrite E, Hv|].
    intros [m' [err|]] v2 Hd; [by intros r ?|]. intros r _ _. by apply Hd.
  - eapply wp_mono; [apply await_registration_boots|]. intros x v' E r _ _. congruence.
Qed.

Lemma provisionResultFromPhase_boots m0 fresh marker m run v :
  bv_armed v = false ->
  boots m0 fresh marker (provisionResultFromPhase digest rounds m run) v marker_cleared.
Proof.
  intros Hv. unfold provisionResultFromPhase. destruct (_ =s DeployRunPhaseSucceeded).
  - eapply wp_seq; [apply releaseDHCPReservation_boots|]. intros [err|] v' Hv'; [by intros r ?|].
    intros r _ _. congruence.
  - destruct (_ =s DeployRunPhaseFailed); [by intros r ? ?|].
    eapply (wp_seq _ _ _ _ (fun _ v' => bv_armed v' = bv_armed v)); [repeat wp_step; done|].
    intros result v' E r _ _. congruence.
Qed.

(** *** Steps that boot the machine *)

(** The marker a step writes before it boots the machine. *)
Definition boot_marker (c : deployer_call) : option string :=
  match c with
  | DInspect _ _ => Some agentDeployerPXEArmedAnnotation
  | DProvision _ _ _ => Some agentDeployerProvisionBootAnnotation
  | _ => None
  end.

(** Whether the step starts the boot over, with a token of its own. *)
Definition starts_over (c : deployer_call) : bool :=
  match c with DInspect _ restart | DProvision _ _ restart => restart | _ => false end.

Lemma dispatch_boots c marker :
  boot_marker c = Some marker ->
  boots (call_machine c) (starts_over c) marker (dispatch digest rounds retries d c) boot_start marker_cleared.
Proof.
  destruct c as [m restart|m run restart|m restart|m|m hard]; intros [= <-]; cbn [dispatch call_machine starts_over].
  - unfold Inspect. destruct (pxeArmedAt m), restart;
      [|by apply pollAgentRegistration_boots| |];
      (apply arm_and_power_on_boots; [apply armPXE_arms|apply disarmPXE_disarms]).
  - unfold Provision.
    eapply (wp_seq _ _ _ _ (fun _ v' => v' = boot_start)).
    { destruct (restart && (_ <>s _)); [|done]. unfold resetProvisionAttempt, StatusUpdate, call. cbn [bind].
      split; [done|]. by intros [run'|err] _. }
    intros [run'|err] v ->; [|by intros r ?].
    destruct (_ =s ""); [|by apply provisionResultFromPhase_boots].
    unfold startProvision. destruct (provisionBootMarker m), restart;
      [|by apply pollAgentBoot_boots| |];
      (apply arm_and_power_on_boots; [apply armProvisionBoot_arms|apply disarmProvisionBoot_disarms]).
Qed.

(** C3. A machine is told to net-boot only when that boot can be recovered,
    addressed and let in.  In every run of Inspect and Provision, whatever
    fails, the one-time PXE override and the power commands come after: the
    armed marker was stored on the Machine; the DHCP gate cleared (the Subnet
    last seen is not in lease mode, the machine has no MAC, or bootd applied
    the newest table); and, when boot tokens are on and the machine has a MAC,
    a token is in force: minted by this step for that MAC, with the Machine's
    token Secret holding it stored and then its hash, or, unless the step
    starts the boot over, the one the Machine's status already carried, found
    unexpired by a look at the clock in this step.  The hash is never written
    before the Secret.  And a step that answers anything but Continuing leaves
    no marker it wrote behind, so a boot that got no power is retried at once.
    The server is taken to keep the marker annotation as it was patched. *)
Theorem net_boot_is_gated c marker tr m' res
    (Hc : boot_marker c = Some marker)
    (Hrun : runs (dispatch digest rounds retries d c) tr (m', res))
    (Hsrv : Forall (fun x => boot_assumed marker (projT1 x) (projT2 x)) tr) :
  obeys (boot (call_machine c) (Tokens d) (starts_over c) marker) boot_start tr
  /\ (forall r, res = inl r -> res_Outcome r <> Continuing ->
        bv_armed (final (boot (call_machine c) (Tokens d) (starts_over c) marker) boot_start tr) = false).
Proof.
  pose proof (dispatch_boots c marker Hc) as W. split; [by eapply wp_obeys|].
  eapply (wp_final _ _ _ _ _ _ W Hrun). by apply (assumes_forall _ (boot_assumed marker)).
Qed.

(** *** Waiting is bounded *)

(** Waiting for an agent ends with the boot token: while the machine is
    armed and no fresh session exists, Provision looks at the clock at most
    once and fails with type Restart as soon as the token has expired, was
    never stored or has no expiry; it answers Continuing only before that. *)
Theorem boot_wait_ends_with_token machine run marker tr res
    (Hrun : runs (Provision digest rounds retries d machine run false) tr res)
    (Htok : Tokens d = true)
    (Hphase : Phase (run_Status run) = "")
    (Harmed : provisionBootMarker machine = Some marker)
    (Hfresh : agentSessionFresh machine (BaselineSessionHash marker) = false) :
  exists result, res = (machine, inl result) /\
    ((tr = [] /\ (forall nb, NetBoot (Status machine) = Some nb -> nb_ExpiresAt nb = 0%Z)
        /\ res_Outcome result = Failed /\ res_ErrorType result = MachineErrorTypeRestart)
     \/ exists now nb, tr = [ev ENow now] /\ NetBoot (Status machine) = Some nb /\
          if (now <? nb_ExpiresAt nb)%Z then result = outcome Continuing
          else res_Outcome result = Failed /\ res_ErrorType result = MachineErrorTypeRestart).
Proof.
  apply String.eqb_eq in Hphase. unfold Provision, startProvision, pollAgentBoot in Hrun.
  cbn [andb bind] in Hrun. rewrite Hphase, Harmed, Hfresh in Hrun.
  unfold await_registration, bootTokenExpired in Hrun. rewrite Htok in Hrun. cbn [negb] in Hrun.
  destruct (NetBoot (Status machine)) as [nb|] eqn:Hnb; cbn [bind] in Hrun.
  - destruct (Z.eqb_spec (nb_ExpiresAt nb) 0) as [E|E]; cbn [bind] in Hrun.
    + destruct Hrun as [-> ->]. eexists. split; [done|]. left. naive_solver.
    + unfold Now, call in Hrun. cbn [bind] in Hrun. destruct Hrun as (now & tr' & -> & [-> ->]).
      eexists. split; [done|]. right. exists now, nb. by destruct (now <? _)%Z.
  - destruct Hrun as [-> ->]. eexists. split; [done|]. left. done.
Qed.

(** *** Reservations end with the step *)

Definition no_row (name : string) (subnet : Subnet) : bool :=
  negb (existsb (fun r => rsv_Machine r =s name) (reservations subnet)).

Definition row_read (name : string) (b : bool) (k : kind) : obj k + GoErr -> bool :=
  match k return obj k + GoErr -> bool with
  | KSubnet => fun r => match r with inl s => no_row name s | inr err => IsNotFound err end
  | _ => fun _ => b
  end.

Definition row_written (name : string) (b : bool) (k : kind) : obj k -> obj k + GoErr -> bool :=
  match k return obj k -> obj k + GoErr -> bool with
  | KSubnet => fun o r => match r with inl _ => no_row name o | inr _ => false end
  | _ => fun _ _ => b
  end.

(** Whether the newest word on the Subnet, a read or a write it accepted, has
    no row for the machine or no Subnet at all; a patch keeps the name. *)
Definition keeps_name (k : kind) : obj k -> obj k + GoErr -> Prop :=
  match k return obj k -> obj k + GoErr -> Prop with
  | KMachine => fun o r => match r with inl m => Name (m : Machine) = Name o | inr _ => True end
  | _ => fun _ _ => True
  end.

Definition name_assumed (e : eff) : resp e -> Prop :=
  match e return resp e -> Prop with EPatch k _ o => keeps_name k o | _ => fun _ => True end.

Definition row_gone (name : string) : monitor resp bool :=
  mkMonitor (fun _ _ => True) (fun _ => name_assumed)
    (fun b e => match e return resp e -> bool with
                | EGet k _ => row_read name b k
                | EStatusUpdate k o => row_written name b k o
                | _ => fun _ => b
                end).

Lemma Release_false subnet name : (Release digest subnet name).1 = false -> no_row name subnet = true.
Proof.
  unfold Release, no_row, reservations. destruct (sub_DHCPStatus _) as [dhcp|]; [|done].
  by destruct (existsb _ _).
Qed.

Lemma Release_true subnet name :
  (Release digest subnet name).1 = true -> no_row name (Release digest subnet name).2 = true.
Proof.
  unfold Release, no_row. destruct (sub_DHCPStatus _) as [dhcp|] eqn:E; [|done].
  destruct (existsb _ _); [|done]. intros _. unfold set_table, reservations. cbn.
  apply negb_true_iff, not_true_iff_false. rewrite existsb_exists.
  intros (r & [_ Hr]%filter_In & Hr'). by rewrite Hr' in Hr.
Qed.

Lemma release_loop_gone n key name b :
  wp (row_gone name) (release_loop digest n key name) b (fun r b' => r = None -> b' = true).
Proof.
  revert b. induction n as [|n IH]; intros b; cbn [release_loop]; [by split|].
  unfold Get, StatusUpdate, call. cbn [bind]. split; [done|]. intros [s|err] _.
  - pose proof (Release_false s name) as Hf. pose proof (Release_true s name) as Ht.
    destruct (Release digest s name) as [[|] s']; cbn [fst snd] in *; [|intros _; by apply Hf].
    cbn [bind]. split; [done|]. intros [s2|err] _; [intros _; by apply Ht|].
    destruct (IsConflict err); [apply IH|done].
  - cbn. by destruct (IsNotFound err).
Qed.

(** The answer is not Complete, or the row is gone. *)
Definition complete_gone (x : Machine * (Result + GoErr)) (b : bool) : Prop :=
  forall r, x.2 = inl r -> res_Outcome r = Complete -> b = true.

Lemma row_gone_any {A} name (p : go A) b : wp (row_gone name) p b (fun _ _ => True).
Proof. apply (answers_wp _ _ _ (fun _ => True)); [done|]. apply answers_any. Qed.

Lemma release_then_complete name (m : Machine) b :
  Name m = name ->
  wp (row_gone name) (r <- releaseDHCPReservation digest rounds m ;;
    match r with Some err => Ret (m, inr err) | None => Ret (m, inl (outcome Complete)) end) b complete_gone.
Proof.
  intros <-. eapply wp_seq; [apply release_loop_gone|]. intros [err|] b' Hb; [by intros r ?|].
  intros r _ _. by apply Hb.
Qed.

(** Results that do not complete the step, and those that end it for now. *)
Definition unfinished (r : Result) : Prop := res_Outcome r <> Complete.
Definition stopped (r : Result) : Prop := res_Outcome r <> Complete /\ res_Outcome r <> Continuing.

Lemma classify_stopped err : stopped (classifyBMCError err).
Proof. unfold classifyBMCError. by destruct (isNetworkUnreachable err). Qed.

Lemma await_gone name m b : wp (row_gone name) (await_registration d m) b complete_gone.
Proof.
  eapply wp_seq; [apply row_gone_any|]. intros e b' _ r [= <-]. by destruct e.
Qed.

Lemma reserveAndAwaitDHCP_stopped m :
  answers (reserveAndAwaitDHCP digest rounds d m) (fun r => forall x, r = inl (Some x) -> stopped x).
Proof.
  unfold reserveAndAwaitDHCP, Get, call. cbn [bind]. split; [done|]. intros [s|err] _.
  2: { destruct (IsNotFound err); intros x Hx; by simplify_eq. }
  destruct (negb _); [by intros x ?|]. destruct (NormalizeMAC _); [|by intros x ?].
  eapply answers_bind; [apply answers_any|]. intros [[s' [|]]|err] _.
  - eapply answers_bind; [apply answers_any|]. intros [err|] _; [by intros x ?|].
    eapply answers_bind; [apply answers_any|]. intros _ _ x Hx. by simplify_eq.
  - destruct (acknowledged s'); intros x Hx; by simplify_eq.
  - by intros x ?.
Qed.

Lemma powerOnForNetBoot_stopped : answers powerOnForNetBoot (fun r => forall x, r = Some x -> stopped x).
Proof.
  unfold powerOnForNetBoot. eapply answers_bind; [apply answers_any|]. intros [err|] _.
  { intros x [= <-]. apply classify_stopped. }
  eapply answers_bind; [apply answers_any|]. intros [state|err] _.
  2: { intros x [= <-]. apply classify_stopped. }
  eapply answers_bind; [apply answers_any|]. intros [err|] _ x Hx; [|done].
  injection Hx as <-. apply classify_stopped.
Qed.

Lemma arm_and_power_on_gone name arm disarm m force b :
  wp (row_gone name) (arm_and_power_on digest rounds retries d arm disarm m force) b complete_gone.
Proof.
  unfold arm_and_power_on. eapply wp_seq; [apply row_gone_any|]. intros [err|] b1 _.
  { intros r [= <-] Hr. by destruct (classify_stopped err). }
  eapply wp_seq; [apply answers_wp, reserveAndAwaitDHCP_stopped; done|]. intros [[x|]|err] b2 Hx; [|clear Hx|by intros r ?].
  { intros r [= <-] Hr. by destruct (Hx x eq_refl). }
  eapply wp_seq; [apply row_gone_any|]. intros [m2 [err|]] b3 _; [by intros r ?|].
  eapply wp_seq; [apply row_gone_any|]. intros [m3 [err|]] b4 _; [by intros r ?|].
  eapply wp_seq; [apply answers_wp, powerOnForNetBoot_stopped; done|]. intros [x|] b5 Hx; [|by intros r [= <-] ?].
  eapply wp_seq; [apply row_gone_any|]. intros [m5 [err|]] b6 _; [by intros r ?|].
  intros r [= <-] Hr. by destruct (Hx x eq_refl).
Qed.

Lemma pollAgentRegistration_gone (m : Machine) b :
  wp (row_gone (Name m)) (pollAgentRegistration digest rounds d m) b complete_gone.
Proof.
  unfold pollAgentRegistration. destruct (IsStatusConditionTrue _ _); [|apply await_gone].
  unfold Get, call. cbn [bind]. split; [done|].
  intros [hw|err] _; [|destruct (IsNotFound err); [apply await_gone|by intros r ?]].
  eapply (wp_seq _ _ _ _ (fun (x : Machine * option GoErr) _ => x.2 = None -> Name x.1 = Name m)).
  { unfold disarmPXE, patch_machine, Patch, call. destruct (Annotations m !! _); [|done].
    cbn [bind]. split; [done|]. intros [m'|err] Hm; [by intros _|done]. }
  intros [m' [err|]] b' Hm; [by intros r ?|]. by apply release_then_complete, Hm.
Qed.

Lemma pollAgentBoot_gone name m run mark b :
  wp (row_gone name) (pollAgentBoot d m run mark) b complete_gone.
Proof.
  unfold pollAgentBoot. destruct (agentSessionFresh _ _); [|apply await_gone].
  apply (wp_seq _ _ _ _ (fun x _ => forall r, x = inl r -> unfinished r)).
  { unfold commitProvisionPending. eapply wp_seq; [apply row_gone_any|]. intros [claim|err] b1 _; [|by intros r ?].
    eapply wp_seq; [apply row_gone_any|]. intros [snap|err] b2 _.
    - eapply wp_seq; [apply row_gone_any|]. intros now b3 _. eapply wp_seq; [apply row_gone_any|].
      intros [run'|err] b4 _ r Hr; by simplify_eq.
    - destruct (planBuildErrorResult err) as [x|] eqn:E; [|by intros r ?]. intros r [= <-].
      unfold planBuildErrorResult in E. by destruct (ekind err); simplify_eq. }
  intros [x|err] b1 Hx; [|by intros r ?]. specialize (Hx x eq_refl).
  destruct (bool_decide _).
  - eapply wp_seq; [apply row_gone_any|]. intros [m' [err|]] b2 _; [by intros r ?|].
    intros r [= <-] Hr. done.
  - intros r [= <-] Hr. done.
Qed.

(** The steps that end a machine's need of an address. *)
Definition ends_lease (c : deployer_call) : bool :=
  match c with DInspect _ _ | DProvision _ _ _ | DDeprovision _ _ => true | _ => false end.

Lemma dispatch_gone c b :
  ends_lease c = true ->
  wp (row_gone (Name (call_machine c))) (dispatch digest rounds retries d c) b complete_gone.
Proof.
  destruct c as [m restart|m run restart|m restart|m|m hard]; intros Hc; try done; cbn [dispatch call_machine].
  - unfold Inspect. destruct (pxeArmedAt m), restart;
      [apply arm_and_power_on_gone|apply pollAgentRegistration_gone|apply arm_and_power_on_gone..].
  - unfold Provision. eapply wp_seq; [apply row_gone_any|]. intros [run'|err] b' _; [|by intros r ?].
    destruct (_ =s "").
    + unfold startProvision. destruct (provisionBootMarker m), restart;
        [apply arm_and_power_on_gone|apply pollAgentBoot_gone|apply arm_and_power_on_gone..].
    + unfold provisionResultFromPhase. destruct (_ =s DeployRunPhaseSucceeded); [by apply release_then_complete|].
      destruct (_ =s DeployRunPhaseFailed); [by intros r [= <-] ?|].
      apply (wp_seq _ _ _ _ (fun x _ => unfinished x)).
      { unfold provisionStallResult. destruct (last_progress run'); [|done].
        eapply wp_seq; [apply row_gone_any|]. intros now b2 _. by destruct (_ <=? _)%Z. }
      intros x b2 Hx r [= <-] ?. done.
  - by apply release_then_complete.
Qed.

(** A finished step holds no address: whenever Inspect, Provision or
    Deprovision answers Complete, the newest word on the machine's Subnet in
    that run, a read or an accepted write, has no reservation row for the
    machine, or there is no such Subnet. *)
Theorem complete_releases_address c tr m' r
    (Hc : ends_lease c = true)
    (Hrun : runs (dispatch digest rounds retries d c) tr (m', inl r))
    (Hsrv : Forall (fun x => name_assumed (projT1 x) (projT2 x)) tr)
    (Hr : res_Outcome r = Complete) :
  final (row_gone (Name (call_machine c))) false tr = true.
Proof.
  eapply (wp_final _ _ _ _ _ _ (dispatch_gone c false Hc) Hrun); [|done|done].
  by apply (assumes_forall _ name_assumed).
Qed.

(** *** A boot is commanded once *)

(** Watches nothing; the server keeps the marker as sent. *)
Definition kept (marker : string) : monitor resp unit :=
  mkMonitor (fun _ _ => True) (fun _ => boot_assumed marker) (fun _ _ _ => tt).

Lemma kept_any {A} marker (p : go A) s : wp (kept marker) p s (fun _ _ => True).
Proof. apply (answers_wp _ _ _ (fun _ => True)); [done|]. apply answers_any. Qed.

(** The marker of a Machine parses. *)
Definition armed (x : Machine * (Result + GoErr)) : Prop :=
  forall r, x.2 = inl r -> res_Outcome r = Continuing -> pxeArmedAt x.1 <> None.

Lemma armPXEAndPowerOn_armed m force s :
  wp (kept agentDeployerPXEArmedAnnotation) (armPXEAndPowerOn digest rounds retries d m force) s
    (fun x _ => armed x).
Proof.
  unfold armPXEAndPowerOn, arm_and_power_on. eapply wp_seq; [apply kept_any|]. intros [err|] s1 _.
  { intros r [= <-] Hr. by destruct (classify_stopped err). }
  eapply wp_seq; [apply answers_wp, reserveAndAwaitDHCP_stopped; done|].
  intros [[x|]|err] s2 Hx; [intros r [= <-] Hr; by destruct (Hx x eq_refl)|clear Hx|by intros r ?].
  eapply wp_seq; [apply kept_any|]. intros [m2 [err|]] s3 _; [by intros r ?|].
  eapply (wp_seq _ _ _ _ (fun (x : Machine * option GoErr) _ => x.2 = None -> pxeArmedAt x.1 <> None)).
  { unfold armPXE, patch_machine, Now, Patch, call. cbn [bind]. split; [done|]. intros now _. cbn [bind].
    split; [done|]. intros [m3|err] Hm; [|done]. intros _. unfold pxeArmedAt. cbn in Hm |- *. rewrite Hm.
    rewrite lookup_insert_eq. cbn. destruct (parse_format now) as [t Ht]. by rewrite Ht. }
  intros [m3 [err|]] s4 Hm; [by intros r ?|].
  eapply wp_seq; [apply answers_wp, powerOnForNetBoot_stopped; done|]. intros [x|] s5 Hx.
  - eapply wp_seq; [apply kept_any|]. intros [m5 [err|]] s6 _; [by intros r ?|].
    intros r [= <-] Hr. by destruct (Hx x eq_refl).
  - intros r _ _. by apply Hm.
Qed.

Lemma Inspect_armed m restart s :
  wp (kept agentDeployerPXEArmedAnnotation) (Inspect digest rounds retries d m restart) s (fun x _ => armed x).
Proof.
  unfold Inspect.
  assert (Hw : pxeArmedAt m <> None ->
    wp (kept agentDeployerPXEArmedAnnotation) (await_registration d m) s (fun x _ => armed x)).
  { intros Hm. eapply wp_seq; [apply kept_any|]. intros e s' _ r [= <-] _. done. }
  destruct (pxeArmedAt m) eqn:Hm, restart; try apply armPXEAndPowerOn_armed.
  specialize (Hw ltac:(done)). unfold pollAgentRegistration.
  destruct (IsStatusConditionTrue _ _); [|done]. unfold Get, call. cbn [bind]. split; [done|].
  destruct s. intros [hw|err] _; [|destruct (IsNotFound err); [done|by intros r ?]].
  eapply wp_seq; [apply kept_any|]. intros [m' [err|]] s1 _; [by intros r ?|].
  eapply wp_seq; [apply kept_any|]. intros [err|] s2 _; [by intros r ?|by intros r [= <-] ?].
Qed.

Definition is_bmc (e : eff) : bool := match e with EBmcConnect _ _ _ _ | EBmc _ => true | _ => false end.
Definition no_bmc (e : eff) : Prop := is_bmc e = false.

Lemma release_loop_no_bmc n key name : calls no_bmc (release_loop digest n key name).
Proof. induction n as [|n IH]; cbn [release_loop]; [by apply calls_vis|]. repeat calls_step; done. Qed.

Lemma poll_no_bmc m : calls no_bmc (pollAgentRegistration digest rounds d m).
Proof.
  repeat lazymatch goal with
  | |- calls _ (release_loop _ _ _ _) => apply release_loop_no_bmc
  | |- calls _ _ => calls_step
  end.
Qed.

(** A net boot is commanded once: after an Inspect that answers Continuing,
    the next Inspect of the Machine it left, without a restart, only waits: it
    opens no BMC connection and sends no power command. *)
Theorem boot_commanded_once machine restart tr m' tr2 res2
    (Hrun : runs (Inspect digest rounds retries d machine restart) tr (m', inl (outcome Continuing)))
    (Hsrv : Forall (fun x => boot_assumed agentDeployerPXEArmedAnnotation (projT1 x) (projT2 x)) tr)
    (Hnext : runs (Inspect digest rounds retries d m' false) tr2 res2) :
  Forall (fun x => no_bmc (projT1 x)) tr2.
Proof.
  assert (Ha : pxeArmedAt m' <> None).
  { eapply (wp_final _ _ _ _ _ _ (Inspect_armed machine restart tt) Hrun); [|done|done].
    by apply (assumes_forall _ (boot_assumed agentDeployerPXEArmedAnnotation)). }
  unfold Inspect in Hnext. destruct (pxeArmedAt m'); [|done].
  exact (calls_runs _ _ _ _ (poll_no_bmc m') Hnext).
Qed.

(** *** Under the reconciler *)

Definition quiet_call (e : eff) : Prop := no_bmc e /\ is_deployer_call e = false.

Lemma agent_handler_quiet e :
  quiet_call e -> calls no_bmc (agent_handler digest rounds retries d e).
Proof.
  intros [Hb Hd]. destruct e; try done; by apply calls_vis.
Qed.

Lemma detached_no_bmc hasBuilder json_reboot m :
  isDetached m = true -> calls quiet_call (reconcile_read hasBuilder json_reboot m).
Proof.
  intros Hd. unfold reconcile_read, onDelete, Machine.onChange, reconcileDeprovisioning,
    reconcilePoweringOff. rewrite Hd. repeat calls_step.
Qed.

(** Detaching takes a machine out of kezio's hands down to the hardware: in
    the reconciler with the agent deployer under it, no run of a reconcile of a
    detached Machine opens a connection to the BMC or sends it a command. *)
Theorem detached_bmc_untouched hasBuilder json_reboot key m tr res
    (Hrun : runs (link (agent_handler digest rounds retries d)
                    (Machine.Reconcile hasBuilder json_reboot key))
              (ev (EGet KMachine key) (inl m : resp (EGet KMachine key)) :: tr) res)
    (Hd : isDetached m = true) :
  Forall (fun x => no_bmc (projT1 x)) tr.
Proof.
  assert (Hr : runs (link (agent_handler digest rounds retries d) (reconcile_read hasBuilder json_reboot m)) tr res).
  { destruct Hrun as (r & tr' & Heq & Hr). pose proof (f_equal (@tl _) Heq) as Htl. cbn in Htl. subst tr'.
    apply (f_equal (fun l => hd_error l ≫= machine_answer)) in Heq. cbn in Heq. by injection Heq as <-. }
  eapply (calls_runs _ _ _ _ (calls_link _ _ _ _ (detached_no_bmc _ _ m Hd) agent_handler_quiet) Hr).
Qed.
End Safety.

(** ** Witnesses *)

#[local] Existing Instances SimpleMeta.ops SimpleMeta.laws.
#[local] Existing Instances SimpleEncodings.encodings SimpleEncodings.encodings_laws.

Definition the_deployer : AgentDeployer := mkAgentDeployer true 0 true.
Definition idle_machine : Machine := Demo.machine ∅ (Demo.status MachineStateInspecting).
Definition no_digest (s : string) : string := "digest".

(** A lease-mode Subnet with a table bootd has applied. *)
Definition boot_subnet (table : list DHCPReservation) : Subnet :=
  mkSubnet (Demo.meta "net" ∅)
    (mkSubnetSpec (mkNameRef "" "site") "10.0.0.0/24" "10.0.0.2" None None ∅
      (Some (mkSubnetDHCP SubnetDHCPModeLease "" "" None None)))
    (mkSubnetStatus [] (Some (mkDHCPStatus table "digest" "digest"))).

Definition boot_world (table : list DHCPReservation) : Demo.world :=
  Demo.mkWorld None None None None (Some Demo.secret) (Some (boot_subnet table)) [] [] (outcome Complete).

Abbreviation boots_with table c :=
  (exec (Demo.handler (boot_world table)) (dispatch no_digest 3 3 the_deployer c) tt).

Lemma net_boot_is_gated_witness :
  exists m' tr, boots_with [] (DInspect idle_machine false) = Some ((m', inl (outcome Continuing)), tt, tr)
    /\ length (List.filter (fun x => is_bmc (projT1 x)) tr) = 4
    /\ obeys (boot idle_machine true false agentDeployerPXEArmedAnnotation) boot_start tr.
Proof.
  eexists _, _. split; [vm_compute; reflexivity|]. split; [reflexivity|].
  eapply (net_boot_is_gated no_digest 3 3 the_deployer (DInspect idle_machine false)).
  - reflexivity.
  - eapply (exec_runs (Demo.handler (boot_world [])) _ tt _ tt). vm_compute. reflexivity.
  - repeat constructor.
Defined.

Lemma boot_commanded_once_witness :
  exists m' tr tr2 res2, boots_with [] (DInspect idle_machine false) = Some ((m', inl (outcome Continuing)), tt, tr)
    /\ boots_with [] (DInspect m' false) = Some (res2, tt, tr2)
    /\ Forall (fun x => no_bmc (projT1 x)) tr2.
Proof.
  eexists _, _, _, _. split; [vm_compute; reflexivity|]. split; [vm_compute; reflexivity|].
  eapply (boot_commanded_once no_digest 3 3 the_deployer idle_machine false).
  - eapply (exec_runs (Demo.handler (boot_world [])) _ tt _ tt). vm_compute. reflexivity.
  - repeat constructor.
  - eapply (exec_runs (Demo.handler (boot_world [])) _ tt _ tt). vm_compute. reflexivity.
Defined.

Definition silent_run : DeployRun :=
  mkRun (Demo.meta "m1-abcde" ∅) (mkRunSpec (mkNameRef "" "m1") None None None [] "")
    (mkRunStatus DeployRunPhasePartitioning [] [] (Some (- 31 * Minute)%Z) []).

Definition waiting_machine : Machine :=
  Demo.machine {[agentDeployerProvisionBootAnnotation := "+.hash0"]}
    (Demo.status MachineStateProvisioning <| NetBoot := Some (mkNetBoot "hash1" 500) |>
      <| AgentSession := Some (mkAgentSession "hash0" 2000) |>).

Definition new_demo_run : DeployRun := with_run_status (fun _ => mkRunStatus "" [] [] None []) silent_run.

Lemma boot_wait_ends_with_token_witness :
  exists tr r, boots_with [] (DProvision waiting_machine new_demo_run false) = Some ((waiting_machine, inl r), tt, tr)
    /\ exists result, (waiting_machine, inl r) = (waiting_machine, inl result : Result + GoErr)
         /\ res_Outcome result = Failed.
Proof.
  eexists _, _. split; [vm_compute; reflexivity|].
  edestruct (boot_wait_ends_with_token no_digest 3 3 the_deployer waiting_machine new_demo_run (mkMarker 1 "hash0"))
    as (result & Hres & _).
  - eapply (exec_runs (Demo.handler (boot_world [])) _ tt _ tt). vm_compute. reflexivity.
  - reflexivity.
  - reflexivity.
  - vm_compute. reflexivity.
  - reflexivity.
  - exists result. split; [exact Hres|]. injection Hres as <-. reflexivity.
Defined.

Definition reserved_row : list DHCPReservation := [mkReservation "10.0.0.1" "m1" "52:54:00:00:00:01" 0].

Lemma complete_releases_address_witness :
  exists tr, boots_with reserved_row (DDeprovision idle_machine false)
      = Some ((idle_machine, inl (outcome Complete)), tt, tr)
    /\ length tr = 2 /\ final (row_gone "m1") false tr = true.
Proof.
  eexists. split; [vm_compute; reflexivity|]. split; [reflexivity|].
  eapply (complete_releases_address no_digest 3 3 the_deployer (DDeprovision idle_machine false)).
  - reflexivity.
  - eapply (exec_runs (Demo.handler (boot_world reserved_row)) _ tt _ tt). vm_compute. reflexivity.
  - repeat constructor.
  - reflexivity.
Defined.

Definition detached_machine : Machine :=
  Demo.machine {[MachineAnnotationDetached := ""]} (Demo.status MachineStateProvisioned).

Definition detached_world : Demo.world :=
  Demo.mkWorld (Some detached_machine) None None None (Some Demo.secret) None [] [] (outcome Complete).

Lemma detached_bmc_untouched_witness :
  exists tr res, exec (Demo.handler detached_world)
      (link (agent_handler no_digest 3 3 the_deployer) (Machine.Reconcile true Demo.no_json Demo.key)) tt
    = Some (res, tt, ev (EGet KMachine Demo.key) (inl detached_machine : resp (EGet KMachine Demo.key)) :: tr)
    /\ 0 < length tr /\ Forall (fun x => no_bmc (projT1 x)) tr.
Proof.
  eexists _, _. split; [vm_compute; reflexivity|]. split; [vm_compute; repeat constructor|].
  eapply (detached_bmc_untouched no_digest 3 3 the_deployer true Demo.no_json Demo.key detached_machine).
  - eapply (exec_runs (Demo.handler detached_world) _ tt _ tt). vm_compute. reflexivity.
  - reflexivity.
Defined.
