(* ===== verification/AgentServer.v ===== *)
(** * AgentServer: the endpoints kezio-agent talks to

    [src/internal/agentserver/server.go], [session.go], [index.go] and
    [config.go]: registration with the boot token, the poll for a plan and the
    progress reports, each behind the schema-version check.  A request is its
    two headers and its decoded body ([None] for a body that does not decode);
    a response is what [writeJSON] is given.  Logging is left out.  The token
    hash ([hex] of [sha256]) is a parameter. *)

From S2P Require Import Prelude Text Api AgentApi Effects Cluster SubnetDhcp Machine AgentProgress AgentDeployer.
Local Open Scope string_scope.
Local Open Scope list_scope.
Local Open Scope nat_scope.

(** ** Requests and responses *)

Record Request (B : Type) := mkRequest { Authorization : string; SchemaHeader : string; Body : option B }.
Arguments mkRequest {B}.
Arguments Authorization {B}.
Arguments SchemaHeader {B}.
Arguments Body {B}.

Inductive Response :=
| Unauthorized
| BadRequest (message : string)
| InternalError
| RegisterOK (machineName sessionToken : string) (sessionTTLSeconds : Z)
| NextOK (action : string) (pollIntervalSeconds : Z) (plan : option DeployPlan)
| ProgressOK (action : string).

Definition AgentSchemaVersionHeader : string := "X-Kezio-Agent-Schema-Version".

Definition requireAgentSchemaVersion (header : string) (next : go Response) : go Response :=
  if (header =s "") || negb (bool_decide (Atoi header = Some AgentSchemaVersion))
  then Ret (BadRequest (String.append "missing or unsupported " AgentSchemaVersionHeader))
  else next.

Definition bearerToken (h : string) : option string :=
  if negb (HasPrefix h "Bearer ") then None else
  let token := String.substring 7 (String.length h - 7) h in
  if token =s "" then None else Some token.

(** ** Configuration *)

Definition DefaultSessionTTL : Z := 6 * 60 * Minute.
Definition DefaultPollInterval : Z := 15 * Second.

(** [Abort] is the configured decider; [PlanBuilder] says whether one is set. *)
Record Server := mkServer {
  cfg_SessionTTL : Z;
  cfg_PollInterval : Z;
  Abort : option (string -> string -> string -> go bool);
  PlanBuilder : bool }.

Definition sessionTTL (s : Server) : Z :=
  if (cfg_SessionTTL s <=? 0)%Z then DefaultSessionTTL else cfg_SessionTTL s.

Definition pollInterval (s : Server) : Z :=
  if (cfg_PollInterval s <=? 0)%Z then DefaultPollInterval else cfg_PollInterval s.

(** ** Indexes *)

Definition MachineTokenHashIndexField : string := ".status.netBoot.tokenHash".
Definition MachineSessionTokenHashIndexField : string := ".status.agentSession.tokenHash".

Definition IndexMachineTokenHash (machine : Machine) : list string :=
  match NetBoot (Status machine) with
  | Some nb => if nb_TokenHash nb =s "" then [] else [nb_TokenHash nb]
  | None => []
  end.

Definition IndexMachineSessionTokenHash (machine : Machine) : list string :=
  match AgentSession (Status machine) with
  | Some session => if as_TokenHash session =s "" then [] else [as_TokenHash session]
  | None => []
  end.

(** ** Sessions *)

Definition sessionTokenByteLength : Z := 32.

Definition newAgentSessionStatus (hash : string) (now ttl : Z) : MachineAgentSessionStatus :=
  mkAgentSession hash (now + ttl).

Definition deployRunExpectsAgent (phase : string) : bool :=
  existsb (String.eqb phase)
    [DeployRunPhasePending; DeployRunPhasePartitioning; DeployRunPhaseWritingContent;
     DeployRunPhaseRunningPostHook; DeployRunPhaseFinalizing].

Section Server.
Context `{ApiMachinery} (HashToken : string -> string) (retries : nat) (s : Server).

Definition mintSessionToken : go (string * string + GoErr) :=
  r <- RandRead sessionTokenByteLength ;;
  match r with
  | inr err => Ret (inr (wrapf "generating agent session token: %w" [] err))
  | inl buf => let token := EncodeToString buf in Ret (inl (token, HashToken token))
  end.

Definition ingestRegistration (machine : Machine) (sessionHash : string) (now ttl : Z) : Machine :=
  with_status (fun st =>
    st <| NetBoot := (fun nb => mkNetBoot "" (nb_ExpiresAt nb)) <$> NetBoot st |>
       <| AgentSession := Some (newAgentSessionStatus sessionHash now ttl) |>
       <| Conditions := SetStatusCondition (Conditions st)
            (mkCondition MachineConditionAgentRegistered ConditionTrue (Generation machine) "Registered"
               "kezio-agent registered and reported its hardware inventory") |>) machine.

(** A live credential: the expiry is after now. *)
Definition lookupMachineByToken (token : string) : go (option Machine + GoErr) :=
  r <- ListField KMachine MachineTokenHashIndexField (HashToken token) ;;
  match r with
  | inr err => Ret (inr err)
  | inl [machine] =>
    match NetBoot (Status machine) with
    | None => Ret (inl None)
    | Some nb => now <- Now ;; Ret (inl (if (now <? nb_ExpiresAt nb)%Z then Some (machine : Machine) else None))
    end
  | inl _ => Ret (inl None)
  end.

Definition lookupMachineBySession (token : string) : go (option Machine + GoErr) :=
  r <- ListField KMachine MachineSessionTokenHashIndexField (HashToken token) ;;
  match r with
  | inr err => Ret (inr err)
  | inl [machine] =>
    match AgentSession (Status machine) with
    | None => Ret (inl None)
    | Some session =>
      now <- Now ;; Ret (inl (if (now <? as_ExpiresAt session)%Z then Some (machine : Machine) else None))
    end
  | inl _ => Ret (inl None)
  end.

Definition ensureMachineHardware (machine : Machine) (hardware : MachineHardwareSpec) : go (option GoErr) :=
  r <- Get KHardware (mkKey (Namespace machine) (Name machine)) ;;
  match r with
  | inr err =>
    if IsNotFound err then
      r <- Create KHardware (mkHardware
             (mkObjectMeta (Name machine) (Namespace machine) "" "" 0 0 None [] ∅ ∅ [machineOwnerReference machine])
             hardware) ;;
      match r with inr err => Ret (Some err) | inl _ => Ret None end
    else Ret (Some (wrapf "getting MachineHardware %q: %w" [Name machine] err))
  | inl hw =>
    let hw : MachineHardware := hw in
    r <- Update KHardware (mkHardware
           ((hardware_meta hw) <| OwnerReferences := [machineOwnerReference machine] |>) hardware) ;;
    match r with inr err => Ret (Some err) | inl _ => Ret None end
  end.

(** One try of storing the registration. *)
Definition register_try (key : ObjectKey) (sessionHash : string) : go (option GoErr) :=
  r <- Get KMachine key ;;
  match r with
  | inr err => Ret (Some err)
  | inl current =>
    now <- Now ;;
    r <- StatusUpdate KMachine (ingestRegistration current sessionHash now (sessionTTL s)) ;;
    match r with inr err => Ret (Some err) | inl _ => Ret None end
  end.

Definition handleRegister (r : Request RegisterRequest) : go Response :=
  match bearerToken (Authorization r) with
  | None => Ret Unauthorized
  | Some token =>
    found <- lookupMachineByToken token ;;
    match found with
    | inr _ | inl None => Ret Unauthorized
    | inl (Some machine) =>
      match Body r with
      | None => Ret (BadRequest "malformed request body")
      | Some req =>
        err <- ensureMachineHardware machine (Hardware req) ;;
        match err with
        | Some _ => Ret InternalError
        | None =>
          minted <- mintSessionToken ;;
          match minted with
          | inr _ => Ret InternalError
          | inl (sessionToken, sessionHash) =>
            err <- retry_on_conflict retries
                     (register_try (mkKey (Namespace machine) (Name machine)) sessionHash) ;;
            match err with
            | Some _ => Ret InternalError
            | None => Ret (RegisterOK (Name machine) sessionToken (sessionTTL s ÷ Second)%Z)
            end
          end
        end
      end
    end
  end.

Definition getCurrentRun (machine : Machine) (ref : NameRef) : go (DeployRun + GoErr) :=
  let ns := if nr_Namespace ref =s "" then Namespace machine else nr_Namespace ref in
  Get KRun (mkKey ns (nr_Name ref)).

Definition resolveDeployPlan (machine : Machine) : go (option DeployPlan) :=
  if negb (PlanBuilder s) then Ret None else
  match CurrentRunRef (Status machine) with
  | None => Ret None
  | Some ref =>
    r <- getCurrentRun machine ref ;;
    match r with
    | inr _ => Ret None
    | inl run =>
      if negb (deployRunExpectsAgent (Phase (run_Status run))) then Ret None else
      r <- resolveClaimIntent machine ;;
      match r with
      | inr _ => Ret None
      | inl claim =>
        r <- Build machine claim run ;;
        match r with
        | inr _ => Ret None
        | inl (plan, _) => Ret (Some plan)
        end
      end
    end
  end.

(** [float64] seconds truncated: exact for any interval below 2^23 seconds. *)
Definition poll_seconds : Z := int32 (pollInterval s ÷ Second).

Definition handleNext (r : Request unit) : go Response :=
  match bearerToken (Authorization r) with
  | None => Ret Unauthorized
  | Some token =>
    found <- lookupMachineBySession token ;;
    match found with
    | inr _ | inl None => Ret Unauthorized
    | inl (Some machine) =>
      plan <- resolveDeployPlan machine ;;
      match plan with
      | Some plan => Ret (NextOK ActionDeploy poll_seconds (Some plan))
      | None => Ret (NextOK ActionWait poll_seconds None)
      end
    end
  end.

Definition handleProgress (r : Request ProgressRequest) : go Response :=
  match bearerToken (Authorization r) with
  | None => Ret Unauthorized
  | Some token =>
    found <- lookupMachineBySession token ;;
    match found with
    | inr _ | inl None => Ret Unauthorized
    | inl (Some machine) =>
      match Body r with
      | None => Ret (BadRequest "malformed request body")
      | Some req =>
        abort <- match Abort s with
                 | Some decide => decide (Name machine) (RunName req) (RunUID req)
                 | None => Ret false
                 end ;;
        persistProgress retries machine req ;;
        Ret (ProgressOK (if (abort : bool) then ProgressActionAbort else ProgressActionContinue))
      end
    end
  end.

(** The routes of [Handler], behind the version check. *)
Inductive call_in :=
| Register (r : Request RegisterRequest)
| Next (r : Request unit)
| Progress (r : Request ProgressRequest).

Definition Handler (c : call_in) : go Response :=
  match c with
  | Register r => requireAgentSchemaVersion (SchemaHeader r) (handleRegister r)
  | Next r => requireAgentSchemaVersion (SchemaHeader r) (handleNext r)
  | Progress r => requireAgentSchemaVersion (SchemaHeader r) (handleProgress r)
  end.
End Server.

(** ** Only a live credential gets anything done *)

Definition index_of (field : string) (m : Machine) : list string :=
  if field =s MachineTokenHashIndexField then IndexMachineTokenHash m
  else if field =s MachineSessionTokenHashIndexField then IndexMachineSessionTokenHash m
  else [].

Definition expiry_of (field : string) (m : Machine) : option Z :=
  if field =s MachineTokenHashIndexField then nb_ExpiresAt <$> NetBoot (Status m)
  else if field =s MachineSessionTokenHashIndexField then as_ExpiresAt <$> AgentSession (Status m)
  else None.

(** What a request has shown so far: nothing, one Machine with an expiry, or a
    Machine whose credential was live at a clock reading. *)
Inductive standing := Unknown | Found (m : Machine) (expires : Z) | Live (m : Machine).

Definition stand_list (k : kind) (field value : string) : list (obj k) + GoErr -> standing :=
  match k return list (obj k) + GoErr -> standing with
  | KMachine => fun r =>
    match r with
    | inl [m] => if existsb (String.eqb value) (index_of field m)
                 then match expiry_of field m with Some t => Found m t | None => Unknown end
                 else Unknown
    | _ => Unknown
    end
  | _ => fun _ => Unknown
  end.

Definition stand_step (st : standing) (e : eff) : resp e -> standing :=
  match e return resp e -> standing with
  | EListField k field value => fun r => match st with Unknown => stand_list k field value r | _ => st end
  | ENow => fun now =>
    match st with Found m t => if (now <? t)%Z then Live m else st | _ => st end
  | _ => fun _ => st
  end.

(** A field index answers the objects that have the key. *)
Definition indexed (k : kind) (field value : string) : list (obj k) + GoErr -> Prop :=
  match k return list (obj k) + GoErr -> Prop with
  | KMachine => fun r => match r with inl l => forall m, m ∈ l -> value ∈ index_of field m | inr _ => True end
  | _ => fun _ => True
  end.

Definition index_assumed (e : eff) : resp e -> Prop :=
  match e return resp e -> Prop with EListField k field value => indexed k field value | _ => fun _ => True end.

(** The credential a request presents: the index its route looks in and the hash
    of its bearer token. *)
Definition presented {B} (HashToken : string -> string) (field : string) (r : Request B) : option (string * string) :=
  (fun token => (field, HashToken token)) <$> bearerToken (Authorization r).

Definition credential (HashToken : string -> string) (c : call_in) : option (string * string) :=
  match c with
  | Register r => presented HashToken MachineTokenHashIndexField r
  | Next r => presented HashToken MachineSessionTokenHashIndexField r
  | Progress r => presented HashToken MachineSessionTokenHashIndexField r
  end.

Definition guarded (shown : option (string * string)) : monitor resp standing :=
  mkMonitor (fun st e =>
      match e with
      | EListField KMachine field value => st = Unknown /\ shown = Some (field, value)
      | ENow => True
      | _ => exists m, st = Live m
      end)
    (fun _ => index_assumed) stand_step.

Lemma guarded_live {A} shown (p : go A) m :
  wp (only (fun e => match e with EListField _ _ _ => False | _ => True end)) p tt (fun _ _ => True) ->
  wp (guarded shown) p (Live m) (fun _ st => st = Live m).
Proof.
  induction p as [a|e k IH]; [done|]. intros [He Hk]. split.
  - destruct e; try done; by exists m.
  - intros r _. assert (step (guarded shown) (Live m) e r = Live m) as -> by (by destruct e).
    apply IH. exact (Hk r I).
Qed.

Section Guarded.
Context `{ApiMachinery} (HashToken : string -> string) (retries : nat) (s : Server).

Lemma stand_found field h m :
  h ∈ index_of field m ->
  stand_step Unknown (EListField KMachine field h) (inl [m]) =
  match expiry_of field m with Some t => Found m t | None => Unknown end.
Proof.
  intros Hm. unfold stand_step, stand_list.
  assert (existsb (String.eqb h) (index_of field m) = true) as ->; [|done].
  apply existsb_exists. exists h. split; [by apply list_elem_of_In|apply String.eqb_refl].
Qed.

Definition looked_up (r : option Machine + GoErr) (st : standing) : Prop :=
  match r with inl (Some m) => st = Live m | _ => forall m, st <> Live m end.

Lemma lookupMachineByToken_guarded token :
  wp (guarded (Some (MachineTokenHashIndexField, HashToken token))) (lookupMachineByToken HashToken token) Unknown looked_up.
Proof.
  unfold lookupMachineByToken, ListField, Now, call. cbn [bind]. split; [done|].
  intros [[|m [|m2 l]]|err] Ha; cbn [bind wp];
    [intros m'; discriminate| |intros m'; discriminate|intros m'; discriminate].
  change (step (guarded _) Unknown) with (stand_step Unknown). rewrite stand_found by (apply Ha; left).
  change (expiry_of MachineTokenHashIndexField m) with (nb_ExpiresAt <$> NetBoot (Status m)).
  destruct (NetBoot (Status m)) as [nb|]; cbn [bind wp fmap option_fmap option_map].
  - split; [done|]. intros now _. cbn. destruct (now <? nb_ExpiresAt nb)%Z; by cbn.
  - by intros m'.
Qed.

Lemma lookupMachineBySession_guarded token :
  wp (guarded (Some (MachineSessionTokenHashIndexField, HashToken token))) (lookupMachineBySession HashToken token) Unknown looked_up.
Proof.
  unfold lookupMachineBySession, ListField, Now, call. cbn [bind]. split; [done|].
  intros [[|m [|m2 l]]|err] Ha; cbn [bind wp];
    [intros m'; discriminate| |intros m'; discriminate|intros m'; discriminate].
  change (step (guarded _) Unknown) with (stand_step Unknown). rewrite stand_found by (apply Ha; left).
  change (expiry_of MachineSessionTokenHashIndexField m) with (as_ExpiresAt <$> AgentSession (Status m)).
  destruct (AgentSession (Status m)) as [se|]; cbn [bind wp fmap option_fmap option_map].
  - split; [done|]. intros now _. cbn. destruct (now <? as_ExpiresAt se)%Z; by cbn.
  - by intros m'.
Qed.

(** What follows a lookup makes no second lookup. *)
Definition no_lookup (e : eff) : Prop := match e with EListField _ _ _ => False | _ => True end.

Lemma retry_no_lookup n fn : calls no_lookup fn -> calls no_lookup (retry_on_conflict n fn).
Proof.
  intros Hf. induction n as [|n IH]; cbn [retry_on_conflict]; (apply calls_bind; [done|]); intros [err|]; try done.
  by destruct (IsConflict err).
Qed.

Lemma persistProgress_no_lookup m req : calls no_lookup (persistProgress retries m req).
Proof.
  unfold persistProgress. apply calls_bind; [apply retry_no_lookup; repeat calls_step|].
  intros [err|]; repeat calls_step.
Qed.

(** The answer to a request whose credential was not shown to be live. *)
Definition refused (res : Response) (st : standing) : Prop :=
  (forall m, st <> Live m) ->
  res = Unauthorized \/ res = BadRequest (String.append "missing or unsupported " AgentSchemaVersionHeader).

Lemma live_refused {A} shown (p : go A) (f : A -> go Response) m :
  calls no_lookup p -> (forall a, calls no_lookup (f a)) -> wp (guarded shown) (bind p f) (Live m) refused.
Proof.
  intros Hp Hf. eapply wp_mono; [apply guarded_live; apply (calls_bind _ _ _ Hp Hf)|].
  intros res st -> Hst. by destruct (Hst m).
Qed.

Lemma handleRegister_guarded r : wp (guarded (credential HashToken (Register r))) (handleRegister HashToken retries s r) Unknown refused.
Proof.
  unfold handleRegister, credential, presented. destruct (bearerToken _) as [token|]; [|by left].
  eapply wp_seq; [apply lookupMachineByToken_guarded|]. intros [[m|]|err] st Hst; cbn in Hst; [subst|by left..].
  destruct (Body r) as [req|]; [|intros Hst; by destruct (Hst m)].
  apply live_refused; [unfold ensureMachineHardware; repeat calls_step|]. intros [err|]; [done|].
  apply calls_bind; [repeat calls_step|]. intros [[tok hash]|err]; [|done].
  apply calls_bind; [apply retry_no_lookup; repeat calls_step|]. by intros [err|].
Qed.

Lemma handleNext_guarded r : wp (guarded (credential HashToken (Next r))) (handleNext HashToken s r) Unknown refused.
Proof.
  unfold handleNext, credential, presented. destruct (bearerToken _) as [token|]; [|by left].
  eapply wp_seq; [apply lookupMachineBySession_guarded|]. intros [[m|]|err] st Hst; cbn in Hst; [subst|by left..].
  apply live_refused; [repeat calls_step|]. by intros [plan|].
Qed.

Lemma handleProgress_guarded r :
  (forall decide, Abort s = Some decide -> decide = NewAbortDecider) ->
  wp (guarded (credential HashToken (Progress r))) (handleProgress HashToken retries s r) Unknown refused.
Proof.
  intros Habort. unfold handleProgress, credential, presented. destruct (bearerToken _) as [token|]; [|by left].
  eapply wp_seq; [apply lookupMachineBySession_guarded|]. intros [[m|]|err] st Hst; cbn in Hst; [subst|by left..].
  destruct (Body r) as [req|]; [|intros Hst; by destruct (Hst m)].
  apply live_refused.
  - destruct (Abort s) as [decide|]; [|done]. rewrite (Habort decide eq_refl). repeat calls_step.
  - intros abort. apply calls_bind; [apply persistProgress_no_lookup|]. done.
Qed.

Lemma Handler_guarded c :
  (forall decide, Abort s = Some decide -> decide = NewAbortDecider) ->
  wp (guarded (credential HashToken c)) (Handler HashToken retries s c) Unknown refused.
Proof.
  intros Habort. destruct c as [r|r|r]; unfold Handler, requireAgentSchemaVersion; (destruct (_ || _); [by right|]);
    [apply handleRegister_guarded|apply handleNext_guarded|by apply handleProgress_guarded].
Qed.

(** C32. Nothing happens without a live credential: whatever a caller sends to
    any route, the server makes at most one lookup, of the hash of the bearer
    token the request presents, in the index of the route (boot tokens for
    registration, sessions for polls and reports), and reads the clock; every
    further call, read or write, follows only after the lookup gave exactly one
    Machine that carries that hash and a clock reading before its expiry.
    Otherwise the answer is the one fixed 401, or the version error before any
    call.  The index is taken to answer only Machines that carry the key asked
    for, and the abort decider is the one the manager configures. *)
Theorem unauthenticated_request_is_inert c tr res
    (Hrun : runs (Handler HashToken retries s c) tr res)
    (Habort : forall decide, Abort s = Some decide -> decide = NewAbortDecider)
    (Hidx : Forall (fun x => index_assumed (projT1 x) (projT2 x)) tr) :
  obeys (guarded (credential HashToken c)) Unknown tr
  /\ refused res (final (guarded (credential HashToken c)) Unknown tr).
Proof.
  pose proof (Handler_guarded c Habort) as W. split; [by eapply wp_obeys|].
  eapply (wp_final _ _ _ _ _ _ W Hrun). by apply (assumes_forall _ index_assumed).
Qed.
End Guarded.

(** ** Registration *)

(** How far a registration has come. *)
Record progress_of := mkReg {
  rg_machine : option Machine; rg_hardware : bool; rg_token : option string; rg_stored : bool }.

#[export] Instance eta_progress_of : Eta progress_of := fun r =>
  mkReg (rg_machine r) (rg_hardware r) (rg_token r) (rg_stored r).

Definition reg_listed (v : progress_of) (k : kind) : list (obj k) + GoErr -> progress_of :=
  match k return list (obj k) + GoErr -> progress_of with
  | KMachine => fun r => match r with inl [m] => v <| rg_machine := Some m |> | _ => v end
  | _ => fun _ => v
  end.

Definition reg_step (v : progress_of) (e : eff) : resp e -> progress_of :=
  match e return resp e -> progress_of with
  | EListField k _ _ => reg_listed v k
  | ECreate _ _ | EUpdate _ _ => fun r => match r with inl _ => v <| rg_hardware := true |> | inr _ => v end
  | ERandRead _ => fun r => match r with inl buf => v <| rg_token := Some (EncodeToString buf) |> | inr _ => v end
  | EStatusUpdate _ _ => fun r => match r with inl _ => v <| rg_stored := true |> | inr _ => v end
  | _ => fun _ => v
  end.

Section Registration.
Context `{ApiMachineryLaws} (HashToken : string -> string) (retries : nat) (s : Server).

(** The writes a registration may send, in its order. *)
Definition reg_allowed (req : RegisterRequest) (v : progress_of) (e : eff) : Prop :=
  match e with
  | ECreate KHardware o | EUpdate KHardware o =>
    hw_Spec o = Hardware req /\ exists m, rg_machine v = Some m /\ OwnerReferences o = [machineOwnerReference m]
  | EStatusUpdate KMachine o =>
    rg_hardware v = true /\ (forall nb, NetBoot (Status o) = Some nb -> nb_TokenHash nb = "")
    /\ IsStatusConditionTrue (Conditions (Status o)) MachineConditionAgentRegistered = true
    /\ exists token t, rg_token v = Some token
         /\ AgentSession (Status o) = Some (mkAgentSession (HashToken token) t)
  | _ => is_write e = false
  end.

Definition registering (req : RegisterRequest) : monitor resp progress_of :=
  mkMonitor (reg_allowed req) (fun _ _ _ => True) reg_step.

Lemma register_try_registers req key token v :
  rg_hardware v = true -> rg_token v = Some token ->
  wp (registering req) (register_try s key (HashToken token)) v
    (fun r v' => rg_machine v' = rg_machine v /\ rg_hardware v' = true /\ rg_token v' = Some token
       /\ (r = None -> rg_stored v' = true)).
Proof.
  intros Hh Ht. unfold register_try, Get, Now, StatusUpdate, call. cbn [bind]. split; [done|].
  intros [m|err] _; [|done]. cbn [bind]. split; [done|]. intros now _. cbn [bind]. split.
  - split_and!; [done| | |].
    + intros nb. cbn. destruct (NetBoot (Status m)); [|done]. by intros [= <-].
    + cbn. etrans; [apply (is_true_set_same _ (mkCondition MachineConditionAgentRegistered _ _ _ _))|done].
    + by eexists token, _.
  - by intros [m'|err] _.
Qed.

Lemma retry_registers req n key token v :
  rg_hardware v = true -> rg_token v = Some token ->
  wp (registering req) (retry_on_conflict n (register_try s key (HashToken token))) v
    (fun r v' => rg_machine v' = rg_machine v /\ rg_token v' = Some token /\ (r = None -> rg_stored v' = true)).
Proof.
  revert v. induction n as [|n IH]; intros v Hh Ht; cbn [retry_on_conflict];
    (eapply wp_seq; [by apply register_try_registers|]); intros r v' (E1 & E2 & E3 & E4); [done|].
  destruct r as [err|]; [|done]. destruct (IsConflict err); [|done].
  eapply wp_mono; [by apply IH|]. intros r v2 (F1 & F2 & F3). by rewrite F1.
Qed.

Lemma hardware_registers req m v :
  rg_machine v = Some m ->
  wp (registering req) (ensureMachineHardware m (Hardware req)) v
    (fun r v' => rg_machine v' = Some m /\ (r = None -> rg_hardware v' = true)).
Proof.
  intros Hm. unfold ensureMachineHardware, Get, Create, Update, call. cbn [bind]. split; [done|].
  intros [hw|err] _; cbn [bind].
  - split; [split; [done|by exists m]|]. by intros [o|err] _.
  - destruct (IsNotFound err); [|done]. cbn [bind]. split; [split; [done|by exists m]|]. by intros [o|err'] _.
Qed.

(** A registration that was answered is stored. *)
Definition registered (res : Response) (v : progress_of) : Prop :=
  forall name token ttl, res = RegisterOK name token ttl ->
    rg_stored v = true /\ rg_token v = Some token /\ exists m, rg_machine v = Some m /\ Name m = name.

Lemma handleRegister_registers r req v :
  Body r = Some req ->
  wp (registering req) (handleRegister HashToken retries s r) v registered.
Proof.
  intros Hb. unfold handleRegister. destruct (bearerToken _) as [token|]; [|done].
  eapply (wp_seq _ _ _ _ (fun r v' => forall m, r = inl (Some m) -> rg_machine v' = Some m)).
  { unfold lookupMachineByToken, ListField, Now, call. cbn [bind]. split; [done|].
    intros [[|m [|m2 l]]|err] _; [done| |done|done]. destruct (NetBoot (Status m)); [|done].
    cbn [bind]. split; [done|]. intros now _ m'. by destruct (_ <? _)%Z; intros [= <-]. }
  intros [[m|]|err] v1 Hv1; [|done..]. specialize (Hv1 m eq_refl). rewrite Hb.
  eapply wp_seq; [by apply hardware_registers|]. intros [err|] v2 [Hm Hh]; [done|]. specialize (Hh eq_refl).
  unfold mintSessionToken, RandRead, call. cbn [bind]. split; [done|]. intros [buf|err] _; cbn [bind]; [|done].
  eapply wp_seq; [by apply retry_registers|]. intros [err|] v3 (E1 & E2 & E3); [done|].
  intros name tok ttl [= <- <- <-]. split_and!; [by apply E3|done|]. exists m. split; [by rewrite E1|done].
Qed.

(** C33. A registration is atomic in its effects: the reported inventory is
    stored, owned by the Machine the token named, before the Machine's status
    is touched; that one status update clears the boot token, stores the hash
    (never the text) of the session token the agent is given, and marks the
    Machine registered; and a session token is handed out only after that
    update was accepted. *)
Theorem registration_is_ordered r req tr res
    (Hrun : runs (handleRegister HashToken retries s r) tr res)
    (Hbody : Body r = Some req) :
  obeys (registering req) (mkReg None false None false) tr
  /\ registered res (final (registering req) (mkReg None false None false) tr).
Proof.
  pose proof (handleRegister_registers r req (mkReg None false None false) Hbody) as W.
  split; [by eapply wp_obeys|]. eapply (wp_final _ _ _ _ _ _ W Hrun).
  apply (assumes_forall _ (fun _ _ => True)); [done|]. by apply Forall_true.
Qed.

End Registration.

(** ** Plans *)

Section Plans.
Context (HashToken : string -> string) (s : Server).

Lemma lookup_session_runs token tr m :
  runs (lookupMachineBySession HashToken token) tr (inl (Some m)) ->
  exists session now, ev (EListField KMachine MachineSessionTokenHashIndexField (HashToken token)) (inl [m]) ∈ tr
    /\ AgentSession (Status m) = Some session /\ ev ENow now ∈ tr /\ (now < as_ExpiresAt session)%Z.
Proof.
  unfold lookupMachineBySession, ListField, Now, call. cbn [bind]. intros ([[|m' [|? ?]]|err] & tr' & -> & Hr); try by destruct Hr.
  destruct (AgentSession (Status m')) as [session|] eqn:Hs; [|by destruct Hr]. cbn [bind] in Hr.
  destruct Hr as (now & tr2 & -> & [-> Hr]). destruct (Z.ltb_spec now (as_ExpiresAt session)); [|done].
  injection Hr as ->. exists session, now. split_and!; [left|done|right; left|done].
Qed.

Lemma handleNext_plan r tr action poll plan
    (Hrun : runs (handleNext HashToken s r) tr (NextOK action poll plan)) :
  (action = ActionDeploy <-> plan <> None) /\
  forall p, plan = Some p -> exists token (m : Machine) session now (ref : NameRef) (run : DeployRun) claim snap,
    bearerToken (Authorization r) = Some token
    /\ ev (EListField KMachine MachineSessionTokenHashIndexField (HashToken token)) (inl [m]) ∈ tr
    /\ AgentSession (Status m) = Some session /\ ev ENow now ∈ tr /\ (now < as_ExpiresAt session)%Z
    /\ CurrentRunRef (Status m) = Some ref
    /\ deployRunExpectsAgent (Phase (run_Status run)) = true
    /\ ev (EGet KRun (mkKey (if nr_Namespace ref =s "" then Namespace m else nr_Namespace ref) (nr_Name ref)))
         (inl run) ∈ tr
    /\ ev (EBuild m claim run) (inl (p, snap)) ∈ tr.
Proof.
  unfold handleNext in Hrun. destruct (bearerToken _) as [token|]; [|by destruct Hrun].
  apply runs_bind in Hrun as (tr1 & tr2 & found & -> & Hfound & Hrun).
  destruct found as [[m|]|err]; [|by destruct Hrun..].
  apply lookup_session_runs in Hfound as (session & now & Hl & Hs & Hn & Hlt).
  apply runs_bind in Hrun as (tr3 & tr4 & o & -> & Hplan & Hrun).
  assert (Ho : plan = o /\ (action = ActionDeploy <-> plan <> None)).
  { destruct o; destruct Hrun as [_ [= -> -> ->]]; by split. }
  destruct Ho as [-> Hact]. split; [done|]. intros p ->. clear Hrun Hact.
  unfold resolveDeployPlan in Hplan. destruct (PlanBuilder s); [|by destruct Hplan].
  destruct (CurrentRunRef (Status m)) as [ref|] eqn:Hc; [|by destruct Hplan]. cbn [negb] in Hplan.
  unfold getCurrentRun, Get, Build, call in Hplan. cbn [bind] in Hplan.
  destruct Hplan as ([run|err] & tr5 & -> & Hplan); [|by destruct Hplan].
  destruct (deployRunExpectsAgent _) eqn:He; [|by destruct Hplan]. cbn [negb] in Hplan.
  apply runs_bind in Hplan as (tr6 & tr7 & [claim|err] & -> & _ & Hplan); [|by destruct Hplan].
  destruct Hplan as ([[p' snap]|err] & tr8 & -> & Hplan); [|by destruct Hplan].
  destruct Hplan as [-> [= ->]]. exists token, m, session, now, ref, run, claim, snap. split_and!; try done; set_solver.
Qed.

(** A plan is handed out only for work in progress: the poll answers deploy
    exactly when it carries a plan, and then the plan was built in this very
    request from the Machine's current DeployRun, read in this request in a
    phase in which the agent is expected to work on it. *)
Theorem next_hands_out_current_plan r tr action poll plan
    (Hrun : runs (handleNext HashToken s r) tr (NextOK action poll plan)) :
  (action = ActionDeploy <-> plan <> None) /\
  forall p, plan = Some p -> exists token (m : Machine) session now (ref : NameRef) (run : DeployRun) claim snap,
    bearerToken (Authorization r) = Some token
    /\ ev (EListField KMachine MachineSessionTokenHashIndexField (HashToken token)) (inl [m]) ∈ tr
    /\ AgentSession (Status m) = Some session /\ ev ENow now ∈ tr /\ (now < as_ExpiresAt session)%Z
    /\ CurrentRunRef (Status m) = Some ref
    /\ deployRunExpectsAgent (Phase (run_Status run)) = true
    /\ ev (EGet KRun (mkKey (if nr_Namespace ref =s "" then Namespace m else nr_Namespace ref) (nr_Name ref)))
         (inl run) ∈ tr
    /\ ev (EBuild m claim run) (inl (p, snap)) ∈ tr.
Proof. exact (handleNext_plan r tr action poll plan Hrun). Qed.
End Plans.

(** ** Witnesses *)

#[local] Existing Instances SimpleMeta.ops SimpleMeta.laws.

Definition tag (token : string) : string := String.append "h:" token.
Definition the_server : Server := mkServer 0 0 (Some NewAbortDecider) true.

Definition booting_machine : Machine :=
  Demo.machine ∅ (Demo.status MachineStateInspecting <| NetBoot := Some (mkNetBoot "h:boot" 5000) |>).

Definition session_machine : Machine :=
  Demo.machine ∅ (Demo.status MachineStateProvisioning <| CurrentRunRef := Some (mkNameRef "" "m1-abcde") |>
    <| AgentSession := Some (mkAgentSession "h:session" 5000) |>).

Definition pending_run : DeployRun :=
  mkRun (Demo.meta "m1-abcde" ∅) (mkRunSpec (mkNameRef "" "m1") None None None [] "")
    (mkRunStatus DeployRunPhasePending [] [] (Some 900%Z) []).

Definition server_world (m : Machine) : Demo.world :=
  Demo.mkWorld (Some m) None (Some pending_run) None None None [] [m] (outcome Complete).

Definition inventory : RegisterRequest := mkRegisterRequest (mkHardwareSpec [] [] 1024 4).
Definition register_call : Request RegisterRequest := mkRequest "Bearer boot" "3" (Some inventory).

Definition empty_world : Demo.world :=
  Demo.mkWorld None None None None None None [] [] (outcome Complete).

Lemma unauthenticated_request_is_inert_witness :
  exists tr, exec (Demo.handler empty_world)
      (Handler tag 3 the_server (Next (mkRequest "Bearer guess" "3" None))) tt = Some (Unauthorized, tt, tr)
    /\ length tr = 1
    /\ obeys (guarded (Some (MachineSessionTokenHashIndexField, "h:guess"))) Unknown tr.
Proof.
  eexists. split; [vm_compute; reflexivity|]. split; [reflexivity|].
  eapply (unauthenticated_request_is_inert tag 3 the_server (Next (mkRequest "Bearer guess" "3" None))).
  - eapply (exec_runs (Demo.handler empty_world) _ tt _ tt). vm_compute. reflexivity.
  - intros decide Hd. injection Hd as <-. reflexivity.
  - repeat constructor. intros m Hm. inversion Hm.
Defined.

Lemma registration_is_ordered_witness :
  exists token tr, exec (Demo.handler (server_world booting_machine))
      (handleRegister tag 3 the_server register_call) tt = Some (RegisterOK "m1" token 21600, tt, tr)
    /\ String.length token = 64
    /\ obeys (registering tag inventory) (mkReg None false None false) tr.
Proof.
  eexists _, _. split; [vm_compute; reflexivity|]. split; [reflexivity|].
  eapply (registration_is_ordered tag 3 the_server register_call inventory).
  - eapply (exec_runs (Demo.handler (server_world booting_machine)) _ tt _ tt). vm_compute. reflexivity.
  - reflexivity.
Defined.

Lemma next_hands_out_current_plan_witness :
  exists tr, exec (Demo.handler (server_world session_machine))
      (handleNext tag the_server (mkRequest "Bearer session" "3" None)) tt
    = Some (NextOK ActionDeploy 15 (Some Demo.plan), tt, tr)
    /\ exists run : DeployRun, deployRunExpectsAgent (Phase (run_Status run)) = true.
Proof.
  eexists. split; [vm_compute; reflexivity|].
  edestruct (next_hands_out_current_plan tag the_server (mkRequest "Bearer session" "3" None)) as [_ Hp].
  - eapply (exec_runs (Demo.handler (server_world session_machine)) _ tt _ tt). vm_compute. reflexivity.
  - destruct (Hp _ eq_refl) as (token & m & session & now & ref & run & claim & snap & _ & _ & _ & _ & _ & _ & He & _). exists run. exact He.
Defined.

(** *** Single use is not checked against the store

    The lookup reads the token from the index; the re-read before the status
    update does not look at it again.  So a second registration with the same
    token that was looked up before the first one was stored, or in an index
    that lags behind, is answered with a session of its own although the token
    it presented is already consumed. *)
Example consumed_token_registers_again :
  exists token tr, exec (Demo.handler
      (Demo.mkWorld (Some (ingestRegistration booting_machine "h:first" 900 1000)) None None None None None []
         [booting_machine] (outcome Complete)))
      (handleRegister tag 3 the_server register_call) tt = Some (RegisterOK "m1" token 21600, tt, tr)
    /\ NetBoot (Status (ingestRegistration booting_machine "h:first" 900 1000)) = Some (mkNetBoot "" 5000).
Proof. eexists _, _. split; [vm_compute; reflexivity|reflexivity]. Qed.
