(* ===== verification/BootServer.v ===== *)
(** * BootServer: the boot config service and its token store

    [src/internal/bootserver]: [token.go], [tokenstore.go], [tokensecret.go],
    [config.go], [index.go], [mac.go], [grub.go], [server.go] (routes and
    handlers), [efi.go] and [artifacts.go].  A response is what the handler
    writes; headers and logging are left out.  The token hash ([hex] of
    [sha256]), [url.Parse] and RFC 3339 text are parameters.

    The token store is shared by the deployer that mints and the server that
    reads.  The server's two calls into it are [ETokenLookup] and
    [ETokenRestore]; the store itself is [TokenStore] with its operations, and
    the refinement theorem says what those calls may answer. *)

From S2P Require Import Prelude Text Api Effects Cluster SubnetDhcp Bootd Machine AgentDeployer.
Local Open Scope string_scope.
Local Open Scope list_scope.
Local Open Scope nat_scope.

(** ** The token store *)

Definition tokenByteLength : Z := 32.

Record tokenStoreEntry := mkTokenEntry { te_token : string; te_hash : string }.
Record TokenStore := mkTokenStore { entries : gmap string tokenStoreEntry }.

Definition NewTokenStore : TokenStore := mkTokenStore ∅.

Section Tokens.
Context (hashToken : string -> string).

(** [mintToken], given what [rand.Read] answers. *)
Definition mint (random : list Z + GoErr) : string * string + GoErr :=
  match random with
  | inr err => inr (wrapf "generating boot token: %w" [] err)
  | inl buf => let token := EncodeToString buf in inl (token, hashToken token)
  end.

Definition mintToken : go (string * string + GoErr) := r <- RandRead tokenByteLength ;; Ret (mint r).

Definition Issue (mac : string) (now ttl : Z) (random : list Z + GoErr) (s : TokenStore)
  : (string * MachineNetBootStatus + GoErr) * TokenStore :=
  match mint random with
  | inr err => (inr err, s)
  | inl (token, hash) =>
    (inl (token, mkNetBoot hash (now + ttl)), mkTokenStore (<[mac := mkTokenEntry token hash]> (entries s)))
  end.

Definition Restore (mac token hash : string) (s : TokenStore) : TokenStore :=
  mkTokenStore (<[mac := mkTokenEntry token hash]> (entries s)).

Definition Lookup (mac wantHash : string) (s : TokenStore) : option string :=
  if wantHash =s "" then None else
  match entries s !! mac with
  | None => None
  | Some entry => if te_hash entry <>s wantHash then None else Some (te_token entry)
  end.

(** *** What the store promises

    One call on the store, and the answer it gives. *)
Inductive token_op :=
| OpIssue (mac : string) (now ttl : Z) (random : list Z + GoErr)
| OpRestore (mac token hash : string)
| OpLookup (mac wantHash : string).

Inductive token_answer :=
| AIssued (r : string * MachineNetBootStatus + GoErr)
| ARestored
| AFound (token : option string).

Definition store_step (s : TokenStore) (op : token_op) : TokenStore * token_answer :=
  match op with
  | OpIssue mac now ttl random => let '(r, s) := Issue mac now ttl random s in (s, AIssued r)
  | OpRestore mac token hash => (Restore mac token hash s, ARestored)
  | OpLookup mac want => (s, AFound (Lookup mac want s))
  end.

Fixpoint run_store (s : TokenStore) (ops : list token_op) : list token_answer :=
  match ops with
  | [] => []
  | op :: ops => let '(s, a) := store_step s op in a :: run_store s ops
  end.

(** The specification keeps no map: it is the history of calls.  The
    outstanding token of a MAC, with its hash, is the one its last successful
    issue minted or its last restore named, whichever came later; a lookup hands
    the token out exactly when that hash is the wanted one and not empty. *)
Fixpoint outstanding (mac : string) (history : list token_op) : option (string * string) :=
  match history with
  | [] => None
  | OpIssue mac' _ _ (inl buf) :: rest =>
    if mac' =s mac then Some (EncodeToString buf, hashToken (EncodeToString buf)) else outstanding mac rest
  | OpRestore mac' token hash :: rest => if mac' =s mac then Some (token, hash) else outstanding mac rest
  | _ :: rest => outstanding mac rest
  end.

Definition spec_answer (history : list token_op) (op : token_op) : token_answer :=
  match op with
  | OpIssue _ now ttl random =>
    AIssued (match mint random with
             | inr err => inr err
             | inl (token, hash) => inl (token, mkNetBoot hash (now + ttl))
             end)
  | OpRestore _ _ _ => ARestored
  | OpLookup mac want =>
    AFound (match outstanding mac history with
            | Some (token, hash) => if (want <>s "") && (hash =s want) then Some token else None
            | None => None
            end)
  end.

(** The newest call first in [history]. *)
Fixpoint run_spec (history : list token_op) (ops : list token_op) : list token_answer :=
  match ops with
  | [] => []
  | op :: ops => spec_answer history op :: run_spec (op :: history) ops
  end.

Definition refines (s : TokenStore) (history : list token_op) : Prop :=
  forall mac, entries s !! mac = (fun th => mkTokenEntry th.1 th.2) <$> outstanding mac history.

Lemma store_step_refines s history op :
  refines s history ->
  refines (store_step s op).1 (op :: history) /\ (store_step s op).2 = spec_answer history op.
Proof.
  intros Hr. destruct op as [mac now ttl [buf|err]|mac token hash|mac want]; cbn.
  - split; [|done]. intros m. cbn. destruct (String.eqb_spec mac m) as [->|Hne].
    + by rewrite lookup_insert_eq.
    + by rewrite lookup_insert_ne.
  - split; [|done]. intros m. cbn. apply Hr.
  - split; [|done]. intros m. cbn. destruct (String.eqb_spec mac m) as [->|Hne].
    + by rewrite lookup_insert_eq.
    + by rewrite lookup_insert_ne.
  - split; [exact Hr|]. f_equal. unfold Lookup. rewrite (Hr mac).
    destruct (want =s ""); [by destruct (outstanding mac history) as [[]|]|].
    destruct (outstanding mac history) as [[t h]|]; [|done]. cbn. by destruct (String.eqb h want).
Qed.

Lemma run_store_refines s history ops : refines s history -> run_store s ops = run_spec history ops.
Proof.
  revert s history. induction ops as [|op ops IH]; intros s history Hr; [done|].
  cbn [run_store run_spec].
  destruct (store_step_refines s history op Hr) as [Hr' Hans]. destruct (store_step s op) as [s' a].
  cbn in *. rewrite Hans. f_equal. by apply IH.
Qed.

Lemma refines_new : refines NewTokenStore [].
Proof. intros mac. done. Qed.

(** After restores that each carry their token's own hash, which is all the
    server makes, a token that is handed out is the preimage of the hash asked
    for. *)
Lemma found_token_hashes history mac want token :
  (forall m t h, OpRestore m t h ∈ history -> hashToken t = h) ->
  spec_answer history (OpLookup mac want) = AFound (Some token) -> hashToken token = want.
Proof.
  intros Hres. cbn.
  assert (Ho : forall t h, outstanding mac history = Some (t, h) -> hashToken t = h).
  { induction history as [|[m n l [buf|]|m t h|m w] rest IH]; cbn; intros t' h';
      try (apply IH; intros; apply (Hres m0); by right); [done| |].
    - destruct (m =s mac); [by intros [= <- <-]|]. apply IH. intros. apply (Hres m0). by right.
    - destruct (m =s mac).
      + intros [= <- <-]. apply (Hres m). by left.
      + apply IH. intros. apply (Hres m0). by right. }
  destruct (outstanding mac history) as [[t h]|]; [|done].
  destruct (want <>s ""); cbn; [|done]. destruct (String.eqb_spec h want) as [<-|]; [|done].
  intros [= <-]. by apply Ho.
Qed.
End Tokens.

(** C26. The token store refines its history: in every sequence of issues,
    restores and lookups, the map of entries answers as the specification
    without state does: a lookup hands out the token of the last successful
    issue or restore for that MAC, exactly when the hash recorded with it (the
    minted token's own, or the one the restore was given) is the hash asked for
    and not empty, so at most one token is ever outstanding for a MAC and a
    superseded one is never handed out. *)
Theorem token_store_refines_history hashToken ops :
  run_store hashToken NewTokenStore ops = run_spec hashToken [] ops.
Proof. apply run_store_refines, refines_new. Qed.

Lemma token_store_refines_history_witness :
  let h := fun t => String.append "h" t in
  run_store h NewTokenStore
    [OpIssue "m" 0 10 (inl [171]%Z); OpRestore "m" "t" "x"; OpLookup "m" "hab"; OpLookup "m" "ht"; OpLookup "m" "x"] =
  [AIssued (inl ("ab", mkNetBoot "hab" 10)); ARestored; AFound None; AFound None; AFound (Some "t")].
Proof.
  intros h. rewrite (token_store_refines_history h
    [OpIssue "m" 0 10 (inl [171]%Z); OpRestore "m" "t" "x"; OpLookup "m" "hab"; OpLookup "m" "ht"; OpLookup "m" "x"]).
  vm_compute. reflexivity.
Defined.

(** ** Configuration *)

Definition DefaultKernelPath : string := "vmlinuz".
Definition DefaultInitrdPath : string := "initrd.img".
Definition DefaultSquashfsPath : string := "filesystem.squashfs".

Record Config := mkBootConfig {
  bs_Addr : string; ArtifactsDir : string; ServerURL : string; AgentServerURL : string;
  KernelPath : string; InitrdPath : string; SquashfsPath : string; EFIDir : string; DefaultConsole : list string }.

#[export] Instance eta_BootConfig : Eta Config := fun r =>
  mkBootConfig (bs_Addr r) (ArtifactsDir r) (ServerURL r) (AgentServerURL r) (KernelPath r) (InitrdPath r)
    (SquashfsPath r) (EFIDir r) (DefaultConsole r).

Definition withDefaults (c : Config) : Config :=
  let c := if KernelPath c =s "" then c <| KernelPath := DefaultKernelPath |> else c in
  let c := if InitrdPath c =s "" then c <| InitrdPath := DefaultInitrdPath |> else c in
  let c := if SquashfsPath c =s "" then c <| SquashfsPath := DefaultSquashfsPath |> else c in
  let c := if EFIDir c =s "" then c <| EFIDir := ArtifactsDir c |> else c in
  if AgentServerURL c =s "" then c <| AgentServerURL := ServerURL c |> else c.

(** ** GRUB configurations *)

Definition dq (s : string) : string := String.append dquote (String.append s dquote).

Definition bootLocalConfig : string := String.concat newline
  ["# kezio: this machine does not need the live boot environment right now.";
   "set timeout=0";
   "search --no-floppy --file --set=kezio_esp /EFI/BOOT/BOOTX64.EFI";
   String.concat "" ["if [ -n "; dq "${kezio_esp}"; " ]; then"];
   String.append "  echo " (dq "kezio: starting the local system from (${kezio_esp})/EFI/BOOT/BOOTX64.EFI");
   "  set root=${kezio_esp}";
   "  chainloader /EFI/BOOT/BOOTX64.EFI";
   "  boot";
   String.append "  echo " (dq "kezio: that loader did not start the local system; its EFI/BOOT directory is incomplete");
   "else";
   String.append "  echo " (dq "kezio: no disk on this machine carries /EFI/BOOT/BOOTX64.EFI");
   "fi"; "exit"; ""].

Definition grubSearchRedirectConfig : string := String.concat newline
  ["# kezio: re-entering the config search with this machine's MAC.";
   "set timeout=0";
   "configfile ${prefix}/grub.cfg-01-${net_default_mac}"; ""].

Definition HasBootPlane (s : SubnetSpec) : bool := bool_decide (is_Some (sub_DHCP s)).

Definition subnetBootBaseURL (subnet : Subnet) : option string :=
  if negb (HasBootPlane (sub_Spec subnet)) then None
  else Some (sprintf "http://%s:%d" [sub_BootdServerIP (sub_Spec subnet); show_dec DefaultProxyPort]).

Definition resolveConsole (machineConsole defaultConsole : list string) : list string :=
  match machineConsole with [] => defaultConsole | _ => machineConsole end.

Definition consoleCmdlineArgs (console : list string) : string :=
  String.concat "" (map (String.append " console=") console).

(** ** Boot secrets and the index *)

Definition MachineBootMACIndexField : string := ".spec.bootMACAddress".

Definition IndexMachineBootMAC (machine : Machine) : list string :=
  match NormalizeMAC (BootMACAddress (Spec machine)) with Some mac => [mac] | None => [] end.

Definition BootTokenSecretKeyToken : string := "token".
Definition BootTokenSecretKeyMAC : string := "mac".
Definition BootTokenSecretKeyExpiresAt : string := "expiresAt".

Definition grubConfigNamePrefix : string := "grub.cfg-".
Definition grubNetSearchMACPrefix : string := "grub.cfg-01-".

Definition needsNetBoot (machine : Machine) : bool :=
  (State (Status machine) =s MachineStateInspecting) || (State (Status machine) =s MachineStateProvisioning).

(** What a handler writes. *)
Inductive HttpAnswer := Text200 (body : string) | NotFound | ServeFile (path : string).

Section Server.
Context (hashToken : string -> string) (ParseURL : string -> URL + GoErr) `{Encodings}.
(** [cfg] is [Config] with its defaults; [tokens]: [Tokens] is not nil. *)
Context (cfg : Config) (tokens : bool).

Definition renderNetBootConfig (cfg : Config) (token : string) (console : list string) : string + GoErr :=
  let base := TrimRight is_slash (ServerURL cfg) in
  match GrubNetPath ParseURL base (String.append "/boot/artifacts/" (KernelPath cfg)) with
  | inr err => inr err
  | inl kernelPath =>
    match GrubNetPath ParseURL base (String.append "/boot/artifacts/" (InitrdPath cfg)) with
    | inr err => inr err
    | inl initrdPath =>
      let squashfsURL := sprintf "%s/boot/artifacts/%s" [base; SquashfsPath cfg] in
      let agentServerURL := TrimRight is_slash (AgentServerURL cfg) in
      let tokenArg := if token <>s "" then String.append " kezio.token=" token else "" in
      inl (sprintf (String.concat newline
             ["set timeout=5"; "linux %s boot=live fetch=%s kezio.server=%s%s%s"; "initrd %s"; "boot"; ""])
             [kernelPath; squashfsURL; agentServerURL; tokenArg; consoleCmdlineArgs console; initrdPath])
    end
  end.

Definition lookupMachine (mac : string) : go (option Machine + GoErr) :=
  r <- ListField KMachine MachineBootMACIndexField mac ;;
  match r with
  | inr err => Ret (inr (wrapf "listing machines by boot MAC: %w" [] err))
  | inl [] => Ret (inl None)
  | inl [machine] => Ret (inl (Some (machine : Machine)))
  | inl items => Ret (inr (errorf "%d machines share boot MAC address %s" [show_dec (Z.of_nat (length items)); mac]))
  end.

Definition resolveSubnet (machine : Machine) : go (Subnet + GoErr) :=
  let ref := SubnetRef (Spec machine) in
  let ns := if nr_Namespace ref =s "" then Namespace machine else nr_Namespace ref in
  r <- Get KSubnet (mkKey ns (nr_Name ref)) ;;
  match r with
  | inr err => Ret (inr (wrapf "getting Subnet %s/%s: %w" [ns; nr_Name ref] err))
  | inl subnet => Ret (inl (subnet : Subnet))
  end.

Definition lookupTokenFromSecret (mac : string) (machine : Machine) (wantHash : string) : go string :=
  r <- Get KSecret (mkKey (Namespace machine) (BootTokenSecretName (Name machine))) ;;
  match r with
  | inr _ => Ret ""
  | inl secret =>
    let data := secret_Data (secret : Secret) in
    if default "" (data !! BootTokenSecretKeyMAC) <>s mac then Ret "" else
    let token := default "" (data !! BootTokenSecretKeyToken) in
    if (token =s "") || (hashToken token <>s wantHash) then Ret "" else
    match ParseRFC3339 (default "" (data !! BootTokenSecretKeyExpiresAt)) with
    | None => Ret ""
    | Some expiresAt =>
      now <- Now ;;
      if negb (now <? expiresAt)%Z then Ret "" else
      if tokens then TokenRestore mac token wantHash ;; Ret token else Ret token
    end
  end.

Definition lookupToken (mac : string) (machine : Machine) : go string :=
  match NetBoot (Status machine) with
  | None => Ret ""
  | Some nb =>
    let wantHash := nb_TokenHash nb in
    if wantHash =s "" then Ret "" else
    if tokens then
      r <- TokenLookup mac wantHash ;;
      match r with
      | Some token => Ret token
      | None => lookupTokenFromSecret mac machine wantHash
      end
    else lookupTokenFromSecret mac machine wantHash
  end.

(** The body of [GET /boot/grub.cfg-<mac>]. *)
Definition handleGrubConfig (rawMAC : string) : go string :=
  match NormalizeMAC rawMAC with
  | None => Ret bootLocalConfig
  | Some mac =>
    r <- lookupMachine mac ;;
    match r with
    | inr _ | inl None => Ret bootLocalConfig
    | inl (Some machine) =>
      if negb (needsNetBoot machine) then Ret bootLocalConfig else
      token <- lookupToken mac machine ;;
      subnet <- resolveSubnet machine ;;
      let renderCfg :=
        match subnet with
        | inr _ => cfg
        | inl subnet =>
          match subnetBootBaseURL subnet with
          | Some base => cfg <| ServerURL := base |> <| AgentServerURL := base |>
          | None => cfg
          end
        end in
      if ServerURL renderCfg =s "" then Ret bootLocalConfig else
      match renderNetBootConfig renderCfg token (resolveConsole (Console (Spec machine)) (DefaultConsole renderCfg)) with
      | inr _ => Ret bootLocalConfig
      | inl config => Ret config
      end
    end
  end.

Definition handleBootPath (name : string) : go HttpAnswer :=
  match CutPrefix name grubConfigNamePrefix with
  | None => Ret NotFound
  | Some rawMAC => body <- handleGrubConfig rawMAC ;; Ret (Text200 body)
  end.

Definition handleHTTPBootGrubSearch (name : string) : go HttpAnswer :=
  if name =s "grub.cfg" then Ret (Text200 grubSearchRedirectConfig) else
  match CutPrefix name grubNetSearchMACPrefix with
  | None => Ret NotFound
  | Some dashMAC => body <- handleGrubConfig (replace_char "-" ":" dashMAC) ;; Ret (Text200 body)
  end.

Definition allowedEFIFiles (name : string) : bool := (name =s ShimFilename) || (name =s GrubFilename).

Definition handleEFI (name : string) : HttpAnswer :=
  if negb (allowedEFIFiles name) then NotFound else ServeFile (Join [EFIDir cfg; name]).

Definition requestsDirectory (dir reqPath : string) : go bool :=
  let clean := Clean (String.append "/" reqPath) in
  let full := Join [dir; clean] in
  info <- Stat full ;;
  match info with Some isDir => Ret isDir | None => Ret false end.

(** The handler behind [StripPrefix]; the file server resolves the path the
    same way. *)
Definition artifactsHandler (dir reqPath : string) : go HttpAnswer :=
  isDir <- requestsDirectory dir reqPath ;;
  if (isDir : bool) then Ret NotFound else Ret (ServeFile (Join [dir; Clean (String.append "/" reqPath)])).

(** The routes of [Handler]. *)
Inductive route :=
| BootPath (name : string) | Artifacts (path : string) | EFI (name : string) | GrubSearch (name : string).

Definition Handler (r : route) : go HttpAnswer :=
  match r with
  | BootPath name => handleBootPath name
  | Artifacts path => artifactsHandler (ArtifactsDir cfg) path
  | EFI name => Ret (handleEFI name)
  | GrubSearch name => handleHTTPBootGrubSearch name
  end.

(** ** What a grub.cfg request can get *)

(** What a request has learned: the answer to its indexed list, the token
    store's, the boot token Secret, the clock, and the Subnet. *)
Record boot_view := mkBootView {
  br_listed : option (list Machine + GoErr); br_store : option (option string); br_secret : option (Secret + GoErr);
  br_now : option Z; br_subnet : option (Subnet + GoErr) }.

#[export] Instance eta_boot_view : Eta boot_view := fun r =>
  mkBootView (br_listed r) (br_store r) (br_secret r) (br_now r) (br_subnet r).





















End Server.


#[local] Existing Instance SimpleEncodings.encodings.


(** ** Artifacts stay under their directory *)

Definition plain_element (x : string) : Prop := x <> ".." /\ x <> "" /\ x <> ".".

Lemma clean_step_rooted stack x :
  Forall plain_element stack -> Forall plain_element (clean_step true stack x).
Proof.
  intros Hs. unfold clean_step.
  destruct (String.eqb_spec x ""), (String.eqb_spec x "."); cbn [orb]; try done.
  destruct (String.eqb_spec x "..").
  - destruct Hs as [|y stack Hy Hs]; [constructor|]. destruct (String.eqb_spec y ".."); [|done].
    by destruct Hy.
  - by constructor.
Qed.

Lemma clean_elements_rooted s : Forall plain_element (clean_elements true s).
Proof.
  unfold clean_elements. apply Forall_rev.
  assert (H : forall l stack, Forall plain_element stack -> Forall plain_element (fold_left (clean_step true) l stack)).
  { induction l as [|x l IH]; intros stack Hs; cbn; [done|]. by apply IH, clean_step_rooted. }
  by apply H.
Qed.

Lemma Clean_rooted s : Clean (String.append "/" s) = String.append "/" (String.concat "/" (clean_elements true (String.append "/" s))).
Proof.
  unfold Clean. assert (E : HasPrefix (String.append "/" s) "/" = true) by (by destruct s). by rewrite E.
Qed.

(** Files are served from their directory only: whatever path a request
    names, the artifact handler answers with the directory joined with a rooted
    path none of whose elements is [..], [.] or empty, or with a 404, and it
    makes no call but one stat of that path. *)
Theorem artifacts_are_confined dir reqPath tr ans (Hrun : runs (artifactsHandler dir reqPath) tr ans) :
  exists elems, Forall plain_element elems
    /\ let full := Join [dir; String.append "/" (String.concat "/" elems)] in
       (exists r, tr = [ev (R := resp) (EStat full) r]) /\ (ans = NotFound \/ ans = ServeFile full).
Proof.
  exists (clean_elements true (String.append "/" reqPath)). split; [apply clean_elements_rooted|]. cbv zeta.
  rewrite <- Clean_rooted.
  unfold artifactsHandler, requestsDirectory in Hrun. cbv zeta in Hrun. cbn [bind] in Hrun.
  destruct Hrun as (r & tr' & -> & Hrun). cbn [bind] in Hrun.
  destruct r as [[|]|]; cbn [bind] in Hrun; destruct Hrun as [-> ->]; eauto.
Qed.

Lemma artifacts_are_confined_witness :
  exists tr ans, runs (artifactsHandler "/srv" "../../etc/passwd") tr ans /\ ans = ServeFile "/srv/etc/passwd".
Proof.
  assert (Hr : exists tr, runs (artifactsHandler "/srv" "../../etc/passwd") tr (ServeFile "/srv/etc/passwd")).
  { eexists. eapply (exec_runs (Demo.handler (Demo.world_of (outcome Complete))) _ tt _ tt). vm_compute. reflexivity. }
  destruct Hr as (tr & Hr). exists tr, (ServeFile "/srv/etc/passwd"). split; [exact Hr|].
  destruct (artifacts_are_confined _ _ _ _ Hr) as (elems & _ & _ & [E|E]); [discriminate E|reflexivity].
Defined.
