(* ===== verification/SiteDerive.v ===== *)
(** * SiteDerive: where a machine's seeder runs

    [src/internal/sitederive/sitederive.go] and [src/internal/seederdeploy/identity.go]:
    the walk from a Machine over its Subnet to the Site and its seeding Subnet,
    and the name of a seeder Deployment.  The digest ([hex] of [sha256]) is a
    parameter. *)

From S2P Require Import Prelude Text Api Effects Cluster.
Local Open Scope string_scope.
Local Open Scope list_scope.

Record Resolution := mkResolution {
  SiteIdentity_ : string; res_TrackerURL : string; HasSeeder : bool; Identity_ : string;
  SeederNetworkRef : option NameRef; NodeSelector : gmap string string; ResolvedSubnet : option Subnet }.

#[export] Instance eta_Resolution : Eta Resolution := fun r =>
  mkResolution (SiteIdentity_ r) (res_TrackerURL r) (HasSeeder r) (Identity_ r) (SeederNetworkRef r)
    (NodeSelector r) (ResolvedSubnet r).

Definition qualified (ns name : string) : string := String.append ns (String.append "/" name).

Definition Identity (subnet : Subnet) : string := qualified (Namespace subnet) (Name subnet).
Definition SiteIdentity (site : Site) : string := qualified (Namespace site) (Name site).

Definition SiteRefIdentity (subnet : Subnet) : string :=
  let ref := sub_SiteRef (sub_Spec subnet) in
  qualified (if nr_Namespace ref =s "" then Namespace subnet else nr_Namespace ref) (nr_Name ref).

Definition ResolveSubnet (subnet : Subnet) : Resolution :=
  mkResolution "" "" true (Identity subnet) (sub_SeederNetworkRef (sub_Spec subnet))
    (sub_NodeSelector (sub_Spec subnet)) (Some subnet).

(** The classification of a dangling reference. *)
Definition dangling (k : ErrKind) (fmt : string) (args : list string) : GoErr := mkErr k (sprintf fmt args).

Definition Resolve (machine : Machine) : go (Resolution + GoErr) :=
  let subnetRef := SubnetRef (Spec machine) in
  let subnetNS := if nr_Namespace subnetRef =s "" then Namespace machine else nr_Namespace subnetRef in
  r <- Get KSubnet (mkKey subnetNS (nr_Name subnetRef)) ;;
  match r with
  | inr err =>
    Ret (inr (if IsNotFound err
              then dangling KSubnetNotFound "subnet not found: %s/%s (machine %s/%s spec.subnetRef)"
                     [subnetNS; nr_Name subnetRef; Namespace machine; Name machine]
              else wrapf "get subnet %s/%s: %w" [subnetNS; nr_Name subnetRef] err))
  | inl subnet =>
    let subnet : Subnet := subnet in
    let siteRef := sub_SiteRef (sub_Spec subnet) in
    let siteNS := if nr_Namespace siteRef =s "" then Namespace subnet else nr_Namespace siteRef in
    r <- Get KSite (mkKey siteNS (nr_Name siteRef)) ;;
    match r with
    | inr err =>
      Ret (inr (if IsNotFound err
                then dangling KSiteNotFound "site not found: %s/%s (subnet %s spec.siteRef)"
                       [siteNS; nr_Name siteRef; Identity subnet]
                else wrapf "get site %s/%s: %w" [siteNS; nr_Name siteRef] err))
    | inl site =>
      let site : Site := site in
      match site_SeederSubnetRef (site_Spec site) with
      | None => Ret (inl (mkResolution (SiteIdentity site) (site_TrackerURL (site_Status site)) false "" None ∅ None))
      | Some seederRef =>
        let seederNS := if nr_Namespace seederRef =s "" then Namespace site else nr_Namespace seederRef in
        r <- Get KSubnet (mkKey seederNS (nr_Name seederRef)) ;;
        match r with
        | inr err =>
          Ret (inr (if IsNotFound err
                    then dangling KSeederSubnetNotFound "seeder subnet not found: %s/%s (site %s spec.seederSubnetRef)"
                           [seederNS; nr_Name seederRef; SiteIdentity site]
                    else wrapf "get seeder subnet %s/%s: %w" [seederNS; nr_Name seederRef] err))
        | inl seederSubnet =>
          Ret (inl ((ResolveSubnet seederSubnet) <| SiteIdentity_ := SiteIdentity site |>
                      <| res_TrackerURL := site_TrackerURL (site_Status site) |>))
        end
      end
    end
  end.

(** ** Seeder Deployment names *)

Definition TorrentHTTPPort : Z := 8080.
Definition namePrefix : string := "kezio-seeder-".
Definition maxNameLength : nat := 63.

Definition SeederName (digest : string -> string) (imageName siteIdentity : string) : string :=
  let suffix := String.append "-" (String.substring 0 8 (digest siteIdentity)) in
  let maxBaseLen := (maxNameLength - String.length namePrefix - String.length suffix)%nat in
  let base := if (maxBaseLen <? String.length imageName)%nat then String.substring 0 maxBaseLen imageName else imageName in
  String.append namePrefix (String.append base suffix).

Lemma substring_length n s : (n <= String.length s)%nat -> String.length (String.substring 0 n s) = n.
Proof.
  revert s. induction n as [|n IH]; intros [|a s]; cbn; intros H; try done; [lia|]. rewrite IH; lia.
Qed.

(** The name fits the limit, with a digest of at least eight characters. *)
Lemma SeederName_length digest imageName siteIdentity :
  (8 <= String.length (digest siteIdentity))%nat ->
  (String.length (SeederName digest imageName siteIdentity) <= maxNameLength)%nat.
Proof.
  intros Hd. unfold SeederName. cbv zeta. set (suffix := String.append "-" _).
  assert (Hs : String.length suffix = 9%nat).
  { unfold suffix. rewrite string_length_app, substring_length by done. done. }
  rewrite !string_length_app, Hs. change (String.length namePrefix) with 13%nat. unfold maxNameLength.
  destruct (Nat.ltb_spec (63 - 13 - 9) (String.length imageName)) as [Hlt|Hge]; [rewrite substring_length by lia|]; lia.
Qed.
