(* ===== verification/PlanBuild.v ===== *)
(** * PlanBuild: from a claim's intent to the agent's plan

    [src/internal/planbuild]: [builder.go], [disks.go], [slots.go], [hooks.go],
    [params.go], [seeder.go], [site.go] and [snapshot.go], with
    [seeder.ResolveMaxUploads]/[ResolveMaxConnections], [posthookvalidate]'s
    compatibility check and [posthookdefaults]' hook name.

    Parameters: the decoding of params JSON into template values ([V]), the
    parser and the execution of [text/template], the encoding of the hooks as
    JSON and the digest ([hex] of SHA-256).  The memo of [lazySiteResolution] is
    passed along. *)

From S2P Require Import Prelude Text Api AgentApi Effects Workloads Cluster Store DiskMatch SiteDerive.
Local Open Scope string_scope.
Local Open Scope list_scope.
Local Open Scope Z_scope.

Definition NotReadyError (fmt : string) (args : list string) : GoErr := mkErr KNotReady (sprintf fmt args).
Definition DiskSelectionError (reason : string) : GoErr := mkErr KDiskSelection reason.
Definition ValidationError (fmt : string) (args : list string) : GoErr := mkErr KValidation (sprintf fmt args).

(** ** Disks *)

Definition resolveDisk (disks : list MachineHardwareDisk) (hints : option TargetDiskHints) (label : string)
  : MachineHardwareDisk + GoErr :=
  match Match disks hints with
  | inr (_, msg) => inr (DiskSelectionError (sprintf "%s: %v" [label; msg]))
  | inl disk => inl disk
  end.

Definition checkDistinctDisks (selections : list Selection) : option GoErr :=
  match CheckDistinct selections with
  | Some (_, msg) => Some (DiskSelectionError msg)
  | None => None
  end.

Fixpoint last_char (s : string) : option ascii :=
  match s with
  | EmptyString => None
  | String c EmptyString => Some c
  | String _ rest => last_char rest
  end.

Definition partitionDevicePath (disk : string) (number : Z) : string :=
  match last_char disk with
  | Some c => if is_digit c then sprintf "%sp%d" [disk; show_dec number] else sprintf "%s%d" [disk; show_dec number]
  | None => sprintf "%s%d" [disk; show_dec number]
  end.

Definition diskForSelection (disks : list MachineHardwareDisk) (deviceName : string) : option MachineHardwareDisk :=
  find_first (fun d => d_DeviceName d =s deviceName) disks.

Definition resolveNamespace (ref : NameRef) (defaultNS : string) : string :=
  if nr_Namespace ref <>s "" then nr_Namespace ref else defaultNS.

(** ** ezio tuning *)

Definition DefaultMaxUploads : Z := 3.
Definition DefaultMaxConnections : Z := 10.

Definition ResolveMaxUploads (clusterDefault : Z) (override : option Z) : Z :=
  default (if 0 <? clusterDefault then clusterDefault else DefaultMaxUploads) override.
Definition ResolveMaxConnections (clusterDefault : Z) (override : option Z) : Z :=
  default (if 0 <? clusterDefault then clusterDefault else DefaultMaxConnections) override.

Record LeecherEzioConfig := mkLeecher { le_MaxUploads : Z; le_MaxConnections : Z }.

Definition claim_ezio {A} (f : MachineEzioTuning -> option A) (claim : MachineClaim) : option A :=
  cl_Ezio (claim_Spec claim) ≫= f.

Definition effectiveAfterDeploy (claim : MachineClaim) : string :=
  if cl_AfterDeploy (claim_Spec claim) =s "" then AfterDeployReboot else cl_AfterDeploy (claim_Spec claim).

(** ** Hooks *)

Definition DefaultFinalizeHookName : string := "kezio-default-finalize".

Fixpoint os_family_from (i : Z) (imageOSFamily : string) (steps : list PostHookStep) : option GoErr :=
  match steps with
  | [] => None
  | step :: steps =>
    if (ps_OSFamily step =s "") || (ps_OSFamily step =s imageOSFamily) then os_family_from (i + 1) imageOSFamily steps
    else Some (errorf "spec.steps[%d]: osFamily %q is incompatible with the image's osFamily %q"
                 [show_dec i; ps_OSFamily step; imageOSFamily])
  end.

Definition CheckOSFamilyCompatible (hook : PostHook) (imageOSFamily : string) : option GoErr :=
  os_family_from 0 imageOSFamily (ph_Steps (ph_Spec hook)).

Record builtinDefaults := mkBuiltinDefaults { bd_disk : string; bd_espPartition : Z; bd_lastPartition : Z }.

Definition espDependentBuiltins (name : string) : bool :=
  (name =s BuiltinStepEfibootmgr) || (name =s BuiltinStepInstallRemovableFallback).

(** One image with what was resolved for it. *)
Record resolvedImage := mkResolved {
  ri_ref : NameRef; ri_image : Image; ri_targetDisk : string; ri_slots : list DeploySlot }.

Definition deriveBuiltinDefaults (osImage : option resolvedImage) : builtinDefaults :=
  match osImage with
  | None => mkBuiltinDefaults "" 0 0
  | Some i =>
    let slots := lay_Slots (img_Layout (image_Spec (ri_image i))) in
    mkBuiltinDefaults (ri_targetDisk i)
      (match find_first (fun s => is_Role s =s PartitionRoleESP) slots with Some s => is_Number s | None => 0 end)
      (match last slots with Some s => is_Number s | None => 0 end)
  end.

Definition imageParamsOf (osImage : option resolvedImage) : option string :=
  osImage ≫= fun i => img_Params (image_Spec (ri_image i)).

Definition buildDisks (osImage : option resolvedImage) (dataImages : list resolvedImage) : list DeployRunResolvedDisk :=
  map (fun i => mkResolvedDisk (ri_ref i) (ri_targetDisk i)) (option_list osImage ++ dataImages).

Section Builder.
Context `{ApiMachinery} {V T : Type} (vstring : string -> V).
Context (Unmarshal : string -> gmap string V + GoErr).
Context (Parse : string -> T + GoErr) (Execute : T -> gmap string V -> string + GoErr).
Context (Marshal : list ResolvedHook -> string + GoErr) (digest : string -> string).
Context (ManagerNamespace : string) (LeecherEzio : LeecherEzioConfig).

Definition renderTemplate (raw : string) (data : gmap string V) : string + GoErr :=
  match Parse raw with
  | inr err => inr (wrapf "parsing template: %w" [] err)
  | inl tmpl =>
    match Execute tmpl data with
    | inr err => inr (wrapf "executing template: %w" [] err)
    | inl out => inl out
    end
  end.

(** *** Params *)

Definition jsonToMap (j : option string) : gmap string V + GoErr :=
  match j with
  | None => inl ∅
  | Some raw =>
    if raw =s "" then inl ∅ else
    match Unmarshal raw with
    | inr err => inr (wrapf "parsing params JSON: %w" [] err)
    | inl m => inl m
    end
  end.

Definition mergeParams (imageParams machineParams : option string) : gmap string V + GoErr :=
  match jsonToMap imageParams with
  | inr err => inr (wrapf "image params: %w" [] err)
  | inl merged =>
    match jsonToMap machineParams with
    | inr err => inr (wrapf "machine params: %w" [] err)
    | inl fromMachine => inl (fromMachine ∪ merged)
    end
  end.

(** *** Steps *)

Definition hookTemplateData (shared : gmap string V) (hook : PostHook) : gmap string V :=
  fold_left (fun data p =>
    match data !! hp_Name p, hp_Default p with
    | None, Some d => <[hp_Name p := vstring d]> data
    | _, _ => data
    end) (ph_Params (ph_Spec hook)) shared.

Definition builtin_defaults (name : string) (d : builtinDefaults) : gmap string string :=
  let disk : gmap string string := if bd_disk d <>s "" then {["disk" := bd_disk d]} else ∅ in
  if espDependentBuiltins name then
    if 0 <? bd_espPartition d then <["part" := show_dec (bd_espPartition d)]> disk else disk
  else if name =s BuiltinStepGrowLastPartition then
    if 0 <? bd_lastPartition d then <["partition" := show_dec (bd_lastPartition d)]> disk else disk
  else ∅.

(** The loop over the user's params, in the order of [map_to_list]. *)
Fixpoint override_params (name : string) (data : gmap string V) (l : list (string * string)) (merged : gmap string string)
  : gmap string string + GoErr :=
  match l with
  | [] => inl merged
  | (k, v) :: l =>
    match renderTemplate v data with
    | inr err => inr (ValidationError "builtin %q param %q: %v" [name; k; emsg err])
    | inl rendered => override_params name data l (<[k := rendered]> merged)
    end
  end.

Definition resolveBuiltinParams (name : string) (userParams : gmap string string) (defaults : builtinDefaults)
    (data : gmap string V) : gmap string string + GoErr :=
  match override_params name data (map_to_list userParams) (builtin_defaults name defaults) with
  | inr err => inr err
  | inl merged =>
    if espDependentBuiltins name && (default "" (merged !! "part") =s "") then
      inr (ValidationError "builtin %q needs the OS image's ESP partition number but none could be identified: no slot has role %q, and params.part was not set explicitly"
             [name; PartitionRoleESP])
    else inl merged
  end.

Definition fetchScriptSource (ns : string) (source : PostHookScriptSource) : go (string + GoErr) :=
  if sc_Script source <>s "" then Ret (inl (sc_Script source)) else
  match sc_ConfigMapRef source, sc_SecretRef source with
  | Some ref, _ =>
    r <- Get KConfigMap (mkKey ns (kr_Name ref)) ;;
    match r with
    | inr err =>
      Ret (inr (if IsNotFound err then NotReadyError "configmap %s/%s not found" [ns; kr_Name ref]
                else wrapf "get configmap %s/%s: %w" [ns; kr_Name ref] err))
    | inl cm =>
      match cm_Data (cm : ConfigMap) !! kr_Key ref with
      | None => Ret (inr (NotReadyError "configmap %s/%s: missing key %q" [ns; kr_Name ref; kr_Key ref]))
      | Some v => Ret (inl v)
      end
    end
  | None, Some ref =>
    r <- Get KSecret (mkKey ns (kr_Name ref)) ;;
    match r with
    | inr err =>
      Ret (inr (if IsNotFound err then NotReadyError "secret %s/%s not found" [ns; kr_Name ref]
                else wrapf "get secret %s/%s: %w" [ns; kr_Name ref] err))
    | inl secret =>
      match secret_Data (secret : Secret) !! kr_Key ref with
      | None => Ret (inr (NotReadyError "secret %s/%s: missing key %q" [ns; kr_Name ref; kr_Key ref]))
      | Some v => Ret (inl v)
      end
    end
  | None, None => Ret (inr (errorf "script source has none of script, configMapRef, or secretRef set" []))
  end.

Definition resolveScriptStep (ns osFamily : string) (source : PostHookScriptSource) (data : gmap string V)
  : go (ResolvedHookStep + GoErr) :=
  raw <- fetchScriptSource ns source ;;
  match raw with
  | inr err => Ret (inr err)
  | inl raw =>
    match renderTemplate raw data with
    | inr err => Ret (inr (ValidationError "templating script: %v" [emsg err]))
    | inl content =>
      Ret (inl (mkHookStep HookStepTypeScript "" ∅ content osFamily (effective_timeout (sc_TimeoutSeconds source))))
    end
  end.

Definition resolveStep (ns : string) (step : PostHookStep) (data : gmap string V) (defaults : builtinDefaults)
  : go (ResolvedHookStep + GoErr) :=
  match ps_Builtin step, ps_Script step with
  | Some b, _ =>
    match resolveBuiltinParams (bi_Name b) (bi_Params b) defaults data with
    | inr err => Ret (inr err)
    | inl params =>
      Ret (inl (mkHookStep HookStepTypeBuiltin (bi_Name b) params "" (ps_OSFamily step) (effective_timeout (bi_TimeoutSeconds b))))
    end
  | None, Some s => resolveScriptStep ns (ps_OSFamily step) s data
  | None, None => Ret (inr (errorf "step has neither builtin nor script set" []))
  end.

Fixpoint resolve_steps (i : Z) (ns : string) (data : gmap string V) (defaults : builtinDefaults) (steps : list PostHookStep)
  : go (list ResolvedHookStep + GoErr) :=
  match steps with
  | [] => Ret (inl [])
  | step :: rest =>
    r <- resolveStep ns step data defaults ;;
    match r with
    | inr err => Ret (inr (wrapf "step %d: %w" [show_dec i] err))
    | inl s =>
      r <- resolve_steps (i + 1) ns data defaults rest ;;
      match r with inr err => Ret (inr err) | inl l => Ret (inl (s :: l)) end
    end
  end.

Definition resolveHook (defaultNS : string) (ref : NameRef) (shared : gmap string V) (defaults : builtinDefaults)
    (imageOSFamily : string) : go (ResolvedHook + GoErr) :=
  let ns := resolveNamespace ref defaultNS in
  r <- Get KPostHook (mkKey ns (nr_Name ref)) ;;
  match r with
  | inr err =>
    Ret (inr (if IsNotFound err then NotReadyError "posthook %s/%s not found" [ns; nr_Name ref]
              else wrapf "get posthook %s/%s: %w" [ns; nr_Name ref] err))
  | inl hook =>
    let hook : PostHook := hook in
    if negb (IsStatusConditionTrue (ph_Conditions (ph_Status hook)) PostHookConditionValid) then
      Ret (inr (NotReadyError "posthook %s/%s is not Valid yet" [ns; nr_Name ref]))
    else match (if imageOSFamily <>s "" then CheckOSFamilyCompatible hook imageOSFamily else None) with
    | Some err => Ret (inr (ValidationError "posthook %s/%s: %v" [ns; nr_Name ref; emsg err]))
    | None =>
      r <- resolve_steps 0 ns (hookTemplateData shared hook) defaults (ph_Steps (ph_Spec hook)) ;;
      match r with
      | inr err => Ret (inr err)
      | inl steps => Ret (inl (mkHook (Name hook) steps))
      end
    end
  end.

Fixpoint resolveHooks (defaultNS : string) (refs : list NameRef) (shared : gmap string V) (defaults : builtinDefaults)
    (imageOSFamily : string) : go (list ResolvedHook + GoErr) :=
  match refs with
  | [] => Ret (inl [])
  | ref :: refs =>
    r <- resolveHook defaultNS ref shared defaults imageOSFamily ;;
    match r with
    | inr err => Ret (inr (wrapf "posthook %q: %w" [nr_Name ref] err))
    | inl hook =>
      r <- resolveHooks defaultNS refs shared defaults imageOSFamily ;;
      match r with inr err => Ret (inr err) | inl l => Ret (inl (hook :: l)) end
    end
  end.

Definition resolveMachineHooks (machine : Machine) (claim : MachineClaim) (osImage : option resolvedImage)
  : go (list ResolvedHook + GoErr) :=
  match mergeParams (imageParamsOf osImage) (cl_Params (claim_Spec claim)) with
  | inr err => Ret (inr (ValidationError "merging posthook params: %v" [emsg err]))
  | inl merged =>
    let '(imageName, targetDisk, imageOSFamily, imageNS, imageRefs) :=
      match osImage with
      | Some i => (Name (ri_image i), ri_targetDisk i, EffectiveOSFamily (image_Spec (ri_image i)),
                   Namespace (ri_image i), img_PostHookRefs (image_Spec (ri_image i)))
      | None => ("", "", "", "", [])
      end in
    let shared := <[PostHookReservedParamTargetDisk := vstring targetDisk]>
      (<[PostHookReservedParamImageName := vstring imageName]>
      (<[PostHookReservedParamMachineName := vstring (Name machine)]> merged)) in
    let defaults := deriveBuiltinDefaults osImage in
    r <- resolveHooks imageNS imageRefs shared defaults imageOSFamily ;;
    match r with
    | inr err => Ret (inr err)
    | inl imageHooks =>
      r <- (match cl_PostHookRefs (claim_Spec claim), imageRefs, osImage with
            | _ :: _ as refs, _, _ => resolveHooks (Namespace machine) refs shared defaults imageOSFamily
            | [], [], Some _ =>
              resolveHooks ManagerNamespace [mkNameRef "" DefaultFinalizeHookName] shared defaults imageOSFamily
            | _, _, _ => Ret (inl [])
            end) ;;
      match r with
      | inr err => Ret (inr err)
      | inl machineHooks => Ret (inl (imageHooks ++ machineHooks))
      end
    end
  end.

(** *** Slots *)

(** [lazySiteResolution]: the memo of the first [Resolve]. *)
Definition lazySiteResolution : Type := option (Resolution + GoErr).

Definition resolve (machine : Machine) (site : lazySiteResolution) : go ((Resolution + GoErr) * lazySiteResolution) :=
  match site with
  | Some r => Ret (r, site)
  | None => r <- Resolve machine ;; Ret (r, Some r)
  end.

Definition JoinHostPort (host port : string) : string :=
  if existsb (fun c => Ascii.eqb c ":") (list_ascii_of_string host) then sprintf "[%s]:%s" [host; port] else sprintf "%s:%s" [host; port].

Definition resolveTorrentURL (ns imageName siteIdentity : string) (hash : InfoHash) : go (string + GoErr) :=
  let name := SeederName digest imageName siteIdentity in
  r <- Get KDeployment (mkKey ns name) ;;
  match r with
  | inr err =>
    Ret (inr (if IsNotFound err
              then NotReadyError "no seeder deployment yet for image %s at site %s" [imageName; siteIdentity]
              else wrapf "get seeder deployment %s/%s: %w" [ns; name] err))
  | inl dep =>
    match dep_Selector (dep : Deployment) with
    | None => Ret (inr (errorf "seeder deployment %s/%s has no pod selector" [ns; name]))
    | Some labels =>
      r <- ListLabels KPod ns labels ;;
      match r with
      | inr err => Ret (inr (wrapf "list pods for seeder deployment %s/%s: %w" [ns; name] err))
      | inl pods =>
        match find_first (fun pod => pod_IP pod <>s "") (pods : list Pod) with
        | Some pod =>
          Ret (inl (sprintf "http://%s/torrents/%s"
                      [JoinHostPort (pod_IP pod) (show_dec TorrentHTTPPort); InfoHash_String hash]))
        | None => Ret (inr (NotReadyError "no ready seeder pod yet for image %s at site %s" [imageName; siteIdentity]))
        end
      end
    end
  end.

Definition buildTorrent (machine : Machine) (image : Image) (ref : NameRef) (site : lazySiteResolution)
  : go ((DeployTorrent + GoErr) * lazySiteResolution) :=
  let ns := resolveNamespace ref (Namespace image) in
  r <- Get KContent (mkKey ns (nr_Name ref)) ;;
  match r with
  | inr err =>
    Ret (inr (if IsNotFound err then NotReadyError "partitioncontent %s/%s not found" [ns; nr_Name ref]
              else wrapf "get partitioncontent %s/%s: %w" [ns; nr_Name ref] err), site)
  | inl pc =>
    let pc : PartitionContent := pc in
    if negb (IsStatusConditionTrue (pc_Conditions (content_Status pc)) PartitionContentConditionReady) then
      Ret (inr (NotReadyError "partitioncontent %s/%s is not Ready yet" [ns; nr_Name ref]), site)
    else
    '(siteRes, site) <- resolve machine site ;;
    match siteRes with
    | inr err => Ret (inr (ValidationError "resolving machine's seeder placement: %v" [emsg err]), site)
    | inl siteRes =>
      if negb (HasSeeder siteRes) then
        Ret (inr (NotReadyError "machine's Site %s has no seeding subnet configured, but image %s/%s needs one for partitioncontent %s"
                    [SiteIdentity_ siteRes; Namespace image; Name image; nr_Name ref]), site)
      else if pc_InfoHash (content_Status pc) =s "" then
        Ret (inr (NotReadyError "partitioncontent %s/%s has not reported its info hash yet" [ns; nr_Name ref]), site)
      else match ParseInfoHash (pc_InfoHash (content_Status pc)) with
      | inr err =>
        Ret (inr (wrapf "partitioncontent %s/%s: status.infoHash is not a valid content hash: %w" [ns; nr_Name ref] err), site)
      | inl hash =>
        url <- resolveTorrentURL (Namespace image) (Name image) (SiteIdentity_ siteRes) hash ;;
        match url with
        | inr err => Ret (inr err, site)
        | inl url => Ret (inl (mkDeployTorrent url (InfoHash_String hash)), site)
        end
      end
    end
  end.

Definition buildSlot (machine : Machine) (image : Image) (s : ImageSlot) (targetDisk : string) (site : lazySiteResolution)
  : go ((DeploySlot + GoErr) * lazySiteResolution) :=
  let slot := mkDeploySlot (is_Number s) (partitionDevicePath targetDisk (is_Number s)) in
  match is_ContentRef s with
  | Some ref =>
    '(torrent, site) <- buildTorrent machine image ref site ;;
    match torrent with
    | inr err => Ret (inr err, site)
    | inl torrent => Ret (inl (slot (Some torrent) None None), site)
    end
  | None =>
    if is_Role s =s PartitionRoleSwap then Ret (inl (slot None None (Some (mkDeploySwap (is_UUID s)))), site)
    else Ret (inl (slot None (Some (mkDeployMkfs (is_FSType s) "" "")) None), site)
  end.

Fixpoint build_slots (machine : Machine) (image : Image) (slots : list ImageSlot) (targetDisk : string)
    (site : lazySiteResolution) : go ((list DeploySlot + GoErr) * lazySiteResolution) :=
  match slots with
  | [] => Ret (inl [], site)
  | s :: rest =>
    '(slot, site) <- buildSlot machine image s targetDisk site ;;
    match slot with
    | inr err => Ret (inr (wrapf "image %s/%s slot %d: %w" [Namespace image; Name image; show_dec (is_Number s)] err), site)
    | inl slot =>
      '(l, site) <- build_slots machine image rest targetDisk site ;;
      match l with
      | inr err => Ret (inr err, site)
      | inl l => Ret (inl (slot :: l), site)
      end
    end
  end.

Definition buildSlots (machine : Machine) (image : Image) (targetDisk : string) (site : lazySiteResolution)
  : go ((list DeploySlot + GoErr) * lazySiteResolution) :=
  build_slots machine image (lay_Slots (img_Layout (image_Spec image))) targetDisk site.

(** *** The plan *)

Definition getMachineHardware (machine : Machine) : go (MachineHardware + GoErr) :=
  r <- Get KHardware (mkKey (Namespace machine) (Name machine)) ;;
  match r with
  | inr err =>
    Ret (inr (if IsNotFound err
              then NotReadyError "machinehardware %s/%s not found yet" [Namespace machine; Name machine]
              else wrapf "get machinehardware %s/%s: %w" [Namespace machine; Name machine] err))
  | inl hw => Ret (inl hw)
  end.

Definition resolveImage (machine : Machine) (ref : NameRef) (hints : option TargetDiskHints)
    (disks : list MachineHardwareDisk) (label : string) (site : lazySiteResolution) (withSlots : bool)
  : go ((resolvedImage + GoErr) * lazySiteResolution) :=
  let ns := resolveNamespace ref (Namespace machine) in
  r <- Get KImage (mkKey ns (nr_Name ref)) ;;
  match r with
  | inr err =>
    Ret (inr (if IsNotFound err then NotReadyError "%s: image %s/%s not found" [label; ns; nr_Name ref]
              else wrapf "%s: get image %s/%s: %w" [label; ns; nr_Name ref] err), site)
  | inl image =>
    let image : Image := image in
    if img_State (image_Status image) <>s ImageStateReady then
      Ret (inr (NotReadyError "%s: image %s/%s is not Ready yet" [label; ns; nr_Name ref]), site)
    else match resolveDisk disks hints label with
    | inr err => Ret (inr err, site)
    | inl disk =>
      '(slots, site) <- (if withSlots then buildSlots machine image (d_DeviceName disk) site else Ret (inl [], site)) ;;
      match slots with
      | inr err => Ret (inr err, site)
      | inl slots => Ret (inl (mkResolved ref image (d_DeviceName disk) slots), site)
      end
    end
  end.

(** The OS image, when the claim names one. *)
Definition resolve_os (machine : Machine) (claim : MachineClaim) (disks : list MachineHardwareDisk)
    (site : lazySiteResolution) (withSlots : bool) : go ((option resolvedImage + GoErr) * lazySiteResolution) :=
  match cl_ImageRef (claim_Spec claim) with
  | None => Ret (inl None, site)
  | Some ref =>
    '(r, site) <- resolveImage machine ref (cl_TargetDisk (claim_Spec claim)) disks "OS image" site withSlots ;;
    match r with
    | inr err => Ret (inr err, site)
    | inl i => Ret (inl (Some i), site)
    end
  end.

Definition data_label (i : Z) : string := sprintf "dataImages[%d]" [show_dec i].

Fixpoint resolve_data (machine : Machine) (i : Z) (dataImages : list MachineDataImage) (disks : list MachineHardwareDisk)
    (site : lazySiteResolution) (withSlots : bool) : go ((list resolvedImage + GoErr) * lazySiteResolution) :=
  match dataImages with
  | [] => Ret (inl [], site)
  | di :: rest =>
    '(r, site) <- resolveImage machine (di_ImageRef di) (di_TargetDisk di) disks (data_label i) site withSlots ;;
    match r with
    | inr err => Ret (inr err, site)
    | inl resolved =>
      '(l, site) <- resolve_data machine (i + 1) rest disks site withSlots ;;
      match l with
      | inr err => Ret (inr err, site)
      | inl l => Ret (inl (resolved :: l), site)
      end
    end
  end.

Fixpoint data_selections (disks : list MachineHardwareDisk) (i : Z) (l : list resolvedImage) : list Selection :=
  match l with
  | [] => []
  | r :: l => mkSelection (data_label i) (diskForSelection disks (ri_targetDisk r)) :: data_selections disks (i + 1) l
  end.

Definition selections (disks : list MachineHardwareDisk) (osImage : option resolvedImage) (dataImages : list resolvedImage)
  : list Selection :=
  map (fun r => mkSelection "OS image" (diskForSelection disks (ri_targetDisk r))) (option_list osImage)
  ++ data_selections disks 0 dataImages.

Definition data_images (claim : MachineClaim) : list MachineDataImage := default [] (cl_DataImages (claim_Spec claim)).

Definition nothing_to_deploy (claim : option MachineClaim) : bool :=
  match claim with
  | None => true
  | Some c => match cl_ImageRef (claim_Spec c), data_images c with None, [] => true | _, _ => false end
  end.

Definition nothingError : GoErr :=
  ValidationError "machine has no bound claim with an OS image or data images to deploy" [].

(** The plan's own literal. *)
Definition plan_of (machine : Machine) (claim : MachineClaim) (run : DeployRun) (osImage : option resolvedImage)
    (dataImages : list resolvedImage) (hooks : list ResolvedHook) : DeployPlan :=
  mkPlan AgentSchemaVersion (Name run) (UID run) (Name machine)
    (match osImage with Some i => ri_targetDisk i | None => "" end)
    (match osImage with Some i => lay_SfdiskJSON (img_Layout (image_Spec (ri_image i))) | None => "" end)
    (match osImage with Some i => ri_slots i | None => [] end)
    (zip_with (fun di r => mkDataImagePlan (di_ImageRef di) (ri_targetDisk r)
       (lay_SfdiskJSON (img_Layout (image_Spec (ri_image r)))) (ri_slots r)) (data_images claim) dataImages)
    hooks (effectiveAfterDeploy claim)
    (ResolveMaxUploads (le_MaxUploads LeecherEzio) (claim_ezio ez_MaxUploads claim))
    (ResolveMaxConnections (le_MaxConnections LeecherEzio) (claim_ezio ez_MaxConnections claim))
    (claim_ezio ez_CacheSizeMB claim) (claim_ezio ez_AioThreads claim) (claim_ezio ez_Port claim).

Definition hooksHash (hooks : list ResolvedHook) : string + GoErr :=
  match Marshal hooks with
  | inr err => inr (wrapf "marshaling resolved hooks: %w" [] err)
  | inl raw => inl (digest raw)
  end.

Definition buildSnapshot (osImage : option resolvedImage) (dataImages : list resolvedImage) (hooks : list ResolvedHook)
  : Snapshot + GoErr :=
  match hooksHash hooks with
  | inr err => inr (wrapf "computing hooks hash: %w" [] err)
  | inl hash => inl (mkSnapshot (buildDisks osImage dataImages) hash)
  end.

Definition Build (machine : Machine) (claim : option MachineClaim) (run : DeployRun) : go (DeployPlan * Snapshot + GoErr) :=
  match claim with
  | None => Ret (inr nothingError)
  | Some claim =>
    if nothing_to_deploy (Some claim) then Ret (inr nothingError) else
    hardware <- getMachineHardware machine ;;
    match hardware with
    | inr err => Ret (inr err)
    | inl hardware =>
      let disks := hw_Disks (hw_Spec hardware) in
      '(os, site) <- resolve_os machine claim disks None true ;;
      match os with
      | inr err => Ret (inr err)
      | inl osImage =>
        '(data, _) <- resolve_data machine 0 (data_images claim) disks site true ;;
        match data with
        | inr err => Ret (inr err)
        | inl dataImages =>
          match checkDistinctDisks (selections disks osImage dataImages) with
          | Some err => Ret (inr err)
          | None =>
            hooks <- resolveMachineHooks machine claim osImage ;;
            match hooks with
            | inr err => Ret (inr err)
            | inl hooks =>
              let plan := plan_of machine claim run osImage dataImages hooks in
              match Validate plan with
              | Some err => Ret (inr (ValidationError "built plan failed validation: %v" [emsg err]))
              | None =>
                match buildSnapshot osImage dataImages hooks with
                | inr err => Ret (inr err)
                | inl snapshot => Ret (inl (plan, snapshot))
                end
              end
            end
          end
        end
      end
    end
  end.

Definition BuildSnapshot (machine : Machine) (claim : option MachineClaim) : go (Snapshot + GoErr) :=
  match claim with
  | None => Ret (inr nothingError)
  | Some claim =>
    if nothing_to_deploy (Some claim) then Ret (inr nothingError) else
    hardware <- getMachineHardware machine ;;
    match hardware with
    | inr err => Ret (inr err)
    | inl hardware =>
      let disks := hw_Disks (hw_Spec hardware) in
      '(os, _) <- resolve_os machine claim disks None false ;;
      match os with
      | inr err => Ret (inr err)
      | inl osImage =>
        '(data, _) <- resolve_data machine 0 (data_images claim) disks None false ;;
        match data with
        | inr err => Ret (inr err)
        | inl dataImages =>
          hooks <- resolveMachineHooks machine claim osImage ;;
          match hooks with
          | inr err => Ret (inr err)
          | inl hooks => Ret (buildSnapshot osImage dataImages hooks)
          end
        end
      end
    end
  end.

End Builder.
