(* ===== verification/PlanSafety.v ===== *)
(** * PlanSafety: what a built plan is

    Theorems about [PlanBuild]: a plan the builder returns is one the agent
    accepts, for the run and machine it was asked for, on pairwise different
    disks of the inspected inventory; the builder only reads; and the snapshot
    that detects a hooks-only change is the one the full build records, computed
    without looking at any seeder. *)

From S2P Require Import Prelude Text Api AgentApi Effects Workloads Cluster Store DiskMatch SiteDerive PlanBuild AgentServer.
Local Open Scope string_scope.
Local Open Scope list_scope.
Local Open Scope Z_scope.

Definition is_read (e : eff) : Prop :=
  match e with EGet _ _ | EListLabels _ _ _ => True | _ => False end.

(** A read that finds out where content is seeded. *)
Definition seeder_read (e : eff) : bool :=
  match e with
  | EGet (KSubnet | KSite | KContent | KDeployment | KPod) _ | EListLabels _ _ _ => true
  | _ => false
  end.

(** *** Disks *)

Lemma resolveDisk_ok disks hints label d :
  resolveDisk disks hints label = inl d -> Match disks hints = inl d.
Proof. unfold resolveDisk. destruct (Match disks hints) as [?|[? ?]]; naive_solver. Qed.

Lemma Match_elem disks hints d : Match disks hints = inl d -> d ∈ disks.
Proof.
  intros H. pose proof (Match_verdict disks hints) as Hv. rewrite H in Hv. cbn in Hv.
  unfold selected in Hv. destruct (List.filter _ disks) as [|x [|y l]] eqn:E; try done.
  injection Hv as ->. apply list_elem_of_In. eapply (filter_In _ x disks). rewrite E. by left.
Qed.

Lemma omap_NoDup {A B} (f : A -> option B) l :
  NoDup (omap f l) -> Forall (fun x => is_Some (f x)) l -> NoDup l.
Proof.
  induction l as [|x l IH]; [constructor|]. intros Hnd [[y Hy] Hf]%Forall_cons.
  cbn in Hnd. rewrite Hy in Hnd. apply NoDup_cons in Hnd as [Hn Hnd]. constructor; [|auto].
  intros Hin. apply Hn, list_elem_of_omap. eauto.
Qed.

Definition identity_of (disks : list MachineHardwareDisk) (name : string) : option string :=
  diskIdentity <$> diskForSelection disks name.

Lemma data_selections_identities disks i l :
  identities (data_selections disks i l) = omap (identity_of disks) (ri_targetDisk <$> l).
Proof.
  revert i. induction l as [|r l IH]; intros i; [done|]. unfold identities, identity_of in *. cbn.
  by rewrite IH.
Qed.

Lemma selections_identities disks os data :
  identities (selections disks os data) = omap (identity_of disks) (ri_targetDisk <$> option_list os ++ data).
Proof.
  unfold selections, identities. rewrite fmap_app, !omap_app. f_equal; [|apply data_selections_identities].
  destruct os as [r|]; [|done]. unfold identity_of. cbn. by destruct (diskForSelection _ _).
Qed.

Lemma diskForSelection_Some disks d : d ∈ disks -> is_Some (identity_of disks (d_DeviceName d)).
Proof.
  intros Hd. unfold identity_of, diskForSelection. destruct (find_first _ disks) eqn:E; [by eexists|].
  eapply find_first_None in E; [|exact Hd]. by rewrite String.eqb_refl in E.
Qed.

(** What is known of a resolved image. *)
Definition resolved_for (disks : list MachineHardwareDisk) (ref : NameRef) (hints : option TargetDiskHints)
    (i : resolvedImage) : Prop :=
  ri_ref i = ref /\ exists d, Match disks hints = inl d /\ ri_targetDisk i = d_DeviceName d.

Lemma distinct_disks disks os data :
  checkDistinctDisks (selections disks os data) = None ->
  Forall (fun i => exists ref hints, resolved_for disks ref hints i) (option_list os ++ data) ->
  NoDup (ri_targetDisk <$> option_list os ++ data).
Proof.
  unfold checkDistinctDisks, CheckDistinct. intros Hc Hf.
  destruct (check_distinct_from ∅ _) as [[? ?]|] eqn:E; [done|]. apply check_distinct_from_None in E as [Hnd _].
  rewrite selections_identities in Hnd. eapply omap_NoDup; [exact Hnd|]. apply Forall_fmap.
  eapply Forall_impl; [exact Hf|]. intros i (ref & hints & _ & d & Hm & E). cbn. rewrite E.
  by eapply diskForSelection_Some, Match_elem.
Qed.

(** A slot of the plan against the slot of the layout it was built from. *)
Definition slot_for (target : string) (s : ImageSlot) (slot : DeploySlot) : Prop :=
  slot_Number slot = is_Number s /\ slot_Device slot = partitionDevicePath target (is_Number s) /\
  (is_Some (slot_Torrent slot) <-> is_Some (is_ContentRef s)).

Section Plans.
Context `{ApiMachinery} {V T : Type} (vstring : string -> V).
Context (Unmarshal : string -> gmap string V + GoErr).
Context (Parse : string -> T + GoErr) (Execute : T -> gmap string V -> string + GoErr).
Context (Marshal : list ResolvedHook -> string + GoErr) (digest : string -> string).
Context (ManagerNamespace : string) (LeecherEzio : LeecherEzioConfig).

Local Abbreviation resolveImage := (PlanBuild.resolveImage digest).
Local Abbreviation buildSlots := (PlanBuild.buildSlots digest).
Local Abbreviation resolve_os := (PlanBuild.resolve_os digest).
Local Abbreviation resolve_data := (PlanBuild.resolve_data digest).
Local Abbreviation hooks_of := (PlanBuild.resolveMachineHooks vstring Unmarshal Parse Execute ManagerNamespace).
Local Abbreviation buildSnapshot := (PlanBuild.buildSnapshot Marshal digest).
Local Abbreviation Build :=
  (PlanBuild.Build vstring Unmarshal Parse Execute Marshal digest ManagerNamespace LeecherEzio).
Local Abbreviation BuildSnapshot :=
  (PlanBuild.BuildSnapshot vstring Unmarshal Parse Execute Marshal digest ManagerNamespace).

(** *** Reads *)

Lemma resolveHook_reads ns ref shared defaults fam :
  calls (fun e => is_read e /\ seeder_read e = false)
    (resolveHook vstring Parse Execute ns ref shared defaults fam).
Proof.
  assert (Hs : forall i steps data, calls (fun e => is_read e /\ seeder_read e = false)
    (resolve_steps Parse Execute i (resolveNamespace ref ns) data defaults steps)).
  { intros i steps. revert i. induction steps as [|st steps IH]; intros i data; cbn [resolve_steps]; [done|].
    apply calls_bind; [repeat calls_step|]. intros [s|err]; [|done].
    apply calls_bind; [apply IH|]. intros l. by destruct l. }
  unfold resolveHook. cbv zeta. apply calls_bind; [by repeat calls_step|]. intros [hook|err]; [|by repeat calls_step].
  repeat (lazymatch goal with |- calls _ (bind (resolve_steps _ _ _ _ _ _ _) _) => fail | _ => calls_step end).
  apply calls_bind; [apply Hs|]. intros r. by destruct r.
Qed.

Lemma resolveHooks_reads ns refs shared defaults fam :
  calls (fun e => is_read e /\ seeder_read e = false)
    (resolveHooks vstring Parse Execute ns refs shared defaults fam).
Proof.
  induction refs as [|ref refs IH]; cbn [resolveHooks]; [done|].
  apply calls_bind; [apply resolveHook_reads|]. intros [hook|err]; [|done].
  apply calls_bind; [apply IH|]. intros l. by destruct l.
Qed.

Lemma hooks_reads m c os : calls (fun e => is_read e /\ seeder_read e = false) (hooks_of m c os).
Proof.
  unfold hooks_of. destruct (mergeParams _ _ _); [|done].
  destruct os as [i|]; cbv beta iota zeta; (apply calls_bind; [apply resolveHooks_reads|]);
    (intros [hooks|err]; [|done]); (apply calls_bind; [|intros r; by destruct r]);
    repeat case_match; (apply resolveHooks_reads || done).
Qed.

Lemma resolve_reads m site : calls is_read (resolve m site).
Proof. repeat calls_step. Qed.

Lemma build_slots_reads m image slots target site : calls is_read (build_slots digest m image slots target site).
Proof.
  revert site. induction slots as [|s slots IH]; intros site; cbn [build_slots]; [done|].
  apply calls_bind; [by repeat calls_step|]. intros [[slot|err] site']; [|done].
  apply calls_bind; [apply IH|]. intros [[l|err] site2]; done.
Qed.

Lemma resolveImage_reads P m ref hints disks label site (b : bool) :
  (forall k, k = KImage -> forall key, P (EGet k key)) -> (b = true -> forall e, is_read e -> P e) ->
  calls P (resolveImage m ref hints disks label site b).
Proof.
  intros Hi Hb. unfold resolveImage. cbv zeta. apply calls_bind; [repeat calls_step; by apply Hi|].
  intros [image|err]; [|done]. case_match; [done|]. destruct (resolveDisk _ _ _); [|done].
  apply calls_bind; [|intros [[l|err] s2]; done]. destruct b; [|done].
  eapply calls_impl; [by apply Hb|]. apply build_slots_reads.
Qed.

Lemma resolve_data_reads P m i l disks site (b : bool) :
  (forall k, k = KImage -> forall key, P (EGet k key)) -> (b = true -> forall e, is_read e -> P e) ->
  calls P (resolve_data m i l disks site b).
Proof.
  intros Hi Hb. revert i site. induction l as [|di l IH]; intros i site; cbn [PlanBuild.resolve_data]; [done|].
  apply calls_bind; [by apply resolveImage_reads|]. intros [[r|err] s2]; [|done].
  apply calls_bind; [apply IH|]. intros [[r2|err] s3]; done.
Qed.

Lemma resolve_os_reads P m c disks site (b : bool) :
  (forall k, k = KImage -> forall key, P (EGet k key)) -> (b = true -> forall e, is_read e -> P e) ->
  calls P (resolve_os m c disks site b).
Proof.
  intros Hi Hb. unfold resolve_os. case_match; [|done].
  apply calls_bind; [by apply resolveImage_reads|]. intros [[r|err] s2]; done.
Qed.

Lemma Build_reads m claim run : calls is_read (Build m claim run).
Proof.
  unfold Build. destruct claim as [c|]; [|done]. case_match; [done|].
  apply calls_bind; [by repeat calls_step|]. intros [hw|err]; [|done]. cbv zeta.
  apply calls_bind; [by apply resolve_os_reads; [intros k ->|]|]. intros [[os|err] site]; [|done].
  apply calls_bind; [by apply resolve_data_reads; [intros k ->|]|]. intros [[data|err] site']; [|done].
  case_match; [done|]. apply calls_bind.
  { eapply calls_impl; [|apply hooks_reads]. by intros e [? _]. }
  intros [hooks|err]; [|done]. by repeat case_match.
Qed.

Lemma BuildSnapshot_reads m claim : calls (fun e => is_read e /\ seeder_read e = false) (BuildSnapshot m claim).
Proof.
  unfold BuildSnapshot. destruct claim as [c|]; [|done]. case_match; [done|].
  apply calls_bind; [by repeat calls_step|]. intros [hw|err]; [|done]. cbv zeta.
  apply calls_bind; [by apply resolve_os_reads; [intros k ->|]|]. intros [[os|err] site]; [|done].
  apply calls_bind; [by apply resolve_data_reads; [intros k ->|]|]. intros [[data|err] site']; [|done].
  apply calls_bind; [apply hooks_reads|]. intros [hooks|err]; done.
Qed.

(** *** Answers *)

Lemma buildSlot_answers m image s target site :
  answers (buildSlot digest m image s target site)
    (fun r => match r.1 with inl slot => slot_for target s slot | inr _ => True end).
Proof.
  unfold buildSlot, slot_for. cbv zeta. destruct (is_ContentRef s) as [ref|].
  - eapply answers_bind; [apply answers_any|]. intros [[t|err] s2] _; cbn; [|done].
    split_and!; done.
  - destruct (is_Role s =s PartitionRoleSwap); cbn; split_and!; try done; by split; intros [? ?].
Qed.

Lemma build_slots_answers m image slots target site :
  answers (build_slots digest m image slots target site)
    (fun r => match r.1 with inl l => Forall2 (slot_for target) slots l | inr _ => True end).
Proof.
  revert site. induction slots as [|s slots IH]; intros site; cbn [build_slots]; [by constructor|].
  eapply answers_bind; [apply buildSlot_answers|]. intros [[slot|err] s2] Hs; [|done].
  eapply answers_bind; [apply IH|]. intros [[l|err] s3] Hl; [|done]. by constructor.
Qed.

(** A resolved image with the slots of its layout. *)
Definition built_for (disks : list MachineHardwareDisk) (ref : NameRef) (hints : option TargetDiskHints)
    (i : resolvedImage) : Prop :=
  resolved_for disks ref hints i /\
  Forall2 (slot_for (ri_targetDisk i)) (lay_Slots (img_Layout (image_Spec (ri_image i)))) (ri_slots i).

Lemma resolveImage_answers m ref hints disks label site :
  answers (resolveImage m ref hints disks label site true)
    (fun r => match r.1 with inl i => built_for disks ref hints i | inr _ => True end).
Proof.
  unfold resolveImage. cbv zeta. eapply answers_bind; [apply answers_any|]. intros [image|err] _; [|done].
  case_match; [done|]. destruct (resolveDisk disks hints label) as [d|] eqn:Ed; [|done].
  eapply answers_bind; [apply build_slots_answers|]. intros [[l|err] s2] Hl; [|done]. cbn in Hl |- *.
  split; [|exact Hl]. split; [done|]. exists d. split; [by eapply resolveDisk_ok|done].
Qed.

Lemma resolve_data_answers m i l disks site :
  answers (resolve_data m i l disks site true)
    (fun r => match r.1 with
     | inl rs => Forall2 (fun di => built_for disks (di_ImageRef di) (di_TargetDisk di)) l rs
     | inr _ => True
     end).
Proof.
  revert i site. induction l as [|di l IH]; intros i site; cbn [PlanBuild.resolve_data]; [by constructor|].
  eapply answers_bind; [apply resolveImage_answers|]. intros [[r|err] s2] Hr; [|done].
  eapply answers_bind; [apply IH|]. intros [[rs|err] s3] Hrs; [|done]. by constructor.
Qed.

(** The OS image against the claim. *)
Definition os_built (disks : list MachineHardwareDisk) (c : MachineClaim) (os : option resolvedImage) : Prop :=
  match cl_ImageRef (claim_Spec c), os with
  | None, None => True
  | Some ref, Some i => built_for disks ref (cl_TargetDisk (claim_Spec c)) i
  | _, _ => False
  end.

Lemma resolve_os_answers m c disks site :
  answers (resolve_os m c disks site true)
    (fun r => match r.1 with inl os => os_built disks c os | inr _ => True end).
Proof.
  unfold resolve_os, os_built. destruct (cl_ImageRef (claim_Spec c)) as [ref|]; [|done].
  eapply answers_bind; [apply resolveImage_answers|]. intros [[i|err] s2] Hi; done.
Qed.

(** The images of a claim, as the builder resolved them. *)
Definition built (disks : list MachineHardwareDisk) (c : MachineClaim) (os : option resolvedImage)
    (data : list resolvedImage) : Prop :=
  os_built disks c os /\
  Forall2 (fun di => built_for disks (di_ImageRef di) (di_TargetDisk di)) (data_images c) data.

Lemma built_images disks c os data : built disks c os data ->
  Forall (fun i => exists ref hints, resolved_for disks ref hints i) (option_list os ++ data).
Proof.
  intros [Hos Hd]. apply Forall_app. split.
  - unfold os_built in Hos. destruct os as [i|]; [|done]. destruct (cl_ImageRef (claim_Spec c)); [|done].
    destruct Hos as [Hr _]. constructor; [eauto|done].
  - induction Hd as [|di i l l' [Hr _] _ IH]; [done|]. constructor; eauto.
Qed.

(** The disks a plan writes, the OS image's first. *)
Definition plan_disks (os : option resolvedImage) (data : list resolvedImage) : list string :=
  ri_targetDisk <$> option_list os ++ data.

Lemma Build_plan m claim run tr plan snap :
  runs (Build m claim run) tr (inl (plan, snap)) ->
  good_plan plan /\
  plan_RunName plan = Name run /\ plan_RunUID plan = UID run /\ plan_MachineName plan = Name m /\
  Forall (fun x => is_read (projT1 x)) tr /\
  exists c disks os data hooks,
    claim = Some c /\ built disks c os data /\ plan = plan_of LeecherEzio m c run os data hooks /\
    NoDup (plan_disks os data) /\
    (fun d => (rd_ImageRef d, rd_TargetDisk d)) <$> snap_ResolvedDisks snap =
      (fun i => (ri_ref i, ri_targetDisk i)) <$> option_list os ++ data.
Proof.
  intros Hrun. pose proof (calls_runs _ _ _ _ (Build_reads m claim run) Hrun) as Hreads. revert Hrun. unfold Build.
  destruct claim as [c|]; [|by intros [_ ?]]. destruct (nothing_to_deploy (Some c)); [by intros [_ ?]|].
  intros (t1 & t2 & [hw|err] & _ & _ & Hrun)%runs_bind; [|by destruct Hrun as [_ ?]]. cbv zeta in Hrun.
  apply runs_bind in Hrun as (t3 & t4 & [[os|err] site] & _ & Ho & Hrun); [|by destruct Hrun as [_ ?]].
  apply runs_bind in Hrun as (t5 & t6 & [[data|err] site'] & _ & Hd & Hrun); [|by destruct Hrun as [_ ?]].
  destruct (checkDistinctDisks _) eqn:Ec; [by destruct Hrun as [_ ?]|].
  apply runs_bind in Hrun as (t7 & t8 & [hooks|err] & _ & _ & Hrun); [|by destruct Hrun as [_ ?]].
  destruct (Validate _) eqn:Ev; [by destruct Hrun as [_ ?]|].
  destruct (buildSnapshot os data hooks) as [sn|err] eqn:Es; [|by destruct Hrun as [_ ?]].
  destruct Hrun as [_ [= -> ->]]. apply Validate_good in Ev.
  assert (Hb : built (hw_Disks (hw_Spec hw)) c os data).
  { split.
    - exact (answers_runs _ _ _ _ (resolve_os_answers m c _ None) Ho).
    - exact (answers_runs _ _ _ _ (resolve_data_answers m 0 (data_images c) _ site) Hd). }
  split_and!; try done. eexists c, _, os, data, hooks. split_and!; [done|exact Hb|done| |].
  - eapply distinct_disks; [exact Ec|]. by eapply built_images.
  - unfold PlanBuild.buildSnapshot, buildDisks in Es. destruct (hooksHash _ _ _); [|done].
    injection Es as <-. cbn. by rewrite <- list_fmap_compose.
Qed.

(** A plan the builder returns is one the agent accepts.  It is addressed to
    the run and machine of the request; every image of the claim was resolved to
    a disk of the inspected hardware by its own hints, no two to the same disk;
    every partition of an image's layout is written on that image's own disk,
    from a torrent exactly when the layout refers to content; the snapshot lists
    the same images and disks in the same order.  To get there the builder only
    reads. *)
Theorem Build_sound m claim run tr plan snap :
  runs (Build m claim run) tr (inl (plan, snap)) ->
  good_plan plan /\
  plan_RunName plan = Name run /\ plan_RunUID plan = UID run /\ plan_MachineName plan = Name m /\
  Forall (fun x => is_read (projT1 x)) tr /\
  exists c disks os data hooks,
    claim = Some c /\ built disks c os data /\ plan = plan_of LeecherEzio m c run os data hooks /\
    NoDup (plan_disks os data) /\
    (fun d => (rd_ImageRef d, rd_TargetDisk d)) <$> snap_ResolvedDisks snap =
      (fun i => (ri_ref i, ri_targetDisk i)) <$> option_list os ++ data.
Proof. apply Build_plan. Qed.

(** *** The builder under the agent server *)

(** The builder in the place of the calls to it. *)
Definition with_builder (e : eff) : go (resp e) :=
  match e return go (resp e) with
  | EBuild m claim run => Build m claim run
  | EBuildSnapshot m claim => BuildSnapshot m claim
  | e => call (R := resp) e
  end.

(** C8. The two components together, the plan builder behind the agent server:
    a plan that a poll hands out is one the agent's own check accepts, and it is
    addressed to the machine and the run it was asked for.  In the same request
    the session index gave exactly one Machine for the hash of the presented
    bearer token, a clock reading was before that session's expiry, the DeployRun
    was read at the Machine's current run reference (in the Machine's namespace
    unless the reference gives one) in a phase in which the agent is expected to
    work on it, and the plan names that Machine and that run's name and UID. *)
Theorem served_plan_is_accepted HashToken s r tr action poll p
    (Hrun : runs (link with_builder (handleNext HashToken s r)) tr (NextOK action poll (Some p))) :
  action = ActionDeploy /\ Validate p = None /\
  exists token (m : Machine) session now (ref : NameRef) (run : DeployRun),
    bearerToken (Authorization r) = Some token /\
    ev (EListField KMachine MachineSessionTokenHashIndexField (HashToken token)) (inl [m]) ∈ tr /\
    AgentSession (Status m) = Some session /\ ev ENow now ∈ tr /\ now < as_ExpiresAt session /\
    CurrentRunRef (Status m) = Some ref /\
    ev (EGet KRun (mkKey (if nr_Namespace ref =s "" then Namespace m else nr_Namespace ref) (nr_Name ref))) (inl run) ∈ tr /\
    deployRunExpectsAgent (Phase (run_Status run)) = true /\
    plan_MachineName p = Name m /\ plan_RunName p = Name run /\ plan_RunUID p = UID run.
Proof.
  apply runs_link_in in Hrun as (tr' & Hrun & Hf). apply handleNext_plan in Hrun as [Ha Hp].
  destruct (Hp p eq_refl) as (token & m & session & now & ref & run & claim & snap & Ht & Hl & Hs & Hn & Hlt & Hc & He & Hg & Hb).
  split; [by apply Ha|]. rewrite Forall_forall in Hf.
  destruct (Hf _ Hb) as (t & Hbuild & _). cbn in Hbuild.
  apply Build_plan in Hbuild as (Hgood & Hname & Huid & Hm & _). split; [by apply Validate_good|].
  exists token, m, session, now, ref, run. split_and!; try done.
  - apply Hf in Hl as (u & (x & u' & -> & -> & <-) & Hin). apply Hin. left.
  - apply Hf in Hn as (u & (x & u' & -> & -> & <-) & Hin). apply Hin. left.
  - apply Hf in Hg as (u & (x & u' & -> & -> & <-) & Hin). apply Hin. left.
Qed.

(** *** The snapshot without the seeders *)

Definition strip (i : resolvedImage) : resolvedImage := mkResolved (ri_ref i) (ri_image i) (ri_targetDisk i) [].

Lemma strip_snapshot os data hooks :
  buildSnapshot (strip <$> os) (strip <$> data) hooks = buildSnapshot os data hooks.
Proof.
  unfold PlanBuild.buildSnapshot, buildDisks. destruct (hooksHash _ _ _); [|done]. do 2 f_equal.
  rewrite !map_app. f_equal; [by destruct os|]. induction data as [|i l IH]; [done|]. cbn in *. by rewrite IH.
Qed.

Lemma strip_hooks m c os : hooks_of m c (strip <$> os) = hooks_of m c os.
Proof. by destruct os. Qed.

Lemma resolveImage_strip w m ref hints disks label site i site' s :
  interp w (resolveImage m ref hints disks label site true) = Some (inl i, site') ->
  interp w (resolveImage m ref hints disks label s false) = Some (inl (strip i), s).
Proof.
  unfold resolveImage. cbv zeta. rewrite !interp_bind. destruct (interp w _) as [[image|err]|]; [|done|done].
  case_match; [done|]. destruct (resolveDisk disks hints label) as [d|]; [|done].
  rewrite !interp_bind. cbn [interp]. destruct (interp w (PlanBuild.buildSlots _ _ _ _ _)) as [[[l|err] s2]|]; [|done|done].
  cbn. by intros [= <- <-].
Qed.

Lemma resolve_data_strip w m i l disks site rs site' s :
  interp w (resolve_data m i l disks site true) = Some (inl rs, site') ->
  interp w (resolve_data m i l disks s false) = Some (inl (strip <$> rs), s).
Proof.
  revert i site rs site'. induction l as [|di l IH]; intros i site rs site'; cbn [PlanBuild.resolve_data].
  { cbn. by intros [= <- <-]. }
  rewrite !interp_bind.
  destruct (interp w (resolveImage _ _ _ _ _ site true)) as [[[r|err] s2]|] eqn:Er; [|done|done].
  rewrite (resolveImage_strip _ _ _ _ _ _ _ _ _ s Er), !interp_bind.
  destruct (interp w (resolve_data _ _ _ _ s2 true)) as [[[rs'|err] s3]|] eqn:El; [|done|done].
  rewrite (IH _ _ _ _ El). cbn. by intros [= <- <-].
Qed.

Lemma resolve_os_strip w m c disks site os site' s :
  interp w (resolve_os m c disks site true) = Some (inl os, site') ->
  interp w (resolve_os m c disks s false) = Some (inl (strip <$> os), s).
Proof.
  unfold resolve_os. destruct (cl_ImageRef (claim_Spec c)) as [ref|]; [|cbn; by intros [= <- <-]].
  rewrite !interp_bind. destruct (interp w (resolveImage _ _ _ _ _ site true)) as [[[r|err] s2]|] eqn:Er; [|done|done].
  rewrite (resolveImage_strip _ _ _ _ _ _ _ _ _ s Er). cbn. by intros [= <- <-].
Qed.

(** C37. The cheap path agrees with the full one: against a cluster that does not
    change meanwhile, when the builder gives a plan with a snapshot, the
    snapshot-only path gives the same snapshot, so a machine is never
    redeployed because the two disagree.  Whatever the cluster answers, that
    path reads nothing about where content is seeded. *)
Theorem BuildSnapshot_agrees w m claim run plan snap :
  interp w (Build m claim run) = Some (inl (plan, snap)) ->
  interp w (BuildSnapshot m claim) = Some (inl snap) /\
  forall tr r, runs (BuildSnapshot m claim) tr r -> Forall (fun x => seeder_read (projT1 x) = false) tr.
Proof.
  intros Hb. split.
  2: { intros tr r Hr. eapply Forall_impl; [exact (calls_runs _ _ _ _ (BuildSnapshot_reads m claim) Hr)|]. by intros x []. }
  revert Hb. unfold Build, BuildSnapshot. destruct claim as [c|]; [|done]. destruct (nothing_to_deploy (Some c)); [done|].
  rewrite !interp_bind. destruct (interp w (getMachineHardware m)) as [[hw|err]|]; [|done|done]. cbv zeta.
  rewrite !interp_bind. destruct (interp w (resolve_os _ _ _ _ true)) as [[[os|err] site]|] eqn:Eo; [|done|done].
  rewrite (resolve_os_strip _ _ _ _ _ _ _ None Eo), !interp_bind.
  destruct (interp w (resolve_data _ _ _ _ _ true)) as [[[data|err] site']|] eqn:Ed; [|done|done].
  rewrite (resolve_data_strip _ _ _ _ _ _ _ _ None Ed), interp_bind.
  destruct (checkDistinctDisks _); [done|]. rewrite interp_bind, strip_hooks.
  destruct (interp w (hooks_of _ _ _)) as [[hooks|err]|]; [|done|done]. rewrite strip_snapshot.
  destruct (Validate _); [done|]. destruct (buildSnapshot os data hooks); [|done]. cbn. by intros [= _ <-].
Qed.
End Plans.

(** ** A concrete build

    One machine whose claim names an image with an ESP slot from content and a
    swap slot, in a cluster that answers each read by its kind. *)
Module Sample.
#[local] Existing Instance SimpleMeta.ops.

Definition hex40 : string := "0123456789abcdef0123456789abcdef01234567".
Definition ok (t : string) : list Condition := [mkCondition t ConditionTrue 0 "Ready" ""].

Definition disk : MachineHardwareDisk :=
  mkDisk "/dev/nvme0n1" "S1" "" "" "" 1000000000 (Some false) "" "" None.

Definition layout : ImageDiskLayout :=
  mkLayout "gpt" "{}" [mkImageSlot 1 PartitionRoleESP (Some (mkNameRef "" "esp")) "vfat" "" "" "" 1024;
                       mkImageSlot 2 PartitionRoleSwap None "" "uuid-2" "" "" 1024].

Definition image : Image :=
  mkImage (Demo.meta "img" ∅) (mkImageSpec "" None layout None []) (mkImageStatus ImageStateReady []).

Definition content : PartitionContent :=
  mkContent (Demo.meta "esp" ∅) (mkContentSpec "vfat" 0 0 0 0 (mkContentSource "" 0))
    (mkContentStatus PartitionContentStateReady hex40 None [] (ok PartitionContentConditionReady)).

Definition subnet : Subnet :=
  mkSubnet (Demo.meta "net" ∅) (mkSubnetSpec (mkNameRef "" "site") "10.0.0.0/24" "10.0.0.2" None None ∅ None)
    (mkSubnetStatus [] None).

Definition site : Site :=
  mkSite (Demo.meta "site" ∅) (mkSiteSpec (Some (mkNameRef "" "net")) (mkTracker "10.0.0.3" ""))
    (mkSiteStatus [] true "" []).

(** The shipped hook: one builtin step that needs the ESP. *)
Definition hook : PostHook :=
  mkPostHook (Demo.meta DefaultFinalizeHookName ∅)
    (mkPostHookSpec [] [mkPostHookStep "" (Some (mkBuiltinStep BuiltinStepEfibootmgr 0 ∅)) None])
    (mkPostHookStatus 1 (ok PostHookConditionValid)).

Definition claim : MachineClaim :=
  mkClaim (Demo.meta "claim" ∅)
    (mkClaimSpec "m1" None (Some (mkNameRef "" "img")) None None [] None None "")
    (mkClaimStatus "" "" None None None []).

Definition run : DeployRun :=
  mkRun (Demo.meta "m1-abcde" ∅) (mkRunSpec (mkNameRef "" "m1") None None None [] "") (mkRunStatus "" [] [] None []).

Definition get (k : kind) : obj k + GoErr :=
  match k with
  | KHardware => inl (mkHardware (Demo.meta "m1" ∅) (mkHardwareSpec [disk] [] 0 0))
  | KImage => inl image
  | KContent => inl content
  | KSubnet => inl subnet
  | KSite => inl site
  | KPostHook => inl hook
  | KDeployment => inl (mkDeployment (Demo.meta "seeder" ∅) (mkDeploymentSpec 1 "" (Some ∅) (mkTemplate ∅ ∅ (mkPodSpec "" "" ∅ None [] [] []))) 1 [])
  | _ => inr Demo.not_found
  end.

Definition pods (k : kind) : list (obj k) :=
  match k with KPod => [mkPod (Demo.meta "pod" ∅) "10.0.0.9" "Running" [] []] | _ => [] end.

Definition world (e : eff) : option (resp e) :=
  match e return option (resp e) with
  | EGet k _ => Some (get k)
  | EListLabels k _ _ => Some (inl (pods k))
  | _ => None
  end.

Definition unmarshal (s : string) : gmap string string + GoErr := inl ∅.
Definition parse (s : string) : string + GoErr := inl s.
Definition execute (t : string) (data : gmap string string) : string + GoErr := inl t.
Definition marshal (l : list ResolvedHook) : string + GoErr := inl (String.concat ";" (hook_Name <$> l)).
Definition machine : Machine := Demo.machine ∅ (Demo.status "").

Definition build : go (DeployPlan * Snapshot + GoErr) :=
  Build id unmarshal parse execute marshal id "kezio-system" (mkLeecher 0 0) machine (Some claim) run.
Definition snapshot_only : go (Snapshot + GoErr) :=
  BuildSnapshot id unmarshal parse execute marshal id "kezio-system" machine (Some claim).

(** What the build gives. *)
Definition outcome : DeployPlan * Snapshot :=
  match interp world build with Some (inl r) => r | _ => (Demo.plan, mkSnapshot [] "") end.

Example outcome_slots : map slot_Device (plan_Slots outcome.1) = ["/dev/nvme0n1p1"; "/dev/nvme0n1p2"]
  /\ map slot_Torrent (plan_Slots outcome.1)
     = [Some (mkDeployTorrent (String.append "http://10.0.0.9:8080/torrents/" hex40) hex40); None]
  /\ plan_MaxUploads outcome.1 = 3 /\ plan_MaxConnections outcome.1 = 10
  /\ map (fun h => map (fun s => step_Params s !! "part") (hook_Steps h)) (plan_Hooks outcome.1) = [[Some "1"]].
Proof. vm_compute. done. Qed.

Lemma build_outcome : interp world build = Some (inl outcome).
Proof. vm_compute. reflexivity. Qed.

End Sample.

Lemma Build_sound_witness :
  good_plan Sample.outcome.1 /\ plan_RunName Sample.outcome.1 = "m1-abcde".
Proof.
  destruct (interp_runs _ _ _ Sample.build_outcome) as (tr & Hr & _).
  rewrite (surjective_pairing Sample.outcome) in Hr.
  destruct (Build_sound _ _ _ _ _ _ _ _ _ _ _ tr _ _ Hr) as (Hg & Hn & _).
  split; [exact Hg|exact Hn].
Defined.

Lemma BuildSnapshot_agrees_witness :
  interp Sample.world Sample.snapshot_only = Some (inl Sample.outcome.2).
Proof.
  apply (BuildSnapshot_agrees id Sample.unmarshal Sample.parse Sample.execute Sample.marshal id
    "kezio-system" (mkLeecher 0 0) Sample.world Sample.machine (Some Sample.claim) Sample.run
    Sample.outcome.1 Sample.outcome.2).
  rewrite <- surjective_pairing. exact Sample.build_outcome.
Defined.

(** A poll of the demo server, the sample builder behind it: the machine's
    session token, its current run, and the sample cluster for the rest. *)
Definition sample_server : go Response :=
  link (with_builder (H := SimpleMeta.ops) id Sample.unmarshal Sample.parse Sample.execute Sample.marshal id
          "kezio-system" (mkLeecher 0 0))
    (handleNext tag the_server (mkRequest "Bearer session" "3" None)).

Definition claimed_session : Machine :=
  mkMachine (machine_meta session_machine)
    ((Spec session_machine) <| ClaimRef := Some (mkClaimReference "claim" "ns" "uid") |>) (Status session_machine).

Definition sample_handler (e : eff) (u : unit) : option (resp e * unit) :=
  match e return option (resp e * unit) with
  | EGet KClaim _ => Some (inl Sample.claim, u)
  | EGet KRun _ => Some (inl pending_run, u)
  | EGet k _ => Some (Sample.get k, u)
  | EListLabels k _ _ => Some (inl (Sample.pods k), u)
  | EListField KMachine _ _ => Some (inl [claimed_session], u)
  | ENow => Some (1000, u)
  | _ => None
  end.

Lemma served_plan_is_accepted_witness :
  exists tr p, exec sample_handler sample_server tt = Some (NextOK ActionDeploy 15 (Some p), tt, tr) /\
    Validate p = None.
Proof.
  eexists _, _. split; [vm_compute; reflexivity|].
  eapply (served_plan_is_accepted (H := SimpleMeta.ops) id Sample.unmarshal Sample.parse Sample.execute Sample.marshal id
    "kezio-system" (mkLeecher 0 0) tag the_server (mkRequest "Bearer session" "3" None)).
  eapply (exec_runs sample_handler sample_server tt _ tt). vm_compute. reflexivity.
Defined.
