(* ===== verification/AgentExec.v ===== *)
(** * AgentExec: the deploy executor of kezio-agent

    [src/internal/agent/deploy]: [deploy.go], [stoppolicy.go], [sfdisk.go],
    [progress.go], [hooks.go] and [finalize.go].  The commands the executor runs,
    the local ezio daemon, the progress reports and the files it touches are the
    calls of a signature of its own, [act].

    Parameters: the decoding of [sfdisk --json] ([Unmarshal]) and the machine's
    architecture ([runtime.GOARCH]).  Log lines are left out, and so are the
    contexts: a command that is cut short answers an error, and a cancelled
    deploy is an answer of the ticker's [select].  Of [strconv]'s errors the text
    of the syntax error stands for both. *)

From S2P Require Import Prelude Text Api AgentApi Effects DiskMatch PlanBuild.
Local Open Scope string_scope.
Local Open Scope list_scope.
Local Open Scope Z_scope.

(** ** The calls *)

(** [seeder.Torrent]. *)
Record Torrent := mkTorrent {
  t_IsFinished : bool; t_IsPaused : bool; t_TotalDone : Z; t_Total : Z; t_TotalPayloadUpload : Z;
  t_FinishedTime : Z; t_LastUpload : Z }.

Record EzioLaunchConfig := mkLaunch { lc_CacheSizeMB : option Z; lc_AioThreads : option Z; lc_Port : option Z }.

Inductive act :=
| ARun (stdin : option string) (name : string) (args : list string)
| ARunEnv (env : list string) (name : string) (args : list string)
| ALaunch (cfg : EzioLaunchConfig)
| AStop
| AFetchTorrent (url : string)
| AAddTorrent (torrent savePath : string) (seedMode : bool) (maxUploads maxConnections : Z)
| AGetTorrentStatus (hashes : list string)
| APauseTorrent (hash : string)
| AShutdown
| AReport (req : ProgressRequest)
| ANow
| ATick
| AConsole (msg : string)
| ACreateTemp (pattern : string)
| AWriteFile (path content : string)
| AChmod (path : string)
| AMkdirTemp (pattern : string)
| ARemove (path : string)
| AStat (path : string)
| AReadDir (path : string)
| AMkdirAll (path : string)
| AOpen (src : string)
| ACreate (dst : string)
| ACopy (src dst : string)
| AClose (path : string)
| ADiverge.

(** [ALaunch] answers whether the handle has a [Stop]; [AGetTorrentStatus] lists
    the map in the order it is ranged over; [ATick] answers [ctx.Err()] when the
    deploy was cancelled; [AWriteFile] answers the errors of the write and of the
    close; [AStat] answers whether the file exists, or another error; [AReadDir]
    lists the entries and which are directories.  A loop that outlives its bound
    is [ADiverge], without an answer. *)
Definition ans (a : act) : Type :=
  match a with
  | ARun _ _ _ | ARunEnv _ _ _ | AFetchTorrent _ | ACreateTemp _ | AMkdirTemp _ => (string + GoErr)%type
  | ALaunch _ => (bool + GoErr)%type
  | AGetTorrentStatus _ => (list (string * Torrent) + GoErr)%type
  | ANow => Z
  | AWriteFile _ _ => (option GoErr * option GoErr)%type
  | AStat _ => (bool + GoErr)%type
  | AReadDir _ => (list (string * bool) + GoErr)%type
  | ADiverge => Empty_set
  | _ => option GoErr
  end.

Abbreviation agent := (prog ans).
Definition do (a : act) : agent (ans a) := call (R := ans) a.
Definition Run (name : string) (args : list string) : agent (string + GoErr) := do (ARun None name args).

(** Runs [f] over a list until the first error. *)
Fixpoint each {A} (f : A -> agent (option GoErr)) (l : list A) : agent (option GoErr) :=
  match l with
  | [] => Ret None
  | x :: l => err <- f x ;; match err with Some e => Ret (Some e) | None => each f l end
  end.

(** ** Partition tables *)

Definition DevicePartitionPath (disk : string) (number : Z) : string :=
  match last_char disk with
  | None => ""
  | Some c => sprintf "%s%s%d" [disk; if is_digit c then "p" else ""; show_dec number]
  end.

Record sfdiskJSONPartition := mkSfPartition {
  sp_Node : string; sp_Start : Z; sp_Size : Z; sp_Type : string; sp_UUID : string; sp_Name : string; sp_Bootable : bool }.
Record sfdiskJSONTable := mkSfTable {
  st_Label : string; st_ID : string; st_SectorSize : Z; st_Partitions : list sfdiskJSONPartition }.

Fixpoint trailing_digits (l : list ascii) (acc : list ascii) : list ascii :=
  match l with
  | c :: l => if is_digit c then trailing_digits l (c :: acc) else acc
  | [] => acc
  end.

(** The digits are read from the end; the number is accumulated in [int32]. *)
Definition sfdiskPartitionNumber (node : string) (listIndex : Z) : Z :=
  match trailing_digits (rev (list_ascii_of_string node)) [] with
  | [] => int32 (listIndex + 1)
  | ds => fold_left (fun n c => int32 (int32 (n * 10) + (Z.of_nat (nat_of_ascii c) - 48))) ds 0
  end.

Definition opt_field (name value : string) : list string := if value =s "" then [] else [sprintf name [value]].

Definition partition_fields (p : sfdiskJSONPartition) : list string :=
  [sprintf "start=%d" [show_dec (sp_Start p)]; sprintf "size=%d" [show_dec (sp_Size p)]]
  ++ opt_field "type=%s" (sp_Type p) ++ opt_field "uuid=%s" (sp_UUID p) ++ opt_field "name=%q" (sp_Name p)
  ++ (if sp_Bootable p then ["bootable"] else []).

Fixpoint partition_lines (i : Z) (targetDisk : string) (ps : list sfdiskJSONPartition) : list string :=
  match ps with
  | [] => []
  | p :: ps =>
    sprintf "%s : %s" [DevicePartitionPath targetDisk (sfdiskPartitionNumber (sp_Node p) i);
                       String.concat ", " (partition_fields p)]
    :: partition_lines (i + 1) targetDisk ps
  end.

Definition header_lines (t : sfdiskJSONTable) : list string :=
  [sprintf "label: %s" [st_Label t]] ++ opt_field "label-id: %s" (st_ID t) ++ ["unit: sectors"]
  ++ (if st_SectorSize t =? 0 then [] else [sprintf "sector-size: %d" [show_dec (st_SectorSize t)]]) ++ [""].

(** *** The stop policy *)

Definition minFinishedSeconds : Z := 60.
Definition minIdleUploadSeconds : Z := 60.
Definition uploadRatioLimit : Z := 3.

Definition shouldPauseTorrent (t : Torrent) : bool :=
  if t_IsPaused t || negb (t_IsFinished t) then false else
  if int64 (uploadRatioLimit * t_TotalDone t) <? t_TotalPayloadUpload t then true else
  (minFinishedSeconds <? t_FinishedTime t)
  && ((minIdleUploadSeconds <? t_LastUpload t) || (t_LastUpload t =? -1)).

Definition allStopped (torrents : list (string * Torrent)) : bool :=
  match torrents with
  | [] => false
  | _ => forallb (fun x => t_IsFinished x.2 && t_IsPaused x.2) torrents
  end.

Definition aggregatePercent (total done_ : Z) : Z :=
  if total <=? 0 then 0 else
  let percent := Z.quot (int64 (done_ * 100)) total in
  if percent <? 0 then 0 else if 100 <? percent then 100 else percent.

(** *** Disk plans *)

Record diskPlan := mkDiskPlan { dp_label : string; dp_disk : string; dp_sfdiskScript : string; dp_slots : list DeploySlot }.

Fixpoint data_plans (i : Z) (l : list DeployDataImagePlan) : list diskPlan :=
  match l with
  | [] => []
  | di :: l =>
    mkDiskPlan (sprintf "dataImages[%d] %s" [show_dec i; nr_Name (dip_ImageRef di)]) (dip_TargetDisk di)
      (dip_SfdiskScript di) (dip_Slots di) :: data_plans (i + 1) l
  end.

Definition diskPlans (plan : DeployPlan) : list diskPlan :=
  (if plan_TargetDisk plan <>s ""
   then [mkDiskPlan "OS image" (plan_TargetDisk plan) (plan_SfdiskScript plan) (plan_Slots plan)] else [])
  ++ data_plans 0 (plan_DataImages plan).

Definition all_slots (plans : list diskPlan) : list DeploySlot := List.concat (map dp_slots plans).

Definition hasTorrentSlot (plans : list diskPlan) : bool :=
  existsb (fun s => match slot_Torrent s with Some _ => true | None => false end) (all_slots plans).

Definition torrentHashes (plans : list diskPlan) : list string :=
  omap (fun s => tor_InfoHash <$> slot_Torrent s) (all_slots plans).

Definition torrentSlotNumbers (plans : list diskPlan) : gmap string Z :=
  fold_left (fun m s => match slot_Torrent s with Some t => <[tor_InfoHash t := slot_Number s]> m | None => m end)
    (all_slots plans) ∅.

Definition ezioLaunchConfigFromPlan (plan : DeployPlan) : EzioLaunchConfig :=
  mkLaunch (plan_CacheSizeMB plan) (plan_AioThreads plan) (plan_Port plan).

(** *** Boot entries *)

Definition efiRemovableLoaderPathForArch (goarch : string) : string + GoErr :=
  if goarch =s "amd64" then inl "\EFI\BOOT\BOOTX64.EFI"
  else if goarch =s "arm64" then inl "\EFI\BOOT\BOOTAA64.EFI"
  else inr (errorf "unsupported architecture %q for UEFI boot entries; kezio supports x86_64 and aarch64 only" [goarch]).

Definition espLoaderNames (goarch : string) : string * string + GoErr :=
  if goarch =s "amd64" then inl ("shimx64.efi", "grubx64.efi")
  else if goarch =s "arm64" then inl ("shimaa64.efi", "grubaa64.efi")
  else inr (errorf "unsupported architecture %q for UEFI boot entries; kezio supports x86_64 and aarch64 only" [goarch]).

Definition efibootLabel (plan : DeployPlan) : string :=
  String.append "kezio:" (if plan_MachineName plan =s "" then plan_RunName plan else plan_MachineName plan).

Definition finalizeDisk (plan : DeployPlan) (params : gmap string string) : string :=
  let disk := default "" (params !! "disk") in if disk <>s "" then disk else plan_TargetDisk plan.

Definition requirePartition (params : gmap string string) : Z + GoErr :=
  let raw := default "" (params !! "part") in
  if raw =s "" then inr (errorf "params[%q] is required (the ESP's partition number)" ["part"]) else
  match Atoi raw with
  | Some n => if n <=? 0 then inr (errorf "params[%q] = %q is not a positive partition number" ["part"; raw]) else inl (int32 n)
  | None => inr (errorf "params[%q] = %q is not a positive partition number" ["part"; raw])
  end.

Definition parse_boot_line (label line : string) : option string :=
  let line := TrimSpace line in
  if negb (HasPrefix line "Boot") || (String.length line <? 8)%nat then None else
  let num := String.substring 4 4 line in
  match ParseUint num 16 16 with
  | None => None
  | Some _ =>
    let rest := TrimSpace (TrimPrefix (String.substring 8 (String.length line - 8) line) "*") in
    if rest =s label then Some num else None
  end.

Definition parseEFIBootEntries (listing label : string) : list string :=
  omap (parse_boot_line label) (split_on (ascii_of_nat 10) listing).

Definition fsResizeCommand (fsType device : string) : option (string * list string) :=
  if (fsType =s "ext2") || (fsType =s "ext3") || (fsType =s "ext4") then Some ("resize2fs", [device])
  else if fsType =s "xfs" then Some ("xfs_growfs", [device])
  else if fsType =s "btrfs" then Some ("btrfs", ["filesystem"; "resize"; "max"; device])
  else None.

(** *** The environment of a script step *)

Definition slotEnv (listName devicePrefix : string) (slots : list DeploySlot) : list string :=
  let devices := omap (fun s =>
    if slot_Device s <>s ""
    then Some (String.concat "" [devicePrefix; show_dec (slot_Number s); "="; slot_Device s]) else None) slots in
  match slots with
  | [] => []
  | _ => devices ++ [String.concat "" [listName; "="; String.concat " " (map (fun s => show_dec (slot_Number s)) slots)]]
  end.

Fixpoint data_env (i : Z) (l : list DeployDataImagePlan) : list string * list string :=
  match l with
  | [] => ([], [])
  | di :: l =>
    let '(indexes, env) := data_env (i + 1) l in
    if dip_TargetDisk di =s "" then (indexes, env) else
    let index := show_dec (i + 1) in
    let prefix := String.append "KEZIO_DATA_DISK_" index in
    (index :: indexes,
     [String.concat "" [prefix; "="; dip_TargetDisk di]]
     ++ slotEnv (String.append prefix "_PARTITIONS") (String.append prefix "_PART_") (dip_Slots di) ++ env)
  end.

Definition scriptStepEnv (plan : DeployPlan) : list string :=
  (if plan_TargetDisk plan <>s ""
   then String.append "KEZIO_TARGET_DISK=" (plan_TargetDisk plan)
        :: slotEnv "KEZIO_PARTITIONS" "KEZIO_PART_" (plan_Slots plan)
   else [])
  ++ (let '(indexes, env) := data_env 0 (plan_DataImages plan) in
      match indexes with
      | [] => env
      | _ => env ++ [String.append "KEZIO_DATA_DISKS=" (String.concat " " indexes)]
      end).

Section Executor.
Context (Unmarshal : string -> sfdiskJSONTable + GoErr) (GOARCH : string).
Context (hasProgress hasConsole : bool) (rounds : nat).

Definition SfdiskScript (sfdiskJSON targetDisk : string) : string + GoErr :=
  match Unmarshal sfdiskJSON with
  | inr err => inr (wrapf "parse sfdisk JSON dump: %w" [] err)
  | inl table =>
    if st_Label table =s "" then inr (errorf "sfdisk JSON dump has no partition table label" []) else
    match st_Partitions table with
    | [] => inr (errorf "sfdisk JSON dump has no partitions" [])
    | ps => inl (String.concat "" (map (fun l => String.append l newline)
                                     (header_lines table ++ partition_lines 0 targetDisk ps)))
    end
  end.

Definition sector_size (t : sfdiskJSONTable) : Z := if st_SectorSize t =? 0 then 512 else st_SectorSize t.
Definition partition_end (sectorSize : Z) (p : sfdiskJSONPartition) : Z :=
  int64 (int64 (sp_Start p + sp_Size p) * sectorSize).

Definition MinimumDiskBytes (sfdiskJSON : string) : Z + GoErr :=
  match Unmarshal sfdiskJSON with
  | inr err => inr (wrapf "parse sfdisk JSON dump: %w" [] err)
  | inl table =>
    let maxEnd := fold_left (fun m p => let e := partition_end (sector_size table) p in if m <? e then e else m)
                    (st_Partitions table) 0 in
    if maxEnd =? 0 then inr (errorf "sfdisk JSON dump has no partitions" []) else inl maxEnd
  end.

(** *** Progress *)

Definition report (plan : DeployPlan) (step state message : string) (percentDone bytesDone : option Z)
    (partitions : list ProgressPartition) : agent unit :=
  if negb hasProgress then Ret tt else
  now <- do ANow ;;
  do (AReport (mkProgressRequest (plan_RunName plan) (plan_RunUID plan) step state message
                 (int32 <$> percentDone) bytesDone partitions now)) ;; Ret tt.

Definition reportRunning (plan : DeployPlan) (step : string) : agent unit :=
  report plan step ProgressStateRunning "" None None [].
Definition reportProgress (plan : DeployPlan) (step : string) (percentDone bytesDone : Z)
    (partitions : list ProgressPartition) : agent unit :=
  report plan step ProgressStateRunning "" (Some percentDone) (Some bytesDone) partitions.
Definition reportPartitionComplete (plan : DeployPlan) (step : string) (number : Z) : agent unit :=
  report plan step ProgressStateRunning "" None None [mkProgressPartition number 100 0].
Definition reportSucceeded (plan : DeployPlan) (step message : string) : agent unit :=
  report plan step ProgressStateSucceeded message None None [].
Definition reportFailed (plan : DeployPlan) (step message : string) : agent unit :=
  report plan step ProgressStateFailed message None None [].

(** *** Before anything is written *)

Fixpoint check_slots (dp : diskPlan) (slots : list DeploySlot) : option GoErr :=
  match slots with
  | [] => None
  | s :: rest =>
    let want := DevicePartitionPath (dp_disk dp) (slot_Number s) in
    if slot_Device s <>s want then
      Some (errorf "%s slot %d: device %q does not match the expected path %q for disk %q"
              [dp_label dp; show_dec (slot_Number s); slot_Device s; want; dp_disk dp])
    else check_slots dp rest
  end.

Fixpoint check_structure (seen : gset string) (plans : list diskPlan) : option GoErr :=
  match plans with
  | [] => None
  | dp :: rest =>
    if negb (HasPrefix (dp_disk dp) "/dev/") then
      Some (errorf "%s: disk %q is not an absolute /dev/ path" [dp_label dp; dp_disk dp])
    else if bool_decide (dp_disk dp ∈ seen) then
      Some (errorf "disk %s is targeted by more than one image in this plan" [dp_disk dp])
    else match check_slots dp (dp_slots dp) with
         | Some err => Some err
         | None => check_structure ({[dp_disk dp]} ∪ seen) rest
         end
  end.

Definition checkDiskSize (dp : diskPlan) : agent (option GoErr) :=
  match MinimumDiskBytes (dp_sfdiskScript dp) with
  | inr err => Ret (Some (wrapf "%s: %w" [dp_label dp] err))
  | inl minBytes =>
    out <- Run "blockdev" ["--getsize64"; dp_disk dp] ;;
    match out with
    | inr err => Ret (Some (wrapf "%s: checking disk %s exists and is readable: %w" [dp_label dp; dp_disk dp] err))
    | inl out =>
      match Atoi (TrimSpace out) with
      | None => Ret (Some (wrapf "%s: parsing size of disk %s: %w" [dp_label dp; dp_disk dp]
                                  (errorf "strconv.ParseInt: parsing %q: invalid syntax" [TrimSpace out])))
      | Some actual =>
        if actual <? minBytes then
          Ret (Some (errorf "%s: disk %s is %d bytes, smaller than the %d bytes its layout requires"
                       [dp_label dp; dp_disk dp; show_dec actual; show_dec minBytes]))
        else Ret None
      end
    end
  end.

Definition validate (plans : list diskPlan) : agent (option GoErr) :=
  match check_structure ∅ plans with
  | Some err => Ret (Some err)
  | None => each checkDiskSize plans
  end.

(** *** Writing *)

Definition writePartitionTable (dp : diskPlan) : agent (option GoErr) :=
  match SfdiskScript (dp_sfdiskScript dp) (dp_disk dp) with
  | inr err => Ret (Some (wrapf "%s: %w" [dp_label dp] err))
  | inl script =>
    r <- do (ARun (Some script) "sfdisk" [dp_disk dp]) ;;
    match r with
    | inr err => Ret (Some (wrapf "%s: writing partition table to %s: %w" [dp_label dp; dp_disk dp] err))
    | inl _ =>
      r <- Run "blockdev" ["--rereadpt"; dp_disk dp] ;;
      match r with
      | inr err => Ret (Some (wrapf "%s: re-reading partition table on %s: %w" [dp_label dp; dp_disk dp] err))
      | inl _ => Ret None
      end
    end
  end.

Definition mkfsLabelFlag (fsType : string) : string := if fsType =s "vfat" then "-n" else "-L".
Definition mkfsUUIDArgs (fsType uuid : string) : list string :=
  if fsType =s "xfs" then ["-m"; String.append "uuid=" uuid]
  else if fsType =s "vfat" then ["-i"; uuid] else ["-U"; uuid].

Definition runMkfs (dp : diskPlan) (s : DeploySlot) (m : DeployMkfs) : agent (option GoErr) :=
  let fsType := mkfs_Filesystem m in
  let args := (if mkfs_Label m <>s "" then [mkfsLabelFlag fsType; mkfs_Label m] else [])
              ++ (if mkfs_UUID m <>s "" then mkfsUUIDArgs fsType (mkfs_UUID m) else []) ++ [slot_Device s] in
  r <- Run (String.append "mkfs." fsType) args ;;
  match r with
  | inr err => Ret (Some (wrapf "%s slot %d: mkfs.%s %s: %w" [dp_label dp; show_dec (slot_Number s); fsType; slot_Device s] err))
  | inl _ => Ret None
  end.

Definition runMkswap (dp : diskPlan) (s : DeploySlot) (w : DeploySwap) : agent (option GoErr) :=
  let args := (if swap_UUID w <>s "" then ["--uuid"; swap_UUID w] else []) ++ [slot_Device s] in
  r <- Run "mkswap" args ;;
  match r with
  | inr err => Ret (Some (wrapf "%s slot %d: mkswap %s: %w" [dp_label dp; show_dec (slot_Number s); slot_Device s] err))
  | inl _ => Ret None
  end.

Definition writeSlot (plan : DeployPlan) (dp : diskPlan) (s : DeploySlot) : agent (option GoErr) :=
  match slot_Swap s, slot_Mkfs s, slot_Torrent s with
  | Some w, _, _ => runMkswap dp s w
  | None, Some m, _ => runMkfs dp s m
  | None, None, Some t =>
    r <- do (AFetchTorrent (tor_URL t)) ;;
    match r with
    | inr err =>
      Ret (Some (wrapf "%s slot %d: fetching torrent from %s: %w" [dp_label dp; show_dec (slot_Number s); tor_URL t] err))
    | inl torrentBytes =>
      let maxUploads := if plan_MaxUploads plan <=? 0 then DefaultMaxUploads else plan_MaxUploads plan in
      let maxConnections := if plan_MaxConnections plan <=? 0 then DefaultMaxConnections else plan_MaxConnections plan in
      err <- do (AAddTorrent torrentBytes (slot_Device s) false maxUploads maxConnections) ;;
      match err with
      | Some err =>
        Ret (Some (wrapf "%s slot %d: AddTorrent %s: %w" [dp_label dp; show_dec (slot_Number s); slot_Device s] err))
      | None => Ret None
      end
    end
  | None, None, None => Ret (Some (errorf "%s slot %d: no content kind set" [dp_label dp; show_dec (slot_Number s)]))
  end.

Definition writeSlots (plan : DeployPlan) (dp : diskPlan) : agent (option GoErr) :=
  each (fun s =>
    err <- writeSlot plan dp s ;;
    match err with
    | Some err => Ret (Some err)
    | None =>
      match slot_Torrent s with
      | None => reportPartitionComplete plan DeployRunPhaseWritingContent (slot_Number s) ;; Ret None
      | Some _ => Ret None
      end
    end) (dp_slots dp).

(** *** Seeding *)

(** One pass over the statuses: the sums, the partitions, and the pauses. *)
Fixpoint seed_pass (slotNumbers : gmap string Z) (statuses : list (string * Torrent)) (totalDone total : Z)
    (partitions : list ProgressPartition) : agent (Z * Z * list ProgressPartition) :=
  match statuses with
  | [] => Ret (totalDone, total, partitions)
  | (hash, t) :: rest =>
    let partitions' := match slotNumbers !! hash with
      | Some number =>
        partitions ++ [mkProgressPartition number (int32 (aggregatePercent (t_Total t) (t_TotalDone t))) (t_TotalDone t)]
      | None => partitions
      end in
    (if shouldPauseTorrent t then do (APauseTorrent hash) ;; Ret tt else Ret tt) ;;
    seed_pass slotNumbers rest (int64 (totalDone + t_TotalDone t)) (int64 (total + t_Total t)) partitions'
  end.

Fixpoint seed_loop (n : nat) (plan : DeployPlan) (hashes : list string) (slotNumbers : gmap string Z)
  : agent (option GoErr) :=
  match n with
  | O => Vis (R := ans) ADiverge (fun r : Empty_set => match r with end)
  | S n =>
    r <- do (AGetTorrentStatus hashes) ;;
    stopped <- (match r with
                | inr _ => Ret false
                | inl statuses =>
                  '(totalDone, total, partitions) <- seed_pass slotNumbers statuses 0 0 [] ;;
                  reportProgress plan DeployRunPhaseWritingContent (aggregatePercent total totalDone) totalDone partitions ;;
                  Ret (allStopped statuses)
                end) ;;
    if (stopped : bool) then Ret None else
    cancelled <- do ATick ;;
    match cancelled with
    | Some err => Ret (Some err)
    | None => seed_loop n plan hashes slotNumbers
    end
  end.

Definition seedUntilStopped (plan : DeployPlan) (plans : list diskPlan) : agent (option GoErr) :=
  match torrentHashes plans with
  | [] => Ret None
  | hashes => seed_loop rounds plan hashes (torrentSlotNumbers plans)
  end.

(** *** Hooks *)

Definition runBuiltinMkswap (plan : DeployPlan) : agent (option GoErr) :=
  each (fun dp => each (fun s => match slot_Swap s with Some w => runMkswap dp s w | None => Ret None end) (dp_slots dp))
    (diskPlans plan).

Definition ensureEFIBootEntry (plan : DeployPlan) (disk : string) (part : Z) : agent (option GoErr) :=
  match efiRemovableLoaderPathForArch GOARCH with
  | inr err => Ret (Some err)
  | inl loaderPath =>
    let label := efibootLabel plan in
    out <- Run "efibootmgr" [] ;;
    match out with
    | inr err => Ret (Some (wrapf "listing existing UEFI boot entries: %w" [] err))
    | inl out =>
      err <- each (fun num =>
               r <- Run "efibootmgr" ["--bootnum"; num; "--delete-bootnum"] ;;
               match r with
               | inr err => Ret (Some (wrapf "deleting prior UEFI boot entry Boot%s (label %q): %w" [num; label] err))
               | inl _ => Ret None
               end) (parseEFIBootEntries out label) ;;
      match err with
      | Some err => Ret (Some err)
      | None =>
        r <- Run "efibootmgr" ["--create"; "--disk"; disk; "--part"; show_dec part; "--loader"; loaderPath; "--label"; label] ;;
        match r with
        | inr err => Ret (Some (wrapf "creating UEFI boot entry: %w" [] err))
        | inl _ => Ret None
        end
      end
    end
  end.

Definition runBuiltinEfibootmgr (plan : DeployPlan) (params : gmap string string) : agent (option GoErr) :=
  match requirePartition params with
  | inr err => Ret (Some (wrapf "efibootmgr: %w" [] err))
  | inl part => ensureEFIBootEntry plan (finalizeDisk plan params) part
  end.

(** Each path last mounted first, once more with [--lazy] when that fails. *)
Fixpoint unmount_list (l : list string) : agent unit :=
  match l with
  | [] => Ret tt
  | target :: l =>
    r <- Run "umount" [target] ;;
    match r with
    | inl _ => unmount_list l
    | inr _ => Run "umount" ["--lazy"; target] ;; unmount_list l
    end
  end.
Definition unmountAll (mounted : list string) : agent unit := unmount_list (rev mounted).

Definition fileExists (name : string) : agent (bool + GoErr) :=
  r <- do (AStat name) ;;
  match r with
  | inr err => Ret (inr (wrapf "checking %s: %w" [name] err))
  | inl b => Ret (inl b)
  end.

Definition copyFile (src dst : string) : agent (option GoErr) :=
  err <- do (AOpen src) ;;
  match err with
  | Some err => Ret (Some err)
  | None =>
    err <- do (ACreate dst) ;;
    r <- (match err with
          | Some err => Ret (Some err)
          | None =>
            err <- do (ACopy src dst) ;;
            match err with
            | Some err => do (AClose dst) ;; Ret (Some err)
            | None => do (AClose dst)
            end
          end) ;;
    do (AClose src) ;; Ret r
  end.

(** [filepath.Dir]; [filepath.Base] of a clean path. *)
Definition Dir (s : string) : string :=
  match tail (rev (split_on "/" s)) with
  | [] => "."
  | [""] => "/"
  | t => Clean (String.concat "/" (rev t))
  end.
Definition path_base (s : string) : string := default "" (head (rev (split_on "/" s))).

Definition installESPFile (root relPath src : string) : agent (option GoErr) :=
  let dst := Join [root; relPath] in
  err <- do (AMkdirAll (Dir dst)) ;;
  match err with
  | Some err => Ret (Some (wrapf "creating %s: %w" [Dir dst] err))
  | None =>
    err <- copyFile src dst ;;
    match err with
    | Some err => Ret (Some (wrapf "copying %s to %s: %w" [src; dst] err))
    | None => Ret None
    end
  end.

(** The first candidate [os.Stat] succeeds on. *)
Fixpoint find_candidate (dir : string) (candidates : list string) : agent (option string) :=
  match candidates with
  | [] => Ret None
  | c :: rest =>
    let path := Join [dir; c] in
    r <- do (AStat path) ;;
    match r with
    | inl true => Ret (Some path)
    | _ => find_candidate dir rest
    end
  end.

Fixpoint find_in_entries (efiDir : string) (entries : list (string * bool)) (candidates : list string)
  : agent (option string) :=
  match entries with
  | [] => Ret None
  | (name, isDir) :: rest =>
    if negb isDir || EqualFold name "BOOT" then find_in_entries efiDir rest candidates else
    r <- find_candidate (Join [efiDir; name]) candidates ;;
    match r with
    | Some path => Ret (Some path)
    | None => find_in_entries efiDir rest candidates
    end
  end.

(** [errNoESPBootloader] is a value of its own, [inr (true, _)]. *)
Definition findESPBootloader (root : string) (candidates : list string) : agent (string + bool * GoErr) :=
  let efiDir := Join [root; "EFI"] in
  r <- do (AReadDir efiDir) ;;
  match r with
  | inr err => Ret (inr (false, wrapf "reading %s: %w" [efiDir] err))
  | inl entries =>
    r <- find_in_entries efiDir entries candidates ;;
    match r with
    | Some path => Ret (inl path)
    | None =>
      Ret (inr (true, errorf "no bootloader found under any EFI/<name>/ directory in %s (looked for %s)"
                        [efiDir; String.concat ", " candidates]))
    end
  end.

(** The second stage, once the fallback path is taken care of. *)
Definition ensure_second_stage (root relPath grubName : string) (installed : list string) (installedShim : bool)
  : agent (list string * option GoErr) :=
  let secondStage := Join [Dir relPath; grubName] in
  present <- fileExists (Join [root; secondStage]) ;;
  match present with
  | inr err => Ret (installed, Some err)
  | inl true => Ret (installed, None)
  | inl false =>
    src <- findESPBootloader root [grubName] ;;
    match src with
    | inr (none, err) =>
      if none && negb installedShim then Ret (installed, None)
      else Ret (installed, Some (wrapf "%s needs %s beside it to start: %w" [relPath; grubName] err))
    | inl src =>
      err <- installESPFile root secondStage src ;;
      match err with
      | Some err => Ret (installed, Some err)
      | None => Ret (installed ++ [secondStage], None)
      end
    end
  end.

Definition ensureRemovableFallbackChain (root relPath shimName grubName : string)
  : agent (list string * option GoErr) :=
  present <- fileExists (Join [root; relPath]) ;;
  match present with
  | inr err => Ret ([], Some err)
  | inl true => ensure_second_stage root relPath grubName [] false
  | inl false =>
    src <- findESPBootloader root [shimName; grubName] ;;
    match src with
    | inr (_, err) => Ret ([], Some err)
    | inl src =>
      err <- installESPFile root relPath src ;;
      match err with
      | Some err => Ret ([], Some err)
      | None =>
        if EqualFold (path_base src) shimName then ensure_second_stage root relPath grubName [relPath] true
        else Ret ([relPath], None)
      end
    end
  end.

Definition espBootDirListing (root bootDir : string) : agent (list string + GoErr) :=
  r <- do (AReadDir (Join [root; bootDir])) ;;
  match r with
  | inr err => Ret (inr (wrapf "reading %s: %w" [bootDir] err))
  | inl entries => Ret (inl (map fst entries))
  end.

Definition rel_path (loaderPath : string) : string :=
  replace_char "\" "/" (TrimPrefix loaderPath "\").

Definition installRemovableFallback (disk espDevice : string) : agent (option GoErr) :=
  match efiRemovableLoaderPathForArch GOARCH with
  | inr err => Ret (Some err)
  | inl loaderPath =>
    match espLoaderNames GOARCH with
    | inr err => Ret (Some err)
    | inl (shimName, grubName) =>
      let relPath := rel_path loaderPath in
      r <- do (AMkdirTemp "kezio-esp-") ;;
      match r with
      | inr err => Ret (Some (wrapf "creating ESP mountpoint: %w" [] err))
      | inl mountpoint =>
        res <- (
          r <- Run "mount" ["-t"; "vfat"; espDevice; mountpoint] ;;
          match r with
          | inr err => Ret (Some (wrapf "mounting ESP %s (disk %s) at %s: %w" [espDevice; disk; mountpoint] err))
          | inl _ =>
            '(_, err) <- ensureRemovableFallbackChain mountpoint relPath shimName grubName ;;
            match err with
            | Some err => Ret (Some (wrapf "ensuring removable fallback bootloader: %w" [] err))
            | None =>
              listing <- espBootDirListing mountpoint (Dir relPath) ;;
              match listing with
              | inr err => Ret (Some (wrapf "reading the fallback directory back: %w" [] err))
              | inl _ => Ret None
              end
            end
          end) ;;
        unmountAll [mountpoint] ;; do (ARemove mountpoint) ;; Ret res
      end
    end
  end.

Definition runBuiltinInstallRemovableFallback (plan : DeployPlan) (params : gmap string string) : agent (option GoErr) :=
  match requirePartition params with
  | inr err => Ret (Some (wrapf "install-removable-fallback: %w" [] err))
  | inl part =>
    let disk := finalizeDisk plan params in
    installRemovableFallback disk (DevicePartitionPath disk part)
  end.

Definition growLastPartition (disk : string) (partition : Z) (device fsType : string) : agent (option GoErr) :=
  r <- Run "growpart" [disk; show_dec partition] ;;
  match r with
  | inr err => Ret (Some (wrapf "growing partition %d on %s: %w" [show_dec partition; disk] err))
  | inl _ =>
    match fsResizeCommand fsType device with
    | None => Ret None
    | Some (name, args) =>
      r <- Run name args ;;
      match r with
      | inr err => Ret (Some (wrapf "growing file system on %s: %w" [device] err))
      | inl _ => Ret None
      end
    end
  end.

(** The partition to grow: its number, device and file system. *)
Definition grow_target (plan : DeployPlan) (params : gmap string string) : Z * string * string + GoErr :=
  let disk := finalizeDisk plan params in
  let raw := default "" (params !! "partition") in
  if raw <>s "" then
    match Atoi raw with
    | Some n =>
      if n <=? 0 then inr (errorf "growLastPartition: params[%q] = %q is not a positive partition number" ["partition"; raw])
      else inl (int32 n, DevicePartitionPath disk (int32 n), "")
    | None => inr (errorf "growLastPartition: params[%q] = %q is not a positive partition number" ["partition"; raw])
    end
  else if disk <>s plan_TargetDisk plan then
    inr (errorf "growLastPartition: disk %q has no default partition; pass params[%q] explicitly" [disk; "partition"])
  else match last (plan_Slots plan) with
  | None => inr (errorf "growLastPartition: plan has no OS disk slots" [])
  | Some s =>
    inl (slot_Number s, slot_Device s, match slot_Mkfs s with Some m => mkfs_Filesystem m | None => "" end)
  end.

Definition runBuiltinGrowLastPartition (plan : DeployPlan) (params : gmap string string) : agent (option GoErr) :=
  match grow_target plan params with
  | inr err => Ret (Some err)
  | inl (partition, device, fsType) =>
    let v := default "" (params !! "fsType") in
    growLastPartition (finalizeDisk plan params) partition device (if v <>s "" then v else fsType)
  end.

(** [builtinRegistry] and its lookup. *)
Definition runBuiltinStep (plan : DeployPlan) (step : ResolvedHookStep) : agent (option GoErr) :=
  let name := step_Builtin step in
  if name =s BuiltinStepMkswap then runBuiltinMkswap plan
  else if name =s BuiltinStepEfibootmgr then runBuiltinEfibootmgr plan (step_Params step)
  else if name =s BuiltinStepGrowLastPartition then runBuiltinGrowLastPartition plan (step_Params step)
  else if name =s BuiltinStepInstallRemovableFallback then runBuiltinInstallRemovableFallback plan (step_Params step)
  else Ret (Some (errorf "unknown builtin post hook step %q" [name])).

Definition runScriptStep (plan : DeployPlan) (step : ResolvedHookStep) : agent (option GoErr) :=
  f <- do (ACreateTemp "kezio-posthook-*.sh") ;;
  match f with
  | inr err => Ret (Some (wrapf "creating script temp file: %w" [] err))
  | inl path =>
    res <- (
      '(writeErr, closeErr) <- do (AWriteFile path (step_Content step)) ;;
      match writeErr, closeErr with
      | Some err, _ | None, Some err => Ret (Some (wrapf "writing script temp file: %w" [] err))
      | None, None =>
        err <- do (AChmod path) ;;
        match err with
        | Some err => Ret (Some (wrapf "making script temp file executable: %w" [] err))
        | None =>
          r <- do (ARunEnv (scriptStepEnv plan) "/bin/sh" ["-e"; path]) ;;
          match r with
          | inr err => Ret (Some (wrapf "running script: %w" [] err))
          | inl _ => Ret None
          end
        end
      end) ;;
    do (ARemove path) ;; Ret res
  end.

Definition runHookStep (plan : DeployPlan) (step : ResolvedHookStep) : agent (option GoErr) :=
  if step_Type step =s HookStepTypeBuiltin then runBuiltinStep plan step
  else if step_Type step =s HookStepTypeScript then runScriptStep plan step
  else Ret (Some (errorf "unknown post hook step type %q" [step_Type step])).

Fixpoint run_steps (plan : DeployPlan) (name : string) (i n : Z) (steps : list ResolvedHookStep) : agent (option GoErr) :=
  match steps with
  | [] => Ret None
  | step :: rest =>
    err <- runHookStep plan step ;;
    match err with
    | Some err => Ret (Some (wrapf "post hook %q step %d/%d (%s): %w" [name; show_dec (i + 1); show_dec n; step_Type step] err))
    | None => run_steps plan name (i + 1) n rest
    end
  end.

Definition runHooks (plan : DeployPlan) : agent (option GoErr) :=
  each (fun hook => run_steps plan (hook_Name hook) 0 (Z.of_nat (length (hook_Steps hook))) (hook_Steps hook))
    (plan_Hooks plan).

(** *** The run *)

Definition writeConsole (msg : string) : agent unit :=
  if hasConsole then do (AConsole (String.append (sprintf "kezio-agent: %s" [msg]) newline)) ;; Ret tt else Ret tt.

Definition rebootOrPowerOff (afterDeploy : string) : agent (option GoErr) :=
  let action := if afterDeploy =s AfterDeployPowerOff then "poweroff" else "reboot" in
  r <- Run "systemctl" [action] ;;
  match r with
  | inr err => Ret (Some (wrapf "systemctl %s: %w" [action] err))
  | inl _ => Ret None
  end.

(** From the hooks to the handoff: the step reached and the error. *)
Definition finish (plan : DeployPlan) : agent (string * option GoErr) :=
  reportSucceeded plan DeployRunPhaseWritingContent "" ;;
  reportRunning plan DeployRunPhaseRunningPostHook ;;
  err <- runHooks plan ;;
  match err with
  | Some err => Ret (DeployRunPhaseRunningPostHook, Some (wrapf "running post hooks: %w" [] err))
  | None =>
    reportSucceeded plan DeployRunPhaseRunningPostHook "" ;;
    reportRunning plan DeployRunPhaseFinalizing ;;
    reportSucceeded plan DeployRunPhaseFinalizing "" ;;
    reportSucceeded plan DeployRunPhaseSucceeded "" ;;
    writeConsole "deploy finalized" ;;
    err <- rebootOrPowerOff (plan_AfterDeploy plan) ;;
    match err with
    | Some err => Ret (DeployRunPhaseSucceeded, Some (wrapf "after deploy action: %w" [] err))
    | None => Ret (DeployRunPhaseSucceeded, None)
    end
  end.

(** Every slot, then the torrents until they stopped. *)
Definition write_content (plan : DeployPlan) (plans : list diskPlan) : agent (string * option GoErr) :=
  err <- each (writeSlots plan) plans ;;
  match err with
  | Some err => Ret (DeployRunPhaseWritingContent, Some err)
  | None =>
    if hasTorrentSlot plans then
      err <- seedUntilStopped plan plans ;;
      match err with
      | Some err => Ret (DeployRunPhaseWritingContent, Some err)
      | None => do AShutdown ;; finish plan
      end
    else finish plan
  end.

Definition execute_body (plan : DeployPlan) : agent (string * option GoErr) :=
  let plans := diskPlans plan in
  verr <- validate plans ;;
  match verr with
  | Some verr => Ret (DeployRunPhasePartitioning, Some (wrapf "refusing to deploy: %w" [] verr))
  | None =>
    reportRunning plan DeployRunPhasePartitioning ;;
    err <- each writePartitionTable plans ;;
    match err with
    | Some err => Ret (DeployRunPhasePartitioning, Some err)
    | None =>
      reportSucceeded plan DeployRunPhasePartitioning "" ;;
      reportRunning plan DeployRunPhaseWritingContent ;;
      if hasTorrentSlot plans then
        r <- do (ALaunch (ezioLaunchConfigFromPlan plan)) ;;
        match r with
        | inr err => Ret (DeployRunPhaseWritingContent, Some (wrapf "launching local ezio daemon: %w" [] err))
        | inl hasStop =>
          res <- write_content plan plans ;;
          (if (hasStop : bool) then do AStop ;; Ret res else Ret res)
        end
      else write_content plan plans
    end
  end.

(** The deferred failure report is set up after the plan's own check. *)
Definition Execute (plan : DeployPlan) : agent (option GoErr) :=
  match Validate plan with
  | Some verr => Ret (Some (wrapf "invalid plan: %w" [] verr))
  | None =>
    '(step, err) <- execute_body plan ;;
    match err with
    | Some err => reportFailed plan step (emsg err) ;; Ret (Some err)
    | None => Ret None
    end
  end.
End Executor.
