(* ===== verification/AgentExecSafety.v ===== *)
(** * AgentExecSafety: what the executor may write, and when

    Theorems about [AgentExec]: nothing touches a disk before every disk of the
    plan was checked, commands go to the plan's disks and slots or, for a hook
    step, to what its parameters name, success is reported and the machine handed
    over only when everything was written and every hook step ran, and failures
    are reported. *)

From S2P Require Import Prelude Text Api AgentApi Effects DiskMatch PlanBuild AgentExec.
Local Open Scope string_scope.
Local Open Scope list_scope.
Local Open Scope Z_scope.

(** *** Loops *)

Lemma each_calls {X} (Q : act -> Prop) (f : X -> agent (option GoErr)) l :
  (forall x, x ∈ l -> calls Q (f x)) -> calls Q (each f l).
Proof.
  induction l as [|x l IH]; cbn [each]; [done|]. intros Hf. apply calls_bind; [apply Hf; left|].
  intros [err|]; [done|]. apply IH. intros y Hy. apply Hf. by right.
Qed.

(** A part of a history that is a run without an error. *)
Definition ran (p : agent (option GoErr)) (s : trace ans) : Prop :=
  exists a t b, s = a ++ t ++ b /\ runs p t None.

Lemma ran_app p s t : ran p s -> ran p (s ++ t).
Proof. intros (a & u & b & -> & Hr). exists a, u, (b ++ t). by rewrite <- !app_assoc. Qed.

Lemma ran_app_r p s t : ran p t -> ran p (s ++ t).
Proof. intros (a & u & b & -> & Hr). exists (s ++ a), u, b. by rewrite <- !app_assoc. Qed.

Lemma ran_runs p t : runs p t None -> ran p t.
Proof. intros Hr. exists [], t, []. by rewrite app_nil_r. Qed.

Lemma each_ran {X} (f : X -> agent (option GoErr)) l t :
  runs (each f l) t None -> forall x, x ∈ l -> ran (f x) t.
Proof.
  revert t. induction l as [|y l IH]; cbn [each]; intros t Hr x Hx; [by apply not_elem_of_nil in Hx|].
  apply runs_bind in Hr as (t1 & t2 & [err|] & -> & H1 & H2); [by destruct H2|].
  apply elem_of_cons in Hx as [->|Hx]; [by apply ran_app, ran_runs|]. apply ran_app_r. by eapply IH.
Qed.

(** ** The policy *)

Section Policy.
Context (Unmarshal : string -> sfdiskJSONTable + GoErr) (GOARCH : string).
Context (hasProgress hasConsole : bool) (rounds : nat) (plan : DeployPlan).

Local Abbreviation plans := (diskPlans plan).

(** The disk is as large as its layout asks, by what the size query printed. *)
Definition fits (dp : diskPlan) (out : string) : bool :=
  match MinimumDiskBytes Unmarshal (dp_sfdiskScript dp), Atoi (TrimSpace out) with
  | inl minBytes, Some actual => minBytes <=? actual
  | _, _ => false
  end.

Definition size_query (disk : string) : act := ARun None "blockdev" ["--getsize64"; disk].

Definition is_query (a : act) : bool :=
  match a with
  | ANow => true
  | ARun None name [flag; _] => (name =s "blockdev") && (flag =s "--getsize64")
  | _ => false
  end.

(** Every disk of the plan passed the structural checks and the size check. *)
Definition verified (s : trace ans) : Prop :=
  check_structure ∅ plans = None /\
  forall dp, dp ∈ plans -> exists out : string,
    ev (R := ans) (size_query (dp_disk dp)) (inl out) ∈ s /\ fits dp out = true.

(** The device of one of the plan's slots, of the content given. *)
Definition slot_device (content : DeploySlot -> Prop) (d : string) : Prop :=
  exists dp sl, dp ∈ plans /\ sl ∈ dp_slots dp /\ d = DevicePartitionPath (dp_disk dp) (slot_Number sl) /\ content sl.

Definition is_swap (sl : DeploySlot) : Prop := exists w, slot_Swap sl = Some w.
Definition is_fs (fs : string) (sl : DeploySlot) : Prop := exists m, slot_Mkfs sl = Some m /\ mkfs_Filesystem m = fs.
Definition is_torrent (sl : DeploySlot) : Prop := exists t, slot_Torrent sl = Some t.

Definition hook_step (step : ResolvedHookStep) : Prop := exists hook, hook ∈ plan_Hooks plan /\ step ∈ hook_Steps hook.
Definition step_disk (step : ResolvedHookStep) : string := finalizeDisk plan (step_Params step).

(** The commands of a hook step: they act on the disk and the partition its
    parameters name, which default to the target disk and its last slot. *)
Inductive hook_command (step : ResolvedHookStep) : string -> list string -> Prop :=
| hook_growpart n dev fs : grow_target plan (step_Params step) = inl (n, dev, fs) ->
    hook_command step "growpart" [step_disk step; show_dec n]
| hook_resize n dev fs fs' name args : grow_target plan (step_Params step) = inl (n, dev, fs) ->
    fsResizeCommand fs' dev = Some (name, args) -> hook_command step name args
| hook_mount part mp : requirePartition (step_Params step) = inl part ->
    hook_command step "mount" ["-t"; "vfat"; DevicePartitionPath (step_disk step) part; mp]
| hook_entries : hook_command step "efibootmgr" []
| hook_drop_entry num : hook_command step "efibootmgr" ["--bootnum"; num; "--delete-bootnum"]
| hook_add_entry part loader : requirePartition (step_Params step) = inl part ->
    hook_command step "efibootmgr" ["--create"; "--disk"; step_disk step; "--part"; show_dec part;
      "--loader"; loader; "--label"; efibootLabel plan].

(** Every command the executor may run once the disks are checked. *)
Inductive command : option string -> string -> list string -> Prop :=
| cmd_table dp script : dp ∈ plans -> SfdiskScript Unmarshal (dp_sfdiskScript dp) (dp_disk dp) = inl script ->
    command (Some script) "sfdisk" [dp_disk dp]
| cmd_reread dp : dp ∈ plans -> command None "blockdev" ["--rereadpt"; dp_disk dp]
| cmd_mkswap opts d : slot_device is_swap d -> command None "mkswap" (opts ++ [d])
| cmd_mkfs fs opts d : slot_device (is_fs fs) d -> command None (String.append "mkfs." fs) (opts ++ [d])
| cmd_umount args : command None "umount" args
| cmd_hook step name args : hook_step step -> hook_command step name args -> command None name args
| cmd_handoff action : command None "systemctl" [action].

(** The call names what the plan gives for it: a command is one of the above, a
    script is that of a hook step, and a torrent is written to its slot. *)
Definition named (a : act) : Prop :=
  match a with
  | ARun stdin name args => command stdin name args
  | ARunEnv env name args => env = scriptStepEnv plan /\ name = "/bin/sh" /\ exists path, args = ["-e"; path]
  | AWriteFile _ content => exists step, hook_step step /\ content = step_Content step
  | AAddTorrent _ savePath _ _ _ => slot_device is_torrent savePath
  | _ => True
  end.

Definition is_handoff (a : act) : Prop := match a with ARun _ name _ => name = "systemctl" | _ => False end.

Definition success_report (a : act) : Prop :=
  match a with
  | AReport req => Step req = DeployRunPhaseSucceeded /\ ReportState req = ProgressStateSucceeded
  | _ => False
  end.

(** The daemon was asked for all torrents of the plan, and every torrent of an
    answer that was not empty was finished and paused. *)
Definition stopped (s : trace ans) : Prop :=
  torrentHashes plans = [] \/ exists st : list (string * Torrent),
    ev (R := ans) (AGetTorrentStatus (torrentHashes plans)) (inl st) ∈ s /\ st <> [] /\
    forall h t, (h, t) ∈ st -> t_IsFinished t = true /\ t_IsPaused t = true.

(** All the work of the plan is done. *)
Definition deployed (s : trace ans) : Prop :=
  (forall dp, dp ∈ plans -> ran (writePartitionTable Unmarshal dp) s) /\
  (forall dp sl, dp ∈ plans -> sl ∈ dp_slots dp -> ran (writeSlot plan dp sl) s) /\
  stopped s /\
  (forall step, hook_step step -> ran (runHookStep GOARCH plan step) s).

(** A report of success and the handoff come after all the work; apart from
    reports and size queries nothing comes before the checks. *)
Definition policy (s : trace ans) (a : act) : Prop :=
  (success_report a \/ is_handoff a -> deployed s) /\
  match a with
  | AReport _ => True
  | _ => if is_query a then True else verified s /\ named a
  end.

Definition guard : monitor ans (trace ans) := history policy (fun _ _ => True).

(** The calls of the work itself, in one phase of the deploy. *)
Section Tame.
Context (phase : string).

Definition reports (a : act) : Prop := match a with AReport req => Step req = phase | _ => True end.
Definition tame (a : act) : Prop := named a /\ ~ is_handoff a /\ ~ success_report a /\ reports a.

Lemma verified_app s t : verified s -> verified (s ++ t).
Proof.
  intros [Hc Hv]. split; [done|]. intros dp Hdp. destruct (Hv dp Hdp) as (out & Hin & Hf).
  exists out. split; [|done]. apply elem_of_app. by left.
Qed.

Lemma tame_policy s a : verified s -> tame a -> policy s a.
Proof.
  intros Hv (Hn & Hh & Hs & _). split; [tauto|]. by destruct a; try done; destruct (is_query _).
Qed.

Lemma wp_tame {X} (p : agent X) s : verified s -> calls tame p ->
  wp guard p s (fun x s' => exists t, s' = s ++ t /\ runs p t x).
Proof.
  intros Hv Hp. eapply wp_mono; [eapply wp_history; [exact Hp|]|].
  - intros t a Ha. apply tame_policy; [by apply verified_app|done].
  - intros x s' (t & -> & Hr & _). by exists t.
Qed.

(** *** The work is tame *)

Lemma report_tame step state message percent bytes parts :
  step = phase -> ~ (step = DeployRunPhaseSucceeded /\ state = ProgressStateSucceeded) ->
  calls tame (report hasProgress plan step state message percent bytes parts).
Proof.
  intros Hp Hs. unfold report. destruct hasProgress; [|done]. cbn [negb do call bind].
  apply calls_vis; [by split_and!; [done|intros []..|done]|]. intros now. apply calls_vis; [|done].
  split_and!; [done|intros []|exact Hs|exact Hp].
Qed.

Lemma check_slots_ok dp slots : check_slots dp slots = None ->
  forall s, s ∈ slots -> slot_Device s = DevicePartitionPath (dp_disk dp) (slot_Number s).
Proof.
  induction slots as [|s slots IH]; cbn [check_slots]; intros Hc x Hx; [by apply not_elem_of_nil in Hx|].
  destruct (String.eqb_spec (slot_Device s) (DevicePartitionPath (dp_disk dp) (slot_Number s))) as [E|]; [|done].
  apply elem_of_cons in Hx as [->|Hx]; auto.
Qed.

Lemma check_structure_ok seen l : check_structure seen l = None ->
  NoDup (dp_disk <$> l) /\ (forall dp, dp ∈ l -> dp_disk dp ∉ seen) /\
  forall dp, dp ∈ l -> HasPrefix (dp_disk dp) "/dev/" = true /\
    forall s, s ∈ dp_slots dp -> slot_Device s = DevicePartitionPath (dp_disk dp) (slot_Number s).
Proof.
  revert seen. induction l as [|dp l IH]; intros seen; cbn [check_structure].
  { intros _. split_and!; [apply NoDup_nil_2|set_solver..]. }
  destruct (HasPrefix (dp_disk dp) "/dev/") eqn:Hp; [|done]. cbn [negb]. case_bool_decide as Hs; [done|].
  destruct (check_slots dp (dp_slots dp)) eqn:Hc; [done|]. intros (Hn & Hd & Hf)%IH.
  split_and!.
  - cbn. constructor; [|done]. intros (x & E & Hx)%list_elem_of_fmap. apply (Hd x Hx). set_solver.
  - intros x [->|Hx]%elem_of_cons; [done|]. specialize (Hd x Hx). set_solver.
  - intros x [->|Hx]%elem_of_cons; [|auto]. split; [done|]. by apply check_slots_ok.
Qed.

(** A call that names no device, or a command for which the hypotheses say so. *)
Ltac tame_plain :=
  split; [|split; [|split]]; cbn [named is_handoff success_report reports];
  [first [exact I|constructor; done]|first [discriminate|intros []]|first [intros []|auto]|exact I].

Ltac tame_steps := repeat (calls_step; try (by tame_plain)).

Lemma tame_command stdin name args : command stdin name args -> name <> "systemctl" -> tame (ARun stdin name args).
Proof. intros Hc Hn. split_and!; [done|done|intros []|done]. Qed.

Lemma run_tame name args : command None name args -> name <> "systemctl" -> calls tame (Run name args).
Proof. intros Hc Hn. apply calls_vis; [by apply tame_command|done]. Qed.

Lemma writePartitionTable_tame dp : dp ∈ plans -> calls tame (writePartitionTable Unmarshal dp).
Proof.
  intros Hdp. unfold writePartitionTable. destruct (SfdiskScript _ _ _) as [script|] eqn:E; [|done].
  apply calls_bind; [apply calls_vis; [apply tame_command; [by eapply cmd_table|done]|done]|]. intros [x|err]; [|done].
  apply calls_bind; [apply run_tame; [by apply cmd_reread|done]|]. intros r. by destruct r.
Qed.

Lemma slot_path dp sl (content : DeploySlot -> Prop) : check_structure ∅ plans = None -> dp ∈ plans -> sl ∈ dp_slots dp ->
  content sl -> slot_device content (slot_Device sl).
Proof.
  intros Hc Hdp Hsl Hk. destruct (check_structure_ok _ _ Hc) as (_ & _ & Hd). destruct (Hd dp Hdp) as [_ Hdev].
  exists dp, sl. auto.
Qed.

Lemma mkswap_tame dp sl w : check_structure ∅ plans = None -> dp ∈ plans -> sl ∈ dp_slots dp -> slot_Swap sl = Some w ->
  calls tame (runMkswap dp sl w).
Proof.
  intros Hc Hdp Hsl Hw. unfold runMkswap. cbv zeta. apply calls_bind; [|intros r; by destruct r].
  apply run_tame; [|done]. apply cmd_mkswap. eapply slot_path; [done..|by exists w].
Qed.

Lemma mkfs_tame dp sl m : check_structure ∅ plans = None -> dp ∈ plans -> sl ∈ dp_slots dp -> slot_Mkfs sl = Some m ->
  calls tame (runMkfs dp sl m).
Proof.
  intros Hc Hdp Hsl Hm. unfold runMkfs. cbv zeta. apply calls_bind; [|intros r; by destruct r].
  apply run_tame; [|done]. rewrite app_assoc. apply cmd_mkfs. eapply slot_path; [done..|by exists m].
Qed.

Lemma writeSlot_tame dp sl : check_structure ∅ plans = None -> dp ∈ plans -> sl ∈ dp_slots dp ->
  calls tame (writeSlot plan dp sl).
Proof.
  intros Hc Hdp Hsl. unfold writeSlot.
  destruct (slot_Swap sl) eqn:Hw; [by apply mkswap_tame|]. destruct (slot_Mkfs sl) eqn:Hm; [by apply mkfs_tame|].
  destruct (slot_Torrent sl) as [t|] eqn:Ht; [|done]. apply calls_bind; [by tame_steps|]. intros [bytes|err]; [|done].
  cbv zeta. apply calls_bind; [|intros r; by destruct r]. apply calls_vis; [|done].
  split_and!; [eapply slot_path; [done..|by exists t]|intros []..|done].
Qed.

Lemma writeSlots_tame dp : DeployRunPhaseWritingContent = phase -> check_structure ∅ plans = None -> dp ∈ plans ->
  calls tame (writeSlots hasProgress plan dp).
Proof.
  intros Hph Hc Hdp. apply each_calls. intros sl Hsl. apply calls_bind; [by apply writeSlot_tame|].
  intros [err|]; [done|]. destruct (slot_Torrent sl); [done|]. apply calls_bind; [|done].
  apply report_tame; [done|]. by intros [? _].
Qed.

Lemma seed_pass_tame nums st a b ps : calls tame (seed_pass nums st a b ps).
Proof.
  revert a b ps. induction st as [|[h t] st IH]; intros a b ps; cbn [seed_pass]; [done|]. cbv zeta.
  apply calls_bind; [|intros _; apply IH]. destruct (shouldPauseTorrent t); tame_steps.
Qed.

Lemma seed_loop_tame n hashes nums : DeployRunPhaseWritingContent = phase -> calls tame (seed_loop hasProgress n plan hashes nums).
Proof.
  intros Hph. induction n as [|n IH]; cbn [seed_loop]; [apply calls_vis; [tame_plain|intros []]|].
  apply calls_bind; [by tame_steps|]. intros r. apply calls_bind.
  { destruct r as [st|err]; [|done]. apply calls_bind; [apply seed_pass_tame|]. intros [[x y] ps].
    apply calls_bind; [apply report_tame; [done|by intros [? _]]|done]. }
  intros [|]; [done|]. apply calls_bind; [by tame_steps|]. intros [err|]; [done|apply IH].
Qed.

(** *** Hooks *)

Lemma umount_tame l : calls tame (unmountAll l).
Proof.
  unfold unmountAll. induction (rev l) as [|m l' IH]; cbn [unmount_list]; [done|].
  apply calls_bind; [by apply run_tame; [constructor|]|]. intros [x|err]; [apply IH|].
  apply calls_bind; [by apply run_tame; [constructor|]|]. intros _. apply IH.
Qed.

Lemma find_candidate_tame dir l : calls tame (find_candidate dir l).
Proof.
  induction l as [|c l IH]; cbn [find_candidate]; [done|]. cbv zeta. apply calls_bind; [by tame_steps|].
  intros [[|]|err]; [done|apply IH..].
Qed.

Lemma find_in_entries_tame dir l cs : calls tame (find_in_entries dir l cs).
Proof.
  induction l as [|[name d] l IH]; cbn [find_in_entries]; [done|]. destruct (_ || _); [apply IH|].
  apply calls_bind; [apply find_candidate_tame|]. intros [path|]; [done|apply IH].
Qed.

Lemma findESPBootloader_tame root cs : calls tame (findESPBootloader root cs).
Proof.
  unfold findESPBootloader. cbv zeta. apply calls_bind; [by tame_steps|]. intros [entries|err]; [|done].
  apply calls_bind; [apply find_in_entries_tame|]. intros r. by destruct r.
Qed.

Lemma copyFile_tame src dst : calls tame (copyFile src dst).
Proof. tame_steps. Qed.

Lemma installESPFile_tame root rel src : calls tame (installESPFile root rel src).
Proof.
  unfold installESPFile. cbv zeta. apply calls_bind; [by tame_steps|]. intros [err|]; [done|].
  apply calls_bind; [apply copyFile_tame|]. intros r. by destruct r.
Qed.

Lemma second_stage_tame root rel grub installed b : calls tame (ensure_second_stage root rel grub installed b).
Proof.
  unfold ensure_second_stage. cbv zeta. apply calls_bind; [by tame_steps|]. intros [[|]|err]; [done| |done].
  apply calls_bind; [apply findESPBootloader_tame|]. intros [src|[none err]]; [|by destruct (_ && _)].
  apply calls_bind; [apply installESPFile_tame|]. intros r. by destruct r.
Qed.

Lemma fallback_chain_tame root rel shim grub : calls tame (ensureRemovableFallbackChain root rel shim grub).
Proof.
  unfold ensureRemovableFallbackChain. apply calls_bind; [by tame_steps|].
  intros [[|]|err]; [apply second_stage_tame| |done].
  apply calls_bind; [apply findESPBootloader_tame|]. intros [src|[none err]]; [|done].
  apply calls_bind; [apply installESPFile_tame|]. intros [err|]; [done|].
  destruct (EqualFold _ _); [apply second_stage_tame|done].
Qed.

Lemma hook_tame step name args : hook_step step -> hook_command step name args -> name <> "systemctl" ->
  calls tame (Run name args).
Proof. intros Hs Hc Hn. apply run_tame; [by eapply cmd_hook|done]. Qed.

Lemma install_fallback_tame step part : hook_step step -> requirePartition (step_Params step) = inl part ->
  calls tame (installRemovableFallback GOARCH (step_disk step) (DevicePartitionPath (step_disk step) part)).
Proof.
  intros Hs Hp. unfold installRemovableFallback. destruct (efiRemovableLoaderPathForArch _); [|done].
  destruct (espLoaderNames _) as [[shim grub]|]; [|done]. cbv zeta. apply calls_bind; [by tame_steps|].
  intros [mp|err]; [|done]. apply calls_bind.
  - apply calls_bind; [by eapply hook_tame; [|constructor|]|]. intros [x|err]; [|done].
    apply calls_bind; [apply fallback_chain_tame|]. intros [l [err|]]; [done|].
    apply calls_bind; [by tame_steps|]. intros r. by destruct r.
  - intros res. apply calls_bind; [apply umount_tame|]. intros _. tame_steps.
Qed.

Lemma efi_entry_tame step part : hook_step step -> requirePartition (step_Params step) = inl part ->
  calls tame (ensureEFIBootEntry GOARCH plan (step_disk step) part).
Proof.
  intros Hs Hp. unfold ensureEFIBootEntry. destruct (efiRemovableLoaderPathForArch _); [|done]. cbv zeta.
  apply calls_bind; [by eapply hook_tame; [|constructor|]|]. intros [out|err]; [|done].
  apply calls_bind.
  - apply each_calls. intros num _. apply calls_bind; [by eapply hook_tame; [|constructor|]|]. intros r. by destruct r.
  - intros [err|]; [done|]. apply calls_bind; [by eapply hook_tame; [|constructor|]|]. intros r. by destruct r.
Qed.

Lemma grow_tame step partition device fs fsType : hook_step step ->
  grow_target plan (step_Params step) = inl (partition, device, fs) ->
  calls tame (growLastPartition (step_disk step) partition device fsType).
Proof.
  intros Hs Hg. unfold growLastPartition. apply calls_bind; [by eapply hook_tame; [|by eapply hook_growpart|]|].
  intros [x|err]; [|done]. destruct (fsResizeCommand fsType device) as [[name args]|] eqn:E; [|done].
  apply calls_bind; [|intros r; by destruct r]. eapply hook_tame; [done|by eapply hook_resize|].
  unfold fsResizeCommand in E. repeat case_match; by simplify_eq.
Qed.

Lemma runHookStep_tame step : check_structure ∅ plans = None -> hook_step step ->
  calls tame (runHookStep GOARCH plan step).
Proof.
  intros Hc Hs. unfold runHookStep. case_match; [|case_match; [|done]].
  - unfold runBuiltinStep. cbv zeta. repeat case_match; try done.
    + apply each_calls. intros dp Hdp. apply each_calls. intros sl Hsl.
      destruct (slot_Swap sl) eqn:Hw; [by apply mkswap_tame|done].
    + unfold runBuiltinEfibootmgr. destruct (requirePartition _) eqn:E; [by apply efi_entry_tame|done].
    + unfold runBuiltinGrowLastPartition. destruct (grow_target _ _) as [[[n d] f]|] eqn:E; [by eapply grow_tame|done].
    + unfold runBuiltinInstallRemovableFallback. destruct (requirePartition _) eqn:E; [by apply install_fallback_tame|done].
  - unfold runScriptStep. apply calls_bind; [by tame_steps|]. intros [path|err]; [|done].
    apply calls_bind; [|intros res; tame_steps]. apply calls_bind.
    { apply calls_vis; [|done]. split_and!; [by exists step|intros []..|done]. }
    intros [[e1|] [e2|]]; [done..|]. apply calls_bind; [by tame_steps|]. intros [err|]; [done|].
    apply calls_bind; [|intros r; by destruct r]. apply calls_vis; [|done].
    split_and!; [split_and!; [done|done|by exists path]|intros []..|done].
Qed.

Lemma run_steps_tame name i n steps : check_structure ∅ plans = None -> (forall st, st ∈ steps -> hook_step st) ->
  calls tame (run_steps GOARCH plan name i n steps).
Proof.
  intros Hc. revert i. induction steps as [|st steps IH]; intros i Hs; cbn [run_steps]; [done|].
  apply calls_bind; [apply runHookStep_tame; [done|]; apply Hs; left|]. intros [err|]; [done|].
  apply IH. intros x Hx. apply Hs. by right.
Qed.

Lemma runHooks_tame : check_structure ∅ plans = None -> calls tame (runHooks GOARCH plan).
Proof.
  intros Hc. apply each_calls. intros hook Hh. apply run_steps_tame; [done|]. intros st Hst. by exists hook.
Qed.

Lemma daemon_tame a : match a with ALaunch _ | AShutdown | AStop => True | _ => False end -> calls tame (do a).
Proof. intros Ha. apply calls_vis; [|done]. destruct a; try done; split_and!; done || intros []. Qed.
End Tame.

Lemma run_steps_ran name i n steps t : runs (run_steps GOARCH plan name i n steps) t None ->
  forall st, st ∈ steps -> ran (runHookStep GOARCH plan st) t.
Proof.
  revert i t. induction steps as [|x steps IH]; cbn [run_steps]; intros i t Hr st Hst; [by apply not_elem_of_nil in Hst|].
  apply runs_bind in Hr as (t1 & t2 & [err|] & -> & H1 & H2); [by destruct H2|].
  apply elem_of_cons in Hst as [->|Hst]; [by apply ran_app, ran_runs|]. apply ran_app_r. by eapply IH.
Qed.

Lemma runHooks_ran t : runs (runHooks GOARCH plan) t None -> forall st, hook_step st -> ran (runHookStep GOARCH plan st) t.
Proof.
  intros Hr st (hook & Hh & Hst). apply (each_ran _ _ _ Hr) in Hh as (a & u & b & -> & Hu).
  apply ran_app_r, ran_app. by eapply run_steps_ran.
Qed.

(** *** Runs without an error *)

Lemma checkDiskSize_ran dp s : ran (checkDiskSize Unmarshal dp) s ->
  exists out : string, ev (R := ans) (size_query (dp_disk dp)) (inl out) ∈ s /\ fits dp out = true.
Proof.
  intros (a & t & b & -> & Hr). unfold checkDiskSize in Hr. unfold fits.
  destruct (MinimumDiskBytes _ _) as [m|]; [|by destruct Hr].
  apply runs_bind in Hr as (t1 & t2 & [out|err] & -> & Hq & Hr); [|by destruct Hr].
  destruct (Atoi (TrimSpace out)) as [n|] eqn:Ea; [|by destruct Hr].
  destruct (Z.ltb_spec n m); [by destruct Hr|]. exists out. rewrite Ea. split; [|by apply Z.leb_le].
  destruct Hq as (r & t' & -> & -> & <-). set_solver.
Qed.

Lemma writeSlots_ran t : runs (each (writeSlots hasProgress plan) plans) t None ->
  forall dp sl, dp ∈ plans -> sl ∈ dp_slots dp -> ran (writeSlot plan dp sl) t.
Proof.
  intros Hr dp sl Hdp Hsl. apply (each_ran _ _ _ Hr) in Hdp as (a & u & b & -> & Hu).
  apply ran_app_r, ran_app. apply (each_ran _ _ _ Hu) in Hsl as (a' & u' & b' & -> & Hu').
  apply ran_app_r, ran_app. apply runs_bind in Hu' as (t1 & t2 & [err|] & -> & H1 & H2); [by destruct H2|].
  by apply ran_app, ran_runs.
Qed.

Lemma seed_loop_stops n hashes nums t :
  runs (seed_loop hasProgress n plan hashes nums) t None ->
  exists st : list (string * Torrent), ev (R := ans) (AGetTorrentStatus hashes) (inl st) ∈ t /\ allStopped st = true.
Proof.
  revert t. induction n as [|n IH]; cbn [seed_loop]; intros t Hr; [by destruct Hr as ([] & _)|].
  destruct Hr as (r & t1 & -> & Hr). cbn [bind] in Hr.
  apply runs_bind in Hr as (t2 & t3 & b & -> & Hb & Hr). destruct b.
  - destruct r as [st|err]; [|by destruct Hb]. apply runs_bind in Hb as (t4 & t5 & [[x y] ps] & -> & _ & Hb).
    apply runs_bind in Hb as (t6 & t7 & u & -> & _ & [_ E]). exists st. split; [left|done].
  - destruct Hr as ([err|] & t4 & -> & Hr); [by destruct Hr|].
    destruct (IH t4 Hr) as (st & Hin & Hs). exists st. split; [set_solver|done].
Qed.

Lemma seed_stopped t : runs (seedUntilStopped hasProgress rounds plan plans) t None -> stopped t.
Proof.
  unfold seedUntilStopped, stopped. destruct (torrentHashes plans) as [|h0 hs]; [by left|].
  intros Hr. right. destruct (seed_loop_stops _ _ _ _ Hr) as (st & Hin & Hst). exists st. split_and!; [done|by intros ->|].
  intros h t' Hx. assert (Hf : forallb (fun x : string * Torrent => t_IsFinished x.2 && t_IsPaused x.2) st = true) by (by destruct st).
  rewrite forallb_forall in Hf. by apply list_elem_of_In, Hf, andb_true_iff in Hx.
Qed.

Lemma stopped_app s t : stopped s -> stopped (s ++ t).
Proof. intros [H|(st & Hin & Hx)]; [by left|]. right. exists st. split; [|done]. apply elem_of_app. by left. Qed.

Lemma stopped_app_r s t : stopped t -> stopped (s ++ t).
Proof. intros [H|(st & Hin & Hx)]; [by left|]. right. exists st. split; [|done]. apply elem_of_app. by right. Qed.

Lemma deployed_app s t : deployed s -> deployed (s ++ t).
Proof.
  intros (H1 & H2 & H3 & H4). split_and!; [auto using ran_app..|by apply stopped_app|auto using ran_app].
Qed.

Lemma wp_deployed {X} (p : agent X) s : verified s -> deployed s -> calls named p ->
  wp guard p s (fun x s' => verified s' /\ deployed s').
Proof.
  intros Hv Hd Hp. eapply wp_mono; [eapply (wp_history policy _ p s named Hp)|].
  - intros t a Ha. split; [intros _; by apply deployed_app|].
    destruct a; try done; (destruct (is_query _); [done|]); (split; [by apply verified_app|done]).
  - intros x s' (t & -> & _). split; [by apply verified_app|by apply deployed_app].
Qed.

Lemma report_named step state message percent bytes parts :
  calls named (report hasProgress plan step state message percent bytes parts).
Proof. unfold report. destruct hasProgress; [|done]. by repeat calls_step. Qed.

Lemma wp_report_failed s step message :
  wp guard (reportFailed hasProgress plan step message) s (fun _ _ => True).
Proof.
  unfold reportFailed, report. destruct hasProgress; [|done]. cbn [negb do call bind wp].
  split; [split; [by intros [[]|[]]|done]|]. intros now _. split; [|done].
  split; [|done]. intros [[_ H]|[]]. discriminate H.
Qed.

(** *** The run *)

Lemma validate_wp : wp guard (validate Unmarshal plans) [] (fun r s => r = None -> verified s).
Proof.
  unfold validate. destruct (check_structure ∅ plans) eqn:Hc; [done|].
  eapply wp_mono; [eapply (wp_history policy _ _ [] (fun a => is_query a = true))|].
  - apply each_calls. intros dp _. unfold checkDiskSize. by repeat calls_step.
  - intros t a Ha. split.
    + destruct a; try discriminate; [|by intros [[]|[]]]. intros [[]|Hh]. cbn in Hh. subst. by destruct stdin, args as [|? [|? [|? ?]]].
    + destruct a; try done; by rewrite Ha.
  - cbn. intros r s (t & -> & Hr & _) ->. split; [done|]. intros dp Hdp. by eapply checkDiskSize_ran, each_ran.
Qed.

Lemma finish_wp s : verified s ->
  (forall dp, dp ∈ plans -> ran (writePartitionTable Unmarshal dp) s) ->
  (forall dp sl, dp ∈ plans -> sl ∈ dp_slots dp -> ran (writeSlot plan dp sl) s) ->
  stopped s -> wp guard (finish GOARCH hasProgress hasConsole plan) s (fun _ s' => verified s').
Proof.
  intros Hv Ht Hw Hst. unfold finish.
  do 2 (eapply wp_seq; [eapply wp_tame; [by repeat apply verified_app|apply report_tame; [done|by intros [? _]]]|];
        intros _ ? (? & -> & _)).
  eapply wp_seq; [eapply wp_tame; [by repeat apply verified_app|apply (runHooks_tame ""), Hv]|].
  intros [err|] s3 (t3 & -> & Hr); [by repeat apply verified_app|]. rewrite <- !app_assoc.
  eapply wp_mono; [apply wp_deployed|by intros ? s' [? _]].
  - by apply verified_app.
  - split_and!; intros; try (by apply ran_app; auto).
    + by apply stopped_app.
    + do 3 apply ran_app_r. by apply runHooks_ran.
  - repeat (apply calls_bind; [apply report_named|intros _]). apply calls_bind; [by repeat calls_step|]. intros _.
    apply calls_bind; [|intros [err|]; done]. unfold rebootOrPowerOff. cbv zeta. apply calls_bind; [|intros r; by destruct r].
    apply calls_vis; [|done]. constructor.
Qed.

Lemma no_torrents_stopped s : hasTorrentSlot plans = false -> stopped s.
Proof.
  unfold hasTorrentSlot, stopped, torrentHashes. intros Hn. left. destruct (omap _ _) as [|h l] eqn:El; [done|].
  assert (Hh : h ∈ h :: l) by left. rewrite <- El in Hh. apply list_elem_of_omap in Hh as (sl & Hsl & E).
  assert (Hx : existsb (fun s => match slot_Torrent s with Some _ => true | None => false end) (all_slots plans) = true).
  { apply existsb_exists. exists sl. split; [by apply list_elem_of_In|]. by destruct (slot_Torrent sl). }
  congruence.
Qed.

Lemma write_content_wp s : verified s -> (forall dp, dp ∈ plans -> ran (writePartitionTable Unmarshal dp) s) ->
  wp guard (write_content GOARCH hasProgress hasConsole rounds plan plans) s (fun _ s' => verified s').
Proof.
  intros Hv Ht. unfold write_content.
  eapply wp_seq; [eapply wp_tame; [done|apply each_calls; intros dp Hdp; apply writeSlots_tame; [done|apply Hv|done]]|].
  intros [err|] s1 (t1 & -> & Hw); [by apply verified_app|]. pose proof (writeSlots_ran _ Hw) as Hslots.
  destruct (hasTorrentSlot plans) eqn:Htor.
  2: { apply finish_wp; [by apply verified_app| | |by apply no_torrents_stopped];
       intros; [by apply ran_app; auto|by apply ran_app_r; auto]. }
  eapply wp_seq; [apply (wp_tame DeployRunPhaseWritingContent); [by apply verified_app|]|].
  { unfold seedUntilStopped. destruct (torrentHashes plans); [done|by apply seed_loop_tame]. }
  intros [err|] s2 (t2 & -> & Hs); [by do 2 apply verified_app|].
  eapply wp_seq; [eapply wp_tame; [by do 2 apply verified_app|by apply (daemon_tame "")]|].
  intros r s3 (t3 & -> & _). apply finish_wp; [by do 3 apply verified_app| | |]; intros; rewrite <- ?app_assoc.
  - by apply ran_app; auto.
  - apply ran_app_r, ran_app. auto.
  - do 2 apply stopped_app_r. by apply stopped_app, seed_stopped.
Qed.

Lemma execute_body_wp : wp guard (execute_body Unmarshal GOARCH hasProgress hasConsole rounds plan) [] (fun _ _ => True).
Proof.
  unfold execute_body. cbv zeta. eapply wp_seq; [apply validate_wp|]. intros [err|] s Hv; [done|]. specialize (Hv eq_refl).
  eapply wp_seq; [eapply wp_tame; [done|apply report_tame; [done|by intros [? _]]]|]. intros _ s1 (t1 & -> & _).
  eapply wp_seq; [eapply wp_tame; [by apply verified_app|apply each_calls; intros; by apply (writePartitionTable_tame "")]|].
  intros [err|] s2 (t2 & -> & Ht); [done|]. pose proof (each_ran _ _ _ Ht) as Htab.
  do 2 (eapply wp_seq; [eapply wp_tame; [by repeat apply verified_app|apply report_tame; [done|by intros [? _]]]|];
        intros _ ? (? & -> & _)).
  assert (Hr : forall t dp, dp ∈ plans -> ran (writePartitionTable Unmarshal dp) ((s ++ t1) ++ t2 ++ t)).
  { intros t dp Hdp. apply ran_app_r, ran_app. auto. }
  destruct (hasTorrentSlot plans) eqn:Htor.
  2: { eapply wp_mono; [apply write_content_wp|done]; [by repeat apply verified_app|].
       intros dp Hdp. rewrite <- !app_assoc. rewrite app_assoc. auto. }
  eapply wp_seq; [eapply wp_tame; [by repeat apply verified_app|by apply (daemon_tame "")]|].
  intros [b|err] s3 (t3 & -> & _); [|done]. eapply wp_seq; [apply write_content_wp|].
  - by repeat apply verified_app.
  - intros dp Hdp. rewrite <- !app_assoc. rewrite app_assoc. auto.
  - intros r s4 Hv4. destruct b; [|done]. eapply wp_mono; [apply (wp_tame ""); [done|]|done].
    apply calls_bind; [by apply daemon_tame|done].
Qed.

Lemma Execute_wp : wp guard (Execute Unmarshal GOARCH hasProgress hasConsole rounds plan) [] (fun _ _ => True).
Proof.
  unfold Execute. destruct (Validate plan); [done|]. eapply wp_seq; [apply execute_body_wp|].
  intros [step [err|]] s _; [|done]. eapply wp_seq; [apply wp_report_failed|]. done.
Qed.

(** C5. Whatever the commands, the daemon and the network answer, at every call
    of every run of the executor: unless the call is a progress report, a size
    query or a look at the clock, every disk of the plan has already passed the
    structural checks and reported a size its layout fits in; a command is one
    of a closed list (sfdisk with the script made of a disk's own table, on that
    disk; re-reading that table; mkswap and mkfs on the device of a slot of that
    content; umount; systemctl; and what a hook step runs on the disk and
    partition its own parameters name: growpart, a file-system resize, a mount
    and efibootmgr), a script is a hook step's, and a torrent is written to the
    device of a torrent slot.  Success is reported, and the machine handed over
    with systemctl, only after every partition table was written, every slot was
    filled and every hook step ran without an error and, if the plan has
    torrents, a status answer asked for all of them was not empty and showed each
    torrent in it finished and paused. *)
Theorem executor_guards_the_disks tr1 a r tr2 res
    (Hrun : runs (Execute Unmarshal GOARCH hasProgress hasConsole rounds plan) (tr1 ++ ev a r :: tr2) res) :
  policy tr1 a.
Proof.
  apply (history_obeyed policy (fun _ _ => True) _ _ _ _ _ _ _ Execute_wp Hrun). by apply Forall_true.
Qed.

(** ** Failures *)











End Policy.

(** ** Device names *)

Lemma paths_agree disk number : disk <> "" ->
  partitionDevicePath disk number = DevicePartitionPath disk number.
Proof.
  intros Hdisk.  unfold partitionDevicePath, DevicePartitionPath. destruct (last_char disk) as [c|] eqn:E.
  - destruct (is_digit c); done.
  - exfalso. clear -E Hdisk. induction disk as [|a [|b s] IH]; try done. by apply IH.
Qed.

(** The two processes name partitions alike: the path the plan builder writes
    into a slot is the one the agent recomputes and insists on, for every disk
    name and partition number. *)
Theorem device_paths_agree disk number (Hdisk : disk <> "") :
  partitionDevicePath disk number = DevicePartitionPath disk number.
Proof. by apply paths_agree. Qed.

(** *** Reading a partition number back *)

Lemma digit_char_code d : 0 <= d < 10 -> Z.of_nat (nat_of_ascii (digit_char d)) = d + 48.
Proof.
  intros Hd. pose proof (digits_forall (fun d => (10 <=? d) || (Z.of_nat (nat_of_ascii (digit_char d)) =? d + 48)) d eq_refl
    ltac:(lia)) as H. cbn beta in H. apply orb_true_iff in H as [H|H]; [apply Z.leb_le in H; lia|by apply Z.eqb_eq].
Qed.

Lemma is_digit_char d : 0 <= d < 10 -> is_digit (digit_char d) = true.
Proof.
  intros Hd. unfold is_digit, in_range. pose proof (digit_char_code d Hd). apply andb_true_iff.
  split; apply Nat.leb_le; lia.
Qed.

Lemma undigits_from_ge v ds : 0 <= v -> Forall (fun d => 0 <= d < 10) ds -> v <= undigits_from 10 v ds.
Proof.
  intros Hv Hf. revert v Hv. induction Hf as [|d ds Hd _ IH]; intros v Hv; [done|].
  change (v <= undigits_from 10 (v * 10 + d) ds). specialize (IH (v * 10 + d) ltac:(lia)). lia.
Qed.

Lemma fold_digits v ds : 0 <= v -> Forall (fun d => 0 <= d < 10) ds -> undigits_from 10 v ds < 2 ^ 31 ->
  fold_left (fun n c => int32 (int32 (n * 10) + (Z.of_nat (nat_of_ascii c) - 48))) (map digit_char ds) v
  = undigits_from 10 v ds.
Proof.
  intros Hv Hf. revert v Hv. induction Hf as [|d ds Hd Hf IH]; intros v Hv Hb; [done|].
  change (undigits_from 10 v (d :: ds)) with (undigits_from 10 (v * 10 + d) ds) in *.
  pose proof (undigits_from_ge (v * 10 + d) ds ltac:(lia) Hf). cbn [map fold_left].
  rewrite digit_char_code, (int32_id (v * 10)) by lia.
  replace (v * 10 + (d + 48 - 48)) with (v * 10 + d) by lia. rewrite int32_id by lia. apply IH; lia.
Qed.

Lemma trailing_digits_all ds l acc : Forall (fun d => 0 <= d < 10) ds ->
  match l with [] => True | c :: _ => is_digit c = false end ->
  trailing_digits (rev (map digit_char ds) ++ l) acc = map digit_char ds ++ acc.
Proof.
  intros Hf Hl. revert acc. induction ds as [|d ds IH] using rev_ind; intros acc; cbn.
  - destruct l as [|c l]; [done|]. cbn. by rewrite Hl.
  - apply Forall_app in Hf as [Hf Hd]. apply Forall_inv in Hd. rewrite map_app, rev_app_distr. cbn [map rev app trailing_digits].
    rewrite is_digit_char by done. rewrite IH by done. by rewrite <- app_assoc.
Qed.

Lemma last_char_app s c : last_char s = Some c -> exists l, list_ascii_of_string s = l ++ [c].
Proof.
  induction s as [|a [|b s] IH]; [done|by intros [= ->]; exists []|]. intros H.
  destruct (IH H) as [l Hl]. exists (a :: l). cbn in *. by rewrite Hl.
Qed.

Lemma device_path_text disk c number : last_char disk = Some c ->
  DevicePartitionPath disk number =
  String.append disk (String.append (if is_digit c then "p" else "") (show_dec number)).
Proof.
  intros E. unfold DevicePartitionPath. rewrite E. destruct (is_digit c); cbn; rewrite ?string_app_nil; done.
Qed.

(** The partition numbers of a captured table survive the restore: a node
    path of any disk, written with the kernel's naming rule, reads back as the
    partition number it was made from, whatever digits the disk name ends in. *)
Theorem partition_number_roundtrip disk number i (Hdisk : disk <> "") (Hn : 0 <= number < 2 ^ 31) :
  sfdiskPartitionNumber (DevicePartitionPath disk number) i = number.
Proof.
  destruct (last_char disk) as [c|] eqn:E.
  2: { exfalso. clear -E Hdisk. induction disk as [|a [|b s] IH]; try done. by apply IH. }
  rewrite (device_path_text _ _ _ E). destruct (last_char_app _ _ E) as [l Hl].
  destruct (digits_spec 10 number ltac:(lia) ltac:(lia)) as [Hu Hf].
  unfold sfdiskPartitionNumber, show_dec. destruct (Z.ltb_spec number 0); [lia|].
  rewrite !list_ascii_app, Hl. unfold string_of_digits. rewrite list_ascii_of_string_of_list_ascii.
  rewrite !rev_app_distr, <- app_assoc, trailing_digits_all, app_nil_r; [|done|].
  - pose proof (digits_nonempty 10 number). destruct (digits 10 number) as [|d ds] eqn:Ed; [done|].
    rewrite <- Hu. apply (fold_digits 0 (d :: ds)); [done|done|]. unfold undigits in Hu. lia.
  - by destruct (is_digit c) eqn:Ec; cbn.
Qed.

Lemma partition_number_roundtrip_witness :
  sfdiskPartitionNumber (DevicePartitionPath "/dev/nvme0n1" 12) 0 = 12.
Proof. apply partition_number_roundtrip; [discriminate|lia]. Defined.

Lemma device_paths_agree_witness : partitionDevicePath "/dev/sda" 1 = DevicePartitionPath "/dev/sda" 1.
Proof. apply device_paths_agree. discriminate. Defined.

(** ** Sizes *)

(** The numbers of a table stay within [int64]. *)
Definition in_int64 (t : sfdiskJSONTable) : Prop :=
  Forall (fun p => - 2 ^ 63 <= sp_Start p + sp_Size p < 2 ^ 63 /\
                   - 2 ^ 63 <= (sp_Start p + sp_Size p) * sector_size t < 2 ^ 63) (st_Partitions t).

Lemma max_end_ge ss ps m :
  let max := fold_left (fun m p => let e := partition_end ss p in if m <? e then e else m) ps m in
  m <= max /\ forall p, p ∈ ps -> partition_end ss p <= max.
Proof.
  cbv zeta. revert m. induction ps as [|p ps IH]; intros m; cbn [fold_left].
  { split; [done|]. intros p Hp. by apply not_elem_of_nil in Hp. }
  destruct (IH (if m <? partition_end ss p then partition_end ss p else m)) as [H1 H2].
  destruct (Z.ltb_spec m (partition_end ss p)); (split; [lia|]); intros q [->|Hq]%elem_of_cons; try (apply H2, Hq); lia.
Qed.

Section Sizes.
Context (Unmarshal : string -> sfdiskJSONTable + GoErr).

(** What the size check establishes: a disk that passes it holds every
    partition of its layout, provided the table's byte offsets are within
    [int64]. *)
Theorem checked_disk_holds_layout dp out table p
    (Hfit : fits Unmarshal dp out = true) (Htab : Unmarshal (dp_sfdiskScript dp) = inl table)
    (Hok : in_int64 table) (Hp : p ∈ st_Partitions table) :
  exists actual, Atoi (TrimSpace out) = Some actual /\
    (sp_Start p + sp_Size p) * sector_size table <= actual.
Proof.
  unfold fits, MinimumDiskBytes in Hfit. rewrite Htab in Hfit.
  destruct (Atoi (TrimSpace out)) as [actual|]; [|by destruct (_ =? 0)]. exists actual. split; [done|].
  destruct (_ =? 0); [done|]. apply Z.leb_le in Hfit.
  destruct (max_end_ge (sector_size table) (st_Partitions table) 0) as [_ Hmax]. specialize (Hmax p Hp).
  unfold in_int64 in Hok. rewrite Forall_forall in Hok. destruct (Hok p Hp) as [H1 H2].
  unfold partition_end in Hmax. rewrite (int64_id (sp_Start p + sp_Size p)) in Hmax by exact H1.
  rewrite int64_id in Hmax by exact H2. etransitivity; [exact Hmax|exact Hfit].
Qed.
End Sizes.

(** A table whose offsets leave [int64] is under-counted: a partition that starts
    beyond any disk passes a check of a megabyte. *)
Definition wrapping_table : sfdiskJSONTable :=
  mkSfTable "gpt" "" 512 [mkSfPartition "/dev/sda1" 2048 0 "" "" "" false;
                          mkSfPartition "/dev/sda2" (2 ^ 54) 1 "" "" "" false].

Example wrapped_offset_passes :
  fits (fun _ => inl wrapping_table) (mkDiskPlan "OS image" "/dev/sda" "" []) "1048576" = true
  /\ (sp_Start <$> st_Partitions wrapping_table) = [2048; 2 ^ 54].
Proof. vm_compute. done. Qed.

Definition small_table : sfdiskJSONTable :=
  mkSfTable "gpt" "" 512 [mkSfPartition "/dev/sda1" 2048 2048 "" "" "" false].

Lemma checked_disk_holds_layout_witness :
  exists actual, Atoi (TrimSpace "2097152") = Some actual /\ (2048 + 2048) * 512 <= actual.
Proof.
  apply (checked_disk_holds_layout (fun _ => inl small_table) (mkDiskPlan "OS image" "/dev/sda" "" []) "2097152"
    small_table (mkSfPartition "/dev/sda1" 2048 2048 "" "" "" false)).
  - reflexivity.
  - reflexivity.
  - repeat constructor; vm_compute; discriminate.
  - left.
Defined.

(** ** Partition numbers of hook steps *)

(** The guard on a hook step's partition number is on the wrong side of the
    narrowing: every number the builtins accept is positive as written, but what
    they act on is its value modulo 2^32, so [4294967297] passes for partition 1
    and [4294967296] for partition 0.  Up to 2^31 the number is kept. *)
Theorem requirePartition_narrows params raw n
    (Hraw : params !! "part" = Some raw) (Hn : Atoi raw = Some n) (Hpos : 0 < n) :
  requirePartition params = inl (int32 n) /\ (n < 2 ^ 31 -> requirePartition params = inl n).
Proof.
  assert (E : requirePartition params = inl (int32 n)).
  { unfold requirePartition. rewrite Hraw. cbn [from_option]. unfold id. destruct (String.eqb_spec raw "") as [->|_]; [done|].
    rewrite Hn. by destruct (Z.leb_spec n 0); [lia|]. }
  split; [done|]. intros Hlt. by rewrite E, int32_id by lia.
Qed.

Lemma requirePartition_narrows_witness :
  requirePartition {["part" := "4294967297"]} = inl 1.
Proof. apply (requirePartition_narrows _ "4294967297" 4294967297); [reflexivity|reflexivity|lia]. Defined.
