(* ===== verification/AgentBoot.v ===== *)
(** * AgentBoot: the boot chain the executor leaves behind, and the executor under the builder

    Theorems about the fallback loader of [AgentExec], and that a plan the builder
    gives passes the executor's structural checks. *)

From S2P Require Import Prelude Text Api AgentApi Effects Workloads Cluster Store DiskMatch SiteDerive PlanBuild PlanSafety.
From S2P Require Import AgentExec AgentExecSafety.
Local Open Scope string_scope.
Local Open Scope list_scope.
Local Open Scope Z_scope.

(** ** The fallback chain *)

(** A file that was seen, or copied and closed without an error. *)
Definition in_place (tr : trace ans) (path : string) : Prop :=
  ev (R := ans) (AStat path) (inl true) ∈ tr \/
  exists src, ev (R := ans) (ACopy src path) None ∈ tr /\ ev (R := ans) (AClose path) None ∈ tr.

Lemma in_place_app_l t u p : in_place t p -> in_place (t ++ u) p.
Proof. intros [H|(src & H1 & H2)]; [left|right; exists src]; set_solver. Qed.

Lemma in_place_app_r t u p : in_place u p -> in_place (t ++ u) p.
Proof. intros [H|(src & H1 & H2)]; [left|right; exists src]; set_solver. Qed.

Definition no_copy (a : act) : Prop := match a with ACopy _ _ => False | _ => True end.

Lemma find_no_copy root cs : calls no_copy (findESPBootloader root cs).
Proof.
  assert (Hc : forall dir l, calls no_copy (find_candidate dir l)).
  { intros dir l. induction l as [|c l IH]; cbn [find_candidate]; [done|]. cbv zeta. apply calls_bind; [by repeat calls_step|].
    intros [[|]|err]; [done|apply IH..]. }
  assert (He : forall dir l, calls no_copy (find_in_entries dir l cs)).
  { intros dir l. induction l as [|[name d] l IH]; cbn [find_in_entries]; [done|]. destruct (_ || _); [apply IH|].
    apply calls_bind; [apply Hc|]. intros [path|]; [done|apply IH]. }
  unfold findESPBootloader. cbv zeta. apply calls_bind; [by repeat calls_step|]. intros [entries|err]; [|done].
  apply calls_bind; [apply He|]. intros r. by destruct r.
Qed.

Lemma no_copy_trace {X} (p : agent X) t x src dst r :
  calls no_copy p -> runs p t x -> ev (R := ans) (ACopy src dst) r ∈ t -> False.
Proof.
  intros Hc Hr Hin. pose proof (calls_runs _ _ _ _ Hc Hr) as Hf. rewrite Forall_forall in Hf. exact (Hf _ Hin).
Qed.

Lemma fileExists_runs name tr b : runs (fileExists name) tr (inl b) -> tr = [ev (R := ans) (AStat name) (inl b)].
Proof. intros ([x|err] & t & -> & Hr); destruct Hr as [-> E]; simplify_eq; done. Qed.

Lemma install_runs root rel src tr : runs (installESPFile root rel src) tr None -> in_place tr (Join [root; rel]).
Proof.
  unfold installESPFile. cbv zeta. intros ([err|] & t1 & -> & Hr); cbn [bind] in Hr; [by destruct Hr|].
  apply runs_bind in Hr as (t2 & t3 & [err|] & -> & Hc & Hr); [by destruct Hr|]. destruct Hr as [-> _].
  rewrite app_nil_r. apply (in_place_app_r [_]). unfold copyFile in Hc.
  destruct Hc as ([err|] & t4 & -> & Hc); cbn [bind] in Hc; [by destruct Hc|]. apply (in_place_app_r [_]).
  destruct Hc as ([err|] & t5 & -> & Hc); cbn [bind] in Hc; apply (in_place_app_r [_]).
  - destruct Hc as (r & t6 & -> & [-> E]). done.
  - destruct Hc as ([err|] & t6 & -> & Hc); cbn [bind] in Hc.
    + destruct Hc as (r & t7 & -> & r2 & t8 & -> & [-> E]). done.
    + destruct Hc as ([err|] & t7 & -> & r2 & t8 & -> & [-> E]); [done|]. right. exists src. set_solver.
Qed.

Lemma install_copies root rel src :
  calls (fun a => match a with ACopy s _ => s = src | _ => True end) (installESPFile root rel src).
Proof. by repeat calls_step. Qed.

Lemma second_stage_runs root rel grub installed b tr inst :
  runs (ensure_second_stage root rel grub installed b) tr (inst, None) ->
  in_place tr (Join [root; Join [Dir rel; grub]]) \/
  b = false /\ forall src dst r, ev (R := ans) (ACopy src dst) r ∉ tr.
Proof.
  unfold ensure_second_stage. cbv zeta.
  intros (t1 & t2 & [[|]|err] & -> & Hs & Hr)%runs_bind; [| |by destruct Hr].
  - apply fileExists_runs in Hs as ->. left. left. set_solver.
  - apply runs_bind in Hr as (t3 & t4 & [src|[none err]] & -> & Hf & Hr).
    + apply runs_bind in Hr as (t5 & t6 & [err|] & -> & Hi & Hr); [by destruct Hr|].
      left. apply in_place_app_r, in_place_app_r, in_place_app_l. by eapply install_runs.
    + right. destruct none, b; cbn in Hr; try by destruct Hr. destruct Hr as [-> _]. split; [done|].
      apply fileExists_runs in Hs as ->. intros src dst r Hin. rewrite app_nil_r in Hin.
      apply elem_of_app in Hin as [Hin|Hin]; [|by eapply no_copy_trace; [apply find_no_copy| |]].
      apply elem_of_cons in Hin as [E|Hin]; [|by apply not_elem_of_nil in Hin]. apply (f_equal (@projT1 _ _)) in E. done.
Qed.

(** A fallback chain that is reported complete can start: when the step
    succeeds, the loader is at the fallback path, and if the step itself put a
    shim there, the second stage the shim opens is in the same directory.  (A
    copy counts when both the copy and the close of the new file succeeded.) *)
Theorem fallback_chain_is_complete root rel shim grub tr installed
    (Hrun : runs (ensureRemovableFallbackChain root rel shim grub) tr (installed, None)) :
  in_place tr (Join [root; rel]) /\
  forall src, ev (R := ans) (ACopy src (Join [root; rel])) None ∈ tr -> EqualFold (path_base src) shim = true ->
    in_place tr (Join [root; Join [Dir rel; grub]]).
Proof.
  revert Hrun. unfold ensureRemovableFallbackChain.
  intros (t1 & t2 & [[|]|err] & -> & Hs & Hr)%runs_bind; [| |by destruct Hr]; apply fileExists_runs in Hs as ->.
  - split; [apply in_place_app_l; left; set_solver|]. intros src Hin _.
    destruct (second_stage_runs _ _ _ _ _ _ _ Hr) as [H|[_ H]]; [by apply in_place_app_r|].
    exfalso. apply elem_of_app in Hin as [Hin|Hin]; [|by eapply H].
    apply elem_of_cons in Hin as [E|Hin]; [|by apply not_elem_of_nil in Hin]. apply (f_equal (@projT1 _ _)) in E. done.
  - apply runs_bind in Hr as (t3 & t4 & [src|[none err]] & -> & Hf & Hr); [|by destruct Hr].
    apply runs_bind in Hr as (t5 & t6 & [err|] & -> & Hi & Hr); [by destruct Hr|].
    pose proof (install_runs _ _ _ _ Hi) as Hp. split; [by apply in_place_app_r, in_place_app_r, in_place_app_l|].
    intros src' Hin Hshim. destruct (EqualFold (path_base src) shim) eqn:Es.
    { destruct (second_stage_runs _ _ _ _ _ _ _ Hr) as [H|[? _]]; [|done].
      by do 3 apply in_place_app_r. }
    destruct Hr as [-> _]. rewrite app_nil_r in Hin. exfalso.
    apply elem_of_app in Hin as [Hin|Hin].
    + apply elem_of_cons in Hin as [E|Hin]; [|by apply not_elem_of_nil in Hin]. apply (f_equal (@projT1 _ _)) in E. done.
    + apply elem_of_app in Hin as [Hin|Hin]; [by eapply no_copy_trace; [apply find_no_copy| |]|].
      pose proof (calls_runs _ _ _ _ (install_copies root rel src) Hi) as Hf'. rewrite Forall_forall in Hf'.
      specialize (Hf' _ Hin). cbn in Hf'. congruence.
Qed.

(** An ESP with one distribution's directory and an empty fallback. *)
Definition esp_handler (a : act) (u : unit) : option (ans a * unit) :=
  match a return option (ans a * unit) with
  | AStat path => Some (inl (bool_decide (path ∈ ["/esp/EFI/debian/shimx64.efi"; "/esp/EFI/debian/grubx64.efi"])), u)
  | AReadDir _ => Some (inl [("BOOT", true); ("debian", true)], u)
  | AMkdirAll _ | AOpen _ | ACreate _ | ACopy _ _ | AClose _ => Some (None, u)
  | _ => None
  end.

Lemma fallback_chain_is_complete_witness :
  exists tr, exec esp_handler
      (ensureRemovableFallbackChain "/esp" "EFI/BOOT/BOOTX64.EFI" "shimx64.efi" "grubx64.efi") tt
    = Some ((["EFI/BOOT/BOOTX64.EFI"; "EFI/BOOT/grubx64.efi"], None), tt, tr)
    /\ in_place tr "/esp/EFI/BOOT/BOOTX64.EFI".
Proof.
  eexists. split; [vm_compute; reflexivity|].
  eapply (fallback_chain_is_complete "/esp" "EFI/BOOT/BOOTX64.EFI" "shimx64.efi" "grubx64.efi").
  eapply (exec_runs esp_handler _ tt _ tt). vm_compute. reflexivity.
Defined.

(** ** The builder's plans under the executor *)

Definition dp_ok (dp : diskPlan) : Prop :=
  HasPrefix (dp_disk dp) "/dev/" = true /\
  Forall (fun s => slot_Device s = DevicePartitionPath (dp_disk dp) (slot_Number s)) (dp_slots dp).

Lemma check_slots_pass dp slots :
  Forall (fun s => slot_Device s = DevicePartitionPath (dp_disk dp) (slot_Number s)) slots -> check_slots dp slots = None.
Proof. induction 1 as [|s slots E _ IH]; cbn [check_slots]; [done|]. rewrite E, String.eqb_refl. exact IH. Qed.

Lemma check_structure_pass seen l :
  NoDup (dp_disk <$> l) -> (forall dp, dp ∈ l -> dp_disk dp ∉ seen) -> Forall dp_ok l -> check_structure seen l = None.
Proof.
  revert seen. induction l as [|dp l IH]; intros seen Hn Hs Hf; cbn [check_structure]; [done|].
  apply Forall_cons in Hf as [[Hp Hsl] Hf]. rewrite Hp. cbn [negb].
  rewrite bool_decide_eq_false_2 by (apply Hs; left). rewrite check_slots_pass by done.
  cbn in Hn. apply NoDup_cons in Hn as [Hd Hn]. apply IH; [done| |done]. intros x Hx.
  rewrite elem_of_union, elem_of_singleton. intros [E|E]; [|by apply (Hs x); [right|]].
  apply Hd. rewrite <- E. by apply list_elem_of_fmap_2.
Qed.

(** The disk plan of one resolved image. *)
Definition image_plan (label : string) (i : resolvedImage) : diskPlan :=
  mkDiskPlan label (ri_targetDisk i) (lay_SfdiskJSON (img_Layout (image_Spec (ri_image i)))) (ri_slots i).

Lemma data_plans_images k dis data : length dis = length data ->
  Forall2 (fun dp i => exists label, dp = image_plan label i)
    (data_plans k (zip_with (fun di r => mkDataImagePlan (di_ImageRef di) (ri_targetDisk r)
       (lay_SfdiskJSON (img_Layout (image_Spec (ri_image r)))) (ri_slots r)) dis data)) data.
Proof.
  revert k data. induction dis as [|di dis IH]; intros k [|r data] Hl; [constructor|done|done|]. cbn.
  constructor; [|apply IH; cbn in Hl; lia]. eexists. reflexivity.
Qed.

(** The disk plans of a built plan are those of its images; an OS image without
    a target disk has none. *)
Lemma built_disk_plans L m c run os data hooks : length (data_images c) = length data ->
  exists l, l `sublist_of` option_list os ++ data /\
    Forall2 (fun dp i => exists label, dp = image_plan label i) (diskPlans (plan_of L m c run os data hooks)) l.
Proof.
  intros Hl. unfold diskPlans, plan_of. cbn [plan_TargetDisk plan_SfdiskScript plan_Slots plan_DataImages].
  pose proof (data_plans_images 0 (data_images c) data Hl) as Hd. destruct os as [i|].
  - destruct (String.eqb_spec (ri_targetDisk i) "") as [E|E]; cbn [negb app option_list].
    + exists data. split; [by apply sublist_cons|]. exact Hd.
    + exists (i :: data). split; [done|]. constructor; [by eexists|exact Hd].
  - exists data. split; [done|]. exact Hd.
Qed.

Lemma built_image_ok disks ref hints i label : built_for disks ref hints i ->
  HasPrefix (ri_targetDisk i) "/dev/" = true -> dp_ok (image_plan label i).
Proof.
  intros [_ Hs] Hp. split; [exact Hp|]. cbn. clear -Hs Hp.
  assert (Hd : ri_targetDisk i <> "") by (by intros E; rewrite E in Hp).
  induction Hs as [|s slot ss slots (Hn & Hdev & _) _ IH]; constructor; [|done].
  rewrite Hdev, Hn. by apply paths_agree.
Qed.

Lemma built_images_for disks c os data : built disks c os data ->
  Forall (fun i => exists ref hints, built_for disks ref hints i) (option_list os ++ data).
Proof.
  intros [Hos Hd]. apply Forall_app. split.
  - unfold os_built in Hos. destruct os as [i|]; [|done]. destruct (cl_ImageRef (claim_Spec c)); [|done]. constructor; [eauto|done].
  - induction Hd as [|di i l l' Hr _ IH]; [done|]. constructor; eauto.
Qed.

Section Composed.
Context `{ApiMachinery} {V T : Type} (vstring : string -> V).
Context (Unmarshal : string -> gmap string V + GoErr).
Context (Parse : string -> T + GoErr) (Execute : T -> gmap string V -> string + GoErr).
Context (Marshal : list ResolvedHook -> string + GoErr) (digest : string -> string).
Context (ManagerNamespace : string) (LeecherEzio : LeecherEzioConfig).

(** C9. The manager and the agent agree on what a plan is: a plan the builder
    returns passes both checks the executor makes before it touches the machine,
    its own well-formedness and the structural check of disks and slot devices,
    whenever the inspected disks are named by absolute device paths. *)
Theorem built_plan_is_executable m claim run tr plan snap
    (Hrun : runs (PlanBuild.Build vstring Unmarshal Parse Execute Marshal digest ManagerNamespace LeecherEzio
                    m claim run) tr (inl (plan, snap)))
    (Hdev : forall dp, dp ∈ diskPlans plan -> HasPrefix (dp_disk dp) "/dev/" = true) :
  Validate plan = None /\ check_structure ∅ (diskPlans plan) = None.
Proof.
  apply Build_plan in Hrun as (Hg & _ & _ & _ & _ & c & disks & os & data & hooks & _ & Hb & -> & Hn & _).
  split; [by apply Validate_good|].
  destruct (built_disk_plans LeecherEzio m c run os data hooks) as (l & Hsub & Hl); [by eapply Forall2_length, Hb|].
  apply check_structure_pass; [|set_solver|].
  - assert (E : dp_disk <$> diskPlans (plan_of LeecherEzio m c run os data hooks) = ri_targetDisk <$> l).
    { clear -Hl. induction Hl as [|dp i dps imgs [label ->] _ IH]; [done|]. cbn. by rewrite IH. }
    rewrite E. eapply sublist_NoDup; [exact Hn|]. by apply fmap_sublist.
  - assert (Hf : Forall (fun i => exists ref hints, built_for disks ref hints i) l).
    { apply built_images_for in Hb. rewrite Forall_forall in Hb |- *. intros i Hi. apply Hb.
      by eapply elem_of_sublist. }
    clear -Hl Hf Hdev. induction Hl as [|dp i dps imgs [label ->] _ IH]; [done|].
    apply Forall_cons in Hf as [(ref & hints & Hi) Hf]. constructor; [|apply IH; [set_solver|done]].
    eapply built_image_ok; [exact Hi|]. apply (Hdev (image_plan label i)). left.
Qed.
End Composed.

Lemma built_plan_is_executable_witness : Validate Sample.outcome.1 = None /\ check_structure ∅ (diskPlans Sample.outcome.1) = None.
Proof.
  destruct (interp_runs _ _ _ Sample.build_outcome) as (tr & Hr & _).
  rewrite (surjective_pairing Sample.outcome) in Hr.
  eapply (built_plan_is_executable _ _ _ _ _ _ _ _ _ _ _ tr _ _ Hr).
  intros dp Hdp. vm_compute in Hdp. by apply list_elem_of_singleton in Hdp as ->.
Defined.

(** ** A concrete deploy *)

Module Live.

Definition unmarshal (json : string) : sfdiskJSONTable + GoErr := inl small_table.

(** Every command succeeds; the disk has a gigabyte; the torrent is done. *)
Definition handler (a : act) (u : unit) : option (ans a * unit) :=
  match a return option (ans a * unit) with
  | ARun _ "blockdev" ["--getsize64"; _] => Some (inl "1000000000", u)
  | ARun _ _ _ | ARunEnv _ _ _ | AFetchTorrent _ | ACreateTemp _ | AMkdirTemp _ => Some (inl "", u)
  | ALaunch _ => Some (inl true, u)
  | AGetTorrentStatus hashes => Some (inl (map (fun h => (h, mkTorrent true true 10 10 0 61 (-1))) hashes), u)
  | ANow => Some (1000, u)
  | AWriteFile _ _ => Some ((None, None), u)
  | AStat _ => Some (inl true, u)
  | AReadDir _ => Some (inl [], u)
  | ADiverge => None
  | AStop | AAddTorrent _ _ _ _ _ | APauseTorrent _ | AShutdown | AReport _ | ATick | AConsole _ | AChmod _
  | ARemove _ | AMkdirAll _ | AOpen _ | ACreate _ | ACopy _ _ | AClose _ => Some (None, u)
  end.

Definition plan : DeployPlan := Sample.outcome.1.
Definition run (p : DeployPlan) : agent (option GoErr) := Execute unmarshal "amd64" true false 3%nat p.

Definition log : trace ans := match exec handler (run plan) tt with Some (_, _, tr) => tr | None => [] end.

Example log_commands :
  omap (fun x => match projT1 x with ARun _ name _ => Some name | AAddTorrent _ dev _ _ _ => Some dev | _ => None end) log
  = ["blockdev"; "sfdisk"; "blockdev"; "/dev/nvme0n1p1"; "mkswap"; "efibootmgr"; "efibootmgr"; "systemctl"].
Proof. vm_compute. reflexivity. Qed.

Lemma log_runs : runs (run plan) log None.
Proof. eapply (exec_runs handler _ tt _ tt). vm_compute. reflexivity. Qed.

(** The first disk to be written: three calls come before it. *)
Definition first_event : option (event ans) := log !! 3%nat.
Definition first_write : option act := match first_event with Some x => Some (projT1 x) | None => None end.


(** Two disks, the second with a table that has no label: the size check passes
    both. *)
Definition unlabelled (json : string) : sfdiskJSONTable + GoErr :=
  inl (if json =s "second" then mkSfTable "" "" 512 (st_Partitions small_table) else small_table).

Definition swap_slot (dev : string) : DeploySlot := mkDeploySlot 1 dev None None (Some (mkDeploySwap "")).
Definition two_disks : DeployPlan :=
  mkPlan 3 "run" "uid" "m1" "/dev/sda" "first" [swap_slot "/dev/sda1"]
    [mkDataImagePlan (mkNameRef "" "data") "/dev/sdb" "second" [swap_slot "/dev/sdb1"]] [] "" 3 10 None None None.
End Live.

Lemma executor_guards_the_disks_witness :
  Live.first_write = Some (ARun (Some (String.concat "" (map (fun l => String.append l newline)
    ["label: gpt"; "unit: sectors"; "sector-size: 512"; ""; "/dev/nvme0n1p1 : start=2048, size=2048"])))
    "sfdisk" ["/dev/nvme0n1"]) /\
  forall a, Live.first_write = Some a -> policy Live.unmarshal "amd64" Live.plan (firstn 3%nat Live.log) a.
Proof.
  split; [vm_compute; reflexivity|]. intros a Ha.
  unfold Live.first_write in Ha. destruct Live.first_event as [[a' r]|] eqn:E; [|discriminate Ha].
  injection Ha as ->.
  apply (executor_guards_the_disks Live.unmarshal "amd64" true false 3%nat Live.plan (firstn 3%nat Live.log) a r (skipn 4%nat Live.log) None).
  change (existT a r) with (ev a r) in E. rewrite (take_drop_middle _ _ _ E). exact Live.log_runs.
Defined.


(** The checks before the first write do not cover the whole plan: a plan that
    is well formed and passes every check of disks, slots and sizes can still
    carry a table the script writer refuses, and for a data image that is found
    out only after the OS disk's partition table was overwritten. *)
Theorem unlabelled_table_is_found_late :
  Validate Live.two_disks = None /\ check_structure ∅ (diskPlans Live.two_disks) = None /\
  exists tr err r, exec Live.handler (Execute Live.unlabelled "amd64" true false 3%nat Live.two_disks) tt = Some (Some err, tt, tr)
    /\ emsg err = "dataImages[0] data: sfdisk JSON dump has no partition table label"
    /\ exists script, ev (R := ans) (ARun (Some script) "sfdisk" ["/dev/sda"]) r ∈ tr.
Proof.
  split; [vm_compute; reflexivity|]. split; [vm_compute; reflexivity|].
  eexists _, _, _. split; [vm_compute; reflexivity|]. split; [vm_compute; reflexivity|].
  eexists. do 4 right. left.
Qed.
