(* ===== verification/NetValidate.v ===== *)
(** * NetValidate: checks of Subnets and their network attachments

    [src/internal/nadvalidate] ([nadvalidate.go], [config.go], [ipam.go],
    [checks.go]) and [src/internal/subnetvalidate/subnetvalidate.go].  The
    decoding of a NAD's JSON is a parameter; addresses and prefixes are read as
    in [SubnetDhcp], and the parsers' own error text is left out as there. *)

From S2P Require Import Prelude Text Api SubnetDhcp Bootd.
Local Open Scope string_scope.
Local Open Scope list_scope.
Local Open Scope Z_scope.

Inductive Verdict := OK | Violation | Advisory | Indeterminate.

#[export] Instance Verdict_eq_dec : EqDecision Verdict.
Proof. solve_decision. Defined.

Record CheckResult := mkCheck { ck_Verdict : Verdict; ck_Reason : string; ck_Message : string }.

(** ** The ipam section *)

Definition KindStatic : string := "static".
Definition KindWhereabouts : string := "whereabouts".
Definition KindHostLocal : string := "host-local".
Definition KindNone : string := "".

Record IPAM := mkIPAM {
  ip_Kind : string; ip_Addresses : list Z; ip_Range : option IPNet; ip_Subnet : option IPNet; ip_RangeBounded : bool }.

(** The raw shape of an ipam object. *)
Record cniIPAM := mkCni {
  cni_Type : string; cni_Addresses : list string; cni_Range : string; cni_Subnet : string;
  cni_RangeStart : string; cni_RangeEnd : string }.

Definition ErrConfigUnparseable : string := "nad config: cannot parse spec.config".
Definition ErrNoIPAMSection : GoErr := errorf "nad config: no ipam section present" [].

Definition unparseable (fmt : string) (args : list string) : GoErr :=
  errorf (String.append "%s: " fmt) (ErrConfigUnparseable :: args).

Definition parse_net (s : string) : option IPNet :=
  match ParseCIDR s with Some (n, m) => Some (mkIPNet n m) | None => None end.

Definition parseHostAddress (s : string) : option Z :=
  match ParseIP4 s with
  | Some ip => Some ip
  | None => match split_on "/" s with
            | [addr; _] => match ParseCIDR s with Some _ => ParseIP4 addr | None => None end
            | _ => None
            end
  end.

(** The first address that does not parse, or all of them. *)
Fixpoint host_addresses (l : list string) : list Z + string :=
  match l with
  | [] => inl []
  | a :: l =>
    match parseHostAddress a with
    | None => inr a
    | Some ip => match host_addresses l with inl ips => inl (ip :: ips) | inr b => inr b end
    end
  end.

Definition plain (kind : string) : IPAM := mkIPAM kind [] None None false.

Section Nads.
(** The top-level config as its own ipam and those of its plugins, and one ipam. *)
Context (UnmarshalTop : string -> option string * list (option string) + string).
Context (UnmarshalIPAM : string -> cniIPAM + string).

Definition ParseIPAM (configJSON : string) : IPAM + GoErr :=
  match UnmarshalTop configJSON with
  | inr err => inr (unparseable "%v" [err])
  | inl (top, plugins) =>
    match (match top with Some raw => Some raw | None => head (omap id plugins) end) with
    | None => inr ErrNoIPAMSection
    | Some raw =>
      match UnmarshalIPAM raw with
      | inr err => inr (unparseable "ipam: %v" [err])
      | inl parsed =>
        let type := cni_Type parsed in
        if type =s KindStatic then
          match host_addresses (cni_Addresses parsed) with
          | inr a => inr (unparseable "static address %q" [a])
          | inl addrs => inl (mkIPAM KindStatic addrs None None false)
          end
        else if type =s KindWhereabouts then
          match parse_net (cni_Range parsed) with
          | None => inr (unparseable "whereabouts range %q" [cni_Range parsed])
          | Some net => inl (mkIPAM KindWhereabouts [] (Some net) None false)
          end
        else if type =s KindHostLocal then
          if (cni_RangeStart parsed <>s "") || (cni_RangeEnd parsed <>s "")
          then inl (mkIPAM KindHostLocal [] None None true)
          else match parse_net (cni_Subnet parsed) with
               | None => inr (unparseable "host-local subnet %q" [cni_Subnet parsed])
               | Some net => inl (mkIPAM KindHostLocal [] None (Some net) false)
               end
        else inl (plain type)
      end
    end
  end.

Definition show_net (net : IPNet) : string :=
  sprintf "%s/%d" [show_ip (net_IP net); show_dec (32 - Z.log2_up (2 ^ 32 - net_Mask net))].

Definition has_address (ipam : IPAM) (ip : Z) : bool := existsb (Z.eqb ip) (ip_Addresses ipam).

Definition CheckBootdAddress (bootdConfig bootdServerIP : string) : CheckResult :=
  match ParseIP4 bootdServerIP with
  | None => mkCheck Indeterminate "BootdServerIPInvalid" (sprintf "bootdServerIP %q is not a valid IPv4 address" [bootdServerIP])
  | Some ip =>
    match ParseIPAM bootdConfig with
    | inr err => mkCheck Indeterminate "BootdNADConfigUnparseable" (sprintf "bootd NAD config: %v" [emsg err])
    | inl ipam =>
      let kind := ip_Kind ipam in
      if kind =s KindStatic then
        if has_address ipam ip
        then mkCheck OK "BootdAddressMatch" (sprintf "bootd NAD static ipam includes bootdServerIP %s" [bootdServerIP])
        else mkCheck Violation "BootdAddressMismatch"
               (sprintf "bootd NAD static ipam does not include bootdServerIP %s: dnsmasq would bind a different address than the one advertised as PXE next-server" [bootdServerIP])
      else if kind =s KindNone then
        mkCheck Violation "BootdIPAMEmpty" "bootd NAD has no ipam configured, so no address is pinned; bootdServerIP requires static ipam"
      else if kind =s KindWhereabouts then
        mkCheck Violation "BootdIPAMNotStatic"
          (sprintf "bootd NAD ipam type %q hands out an address from a range, so no address is pinned; bootdServerIP requires static ipam" [kind])
      else if kind =s KindHostLocal then
        if ip_RangeBounded ipam then
          mkCheck Indeterminate "BootdIPAMHostLocalBounded"
            (sprintf "bootd NAD host-local ipam narrows its subnet with rangeStart/rangeEnd; cannot confirm bootdServerIP %s is the only address it can hand out" [bootdServerIP])
        else mkCheck Violation "BootdIPAMNotStatic"
               "bootd NAD host-local ipam allocates from its full subnet, so no address is pinned; bootdServerIP requires static ipam"
      else mkCheck Indeterminate "BootdIPAMUnrecognised"
             (sprintf "bootd NAD ipam type %q is not recognised; cannot confirm bootdServerIP %s is the address bootd will actually bind" [kind; bootdServerIP])
    end
  end.

Definition reasonSeederOverlapNone : string := "SeederOverlapNone".

Definition contains_opt (net : option IPNet) (ip : Z) : bool := match net with Some n => net_contains n ip | None => false end.
Definition show_opt (net : option IPNet) : string := match net with Some n => show_net n | None => "<nil>" end.

Definition CheckSeederOverlap (seederConfig bootdServerIP : string) : CheckResult :=
  if bootdServerIP =s "" then
    mkCheck OK "NoBootdAddress" "this Subnet has no boot half, so there is no bootdServerIP the seeder pool could collide with"
  else match ParseIP4 bootdServerIP with
  | None => mkCheck Indeterminate "BootdServerIPInvalid" (sprintf "bootdServerIP %q is not a valid IPv4 address" [bootdServerIP])
  | Some ip =>
    match ParseIPAM seederConfig with
    | inr err => mkCheck Indeterminate "SeederNADConfigUnparseable" (sprintf "seeder NAD config: %v" [emsg err])
    | inl ipam =>
      let kind := ip_Kind ipam in
      if kind =s KindNone then
        mkCheck OK "SeederIPAMEmpty" "seeder NAD has no ipam configured, so it cannot hand out bootdServerIP"
      else if kind =s KindStatic then
        if has_address ipam ip then
          mkCheck Violation "SeederOverlapStatic"
            (sprintf "seeder NAD static ipam includes bootdServerIP %s: a seeder pod would be handed bootd's own PXE next-server address" [bootdServerIP])
        else mkCheck OK reasonSeederOverlapNone "seeder NAD static ipam does not include bootdServerIP"
      else if kind =s KindWhereabouts then
        if contains_opt (ip_Range ipam) ip then
          mkCheck Violation "SeederOverlapWhereabouts"
            (sprintf "seeder NAD whereabouts range %s includes bootdServerIP %s: whereabouts could allocate it to a seeder pod" [show_opt (ip_Range ipam); bootdServerIP])
        else mkCheck OK reasonSeederOverlapNone "seeder NAD whereabouts range does not include bootdServerIP"
      else if kind =s KindHostLocal then
        if ip_RangeBounded ipam || bool_decide (ip_Subnet ipam = None) then
          mkCheck Indeterminate "SeederIPAMHostLocalBounded"
            "seeder NAD host-local ipam narrows its subnet with rangeStart/rangeEnd; cannot confirm bootdServerIP is outside the pool"
        else if contains_opt (ip_Subnet ipam) ip then
          mkCheck Violation "SeederOverlapHostLocal"
            (sprintf "seeder NAD host-local subnet %s includes bootdServerIP %s" [show_opt (ip_Subnet ipam); bootdServerIP])
        else mkCheck OK reasonSeederOverlapNone "seeder NAD host-local subnet does not include bootdServerIP"
      else mkCheck Indeterminate "SeederIPAMUnrecognised"
             (sprintf "seeder NAD ipam type %q is not recognised; cannot confirm bootdServerIP %s is outside its pool" [kind; bootdServerIP])
    end
  end.

Definition CheckTrackerAddress (subnetCIDR seederConfig trackerIP : string) : CheckResult :=
  match ParseIP4 trackerIP with
  | None => mkCheck Indeterminate "TrackerIPInvalid" (sprintf "tracker.ip %q is not a valid IPv4 address" [trackerIP])
  | Some ip =>
    match parse_net subnetCIDR with
    | None => mkCheck Indeterminate "SubnetCIDRUnparseable" (sprintf "seeding Subnet cidr %q" [subnetCIDR])
    | Some cidr =>
      if negb (net_contains cidr ip) then
        mkCheck Violation "TrackerAddressOutsideCIDR"
          (sprintf "tracker.ip %s falls outside the seeding Subnet's cidr %s, so it is not reachable on that Subnet" [trackerIP; subnetCIDR])
      else match ParseIPAM seederConfig with
      | inr err => mkCheck Indeterminate "SeederNADConfigUnparseable" (sprintf "seeder NAD config: %v" [emsg err])
      | inl ipam =>
        let kind := ip_Kind ipam in
        if kind =s KindNone then
          mkCheck OK "SeederIPAMEmpty" "seeder NAD has no ipam configured, so it cannot hand out tracker.ip"
        else if kind =s KindStatic then
          if has_address ipam ip then
            mkCheck Violation "TrackerOverlapStatic"
              (sprintf "seeder NAD static ipam includes tracker.ip %s: a seeder pod would be handed the tracker's own address" [trackerIP])
          else mkCheck OK "TrackerAddressAvailable" "seeder NAD static ipam does not include tracker.ip"
        else if kind =s KindWhereabouts then
          if contains_opt (ip_Range ipam) ip then
            mkCheck Violation "TrackerOverlapWhereabouts"
              (sprintf "seeder NAD whereabouts range %s includes tracker.ip %s: whereabouts could allocate it to a seeder pod" [show_opt (ip_Range ipam); trackerIP])
          else mkCheck OK "TrackerAddressAvailable" "seeder NAD whereabouts range does not include tracker.ip"
        else if kind =s KindHostLocal then
          if ip_RangeBounded ipam || bool_decide (ip_Subnet ipam = None) then
            mkCheck Indeterminate "TrackerIPAMHostLocalBounded"
              "seeder NAD host-local ipam narrows its subnet with rangeStart/rangeEnd; cannot confirm tracker.ip is outside the pool"
          else if contains_opt (ip_Subnet ipam) ip then
            mkCheck Violation "TrackerOverlapHostLocal"
              (sprintf "seeder NAD host-local subnet %s includes tracker.ip %s" [show_opt (ip_Subnet ipam); trackerIP])
          else mkCheck OK "TrackerAddressAvailable" "seeder NAD host-local subnet does not include tracker.ip"
        else mkCheck Indeterminate "SeederIPAMUnrecognised"
               (sprintf "seeder NAD ipam type %q is not recognised; cannot confirm tracker.ip %s is outside its pool" [kind; trackerIP])
      end
    end
  end.

Definition CheckSeederStaticWithTracker (seederConfig trackerIP : string) : CheckResult :=
  if trackerIP =s "" then
    mkCheck OK "NoManagedTracker" "this Site has no tracker of kezio's own on the seeder NAD, so nothing pins a second address on it"
  else match ParseIPAM seederConfig with
  | inr err => mkCheck Indeterminate "SeederNADConfigUnparseable" (sprintf "seeder NAD config: %v" [emsg err])
  | inl ipam =>
    if ip_Kind ipam <>s KindStatic then
      mkCheck OK "SeederIPAMNotStatic"
        (sprintf "seeder NAD ipam type is %q, not static, so it can give the tracker and each seeder pod its own address" [ip_Kind ipam])
    else mkCheck Violation "SeederStaticIPAMWithTracker"
           (sprintf "seeder NAD uses static ipam while this Site pins tracker.ip %s on the same NAD: the static plugin adds its own configured address to the pinned one, so the tracker pod also holds the address every seeder pod holds; use a pool-type ipam (host-local or whereabouts) on this NAD" [trackerIP])
  end.

Definition CheckSeederStaticMultiImage (seederConfig : string) (concurrentImages : Z) : CheckResult :=
  match ParseIPAM seederConfig with
  | inr err => mkCheck Indeterminate "SeederNADConfigUnparseable" (sprintf "seeder NAD config: %v" [emsg err])
  | inl ipam =>
    if ip_Kind ipam <>s KindStatic then
      mkCheck OK "SeederIPAMNotStatic" (sprintf "seeder NAD ipam type is %q, not static" [ip_Kind ipam])
    else if concurrentImages <=? 1 then
      mkCheck OK "SeederStaticIPAMSingleImage"
        "seeder NAD uses static ipam; safe while at most one Image deploys at this Site concurrently"
    else mkCheck Advisory "SeederStaticIPAMMultiImage"
           (sprintf "seeder NAD uses static ipam but %d Images are deploying concurrently at this Site; static ipam hands every seeder pod the same address, so a range-based pool sized for that concurrency is needed instead" [show_dec concurrentImages])
  end.
End Nads.

(** ** The Subnet's own fields *)

(** [bytes.Compare] on the four bytes of two addresses is the order of their
    values. *)
Definition CheckDHCPLeaseRange (cidr leaseRangeStart leaseRangeEnd : string) : CheckResult :=
  let startSet := leaseRangeStart <>s "" in
  let endSet := leaseRangeEnd <>s "" in
  if negb startSet && negb endSet then
    mkCheck OK "DHCPLeaseRangeAutoDerived" "no explicit lease range set; bootd derives one from cidr"
  else if negb (Bool.eqb startSet endSet) then
    mkCheck Indeterminate "DHCPLeaseRangeIncomplete" "leaseRangeStart and leaseRangeEnd must both be set, or both left empty"
  else match parse_net cidr with
  | None => mkCheck Indeterminate "SubnetCIDRInvalid" (sprintf "cidr %q is not a valid IPv4 CIDR" [cidr])
  | Some ipnet =>
    match ParseIP4 leaseRangeStart with
    | None =>
      mkCheck Indeterminate "DHCPLeaseRangeStartInvalid" (sprintf "leaseRangeStart %q is not a valid IPv4 address" [leaseRangeStart])
    | Some start =>
      match ParseIP4 leaseRangeEnd with
      | None =>
        mkCheck Indeterminate "DHCPLeaseRangeEndInvalid" (sprintf "leaseRangeEnd %q is not a valid IPv4 address" [leaseRangeEnd])
      | Some end_ =>
        if end_ <? start then
          mkCheck Violation "DHCPLeaseRangeReversed"
            (sprintf "leaseRangeStart %s is after leaseRangeEnd %s; dnsmasq's dhcp-range would be malformed" [leaseRangeStart; leaseRangeEnd])
        else if negb (net_contains ipnet start) || negb (net_contains ipnet end_) then
          mkCheck Violation "DHCPLeaseRangeOutsideCIDR"
            (sprintf "lease range %s-%s is not fully inside cidr %s" [leaseRangeStart; leaseRangeEnd; cidr])
        else mkCheck OK "DHCPLeaseRangeValid"
               (sprintf "lease range %s-%s is ordered and inside cidr %s" [leaseRangeStart; leaseRangeEnd; cidr])
      end
    end
  end.

Definition CheckBootdServerIPInCIDR (cidr bootdServerIP : string) : CheckResult :=
  match parse_net cidr with
  | None => mkCheck Indeterminate "SubnetCIDRInvalid" (sprintf "cidr %q is not a valid IPv4 CIDR" [cidr])
  | Some ipnet =>
    match ParseIP4 bootdServerIP with
    | None => mkCheck Indeterminate "BootdServerIPInvalid" (sprintf "bootdServerIP %q is not a valid IPv4 address" [bootdServerIP])
    | Some ip =>
      if negb (net_contains ipnet ip) then
        mkCheck Violation "BootdServerIPOutsideCIDR"
          (sprintf "bootdServerIP %s is not inside cidr %s; PXE clients on cidr would be handed a next-server outside their own segment" [bootdServerIP; cidr])
      else mkCheck OK "BootdServerIPInCIDR" (sprintf "bootdServerIP %s is inside cidr %s" [bootdServerIP; cidr])
    end
  end.

(** ** What the verdicts mean *)

Section Meaning.
Context (UnmarshalTop : string -> option string * list (option string) + string).
Context (UnmarshalIPAM : string -> cniIPAM + string).

Local Abbreviation ParseIPAM := (ParseIPAM UnmarshalTop UnmarshalIPAM).

(** The addresses an ipam hands out, where the kinds above determine them. *)
Definition pool (ipam : IPAM) : option (Z -> bool) :=
  if ip_Kind ipam =s KindNone then Some (fun _ => false)
  else if ip_Kind ipam =s KindStatic then Some (has_address ipam)
  else if ip_Kind ipam =s KindWhereabouts then Some (contains_opt (ip_Range ipam))
  else if ip_Kind ipam =s KindHostLocal then
    match ip_Subnet ipam with
    | Some net => if ip_RangeBounded ipam then None else Some (net_contains net)
    | None => None
    end
  else None.

(** The verdict on one address against a pool that must not hold it. *)
Definition avoids (p : option (Z -> bool)) (ip : Z) : Verdict :=
  match p with
  | None => Indeterminate
  | Some holds => if holds ip then Violation else OK
  end.

Lemma overlap_verdict ipam ip :
  (let kind := ip_Kind ipam in
   if kind =s KindNone then OK
   else if kind =s KindStatic then if has_address ipam ip then Violation else OK
   else if kind =s KindWhereabouts then if contains_opt (ip_Range ipam) ip then Violation else OK
   else if kind =s KindHostLocal then
     if ip_RangeBounded ipam || bool_decide (ip_Subnet ipam = None) then Indeterminate
     else if contains_opt (ip_Subnet ipam) ip then Violation else OK
   else Indeterminate) = avoids (pool ipam) ip.
Proof.
  cbv zeta. unfold avoids, pool.
  destruct (ip_Kind ipam =s KindNone), (ip_Kind ipam =s KindStatic), (ip_Kind ipam =s KindWhereabouts),
    (ip_Kind ipam =s KindHostLocal), (ip_RangeBounded ipam), (ip_Subnet ipam); cbn; try done; by repeat case_match.
Qed.

(** The pool checks decide exactly what they claim: an address that must stay
    free is reported as a violation exactly when the network's ipam is one whose
    pool is known and holds it, as fine exactly when that pool is known and does
    not (a tracker address must also lie in its Subnet), and as undetermined
    otherwise; an unreadable or unknown configuration is never a violation. *)
Theorem pool_checks_are_exact config ipText ip cidr net
    (Hip : ParseIP4 ipText = Some ip) (Hcidr : parse_net cidr = Some net) :
  let verdict := match ParseIPAM config with inl ipam => avoids (pool ipam) ip | inr _ => Indeterminate end in
  ck_Verdict (CheckSeederOverlap UnmarshalTop UnmarshalIPAM config ipText) = verdict /\
  ck_Verdict (CheckTrackerAddress UnmarshalTop UnmarshalIPAM cidr config ipText) =
    if net_contains net ip then verdict else Violation.
Proof.
  cbv zeta. assert (Hne : (ipText =s "") = false) by (destruct (String.eqb_spec ipText ""); [by subst|done]).
  unfold CheckSeederOverlap, CheckTrackerAddress. rewrite Hne, Hip, Hcidr. split.
  - destruct (ParseIPAM config) as [ipam|]; [|done]. rewrite <- overlap_verdict. cbv zeta. by repeat case_match.
  - destruct (net_contains net ip); cbn [negb]; [|done].
    destruct (ParseIPAM config) as [ipam|]; [|done]. rewrite <- overlap_verdict. cbv zeta. by repeat case_match.
Qed.
End Meaning.

(** A lease range the Subnet check passes is one reservations can be made
    from: when both ends are given and the verdict is OK, the range the DHCP
    reservations use is exactly that one, in order and with both ends in the
    Subnet's network. *)
Theorem checked_range_is_reservable subnet dhcp
    (Hd : sub_DHCP (sub_Spec subnet) = Some dhcp) (Hset : dhcp_LeaseRangeStart dhcp <> "")
    (Hok : ck_Verdict (CheckDHCPLeaseRange (sub_CIDR (sub_Spec subnet)) (dhcp_LeaseRangeStart dhcp)
             (dhcp_LeaseRangeEnd dhcp)) = OK) :
  exists start end_ net, LeaseRange subnet = inl (start, end_) /\ parse_net (sub_CIDR (sub_Spec subnet)) = Some net /\
    start <= end_ /\ net_contains net start = true /\ net_contains net end_ = true.
Proof.
  revert Hok. unfold CheckDHCPLeaseRange, LeaseRange. rewrite Hd. cbv zeta.
  destruct (String.eqb_spec (dhcp_LeaseRangeStart dhcp) "") as [|_]; [done|].
  destruct (String.eqb_spec (dhcp_LeaseRangeEnd dhcp) "") as [|_]; [done|]. cbn [negb andb Bool.eqb].
  unfold parse_net. destruct (ParseCIDR _) as [[n m]|]; [|done].
  destruct (ParseIP4 (dhcp_LeaseRangeStart dhcp)) as [s|]; [|done].
  destruct (ParseIP4 (dhcp_LeaseRangeEnd dhcp)) as [e|]; [|done].
  destruct (Z.ltb_spec e s); [done|]. destruct (net_contains _ s) eqn:Es, (net_contains _ e) eqn:Ee; try done.
  intros _. exists s, e, (mkIPNet n m). done.
Qed.

(** ** Witnesses *)

Definition sample_top (s : string) : option string * list (option string) + string :=
  if s =s "chain" then inl (None, [None; Some "wb"]) else inr "invalid character".
Definition sample_ipam (s : string) : cniIPAM + string :=
  inl (mkCni KindWhereabouts [] "10.0.0.64/26" "" "" "").

Lemma pool_checks_are_exact_witness :
  ck_Verdict (CheckTrackerAddress sample_top sample_ipam "10.0.0.0/24" "chain" "10.0.0.70") = Violation.
Proof.
  destruct (pool_checks_are_exact sample_top sample_ipam "chain" "10.0.0.70" 167772230 "10.0.0.0/24"
    (mkIPNet 167772160 4294967040)) as [_ ->]; [reflexivity|reflexivity|]. vm_compute. reflexivity.
Defined.

Definition sample_subnet : Subnet :=
  mkSubnet (mkObjectMeta "net" "ns" "" "" 0 0 None [] ∅ ∅ [])
    (mkSubnetSpec (mkNameRef "" "site") "10.0.0.0/24" "10.0.0.2" None None ∅
       (Some (mkSubnetDHCP SubnetDHCPModeLease "10.0.0.10" "10.0.0.20" None None))) (mkSubnetStatus [] None).

Lemma checked_range_is_reservable_witness :
  exists start end_ net, LeaseRange sample_subnet = inl (start, end_) /\ parse_net "10.0.0.0/24" = Some net /\
    start <= end_ /\ net_contains net start = true /\ net_contains net end_ = true.
Proof.
  apply (checked_range_is_reservable sample_subnet (mkSubnetDHCP SubnetDHCPModeLease "10.0.0.10" "10.0.0.20" None None));
    [reflexivity|discriminate|vm_compute; reflexivity].
Defined.
