(* ===== verification/PostHooks.v ===== *)
(** * PostHooks: validation of hooks, and their reconciler

    [src/internal/posthookvalidate/posthookvalidate.go] and the controller's
    [posthook_controller.go] and [posthook_index.go].  The placeholder pattern of
    the regular expression is a matcher of its own, with the theorem that it finds
    exactly the placeholders of a text. *)

From S2P Require Import Prelude Text Api AgentApi Effects Cluster Store DiskMatch SiteDerive PlanBuild.
Local Open Scope string_scope.
Local Open Scope list_scope.
Local Open Scope Z_scope.

(** ** Placeholders

    The pattern: two braces, white space, a dot, an identifier, white space and
    two braces. *)

(** The regular expression's class of white space, without the vertical tab. *)
Definition re_space (c : ascii) : bool := existsb (Nat.eqb (nat_of_ascii c)) [9; 10; 12; 13; 32]%nat.
Definition ident_start (c : ascii) : bool := is_lower c || is_upper c || Ascii.eqb c "_".
Definition ident_char (c : ascii) : bool := ident_start c || is_digit c.

(** The longest prefix of characters in a class, and the rest. *)
Fixpoint span (f : ascii -> bool) (l : list ascii) : list ascii * list ascii :=
  match l with
  | [] => ([], [])
  | c :: l' => if f c then let '(a, b) := span f l' in (c :: a, b) else ([], l)
  end.

(** A match at the start of the text: the name and what follows. *)
Definition match_at (l : list ascii) : option (list ascii * list ascii) :=
  match l with
  | c1 :: c2 :: l =>
    if Ascii.eqb c1 "{" && Ascii.eqb c2 "{" then
      match (span re_space l).2 with
      | c3 :: l =>
        if Ascii.eqb c3 "." then
          let '(name, l) := span ident_char l in
          match name, (span re_space l).2 with
          | n :: _, c4 :: c5 :: rest =>
            if ident_start n && Ascii.eqb c4 "}" && Ascii.eqb c5 "}" then Some (name, rest) else None
          | _, _ => None
          end
        else None
      | [] => None
      end
    else None
  | _ => None
  end.

(** [FindAllStringSubmatch]: leftmost matches, each after the end of the last. *)
Fixpoint find_all (fuel : nat) (l : list ascii) : list (list ascii) :=
  match fuel with
  | O => []
  | S fuel =>
    match match_at l with
    | Some (name, rest) => name :: find_all fuel rest
    | None => match l with [] => [] | _ :: l => find_all fuel l end
    end
  end.

Definition placeholders (content : string) : list string :=
  string_of_list_ascii <$> find_all (S (String.length content)) (list_ascii_of_string content).

(** ** Validation *)

Fixpoint params_from (i : Z) (seen : gset string) (params : list PostHookParam) : option GoErr :=
  match params with
  | [] => None
  | p :: rest =>
    if bool_decide (hp_Name p ∈ seen)
    then Some (errorf "spec.params[%d]: duplicate param name %q" [show_dec i; hp_Name p])
    else params_from (i + 1) ({[hp_Name p]} ∪ seen) rest
  end.

Definition ValidateParams (params : list PostHookParam) : option GoErr := params_from 0 ∅ params.

Definition DeclaredPlaceholderNames (params : list PostHookParam) : gset string :=
  list_to_set ([PostHookReservedParamMachineName; PostHookReservedParamImageName; PostHookReservedParamTargetDisk]
               ++ (hp_Name <$> params)).

Definition osFamilyRestrictedBuiltins (name : string) : bool :=
  (name =s BuiltinStepMkswap) || (name =s BuiltinStepEfibootmgr) || (name =s BuiltinStepGrowLastPartition).

Definition builtinAllowedParams (name : string) : list string :=
  if (name =s BuiltinStepEfibootmgr) || (name =s BuiltinStepInstallRemovableFallback) then ["disk"; "part"]
  else if name =s BuiltinStepGrowLastPartition then ["disk"; "partition"; "fsType"]
  else [].

Fixpoint check_names (path : string) (names : list string) (declared : gset string) : option GoErr :=
  match names with
  | [] => None
  | name :: rest =>
    if bool_decide (name ∈ declared) then check_names path rest declared
    else Some (errorf "%s: placeholder %q does not reference a declared param or a reserved name (machineName, imageName, targetDisk)"
                 [path; name])
  end.

Definition validatePlaceholders (path content : string) (declared : gset string) : option GoErr :=
  check_names path (placeholders content) declared.

Definition validateOSFamilyGating (path : string) (step : PostHookStep) (b : PostHookBuiltinStep) : option GoErr :=
  if negb (osFamilyRestrictedBuiltins (bi_Name b)) then None
  else if ps_OSFamily step <>s OSFamilyLinux then
    Some (errorf "%s.builtin: %q requires osFamily to be set to %q, got %q" [path; bi_Name b; OSFamilyLinux; ps_OSFamily step])
  else None.

(** The loop over the map, in the order of [map_to_list]. *)
Fixpoint check_params (path name : string) (l : list (string * string)) (declared : gset string) : option GoErr :=
  match l with
  | [] => None
  | (key, value) :: rest =>
    if negb (bool_decide (key ∈ builtinAllowedParams name)) then
      Some (errorf "%s.builtin.params: %q is not a valid parameter for builtin %q" [path; key; name])
    else match validatePlaceholders (sprintf "%s.builtin.params[%s]" [path; key]) value declared with
         | Some err => Some err
         | None => check_params path name rest declared
         end
  end.

Definition validateBuiltinParams (path : string) (b : PostHookBuiltinStep) (declared : gset string) : option GoErr :=
  check_params path (bi_Name b) (map_to_list (bi_Params b)) declared.

Definition validateScriptSource (path : string) (src : PostHookScriptSource) (declared : gset string) : option GoErr :=
  if SourceKind src =s PostHookScriptSourceUnknown then
    Some (errorf "%s: exactly one of script, configMapRef, or secretRef must be set" [path])
  else if SourceKind src <>s PostHookScriptSourceInline then None
  else validatePlaceholders (String.append path ".script") (sc_Script src) declared.

Definition ValidateStep (i : Z) (step : PostHookStep) (declared : gset string) : option GoErr :=
  let path := sprintf "spec.steps[%d]" [show_dec i] in
  match ps_Builtin step, ps_Script step with
  | Some b, _ =>
    match validateOSFamilyGating path step b with
    | Some err => Some err
    | None => validateBuiltinParams path b declared
    end
  | None, Some src => validateScriptSource (String.append path ".script") src declared
  | None, None => Some (errorf "%s: exactly one of builtin or script must be set" [path])
  end.

Definition Validate (ph : PostHook) : option GoErr :=
  match ValidateParams (ph_Params (ph_Spec ph)) with
  | Some err => Some err
  | None =>
    first_error 0 (fun i step => ValidateStep i step (DeclaredPlaceholderNames (ph_Params (ph_Spec ph))))
      (ph_Steps (ph_Spec ph))
  end.

(** ** The reconciler *)

Definition imageMissingContentMessageLimit : nat := 5.

Definition boundedMessage (items : list string) : string :=
  if (length items <=? imageMissingContentMessageLimit)%nat then String.concat "; " items
  else sprintf "%s (+%d more)" [String.concat "; " (firstn imageMissingContentMessageLimit items);
         show_dec (Z.of_nat (length items) - Z.of_nat imageMissingContentMessageLimit)].

Section Reconciler.
Context `{ApiMachinery}.

(** [Some problem] when the object or its key is missing. *)
Definition checkSource (namespace path : string) (src : PostHookScriptSource) : go (option string + GoErr) :=
  if SourceKind src =s PostHookScriptSourceConfigMapRef then
    match sc_ConfigMapRef src with
    | None => panic "checkSource: nil configMapRef"
    | Some ref =>
      r <- Get KConfigMap (mkKey namespace (kr_Name ref)) ;;
      match r with
      | inr err =>
        Ret (if IsNotFound err
             then inl (Some (sprintf "%s.configMapRef: ConfigMap %q not found" [path; kr_Name ref]))
             else inr (wrapf "get configmap %s/%s: %w" [namespace; kr_Name ref] err))
      | inl cm =>
        Ret (inl (match cm_Data (cm : ConfigMap) !! kr_Key ref with
                  | Some _ => None
                  | None => Some (sprintf "%s.configMapRef: ConfigMap %q has no key %q" [path; kr_Name ref; kr_Key ref])
                  end))
      end
    end
  else if SourceKind src =s PostHookScriptSourceSecretRef then
    match sc_SecretRef src with
    | None => panic "checkSource: nil secretRef"
    | Some ref =>
      r <- Get KSecret (mkKey namespace (kr_Name ref)) ;;
      match r with
      | inr err =>
        Ret (if IsNotFound err
             then inl (Some (sprintf "%s.secretRef: Secret %q not found" [path; kr_Name ref]))
             else inr (wrapf "get secret %s/%s: %w" [namespace; kr_Name ref] err))
      | inl secret =>
        Ret (inl (match secret_Data (secret : Secret) !! kr_Key ref with
                  | Some _ => None
                  | None => Some (sprintf "%s.secretRef: Secret %q has no key %q" [path; kr_Name ref; kr_Key ref])
                  end))
      end
    end
  else Ret (inl None).

Fixpoint missing_from (namespace : string) (i : Z) (steps : list PostHookStep) (missing : list string)
  : go (list string + GoErr) :=
  match steps with
  | [] => Ret (inl missing)
  | step :: rest =>
    match ps_Script step with
    | None => missing_from namespace (i + 1) rest missing
    | Some src =>
      r <- checkSource namespace (sprintf "spec.steps[%d].script" [show_dec i]) src ;;
      match r with
      | inr err => Ret (inr err)
      | inl problem => missing_from namespace (i + 1) rest (missing ++ option_list problem)
      end
    end
  end.

Definition missingSources (ph : PostHook) : go (list string + GoErr) :=
  missing_from (Namespace ph) 0 (ph_Steps (ph_Spec ph)) [].

(** The status that [recordStatus] writes. *)
Definition with_validity (ph : PostHook) (status reason message : string) : PostHook :=
  let '(readyReason, readyMessage) :=
    if status =s ConditionTrue then ("PostHookReady", "PostHook is valid and ready") else (reason, message) in
  let conds := SetStatusCondition (ph_Conditions (ph_Status ph))
    (mkCondition PostHookConditionValid status (Generation ph) reason message) in
  let conds := SetStatusCondition conds
    (mkCondition PostHookConditionReady status (Generation ph) readyReason readyMessage) in
  ph <| ph_Status := mkPostHookStatus (Generation ph) conds |>.

Definition recordStatus (ph : PostHook) (status reason message : string) : go reply :=
  r <- StatusUpdate KPostHook (with_validity ph status reason message) ;;
  match r with
  | inr err => Ret (noRequeue, Some (wrapf "posthook %q: updating status: %w" [Name ph] err))
  | inl _ => Ret (noRequeue, None)
  end.

Definition onChange (ph : PostHook) : go reply :=
  match Validate ph with
  | Some err => recordStatus ph ConditionFalse "InvalidSpec" (emsg err)
  | None =>
    missing <- missingSources ph ;;
    match missing with
    | inr err => Ret (noRequeue, Some err)
    | inl [] => recordStatus ph ConditionTrue "PostHookValid" "spec passes validation and every referenced source resolves"
    | inl missing => recordStatus ph ConditionFalse "SourceMissing" (boundedMessage missing)
    end
  end.

Definition Reconcile (key : ObjectKey) : go reply :=
  r <- Get KPostHook key ;;
  match r with
  | inr err => Ret (noRequeue, if IsNotFound err then None else Some err)
  | inl ph => onChange ph
  end.

(** *** Indexes *)

Definition posthookConfigMapRefIndex : string := "spec.steps.script.configMapRef.name".
Definition posthookSecretRefIndex : string := "spec.steps.script.secretRef.name".

Fixpoint dedup_names (seen : gset string) (l : list string) : list string :=
  match l with
  | [] => []
  | x :: l => if bool_decide (x ∈ seen) then dedup_names seen l else x :: dedup_names ({[x]} ∪ seen) l
  end.

Definition indexPostHookConfigMapRefs (ph : PostHook) : list string :=
  dedup_names ∅ (omap (fun step => src ← ps_Script step; kr_Name <$> sc_ConfigMapRef src) (ph_Steps (ph_Spec ph))).
Definition indexPostHookSecretRefs (ph : PostHook) : list string :=
  dedup_names ∅ (omap (fun step => src ← ps_Script step; kr_Name <$> sc_SecretRef src) (ph_Steps (ph_Spec ph))).

Definition postHookRequests (items : list PostHook) : list ObjectKey := map (fun ph : PostHook => mkKey (Namespace ph) (Name ph)) items.

(** The list call with an index, scoped to the namespace. *)
Definition map_source (field namespace name : string) : go (list ObjectKey) :=
  r <- ListField KPostHook field name ;;
  match r with
  | inr _ => Ret []
  | inl items => Ret (postHookRequests (List.filter (fun ph : PostHook => Namespace ph =s namespace) items))
  end.

Definition mapConfigMapToPostHooks (cm : ConfigMap) : go (list ObjectKey) :=
  map_source posthookConfigMapRefIndex (Namespace cm) (Name cm).
Definition mapSecretToPostHooks (secret : Secret) : go (list ObjectKey) :=
  map_source posthookSecretRefIndex (Namespace secret) (Name secret).
End Reconciler.

(** ** The matcher finds exactly the placeholders *)

(** The text of one placeholder and what follows it. *)
Definition placeholder_text (name l rest : list ascii) : Prop :=
  exists ws1 ws2, forallb re_space ws1 = true /\ forallb re_space ws2 = true /\
    match name with [] => False | c :: _ => ident_start c = true end /\ forallb ident_char name = true /\
    l = ["{"; "{"]%char ++ ws1 ++ ["."]%char ++ name ++ ws2 ++ ["}"; "}"]%char ++ rest.

Lemma span_spec f l a b : span f l = (a, b) ->
  l = a ++ b /\ forallb f a = true /\ match b with [] => True | c :: _ => f c = false end.
Proof.
  revert a b. induction l as [|c l IH]; intros a b; cbn; [by intros [= <- <-]|]. destruct (f c) eqn:E.
  - destruct (span f l) as [a' b'] eqn:El. intros [= <- <-]. destruct (IH _ _ eq_refl) as (-> & H1 & H2).
    split_and!; [done|cbn; by rewrite E|done].
  - by intros [= <- <-].
Qed.

Lemma span_app f a b : forallb f a = true -> match b with [] => True | c :: _ => f c = false end -> span f (a ++ b) = (a, b).
Proof.
  intros Ha Hb. induction a as [|c a IH]; cbn.
  - destruct b as [|c b]; [done|]. cbn. by rewrite Hb.
  - cbn in Ha. apply andb_true_iff in Ha as [Hc Ha]. by rewrite Hc, (IH Ha).
Qed.

Lemma ident_not_space c : ident_char c = true -> re_space c = false.
Proof. destruct c as [[] [] [] [] [] [] [] []]; vm_compute; congruence. Qed.

Lemma space_not_ident c : re_space c = true -> ident_char c = false.
Proof. destruct c as [[] [] [] [] [] [] [] []]; vm_compute; congruence. Qed.

Lemma match_at_spec l name rest : match_at l = Some (name, rest) <-> placeholder_text name l rest.
Proof.
  split.
  - unfold match_at, placeholder_text. destruct l as [|c1 [|c2 l]]; try done.
    destruct (Ascii.eqb_spec c1 "{") as [->|], (Ascii.eqb_spec c2 "{") as [->|]; cbn [andb]; try done.
    destruct (span re_space l) as [ws1 [|c3 l1]] eqn:E1; [done|]. cbn [snd].
    destruct (Ascii.eqb_spec c3 ".") as [->|]; [|done]. destruct (span ident_char l1) as [nm l2] eqn:E2.
    destruct nm as [|n nm]; [done|]. destruct (span re_space l2) as [ws2 [|c4 [|c5 l3]]] eqn:E3; try done. cbn [snd].
    destruct (ident_start n) eqn:En, (Ascii.eqb_spec c4 "}") as [->|], (Ascii.eqb_spec c5 "}") as [->|]; cbn [andb]; try done.
    intros [= <- <-]. apply span_spec in E1 as (-> & H1 & _). apply span_spec in E2 as (-> & H2 & _).
    apply span_spec in E3 as (-> & H3 & _). exists ws1, ws2. split_and!; done.
  - intros (ws1 & ws2 & H1 & H2 & Hn & H3 & ->). unfold match_at. cbn [app]. rewrite !Ascii.eqb_refl. cbn [andb].
    rewrite (span_app re_space ws1) by done. cbn [snd]. rewrite Ascii.eqb_refl.
    rewrite (span_app ident_char name).
    + destruct name as [|n name]; [done|]. rewrite (span_app re_space ws2) by done. cbn [snd]. by rewrite Hn, !Ascii.eqb_refl.
    + done.
    + destruct ws2 as [|c ws2]; [done|]. cbn in H2. apply andb_true_iff in H2 as [Hc _]. cbn. by apply space_not_ident.
Qed.

(** The reference: every position at which a placeholder starts. *)
Fixpoint scan (l : list ascii) : list (list ascii) :=
  (match match_at l with Some (name, _) => [name] | None => [] end) ++
  (match l with [] => [] | _ :: l => scan l end).

Definition no_brace (c : ascii) : bool := negb (Ascii.eqb c "{").

Lemma match_at_no_brace c l : no_brace c = true -> match_at (c :: l) = None.
Proof. unfold no_brace. intros Hc%negb_true_iff. unfold match_at. destruct l; [done|]. by rewrite Hc. Qed.

Lemma scan_skip m rest : forallb no_brace m = true -> scan (m ++ rest) = scan rest.
Proof.
  induction m as [|c m IH]; [done|]. cbn [forallb app]. intros [Hc Hm]%andb_true_iff. cbn [scan].
  rewrite match_at_no_brace by done. by apply IH.
Qed.

Lemma class_no_brace (f : ascii -> bool) l : f "{"%char = false -> forallb f l = true -> forallb no_brace l = true.
Proof.
  intros Hf. rewrite !forallb_forall. intros Hl c Hc. unfold no_brace. apply negb_true_iff, Ascii.eqb_neq.
  intros ->. rewrite (Hl _ Hc) in Hf. done.
Qed.

Lemma scan_match l name rest : match_at l = Some (name, rest) -> scan l = name :: scan rest.
Proof.
  intros H. pose proof H as (ws1 & ws2 & H1 & H2 & Hn & H3 & E)%match_at_spec.
  set (m := ws1 ++ ["."]%char ++ name ++ ws2 ++ ["}"; "}"]%char).
  assert (El : l = "{"%char :: "{"%char :: m ++ rest) by (rewrite E; unfold m; by rewrite <- !app_assoc).
  assert (Hm : forallb no_brace m = true).
  { unfold m. rewrite !forallb_app. rewrite (class_no_brace re_space ws1), (class_no_brace ident_char name),
      (class_no_brace re_space ws2) by done. done. }
  rewrite El in H |- *. cbn [scan]. rewrite H. cbn [app]. f_equal.
  assert (Hh : match_at ("{"%char :: m ++ rest) = None).
  { destruct m as [|c m'] eqn:Em; [unfold m in Em; by destruct ws1|]. cbn [app]. cbn [forallb] in Hm.
    apply andb_true_iff in Hm as [Hc _]. apply negb_true_iff in Hc. unfold match_at. by rewrite Hc, andb_false_r. }
  rewrite Hh. by apply scan_skip.
Qed.

Lemma match_at_length l name rest : match_at l = Some (name, rest) -> (length rest < length l)%nat.
Proof. intros (ws1 & ws2 & _ & _ & _ & _ & ->)%match_at_spec. cbn. rewrite !length_app. cbn. rewrite !length_app. cbn. lia. Qed.

Lemma find_all_scan fuel l : (length l < fuel)%nat -> find_all fuel l = scan l.
Proof.
  revert l. induction fuel as [|fuel IH]; intros l Hl; [lia|]. cbn [find_all].
  destruct (match_at l) as [[name rest]|] eqn:E.
  - rewrite (scan_match _ _ _ E). f_equal. apply IH. pose proof (match_at_length _ _ _ E). lia.
  - destruct l as [|c l]; [done|]. cbn [scan]. rewrite E. apply IH. cbn in Hl. lia.
Qed.

Lemma elem_of_scan name l :
  name ∈ scan l <-> exists pre t rest, l = pre ++ t /\ placeholder_text name t rest.
Proof.
  induction l as [|c l IH].
  - cbn. split; [intros H; by apply not_elem_of_nil in H|].
    intros (pre & t & rest & E & (ws1 & ws2 & _ & _ & _ & _ & ->)). by destruct pre.
  - cbn [scan]. rewrite elem_of_app, IH. split.
    + intros [H|(pre & t & rest & -> & H)]; [|by exists (c :: pre), t, rest].
      destruct (match_at (c :: l)) as [[n rest]|] eqn:E; [|by apply not_elem_of_nil in H].
      apply list_elem_of_singleton in H as ->. exists [], (c :: l), rest. split; [done|]. by apply match_at_spec.
    + intros ([|c' pre] & t & rest & E & H).
      * left. cbn in E. subst t. apply match_at_spec in H. rewrite H. by apply list_elem_of_singleton.
      * right. injection E as <- ->. by exists pre, t, rest.
Qed.

(** The check of templates looks at exactly the placeholders of a text: a name
    is found when and only when it occurs somewhere between double braces after a
    dot, with white space around it as the pattern allows, wherever it stands and
    however many braces come before it. *)
Theorem placeholders_exact content name :
  name ∈ placeholders content <->
  exists pre t rest, list_ascii_of_string content = pre ++ t /\ placeholder_text (list_ascii_of_string name) t rest.
Proof.
  unfold placeholders. rewrite list_elem_of_fmap, find_all_scan by (rewrite string_length_list; lia). split.
  - intros (n & -> & H). rewrite list_ascii_of_string_of_list_ascii. by apply elem_of_scan.
  - intros H. exists (list_ascii_of_string name). rewrite string_of_list_ascii_of_string. split; [done|]. by apply elem_of_scan.
Qed.

Example placeholders_sample : placeholders "echo {{{ .disk }} {{.a b}} {{ .machineName}}" = ["disk"; "machineName"].
Proof. vm_compute. reflexivity. Qed.

(** ** What a valid hook is *)

Definition names_declared (declared : gset string) (content : string) : Prop :=
  forall name, name ∈ placeholders content -> name ∈ declared.

Definition good_hook_step (declared : gset string) (step : PostHookStep) : Prop :=
  match ps_Builtin step, ps_Script step with
  | Some b, _ =>
    (osFamilyRestrictedBuiltins (bi_Name b) = true -> ps_OSFamily step = OSFamilyLinux) /\
    forall key value, bi_Params b !! key = Some value ->
      key ∈ builtinAllowedParams (bi_Name b) /\ names_declared declared value
  | None, Some src =>
    (sc_Script src <> "" \/ sc_ConfigMapRef src <> None \/ sc_SecretRef src <> None) /\
    (sc_Script src <> "" -> names_declared declared (sc_Script src))
  | None, None => False
  end.

Lemma params_from_spec i seen params :
  params_from i seen params = None <->
  NoDup (hp_Name <$> params) /\ forall p, p ∈ params -> hp_Name p ∉ seen.
Proof.
  revert i seen. induction params as [|p ps IH]; intros i seen; cbn [params_from].
  { split; [|done]. intros _. split; [apply NoDup_nil_2|]. intros p Hp. by apply not_elem_of_nil in Hp. }
  rewrite fmap_cons, NoDup_cons. case_bool_decide as Hin.
  { split; [done|]. intros [_ H]. destruct (H p); [left|done]. }
  rewrite IH. split.
  - intros [Hnd Hs]. split_and!; [|done|].
    + intros (q & E & Hq)%list_elem_of_fmap. apply (Hs q Hq). set_solver.
    + intros q [->|Hq]%elem_of_cons; [done|]. specialize (Hs q Hq). set_solver.
  - intros [[Hn Hnd] Hs]. split; [done|]. intros q Hq. rewrite elem_of_union, elem_of_singleton. intros [E|E].
    + apply Hn. rewrite <- E. by apply list_elem_of_fmap_2.
    + by apply (Hs q); [right|].
Qed.

Lemma validatePlaceholders_spec path content declared :
  validatePlaceholders path content declared = None <-> names_declared declared content.
Proof.
  unfold validatePlaceholders, names_declared. induction (placeholders content) as [|n l IH]; cbn [check_names].
  - split; [|done]. intros _ n Hn. by apply not_elem_of_nil in Hn.
  - case_bool_decide as Hn; [rewrite IH|]; set_solver.
Qed.

Lemma check_params_spec path name l declared :
  check_params path name l declared = None <->
  Forall (fun kv => kv.1 ∈ builtinAllowedParams name /\ names_declared declared kv.2) l.
Proof.
  induction l as [|[key value] l IH]; cbn [check_params]; [done|]. rewrite Forall_cons. cbn [fst snd].
  case_bool_decide as Hk; cbn [negb]; [|by split; [|intros [[? _] _]]].
  rewrite <- (validatePlaceholders_spec (sprintf "%s.builtin.params[%s]" [path; key])).
  destruct (validatePlaceholders _ _ _); [|rewrite IH]; naive_solver.
Qed.

Lemma ValidateStep_spec i step declared : ValidateStep i step declared = None <-> good_hook_step declared step.
Proof.
  unfold ValidateStep, good_hook_step. cbv zeta. destruct (ps_Builtin step) as [b|].
  - unfold validateOSFamilyGating, validateBuiltinParams.
    destruct (osFamilyRestrictedBuiltins (bi_Name b)), (String.eqb_spec (ps_OSFamily step) OSFamilyLinux); cbn [negb];
      rewrite ?check_params_spec, ?map_Forall_to_list; try (split; [done|naive_solver]);
      (rewrite Forall_forall; split;
        [intros Hf; split; [done|]; intros key value Hkv; apply (Hf (key, value)); by apply elem_of_map_to_list
        |intros [_ Hf] [key value] Hin; apply Hf; by apply elem_of_map_to_list]).
  - destruct (ps_Script step) as [src|]; [|by split].
    unfold validateScriptSource, SourceKind.
    destruct (String.eqb_spec (sc_Script src) "") as [E|E]; cbn [negb].
    + destruct (sc_ConfigMapRef src), (sc_SecretRef src); cbn; (split; [|naive_solver]); try done; intros _;
        (split; [|done]); naive_solver.
    + cbn -[validatePlaceholders String.append]. rewrite validatePlaceholders_spec. naive_solver.
Qed.

Lemma posthook_validate_iff ph :
  Validate ph = None <->
  NoDup (hp_Name <$> ph_Params (ph_Spec ph)) /\
  Forall (good_hook_step (DeclaredPlaceholderNames (ph_Params (ph_Spec ph)))) (ph_Steps (ph_Spec ph)).
Proof.
  unfold Validate, ValidateParams.
  rewrite <- (first_error_spec 0 (fun i step => ValidateStep i step (DeclaredPlaceholderNames (ph_Params (ph_Spec ph)))))
    by (intros; apply ValidateStep_spec).
  pose proof (params_from_spec 0 ∅ (ph_Params (ph_Spec ph))) as Hp.
  destruct (params_from 0 ∅ (ph_Params (ph_Spec ph))).
  - split; [done|]. intros [Hn _]. apply Hp. split; [done|]. set_solver.
  - destruct Hp as [Hp _]. specialize (Hp eq_refl). tauto.
Qed.

Lemma posthook_steps_ok ph : Validate ph = None ->
  Forall (good_hook_step (DeclaredPlaceholderNames (ph_Params (ph_Spec ph)))) (ph_Steps (ph_Spec ph)).
Proof. intros Hv. by apply posthook_validate_iff in Hv as [_ ?]. Qed.

(** Spec validation accepts exactly the hooks that can be resolved: parameter
    names are distinct, every step has a kind, a Linux-only builtin is declared
    for Linux, a builtin gets only the parameters it reads, a script has a source,
    and every placeholder of an inline script or of a builtin's parameter is a
    declared parameter or a reserved name. *)
Theorem posthook_validate_spec ph :
  Validate ph = None <->
  NoDup (hp_Name <$> ph_Params (ph_Spec ph)) /\
  Forall (good_hook_step (DeclaredPlaceholderNames (ph_Params (ph_Spec ph)))) (ph_Steps (ph_Spec ph)).
Proof. apply posthook_validate_iff. Qed.

(** ** A hook marked valid can be resolved *)

Definition agrees (w : forall e : eff, option (resp e)) (x : event resp) : Prop := w (projT1 x) = Some (projT2 x).

Lemma checkSource_resolves w ns path src t :
  runs (checkSource ns path src) t (inl None) -> Forall (agrees w) t -> SourceKind src <> PostHookScriptSourceUnknown ->
  exists content, interp w (fetchScriptSource ns src) = Some (inl content).
Proof.
  unfold checkSource, SourceKind, fetchScriptSource. intros Hr Hw Hk.
  destruct (String.eqb_spec (sc_Script src) "") as [E|E]; cbn [negb] in *; [|by eexists].
  destruct (sc_ConfigMapRef src) as [ref|]; [|destruct (sc_SecretRef src) as [ref|]; [|done]]; cbn [negb String.eqb] in *.
  - destruct Hr as (r & t' & -> & Hr). apply Forall_cons in Hw as [Hw _]. unfold agrees in Hw. cbn in Hw. unfold Get, call. cbn [bind interp].
    rewrite Hw. cbn [bind Get call runs interp] in *. destruct r as [cm|err]; [|destruct Hr as [_ Hr]; by destruct (IsNotFound err)].
    destruct (cm_Data cm !! kr_Key ref) as [v|]; [by eexists|]. by destruct Hr.
  - destruct Hr as (r & t' & -> & Hr). apply Forall_cons in Hw as [Hw _]. unfold agrees in Hw. cbn in Hw. unfold Get, call. cbn [bind interp].
    rewrite Hw. cbn [bind Get call runs interp] in *. destruct r as [sec|err]; [|destruct Hr as [_ Hr]; by destruct (IsNotFound err)].
    destruct (secret_Data sec !! kr_Key ref) as [v|]; [by eexists|]. by destruct Hr.
Qed.

Lemma missing_from_none w ns i steps acc t :
  runs (missing_from ns i steps acc) t (inl []) -> Forall (agrees w) t ->
  acc = [] /\ forall step src, step ∈ steps -> ps_Script step = Some src -> SourceKind src <> PostHookScriptSourceUnknown ->
    exists content, interp w (fetchScriptSource ns src) = Some (inl content).
Proof.
  revert i acc t. induction steps as [|st steps IH]; intros i acc t; cbn [missing_from].
  { intros [-> [= <-]] _. split; [done|]. intros step src Hs. by apply not_elem_of_nil in Hs. }
  destruct (ps_Script st) as [src0|] eqn:Es.
  - intros (t1 & t2 & [problem|err] & -> & Hc & Hr)%runs_bind Hw; [|by destruct Hr].
    apply Forall_app in Hw as [Hw1 Hw2]. destruct (IH _ _ _ Hr Hw2) as [Ea Hs].
    apply app_eq_nil in Ea as [-> Ep]. destruct problem; [done|]. split; [done|].
    intros step src [->|Hin]%elem_of_cons Hsrc Hk; [|by eapply Hs]. rewrite Es in Hsrc. injection Hsrc as ->.
    by eapply checkSource_resolves.
  - intros Hr Hw. destruct (IH _ _ _ Hr Hw) as [-> Hs]. split; [done|].
    intros step src [->|Hin]%elem_of_cons Hsrc Hk; [congruence|by eapply Hs].
Qed.

Lemma missing_from_reads ns i steps acc : 
  calls (fun e => match e with EStatusUpdate _ _ => False | _ => True end) (missing_from ns i steps acc).
Proof.
  revert i acc. induction steps as [|st steps IH]; intros i acc; cbn [missing_from]; [done|].
  destruct (ps_Script st); [|apply IH]. apply calls_bind; [by repeat calls_step|]. intros [pr|err]; [apply IH|done].
Qed.

Section Valid.
Context `{ApiMachineryLaws}.

Lemma with_validity_valid ph status reason message :
  IsStatusConditionTrue (ph_Conditions (ph_Status (with_validity ph status reason message))) PostHookConditionValid
  = (status =s ConditionTrue).
Proof.
  unfold with_validity. destruct (if status =s ConditionTrue then _ else _) as [a b]. cbn.
  rewrite is_true_set_other by done. exact (is_true_set_same _ _).
Qed.

Definition sent_hook (e : eff) : option PostHook := match e with EStatusUpdate KPostHook o => Some o | _ => None end.

Lemma recordStatus_event ph status reason message tr res ph' r :
  runs (recordStatus ph status reason message) tr res -> ev (R := resp) (EStatusUpdate KPostHook ph') r ∈ tr ->
  IsStatusConditionTrue (ph_Conditions (ph_Status ph')) PostHookConditionValid = (status =s ConditionTrue).
Proof.
  intros (x & t & -> & Hr) Hin. assert (t = []) as -> by (destruct x; by destruct Hr).
  apply list_elem_of_singleton in Hin. apply (f_equal (fun x => sent_hook (projT1 x))) in Hin. injection Hin as ->.
  apply with_validity_valid.
Qed.

(** The reconciler and the plan builder agree on which hooks can be used: when
    a reconcile marks a hook Valid, its spec passes validation, and every script
    step's source, read from a cluster that answers as it did during that
    reconcile, gives the builder its content; so the builder does not fail on a
    hook it finds marked Valid as long as nothing changed. *)
Theorem valid_hook_sources_resolve w ph tr res ph' r
    (Hrun : runs (onChange ph) tr res) (Hw : Forall (agrees w) tr)
    (Hin : ev (R := resp) (EStatusUpdate KPostHook ph') r ∈ tr)
    (Hvalid : IsStatusConditionTrue (ph_Conditions (ph_Status ph')) PostHookConditionValid = true) :
  Validate ph = None /\
  forall step src, step ∈ ph_Steps (ph_Spec ph) -> ps_Builtin step = None -> ps_Script step = Some src ->
    exists content, interp w (fetchScriptSource (Namespace ph) src) = Some (inl content).
Proof.
  revert Hrun. unfold onChange. destruct (Validate ph) eqn:Hv.
  { intros Hr. rewrite (recordStatus_event _ _ _ _ _ _ _ _ Hr Hin) in Hvalid. done. }
  intros (t1 & t2 & missing & -> & Hm & Hr)%runs_bind. split; [done|].
  assert (Hin2 : ev (R := resp) (EStatusUpdate KPostHook ph') r ∈ t2).
  { apply elem_of_app in Hin as [Hin|]; [|done]. exfalso.
    pose proof (calls_runs _ _ _ _ (missing_from_reads _ _ _ _) Hm) as Hf. rewrite Forall_forall in Hf. exact (Hf _ Hin). }
  destruct missing as [[|m ms]|err]; [| |destruct Hr as [-> _]; by apply not_elem_of_nil in Hin2].
  2: { rewrite (recordStatus_event _ _ _ _ _ _ _ _ Hr Hin2) in Hvalid. done. }
  apply Forall_app in Hw as [Hw _]. destruct (missing_from_none _ _ _ _ _ _ Hm Hw) as [_ Hs].
  intros step src Hst Hb Hsrc. eapply Hs; [done|done|]. intros Hk.
  apply posthook_steps_ok in Hv. rewrite Forall_forall in Hv. specialize (Hv _ Hst). unfold good_hook_step in Hv.
  rewrite Hb, Hsrc in Hv. destruct Hv as [Hv _]. unfold SourceKind in Hk.
  destruct (String.eqb_spec (sc_Script src) ""); cbn in Hk; [|done]. destruct (sc_ConfigMapRef src), (sc_SecretRef src); naive_solver.
Qed.
End Valid.

(** ** Witness *)

Definition sample_source : PostHookScriptSource := mkScriptSource "" (Some (mkKeyRef "scripts" "setup.sh")) None 30.
Definition sample_hook : PostHook :=
  mkPostHook (Demo.meta "hook" ∅) (mkPostHookSpec [] [mkPostHookStep "" None (Some sample_source)]) (mkPostHookStatus 0 []).

Definition sample_world (e : eff) : option (resp e) :=
  match e return option (resp e) with
  | EGet KConfigMap _ => Some (inl (mkConfigMap (Demo.meta "scripts" ∅) {["setup.sh" := "true"]}))
  | EStatusUpdate _ o => Some (inl o)
  | _ => None
  end.

Definition sample_handler (e : eff) (u : unit) : option (resp e * unit) :=
  match sample_world e with Some r => Some (r, u) | None => None end.

Definition sample_written : PostHook :=
  with_validity (H := SimpleMeta.ops) sample_hook ConditionTrue "PostHookValid"
    "spec passes validation and every referenced source resolves".

Lemma valid_hook_sources_resolve_witness :
  exists content, interp sample_world (fetchScriptSource "ns" sample_source) = Some (inl content).
Proof.
  eapply (valid_hook_sources_resolve (H := SimpleMeta.ops) (H0 := SimpleMeta.laws) sample_world sample_hook _ (noRequeue, None)
    sample_written (inl sample_written)) with (step := mkPostHookStep "" None (Some sample_source)).
  - eapply (exec_runs sample_handler _ tt _ tt). vm_compute. reflexivity.
  - repeat constructor.
  - right. left.
  - reflexivity.
  - left.
  - reflexivity.
  - reflexivity.
Defined.
