(* ===== verification/Webhooks.v ===== *)
(** * Webhooks: what admission lets through

    [src/internal/webhook/v1alpha3]: the validators of Machine, MachineClaim,
    Image, PostHook, PartitionContent, Subnet and Site (those of DeployRun and
    MachineHardware admit everything), and the driver lookup of
    [src/internal/bmc/registry.go].  The type assertions on the decoded object are
    left out: the object comes typed.

    Parameters: [url.Parse] with the redacted text of a URL, and the schemes the
    binary's imports register. *)

From S2P Require Import Prelude Text Api AgentApi Effects Cluster Store DiskMatch Bootd SiteDerive PlanBuild PostHooks.
From S2P Require Import Machine AgentDeployer AgentServer BootServer.
Local Open Scope string_scope.
Local Open Scope list_scope.
Local Open Scope Z_scope.

#[export] Instance ClaimHardwareDiskSelector_eq_dec : EqDecision ClaimHardwareDiskSelector.
Proof. solve_decision. Defined.
#[export] Instance ClaimHardwareSelector_eq_dec : EqDecision ClaimHardwareSelector.
Proof. solve_decision. Defined.
#[export] Instance LabelSelectorRequirement_eq_dec : EqDecision LabelSelectorRequirement.
Proof. solve_decision. Defined.
#[export] Instance LabelSelector_eq_dec : EqDecision LabelSelector.
Proof. solve_decision. Defined.
#[export] Instance MachineClaimSelector_eq_dec : EqDecision MachineClaimSelector.
Proof. solve_decision. Defined.

(** ** MachineClaim *)

Definition Default (claim : MachineClaim) : MachineClaim :=
  let spec := claim_Spec claim in
  if cl_AfterDeploy spec =s "" then
    mkClaim (claim_meta claim) (mkClaimSpec (cl_MachineName spec) (cl_Selector spec) (cl_ImageRef spec) (cl_DataImages spec)
      (cl_TargetDisk spec) (cl_PostHookRefs spec) (cl_Params spec) (cl_Ezio spec) AfterDeployReboot) (claim_Status claim)
  else claim.

Definition validateMachineClaimSpec (claim : MachineClaim) : option GoErr :=
  if (cl_MachineName (claim_Spec claim) <>s "") && bool_decide (cl_Selector (claim_Spec claim) <> None) then
    Some (errorf "spec.machineName and spec.selector are mutually exclusive" [])
  else if bool_decide (cl_ImageRef (claim_Spec claim) = None) && bool_decide (data_images claim = []) then
    Some (errorf "spec must give at least one of imageRef or dataImages: a claim with no intent has nothing to ask for" [])
  else None.

Definition machineClaimSelectorEqual (a b : option MachineClaimSelector) : bool := bool_decide (a = b).

Definition validateMachineClaimBindingImmutable (oldClaim claim : MachineClaim) : option GoErr :=
  if cst_Phase (claim_Status oldClaim) <>s MachineClaimPhaseBound then None
  else if cl_MachineName (claim_Spec claim) <>s cl_MachineName (claim_Spec oldClaim) then
    Some (errorf "spec.machineName is immutable once the claim is Bound" [])
  else if negb (machineClaimSelectorEqual (cl_Selector (claim_Spec oldClaim)) (cl_Selector (claim_Spec claim))) then
    Some (errorf "spec.selector is immutable once the claim is Bound" [])
  else None.

Definition claim_ValidateUpdate (oldClaim claim : MachineClaim) : option GoErr :=
  match DeletionTimestamp claim with
  | Some _ => None
  | None =>
    match validateMachineClaimSpec claim with
    | Some err => Some err
    | None => validateMachineClaimBindingImmutable oldClaim claim
    end
  end.

(** ** PartitionContent *)

Definition rfc_edge (c : ascii) : bool := is_lower c || is_digit c.
Definition rfc_inner (c : ascii) : bool := rfc_edge c || Ascii.eqb c "-" || Ascii.eqb c ".".

(** [^[a-z0-9]([-a-z0-9.]*[a-z0-9])?$] *)
Definition partitionContentNamePattern (name : string) : bool :=
  match list_ascii_of_string name with
  | [] => false
  | c :: rest => rfc_edge c && forallb rfc_inner rest && match last rest with None => true | Some l => rfc_edge l end
  end.

Definition validatePartitionContentName (pc : PartitionContent) : option GoErr :=
  let name := Name pc in
  if negb (partitionContentNamePattern name) then
    Some (errorf "metadata.name %q must match %q" [name; "^[a-z0-9]([-a-z0-9.]*[a-z0-9])?$"])
  else if (MaxContentNameLength <? String.length name)%nat then
    Some (errorf "metadata.name %q is %d characters, over the %d-character limit: this content's own PVC is named %q, which has to fit the Kubernetes object name limit"
            [name; show_dec (Z.of_nat (String.length name)); show_dec (Z.of_nat MaxContentNameLength); PVCName name])
  else None.

(** ** Image *)

Fixpoint slot_sizes (image : Image) (slots : list ImageSlot) (warnings : list string)
  : go (list string * option GoErr) :=
  match slots with
  | [] => Ret (warnings, None)
  | slot :: rest =>
    match is_ContentRef slot with
    | None => slot_sizes image rest warnings
    | Some ref =>
      if (nr_Namespace ref <>s "") && (nr_Namespace ref <>s Namespace image) then
        Ret (warnings, Some (errorf "slot %d references PartitionContent %q in namespace %q, but a slot's contentRef must stay in the Image's own namespace %q"
                               [show_dec (is_Number slot); nr_Name ref; nr_Namespace ref; Namespace image]))
      else
      r <- Get KContent (mkKey (Namespace image) (nr_Name ref)) ;;
      match r with
      | inr err =>
        if IsNotFound err then
          slot_sizes image rest (warnings ++ [sprintf "slot %d references PartitionContent %q, which does not exist yet; its slot size will be checked once the content is created"
                                                [show_dec (is_Number slot); nr_Name ref]])
        else Ret (warnings, Some (wrapf "looking up PartitionContent %q referenced by slot %d: %w"
                                    [nr_Name ref; show_dec (is_Number slot)] err))
      | inl content =>
        let content : PartitionContent := content in
        if is_SizeBytes slot =? 0 then
          slot_sizes image rest (warnings ++ [sprintf "slot %d references PartitionContent %q but declares no sizeBytes; its size cannot be checked against the content's lastExtentEnd"
                                                [show_dec (is_Number slot); nr_Name ref]])
        else if is_SizeBytes slot <? pc_LastExtentEnd (content_Spec content) then
          Ret (warnings, Some (errorf "slot %d sizeBytes (%d) is smaller than PartitionContent %q lastExtentEnd (%d): extents restore at absolute offsets, so a smaller slot would corrupt silently"
                                 [show_dec (is_Number slot); show_dec (is_SizeBytes slot); nr_Name ref;
                                  show_dec (pc_LastExtentEnd (content_Spec content))]))
        else slot_sizes image rest warnings
      end
    end
  end.

Definition validateSlotContentSizes (image : Image) : go (list string * option GoErr) :=
  slot_sizes image (lay_Slots (img_Layout (image_Spec image))) [].

Fixpoint hook_refs (image : Image) (i : Z) (refs : list NameRef) (warnings : list string)
  : go (list string * option GoErr) :=
  match refs with
  | [] => Ret (warnings, None)
  | ref :: rest =>
    if (nr_Namespace ref <>s "") && (nr_Namespace ref <>s Namespace image) then
      Ret (warnings, Some (errorf "spec.postHookRefs[%d] references PostHook %q in namespace %q, but a postHookRefs entry must stay in the Image's own namespace %q"
                             [show_dec i; nr_Name ref; nr_Namespace ref; Namespace image]))
    else
    r <- Get KPostHook (mkKey (Namespace image) (nr_Name ref)) ;;
    match r with
    | inr err =>
      if IsNotFound err then
        hook_refs image (i + 1) rest (warnings ++ [sprintf "spec.postHookRefs[%d] references PostHook %q, which does not exist yet; its osFamily compatibility will be checked once it is created"
                                                     [show_dec i; nr_Name ref]])
      else Ret (warnings, Some (wrapf "looking up PostHook %q referenced by spec.postHookRefs[%d]: %w" [nr_Name ref; show_dec i] err))
    | inl hook =>
      match CheckOSFamilyCompatible hook (EffectiveOSFamily (image_Spec image)) with
      | Some err => Ret (warnings, Some (wrapf "spec.postHookRefs[%d]: %w" [show_dec i] err))
      | None => hook_refs image (i + 1) rest warnings
      end
    end
  end.

Definition validatePostHookRefs (image : Image) : go (list string * option GoErr) :=
  hook_refs image 0 (img_PostHookRefs (image_Spec image)) [].

Definition validateImage (image : Image) : go (list string * option GoErr) :=
  '(warnings, err) <- validateSlotContentSizes image ;;
  match err with
  | Some err => Ret (warnings, Some err)
  | None => '(hookWarnings, err) <- validatePostHookRefs image ;; Ret (warnings ++ hookWarnings, err)
  end.

(** ** Machine, Subnet and Site *)

Definition validateSubnetRef (machine : Machine) : go (option GoErr) :=
  let ref := SubnetRef (Spec machine) in
  let namespace := if nr_Namespace ref =s "" then Namespace machine else nr_Namespace ref in
  r <- Get KSubnet (mkKey namespace (nr_Name ref)) ;;
  match r with
  | inr err =>
    Ret (Some (if IsNotFound err then errorf "spec.subnetRef names Subnet %q, which does not exist" [nr_Name ref]
               else wrapf "looking up Subnet %q referenced by spec.subnetRef: %w" [nr_Name ref] err))
  | inl subnet =>
    if negb (HasBootPlane (sub_Spec subnet)) then
      Ret (Some (errorf "spec.subnetRef names Subnet %q, which has no boot half (bootdServerIP/bootdNetworkRef/dhcp): a Machine cannot PXE-boot from a data-plane-only Subnet" [nr_Name ref]))
    else Ret None
  end.

Definition validateBMCInsecureSkipVerify (machine : Machine) : option GoErr :=
  match Annotations machine !! MachineAnnotationBMCInsecureSkipVerify with
  | None => None
  | Some value =>
    if (value <>s "true") && (value <>s "false") then
      Some (errorf "annotation %q has value %q, expected exactly %q or %q"
              [MachineAnnotationBMCInsecureSkipVerify; value; "true"; "false"])
    else None
  end.

Definition validateInspectDisable (machine : Machine) : option GoErr :=
  match Annotations machine !! MachineAnnotationInspectDisable with
  | None => None
  | Some value =>
    if value <>s "true" then
      Some (errorf "annotation %q has value %q, expected exactly %q" [MachineAnnotationInspectDisable; value; "true"])
    else if BootMACAddress (Spec machine) =s "" then
      Some (errorf "spec.bootMACAddress is required when annotation %q is %q" [MachineAnnotationInspectDisable; "true"])
    else None
  end.

Definition validateSiteRef (subnet : Subnet) : go (option GoErr) :=
  let ref := sub_SiteRef (sub_Spec subnet) in
  let namespace := if nr_Namespace ref =s "" then Namespace subnet else nr_Namespace ref in
  r <- Get KSite (mkKey namespace (nr_Name ref)) ;;
  match r with
  | inr err =>
    Ret (Some (if IsNotFound err then errorf "spec.siteRef names Site %q, which does not exist" [nr_Name ref]
               else wrapf "looking up Site %q referenced by spec.siteRef: %w" [nr_Name ref] err))
  | inl _ => Ret None
  end.

Definition validateSeederSubnetRef (site : Site) : go (option GoErr) :=
  match site_SeederSubnetRef (site_Spec site) with
  | None => Ret None
  | Some ref =>
    let namespace := if nr_Namespace ref =s "" then Namespace site else nr_Namespace ref in
    r <- Get KSubnet (mkKey namespace (nr_Name ref)) ;;
    match r with
    | inr err =>
      Ret (Some (if IsNotFound err then errorf "spec.seederSubnetRef names Subnet %q, which does not exist" [nr_Name ref]
                 else wrapf "looking up Subnet %q referenced by spec.seederSubnetRef: %w" [nr_Name ref] err))
    | inl subnet =>
      let gotIdentity := SiteRefIdentity subnet in
      let wantIdentity := SiteIdentity site in
      if gotIdentity <>s wantIdentity then
        Ret (Some (errorf "spec.seederSubnetRef names Subnet %q, but that Subnet's spec.siteRef names %q, not this Site (%q): a Site cannot designate a Subnet belonging to another Site as its seeding Subnet, because routability is not guaranteed across that line"
                     [nr_Name ref; gotIdentity; wantIdentity]))
      else Ret None
    end
  end.

Definition validateTrackerMatchesSeeding (site : Site) : option GoErr :=
  let hasTracker := (tr_IP (site_Tracker (site_Spec site)) <>s "") || (tr_ExternalURL (site_Tracker (site_Spec site)) <>s "") in
  match site_SeederSubnetRef (site_Spec site) with
  | Some ref =>
    if negb hasTracker then
      Some (errorf "spec.seederSubnetRef names Subnet %q, but neither tracker.ip nor tracker.externalURL is set: a seeding Site with no reachable tracker cannot converge" [nr_Name ref])
    else None
  | None =>
    if hasTracker then
      Some (errorf "spec.seederSubnetRef is unset, but a tracker is configured: a tracker with no seeder to announce for is a configuration mistake" [])
    else None
  end.

(** ** The BMC driver registry

    [drv] is a driver: what it answers for an address, credentials and the
    certificate option is its own.  The registry is written by [init] functions
    only, before anything reads it, so the lock leaves no trace. *)

Section Registry.
Context {B : Type}.

Definition Driver : Type := URL -> string * string -> bool -> B + GoErr.

(** A registration panics ([None]) on an empty, nil or repeated scheme. *)
Definition Register (scheme : string) (driver : option Driver) (registry : gmap string Driver) : option (gmap string Driver) :=
  let scheme := ToLower scheme in
  if scheme =s "" then None
  else match driver with
       | None => None
       | Some driver => match registry !! scheme with Some _ => None | None => Some (<[scheme := driver]> registry) end
       end.

Definition registeredSchemesLocked (registry : gmap string Driver) : list string :=
  sort_by String.ltb (map fst (map_to_list registry)).

Definition RegisteredSchemes (registry : gmap string Driver) : list string := registeredSchemesLocked registry.

Definition IsSchemeRegistered (registry : gmap string Driver) (scheme : string) : bool :=
  bool_decide (is_Some (registry !! ToLower scheme)).

Context (urlParse : string -> URL + GoErr) (redacted : URL -> string).

Definition Connect (registry : gmap string Driver) (address : string) (creds : string * string) (insecure : bool) : B + GoErr :=
  match urlParse address with
  | inr err => inr (wrapf "bmc: invalid address: %w" [] err)
  | inl parsed =>
    if Scheme parsed =s "" then inr (errorf "bmc: address %q has no scheme" [redacted parsed])
    else
    let scheme := ToLower (Scheme parsed) in
    match registry !! scheme with
    | None => inr (errorf "bmc: no driver registered for scheme %q (known: %s)"
                     [scheme; concat ", " (registeredSchemesLocked registry)])
    | Some driver =>
      match driver parsed creds insecure with
      | inr err => inr (wrapf "bmc: connecting to %s: %w" [redacted parsed] err)
      | inl b => inl b
      end
    end
  end.

Definition validateMachineBMC (registry : gmap string Driver) (machine : Machine) : option GoErr :=
  let address := bmc_Address (BMC (Spec machine)) in
  match urlParse address with
  | inr err => Some (wrapf "spec.bmc.address is not a valid URL: %w" [] err)
  | inl parsed =>
    if Scheme parsed =s "" then
      Some (errorf "spec.bmc.address %q has no scheme; a BMC address must be a URL like %q or %q"
              [redacted parsed; "redfish://host/..."; "ipmi://host"])
    else if negb (IsSchemeRegistered registry (Scheme parsed)) then
      let known := RegisteredSchemes registry in
      if (length known =? 0)%nat then
        Some (errorf "spec.bmc.address %q has scheme %q, which has no registered BMC driver (no driver is registered in this binary)"
                [redacted parsed; Scheme parsed])
      else Some (errorf "spec.bmc.address %q has scheme %q, which has no registered BMC driver (known: %s)"
                   [redacted parsed; Scheme parsed; concat ", " known])
    else None
  end.

Definition validateMachine (registry : gmap string Driver) (machine : Machine) : go (option GoErr) :=
  match validateMachineBMC registry machine with
  | Some err => Ret (Some err)
  | None =>
    match validateInspectDisable machine with
    | Some err => Ret (Some err)
    | None =>
      match validateBMCInsecureSkipVerify machine with
      | Some err => Ret (Some err)
      | None => validateSubnetRef machine
      end
    end
  end.

Definition machine_ValidateUpdate (registry : gmap string Driver) (machine : Machine) : go (option GoErr) :=
  match DeletionTimestamp machine with
  | Some _ => Ret None
  | None => validateMachine registry machine
  end.

Definition validateTrackerExternalURL (site : Site) : option GoErr :=
  let raw := tr_ExternalURL (site_Tracker (site_Spec site)) in
  if raw =s "" then None
  else
  match urlParse raw with
  | inr err => Some (wrapf "spec.tracker.externalURL %q does not parse as a URL: %w" [raw] err)
  | inl u =>
    if negb ((Scheme u =s "http") || (Scheme u =s "https") || (Scheme u =s "udp")) then
      Some (if Scheme u =s "" then
              errorf "spec.tracker.externalURL %q has no scheme: a BitTorrent announce URL must be absolute (http, https, or udp)" [raw]
            else errorf "spec.tracker.externalURL %q has scheme %q, but BitTorrent announce only supports http, https, or udp" [raw; Scheme u])
    else if Host u =s "" then Some (errorf "spec.tracker.externalURL %q has no host" [raw])
    else None
  end.

Definition validateSite (site : Site) : go (option GoErr) :=
  r <- validateSeederSubnetRef site ;;
  match r with
  | Some err => Ret (Some err)
  | None =>
    match validateTrackerMatchesSeeding site with
    | Some err => Ret (Some err)
    | None => Ret (validateTrackerExternalURL site)
    end
  end.

End Registry.

Arguments Driver B : clear implicits.

(** ** What admission guarantees *)

Section RegistryFacts.
Context {B : Type} (urlParse : string -> URL + GoErr) (redacted : URL -> string).

Lemma registeredSchemes_dom (r r' : gmap string (Driver B)) :
  dom r' =@{gset string} dom r -> registeredSchemesLocked r' = registeredSchemesLocked r.
Proof.
  intros Hdom. apply sort_strings_perm, NoDup_Permutation; [apply (NoDup_fst_map_to_list (A := Driver B))..|].
  assert (Hk : forall (m : gmap string (Driver B)) k, k ∈ map fst (map_to_list m) <-> k ∈ dom m).
  { intros m k. rewrite elem_of_dom, list_elem_of_fmap. split.
    - intros ([k' d] & -> & Hin%elem_of_map_to_list). by exists d.
    - intros [d Hd]. exists (k, d). by rewrite elem_of_map_to_list. }
  intros k. rewrite !Hk. by rewrite Hdom.
Qed.

(** Machine admission and the BMC connection agree on the address: an
    admitted address parses, its scheme finds a registered driver, and
    connecting with any credentials is what that driver answers, its error
    wrapped; a rejected address is one [Connect] refuses with one and the same
    error whatever the credentials and whatever drivers stand behind the
    registered schemes, so no driver is reached. *)
Theorem admitted_bmc_finds_driver (registry : gmap string (Driver B)) (machine : Machine) :
  let address := bmc_Address (BMC (Spec machine)) in
  match validateMachineBMC urlParse redacted registry machine with
  | None => exists u driver, urlParse address = inl u /\ Scheme u <> "" /\ registry !! ToLower (Scheme u) = Some driver /\
      forall creds insecure, Connect urlParse redacted registry address creds insecure =
        match driver u creds insecure with
        | inl b => inl b
        | inr err => inr (wrapf "bmc: connecting to %s: %w" [redacted u] err)
        end
  | Some _ => exists err, forall creds insecure (registry' : gmap string (Driver B)),
      dom registry' =@{gset string} dom registry -> Connect urlParse redacted registry' address creds insecure = inr err
  end.
Proof.
  intros address. unfold validateMachineBMC, Connect, IsSchemeRegistered. fold address.
  destruct (urlParse address) as [u|err] eqn:Hu; [|eauto].
  destruct (String.eqb_spec (Scheme u) "") as [He|He]; [eauto|].
  destruct (registry !! ToLower (Scheme u)) as [driver|] eqn:Hd.
  - rewrite bool_decide_eq_true_2 by eauto. cbn. exists u, driver. done.
  - rewrite bool_decide_eq_false_2 by (by intros [? ?]). cbn [negb].
    set (o := if (_ =? 0)%nat then _ else _). assert (Ho : is_Some o) by (subst o; by destruct (_ =? 0)%nat).
    destruct Ho as [e0 ->]. eexists. intros creds insecure registry' Hdom.
    apply not_elem_of_dom in Hd. rewrite <- Hdom in Hd. apply not_elem_of_dom in Hd.
    destruct (registry' !! ToLower (Scheme u)) as [driver|] eqn:He'; [done|].
    rewrite (registeredSchemes_dom registry) by done. reflexivity.
Qed.

Context {w : forall e, option (resp e)}.

(** A reference admitted against an unchanging cluster names an object there. *)
Lemma validateSubnetRef_reads machine :
  interp w (validateSubnetRef machine) = Some None ->
  exists subnet : Subnet, HasBootPlane (sub_Spec subnet) = true /\
    w (EGet KSubnet (mkKey (if nr_Namespace (SubnetRef (Spec machine)) =s "" then Namespace machine
                            else nr_Namespace (SubnetRef (Spec machine))) (nr_Name (SubnetRef (Spec machine))))) = Some (inl subnet).
Proof.
  cbn. destruct (w _) as [[subnet|err]|]; cbn; [|done..].
  destruct (HasBootPlane (sub_Spec subnet)) eqn:Hb; cbn; [|done]. eauto.
Qed.

Lemma validateSiteRef_reads subnet :
  interp w (validateSiteRef subnet) = Some None ->
  exists site : Site,
    w (EGet KSite (mkKey (if nr_Namespace (sub_SiteRef (sub_Spec subnet)) =s "" then Namespace subnet
                          else nr_Namespace (sub_SiteRef (sub_Spec subnet))) (nr_Name (sub_SiteRef (sub_Spec subnet))))) = Some (inl site).
Proof. cbn. destruct (w _) as [[site|err]|]; cbn; [|done..]. eauto. Qed.

Lemma validateSite_reads site ref :
  interp w (validateSite urlParse site) = Some None -> site_SeederSubnetRef (site_Spec site) = Some ref ->
  exists subnet : Subnet, SiteRefIdentity subnet = SiteIdentity site /\
    (tr_IP (site_Tracker (site_Spec site)) <> "" \/ tr_ExternalURL (site_Tracker (site_Spec site)) <> "") /\
    w (EGet KSubnet (mkKey (if nr_Namespace ref =s "" then Namespace site else nr_Namespace ref) (nr_Name ref))) = Some (inl subnet).
Proof.
  intros H Hr. unfold validateSite in H. rewrite interp_bind in H. unfold validateSeederSubnetRef in H.
  rewrite Hr in H. cbn in H. destruct (w _) as [[subnet|err]|]; cbn in H; [|done..].
  destruct (String.eqb_spec (SiteRefIdentity subnet) (SiteIdentity site)) as [He|]; [|done].
  exists subnet. split; [done|]. split; [|done]. cbn in H.
  unfold validateTrackerMatchesSeeding in H. rewrite Hr in H.
  destruct (String.eqb_spec (tr_IP (site_Tracker (site_Spec site))) ""); [|by left].
  destruct (String.eqb_spec (tr_ExternalURL (site_Tracker (site_Spec site))) ""); [|by right]. done.
Qed.

(** References that admission let through resolve: against a cluster in
    which the Machine, its Subnet and its Site each pass their validators, the
    walk to the seeder answers with a resolution and no error; the Machine's
    own Subnet has a boot half; and when the Site seeds, the Subnet the seeder
    runs on names this very Site, and the Site has a tracker. *)
Theorem admitted_references_resolve registry machine :
  interp w (validateMachine (B := B) urlParse redacted registry machine) = Some None ->
  (forall key subnet, w (EGet KSubnet key) = Some (inl subnet) -> interp w (validateSiteRef subnet) = Some None) ->
  (forall key site, w (EGet KSite key) = Some (inl site) -> interp w (validateSite urlParse site) = Some None) ->
  exists res, interp w (Resolve machine) = Some (inl res) /\
    (HasSeeder res = true -> exists seederSubnet key site,
       ResolvedSubnet res = Some seederSubnet /\ w (EGet KSite key) = Some (inl site) /\
       SiteIdentity_ res = SiteIdentity site /\ SiteRefIdentity seederSubnet = SiteIdentity site /\
       (tr_IP (site_Tracker (site_Spec site)) <> "" \/ tr_ExternalURL (site_Tracker (site_Spec site)) <> "")).
Proof.
  intros Hm Hsub Hsite. unfold validateMachine in Hm.
  destruct (validateMachineBMC _ _ _ _); [done|]. destruct (validateInspectDisable _); [done|].
  destruct (validateBMCInsecureSkipVerify _); [done|].
  apply validateSubnetRef_reads in Hm as (subnet & _ & Hsn).
  destruct (validateSiteRef_reads subnet (Hsub _ _ Hsn)) as [site Hst].
  cbn. rewrite Hsn. cbn. rewrite Hst. cbn.
  destruct (site_SeederSubnetRef (site_Spec site)) as [ref|] eqn:Hr; cbn; [|eexists; by split].
  destruct (validateSite_reads site ref (Hsite _ _ Hst) Hr) as (seeder & Hid & Htr & Hrd).
  rewrite Hrd. cbn. eexists. split; [done|]. intros _. exists seeder. eexists _, site. by split_and!.
Qed.

Lemma slot_sizes_admitted image slots warnings0 :
  interp w (slot_sizes image slots warnings0) = Some ([], None) ->
  warnings0 = [] /\
  forall slot ref, slot ∈ slots -> is_ContentRef slot = Some ref ->
    (nr_Namespace ref = "" \/ nr_Namespace ref = Namespace image) /\
    exists content : PartitionContent,
      w (EGet KContent (mkKey (Namespace image) (nr_Name ref))) = Some (inl content) /\
      is_SizeBytes slot <> 0 /\ pc_LastExtentEnd (content_Spec content) <= is_SizeBytes slot.
Proof.
  revert warnings0. induction slots as [|slot slots IH]; cbn [slot_sizes]; intros ws H; [injection H as ->; split; [done|]; by intros ? ? ?%not_elem_of_nil|].
  destruct (is_ContentRef slot) as [ref|] eqn:Hc.
  2: { apply IH in H as [-> H]. split; [done|]. intros s' r' [->|Hin]%elem_of_cons Hs'; [congruence|eauto]. }
  destruct ((nr_Namespace ref <>s "") && (nr_Namespace ref <>s Namespace image)) eqn:Hns; [done|].
  unfold Get, call in H. cbn [bind interp] in H. destruct (w _) as [[content|err]|] eqn:Hw; cbn [bind interp] in H; [| |done].
  2: { destruct (IsNotFound err); [|done]. apply IH in H as [Hx _]. by apply app_eq_nil in Hx as [_ ?]. }
  destruct (Z.eqb_spec (is_SizeBytes slot) 0); [apply IH in H as [Hx _]; by apply app_eq_nil in Hx as [_ ?]|].
  destruct (Z.ltb_spec (is_SizeBytes slot) (pc_LastExtentEnd (content_Spec content))); [done|].
  apply IH in H as [-> H]. split; [done|]. intros s' r' [->|Hin]%elem_of_cons Hs'; [|eauto].
  rewrite Hc in Hs'. injection Hs' as <-. split; [|eauto].
  destruct (String.eqb_spec (nr_Namespace ref) ""); [by left|].
  destruct (String.eqb_spec (nr_Namespace ref) (Namespace image)); [by right|done].
Qed.

Lemma hook_refs_admitted image i refs warnings0 :
  interp w (hook_refs image i refs warnings0) = Some ([], None) ->
  warnings0 = [] /\
  forall ref, ref ∈ refs -> exists hook : PostHook,
    w (EGet KPostHook (mkKey (Namespace image) (nr_Name ref))) = Some (inl hook) /\
    CheckOSFamilyCompatible hook (EffectiveOSFamily (image_Spec image)) = None.
Proof.
  revert i warnings0. induction refs as [|ref refs IH]; cbn [hook_refs]; intros i ws H; [injection H as ->; split; [done|]; by intros ? ?%not_elem_of_nil|].
  destruct (_ && _); [done|]. unfold Get, call in H. cbn [bind interp] in H. destruct (w _) as [[hook|err]|] eqn:Hw; cbn [bind interp] in H; [| |done].
  2: { destruct (IsNotFound err); [|done]. apply IH in H as [Hx _]. by apply app_eq_nil in Hx as [_ ?]. }
  destruct (CheckOSFamilyCompatible hook _) eqn:Hk; [done|]. apply IH in H as [-> H]. split; [done|].
  intros r' [->|Hin]%elem_of_cons; eauto.
Qed.

(** An Image admitted without a warning is one its contents fit and its
    hooks suit: every slot with a content reference stays in the Image's
    namespace, the PartitionContent is there, and its last extent ends inside
    the declared size of the slot, so that no extent is restored past the
    slot's end; every PostHook named is there and compatible with the family
    of the Image's operating system. *)
Theorem admitted_image_fits image :
  interp w (validateImage image) = Some ([], None) ->
  (forall slot ref, slot ∈ lay_Slots (img_Layout (image_Spec image)) -> is_ContentRef slot = Some ref ->
     (nr_Namespace ref = "" \/ nr_Namespace ref = Namespace image) /\
     exists content : PartitionContent,
       w (EGet KContent (mkKey (Namespace image) (nr_Name ref))) = Some (inl content) /\
       is_SizeBytes slot <> 0 /\ pc_LastExtentEnd (content_Spec content) <= is_SizeBytes slot) /\
  (forall ref, ref ∈ img_PostHookRefs (image_Spec image) -> exists hook : PostHook,
     w (EGet KPostHook (mkKey (Namespace image) (nr_Name ref))) = Some (inl hook) /\
     CheckOSFamilyCompatible hook (EffectiveOSFamily (image_Spec image)) = None).
Proof.
  unfold validateImage. rewrite interp_bind. destruct (interp w (validateSlotContentSizes image)) as [[ws [err|]]|] eqn:Hs; [done| |done].
  rewrite interp_bind. destruct (interp w (validatePostHookRefs image)) as [[ws' err]|] eqn:Hh; [|done].
  cbn. intros [= Hn ->]. apply app_eq_nil in Hn as [-> ->].
  split; [eapply slot_sizes_admitted, Hs|eapply hook_refs_admitted, Hh].
Qed.
End RegistryFacts.

(** ** Witnesses *)

(** A URL reader for the samples: a scheme and a host around "://". *)
Definition sample_urlParse (s : string) : URL + GoErr :=
  match String.index 0 "://" s with
  | None => inr (errorf "first path segment in URL cannot contain colon" [])
  | Some i => inl (mkURL (String.substring 0 i s) (String.substring (i + 3) (String.length s) s) "")
  end.

Definition sample_registry : gmap string (Driver unit) := {["redfish" := fun _ _ _ => inl tt]}.

Definition sample_machine : Machine := Demo.machine ∅ (Demo.status MachineStateAvailable).

Definition sample_subnet : Subnet :=
  mkSubnet (Demo.meta "net" ∅)
    (mkSubnetSpec (mkNameRef "" "site") "10.0.0.0/24" "10.0.0.2" (Some (mkNameRef "" "nad")) None ∅
      (Some (mkSubnetDHCP SubnetDHCPModeLease "" "" None None))) (mkSubnetStatus [] None).

Definition sample_site : Site :=
  mkSite (Demo.meta "site" ∅) (mkSiteSpec (Some (mkNameRef "" "net")) (mkTracker "" "http://tracker.example:6969/announce"))
    (mkSiteStatus [] true "http://tracker.example:6969/announce" []).

Definition fitting_content : PartitionContent :=
  mkContent (Demo.meta "root" ∅) (mkContentSpec "ext4" 512 1024 1024 262144 (mkContentSource "import" 1))
    (mkContentStatus PartitionContentStateReady "" None [] []).

Definition fitting_image : Image :=
  mkImage (Demo.meta "img" ∅)
    (mkImageSpec "" None (mkLayout "gpt" "" [mkImageSlot 1 "root" (Some (mkNameRef "" "root")) "ext4" "" "" "" 2048]) None
      [mkNameRef "" "hook"]) (mkImageStatus ImageStateReady []).

Definition admitted_world (e : eff) : option (resp e) :=
  match e return option (resp e) with
  | EGet KSubnet _ => Some (inl sample_subnet)
  | EGet KSite _ => Some (inl sample_site)
  | EGet KContent _ => Some (inl fitting_content)
  | EGet KPostHook _ => Some (inl PostHooks.sample_hook)
  | _ => None
  end.

Lemma admitted_references_resolve_witness :
  exists res, interp admitted_world (Resolve sample_machine) = Some (inl res) /\
    (HasSeeder res = true -> exists seederSubnet key site,
       ResolvedSubnet res = Some seederSubnet /\ admitted_world (EGet KSite key) = Some (inl site) /\
       SiteIdentity_ res = SiteIdentity site /\ SiteRefIdentity seederSubnet = SiteIdentity site /\
       (tr_IP (site_Tracker (site_Spec site)) <> "" \/ tr_ExternalURL (site_Tracker (site_Spec site)) <> "")).
Proof.
  apply (admitted_references_resolve sample_urlParse Host sample_registry sample_machine).
  - vm_compute. reflexivity.
  - intros key subnet [= <-]. vm_compute. reflexivity.
  - intros key site [= <-]. vm_compute. reflexivity.
Defined.

Lemma admitted_image_fits_witness :
  exists content : PartitionContent,
    admitted_world (EGet KContent (mkKey "ns" "root")) = Some (inl content) /\ 2048 <> 0 /\
    pc_LastExtentEnd (content_Spec content) <= 2048.
Proof.
  assert (Hok : interp admitted_world (validateImage fitting_image) = Some ([], None)) by (vm_compute; reflexivity).
  exact (proj2 (proj1 (admitted_image_fits fitting_image Hok) _ _ (list_elem_of_here _ _) eq_refl)).
Defined.
