(* ===== verification/Subnets.v ===== *)
(** * Subnets: the Subnet reconciler and its bootd Deployment

    [src/internal/controller/subnet_controller.go], [subnet_bootd_deployment.go]
    and [subnet_bootd_config.go], with [src/internal/nadvalidate/config.go].
    [hex_sha256] is the digest behind names that are too long, [durationString]
    the text of a duration; the decoding of a NAD's configuration is
    [NetValidate]'s.  Watches and their setup are wiring. *)

From S2P Require Import Prelude Text Api Effects Workloads Cluster SubnetDhcp Bootd SiteDerive NetValidate BootServer.
Local Open Scope string_scope.
Local Open Scope list_scope.
Local Open Scope Z_scope.

Definition ConditionUnknown : string := "Unknown".
Definition SubnetConditionValid : string := "Valid".
Definition SubnetConditionReady : string := "Ready".

(** ** Configuration *)

Definition bootdDefaultServiceAccountName : string := "kezio-bootd".

Record BootdDeploymentConfig := mkBootdConfig {
  bc_Image : string; bc_BootArtifactsImage : string; bc_ServiceAccountName : string; bc_AgentUpstreamURL : string;
  bc_BootUpstreamURL : string; bc_HTTPBootURL : string; bc_LeaseStorageClassName : string }.

Definition enabled (c : BootdDeploymentConfig) : bool := (bc_Image c <>s "") && (bc_BootArtifactsImage c <>s "").

Definition serviceAccountName (c : BootdDeploymentConfig) : string :=
  if bc_ServiceAccountName c <>s "" then bc_ServiceAccountName c else bootdDefaultServiceAccountName.

(** ** The bootd Deployment *)

Definition bootdAppNameLabel : string := "app.kubernetes.io/name".
Definition bootdAppNameValue : string := "kezio".
Definition bootdAppComponentLabel : string := "app.kubernetes.io/component".
Definition bootdComponentValue : string := "bootd".
Definition bootdDeploymentSubnetLabel : string := "kezio.kojuro.date/bootd-subnet".
Definition bootdDeploymentNamePrefix : string := "kezio-bootd-".
Definition bootdMaxNameLength : nat := 63.
Definition bootdDHCPInterface : string := "net1".
Definition bootdTFTPDir : string := "/tftp".
Definition bootdRunDirMount : string := "/run/bootd".
Definition bootdLeaseDirMount : string := "/var/lib/bootd-leases".
Definition bootdTFTPVolumeName : string := "tftp".
Definition bootdRunVolumeName : string := "run".
Definition bootdLeaseVolumeName : string := "leases".
Definition bootdLeasePVCNameSuffix : string := "-leases".
(** 64Mi. *)
Definition bootdLeasePVCStorageSize : Z := 64 * 1024 * 1024.
Definition multusNetworksAnnotation : string := "k8s.v1.cni.cncf.io/networks".
Definition DefaultHealthProbePort : Z := 8081.
Definition DnsmasqCapabilities : list string := ["NET_BIND_SERVICE"; "NET_ADMIN"; "NET_RAW"].

Definition resolveNamespace (ref : NameRef) (defaultNamespace : string) : string :=
  if nr_Namespace ref <>s "" then nr_Namespace ref else defaultNamespace.

Definition nodeSelectorOrNil (selector : gmap string string) : gmap string string := selector.

Definition bootdCapabilities : list string := DnsmasqCapabilities.

Section Builders.
Context (hex_sha256 : string -> string) (durationString : Z -> string).

Definition bootdDeploymentName (subnetName : string) : string :=
  let name := bootdDeploymentNamePrefix +:+ subnetName in
  if (String.length name <=? bootdMaxNameLength)%nat then name
  else
  let suffix := "-" +:+ String.substring 0 8 (hex_sha256 subnetName) in
  let maxBaseLen := (bootdMaxNameLength - String.length bootdDeploymentNamePrefix - String.length suffix)%nat in
  bootdDeploymentNamePrefix +:+ String.substring 0 maxBaseLen subnetName +:+ suffix.

Definition bootdLeasePVCName (subnetName : string) : string :=
  let name := bootdDeploymentNamePrefix +:+ subnetName +:+ bootdLeasePVCNameSuffix in
  if (String.length name <=? bootdMaxNameLength)%nat then name
  else
  let suffix := "-" +:+ String.substring 0 8 (hex_sha256 subnetName) +:+ bootdLeasePVCNameSuffix in
  let maxBaseLen := (bootdMaxNameLength - String.length bootdDeploymentNamePrefix - String.length suffix)%nat in
  bootdDeploymentNamePrefix +:+ String.substring 0 maxBaseLen subnetName +:+ suffix.

(** [ref] is the dereferenced [spec.bootdNetworkRef], [dhcp] the dereferenced
    [spec.dhcp]. *)
Definition bootdPodAnnotations (subnet : Subnet) (ref : NameRef) : gmap string string :=
  {[multusNetworksAnnotation := qualified (resolveNamespace ref (Namespace subnet)) (nr_Name ref)]}.

Definition env_if (cond : bool) (name value : string) : list EnvVar := if cond then [mkEnv name value] else [].

Definition lease_env (dhcp : SubnetDHCP) : list EnvVar :=
  match dhcp_Gateway dhcp with Some g => [mkEnv "BOOTD_GATEWAY" g] | None => [] end ++
  env_if (dhcp_LeaseRangeStart dhcp <>s "") "BOOTD_LEASE_RANGE_START" (dhcp_LeaseRangeStart dhcp) ++
  env_if (dhcp_LeaseRangeEnd dhcp <>s "") "BOOTD_LEASE_RANGE_END" (dhcp_LeaseRangeEnd dhcp) ++
  match dhcp_LeaseTime dhcp with Some d => [mkEnv "BOOTD_LEASE_TIME" (durationString d)] | None => [] end ++
  [mkEnv "BOOTD_LEASE_DIR" bootdLeaseDirMount].

Definition lease_mode (dhcp : SubnetDHCP) : bool := dhcp_Mode dhcp =s SubnetDHCPModeLease.

Definition bootdEnv (subnet : Subnet) (dhcp : SubnetDHCP) (cfg : BootdDeploymentConfig) : list EnvVar :=
  let leaseMode := lease_mode dhcp in
  [mkEnv "BOOTD_SERVER_IP" (sub_BootdServerIP (sub_Spec subnet)); mkEnv "BOOTD_PROVISIONING_CIDR" (sub_CIDR (sub_Spec subnet));
   mkEnv "BOOTD_DHCP_INTERFACE" bootdDHCPInterface; mkEnv "BOOTD_TFTP_DIR" bootdTFTPDir;
   mkEnv "BOOTD_LEASE_MODE" (if leaseMode then "true" else "false");
   mkEnv "BOOTD_SUBNET_NAME" (Name subnet); mkEnv "BOOTD_SUBNET_NAMESPACE" (Namespace subnet)] ++
  (if leaseMode then lease_env dhcp else []) ++
  env_if (bc_AgentUpstreamURL cfg <>s "") "BOOTD_AGENT_UPSTREAM_URL" (bc_AgentUpstreamURL cfg) ++
  (if bc_BootUpstreamURL cfg <>s "" then
     [mkEnv "BOOTD_BOOT_UPSTREAM_URL" (bc_BootUpstreamURL cfg);
      mkEnv "BOOTD_BOOT_CONFIG_URL" (sprintf "http://%s:%d" [sub_BootdServerIP (sub_Spec subnet); show_dec DefaultProxyPort])]
   else []) ++
  env_if (bc_HTTPBootURL cfg <>s "") "BOOTD_HTTP_BOOT_URL" (bc_HTTPBootURL cfg).

Definition bootd_labels (subnet : Subnet) : gmap string string :=
  <[bootdAppNameLabel := bootdAppNameValue]> (<[bootdAppComponentLabel := bootdComponentValue]>
    {[bootdDeploymentSubnetLabel := Name subnet]}).

Definition bootd_volumes (subnet : Subnet) (leaseMode : bool) : list Volume :=
  [mkVolume bootdTFTPVolumeName EmptyDir; mkVolume bootdRunVolumeName EmptyDir] ++
  (if leaseMode then [mkVolume bootdLeaseVolumeName (ClaimVolume (bootdLeasePVCName (Name subnet)) false)] else []).

Definition bootd_mounts (leaseMode : bool) : list VolumeMount :=
  [mkMount bootdTFTPVolumeName bootdTFTPDir true; mkMount bootdRunVolumeName bootdRunDirMount false] ++
  (if leaseMode then [mkMount bootdLeaseVolumeName bootdLeaseDirMount false] else []).

Definition fetch_container (cfg : BootdDeploymentConfig) : Container :=
  mkContainer "fetch-boot-artifacts" (bc_BootArtifactsImage cfg)
    ["cp"; "-a"; "/boot-artifacts/" +:+ ShimFilename; "/boot-artifacts/" +:+ GrubFilename; "/dest"] [] [] []
    [mkMount bootdTFTPVolumeName "/dest" false]
    (Some (mkSecurity None None (Some true) None (Some false) (Some true) [] ["ALL"])) no_resources None "" "".

Definition bootd_container (subnet : Subnet) (dhcp : SubnetDHCP) (cfg : BootdDeploymentConfig) : Container :=
  mkContainer "bootd" (bc_Image cfg) [] [] (bootdEnv subnet dhcp cfg)
    [mkPort "proxydhcp" 67 ProtocolUDP; mkPort "pxe" 4011 ProtocolUDP; mkPort "proxy-http" DefaultProxyPort ProtocolTCP;
     mkPort bootdTFTPVolumeName 69 ProtocolUDP]
    (bootd_mounts (lease_mode dhcp))
    (Some (mkSecurity (Some 0) (Some 0) (Some false) None (Some false) (Some true) bootdCapabilities ["ALL"]))
    (mkResources (<["cpu" := "1"]> {["memory" := "256Mi"]}) (<["cpu" := "100m"]> {["memory" := "64Mi"]}))
    (Some (mkProbe "/readyz" (inr DefaultHealthProbePort) 1 5)) "" "".

Definition buildBootdDeployment (subnet : Subnet) (dhcp : SubnetDHCP) (ref : NameRef) (cfg : BootdDeploymentConfig) : Deployment :=
  let labels := bootd_labels subnet in
  mkDeployment (new_meta (bootdDeploymentName (Name subnet)) (Namespace subnet) labels ∅)
    (mkDeploymentSpec 1 (if lease_mode dhcp then RecreateDeploymentStrategyType else "") (Some labels)
      (mkTemplate labels (bootdPodAnnotations subnet ref)
        (mkPodSpec "" (serviceAccountName cfg) (nodeSelectorOrNil (sub_NodeSelector (sub_Spec subnet)))
          (Some (mkPodSecurity None None None (Some 65532) (Some SeccompProfileTypeRuntimeDefault)))
          [fetch_container cfg] [bootd_container subnet dhcp cfg] (bootd_volumes subnet (lease_mode dhcp))))) 0 [].

Definition buildBootdLeasePVC (subnet : Subnet) (cfg : BootdDeploymentConfig) : PersistentVolumeClaim :=
  mkPVC (new_meta (bootdLeasePVCName (Name subnet)) (Namespace subnet) (bootd_labels subnet) ∅) [ReadWriteOnce]
    bootdLeasePVCStorageSize (if bc_LeaseStorageClassName cfg <>s "" then Some (bc_LeaseStorageClassName cfg) else None).
End Builders.

Definition deploymentAvailable (dep : Deployment) : bool :=
  match find_first (fun c => dc_Type c =s DeploymentAvailable) (dep_Conditions dep) with
  | Some c => dc_Status c =s ConditionTrue
  | None => false
  end.

Definition deploymentUnavailableReason (dep : Deployment) : string * string :=
  match find_first (fun c => (dc_Type c =s DeploymentReplicaFailure) && (dc_Status c =s ConditionTrue)) (dep_Conditions dep) with
  | Some c => (dc_Reason c, sprintf "bootd Deployment could not create its pod: %s" [dc_Message c])
  | None =>
    match find_first (fun c => (dc_Type c =s DeploymentProgressing) && (dc_Status c =s ConditionFalse)) (dep_Conditions dep) with
    | Some c => (dc_Reason c, sprintf "bootd Deployment stopped progressing: %s" [dc_Message c])
    | None => ("BootdDeploymentUnavailable", "bootd Deployment for this Subnet has not become Available yet")
    end
  end.

(** ** The reconciler *)

Definition bootdNamespacePrerequisiteRequeueAfter : Z := Minute.
Definition bootdDeploymentOwnershipRequeueAfter : Z := Minute.

Definition partitionContentAppComponentLabel : string := "app.kubernetes.io/component".
Definition partitionContentSeederComponentValue : string := "image-seeder".
Definition partitionContentSeederSubnetLabel : string := "kezio.kojuro.date/seeder-subnet".

Record subnetCheck := mkSubnetCheck { sc_result : CheckResult; sc_blocks : bool }.

Definition ConfigFromUnstructured (nad : NAD) : string + GoErr :=
  match nad_Config nad with
  | inr err => inr (wrapf "nad %s: spec.config: %w" [Name nad] err)
  | inl None => inr (errorf "nad %s: spec.config not set" [Name nad])
  | inl (Some config) => inl config
  end.

(** A content error keeps its text and is told apart by its class. *)
Definition nadContentError (err : GoErr) : GoErr := mkErr KNADContent (emsg err).

Definition fetchNADConfig (ref : NameRef) (defaultNS : string) : go (string + GoErr) :=
  r <- Get KNAD (mkKey (resolveNamespace ref defaultNS) (nr_Name ref)) ;;
  Ret match r with
      | inr err => inr err
      | inl nad => match ConfigFromUnstructured nad with inr err => inr (nadContentError err) | inl config => inl config end
      end.

Definition isIndeterminateNADErr (err : GoErr) : bool :=
  IsNotFound err || IsNoMatchError err || bool_decide (ekind err = KNADContent).

Definition indeterminateFromFetchErr (reasonPrefix what : string) (err : GoErr) : CheckResult :=
  mkCheck Indeterminate
    (reasonPrefix +:+ (if IsNotFound err then "NADNotFound" else if IsNoMatchError err then "NADKindAbsent" else "NADUnresolved"))
    (sprintf "%s: %v" [what; emsg err]).

Definition concurrentSeederDeployments (subnet : Subnet) : go (Z + GoErr) :=
  r <- ListLabels KDeployment (Namespace subnet)
         (<[partitionContentAppComponentLabel := partitionContentSeederComponentValue]>
            {[partitionContentSeederSubnetLabel := Name subnet]}) ;;
  Ret match r with
      | inr err => inr (wrapf "list seeder deployments: %w" [] err)
      | inl deployments => inl (Z.of_nat (length (List.filter (fun d : Deployment => 0 <? dep_AvailableReplicas d) deployments)))
      end.

Definition checkSiteRef (subnet : Subnet) : go (subnetCheck + GoErr) :=
  let ref := sub_SiteRef (sub_Spec subnet) in
  let ns := resolveNamespace ref (Namespace subnet) in
  r <- Get KSite (mkKey ns (nr_Name ref)) ;;
  Ret match r with
      | inl _ => inl (mkSubnetCheck (mkCheck OK "SiteFound" (sprintf "Site %s/%s exists" [ns; nr_Name ref])) false)
      | inr err =>
        if IsNotFound err then
          inl (mkSubnetCheck (mkCheck Violation "SiteNotFound" (sprintf "spec.siteRef names Site %s/%s, which does not exist" [ns; nr_Name ref])) false)
        else inr (wrapf "get site %s/%s: %w" [ns; nr_Name ref] err)
      end.

(** The other party of a collision, least by namespace and name. *)
Definition collides (subnet : Subnet) (ref : NameRef) (candidate : Subnet) : bool :=
  (UID candidate <>s UID subnet) &&
  match sub_BootdNetworkRef (sub_Spec candidate) with
  | None => false
  | Some cref => (resolveNamespace cref (Namespace candidate) =s resolveNamespace ref (Namespace subnet)) && (nr_Name cref =s nr_Name ref)
  end.

Definition before (a b : Subnet) : bool :=
  String.ltb (Namespace a) (Namespace b) || ((Namespace a =s Namespace b) && String.ltb (Name a) (Name b)).

Definition collision_among (subnet : Subnet) (ref : NameRef) (items : list Subnet) : option Subnet :=
  fold_left (fun other candidate =>
    if negb (collides subnet ref candidate) then other
    else match other with
         | None => Some candidate
         | Some o => if before candidate o then Some candidate else other
         end) items None.

Definition findBootdNetworkCollision (subnet : Subnet) (ref : NameRef) : go (option Subnet + GoErr) :=
  r <- List_ KSubnet "" ;;
  Ret match r with
      | inr err => inr (wrapf "list subnets: %w" [] err)
      | inl items => inl (collision_among subnet ref items)
      end.

Definition psa_check (subnet : Subnet) (ns : NamespaceObject) : subnetCheck :=
  if default "" (Labels ns !! "pod-security.kubernetes.io/enforce") =s "privileged" then
    mkSubnetCheck (mkCheck OK "BootdNamespacePSALabelPresent"
      (sprintf "namespace %s carries pod-security.kubernetes.io/enforce=privileged" [Namespace subnet])) false
  else
    mkSubnetCheck (mkCheck Violation "BootdNamespacePSALabelMissing"
      (sprintf "namespace %s has no pod-security.kubernetes.io/enforce=privileged label; bootd needs NET_ADMIN, which Pod Security Admission rejects under the default (restricted) profile - if the bootd pod is not starting, this missing label is the likely cause, though a cluster-wide PSA exemption or default configured outside this namespace's own labels could also apply"
         [Namespace subnet])) false.

Definition checkBootdNamespacePrerequisites (cfg : BootdDeploymentConfig) (subnet : Subnet) : go (list subnetCheck + GoErr) :=
  r <- Get KNamespace (mkKey "" (Namespace subnet)) ;;
  match r with
  | inr err => Ret (inr (wrapf "get namespace %s: %w" [Namespace subnet] err))
  | inl ns =>
    let saName := serviceAccountName cfg in
    r <- Get KServiceAccount (mkKey (Namespace subnet) saName) ;;
    Ret match r with
        | inl _ => inl [psa_check subnet ns; mkSubnetCheck (mkCheck OK "BootdServiceAccountPresent"
                     (sprintf "ServiceAccount %s/%s exists" [Namespace subnet; saName])) false]
        | inr err =>
          if IsNotFound err then
            inl [psa_check subnet ns; mkSubnetCheck (mkCheck Violation "BootdServiceAccountMissing"
              (sprintf "ServiceAccount %s/%s does not exist; the bootd Deployment stamps serviceAccountName: %s unconditionally, and its pod cannot start without it"
                 [Namespace subnet; saName; saName])) false]
          else inr (wrapf "get serviceaccount %s/%s: %w" [Namespace subnet; saName] err)
        end
  end.

(** The first violation, a blocking one before any other; the first check that
    could not be decided. *)
Definition pick_violation (checks : list subnetCheck) : option subnetCheck :=
  fold_left (fun v c =>
    match ck_Verdict (sc_result c) with
    | Violation => match v with
                   | None => Some c
                   | Some x => if sc_blocks c && negb (sc_blocks x) then Some c else v
                   end
    | _ => v
    end) checks None.

Definition pick_indeterminate (checks : list subnetCheck) : option subnetCheck :=
  find_first (fun c => bool_decide (ck_Verdict (sc_result c) = Indeterminate)) checks.

Definition verdict_of (c : subnetCheck) (status : string) : string * string * string :=
  (status, ck_Reason (sc_result c), ck_Message (sc_result c)).

(** The statuses of [Valid] and [Ready] with their reasons and messages. *)
Definition valid_verdict (checks : list subnetCheck) : string * string * string :=
  match pick_violation checks, pick_indeterminate checks with
  | Some v, _ => verdict_of v ConditionFalse
  | None, Some i => verdict_of i ConditionUnknown
  | None, None => (ConditionTrue, "SubnetValid", "no blocking validation issues found")
  end.

Definition ready_verdict (checks : list subnetCheck) (hasBootPlane depConfigured depAvailable : bool) (depReason depMessage : string)
  : string * string * string :=
  match pick_violation checks with
  | Some v => verdict_of v ConditionFalse
  | None =>
    if hasBootPlane && (negb depConfigured || negb depAvailable) then (ConditionFalse, depReason, depMessage)
    else match pick_indeterminate checks with
         | Some i => verdict_of i ConditionUnknown
         | None => if hasBootPlane then (ConditionTrue, "BootdReady", "bootd Deployment is available and validation found no issues")
                   else (ConditionTrue, "SubnetReady", "this Subnet carries no boot half; validation found no issues")
         end
  end.

Definition condition_of (type : string) (generation : Z) (v : string * string * string) : Condition :=
  let '(status, reason, message) := v in mkCondition type status generation reason message.

Section Reconciler.
Context `{ApiMachinery} (hex_sha256 : string -> string) (durationString : Z -> string) (digest : string -> string).
Context (UnmarshalTop : string -> option string * list (option string) + string) (UnmarshalIPAM : string -> cniIPAM + string).
Context (cfg : BootdDeploymentConfig).

Definition with_conditions (cs : list Condition) (subnet : Subnet) : Subnet :=
  subnet <| sub_Status := (sub_Status subnet) <| sub_Conditions := cs |> |>.

(** The Subnet that [updateSubnetConditions] writes. *)
Definition judged (subnet : Subnet) (checks : list subnetCheck) (hasBootPlane depConfigured depAvailable : bool)
    (depReason depMessage : string) : Subnet :=
  let cs := SetStatusCondition (sub_Conditions (sub_Status subnet))
    (condition_of SubnetConditionValid (Generation subnet) (valid_verdict checks)) in
  let cs := SetStatusCondition cs
    (condition_of SubnetConditionReady (Generation subnet)
       (ready_verdict checks hasBootPlane depConfigured depAvailable depReason depMessage)) in
  with_conditions cs subnet.

Definition updateSubnetConditions (subnet : Subnet) (checks : list subnetCheck) (hasBootPlane depConfigured depAvailable : bool)
    (depReason depMessage : string) : go (option GoErr) :=
  r <- StatusUpdate KSubnet (judged subnet checks hasBootPlane depConfigured depAvailable depReason depMessage) ;;
  Ret match r with inr err => Some (wrapf "update subnet status: %w" [] err) | inl _ => None end.

(** *** Reservations whose machine is gone *)

(** Whether the Machine that is read under the entry's name is still the one the
    entry was made for. *)
Definition keeps_reservation (subnet : Subnet) (res : DHCPReservation) (machine : Machine) : bool :=
  match NormalizeMAC (BootMACAddress (Spec machine)) with
  | None => false
  | Some mac =>
    (mac =s rsv_MAC res) &&
    (resolveNamespace (SubnetRef (Spec machine)) (Namespace machine) =s Namespace subnet) &&
    (nr_Name (SubnetRef (Spec machine)) =s Name subnet)
  end.

Fixpoint live_reservations (subnet : Subnet) (rs : list DHCPReservation) : go (list DHCPReservation + GoErr) :=
  match rs with
  | [] => Ret (inl [])
  | res :: rs =>
    r <- Get KMachine (mkKey (Namespace subnet) (rsv_Machine res)) ;;
    match r with
    | inr err =>
      if IsNotFound err then live_reservations subnet rs
      else Ret (inr (wrapf "get machine %s/%s for DHCP reservation garbage collection: %w" [Namespace subnet; rsv_Machine res] err))
    | inl machine =>
      r <- live_reservations subnet rs ;;
      Ret match r with
          | inr err => inr err
          | inl kept => inl (if keeps_reservation subnet res machine then res :: kept else kept)
          end
    end
  end.

Definition gcDHCPReservations (subnet : Subnet) : go (Subnet + GoErr) :=
  match sub_DHCP (sub_Spec subnet), sub_DHCPStatus (sub_Status subnet) with
  | Some dhcp, Some st =>
    if negb (lease_mode dhcp) || (length (Reservations st) =? 0)%nat then Ret (inl subnet)
    else
    r <- live_reservations subnet (Reservations st) ;;
    Ret match r with
        | inr err => inr err
        | inl kept =>
          inl (if (length kept =? length (Reservations st))%nat then subnet
               else subnet <| sub_Status := (sub_Status subnet) <| sub_DHCPStatus :=
                      Some (st <| Reservations := kept |> <| Revision_ := Revision digest kept |>) |> |>)
        end
  | _, _ => Ret (inl subnet)
  end.

(** *** Objects of the boot half *)

Definition owned {A} (wrap : ObjectMeta -> A) (m : ObjectMeta) (owner : ObjectMeta) : A + GoErr :=
  match SetControllerReference (OwnerReferences m) owner with
  | inr err => inr err
  | inl refs => inl (wrap (set_owners refs m))
  end.

Definition reconcileBootdLeasePVC (subnet : Subnet) : go (option GoErr) :=
  let pvc := buildBootdLeasePVC hex_sha256 subnet cfg in
  match owned (fun m => pvc <| pvc_meta := m |>) pvc subnet with
  | inr err => Ret (Some (wrapf "set owner reference on bootd lease PVC: %w" [] err))
  | inl desired =>
    r <- Get KPVC (key_of pvc) ;;
    match r with
    | inr err =>
      if IsNotFound err then
        r <- Create KPVC desired ;;
        Ret match r with
            | inr err => if IsAlreadyExists err then None else Some (wrapf "create bootd lease PVC: %w" [] err)
            | inl _ => None
            end
      else Ret (Some (wrapf "get bootd lease PVC: %w" [] err))
    | inl existing =>
      Ret (if negb (IsControlledBy (existing : PersistentVolumeClaim) subnet) then
             Some (errorf "a PersistentVolumeClaim named %s/%s already exists and is not controlled by this Subnet - refusing to adopt or overwrite it"
                     [Namespace (existing : PersistentVolumeClaim); Name (existing : PersistentVolumeClaim)])
           else None)
    end
  end.

(** The Deployment, and whether it is somebody else's. *)
Definition reconcileBootdDeployment (subnet : Subnet) (dhcp : SubnetDHCP) (ref : NameRef) : go (Deployment * bool + GoErr) :=
  let dep := buildBootdDeployment hex_sha256 durationString subnet dhcp ref cfg in
  match owned (fun m => dep <| deployment_meta := m |>) dep subnet with
  | inr err => Ret (inr (wrapf "set owner reference on bootd deployment: %w" [] err))
  | inl desired =>
    r <- Get KDeployment (key_of dep) ;;
    match r with
    | inr err =>
      if IsNotFound err then
        r <- Create KDeployment desired ;;
        Ret match r with
            | inr err => if IsAlreadyExists err then inl (desired, false) else inr (wrapf "create bootd deployment: %w" [] err)
            | inl created => inl (created, false)
            end
      else Ret (inr (wrapf "get bootd deployment: %w" [] err))
    | inl existing =>
      let existing : Deployment := existing in
      if negb (IsControlledBy existing subnet) then Ret (inl (existing, true))
      else if bool_decide (dep_Spec existing = dep_Spec desired) && bool_decide (Labels existing = Labels desired) then
        Ret (inl (existing, false))
      else
      r <- Update KDeployment (existing <| deployment_meta := (deployment_meta existing) <| Labels := Labels desired |> |>
                                 <| dep_Spec := dep_Spec desired |>) ;;
      Ret match r with inr err => inr (wrapf "update bootd deployment: %w" [] err) | inl updated => inl (updated, false) end
    end
  end.

(** *** Checks *)

Definition seeder_checks (subnet : Subnet) (seederRef : NameRef) (checks : list subnetCheck) : go (list subnetCheck + GoErr) :=
  r <- fetchNADConfig seederRef (Namespace subnet) ;;
  match r with
  | inr err =>
    Ret (if negb (isIndeterminateNADErr err) then inr err
         else inl (checks ++ [mkSubnetCheck (indeterminateFromFetchErr "Seeder" "seeder NAD" err) false]))
  | inl seederConfig =>
    let checks := checks ++ [mkSubnetCheck (CheckSeederOverlap UnmarshalTop UnmarshalIPAM seederConfig (sub_BootdServerIP (sub_Spec subnet))) false] in
    r <- concurrentSeederDeployments subnet ;;
    Ret match r with
        | inr err => inr err
        | inl n => inl (checks ++ [mkSubnetCheck (CheckSeederStaticMultiImage UnmarshalTop UnmarshalIPAM seederConfig n) false])
        end
  end.

Definition bootd_checks (subnet : Subnet) : go (list subnetCheck + GoErr) :=
  if negb (HasBootPlane (sub_Spec subnet)) then Ret (inl [])
  else
  match sub_BootdNetworkRef (sub_Spec subnet) with
  | None => panic "nil pointer dereference: spec.bootdNetworkRef"
  | Some ref =>
    r <- fetchNADConfig ref (Namespace subnet) ;;
    Ret match r with
        | inr err =>
          if negb (isIndeterminateNADErr err) then inr err
          else inl [mkSubnetCheck (indeterminateFromFetchErr "Bootd" "bootd NAD" err) false]
        | inl config =>
          inl [mkSubnetCheck (CheckBootdAddress UnmarshalTop UnmarshalIPAM config (sub_BootdServerIP (sub_Spec subnet))) false]
        end
  end.

Definition runNADChecks (subnet : Subnet) : go (list subnetCheck + GoErr) :=
  r <- bootd_checks subnet ;;
  match r with
  | inr err => Ret (inr err)
  | inl checks =>
    match sub_SeederNetworkRef (sub_Spec subnet) with
    | None => Ret (inl checks)
    | Some seederRef => seeder_checks subnet seederRef checks
    end
  end.

Definition is_violation (r : CheckResult) : bool := bool_decide (ck_Verdict r = Violation).

Definition collision_check (subnet : Subnet) (ref : NameRef) (other : Subnet) : subnetCheck :=
  mkSubnetCheck (mkCheck Violation "BootdNetworkCollision"
    (sprintf "Subnet %s/%s also targets bootdNetworkRef %s/%s - two Subnets on the same broadcast domain would each run their own bootd, both answering every DHCPDISCOVER with no way for firmware to prefer one"
       [Namespace other; Name other; resolveNamespace ref (Namespace subnet); nr_Name ref])) true.

(** The last part: the checks, whether a Deployment is configured and available,
    why it is not, and the requeue. *)
Record bootd_outcome := mkOutcome {
  bo_checks : list subnetCheck; bo_configured : bool; bo_available : bool; bo_reason : string; bo_message : string; bo_requeue : Z }.

Definition serve_bootd (subnet : Subnet) (dhcp : SubnetDHCP) (ref : NameRef) (checks : list subnetCheck) : go (bootd_outcome + GoErr) :=
  r <- checkBootdNamespacePrerequisites cfg subnet ;;
  match r with
  | inr err => Ret (inr err)
  | inl prereqChecks =>
    let checks := checks ++ prereqChecks in
    let requeueAfter := if existsb (fun c => is_violation (sc_result c)) prereqChecks
                        then bootdNamespacePrerequisiteRequeueAfter else 0 in
    err <- (if lease_mode dhcp then reconcileBootdLeasePVC subnet else Ret None) ;;
    match err with
    | Some err => Ret (inr err)
    | None =>
      r <- reconcileBootdDeployment subnet dhcp ref ;;
      Ret match r with
          | inr err => inr err
          | inl (dep, true) =>
            inl (mkOutcome (checks ++ [mkSubnetCheck (mkCheck Violation "BootdDeploymentOwnership"
                   (sprintf "a Deployment named %s/%s already exists and is not controlled by this Subnet - refusing to adopt or overwrite it"
                      [Namespace dep; Name dep])) true])
                   true false "" "" bootdDeploymentOwnershipRequeueAfter)
          | inl (dep, false) =>
            let '(reason, message) := deploymentUnavailableReason dep in
            inl (mkOutcome checks true (deploymentAvailable dep) reason message requeueAfter)
          end
    end
  end.

Definition boot_plane (subnet : Subnet) (dhcp : SubnetDHCP) (checks : list subnetCheck) : go (bootd_outcome + GoErr) :=
  let ipResult := CheckBootdServerIPInCIDR (sub_CIDR (sub_Spec subnet)) (sub_BootdServerIP (sub_Spec subnet)) in
  let checks := checks ++ [mkSubnetCheck ipResult true] in
  let leaseResult := if lease_mode dhcp then
      Some (CheckDHCPLeaseRange (sub_CIDR (sub_Spec subnet)) (dhcp_LeaseRangeStart dhcp) (dhcp_LeaseRangeEnd dhcp)) else None in
  let checks := checks ++ match leaseResult with Some r => [mkSubnetCheck r true] | None => [] end in
  let leaseRangeViolation := match leaseResult with Some r => is_violation r | None => false end in
  match sub_BootdNetworkRef (sub_Spec subnet) with
  | None => panic "nil pointer dereference: spec.bootdNetworkRef"
  | Some ref =>
    r <- findBootdNetworkCollision subnet ref ;;
    match r with
    | inr err => Ret (inr err)
    | inl (Some other) => Ret (inl (mkOutcome (checks ++ [collision_check subnet ref other]) false false "" "" 0))
    | inl None =>
      if leaseRangeViolation || is_violation ipResult then Ret (inl (mkOutcome checks false false "" "" 0))
      else if enabled cfg then serve_bootd subnet dhcp ref checks
      else Ret (inl (mkOutcome checks false false "BootdDeploymentImageUnconfigured"
             "no bootd Deployment image is configured on the manager (BOOTD_DEPLOYMENT_IMAGE); bootd is not reconciled for this Subnet" 0))
    end
  end.

Definition onChange (subnet : Subnet) : go reply :=
  r <- gcDHCPReservations subnet ;;
  match r with
  | inr err => Ret (noRequeue, Some err)
  | inl subnet =>
    r <- runNADChecks subnet ;;
    match r with
    | inr err => Ret (noRequeue, Some err)
    | inl checks =>
      r <- checkSiteRef subnet ;;
      match r with
      | inr err => Ret (noRequeue, Some err)
      | inl siteCheck =>
        let checks := checks ++ [siteCheck] in
        match sub_DHCP (sub_Spec subnet) with
        | None =>
          err <- updateSubnetConditions subnet checks false false false "" "" ;;
          Ret (noRequeue, err)
        | Some dhcp =>
          r <- boot_plane subnet dhcp checks ;;
          match r with
          | inr err => Ret (noRequeue, Some err)
          | inl o =>
            err <- updateSubnetConditions subnet (bo_checks o) true (bo_configured o) (bo_available o) (bo_reason o) (bo_message o) ;;
            Ret match err with Some err => (noRequeue, Some err) | None => (requeueAfter (bo_requeue o), None) end
          end
        end
      end
    end
  end.

Definition onDelete (subnet : Subnet) : go reply := Ret (noRequeue, None).

Definition Reconcile (key : ObjectKey) : go reply :=
  r <- Get KSubnet key ;;
  match r with
  | inr err => Ret (noRequeue, if IsNotFound err then None else Some err)
  | inl subnet => match DeletionTimestamp (subnet : Subnet) with Some _ => onDelete subnet | None => onChange subnet end
  end.

(** *** Watches *)

Definition mapSiteToSubnets (site : Site) : go (list ObjectKey) :=
  r <- List_ KSubnet (Namespace site) ;;
  Ret match r with
      | inr _ => []
      | inl items => map (fun s : Subnet => key_of s) (List.filter (fun s : Subnet => SiteRefIdentity s =s SiteIdentity site) items)
      end.

Definition mapMachineToSubnets (machine : Machine) : go (list ObjectKey) :=
  r <- List_ KSubnet (Namespace machine) ;;
  Ret match r with inr _ => [] | inl items => map (fun s : Subnet => key_of s) items end.
End Reconciler.

(** ** What the reconciler may write *)

Section Guard.
Context `{ApiMachinery} (hex_sha256 : string -> string) (durationString : Z -> string) (digest : string -> string).
Context (UnmarshalTop : string -> option string * list (option string) + string) (UnmarshalIPAM : string -> cniIPAM + string).
Context (cfg : BootdDeploymentConfig) (key : ObjectKey).

Abbreviation reconcile := (Reconcile hex_sha256 durationString digest UnmarshalTop UnmarshalIPAM cfg).

(** What a run for [key] has read: the Subnet, the list of all Subnets (the list
    of the empty namespace), the Deployment at the Subnet's name. *)
Record seen := mkSeen { s_subnet : option Subnet; s_all : option (list Subnet); s_dep : option Deployment }.

Definition look (s : seen) (e : eff) : resp e -> seen :=
  match e return resp e -> seen with
  | EGet KSubnet _ => fun r => match r with inl x => mkSeen (Some x) (s_all s) (s_dep s) | inr _ => s end
  | EList KSubnet _ => fun r => match r with inl l => mkSeen (s_subnet s) (Some l) (s_dep s) | inr _ => s end
  | EGet KDeployment _ => fun r => match r with inl d => mkSeen (s_subnet s) (s_all s) (Some d) | inr _ => s end
  | _ => fun _ => s
  end.

(** The Subnet that was read may have a bootd: a boot half on a network no other
    Subnet of the cluster targets, an address in its prefix, a usable lease
    range, and a manager that is configured for it. *)
Definition may_serve (subnet : Subnet) (dhcp : SubnetDHCP) (all : list Subnet) : Prop :=
  enabled cfg = true /\ sub_DHCP (sub_Spec subnet) = Some dhcp /\
  (exists ref, sub_BootdNetworkRef (sub_Spec subnet) = Some ref /\ Forall (fun c => collides subnet ref c = false) all) /\
  is_violation (CheckBootdServerIPInCIDR (sub_CIDR (sub_Spec subnet)) (sub_BootdServerIP (sub_Spec subnet))) = false /\
  (lease_mode dhcp = true ->
   is_violation (CheckDHCPLeaseRange (sub_CIDR (sub_Spec subnet)) (dhcp_LeaseRangeStart dhcp) (dhcp_LeaseRangeEnd dhcp)) = false).

Definition permitted (s : seen) (e : eff) : Prop :=
  match e with
  | EGet KSubnet k => k = key
  | EList KSubnet namespace => namespace = ""
  | EGet KDeployment k => exists subnet, s_subnet s = Some subnet /\
      k = mkKey (Namespace subnet) (bootdDeploymentName hex_sha256 (Name subnet))
  | EGet _ _ | EList _ _ | EListLabels _ _ _ | EPanic _ => True
  | EStatusUpdate KSubnet o => exists subnet, s_subnet s = Some subnet /\ DeletionTimestamp subnet = None /\ key_of o = key_of subnet
  | ECreate KPVC p => exists subnet dhcp all, s_subnet s = Some subnet /\ s_all s = Some all /\ may_serve subnet dhcp all /\
      lease_mode dhcp = true /\ key_of p = mkKey (Namespace subnet) (bootdLeasePVCName hex_sha256 (Name subnet))
  | ECreate KDeployment d => exists subnet dhcp all, s_subnet s = Some subnet /\ s_all s = Some all /\ may_serve subnet dhcp all /\
      s_dep s = None /\ key_of d = mkKey (Namespace subnet) (bootdDeploymentName hex_sha256 (Name subnet))
  | EUpdate KDeployment d => exists subnet dhcp all existing, s_subnet s = Some subnet /\ s_all s = Some all /\
      may_serve subnet dhcp all /\ s_dep s = Some existing /\ IsControlledBy existing subnet = true /\ key_of d = key_of existing
  | _ => False
  end.

Definition guard : monitor resp seen := mkMonitor permitted (fun _ _ _ => True) look.

Definition bystander (e : eff) : Prop :=
  match e with
  | EGet k _ => match k with KSubnet | KDeployment => False | _ => True end
  | EListLabels _ _ _ | EPanic _ => True
  | _ => False
  end.

Lemma quiet {A} (p : go A) s Q : calls bystander p -> answers p Q -> wp guard p s (fun a s' => Q a /\ s' = s).
Proof.
  apply wp_quiet; intros e.
  - intros He. destruct e as [k ?| | | | | | | | | | | | | | | | | | | | | | | | | | | |]; try done. by destruct k.
  - intros r He. destruct e as [k ?| | | | | | | | | | | | | | | | | | | | | | | | | | | |]; try done. by destruct k.
Qed.

Lemma quiet_any {A} (p : go A) s : calls bystander p -> wp guard p s (fun _ s' => s' = s).
Proof. intros Hc. eapply wp_mono; [apply (quiet p s (fun _ => True) Hc), answers_any|]. by intros ? ? [_ ?]. Qed.

Lemma live_reservations_quiet subnet rs : calls bystander (live_reservations subnet rs).
Proof.
  induction rs as [|x rs IH]; cbn [live_reservations]; [done|]. apply calls_bind; [by repeat calls_step|].
  intros [m|err]; [|destruct (IsNotFound err); [apply IH|done]]. apply calls_bind; [apply IH|]. by intros [].
Qed.

(** The collection touches the table of the status only. *)
Definition same_but_status (subnet subnet' : Subnet) : Prop :=
  subnet_meta subnet' = subnet_meta subnet /\ sub_Spec subnet' = sub_Spec subnet.

Lemma gc_quiet subnet : calls bystander (gcDHCPReservations digest subnet).
Proof.
  unfold gcDHCPReservations. destruct (sub_DHCP (sub_Spec subnet)); [|done].
  destruct (sub_DHCPStatus (sub_Status subnet)); [|done].
  destruct (_ || _); [done|]. apply calls_bind; [apply live_reservations_quiet|]. by intros [].
Qed.

Lemma gc_keeps_spec subnet : answers (gcDHCPReservations digest subnet)
  (fun r => match r with inl subnet' => same_but_status subnet subnet' | inr _ => True end).
Proof.
  unfold gcDHCPReservations. destruct (sub_DHCP (sub_Spec subnet)); [|by split].
  destruct (sub_DHCPStatus (sub_Status subnet)); [|by split].
  destruct (_ || _); [by split|]. eapply answers_bind; [apply answers_any|]. intros [kept|err] _; [|done].
  cbn. by destruct (_ =? _)%nat.
Qed.

Lemma NAD_quiet subnet : calls bystander (runNADChecks UnmarshalTop UnmarshalIPAM subnet).
Proof.
  unfold runNADChecks. apply calls_bind.
  - unfold bootd_checks, panic. destruct (negb _); [done|]. destruct (sub_BootdNetworkRef _); [|by split].
    apply calls_bind; [by repeat calls_step|]. by intros [].
  - intros [checks|err]; [|done]. destruct (sub_SeederNetworkRef _); [|done]. unfold seeder_checks.
    apply calls_bind; [by repeat calls_step|]. intros [c|err]; [|done]. apply calls_bind; [by repeat calls_step|]. by intros [].
Qed.

Lemma collision_none subnet ref items : collision_among subnet ref items = None -> Forall (fun c => collides subnet ref c = false) items.
Proof.
  unfold collision_among. set (f := fun _ _ => _).
  assert (Hsome : forall l o, fold_left f l (Some o) <> None).
  { induction l as [|c l IH]; intros o; [done|]. cbn. unfold f at 2. destruct (negb _); [apply IH|]. destruct (before c o); apply IH. }
  intros Hn. induction items as [|c l IH]; [constructor|]. cbn in Hn. unfold f at 2 in Hn.
  destruct (collides subnet ref c) eqn:Hc; cbn in Hn; [by apply Hsome in Hn|]. constructor; auto.
Qed.

(** The parts that write, started where the Subnet and the list were read. *)
Lemma lease_pvc_guarded subnet subnet' dhcp all s :
  same_but_status subnet subnet' -> may_serve subnet dhcp all -> lease_mode dhcp = true ->
  s_subnet s = Some subnet -> s_all s = Some all ->
  wp guard (reconcileBootdLeasePVC hex_sha256 cfg subnet') s (fun _ s' => s' = s).
Proof.
  intros [Hm Hs] Hok Hl H1 H2. unfold reconcileBootdLeasePVC, owned.
  destruct (SetControllerReference _ _) as [refs|err]; [|done]. apply wp_bind. split; [done|]. intros [existing|err] _; cbn; [done|].
  destruct (IsNotFound err); [|done]. split; [|by intros [] _].
  exists subnet, dhcp, all. split_and!; try done. unfold key_of. cbn. by rewrite Hm.
Qed.

Lemma deployment_guarded subnet subnet' dhcp ref all s :
  same_but_status subnet subnet' -> may_serve subnet dhcp all -> s_subnet s = Some subnet -> s_all s = Some all -> s_dep s = None ->
  wp guard (reconcileBootdDeployment hex_sha256 durationString cfg subnet' dhcp ref) s (fun _ s' => s_subnet s' = Some subnet).
Proof.
  intros [Hm Hs] Hok H1 H2 H3. unfold reconcileBootdDeployment, owned.
  destruct (SetControllerReference _ _) as [refs|err]; [|done]. apply wp_bind.
  split; [exists subnet; split; [done|]; unfold key_of; cbn; by rewrite Hm|].
  intros [existing|err] _; cbn.
  - destruct (IsControlledBy existing subnet') eqn:Hc; cbn; [|done]. destruct (_ && _); [done|]. split; [|by intros [] _].
    exists subnet, dhcp, all, existing. rewrite <- Hm. split_and!; done.
  - destruct (IsNotFound err); [|done]. split; [|by intros [] _].
    exists subnet, dhcp, all. split_and!; try done. unfold key_of. cbn. by rewrite Hm.
Qed.

Lemma prerequisites_quiet subnet : calls bystander (checkBootdNamespacePrerequisites cfg subnet).
Proof. unfold checkBootdNamespacePrerequisites. apply calls_bind; [by repeat calls_step|]. intros [ns|err]; [|done].
  apply calls_bind; [by repeat calls_step|]. by intros [].
Qed.

Lemma boot_plane_guarded subnet subnet' dhcp checks :
  same_but_status subnet subnet' -> sub_DHCP (sub_Spec subnet) = Some dhcp ->
  wp guard (boot_plane hex_sha256 durationString cfg subnet' dhcp checks) (mkSeen (Some subnet) None None)
    (fun _ s' => s_subnet s' = Some subnet).
Proof.
  intros Hsame Hd. pose proof Hsame as [Hm Hs]. unfold boot_plane. rewrite Hs.
  destruct (sub_BootdNetworkRef (sub_Spec subnet)) as [ref|] eqn:Hr; [|by split].
  apply wp_bind. unfold findBootdNetworkCollision. apply wp_bind. split; [reflexivity|].
  intros [all|err] _; cbn [wp]; [|reflexivity]. cbn [guard step look].
  destruct (collision_among subnet' ref all) as [other|] eqn:Hc; [reflexivity|].
  destruct (_ || _) eqn:Hv; [reflexivity|]. destruct (enabled cfg) eqn:He; [|reflexivity].
  apply orb_false_iff in Hv as [Hv1 Hv2].
  assert (Hok : may_serve subnet dhcp all).
  { split_and!; [done..| |done|].
    - exists ref. split; [done|]. apply collision_none in Hc. eapply Forall_impl; [exact Hc|]. intros c. unfold collides. by rewrite Hm.
    - intros Hl. by rewrite Hl in Hv1. }
  unfold serve_bootd. eapply wp_seq; [apply quiet_any, prerequisites_quiet|]. intros [prereq|err] s' ->; [|done]. cbv zeta.
  eapply wp_seq.
  - instantiate (1 := fun _ s' => s' = mkSeen (Some subnet) (Some all) None).
    destruct (lease_mode dhcp) eqn:Hl; [|done]. by eapply lease_pvc_guarded.
  - intros [err|] s' ->; [done|]. eapply wp_seq; [by eapply deployment_guarded|]. intros [[dep []]|err] s' Hs'; cbn [wp]; [done| |done].
    destruct (deploymentUnavailableReason dep). exact Hs'.
Qed.

Lemma update_guarded subnet subnet' checks a b c d e s :
  same_but_status subnet subnet' -> DeletionTimestamp subnet = None -> s_subnet s = Some subnet ->
  wp guard (updateSubnetConditions subnet' checks a b c d e) s (fun _ _ => True).
Proof.
  intros [Hm _] Hd Hs. unfold updateSubnetConditions. apply wp_bind. split; [|by intros [] _].
  exists subnet. split_and!; [done..|]. unfold key_of. cbn. by rewrite Hm.
Qed.

Lemma Reconcile_guarded : wp guard (reconcile key) (mkSeen None None None) (fun _ _ => True).
Proof.
  unfold Reconcile. apply wp_bind. split; [done|]. intros [subnet|err] _; [|done]. cbn.
  destruct (DeletionTimestamp subnet) eqn:Hdel; [done|]. unfold onChange.
  eapply wp_seq; [apply (quiet _ _ _ (gc_quiet subnet) (gc_keeps_spec subnet))|].
  intros [subnet'|err] s [Hsame ->]; [|done].
  eapply wp_seq; [apply quiet_any, NAD_quiet|]. intros [checks|err] s ->; [|done].
  eapply wp_seq; [apply quiet_any; unfold checkSiteRef; apply calls_bind; [by repeat calls_step|by intros []]|].
  intros [site|err] s ->; [|done]. cbv zeta. pose proof Hsame as [_ Hspec].
  destruct (sub_DHCP (sub_Spec subnet')) as [dhcp|] eqn:Hd.
  - eapply wp_seq; [eapply boot_plane_guarded; [done|by rewrite <- Hspec]|]. intros [o|err] s' Hs'; [|done].
    eapply wp_seq; [by eapply update_guarded|]. by intros [] ? _.
  - eapply wp_seq; [by eapply update_guarded|]. by intros ? ? _.
Qed.

(** C36. One bootd per segment: in every run of the Subnet reconciler and
    whatever the API server answers, the only writes are the status of the Subnet
    that was read at the reconciled key and is not being deleted, and, under its
    own names, its lease claim and bootd Deployment.  Those two are written only
    when that Subnet has a boot half, the list of every Subnet of the cluster,
    read in the same run, has none that collides with it on its network
    attachment, the server address is not found outside the prefix, in lease mode
    (the only mode with a claim) the range is not found unusable, and the manager
    is configured; a Deployment that exists is changed only if it was read at
    that name and is controlled by this very Subnet, and nothing is ever
    deleted. *)
Theorem bootd_is_guarded tr1 e r tr2 res
    (Hrun : runs (reconcile key) (tr1 ++ ev e r :: tr2) res) :
  permitted (final guard (mkSeen None None None) tr1) e.
Proof.
  assert (Ho : obeys guard (mkSeen None None None) (tr1 ++ ev e r :: tr2)) by (eapply wp_obeys; [apply Reconcile_guarded|exact Hrun]).
  apply obeys_app in Ho as [Ho _]; [exact Ho|].
  apply (assumes_forall guard (fun _ _ => True)); [done|]. by apply Forall_forall.
Qed.
End Guard.

(** ** Garbage collection of reservations *)

Section Collection.
Context (digest : string -> string) (w : forall e, option (resp e)).

(** Every read of a Machine finds it or finds that there is none. *)
Definition machines_answer : Prop :=
  forall key, match w (EGet KMachine key) with Some (inl _) => True | Some (inr err) => IsNotFound err = true | None => False end.

Definition live (subnet : Subnet) (res : DHCPReservation) : bool :=
  match w (EGet KMachine (mkKey (Namespace subnet) (rsv_Machine res))) with
  | Some (inl machine) => keeps_reservation subnet res machine
  | _ => false
  end.

Lemma live_reservations_interp subnet rs : machines_answer ->
  interp w (live_reservations subnet rs) = Some (inl (List.filter (live subnet) rs)).
Proof.
  intros Hw. induction rs as [|x rs IH]; cbn [live_reservations]; [done|].
  rewrite interp_bind. unfold Get, call. cbn [interp List.filter]. unfold live at 1.
  pose proof (Hw (mkKey (Namespace subnet) (rsv_Machine x))) as Hx.
  destruct (w _) as [[m|err]|]; [| |done].
  - rewrite interp_bind, IH. cbn [interp]. by destruct (keeps_reservation subnet x m).
  - rewrite Hx. exact IH.
Qed.

Lemma filter_same_length {A} (f : A -> bool) l : length (List.filter f l) = length l -> List.filter f l = l.
Proof.
  induction l as [|x l IH]; cbn; [done|]. destruct (f x); cbn; intros Hl; [f_equal; apply IH; lia|].
  pose proof (filter_length_le f l). lia.
Qed.

(** Collection in a lease-mode Subnet, against an unchanging cluster. *)
Lemma gc_interp subnet dhcp : machines_answer -> sub_DHCP (sub_Spec subnet) = Some dhcp -> lease_mode dhcp = true ->
  exists subnet', interp w (gcDHCPReservations digest subnet) = Some (inl subnet') /\
    reservations subnet' = List.filter (live subnet) (reservations subnet) /\ same_but_status subnet subnet' /\
    (sub_DHCPStatus (sub_Status subnet') = sub_DHCPStatus (sub_Status subnet) \/
     Revision_ <$> sub_DHCPStatus (sub_Status subnet') = Some (Revision digest (reservations subnet'))).
Proof.
  intros Hw Hd Hl. unfold gcDHCPReservations, reservations. rewrite Hd.
  destruct (sub_DHCPStatus (sub_Status subnet)) as [st|] eqn:Hst.
  2: { exists subnet. rewrite Hst. split; [done|]. split; [done|]. split; [by split|by left]. }
  rewrite Hl. cbn [negb orb]. destruct (Nat.eqb_spec (length (Reservations st)) 0) as [Hz|Hz].
  { exists subnet. apply length_zero_iff_nil in Hz. rewrite Hst, Hz. split; [done|]. split; [done|]. split; [by split|by left]. }
  rewrite interp_bind, live_reservations_interp by done. cbn [interp].
  destruct (Nat.eqb_spec (length (List.filter (live subnet) (Reservations st))) (length (Reservations st))) as [Hs|Hs].
  - exists subnet. rewrite Hst, (filter_same_length _ _ Hs). split; [done|]. split; [done|]. split; [by split|by left].
  - eexists. split; [reflexivity|]. split; [done|]. split; [by split|by right].
Qed.

Lemma filter_NoDup_fmap {A B} (g : A -> B) (f : A -> bool) l : NoDup (g <$> l) -> NoDup (g <$> List.filter f l).
Proof.
  induction l as [|x l IH]; cbn; [done|]. intros [Hx Hn]%NoDup_cons. destruct (f x); [|by apply IH].
  cbn. apply NoDup_cons. split; [|by apply IH]. intros (y & Hxy & [Hy _]%list_elem_of_In%filter_In)%list_elem_of_fmap.
  apply Hx. rewrite Hxy. apply list_elem_of_fmap. exists y. by rewrite list_elem_of_In.
Qed.

(** Collection removes exactly the stale reservations: against a cluster in
    which every Machine is found or known to be absent, a lease-mode Subnet keeps
    those rows whose Machine, under the row's name in the Subnet's namespace,
    still has the row's boot MAC and still refers to this Subnet; the table stays
    one row per machine and one per address, spec and metadata are untouched, and
    the revision is either untouched with the table or that of the new table. *)
Theorem gc_collects_exactly subnet dhcp
    (Hw : machines_answer) (Hd : sub_DHCP (sub_Spec subnet) = Some dhcp) (Hl : lease_mode dhcp = true) (Hok : table_ok subnet) :
  exists subnet', interp w (gcDHCPReservations digest subnet) = Some (inl subnet') /\ table_ok subnet' /\ same_but_status subnet subnet' /\
    (forall res, res ∈ reservations subnet' <-> res ∈ reservations subnet /\
       exists machine : Machine, w (EGet KMachine (mkKey (Namespace subnet) (rsv_Machine res))) = Some (inl machine) /\
         NormalizeMAC (BootMACAddress (Spec machine)) = Some (rsv_MAC res) /\
         resolveNamespace (SubnetRef (Spec machine)) (Namespace machine) = Namespace subnet /\
         nr_Name (SubnetRef (Spec machine)) = Name subnet) /\
    (sub_DHCPStatus (sub_Status subnet') = sub_DHCPStatus (sub_Status subnet) \/
     Revision_ <$> sub_DHCPStatus (sub_Status subnet') = Some (Revision digest (reservations subnet'))).
Proof.
  destruct (gc_interp subnet dhcp Hw Hd Hl) as (subnet' & Hi & Hr & Hsame & Hrev). exists subnet'.
  destruct Hok as (Hm & Ha & Hres). split; [done|]. split; [|split; [done|split; [|done]]].
  - unfold table_ok. rewrite Hr. split_and!; [by apply filter_NoDup_fmap..|]. destruct Hsame as [_ Hs].
    intros res [Hin _]%list_elem_of_In%filter_In. unfold ReservedAddresses. rewrite Hs. by apply Hres, list_elem_of_In.
  - rewrite Hr. intros res. rewrite !list_elem_of_In, filter_In. apply and_iff_compat_l. unfold live, keeps_reservation.
    destruct (w _) as [[machine|err]|]; [|by split; [|intros (? & [=] & _)]..].
    destruct (NormalizeMAC (BootMACAddress (Spec machine))) as [mac|] eqn:Hn;
      [|by split; [|intros (m & [= <-] & Hx & _); rewrite Hn in Hx]].
    rewrite !andb_true_iff, !String.eqb_eq. split; [intros [[-> ?] ?]; by eauto 6|].
    intros (m & [= <-] & Hx & Hy & Hz). rewrite Hn in Hx. by injection Hx as ->.
Qed.

(** A machine of another namespace loses its reservation: its Subnet reference
    may name a Subnet elsewhere, and the deployer reserves on that Subnet under
    the machine's bare name, but collection looks the name up in the Subnet's own
    namespace.  If no Machine has that name there, the next reconcile of the
    Subnet drops the address the deployer was given, while the machine is alive
    and unchanged. *)
Theorem foreign_reservation_is_collected subnet dhcp (machine : Machine) mac now address changed subnet'
    (Hw : machines_answer) (Hd : sub_DHCP (sub_Spec subnet) = Some dhcp) (Hl : lease_mode dhcp = true) (Hok : table_ok subnet)
    (Hreserve : Reserve digest subnet (Name machine) mac now = inl (address, changed, subnet'))
    (Habsent : exists err, w (EGet KMachine (mkKey (Namespace subnet) (Name machine))) = Some (inr err)) :
  exists subnet'', interp w (gcDHCPReservations digest subnet') = Some (inl subnet'') /\
    (exists res, res ∈ reservations subnet' /\ rsv_Machine res = Name machine) /\
    (forall res, res ∈ reservations subnet'' -> rsv_Machine res <> Name machine).
Proof.
  assert (Hsame : same_but_status subnet subnet').
  { unfold Reserve in Hreserve. destruct (find_first _ _); [by simplify_eq; split|].
    destruct (LeaseRange subnet) as [[? ?]|]; [|done]. destruct (nextFree _ _ _); [|done]. injection Hreserve as <- <- <-. by split. }
  pose proof Hsame as [Hm Hs].
  assert (Hhas : exists res, res ∈ reservations subnet' /\ rsv_Machine res = Name machine).
  { destruct (reserve_has_row digest subnet _ mac now address changed subnet' Hreserve) as (r & Hin & Hn & _). eauto. }
  destruct (gc_interp subnet' dhcp Hw) as (subnet'' & Hi & Hr & _); [by rewrite Hs|done|].
  exists subnet''. split_and!; [done..|]. rewrite Hr. intros res [_ Hlive]%list_elem_of_In%filter_In Hn.
  unfold live in Hlive. rewrite Hm, Hn in Hlive. destruct Habsent as [err He]. by rewrite He in Hlive.
Qed.
End Collection.

(** ** What the conditions say *)

Section Verdicts.
Context `{ApiMachineryLaws}.

Definition violates (c : subnetCheck) : Prop := ck_Verdict (sc_result c) = Violation.

Lemma pick_violation_spec checks :
  match pick_violation checks with
  | None => Forall (fun c => ~ violates c) checks
  | Some c => c ∈ checks /\ violates c /\ (sc_blocks c = false -> Forall (fun x => violates x -> sc_blocks x = false) checks)
  end.
Proof.
  unfold pick_violation. set (f := fun _ _ => _). induction checks as [|c checks IH] using rev_ind; [by constructor|].
  rewrite fold_left_app. cbn [fold_left]. unfold f at 1.
  destruct (ck_Verdict (sc_result c)) eqn:Hv; [| |destruct (fold_left f checks None) as [v|]..];
    try (destruct IH as (Hin & Hvi & Hb); split_and!; [by apply elem_of_app; left|done|]; intros Hx; apply Forall_app; split;
         [by apply Hb|]; apply Forall_singleton; intros Hc; unfold violates in Hc; congruence);
    try (apply Forall_app; split; [done|]; apply Forall_singleton; unfold violates; congruence).
  - destruct (fold_left f checks None) as [v|].
    + destruct IH as (Hin & Hvi & Hb). split_and!; [by apply elem_of_app; left|done|]. intros Hx. apply Forall_app. split; [by apply Hb|].
      apply Forall_singleton. intros Hc. unfold violates in Hc. congruence.
    + apply Forall_app; split; [done|]; apply Forall_singleton; unfold violates; congruence.
  - destruct (fold_left f checks None) as [v|].
    + destruct IH as (Hin & Hvi & Hb). destruct (sc_blocks c) eqn:Hcb, (sc_blocks v) eqn:Hvb; cbn [andb negb];
        (split_and!; [first [by apply elem_of_app; left|by apply elem_of_app; right; left]|done|]); try congruence.
      intros _. apply Forall_app. split; [by apply Hb|]. by apply Forall_singleton.
    + split_and!; [by apply elem_of_app; right; left|done|]. intros Hcb. apply Forall_app. split; [|by apply Forall_singleton].
      eapply Forall_impl; [exact IH|]. intros x Hx Hy. done.
Qed.

Lemma pick_indeterminate_none checks :
  pick_indeterminate checks = None <-> Forall (fun c => ck_Verdict (sc_result c) <> Indeterminate) checks.
Proof.
  unfold pick_indeterminate. rewrite find_first_None, Forall_forall. split; intros Hx c Hc; specialize (Hx c Hc).
  - by apply bool_decide_eq_false in Hx.
  - by apply bool_decide_eq_false.
Qed.

Definition clean (c : subnetCheck) : Prop := ck_Verdict (sc_result c) <> Violation /\ ck_Verdict (sc_result c) <> Indeterminate.

Lemma picks_none checks : pick_violation checks = None /\ pick_indeterminate checks = None <-> Forall clean checks.
Proof.
  rewrite pick_indeterminate_none. pose proof (pick_violation_spec checks) as Hv. unfold clean. rewrite Forall_and.
  destruct (pick_violation checks) as [c|].
  - destruct Hv as (Hin & Hc & _). split; [by intros []|]. intros [Hx _]. rewrite Forall_forall in Hx. by apply Hx in Hin.
  - split; intros [? ?]; done.
Qed.

(** The two conditions of a Subnet: [Valid] is true exactly when no check
    found a violation and none was left undecided, [Ready] exactly when in
    addition a Subnet with a boot half has a configured and available bootd;
    and when there is a violation, the one both conditions report is a check of
    this reconcile, one that withholds the Deployment if any does. *)
Theorem subnet_conditions_spec subnet checks hasBootPlane depConfigured depAvailable depReason depMessage :
  let cs := sub_Conditions (sub_Status (judged subnet checks hasBootPlane depConfigured depAvailable depReason depMessage)) in
  (IsStatusConditionTrue cs SubnetConditionValid = true <-> Forall clean checks) /\
  (IsStatusConditionTrue cs SubnetConditionReady = true <->
     Forall clean checks /\ (hasBootPlane = true -> depConfigured = true /\ depAvailable = true)) /\
  (Exists violates checks -> exists c, c ∈ checks /\ violates c /\
     (sc_blocks c = false -> Forall (fun x => violates x -> sc_blocks x = false) checks) /\
     forall t, t = SubnetConditionValid \/ t = SubnetConditionReady ->
       FindStatusCondition cs t = Some (mkCondition t ConditionFalse (Generation subnet) (ck_Reason (sc_result c)) (ck_Message (sc_result c)))).
Proof.
  set (vv := valid_verdict checks). set (rv := ready_verdict checks hasBootPlane depConfigured depAvailable depReason depMessage).
  intros cs. pose proof (picks_none checks) as Hn. pose proof (pick_violation_spec checks) as Hv.
  assert (Hready : FindStatusCondition cs SubnetConditionReady = Some (condition_of SubnetConditionReady (Generation subnet) rv)).
  { destruct rv as [[st re] ms] eqn:Hrv. subst cs. unfold judged. fold vv rv. rewrite Hrv. cbn [condition_of]. apply find_set_same. }
  assert (Hvalid : FindStatusCondition cs SubnetConditionValid = Some (condition_of SubnetConditionValid (Generation subnet) vv)).
  { destruct rv as [[st re] ms] eqn:Hrv, vv as [[st' re'] ms'] eqn:Hvv. subst cs. unfold judged. fold vv rv. rewrite Hrv, Hvv.
    cbn [condition_of]. cbn -[SetStatusCondition FindStatusCondition]. rewrite find_set_other by done. apply find_set_same. }
  rewrite !is_true_find, Hready, Hvalid. unfold vv, rv, valid_verdict, ready_verdict in *.
  destruct (pick_violation checks) as [c|].
  - destruct Hv as (Hin & Hc & Hb). cbn [verdict_of condition_of cd_Status].
    assert (Hnot : ~ Forall clean checks) by (intros Hx; rewrite Forall_forall in Hx; by destruct (Hx c Hin)).
    split_and!; [by split|by split; [|intros []]|]. intros _. exists c. split_and!; try done. by intros t [->| ->].
  - split_and!.
    + destruct (pick_indeterminate checks) as [i|]; [|by split; [intros _; apply Hn|]]. split; [done|]. intros Hx. by apply Hn in Hx as [_ ?].
    + destruct hasBootPlane; cbn [andb]; [destruct depConfigured, depAvailable; cbn [negb orb]|].
      1, 5: destruct (pick_indeterminate checks) as [i|]; [by split; [|intros [Hx _]; apply Hn in Hx as [_ ?]]|];
        split; [|done]; intros _; split; [by apply Hn|done].
      all: split; [done|]; intros [_ Hx]; by destruct (Hx eq_refl).
    + intros Hx. apply Exists_exists in Hx as (x & Hin & Hxv). rewrite Forall_forall in Hv. by apply Hv in Hin.
Qed.
End Verdicts.

(** ** Witnesses *)

Definition sample_cfg : BootdDeploymentConfig := mkBootdConfig "bootd:1" "artifacts:1" "" "" "" "" "".
Definition lease_dhcp : SubnetDHCP := mkSubnetDHCP SubnetDHCPModeLease "" "" (Some "10.0.0.1") None.
Definition served_subnet (table : list DHCPReservation) : Subnet :=
  mkSubnet (Demo.meta "net" ∅)
    (mkSubnetSpec (mkNameRef "" "site") "10.0.0.0/24" "10.0.0.2" (Some (mkNameRef "" "nad")) None ∅ (Some lease_dhcp))
    (mkSubnetStatus [] (Some (mkDHCPStatus table "" ""))).

Definition served_handler (e : eff) (u : unit) : option (resp e * unit) :=
  match e return option (resp e * unit) with
  | EGet KSubnet _ => Some (inl (served_subnet []), u)
  | EGet KNamespace _ => Some (inl (mkNamespace (Demo.meta "ns" ∅)), u)
  | EGet KServiceAccount _ => Some (inl (mkServiceAccount (Demo.meta "kezio-bootd" ∅)), u)
  | EGet _ _ => Some (inr Demo.not_found, u)
  | EList KSubnet _ => Some (inl [served_subnet []], u)
  | ECreate _ o | EStatusUpdate _ o => Some (inl o, u)
  | _ => None
  end.

Definition no_top (s : string) : option string * list (option string) + string := inr "not JSON".
Definition no_ipam (s : string) : cniIPAM + string := inr "not JSON".

Definition sample_reconcile : go reply :=
  Reconcile (H := SimpleMeta.ops) (fun s => s) (fun _ => "") (fun s => s) no_top no_ipam sample_cfg (mkKey "ns" "net").

Definition sample_trace : trace resp :=
  match exec served_handler sample_reconcile tt with Some (_, _, tr) => tr | None => [] end.

(** The run creates the claim and then the Deployment. *)
Definition created (x : event resp) : option string :=
  match x with
  | existT (ECreate KPVC p) _ => Some (Name (p : PersistentVolumeClaim))
  | existT (ECreate KDeployment d) _ => Some (Name (d : Deployment))
  | _ => None
  end.

Example sample_creates : omap created sample_trace = ["kezio-bootd-net-leases"; "kezio-bootd-net"].
Proof. vm_compute. reflexivity. Qed.

Lemma bootd_is_guarded_witness :
  exists e r tr1 tr2, sample_trace = tr1 ++ ev e r :: tr2 /\
    match e with ECreate KDeployment _ => True | _ => False end /\
    permitted (fun s => s) sample_cfg (mkKey "ns" "net") (final (guard (fun s => s) sample_cfg (mkKey "ns" "net")) (mkSeen None None None) tr1) e.
Proof.
  assert (Hrun : exists res, runs sample_reconcile sample_trace res).
  { eexists. eapply (exec_runs served_handler _ tt _ tt). vm_compute. reflexivity. }
  destruct Hrun as [res Hrun].
  pose proof (bootd_is_guarded (H := SimpleMeta.ops) (fun s => s) (fun _ => "") (fun s => s) no_top no_ipam sample_cfg (mkKey "ns" "net")) as G.
  assert (Hsplit : exists d r tr2, sample_trace = firstn 9 sample_trace ++ ev (ECreate KDeployment d) r :: tr2).
  { do 3 eexists. vm_compute. reflexivity. }
  destruct Hsplit as (d & r & tr2 & Hs). exists (ECreate KDeployment d), r, (firstn 9 sample_trace), tr2.
  split; [exact Hs|]. split; [exact I|]. apply (G (firstn 9 sample_trace) (ECreate KDeployment d) r tr2 res).
  rewrite <- Hs. exact Hrun.
Defined.

Definition stale_row : DHCPReservation := mkReservation "10.0.0.5" "gone" "52:54:00:00:00:09" 0.
Definition live_row : DHCPReservation := mkReservation "10.0.0.4" "m1" "52:54:00:00:00:01" 0.

Definition one_machine (e : eff) : option (resp e) :=
  match e return option (resp e) with
  | EGet KMachine key => Some (if key_Name key =s "m1" then inl (Demo.machine ∅ (Demo.status MachineStateAvailable)) else inr Demo.not_found)
  | _ => None
  end.

Lemma one_machine_answers : machines_answer one_machine.
Proof. intros key. cbn. by destruct (key_Name key =s "m1"). Qed.

Lemma two_rows_ok : table_ok (served_subnet [live_row; stale_row]).
Proof.
  split_and!; [by apply (bool_decide_unpack _); vm_compute..|].
  intros r Hr. apply (bool_decide_unpack _). apply elem_of_cons in Hr as [->|Hr]; [by vm_compute|].
  apply list_elem_of_singleton in Hr as ->. by vm_compute.
Qed.

Lemma gc_collects_exactly_witness :
  exists subnet', interp one_machine (gcDHCPReservations (fun s => s) (served_subnet [live_row; stale_row])) = Some (inl subnet') /\
    table_ok subnet'.
Proof.
  destruct (gc_collects_exactly (fun s => s) one_machine (served_subnet [live_row; stale_row]) lease_dhcp
    one_machine_answers eq_refl eq_refl two_rows_ok) as (subnet' & Hi & Hok & _). eauto.
Defined.

Example gc_keeps_live_row :
  match interp one_machine (gcDHCPReservations (fun s => s) (served_subnet [live_row; stale_row])) with
  | Some (inl s) => reservations s = [live_row]
  | _ => False
  end.
Proof. vm_compute. reflexivity. Qed.

(** A Machine of namespace [elsewhere] that boots from [ns/net]. *)
Definition foreign_machine : Machine :=
  mkMachine (mkObjectMeta "f1" "elsewhere" "uid-f" "1" 1 0 None [] ∅ ∅ [])
    (mkMachineSpec (mkBMC "redfish://10.0.0.9" (mkSecretReference "bmc")) "52:54:00:00:00:0f" (mkNameRef "ns" "net") None [] None)
    (Demo.status MachineStateAvailable).

Lemma served_empty_ok : table_ok (served_subnet []).
Proof. split_and!; [apply NoDup_nil_2..|]. intros r Hr. by apply not_elem_of_nil in Hr. Qed.

Lemma foreign_reservation_is_collected_witness :
  exists subnet' subnet'', Reserve (fun s => s) (served_subnet []) "f1" "52:54:00:00:00:0f" 5 = inl ("10.0.0.3", true, subnet') /\
    interp one_machine (gcDHCPReservations (fun s => s) subnet') = Some (inl subnet'') /\
    (forall res, res ∈ reservations subnet'' -> rsv_Machine res <> "f1").
Proof.
  eexists. assert (Hr : Reserve (fun s => s) (served_subnet []) (Name foreign_machine) "52:54:00:00:00:0f" 5 = inl ("10.0.0.3", true, _))
    by (vm_compute; reflexivity).
  destruct (foreign_reservation_is_collected (fun s => s) one_machine (served_subnet []) lease_dhcp foreign_machine
    "52:54:00:00:00:0f" 5 _ _ _ one_machine_answers eq_refl eq_refl served_empty_ok Hr) as (subnet'' & Hi & _ & Hgone).
  - exists Demo.not_found. reflexivity.
  - exists subnet''. split; [exact Hr|]. split; [exact Hi|exact Hgone].
Defined.

Lemma subnet_conditions_spec_witness :
  IsStatusConditionTrue (ApiMachinery := SimpleMeta.ops)
    (sub_Conditions (sub_Status (judged (H := SimpleMeta.ops) (served_subnet []) [] true true false "r" "m"))) SubnetConditionReady = true <->
  Forall clean [] /\ (true = true -> true = true /\ false = true).
Proof.
  apply (subnet_conditions_spec (H := SimpleMeta.ops) (H0 := SimpleMeta.laws) (served_subnet []) [] true true false "r" "m").
Defined.
