(* ===== verification/SeedDemand.v ===== *)
(** * SeedDemand: who asks for content

    What the Image and the PartitionContent reconcilers share:
    [src/internal/controller/seeder_demand.go], [partitioncontent_index.go],
    the references of claims and runs ([partitioncontent_demand.go],
    [partitioncontent_finalizer.go]), the listing of seeder Deployments
    ([image_seeder_placement.go]), Job results ([imageimport_ingest.go],
    [src/internal/ingest/result.go]) and the seeder settings
    ([image_seeder_config.go]).

    A Go map is an association list in the order it is ranged over; [ranged]
    stands for the order the runtime picks.  [UnmarshalResult] is the JSON
    decoding of a Job's result. *)

From S2P Require Import Prelude Text Api Effects Workloads Cluster Machine SiteDerive PlanBuild Subnets.
Local Open Scope string_scope.
Local Open Scope list_scope.
Local Open Scope Z_scope.

#[export] Instance ObjectKey_eq_dec : EqDecision ObjectKey.
Proof. solve_decision. Defined.

(** ** Names *)

Definition k8sNameMaxLength : nat := 63.

(** The suffix is the first four bytes of the digest in hexadecimal. *)
Definition truncatedName (hex_sha256 : string -> string) (base : string) (max : nat) : string :=
  if (String.length base <=? max)%nat then base
  else
  let suffix := "-" +:+ String.substring 0 8 (hex_sha256 base) in
  let keep := (max - String.length suffix)%nat in
  String.substring 0 keep base +:+ suffix.

Lemma truncatedName_length hex_sha256 base max :
  (8 <= String.length (hex_sha256 base))%nat -> (9 <= max)%nat -> (String.length (truncatedName hex_sha256 base max) <= max)%nat.
Proof.
  intros Hd Hm. unfold truncatedName. destruct (Nat.leb_spec (String.length base) max) as [|Hlt]; [done|].
  cbv zeta. rewrite !string_length_app, (substring_length 8 (hex_sha256 base)) by done.
  change (String.length "-") with 1%nat. rewrite substring_length by lia. lia.
Qed.

(** ** Job results *)

Record ResultPartition := mkResultPartition {
  rp_Number : Z; rp_Role : string; rp_FSType : string; rp_UsedBytes : Z; rp_SizeBytes : Z; rp_LastExtentEnd : Z;
  rp_PieceLength : Z; rp_UUID : string; rp_TypeGUID : string; rp_PartUUID : string }.

Record ResultDisk := mkResultDisk {
  rd_SizeBytes : Z; rd_PartitionTable : string; rd_SfdiskJSON : string; rd_Partitions : list ResultPartition }.

Record ResultPublish := mkResultPublish { rpub_InfoHash : string }.

(** [ingest.Result]. *)
Record IngestResult := mkIngestResult {
  ir_Success : bool; ir_Error : string; ir_Disk : option ResultDisk; ir_Publish : option ResultPublish }.

Inductive jobOutcome := jobRunning | jobSucceeded | jobFailed.

Definition outcomeOf (job : Job) : jobOutcome :=
  if 0 <? job_Succeeded job then jobSucceeded
  else if 0 <? job_Failed job then jobFailed
  else jobRunning.

(** The first termination message that is not empty. *)
Definition termination_message (pods : list Pod) : option string :=
  find_first (fun m => m <>s "") (omap (fun t => t) (flat_map pod_Terminations pods)).

Definition readJobResult (UnmarshalResult : string -> IngestResult + GoErr) (namespace : string) (job : Job) : go (IngestResult + GoErr) :=
  r <- ListLabels KPod namespace {["job-name" := Name job]} ;;
  Ret match r with
      | inr err => inr (wrapf "listing pods for job %q: %w" [Name job] err)
      | inl pods =>
        match termination_message pods with
        | Some message => UnmarshalResult message
        | None => inr (errorf "job %q completed with no pod termination message" [Name job])
        end
      end.

(** ** Seeder settings *)

Definition defaultSeederGracePeriod : Z := 5 * Minute.
Definition DefaultSeederMaxConnections : Z := 5.

Record ImageSeederConfig := mkSeederConfig {
  isc_Image : string; isc_GracePeriod : Z; isc_MaxUploads : Z; isc_MaxConnections : Z }.

Definition seeder_ready (cfg : ImageSeederConfig) : bool := isc_Image cfg <>s "".
Definition gracePeriod (cfg : ImageSeederConfig) : Z :=
  if 0 <? isc_GracePeriod cfg then isc_GracePeriod cfg else defaultSeederGracePeriod.
Definition maxUploads (cfg : ImageSeederConfig) : Z := ResolveMaxUploads (isc_MaxUploads cfg) None.
Definition maxConnections (cfg : ImageSeederConfig) : Z :=
  if 0 <? isc_MaxConnections cfg then isc_MaxConnections cfg else DefaultSeederMaxConnections.

(** ** References *)

Definition imageContentRefIndex : string := "spec.layout.slots.contentRef.name".

Fixpoint names_from (seen : list string) (slots : list ImageSlot) : list string :=
  match slots with
  | [] => []
  | slot :: rest =>
    match is_ContentRef slot with
    | None => names_from seen rest
    | Some ref =>
      if (nr_Name ref =s "") || bool_decide (nr_Name ref ∈ seen) then names_from seen rest
      else nr_Name ref :: names_from (nr_Name ref :: seen) rest
    end
  end.

Definition imageContentRefNames (image : Image) : list string := names_from [] (lay_Slots (img_Layout (image_Spec image))).
Definition indexImageContentRefs (image : Image) : list string := imageContentRefNames image.

Definition imageReferencesContent (image : Image) (contentName : string) : bool :=
  existsb (fun slot => match is_ContentRef slot with Some ref => nr_Name ref =s contentName | None => false end)
    (lay_Slots (img_Layout (image_Spec image))).

Definition isDeployRunActive (run : DeployRun) : bool :=
  negb ((Phase (run_Status run) =s DeployRunPhaseSucceeded) || (Phase (run_Status run) =s DeployRunPhaseFailed)).

Definition ref_key (defaultNS : string) (ref : NameRef) : ObjectKey :=
  mkKey (if nr_Namespace ref =s "" then defaultNS else nr_Namespace ref) (nr_Name ref).

Definition deployRunImageNames (run : DeployRun) : list ObjectKey :=
  map (ref_key (Namespace run)) (option_list (run_ImageRef (run_Spec run)) ++ map di_ImageRef (slice (run_DataImages (run_Spec run)))).

(** Deduplication that keeps the first occurrence. *)
Fixpoint dedup_keys (seen : list ObjectKey) (l : list ObjectKey) : list ObjectKey :=
  match l with
  | [] => []
  | k :: l => if bool_decide (k ∈ seen) then dedup_keys seen l else k :: dedup_keys (k :: seen) l
  end.

Definition claimImageRefIndex : string := "spec.imageRefs".

Definition claimImageRefs (claim : MachineClaim) : list ObjectKey :=
  dedup_keys [] (map (ref_key (Namespace claim))
    (option_list (cl_ImageRef (claim_Spec claim)) ++ map di_ImageRef (slice (cl_DataImages (claim_Spec claim))))).

Definition objectKeyIndexString (key : ObjectKey) : string := qualified (key_Namespace key) (key_Name key).
Definition indexClaimImageRefs (claim : MachineClaim) : list string := map objectKeyIndexString (claimImageRefs claim).

Definition anyLiveClaim (claims : list MachineClaim) : bool :=
  existsb (fun c : MachineClaim => bool_decide (DeletionTimestamp c = None)) claims.

Definition machineClaimImageRefs (machine : Machine) : go (list ObjectKey + GoErr) :=
  r <- resolveClaimIntent machine ;;
  Ret match r with inr err => inr err | inl None => inl [] | inl (Some claim) => inl (claimImageRefs claim) end.

(** ** Machines that ask for an Image *)

Definition machineDeployPending (machine : Machine) (claim : MachineClaim) : go (bool + GoErr) :=
  if isEmptyDeployPayload (Some claim) then Ret (inl false)
  else
  match LastSuccessfulRunRef (Status machine) with
  | None => Ret (inl true)
  | Some ref =>
    r <- Get KRun (ref_key (Namespace machine) ref) ;;
    Ret match r with
        | inr err => if IsNotFound err then inl true else inr err
        | inl run =>
          inl (negb (nameRefEqual (cl_ImageRef (claim_Spec claim)) (run_ImageRef (run_Spec (run : DeployRun)))) ||
               negb (bool_decide (cl_DataImages (claim_Spec claim) = run_DataImages (run_Spec (run : DeployRun)))))
        end
  end.

(** Whether one listed Machine counts. *)
Definition machine_demands (image : ObjectKey) (m : Machine) : go (bool + GoErr) :=
  match DeletionTimestamp m with
  | Some _ => Ret (inl false)
  | None =>
    r <- resolveClaimIntent m ;;
    match r with
    | inr err => Ret (inr err)
    | inl None => Ret (inl false)
    | inl (Some claim) =>
      if negb (bool_decide (image ∈ claimImageRefs claim)) then Ret (inl false)
      else if State (Status m) =s MachineStateProvisioned then machineDeployPending m claim
      else Ret (inl true)
    end
  end.

Fixpoint demanding (image : ObjectKey) (ms : list Machine) : go (list Machine + GoErr) :=
  match ms with
  | [] => Ret (inl [])
  | m :: ms =>
    r <- machine_demands image m ;;
    match r with
    | inr err => Ret (inr err)
    | inl b =>
      r <- demanding image ms ;;
      Ret match r with inr err => inr err | inl live => inl (if b then m :: live else live) end
    end
  end.

Definition machinesReferencingImage (image : ObjectKey) : go (list Machine + GoErr) :=
  r <- List_ KMachine (key_Namespace image) ;;
  match r with
  | inr err => Ret (inr err)
  | inl ms => demanding image ms
  end.

(** ** Demand by Site *)

Abbreviation machine_map := (list (ObjectKey * Machine)).

(** Assignment to a map entry. *)
Fixpoint put (key : ObjectKey) (m : Machine) (l : machine_map) : machine_map :=
  match l with
  | [] => [(key, m)]
  | (k, x) :: l => if bool_decide (k = key) then (k, m) :: l else (k, x) :: put key m l
  end.

Definition put_all (ms : list Machine) (l : machine_map) : machine_map :=
  fold_left (fun l (m : Machine) => put (key_of m) m l) ms l.

Definition has_key (key : ObjectKey) (l : machine_map) : bool := existsb (fun x => bool_decide (x.1 = key)) l.

(** The machines of active runs that are not in the map yet; one that cannot be
    read is passed over. *)
Fixpoint put_runs (runs : list DeployRun) (l : machine_map) : go machine_map :=
  match runs with
  | [] => Ret l
  | run :: runs =>
    let key := ref_key (Namespace run) (run_MachineRef (run_Spec run)) in
    if has_key key l then put_runs runs l
    else
    r <- Get KMachine key ;;
    match r with
    | inr _ => put_runs runs l
    | inl m => put_runs runs (put key m l)
    end
  end.

Record seederSiteDemand := mkSiteDemand { sd_count : Z; sd_resolution : Resolution }.

Fixpoint group_by_site (ms : machine_map) (demand : gmap string seederSiteDemand) (noSeeder : gset string)
  : go (gmap string seederSiteDemand * gset string) :=
  match ms with
  | [] => Ret (demand, noSeeder)
  | (_, machine) :: ms =>
    r <- Resolve machine ;;
    match r with
    | inr _ => group_by_site ms demand noSeeder
    | inl res =>
      if negb (HasSeeder res) then group_by_site ms demand ({[SiteIdentity_ res]} ∪ noSeeder)
      else
      let d := default (mkSiteDemand 0 res) (demand !! SiteIdentity_ res) in
      group_by_site ms (<[SiteIdentity_ res := mkSiteDemand (sd_count d + 1) (sd_resolution d)]> demand) noSeeder
    end
  end.

Definition sorted_sites (s : gset string) : list string := sort_by String.ltb (elements s).

Definition seederDemandBySite (ranged : machine_map -> machine_map) (machines : machine_map)
  : go (gmap string seederSiteDemand * list string) :=
  '(demand, noSeeder) <- group_by_site (ranged machines) ∅ ∅ ;;
  Ret (demand, sorted_sites noSeeder).

(** ** Seeder Deployments of an Image *)

Definition imageSeederSiteAnnotation : string := "kezio.kojuro.date/seeder-site".

Definition seeder_site (image : Image) (dep : Deployment) : option string :=
  if negb (IsControlledBy dep image) then None
  else match Annotations dep !! imageSeederSiteAnnotation with
       | None => None
       | Some site => if site =s "" then None else Some site
       end.

Definition deployments_by_site (image : Image) (deps : list Deployment) : gmap string Deployment :=
  fold_left (fun out dep => match seeder_site image dep with Some site => <[site := dep]> out | None => out end) deps ∅.

Definition listImageSeederDeployments (image : Image) : go (gmap string Deployment + GoErr) :=
  r <- ListLabels KDeployment (Namespace image) {[partitionContentAppComponentLabel := partitionContentSeederComponentValue]} ;;
  Ret match r with
      | inr err => inr (wrapf "list seeder deployments for image %s/%s: %w" [Namespace image; Name image] err)
      | inl deps => inl (deployments_by_site image deps)
      end.

(** ** Counting demand *)

Section Counting.
Context (w : forall e, option (resp e)).

(** Every placement walk ends, with a resolution or an error. *)
Definition resolvable : Prop := forall m, is_Some (interp w (Resolve m)).

Definition placed_at (site : string) (m : Machine) : bool :=
  match interp w (Resolve m) with Some (inl res) => HasSeeder res && (SiteIdentity_ res =s site) | _ => false end.

Definition unseeded_at (site : string) (m : Machine) : Prop :=
  exists res, interp w (Resolve m) = Some (inl res) /\ HasSeeder res = false /\ SiteIdentity_ res = site.

Definition count_at (d : gmap string seederSiteDemand) (site : string) : Z :=
  match d !! site with Some x => sd_count x | None => 0 end.

Definition placed (site : string) (ms : machine_map) : Z := Z.of_nat (length (List.filter (fun x => placed_at site x.2) ms)).

Lemma placed_cons site k m ms : placed site ((k, m) :: ms) = (if placed_at site m then 1 else 0) + placed site ms.
Proof. unfold placed. cbn [List.filter snd]. destruct (placed_at site m); cbn [length]; lia. Qed.

Lemma group_by_site_spec ms demand ns : resolvable ->
  exists demand' ns', interp w (group_by_site ms demand ns) = Some (demand', ns') /\
    (forall site, count_at demand' site = count_at demand site + placed site ms) /\
    (forall site, site ∈ dom demand' <-> site ∈ dom demand \/ 0 < placed site ms) /\
    (forall site, site ∈ ns' <-> site ∈ ns \/ exists x, x ∈ ms /\ unseeded_at site x.2).
Proof.
  intros Hw. revert demand ns. induction ms as [|[k m] ms IH]; intros demand ns; cbn [group_by_site].
  { exists demand, ns. split_and!; [done|..]; intros site; [unfold placed; cbn; lia| |].
    - split; [by left|]. intros [?|Hp]; [done|]. unfold placed in Hp. cbn in Hp. lia.
    - split; [by left|]. intros [?|(x & Hx & _)]; [done|]. by apply not_elem_of_nil in Hx. }
  rewrite interp_bind. destruct (Hw m) as [r Hr]. rewrite Hr.
  assert (Hcons : forall site, (exists x, x ∈ (k, m) :: ms /\ unseeded_at site x.2) <->
            unseeded_at site m \/ exists x, x ∈ ms /\ unseeded_at site x.2).
  { intros site. split.
    - intros (x & [->|Hx]%elem_of_cons & Hu); [by left|right; eauto].
    - intros [Hu|(x & Hx & Hu)]; [exists (k, m)|exists x]; (split; [|done]); [left|by right]. }
  destruct r as [res|err].
  2: { destruct (IH demand ns) as (d' & n' & Hi & Hc & Hd & Hn). exists d', n'. split; [exact Hi|].
       assert (Hp : forall site, placed_at site m = false) by (intros site; unfold placed_at; by rewrite Hr).
       split_and!; intros site; rewrite ?Hcons, ?placed_cons, ?Hp; [by rewrite Hc|by rewrite Hd|].
       rewrite Hn. split; [intros [?|?]; auto|]. intros [?|[(res & Hx & _)|?]]; [by left|congruence|by right]. }
  destruct (HasSeeder res) eqn:Hs; cbn [negb].
  - destruct (IH (<[SiteIdentity_ res := mkSiteDemand (sd_count (default (mkSiteDemand 0 res) (demand !! SiteIdentity_ res)) + 1)
        (sd_resolution (default (mkSiteDemand 0 res) (demand !! SiteIdentity_ res)))]> demand) ns) as (d' & n' & Hi & Hc & Hd & Hn).
    exists d', n'. split; [exact Hi|].
    assert (Hp : forall site, placed_at site m = (SiteIdentity_ res =s site)) by (intros site; unfold placed_at; by rewrite Hr, Hs).
    split_and!; intros site; rewrite ?Hcons, ?placed_cons, ?Hp.
    + rewrite Hc. unfold count_at. destruct (String.eqb_spec (SiteIdentity_ res) site) as [->|Hne].
      * rewrite lookup_insert_eq. cbn. destruct (demand !! site); cbn; lia.
      * rewrite lookup_insert_ne by done. lia.
    + rewrite Hd, dom_insert, elem_of_union, elem_of_singleton. pose proof (Nat2Z.is_nonneg (length (List.filter (fun x => placed_at site x.2) ms))) as H0.
      fold (placed site ms) in H0. destruct (String.eqb_spec (SiteIdentity_ res) site) as [->|Hne].
      * split; [intros _; right; lia|intros _; by left; left].
      * split; [intros [[?|?]|?]; [congruence|by left|right; lia]|]. intros [?|?]; [by left; right|right; lia].
    + rewrite Hn. split; [intros [?|?]; auto|]. intros [?|[(res' & Hx & Hf & _)|?]]; [by left| |by right]. congruence.
  - destruct (IH demand ({[SiteIdentity_ res]} ∪ ns)) as (d' & n' & Hi & Hc & Hd & Hn). exists d', n'. split; [exact Hi|].
    assert (Hp : forall site, placed_at site m = false) by (intros site; unfold placed_at; by rewrite Hr, Hs).
    split_and!; intros site; rewrite ?Hcons, ?placed_cons, ?Hp; [by rewrite Hc|by rewrite Hd|].
    rewrite Hn, elem_of_union, elem_of_singleton. split.
    + intros [[->|?]|?]; [right; left; exists res; done|by left|by right; right].
    + intros [?|[(res' & Hx & _ & <-)|?]]; [by left; right|left; left; congruence|by right].
Qed.

Lemma placed_perm site ms ms' : ms ≡ₚ ms' -> placed site ms = placed site ms'.
Proof.
  induction 1 as [|[k m] ms ms' _ IH|[k m] [k' m'] ms|ms ms' ms'' _ IH1 _ IH2]; [done| | |congruence].
  - rewrite !placed_cons. lia.
  - rewrite !placed_cons. lia.
Qed.
End Counting.

Lemma put_keys key m l : NoDup l.*1 -> NoDup (put key m l).*1 /\ forall k, k ∈ (put key m l).*1 <-> k = key \/ k ∈ l.*1.
Proof.
  induction l as [|[k x] l IH]; cbn.
  - intros _. split; [apply NoDup_singleton|]. intros k. rewrite list_elem_of_singleton, elem_of_nil. tauto.
  - intros [Hk Hn]%NoDup_cons. case_bool_decide as Hkk; cbn.
    + subst. split; [by apply NoDup_cons|]. intros k'. rewrite elem_of_cons. tauto.
    + destruct (IH Hn) as [Hn' Hin]. split.
      * apply NoDup_cons. split; [|done]. rewrite Hin. intros [?|?]; congruence.
      * intros k'. rewrite !elem_of_cons, Hin. tauto.
Qed.

(** C23. Demand counts machines, once each: against an unchanging cluster, and in
    whatever order the runtime ranges over the map, the demand of a Site is the
    number of Machines of the map whose placement resolves to that Site and has a
    seeder; a Site is listed exactly when that number is positive, and the Sites
    without a seeder are reported sorted, each once.  So the two reconcilers that
    compute it from the same Machines agree. *)
Theorem demand_counts_machines w ranged ms
    (Hw : resolvable w) (Hranged : forall l, ranged l ≡ₚ l) :
  exists demand sites, interp w (seederDemandBySite ranged ms) = Some (demand, sites) /\
    (forall site, count_at demand site = placed w site ms) /\ (forall site, site ∈ dom demand <-> 0 < placed w site ms) /\
    NoDup sites /\ (forall site, site ∈ sites <-> exists x, x ∈ ms /\ unseeded_at w site x.2) /\
    forall ranged', (forall l, ranged' l ≡ₚ l) -> exists demand',
      interp w (seederDemandBySite ranged' ms) = Some (demand', sites) /\ sd_count <$> demand' = sd_count <$> demand.
Proof.
  assert (Hone : forall rg, (forall l, rg l ≡ₚ l) -> exists demand ns,
    interp w (seederDemandBySite rg ms) = Some (demand, sorted_sites ns) /\
    (forall site, count_at demand site = placed w site ms) /\ (forall site, site ∈ dom demand <-> 0 < placed w site ms) /\
    (forall site, site ∈ ns <-> exists x, x ∈ ms /\ unseeded_at w site x.2)).
  { intros rg Hrg. destruct (group_by_site_spec w (rg ms) ∅ ∅ Hw) as (d & ns & Hi & Hc & Hd & Hn). exists d, ns.
    unfold seederDemandBySite. rewrite interp_bind, Hi. split; [done|].
    split_and!; intros site; rewrite <- ?(placed_perm w site _ _ (Hrg ms)).
    - rewrite Hc. unfold count_at. rewrite lookup_empty. lia.
    - rewrite Hd, dom_empty, elem_of_empty. tauto.
    - rewrite Hn, elem_of_empty. split; [intros [?|(x & Hx & Hu)]; [done|]|intros (x & Hx & Hu); right]; exists x; (split; [|done]).
      + by rewrite <- (Hrg ms).
      + by rewrite (Hrg ms). }
  destruct (Hone ranged Hranged) as (d & ns & Hi & Hc & Hd & Hn). exists d, (sorted_sites ns).
  assert (Hperm : sorted_sites ns ≡ₚ elements ns) by apply sort_by_perm.
  split_and!; [done..| | |].
  - rewrite Hperm. apply NoDup_elements.
  - intros site. rewrite Hperm, elem_of_elements. apply Hn.
  - intros ranged' Hr'. destruct (Hone ranged' Hr') as (d' & ns' & Hi' & Hc' & Hd' & Hn'). exists d'. split.
    + rewrite Hi'. do 3 f_equal. assert (ns' = ns) as -> by set_solver. done.
    + apply map_eq. intros site. rewrite !lookup_fmap. specialize (Hc site). specialize (Hc' site). specialize (Hd site). specialize (Hd' site).
      rewrite elem_of_dom in Hd, Hd'. unfold count_at in *. rewrite <- Hc in Hc'.
      destruct (d !! site) as [x|] eqn:Ex, (d' !! site) as [y|] eqn:Ey; cbn; [by rewrite Hc'| | |done].
      * destruct (proj2 Hd' (proj1 Hd (mk_is_Some _ _ eq_refl))) as [? [=]].
      * destruct (proj2 Hd (proj1 Hd' (mk_is_Some _ _ eq_refl))) as [? [=]].
Qed.
