(* ===== verification/Contents.v ===== *)
(** * Contents: the PartitionContent reconciler

    [src/internal/controller/partitioncontent_*.go]: the claim and the publish
    Job of a content, the walk Pending, Publishing, Ready or Failed, the seeders
    reflected in its status, and the finalizer that holds the object while an
    Image or an active DeployRun refers to it.

    Field indexes are lists by field, scoped to the namespace afterwards.  The
    decoding of a Job's result, the digest and the order of map iteration are
    parameters. *)

From S2P Require Import Prelude Text Api Effects Workloads Cluster Store Machine SiteDerive PlanBuild Subnets SeedDemand.
Local Open Scope string_scope.
Local Open Scope list_scope.
Local Open Scope Z_scope.

(** ** Configuration *)

Definition defaultPublishJobTTL : Z := 60 * Minute.

Record PartitionContentPublishConfig := mkPublishConfig {
  pub_Image : string; pub_ServiceAccountName : string; pub_StorageClassName : string; pub_AccessModes : list string; pub_JobTTL : Z }.

Definition defaultPartitionContentAccessModes : list string := [ReadWriteMany].
Definition accessModes (cfg : PartitionContentPublishConfig) : list string :=
  match pub_AccessModes cfg with [] => defaultPartitionContentAccessModes | modes => modes end.
Definition publish_ready (cfg : PartitionContentPublishConfig) : bool := pub_Image cfg <>s "".

(** [int32(ttl.Seconds())]: whole seconds; a float conversion out of range is
    left out. *)
Definition jobTTLSeconds (ttl default_ttl : Z) : Z := (if 0 <? ttl then ttl else default_ttl) / Second.

(** ** Labels, names and mounts *)

Definition partitionContentAppNameLabel : string := "app.kubernetes.io/name".
Definition partitionContentAppNameValue : string := "kezio".
Definition partitionContentPVCComponentValue : string := "partition-content".
Definition partitionContentJobComponentValue : string := "partition-content-publish".

Definition component_labels (component : string) : gmap string string :=
  <[partitionContentAppNameLabel := partitionContentAppNameValue]> {[partitionContentAppComponentLabel := component]}.

Definition publishPollInterval : Z := 30 * Second.
Definition deletionBlockRequeueInterval : Z := 30 * Second.
Definition maxBlockingRefsNamed : nat := 5.
Definition publishJobNamePrefix : string := "pc-publish-".
Definition publishJobBackoffLimit : Z := 0.
Definition ingestScratchPVCNamePrefix : string := "image-ingest-scratch-".
Definition ContentMountRoot : string := "/content".
Definition DefaultWorkDir : string := "/work".
Definition ContentOwnerUID : Z := 65532.

(** [filepath.Join] of the root and a name without a slash. *)
Definition ContentMountPath (contentName : string) : string := ContentMountRoot +:+ "/" +:+ PVCName contentName.

(** 32Mi. *)
Definition partitionContentPVCHeadroomBytes : Z := 32 * 1024 * 1024.

Definition partitionContentPVCSize (sizeBytes : Z) : Z :=
  let requested := int64 (sizeBytes + partitionContentPVCHeadroomBytes) in
  if requested <? partitionContentPVCHeadroomBytes then partitionContentPVCHeadroomBytes else requested.

Definition formatBlockers (blockers : list string) : string :=
  if (length blockers <=? maxBlockingRefsNamed)%nat then concat ", " blockers
  else sprintf "%s, and %d more" [concat ", " (firstn maxBlockingRefsNamed blockers);
                                  show_dec (Z.of_nat (length blockers - maxBlockingRefsNamed))].

Section Reconciler.
Context `{ApiMachinery} (hex_sha256 : string -> string) (UnmarshalResult : string -> IngestResult + GoErr).
Context (ranged : machine_map -> machine_map) (Publish : PartitionContentPublishConfig) (Seeder : ImageSeederConfig).

Definition publishJobName (contentName : string) : string :=
  truncatedName hex_sha256 (publishJobNamePrefix +:+ contentName) k8sNameMaxLength.
Definition ingestScratchPVCName (importName : string) : string :=
  truncatedName hex_sha256 (ingestScratchPVCNamePrefix +:+ importName) k8sNameMaxLength.

(** ** Status *)

Definition set_condition (type status reason message : string) (pc : PartitionContent) : PartitionContent :=
  pc <| content_Status := (content_Status pc) <| pc_Conditions :=
    SetStatusCondition (pc_Conditions (content_Status pc)) (mkCondition type status (Generation pc) reason message) |> |>.

Definition setPartitionContentReadyCondition := set_condition PartitionContentConditionReady.
Definition setPartitionContentValidCondition :=
  set_condition PartitionContentConditionValid ConditionTrue "SpecValid" "spec is CEL-validated at admission".
Definition setPartitionContentSeederDegradedCondition := set_condition PartitionContentConditionSeederDegraded.
Definition setPartitionContentDeletionBlockedCondition := set_condition PartitionContentConditionDeletionBlocked ConditionTrue.

(** The object as the server returned it, on success. *)
Definition applyPartitionContentStatus (pc : PartitionContent) (onSuccess : go unit) : go (option GoErr) :=
  r <- StatusApply KContent pc ;;
  match r with
  | inr err => Ret (Some err)
  | inl _ => onSuccess ;; Ret None
  end.

Definition record (pc : PartitionContent) (fmt : string) (onSuccess : go unit) (result : ctrlResult) : go reply :=
  err <- applyPartitionContentStatus pc onSuccess ;;
  Ret match err with
      | Some err => (noRequeue, Some (wrapf fmt [Name pc] err))
      | None => (result, None)
      end.

Definition with_state (state : string) (pvc : option PersistentVolumeClaim) (pc : PartitionContent) : PartitionContent :=
  let st := (content_Status pc) <| pc_State := state |> in
  pc <| content_Status := match pvc with Some p => st <| pc_PVCRef := Some (mkNameRef "" (Name p)) |> | None => st end |>.

Definition recordPending (pc : PartitionContent) (pvc : PersistentVolumeClaim) : go reply :=
  record (setPartitionContentReadyCondition ConditionFalse "PublishConfigMissing"
            "no publish Job image is configured on the manager; content stays Pending until it is"
            (with_state PartitionContentStatePending (Some pvc) pc)) "partitioncontent %q: recording Pending: %w" (Ret tt) noRequeue.

Definition recordPublishing (pc : PartitionContent) (pvc : PersistentVolumeClaim) : go reply :=
  record (setPartitionContentReadyCondition ConditionFalse "Publishing" "publish job is running"
            (with_state PartitionContentStatePublishing (Some pvc) pc)) "partitioncontent %q: recording Publishing: %w" (Ret tt) (requeueAfter publishPollInterval).

Definition recordReady (pc : PartitionContent) (pvc : PersistentVolumeClaim) (infoHash : string) : go reply :=
  let pc := with_state PartitionContentStateReady (Some pvc) pc in
  let pc := pc <| content_Status := (content_Status pc) <| pc_InfoHash := infoHash |> |> in
  record (setPartitionContentReadyCondition ConditionTrue "PublishJobSucceeded"
            "publish job succeeded; torrent.info is present in the content PVC" pc) "partitioncontent %q: recording Ready: %w"
    (Event (Name pc) EventTypeNormal "PartitionContentReady" "publish job succeeded") noRequeue.

Definition recordFailedMessage (pc : PartitionContent) (message : string) : go reply :=
  record (setPartitionContentReadyCondition ConditionFalse "PublishJobFailed" message
            (with_state PartitionContentStateFailed None pc)) "partitioncontent %q: recording Failed: %w"
    (Event (Name pc) EventTypeWarning "PartitionContentPublishFailed" message) noRequeue.

Definition recordFailed (pc : PartitionContent) (job : Job) : go reply :=
  recordFailedMessage pc (sprintf "publish job %q failed" [Name job]).

(** ** The claim *)

Definition buildContentPVC (pc : PartitionContent) (name : string) : PersistentVolumeClaim :=
  mkPVC (new_meta name (Namespace pc) (component_labels partitionContentPVCComponentValue) ∅) (accessModes Publish)
    (partitionContentPVCSize (pc_SizeBytes (content_Spec pc)))
    (if pub_StorageClassName Publish <>s "" then Some (pub_StorageClassName Publish) else None).

Definition ensureContentPVC (pc : PartitionContent) : go (PersistentVolumeClaim + GoErr) :=
  let name := PVCName (Name pc) in
  r <- Get KPVC (mkKey (Namespace pc) name) ;;
  match r with
  | inl existing => Ret (inl existing)
  | inr err =>
    if negb (IsNotFound err) then Ret (inr (wrapf "partitioncontent %q: getting content PVC %q: %w" [Name pc; name] err))
    else
    let pvc := buildContentPVC pc name in
    match owned (fun m => pvc <| pvc_meta := m |>) pvc pc with
    | inr err => Ret (inr (wrapf "partitioncontent %q: setting content PVC %q owner reference: %w" [Name pc; name] err))
    | inl pvc =>
      r <- Create KPVC pvc ;;
      Ret match r with
          | inl created => inl created
          | inr err => if IsAlreadyExists err then inl pvc
                       else inr (wrapf "partitioncontent %q: creating content PVC %q: %w" [Name pc; name] err)
          end
    end
  end.

(** ** The publish Job *)

Definition publishJobFor (pc : PartitionContent) : go (option Job + GoErr) :=
  let name := publishJobName (Name pc) in
  r <- Get KJob (mkKey (Namespace pc) name) ;;
  Ret match r with
      | inl job => inl (Some job)
      | inr err => if IsNotFound err then inl None
                   else inr (wrapf "partitioncontent %q: getting publish job %q: %w" [Name pc; name] err)
      end.

Definition buildPublishJob (pc : PartitionContent) (pvcName : string) : Job :=
  let labels := component_labels partitionContentJobComponentValue in
  let sourceContentDir := DefaultWorkDir +:+ "/" +:+ sprintf "content-%d" [show_dec (pcs_PartitionNumber (pc_Source (content_Spec pc)))] in
  mkJob (new_meta (publishJobName (Name pc)) (Namespace pc) labels ∅) publishJobBackoffLimit
    (jobTTLSeconds (pub_JobTTL Publish) defaultPublishJobTTL)
    (mkTemplate labels ∅
      (mkPodSpec RestartPolicyNever (pub_ServiceAccountName Publish) ∅
        (Some (mkPodSecurity (Some true) (Some ContentOwnerUID) (Some ContentOwnerUID) None (Some SeccompProfileTypeRuntimeDefault))) []
        [mkContainer "publish" (pub_Image Publish) [] []
           [mkEnv "INGEST_MODE" "publish"; mkEnv "PARTITION_CONTENT_NAME" (Name pc); mkEnv "SOURCE_CONTENT_DIR" sourceContentDir] []
           [mkMount "content" (ContentMountPath (Name pc)) false; mkMount "scratch" DefaultWorkDir true]
           (Some (mkSecurity None None None None (Some false) None [] ["ALL"])) no_resources None
           "/dev/termination-log" TerminationMessageReadFile]
        [mkVolume "content" (ClaimVolume pvcName false);
         mkVolume "scratch" (ClaimVolume (ingestScratchPVCName (pcs_ImportName (pc_Source (content_Spec pc)))) true)])) 0 0.

Definition createPublishJob (pc : PartitionContent) (pvcName : string) : go (option GoErr) :=
  let job := buildPublishJob pc pvcName in
  match owned (fun m => job <| job_meta := m |>) job pc with
  | inr err => Ret (Some (wrapf "partitioncontent %q: setting publish job owner reference: %w" [Name pc] err))
  | inl job =>
    r <- Create KJob job ;;
    Ret match r with
        | inl _ => None
        | inr err => if IsAlreadyExists err then None
                     else Some (wrapf "partitioncontent %q: creating publish job %q: %w" [Name pc; Name job] err)
        end
  end.

Definition completePublish (pc : PartitionContent) (pvc : PersistentVolumeClaim) (job : Job) : go reply :=
  r <- readJobResult UnmarshalResult (Namespace pc) job ;;
  match r with
  | inr err => recordFailedMessage pc (sprintf "reading publish result: %s" [emsg err])
  | inl result =>
    if negb (ir_Success result) then recordFailedMessage pc ("publish job reported failure: " +:+ ir_Error result)
    else
    match ir_Publish result with
    | None => recordFailedMessage pc "publish job reported success with no info hash"
    | Some p =>
      if rpub_InfoHash p =s "" then recordFailedMessage pc "publish job reported success with no info hash"
      else
      match ParseInfoHash (rpub_InfoHash p) with
      | inr err => recordFailedMessage pc (sprintf "publish job reported an invalid info hash: %s" [emsg err])
      | inl _ => recordReady pc pvc (rpub_InfoHash p)
      end
    end
  end.

(** ** References *)

Definition imagesReferencing (pc : PartitionContent) : go (list Image + GoErr) :=
  r <- ListField KImage imageContentRefIndex (Name pc) ;;
  Ret match r with
      | inr err => inr err
      | inl images => inl (List.filter (fun i : Image => Namespace i =s Namespace pc) images)
      end.

(** Whether an Image under one of the keys is read as referring to the content;
    [cache] holds the answers found so far. *)
Fixpoint any_references (pc : PartitionContent) (keys : list ObjectKey) (cache : list (ObjectKey * bool))
  : go (bool * list (ObjectKey * bool) + GoErr) :=
  match keys with
  | [] => Ret (inl (false, cache))
  | key :: keys =>
    match find_first (fun x => bool_decide (x.1 = key)) cache with
    | Some (_, true) => Ret (inl (true, cache))
    | Some (_, false) => any_references pc keys cache
    | None =>
      r <- Get KImage key ;;
      match r with
      | inr err => if IsNotFound err then any_references pc keys ((key, false) :: cache) else Ret (inr err)
      | inl img =>
        if imageReferencesContent img (Name pc) then Ret (inl (true, (key, true) :: cache))
        else any_references pc keys ((key, false) :: cache)
      end
    end
  end.

Fixpoint active_from (pc : PartitionContent) (runs : list DeployRun) (cache : list (ObjectKey * bool)) : go (list DeployRun + GoErr) :=
  match runs with
  | [] => Ret (inl [])
  | run :: runs =>
    if negb (isDeployRunActive run) then active_from pc runs cache
    else
    r <- any_references pc (deployRunImageNames run) cache ;;
    match r with
    | inr err => Ret (inr err)
    | inl (refs, cache) =>
      r <- active_from pc runs cache ;;
      Ret match r with inr err => inr err | inl matches => inl (if refs then run :: matches else matches) end
    end
  end.

Definition activeDeployRunsReferencing (pc : PartitionContent) : go (list DeployRun + GoErr) :=
  r <- List_ KRun (Namespace pc) ;;
  match r with
  | inr err => Ret (inr err)
  | inl runs => active_from pc runs []
  end.

(** ** Deletion *)

Definition blockingReferences (pc : PartitionContent) : go (list string + GoErr) :=
  r <- imagesReferencing pc ;;
  match r with
  | inr err => Ret (inr (wrapf "partitioncontent %q: listing referencing images: %w" [Name pc] err))
  | inl images =>
    r <- activeDeployRunsReferencing pc ;;
    Ret match r with
        | inr err => inr (wrapf "partitioncontent %q: listing referencing deploy runs: %w" [Name pc] err)
        | inl runs => inl (sort_by String.ltb (map (fun i : Image => "image/" +:+ Name i) images ++
                                               map (fun r : DeployRun => "deployrun/" +:+ Name r) runs))
        end
  end.

Definition recordDeletionBlocked (pc : PartitionContent) (blockers : list string) : go reply :=
  let message := sprintf "deletion blocked: still referenced by %s" [formatBlockers blockers] in
  record (setPartitionContentDeletionBlockedCondition "ReferencesRemain" message pc) "partitioncontent %q: recording deletion blocked: %w"
    (Event (Name pc) EventTypeWarning "PartitionContentDeletionBlocked" message) (requeueAfter deletionBlockRequeueInterval).

Definition deletePublishJob (pc : PartitionContent) : go (option GoErr) :=
  r <- publishJobFor pc ;;
  match r with
  | inr err => Ret (Some err)
  | inl None => Ret None
  | inl (Some job) =>
    err <- Delete KJob (key_of job) ;;
    Ret match err with
        | Some err => if IsNotFound err then None
                      else Some (wrapf "partitioncontent %q: deleting publish job %q: %w" [Name pc; Name job] err)
        | None => None
        end
  end.

Definition onDelete (pc : PartitionContent) : go reply :=
  if negb (ContainsFinalizer (Finalizers pc) PartitionContentFinalizer) then Ret (noRequeue, None)
  else
  r <- blockingReferences pc ;;
  match r with
  | inr err => Ret (noRequeue, Some err)
  | inl (b :: bs) => recordDeletionBlocked pc (b :: bs)
  | inl [] =>
    err <- deletePublishJob pc ;;
    match err with
    | Some err => Ret (noRequeue, Some err)
    | None =>
      let pc := pc <| content_meta := (content_meta pc) <| Finalizers := (RemoveFinalizer (Finalizers pc) PartitionContentFinalizer).1 |> |> in
      r <- Update KContent pc ;;
      Ret match r with
          | inr err => (noRequeue, Some (wrapf "partitioncontent %q: removing finalizer: %w" [Name pc] err))
          | inl _ => (noRequeue, None)
          end
    end
  end.

(** ** Demand and seeders *)

Definition hasLiveClaimReferencing (image : Image) : go (bool + GoErr) :=
  r <- ListField KClaim claimImageRefIndex (objectKeyIndexString (key_of image)) ;;
  Ret match r with inr err => inr err | inl claims => inl (anyLiveClaim claims) end.

Fixpoint any_claimed (pc : PartitionContent) (images : list Image) : go (bool + GoErr) :=
  match images with
  | [] => Ret (inl false)
  | image :: images =>
    r <- hasLiveClaimReferencing image ;;
    match r with
    | inr err => Ret (inr (wrapf "partitioncontent %q: listing claims referencing image %q: %w" [Name pc; Name image] err))
    | inl true => Ret (inl true)
    | inl false => any_claimed pc images
    end
  end.

Definition resolveSeedDemand (pc : PartitionContent) : go (bool + GoErr) :=
  r <- imagesReferencing pc ;;
  match r with
  | inr err => Ret (inr (wrapf "partitioncontent %q: listing referencing images: %w" [Name pc] err))
  | inl images =>
    r <- any_claimed pc images ;;
    match r with
    | inr err => Ret (inr err)
    | inl true => Ret (inl true)
    | inl false =>
      r <- activeDeployRunsReferencing pc ;;
      Ret match r with
          | inr err => inr (wrapf "partitioncontent %q: listing referencing deploy runs: %w" [Name pc] err)
          | inl runs => inl (negb (length runs =? 0)%nat)
          end
    end
  end.

Fixpoint put_images (pc : PartitionContent) (images : list Image) (l : machine_map) : go (machine_map + GoErr) :=
  match images with
  | [] => Ret (inl l)
  | image :: images =>
    r <- machinesReferencingImage (key_of image) ;;
    match r with
    | inr err => Ret (inr (wrapf "partitioncontent %q: listing machines referencing image %q: %w" [Name pc; Name image] err))
    | inl live => put_images pc images (put_all live l)
    end
  end.

Definition demandMachinesForContent (pc : PartitionContent) (images : list Image) : go (machine_map + GoErr) :=
  r <- put_images pc images [] ;;
  match r with
  | inr err => Ret (inr err)
  | inl seen =>
    r <- activeDeployRunsReferencing pc ;;
    match r with
    | inr err => Ret (inr (wrapf "partitioncontent %q: listing referencing deploy runs: %w" [Name pc] err))
    | inl runs => seen <- put_runs runs seen ;; Ret (inl seen)
    end
  end.

Record seederSiteFindings := mkFindings {
  sf_sites : list PartitionContentSeederSite; sf_demandBySite : gmap string seederSiteDemand; sf_noSeederSites : list string }.

Definition serves (dep : Deployment) : bool := bool_decide (DeletionTimestamp dep = None) && (0 <? dep_AvailableReplicas dep).

Fixpoint available_sites (pc : PartitionContent) (images : list Image) (available : gset string) : go (gset string + GoErr) :=
  match images with
  | [] => Ret (inl available)
  | image :: images =>
    r <- listImageSeederDeployments image ;;
    match r with
    | inr err => Ret (inr (wrapf "partitioncontent %q: listing seeder deployments for image %q: %w" [Name pc; Name image] err))
    | inl deps => available_sites pc images (available ∪ dom (filter (fun x => serves x.2 = true) deps))
    end
  end.

Definition seeder_sites (available : gset string) (demand : gmap string seederSiteDemand) : list PartitionContentSeederSite :=
  map (fun site => mkSeederSite site (int32 (match demand !! site with Some d => sd_count d | None => 0 end)))
    (sorted_sites available).

Definition collectSeederSites (pc : PartitionContent) (images : list Image) : go (seederSiteFindings + GoErr) :=
  r <- demandMachinesForContent pc images ;;
  match r with
  | inr err => Ret (inr err)
  | inl machines =>
    '(demand, noSeederSites) <- seederDemandBySite ranged machines ;;
    r <- available_sites pc images ∅ ;;
    Ret match r with
        | inr err => inr err
        | inl available => inl (mkFindings (seeder_sites available demand) demand noSeederSites)
        end
  end.

(** The causes, each a reason and a message. *)
Definition degraded_causes (findings : seederSiteFindings) : list (string * string) :=
  let causes :=
    (if negb (bool_decide (sf_demandBySite findings = ∅)) && negb (seeder_ready Seeder) then
       [("SeederImageUnconfigured", "no seeder image is configured on the manager (PARTITIONCONTENT_SEEDER_IMAGE); seeding is demanded but no seeder Deployment can be created until it is set")]
     else []) ++
    (match sf_noSeederSites findings with
     | [] => []
     | sites => [("SeederSubnetRefUnset", sprintf "Site.spec.seederSubnetRef is unset for site(s) %s; no seeder Deployment is created there, so machines there cannot build a deploy plan for this content until it is set" [concat ", " sites])]
     end) in
  match causes with
  | [] => [("SeederUnavailable", "seeding is demanded but no Site has a seeder deployment with an available replica yet")]
  | _ => causes
  end.

Definition recordSeederUnavailable (pc : PartitionContent) (findings : seederSiteFindings) : PartitionContent :=
  match degraded_causes findings with
  | [(reason, message)] => setPartitionContentSeederDegradedCondition ConditionTrue reason message pc
  | causes => setPartitionContentSeederDegradedCondition ConditionTrue "SeederDegraded" (concat "; " (map snd causes)) pc
  end.

Definition recordSeederStatus (pc : PartitionContent) (findings : seederSiteFindings) (demand : bool) : go reply :=
  let pc := pc <| content_Status := (content_Status pc) <| pc_Seeders := sf_sites findings |> |> in
  let pc :=
    if negb demand then
      pc <| content_Status := (content_Status pc) <| pc_Conditions :=
        RemoveStatusCondition (pc_Conditions (content_Status pc)) PartitionContentConditionSeederDegraded |> |>
    else if negb (length (sf_sites findings) =? 0)%nat then
      setPartitionContentSeederDegradedCondition ConditionFalse "SeederAvailable"
        "at least one Site has a seeder deployment with an available replica" pc
    else recordSeederUnavailable pc findings in
  record pc "partitioncontent %q: recording seeder status: %w" (Ret tt) noRequeue.

Definition reconcileSeeder (pc : PartitionContent) : go reply :=
  r <- imagesReferencing pc ;;
  match r with
  | inr err => Ret (noRequeue, Some (wrapf "partitioncontent %q: listing referencing images: %w" [Name pc] err))
  | inl images =>
    r <- resolveSeedDemand pc ;;
    match r with
    | inr err => Ret (noRequeue, Some err)
    | inl demand =>
      r <- collectSeederSites pc images ;;
      match r with
      | inr err => Ret (noRequeue, Some err)
      | inl findings => recordSeederStatus pc findings demand
      end
    end
  end.

(** ** The reconciler *)

Definition onChange (pc : PartitionContent) : go reply :=
  r <- ensureContentPVC pc ;;
  match r with
  | inr err => Ret (noRequeue, Some err)
  | inl pvc =>
    let pc := setPartitionContentValidCondition pc in
    if pc_State (content_Status pc) =s PartitionContentStateReady then reconcileSeeder pc
    else
    r <- publishJobFor pc ;;
    match r with
    | inr err => Ret (noRequeue, Some err)
    | inl None =>
      if negb (publish_ready Publish) then recordPending pc pvc
      else
      err <- createPublishJob pc (Name pvc) ;;
      match err with
      | Some err => Ret (noRequeue, Some err)
      | None => recordPublishing pc pvc
      end
    | inl (Some job) =>
      match outcomeOf job with
      | jobSucceeded => completePublish pc pvc job
      | jobFailed => recordFailed pc job
      | jobRunning => recordPublishing pc pvc
      end
    end
  end.

Definition Reconcile (key : ObjectKey) : go reply :=
  r <- Get KContent key ;;
  match r with
  | inr err => Ret (noRequeue, if IsNotFound err then None else Some err)
  | inl pc =>
    let pc : PartitionContent := pc in
    match DeletionTimestamp pc with
    | Some _ => onDelete pc
    | None =>
      if negb (ContainsFinalizer (Finalizers pc) PartitionContentFinalizer) then
        let pc := pc <| content_meta := (content_meta pc) <| Finalizers := (AddFinalizer (Finalizers pc) PartitionContentFinalizer).1 |> |> in
        r <- Update KContent pc ;;
        Ret match r with inr err => (noRequeue, Some err) | inl _ => (requeue, None) end
      else onChange pc
    end
  end.

(** ** Watches *)

Definition mapImageToPartitionContents (image : Image) : list ObjectKey := map (mkKey (Namespace image)) (imageContentRefNames image).

Fixpoint requests_from (refs : list ObjectKey) : go (list ObjectKey) :=
  match refs with
  | [] => Ret []
  | ref :: refs =>
    r <- Get KImage ref ;;
    rest <- requests_from refs ;;
    Ret match r with inr _ => rest | inl image => mapImageToPartitionContents image ++ rest end
  end.

Definition imageRefsToPartitionContentRequests (refs : list ObjectKey) : go (list ObjectKey) :=
  keys <- requests_from refs ;; Ret (dedup_keys [] keys).

Definition mapMachineToPartitionContents (machine : Machine) : go (list ObjectKey) :=
  r <- machineClaimImageRefs machine ;;
  match r with inr _ => Ret [] | inl refs => imageRefsToPartitionContentRequests refs end.
Definition mapMachineClaimToPartitionContents (claim : MachineClaim) : go (list ObjectKey) :=
  imageRefsToPartitionContentRequests (claimImageRefs claim).
Definition mapDeployRunToPartitionContents (run : DeployRun) : go (list ObjectKey) :=
  imageRefsToPartitionContentRequests (deployRunImageNames run).

Definition mapSeederDeploymentToPartitionContents (dep : Deployment) : go (list ObjectKey) :=
  if default "" (Labels dep !! partitionContentAppComponentLabel) <>s partitionContentSeederComponentValue then Ret []
  else
  match find_first (fun o => or_Kind o =s "Image") (OwnerReferences dep) with
  | None => Ret []
  | Some owner =>
    if or_Name owner =s "" then Ret []
    else
    r <- Get KImage (mkKey (Namespace dep) (or_Name owner)) ;;
    Ret match r with inr _ => [] | inl image => mapImageToPartitionContents image end
  end.

(** The predicates of the watches. *)
Definition deployRunDemandPredicate (old new : DeployRun) : bool := Phase (run_Status old) <>s Phase (run_Status new).
Definition claimDeletionTimestampSetPredicate (old new : MachineClaim) : bool :=
  bool_decide (DeletionTimestamp old = None) && negb (bool_decide (DeletionTimestamp new = None)).
End Reconciler.
