(* ===== verification/ContentSafety.v ===== *)
(** * ContentSafety: what the PartitionContent reconciler may write

    A monitor over the calls of [Contents]: it remembers what a run has read,
    and states what the run may write then.  The theorems are about every run,
    whatever the API server answers. *)

From S2P Require Import Prelude Text Api Effects Workloads Cluster Store Machine SiteDerive PlanBuild Subnets SeedDemand Contents PlanSafety.
Local Open Scope string_scope.
Local Open Scope list_scope.
Local Open Scope Z_scope.

Section Guard.
Context `{ApiMachinery} (hex_sha256 : string -> string) (UnmarshalResult : string -> IngestResult + GoErr).
Context (ranged : machine_map -> machine_map) (Publish : PartitionContentPublishConfig) (Seeder : ImageSeederConfig).

Abbreviation reconcile := (Reconcile hex_sha256 UnmarshalResult ranged Publish Seeder).

(** What a run has seen: the content, the Images listed as referring to it, the
    runs, the Image keys read as not referring to it, the publish Job or its
    absence, and the pods listed with a label selector. *)
Record seen := mkSeen {
  s_pc : option PartitionContent; s_images : option (list Image); s_runs : option (list DeployRun); s_clear : list ObjectKey;
  s_job : option (option Job); s_pods : option (gmap string string * list Pod) }.

#[local] Instance eta_seen : Eta seen := fun r => mkSeen (s_pc r) (s_images r) (s_runs r) (s_clear r) (s_job r) (s_pods r).

Definition nothing : seen := mkSeen None None None [] None None.

Definition look (s : seen) (e : eff) : resp e -> seen :=
  match e return resp e -> seen with
  | EGet KContent _ => fun r => match r with inl pc => s <| s_pc := Some pc |> | inr _ => s end
  | EListField KImage _ _ => fun r => match r with inl l => s <| s_images := Some l |> | inr _ => s end
  | EList KRun _ => fun r => match r with inl l => s <| s_runs := Some l |> | inr _ => s end
  | EGet KImage key => fun r =>
      let clear := match r, s_pc s with
                   | inl img, Some pc => negb (imageReferencesContent img (Name pc))
                   | inl _, None => false
                   | inr err, _ => IsNotFound err
                   end in
      if clear then s <| s_clear := key :: s_clear s |> else s
  | EGet KJob _ => fun r =>
      match r with
      | inl job => s <| s_job := Some (Some job) |>
      | inr err => if IsNotFound err then s <| s_job := Some (@None Job) |> else s
      end
  | EDelete KJob _ => fun r =>
      match r with
      | None => s <| s_job := Some (@None Job) |>
      | Some err => if IsNotFound err then s <| s_job := Some (@None Job) |> else s
      end
  | EListLabels KPod _ labels => fun r => match r with inl l => s <| s_pods := Some (labels, l) |> | inr _ => s end
  | _ => fun _ => s
  end.

(** No Image of the content's namespace is listed as referring to it, and every
    Image an active run names was read as absent or as not referring to it. *)
Definition unreferenced (s : seen) (pc : PartitionContent) : Prop :=
  exists images runs, s_images s = Some images /\ s_runs s = Some runs /\
    Forall (fun i : Image => Namespace i <> Namespace pc) images /\
    Forall (fun run => isDeployRunActive run = true -> Forall (fun key => key ∈ s_clear s) (deployRunImageNames run)) runs.

(** The publish Job that was read succeeded, and a pod of it reported this info hash. *)
Definition earned (s : seen) (infoHash : string) : Prop :=
  exists job pods message result p hash, s_job s = Some (Some job) /\ outcomeOf job = jobSucceeded /\
    s_pods s = Some ({["job-name" := Name job]}, pods) /\ termination_message pods = Some message /\
    UnmarshalResult message = inl result /\ ir_Success result = true /\ ir_Publish result = Some p /\
    rpub_InfoHash p = infoHash /\ ParseInfoHash infoHash = inl hash.

(** The status written over that of the content that was read. *)
Definition status_step (s : seen) (pc : PartitionContent) (st : PartitionContentStatus) : Prop :=
  let old := content_Status pc in
  let kept := pc_State st = pc_State old /\ pc_InfoHash st = pc_InfoHash old /\ pc_PVCRef st = pc_PVCRef old in
  match DeletionTimestamp pc with
  | Some _ => kept /\ pc_Seeders st = pc_Seeders old
  | None =>
    if pc_State old =s PartitionContentStateReady then kept
    else pc_Seeders st = pc_Seeders old /\
      ((pc_State st ∈ [PartitionContentStatePending; PartitionContentStatePublishing; PartitionContentStateFailed] /\
        pc_InfoHash st = pc_InfoHash old) \/
       (pc_State st = PartitionContentStateReady /\ earned s (pc_InfoHash st)))
  end.

Definition same_finalizers_but (pc pc' : PartitionContent) (fs : list string) : Prop :=
  pc' = pc <| content_meta := (content_meta pc) <| Finalizers := fs |> |>.

Definition permitted (s : seen) (e : eff) : Prop :=
  match e with
  | EUpdate KContent pc' => exists pc, s_pc s = Some pc /\
      match DeletionTimestamp pc with
      | None => same_finalizers_but pc pc' (AddFinalizer (Finalizers pc) PartitionContentFinalizer).1
      | Some _ => same_finalizers_but pc pc' (RemoveFinalizer (Finalizers pc) PartitionContentFinalizer).1 /\
          unreferenced s pc /\ s_job s = Some None
      end
  | EStatusApply KContent pc' => exists pc, s_pc s = Some pc /\ content_meta pc' = content_meta pc /\
      content_Spec pc' = content_Spec pc /\ status_step s pc (content_Status pc')
  | ECreate KPVC pvc => exists pc, s_pc s = Some pc /\ DeletionTimestamp pc = None /\
      key_of (pvc : PersistentVolumeClaim) = mkKey (Namespace pc) (PVCName (Name pc))
  | ECreate KJob job => exists pc, s_pc s = Some pc /\ DeletionTimestamp pc = None /\ publish_ready Publish = true /\
      pc_State (content_Status pc) <> PartitionContentStateReady /\ s_job s = Some None /\
      key_of (job : Job) = mkKey (Namespace pc) (publishJobName hex_sha256 (Name pc))
  | EDelete KJob key => exists pc job, s_pc s = Some pc /\ DeletionTimestamp pc <> None /\ unreferenced s pc /\
      s_job s = Some (Some job) /\ key = key_of job
  | _ => is_write e = false
  end.

Definition guard : monitor resp seen := mkMonitor permitted (fun _ _ _ => True) look.

(** Reads that leave the content, and those that leave the Job too. *)
Definition reads (e : eff) : Prop := is_write e = false /\ match e with EGet KContent _ => False | _ => True end.

Lemma content_reads_permitted s e : reads e -> permitted s e.
Proof. intros [He _]. by destruct e as [[]|[]|[]|[]|[]|[]|[]|[]|[]|[]|[]|[]| | | | | | | | | | | | | | | | |]. Qed.

Lemma look_content s e r : reads e -> s_pc (look s e r) = s_pc s.
Proof.
  intros [Hw He]. destruct e as [[] ?|[] ?|[] ? ?|[] ? ?|[]|[]|[]|[]|[]|[]|[]|[]| | | | | | | | | | | | | | | | |]; cbn in *; try done;
    destruct r as [x|x]; cbn; repeat case_match; done.
Qed.

(** A part of the reconciler that reads. *)
Lemma content_reading {A} (p : go A) s pc (Q : A -> Prop) : calls reads p -> answers p Q -> s_pc s = Some pc ->
  wp guard p s (fun a s' => Q a /\ s_pc s' = Some pc).
Proof.
  intros Hc Ha Hs. apply (wp_inv guard (fun s => s_pc s = Some pc) reads); try done.
  - intros ? ? _. apply content_reads_permitted.
  - intros s' e r Hs' He. cbn. by rewrite look_content.
Qed.

Lemma reading_any {A} (p : go A) s pc : calls reads p -> s_pc s = Some pc -> wp guard p s (fun _ s' => s_pc s' = Some pc).
Proof. intros Hc Hs. eapply wp_mono; [by apply (content_reading p s pc (fun _ => True) Hc (answers_any p))|]. by intros ? ? [_ ?]. Qed.

(** ** The parts that only read *)

Ltac read_step := first [progress calls_step | split; [done|exact I]].

Lemma images_read pc : calls reads (imagesReferencing pc).
Proof. unfold imagesReferencing. apply calls_bind; [by repeat calls_step|]. by intros []. Qed.

Lemma any_references_read pc keys cache : calls reads (any_references pc keys cache).
Proof.
  revert cache. induction keys as [|key keys IH]; intros cache; [done|]. cbn [any_references].
  destruct (find_first _ _) as [[? []]|]; [done|apply IH|]. apply calls_bind; [by repeat calls_step|].
  intros [img|err]; [by destruct (imageReferencesContent _ _)|]. by destruct (IsNotFound err).
Qed.

Lemma active_from_read pc runs cache : calls reads (active_from pc runs cache).
Proof.
  revert cache. induction runs as [|run runs IH]; intros cache; [done|]. cbn [active_from].
  destruct (negb _); [apply IH|]. apply calls_bind; [apply any_references_read|]. intros [[refs cache']|err]; [|done].
  apply calls_bind; [apply IH|]. by intros [].
Qed.

Lemma active_runs_read pc : calls reads (activeDeployRunsReferencing pc).
Proof.
  unfold activeDeployRunsReferencing. apply calls_bind; [by repeat calls_step|]. intros [runs|err]; [apply active_from_read|done].
Qed.

Lemma any_claimed_read pc images : calls reads (any_claimed pc images).
Proof.
  induction images as [|i images IH]; [done|]. cbn [any_claimed]. unfold hasLiveClaimReferencing.
  apply calls_bind; [apply calls_bind; [by repeat calls_step|by intros []]|]. by intros [[]|].
Qed.

Lemma demand_read pc : calls reads (resolveSeedDemand pc).
Proof.
  unfold resolveSeedDemand. apply calls_bind; [apply images_read|]. intros [images|err]; [|done].
  apply calls_bind; [apply any_claimed_read|]. intros [[]|]; [done| |done]. apply calls_bind; [apply active_runs_read|]. by intros [].
Qed.

Lemma claim_intent_read m : calls reads (resolveClaimIntent m).
Proof. repeat calls_step; done. Qed.

Lemma demanding_read key ms : calls reads (demanding key ms).
Proof.
  induction ms as [|m ms IH]; [done|]. cbn [demanding]. apply calls_bind.
  - unfold machine_demands. destruct (DeletionTimestamp m); [done|]. apply calls_bind; [apply claim_intent_read|].
    intros [[claim|]|]; [|done..]. destruct (negb _); [done|]. destruct (_ =s _); [|done]. unfold machineDeployPending.
    destruct (isEmptyDeployPayload _); [done|]. destruct (LastSuccessfulRunRef _); [|done].
    apply calls_bind; [by repeat calls_step|]. by intros [].
  - intros [b|err]; [|done]. apply calls_bind; [exact IH|]. by intros [].
Qed.

Lemma put_images_read pc images l : calls reads (put_images pc images l).
Proof.
  revert l. induction images as [|i images IH]; intros l; [done|]. cbn [put_images]. apply calls_bind; [|by intros []].
  unfold machinesReferencingImage. apply calls_bind; [by repeat calls_step|]. intros [ms|err]; [apply demanding_read|done].
Qed.

Lemma put_runs_read runs l : calls reads (put_runs runs l).
Proof.
  revert l. induction runs as [|run runs IH]; intros l; [done|]. cbn [put_runs]. destruct (has_key _ _); [apply IH|].
  apply calls_bind; [by repeat calls_step|]. by intros [].
Qed.

Lemma resolve_read m : calls reads (Resolve m).
Proof. repeat calls_step; done. Qed.

Lemma group_read ms d n : calls reads (group_by_site ms d n).
Proof.
  revert d n. induction ms as [|[k m] ms IH]; intros d n; [done|]. cbn [group_by_site]. apply calls_bind; [apply resolve_read|].
  intros [res|err]; [|apply IH]. destruct (negb _); apply IH.
Qed.

Lemma available_read pc images a : calls reads (available_sites pc images a).
Proof.
  revert a. induction images as [|i images IH]; intros a; [done|]. cbn [available_sites]. apply calls_bind; [|by intros []].
  unfold listImageSeederDeployments. apply calls_bind; [by repeat calls_step|]. by intros [].
Qed.

Lemma sites_read pc images : calls reads (collectSeederSites ranged pc images).
Proof.
  unfold collectSeederSites. apply calls_bind.
  - unfold demandMachinesForContent. apply calls_bind; [apply put_images_read|]. intros [seen|err]; [|done].
    apply calls_bind; [apply active_runs_read|]. intros [runs|err]; [|done]. apply calls_bind; [apply put_runs_read|done].
  - intros [machines|err]; [|done]. apply calls_bind.
    + unfold seederDemandBySite. apply calls_bind; [apply group_read|]. by intros [].
    + intros [d n]. apply calls_bind; [apply available_read|]. by intros [].
Qed.

(** ** Blocking references *)

(** Later in a run, with more Images known not to refer to the content. *)
Definition later (s s' : seen) : Prop := exists keys, s' = s <| s_clear := keys ++ s_clear s |>.
Definition cache_ok (s : seen) (cache : list (ObjectKey * bool)) : Prop := forall key, (key, false) ∈ cache -> key ∈ s_clear s.

Lemma later_refl s : later s s.
Proof. exists []. by destruct s. Qed.
Lemma later_trans s1 s2 s3 : later s1 s2 -> later s2 s3 -> later s1 s3.
Proof. intros [k ->] [k' ->]. exists (k' ++ k). cbn. by rewrite (assoc_L (++)). Qed.
Lemma later_clear s s' key : later s s' -> key ∈ s_clear s -> key ∈ s_clear s'.
Proof. intros [k ->] Hk. apply elem_of_app. by right. Qed.
Lemma later_cache s s' cache : later s s' -> cache_ok s cache -> cache_ok s' cache.
Proof. intros Hl Hc key Hk. by eapply later_clear, Hc. Qed.
Lemma later_pc s s' pc : later s s' -> s_pc s = Some pc -> s_pc s' = Some pc.
Proof. by intros [k ->]. Qed.
#[local] Hint Resolve later_refl later_trans later_clear later_cache later_pc : core.

(** Knowing one more key. *)
Lemma cache_cons s key cache b : cache_ok s cache -> (b = false -> key ∈ s_clear s) -> cache_ok s ((key, b) :: cache).
Proof. intros Hc Hb k [[= -> <-]|Hk]%elem_of_cons; [by apply Hb|by apply Hc]. Qed.

Lemma any_references_guarded pc keys cache s : s_pc s = Some pc -> cache_ok s cache ->
  wp guard (any_references pc keys cache) s (fun r s' => later s s' /\
    match r with
    | inl (refs, cache') => cache_ok s' cache' /\ (refs = false -> Forall (fun key => key ∈ s_clear s') keys)
    | inr _ => True
    end).
Proof.
  revert cache s. induction keys as [|key keys IH]; intros cache s Hs Hc; cbn [any_references]; [by eauto|].
  assert (Hgo : forall cache' s', later s s' -> cache_ok s' cache' -> key ∈ s_clear s' ->
    wp guard (any_references pc keys cache') s' (fun r s'' => later s s'' /\
      match r with
      | inl (refs, c) => cache_ok s'' c /\ (refs = false -> Forall (fun key => key ∈ s_clear s'') (key :: keys))
      | inr _ => True
      end)).
  { intros cache' s' Hl Hc' Hk. eapply wp_mono; [by apply IH; [eauto|]|]. intros [[refs c]|err] s'' [Hl' Hr]; [|by eauto].
    split; [by eauto|]. destruct Hr as [? Hr]. split; [done|]. intros Hrefs. constructor; [by eauto|by apply Hr]. }
  destruct (find_first _ cache) as [[k []]|] eqn:Hf.
  - cbn [wp]. by eauto.
  - apply find_first_Some in Hf as [Hin Hk]. apply bool_decide_eq_true in Hk. cbn in Hk. subst k. apply Hgo; [done..|]. by apply Hc.
  - apply wp_bind. split; [done|]. intros [img|err] _; cbn [wp guard step look]; rewrite ?Hs.
    + destruct (imageReferencesContent img (Name pc)) eqn:Hr; cbn [negb wp].
      * split; [done|]. split; [|done]. by apply cache_cons.
      * assert (Hl : later s (s <| s_clear := key :: s_clear s |>)) by (by exists [key]). apply Hgo; [done| |by left].
        apply cache_cons; [by eauto|]. intros _. by left.
    + destruct (IsNotFound err); cbn [wp]; [|by split].
      assert (Hl : later s (s <| s_clear := key :: s_clear s |>)) by (by exists [key]). apply Hgo; [done| |by left].
      apply cache_cons; [by eauto|]. intros _. by left.
Qed.

Lemma active_from_guarded pc runs cache s : s_pc s = Some pc -> cache_ok s cache ->
  wp guard (active_from pc runs cache) s (fun r s' => later s s' /\
    (r = inl [] -> Forall (fun run => isDeployRunActive run = true -> Forall (fun key => key ∈ s_clear s') (deployRunImageNames run)) runs)).
Proof.
  revert cache s. induction runs as [|run runs IH]; intros cache s Hs Hc; cbn [active_from]; [by split|].
  destruct (isDeployRunActive run) eqn:Hact; cbn [negb].
  - eapply wp_seq; [by apply any_references_guarded|]. intros [[refs cache']|err] s' [Hl Hr]; cbn [wp]; [|done].
    destruct Hr as [Hc' Hr]. eapply wp_seq; [apply IH; eauto|]. intros [matches|err] s'' [Hl' Hm]; cbn [wp]; [|split; [by eauto|done]].
    split; [by eauto|]. destruct refs; [done|]. intros [= ->]. constructor; [|by apply Hm]. intros _.
    eapply Forall_impl; [by apply Hr|]. cbn. eauto.
  - eapply wp_mono; [by apply IH|]. intros r s' [Hl Hm]. split; [done|]. intros ->. constructor; [by rewrite Hact|by apply Hm].
Qed.

Lemma sorted_nil l : sort_by String.ltb l = [] -> l = [].
Proof. intros Hl. pose proof (sort_by_perm String.ltb l) as Hp. rewrite Hl in Hp. by apply Permutation_nil in Hp. Qed.

Lemma filter_empties {A} (f : A -> bool) l : List.filter f l = [] -> Forall (fun x => f x = false) l.
Proof. induction l as [|x l IH]; cbn; [constructor|]. destruct (f x) eqn:Hf; [done|]. intros ?. constructor; auto. Qed.

Lemma images_guarded pc s : s_pc s = Some pc ->
  wp guard (imagesReferencing pc) s (fun r s' =>
    match r with
    | inl refs => exists images, refs = List.filter (fun i : Image => Namespace i =s Namespace pc) images /\ s' = s <| s_images := Some images |>
    | inr _ => s' = s
    end).
Proof. intros Hs. unfold imagesReferencing. apply wp_bind. split; [done|]. intros [images|err] _; cbn [wp guard step look]; eauto. Qed.

Lemma active_runs_guarded pc s : s_pc s = Some pc -> s_clear s = [] ->
  wp guard (activeDeployRunsReferencing pc) s (fun r s' => s_pc s' = Some pc /\ s_images s' = s_images s /\
    (r = inl [] -> exists runs, s_runs s' = Some runs /\
      Forall (fun run => isDeployRunActive run = true -> Forall (fun key => key ∈ s_clear s') (deployRunImageNames run)) runs)).
Proof.
  intros Hs Hc. unfold activeDeployRunsReferencing. apply wp_bind. split; [done|]. intros [runs|err] _; [|by split_and!].
  cbn [guard step look wp]. eapply wp_mono; [by apply active_from_guarded; [|intros key Hk; apply not_elem_of_nil in Hk]|].
  intros r s' [[keys ->] Hact]. split_and!; [done..|]. intros ->. exists runs. split; [done|by apply Hact].
Qed.

Lemma blocking_guarded pc s : s_pc s = Some pc -> s_clear s = [] ->
  wp guard (blockingReferences pc) s (fun r s' => s_pc s' = Some pc /\ (r = inl [] -> unreferenced s' pc)).
Proof.
  intros Hs Hc. unfold blockingReferences. eapply wp_seq; [by apply images_guarded|].
  intros [refs|err] s1; [intros (images & -> & ->)|intros ->; by split].
  eapply wp_seq; [by apply active_runs_guarded|]. intros [active|err] s' (Hs' & Hi & Hact); [|by split].
  split; [done|]. intros [= Hb]. apply sorted_nil, app_eq_nil in Hb as [Hb Hr]. apply map_eq_nil in Hb, Hr. subst active.
  destruct (Hact eq_refl) as (runs & Hr & Hf). exists images, runs. split_and!; [done..| |done].
  eapply Forall_impl; [by apply filter_empties, Hb|]. intros i Hn Heq. cbn in Hn. by rewrite Heq, String.eqb_refl in Hn.
Qed.

(** ** The parts that write *)

Lemma record_guarded pc pc' fmt onSuccess result s : s_pc s = Some pc -> content_meta pc' = content_meta pc ->
  content_Spec pc' = content_Spec pc -> status_step s pc (content_Status pc') -> calls reads onSuccess ->
  wp guard (record pc' fmt onSuccess result) s (fun _ _ => True).
Proof.
  intros Hs Hm Hsp Hst Hc. unfold record, applyPartitionContentStatus. apply wp_bind, wp_bind. split; [exists pc; by split_and!|].
  intros [o|err] _; cbn [wp guard step look]; [|exact I]. apply wp_bind. eapply wp_mono; [by apply (reading_any _ s pc)|].
  intros [] s' _. exact I.
Qed.

(** A content read alive and not Ready. *)
Definition unpublished (pc : PartitionContent) : Prop :=
  DeletionTimestamp pc = None /\ pc_State (content_Status pc) <> PartitionContentStateReady.

Lemma status_step_unpublished s pc st : unpublished pc -> pc_Seeders st = pc_Seeders (content_Status pc) ->
  (pc_State st ∈ [PartitionContentStatePending; PartitionContentStatePublishing; PartitionContentStateFailed] /\
     pc_InfoHash st = pc_InfoHash (content_Status pc)) \/
  (pc_State st = PartitionContentStateReady /\ earned s (pc_InfoHash st)) -> status_step s pc st.
Proof.
  intros [Hd Hn] Hse Hst. unfold status_step. rewrite Hd. destruct (String.eqb_spec (pc_State (content_Status pc)) PartitionContentStateReady); done.
Qed.

Abbreviation validated := (setPartitionContentValidCondition).

Lemma pending_guarded pc pvc s : s_pc s = Some pc -> unpublished pc -> wp guard (recordPending (validated pc) pvc) s (fun _ _ => True).
Proof.
  intros Hs Hu. apply (record_guarded pc); [done..| |done]. apply status_step_unpublished; [done..|]. left. split; [by left|done].
Qed.

Lemma publishing_guarded pc pvc s : s_pc s = Some pc -> unpublished pc -> wp guard (recordPublishing (validated pc) pvc) s (fun _ _ => True).
Proof.
  intros Hs Hu. apply (record_guarded pc); [done..| |done]. apply status_step_unpublished; [done..|]. left. split; [by right; left|done].
Qed.

Lemma failed_guarded pc message s : s_pc s = Some pc -> unpublished pc -> wp guard (recordFailedMessage (validated pc) message) s (fun _ _ => True).
Proof.
  intros Hs Hu. apply (record_guarded pc); [done..| |by repeat calls_step]. apply status_step_unpublished; [done..|].
  left. split; [by right; right; left|done].
Qed.

Lemma ready_guarded pc pvc infoHash s : s_pc s = Some pc -> unpublished pc -> earned s infoHash ->
  wp guard (recordReady (validated pc) pvc infoHash) s (fun _ _ => True).
Proof.
  intros Hs Hu He. apply (record_guarded pc); [done..| |by repeat calls_step]. apply status_step_unpublished; [done..|]. by right.
Qed.

(** Reading the result of a Job that succeeded. *)
Lemma complete_guarded pc pvc job s : s_pc s = Some pc -> unpublished pc -> s_job s = Some (Some job) -> outcomeOf job = jobSucceeded ->
  wp guard (completePublish UnmarshalResult (validated pc) pvc job) s (fun _ _ => True).
Proof.
  intros Hs Hu Hj Ho. unfold completePublish, readJobResult. apply wp_bind, wp_bind. split; [done|].
  intros [pods|err] _; cbn [guard step look]; cbn [wp]; [|by apply failed_guarded].
  destruct (termination_message pods) as [message|] eqn:Hm; cbn [wp]; [|by apply failed_guarded].
  destruct (UnmarshalResult message) as [result|err] eqn:Hr; [|by apply failed_guarded].
  destruct (ir_Success result) eqn:Hsu; cbn [negb]; [|by apply failed_guarded].
  destruct (ir_Publish result) as [p|] eqn:Hp; [|by apply failed_guarded].
  destruct (rpub_InfoHash p =s ""); [by apply failed_guarded|].
  destruct (ParseInfoHash (rpub_InfoHash p)) as [hash|err] eqn:Hh; [|by apply failed_guarded].
  apply ready_guarded; [done..|]. exists job, pods, message, result, p, hash. by split_and!.
Qed.

Lemma pvc_guarded pc s : s_pc s = Some pc -> DeletionTimestamp pc = None ->
  wp guard (ensureContentPVC Publish pc) s (fun _ s' => s_pc s' = Some pc).
Proof.
  intros Hs Hd. unfold ensureContentPVC. apply wp_bind. split; [done|]. intros [existing|err] _; cbn [guard step look]; cbn [wp]; [done|].
  destruct (IsNotFound err); cbn [negb]; [|done]. unfold owned. destruct (SetControllerReference _ _) as [refs|e]; [|done].
  apply wp_bind. split; [|by intros [] _]. exists pc. by split_and!.
Qed.

Lemma job_for_guarded pc s : s_pc s = Some pc ->
  wp guard (publishJobFor hex_sha256 (validated pc)) s (fun r s' => s_pc s' = Some pc /\
    s_images s' = s_images s /\ s_runs s' = s_runs s /\ s_clear s' = s_clear s /\ forall job, r = inl job -> s_job s' = Some job).
Proof.
  intros Hs. unfold publishJobFor. apply wp_bind. split; [done|].
  intros [job|err] _; cbn [guard step look]; cbn [wp]; [split_and!; try done; by intros ? [= <-]|].
  destruct (IsNotFound err); split_and!; try done. by intros ? [= <-].
Qed.

Lemma content_seeder_guarded pc s : s_pc s = Some pc -> DeletionTimestamp pc = None ->
  pc_State (content_Status pc) = PartitionContentStateReady ->
  wp guard (reconcileSeeder ranged Seeder (validated pc)) s (fun _ _ => True).
Proof.
  intros Hs Hd Hr. unfold reconcileSeeder. eapply wp_seq; [by apply reading_any, Hs; apply images_read|].
  intros [images|err] s1 Hs1; [|exact I]. eapply wp_seq; [by apply reading_any, Hs1; apply demand_read|].
  intros [demand|err] s2 Hs2; [|exact I]. eapply wp_seq; [by apply reading_any, Hs2; apply sites_read|].
  intros [findings|err] s3 Hs3; [|exact I]. unfold recordSeederStatus.
  set (pc' := if negb demand then _ else _).
  assert (Hpc : content_meta pc' = content_meta pc /\ content_Spec pc' = content_Spec pc /\ status_step s3 pc (content_Status pc')).
  { assert (Hst : forall st, pc_State st = pc_State (content_Status pc) -> pc_InfoHash st = pc_InfoHash (content_Status pc) ->
      pc_PVCRef st = pc_PVCRef (content_Status pc) -> status_step s3 pc st).
    { intros st ? ? ?. unfold status_step. rewrite Hd, (proj2 (String.eqb_eq _ _) Hr). by split_and!. }
    subst pc'. destruct demand; cbn [negb]; [|split; [done|split; [done|by apply Hst]]].
    destruct (negb _); [split; [done|split; [done|by apply Hst]]|]. unfold recordSeederUnavailable.
    destruct (degraded_causes Seeder findings) as [|[reason message] [|]]; (split; [done|split; [done|by apply Hst]]). }
  destruct Hpc as (? & ? & ?). by apply (record_guarded pc).
Qed.

Lemma content_change_guarded pc s : s_pc s = Some pc -> DeletionTimestamp pc = None ->
  wp guard (onChange hex_sha256 UnmarshalResult ranged Publish Seeder pc) s (fun _ _ => True).
Proof.
  intros Hs Hd. unfold onChange. eapply wp_seq; [by apply pvc_guarded|]. intros [pvc|err] s1 Hs1; [|exact I]. cbv zeta.
  change (pc_State (content_Status (validated pc))) with (pc_State (content_Status pc)).
  destruct (String.eqb_spec (pc_State (content_Status pc)) PartitionContentStateReady) as [Hr|Hr]; [by apply content_seeder_guarded|].
  assert (Hu : unpublished pc) by done.
  eapply wp_seq; [by apply job_for_guarded|]. intros [[job|]|err] s2 (Hs2 & _ & _ & _ & Hj); [|  |exact I].
  - destruct (outcomeOf job) eqn:Ho; [by apply publishing_guarded| |by apply failed_guarded]. eapply complete_guarded; eauto.
  - destruct (publish_ready Publish) eqn:Hp; cbn [negb]; [|by apply pending_guarded].
    eapply wp_seq with (Q := fun _ s' => s_pc s' = Some pc).
    + unfold createPublishJob, owned. destruct (SetControllerReference _ _) as [refs|e]; [|done]. apply wp_bind.
      split; [|by intros [] _]. exists pc. split_and!; try done. by apply Hj.
    + intros [err|] s3 Hs3; [exact I|]. by apply publishing_guarded.
Qed.

Lemma delete_job_guarded pc s : s_pc s = Some pc -> DeletionTimestamp pc <> None -> unreferenced s pc ->
  wp guard (deletePublishJob hex_sha256 pc) s (fun r s' => s_pc s' = Some pc /\ (r = None -> unreferenced s' pc /\ s_job s' = Some None)).
Proof.
  intros Hs Hd Hu. unfold deletePublishJob. eapply wp_seq; [by apply (job_for_guarded pc)|].
  intros [[job|]|err] s1 (Hs1 & Hi & Hr & Hc & Hj); [| |by split].
  - specialize (Hj _ eq_refl). assert (Hu1 : unreferenced s1 pc) by (unfold unreferenced; rewrite Hi, Hr, Hc; exact Hu).
    apply wp_bind. split; [by exists pc, job|]. intros [err|] _; cbn [guard step look]; cbn [wp]; [|by split].
    destruct (IsNotFound err); by split.
  - cbn [wp]. split; [done|]. intros _. split; [|by apply Hj]. unfold unreferenced. rewrite Hi, Hr, Hc. exact Hu.
Qed.

Lemma delete_guarded pc s : s_pc s = Some pc -> s_clear s = [] -> DeletionTimestamp pc <> None ->
  wp guard (onDelete hex_sha256 pc) s (fun _ _ => True).
Proof.
  intros Hs Hc Hd. unfold onDelete. destruct (negb _); [exact I|]. eapply wp_seq; [by apply blocking_guarded|].
  intros [[|b bs]|err] s1 [Hs1 Hu]; [| |exact I].
  - eapply wp_seq; [by apply delete_job_guarded; [..|apply Hu]|]. intros [err|] s2 [Hs2 Hj]; [exact I|]. cbv zeta. apply wp_bind.
    split; [|by intros [] _]. destruct (Hj eq_refl). exists pc. split; [done|]. by destruct (DeletionTimestamp pc).
  - apply (record_guarded pc); [done..| |by repeat calls_step]. unfold status_step. by destruct (DeletionTimestamp pc).
Qed.

Lemma content_Reconcile_guarded key : wp guard (reconcile key) nothing (fun _ _ => True).
Proof.
  unfold Reconcile. apply wp_bind. split; [done|]. intros [pc|err] _; cbn [guard step look]; cbn [wp]; [|exact I].
  destruct (DeletionTimestamp pc) eqn:Hd; [by apply delete_guarded; [..|rewrite Hd]|].
  destruct (negb _); [|by apply content_change_guarded]. cbv zeta. apply wp_bind. split; [|by intros [] _].
  exists pc. split; [done|]. by rewrite Hd.
Qed.

(** C10. What the PartitionContent reconciler writes, in every run and whatever
    the API server answers.  The finalizer of a deleting content is dropped
    only when, in that run, no Image of its namespace was listed as referring to
    it, every Image an active DeployRun names was read as absent or as not
    referring to it, and the publish Job is gone; a Job is deleted only under the
    same conditions.  A Job is created only for a live content that is not Ready
    and has none.  Status writes keep metadata and spec; a Ready content keeps its
    state, info hash and claim, and a content becomes Ready only with the info
    hash that a pod of its succeeded Job reported and that parses. *)
Theorem content_writes_are_guarded key tr1 e r tr2 res
    (Hrun : runs (reconcile key) (tr1 ++ ev e r :: tr2) res) :
  permitted (final guard nothing tr1) e.
Proof.
  assert (Ho : obeys guard nothing (tr1 ++ ev e r :: tr2)) by (eapply wp_obeys; [apply content_Reconcile_guarded|exact Hrun]).
  apply obeys_app in Ho as [Ho _]; [exact Ho|].
  apply (assumes_forall guard (fun _ _ => True)); [done|]. by apply Forall_forall.
Qed.
End Guard.

(** ** Runs do not hold a content on their own *)

Section Blocking.
Context (w : forall e, option (resp e)) (pc : PartitionContent).

(** The index lists every Image that refers to the content, and, as admission
    demands, an Image refers only to contents of its own namespace. *)
Definition indexed : Prop :=
  forall key (img : Image), w (EGet KImage key) = Some (inl img) -> imageReferencesContent img (Name pc) = true ->
    Namespace img = Namespace pc /\
    exists images, w (EListField KImage imageContentRefIndex (Name pc)) = Some (inl images) /\ img ∈ images.

(** The reads a content's deletion makes, with the answers found so far. *)
Definition known (cache : list (ObjectKey * bool)) : Prop :=
  forall key, (key, true) ∈ cache -> exists img : Image, w (EGet KImage key) = Some (inl img) /\ imageReferencesContent img (Name pc) = true.

Lemma any_references_interp keys cache refs cache' : known cache ->
  interp w (any_references pc keys cache) = Some (inl (refs, cache')) ->
  known cache' /\ (refs = true -> exists key (img : Image), w (EGet KImage key) = Some (inl img) /\ imageReferencesContent img (Name pc) = true).
Proof.
  revert cache. induction keys as [|key keys IH]; intros cache Hk; cbn [any_references]; [by intros [= <- <-]|].
  destruct (find_first _ cache) as [[k []]|] eqn:Hf.
  - intros [= <- <-]. split; [done|]. intros _. apply find_first_Some in Hf as [Hin _]. apply Hk in Hin as (img & ? & ?). eauto.
  - by apply IH.
  - rewrite interp_bind. cbn [Get call interp]. destruct (w (EGet KImage key)) as [[img|err]|] eqn:Hw; [| |done].
    + destruct (imageReferencesContent img (Name pc)) eqn:Hr.
      * intros [= <- <-]. split; [|by eauto]. intros k [[= ->]|Hin]%elem_of_cons; [by eauto|by apply Hk].
      * apply IH. intros k [[=]|Hin]%elem_of_cons. by apply Hk.
    + destruct (IsNotFound err); [|done]. apply IH. intros k [[=]|Hin]%elem_of_cons. by apply Hk.
Qed.

Lemma active_from_interp runs cache active : known cache -> interp w (active_from pc runs cache) = Some (inl active) -> active <> [] ->
  exists key (img : Image), w (EGet KImage key) = Some (inl img) /\ imageReferencesContent img (Name pc) = true.
Proof.
  revert cache active. induction runs as [|run runs IH]; intros cache active Hk; cbn [active_from]; [by intros [= <-]|].
  destruct (negb _); [by apply IH|]. rewrite interp_bind.
  destruct (interp w (any_references _ _ _)) as [[[refs cache']|err]|] eqn:Hr; [|done..].
  destruct (any_references_interp _ _ _ _ Hk Hr) as [Hk' Hrefs]. rewrite interp_bind.
  destruct (interp w (active_from _ _ _)) as [[matches|err]|] eqn:Hm; [|done..]. intros [= <-] Hne.
  destruct refs; [by apply Hrefs|]. by eapply IH.
Qed.

(** The DeployRun half of the deletion check adds nothing: against an
    unchanging cluster whose index is complete, a content has a blocking
    reference exactly when an Image of its namespace refers to it.  In
    particular an active DeployRun whose Image has been deleted does not hold
    the content it is deploying. *)
Theorem active_run_never_blocks_alone blockers images
    (Hindex : indexed) (Hb : interp w (blockingReferences pc) = Some (inl blockers))
    (Hi : interp w (imagesReferencing pc) = Some (inl images)) :
  blockers = [] <-> images = [].
Proof.
  unfold blockingReferences in Hb. rewrite interp_bind, Hi, interp_bind in Hb.
  destruct (interp w (activeDeployRunsReferencing pc)) as [[active|err]|] eqn:Ha; [|done..].
  cbn [interp] in Hb. assert (Hbl : blockers = sort_by String.ltb (map (fun i : Image => "image/" +:+ Name i) images ++
    map (fun r : DeployRun => "deployrun/" +:+ Name r) active)) by congruence. clear Hb. split.
  - intros ->. symmetry in Hbl. apply sorted_nil, app_eq_nil in Hbl as [Hm _]. by apply map_eq_nil in Hm.
  - intros ->. assert (active = []) as ->; [|done]. destruct (decide (active = [])) as [|Hne]; [done|]. exfalso.
    unfold activeDeployRunsReferencing in Ha. rewrite interp_bind in Ha. cbn [List_ call interp] in Ha.
    destruct (w (EList KRun (Namespace pc))) as [[runs|err]|]; [|done..].
    destruct (active_from_interp runs [] active) as (key & img & Hw & Hr); [|done..|].
    { intros k Hk. by apply not_elem_of_nil in Hk. }
    destruct (Hindex key img Hw Hr) as (Hns & all & Hall & Hin). unfold imagesReferencing in Hi. rewrite interp_bind in Hi.
    cbn [ListField call interp] in Hi. rewrite Hall in Hi. injection Hi as Hi. apply filter_empties in Hi. rewrite Forall_forall in Hi.
    specialize (Hi img Hin). cbn in Hi. by rewrite Hns, String.eqb_refl in Hi.
Qed.
End Blocking.

(** ** Witnesses *)

Module Sample.
#[local] Existing Instance SimpleMeta.ops.

(** A content that is being deleted while a run of its deleted Image is active. *)
Definition deleting : PartitionContent :=
  mkContent (mkObjectMeta "esp" "ns" "uid" "1" 1 0 (Some 5) [PartitionContentFinalizer] ∅ ∅ [])
    (mkContentSpec "vfat" 0 1024 0 0 (mkContentSource "import" 1))
    (mkContentStatus PartitionContentStateReady "0123456789abcdef0123456789abcdef01234567" None [] []).

Definition active_run : DeployRun :=
  mkRun (Demo.meta "run" ∅) (mkRunSpec (mkNameRef "" "m1") None (Some (mkNameRef "" "gone")) None [] "")
    (mkRunStatus DeployRunPhaseWritingContent [] [] None []).

Definition cluster (e : eff) : option (resp e) :=
  match e return option (resp e) with
  | EGet KContent _ => Some (inl deleting)
  | EGet _ _ => Some (inr Demo.not_found)
  | EListField KImage _ _ => Some (inl [])
  | EList KRun _ => Some (inl [active_run])
  | EUpdate _ o => Some (inl o)
  | _ => None
  end.

Definition handler (e : eff) (u : unit) : option (resp e * unit) := (fun r => (r, u)) <$> cluster e.

Definition no_result (s : string) : IngestResult + GoErr := inr (errorf "not JSON" []).
Definition publish_cfg : PartitionContentPublishConfig := mkPublishConfig "ingest:1" "" "" [] 0.
Definition seeder_cfg : ImageSeederConfig := mkSeederConfig "" 0 0 0.
Definition prog : go reply := Reconcile (fun s => s) no_result (fun l => l) publish_cfg seeder_cfg (mkKey "ns" "esp").
Definition run_trace : trace resp := match exec handler prog tt with Some (_, _, tr) => tr | None => [] end.
End Sample.

Lemma content_writes_are_guarded_witness :
  exists pc r tr1, Sample.run_trace = tr1 ++ [ev (EUpdate KContent pc) r] /\ Finalizers pc = [] /\
    permitted (H := SimpleMeta.ops) (fun s => s) Sample.no_result Sample.publish_cfg
      (final (guard (H := SimpleMeta.ops) (fun s => s) Sample.no_result Sample.publish_cfg) nothing tr1) (EUpdate KContent pc).
Proof.
  assert (Hrun : exists res, runs Sample.prog Sample.run_trace res).
  { eexists. eapply (exec_runs Sample.handler _ tt _ tt). vm_compute. reflexivity. }
  destruct Hrun as [res Hrun].
  assert (Hsplit : exists pc r, Sample.run_trace = firstn 5 Sample.run_trace ++ [ev (EUpdate KContent pc) r] /\ Finalizers pc = []).
  { do 2 eexists. split; [vm_compute; reflexivity|reflexivity]. }
  destruct Hsplit as (pc & r & Hs & Hf). exists pc, r, (firstn 5 Sample.run_trace). split; [exact Hs|]. split; [exact Hf|].
  apply (content_writes_are_guarded (H := SimpleMeta.ops) (fun s => s) Sample.no_result (fun l => l) Sample.publish_cfg
    Sample.seeder_cfg (mkKey "ns" "esp") (firstn 5 Sample.run_trace) (EUpdate KContent pc) r [] res).
  rewrite <- Hs. exact Hrun.
Defined.

Lemma active_run_never_blocks_alone_witness :
  isDeployRunActive Sample.active_run = true /\
  interp Sample.cluster (blockingReferences Sample.deleting) = Some (inl []) /\ (@nil string = [] <-> @nil Image = []).
Proof.
  split; [reflexivity|]. split; [vm_compute; reflexivity|].
  apply (active_run_never_blocks_alone Sample.cluster Sample.deleting); [|vm_compute; reflexivity|reflexivity].
  intros key img Hw. discriminate Hw.
Defined.

(** Two Machines of one Site, one of them listed twice under its key. *)
Definition one_site (e : eff) : option (resp e) :=
  match e return option (resp e) with
  | EGet KSubnet _ => Some (inl PlanSafety.Sample.subnet)
  | EGet KSite _ => Some (inl PlanSafety.Sample.site)
  | _ => None
  end.

Definition demo_machine : Machine := Demo.machine ∅ (Demo.status MachineStateAvailable).
Definition two_machines : machine_map := put_all [demo_machine; demo_machine] [(mkKey "ns" "m2", demo_machine)].

Lemma demand_counts_machines_witness :
  exists demand, interp one_site (seederDemandBySite (@rev _) two_machines) = Some (demand, []) /\ count_at demand "ns/site" = 2.
Proof.
  destruct (demand_counts_machines one_site (@rev _) two_machines) as (demand & sites & Hi & Hc & _).
  - intros m. eexists. reflexivity.
  - intros l. symmetry. apply Permutation_rev.
  - exists demand. assert (Hs : sites = []) by (vm_compute in Hi; by injection Hi as _ <-). subst sites.
    split; [exact Hi|]. rewrite Hc. vm_compute. reflexivity.
Defined.
