(* ===== verification/Images.v ===== *)
(** * Images: the Image reconciler

    [src/internal/controller/image_*.go]: the aggregation of slot contents into
    an Image's readiness, the owner references on contents, and the seeder
    Deployments of a Ready Image, one per Site: creation on demand, drift,
    readiness and the grace period before deletion.

    An object that a write goes through is afterwards what the server returned.
    The order in which Go ranges over the Sites, the text of times and the digest
    are parameters. *)

From S2P Require Import Prelude Text Api Effects Workloads Cluster Store Machine AgentDeployer SiteDerive PlanBuild PostHooks Subnets SeedDemand Contents.
Local Open Scope string_scope.
Local Open Scope list_scope.
Local Open Scope Z_scope.

Definition imageStaleContentRequeueInterval : Z := 5 * Second.
Definition imageSeederInstanceLabel : string := "kezio.kojuro.date/seeder-instance".
Definition imageSeederEmptySinceAnnotation : string := "kezio.kojuro.date/seeder-empty-since".
Definition imageSeederUnreadySinceAnnotation : string := "kezio.kojuro.date/seeder-unready-since".
Definition multusDefaultNetworkAnnotation : string := "v1.multus-cni.io/default-network".
Definition EzioGRPCPort : Z := 50051.
Definition EzioBTPort : Z := 16881.
Definition TorrentHealthzPath : string := "/healthz".

(** ** Slot contents *)

Record slotContentAggregation := mkAggregation {
  agg_stale : bool; agg_failed : list string; agg_notReady : list string; agg_invalidSizes : list string }.

#[export] Instance eta_slotContentAggregation : Eta slotContentAggregation := fun r =>
  mkAggregation (agg_stale r) (agg_failed r) (agg_notReady r) (agg_invalidSizes r).

Definition slot_key (image : Image) (ref : NameRef) : ObjectKey := ref_key (Namespace image) ref.

(** One slot whose content was read. *)
Definition add_content `{ApiMachinery} (slot : ImageSlot) (ref : NameRef) (content : PartitionContent) (agg : slotContentAggregation)
  : slotContentAggregation :=
  let number := show_dec (is_Number slot) in
  let agg := if negb (is_SizeBytes slot =? 0) && (is_SizeBytes slot <? pc_LastExtentEnd (content_Spec content)) then
      agg <| agg_invalidSizes := agg_invalidSizes agg ++
        [sprintf "slot %d: sizeBytes (%d) is smaller than PartitionContent %q lastExtentEnd (%d)"
           [number; show_dec (is_SizeBytes slot); nr_Name ref; show_dec (pc_LastExtentEnd (content_Spec content))]] |>
    else agg in
  match FindStatusCondition (pc_Conditions (content_Status content)) PartitionContentConditionReady with
  | None => agg <| agg_notReady := agg_notReady agg ++ [sprintf "slot %d: PartitionContent %q has no Ready condition yet" [number; nr_Name ref]] |>
  | Some cond =>
    if conditionObservedGenerationStale (Some cond) (Generation content) then agg <| agg_stale := true |>
    else if pc_State (content_Status content) =s PartitionContentStateFailed then
      agg <| agg_failed := agg_failed agg ++ [sprintf "slot %d: PartitionContent %q failed" [number; nr_Name ref]] |>
    else if cd_Status cond <>s ConditionTrue then
      agg <| agg_notReady := agg_notReady agg ++ [sprintf "slot %d: PartitionContent %q not Ready (%s)" [number; nr_Name ref; cd_Reason cond]] |>
    else agg
  end.

Fixpoint aggregate_slots `{ApiMachinery} (image : Image) (slots : list ImageSlot) (agg : slotContentAggregation)
  : go (slotContentAggregation + GoErr) :=
  match slots with
  | [] => Ret (inl agg)
  | slot :: slots =>
    match is_ContentRef slot with
    | None => aggregate_slots image slots agg
    | Some ref =>
      r <- Get KContent (slot_key image ref) ;;
      match r with
      | inr err =>
        if IsNotFound err then
          aggregate_slots image slots (agg <| agg_notReady := agg_notReady agg ++
            [sprintf "slot %d: PartitionContent %q not found" [show_dec (is_Number slot); nr_Name ref]] |>)
        else Ret (inr (wrapf "image %q: getting PartitionContent %q for slot %d: %w"
                         [Name image; nr_Name ref; show_dec (is_Number slot)] err))
      | inl content => aggregate_slots image slots (add_content slot ref content agg)
      end
    end
  end.

Definition aggregateSlotContents `{ApiMachinery} (image : Image) : go (slotContentAggregation + GoErr) :=
  aggregate_slots image (lay_Slots (img_Layout (image_Spec image))) (mkAggregation false [] [] []).

(** ** Owner references *)

Definition hasOwnerReference (content : PartitionContent) (owner : ObjectMeta) : bool :=
  existsb (fun ref => or_UID ref =s UID owner) (OwnerReferences content).

Fixpoint own_slots `{ApiMachinery} (image : Image) (slots : list ImageSlot) : go (option GoErr) :=
  match slots with
  | [] => Ret None
  | slot :: slots =>
    match is_ContentRef slot with
    | None => own_slots image slots
    | Some ref =>
      r <- Get KContent (slot_key image ref) ;;
      match r with
      | inr err =>
        if IsNotFound err then own_slots image slots
        else Ret (Some (wrapf "image %q: getting PartitionContent %q for owner reference: %w" [Name image; nr_Name ref] err))
      | inl content =>
        let content : PartitionContent := content in
        if hasOwnerReference content image then own_slots image slots
        else
        match SetOwnerReference (OwnerReferences content) image with
        | inr err => Ret (Some (wrapf "image %q: setting owner reference on PartitionContent %q: %w" [Name image; Name content] err))
        | inl refs =>
          r <- Patch KContent content (content <| content_meta := set_owners refs (content_meta content) |>) ;;
          match r with
          | inr err => Ret (Some (wrapf "image %q: patching PartitionContent %q owner reference: %w" [Name image; Name content] err))
          | inl _ => own_slots image slots
          end
        end
      end
    end
  end.

Definition ensureContentOwnerRefs `{ApiMachinery} (image : Image) : go (option GoErr) :=
  own_slots image (lay_Slots (img_Layout (image_Spec image))).

(** ** Status *)

#[export] Instance Condition_eq_dec : EqDecision Condition.
Proof. solve_decision. Defined.

Section Status.
Context `{ApiMachinery}.

Definition image_condition (type status reason message : string) (image : Image) : Image :=
  image <| image_Status := (image_Status image) <| img_Conditions :=
    SetStatusCondition (img_Conditions (image_Status image)) (mkCondition type status (Generation image) reason message) |> |>.

Definition setImageReadyCondition := image_condition ImageConditionReady.

Definition setImageValidCondition (valid : bool) (problems : list string) (image : Image) : Image :=
  if valid then image_condition ImageConditionValid ConditionTrue "SlotSizesOK"
    "every contentRef slot's declared sizeBytes fits its content's lastExtentEnd" image
  else image_condition ImageConditionValid ConditionFalse "SlotSizeTooSmall" (boundedMessage problems) image.

(** The Image as the server returned it, or the error. *)
Definition applyImageStatus (image : Image) : go (Image + GoErr) := StatusApply KImage image.

Definition image_state (state : string) (image : Image) : Image :=
  image <| image_Status := (image_Status image) <| img_State := state |> |>.

Definition recordImageReady (image : Image) : go (Image + GoErr) :=
  r <- applyImageStatus (setImageReadyCondition ConditionTrue "ContentReady" "every referenced PartitionContent is Ready"
         (image_state ImageStateReady image)) ;;
  Ret match r with inr err => inr (wrapf "image %q: recording Ready: %w" [Name image] err) | inl image => inl image end.

Definition record_image (state reason : string) (items : list string) (fmt : string) (image : Image) : go reply :=
  r <- applyImageStatus (setImageReadyCondition ConditionFalse reason (boundedMessage items) (image_state state image)) ;;
  Ret match r with inr err => (noRequeue, Some (wrapf fmt [Name image] err)) | inl _ => (noRequeue, None) end.

Definition recordImagePending (image : Image) (notReady : list string) : go reply :=
  record_image ImageStatePending "ContentNotReady" notReady "image %q: recording Pending: %w" image.
Definition recordInvalid (image : Image) (invalidSizes : list string) : go reply :=
  record_image ImageStatePending "Invalid" invalidSizes "image %q: recording Pending (invalid): %w" image.
Definition recordImageFailed (image : Image) (failed : list string) : go reply :=
  record_image ImageStateFailed "ContentFailed" failed "image %q: recording Failed: %w" image.

(** ** The degraded condition *)

Inductive seederSiteProblem := seederProblemForeignOwner (site : string) | seederProblemUnready (site : string).

Definition foreign_site (p : seederSiteProblem) : option string := match p with seederProblemForeignOwner s => Some s | _ => None end.
Definition unready_site (p : seederSiteProblem) : option string := match p with seederProblemUnready s => Some s | _ => None end.

(** A cause: its reason, and its message over the sorted Sites. *)
Definition seeder_cause (reason fmt : string) (sites : list string) : list (string * string) :=
  match sites with [] => [] | _ => [(reason, sprintf fmt [concat ", " (sort_by String.ltb sites)])] end.

Definition image_causes (problems : list seederSiteProblem) (unsetSeederSubnetSites : list string) : list (string * string) :=
  seeder_cause "SeederSubnetRefUnset" "Site.spec.seederSubnetRef is unset for site(s) %s; no seeder Deployment is created there, so machines there cannot build a deploy plan for this Image until it is set" unsetSeederSubnetSites ++
  seeder_cause "SeederDeploymentForeignOwner" "seeder deployment name is already controlled by a different object for site(s) %s; left untouched and not counted as served" (omap foreign_site problems) ++
  seeder_cause "SeederPodUnready" "seeder deployment has reported no available replica for site(s) %s; check its pod status (crash loop, bad image, or an unsatisfiable nodeSelector)" (omap unready_site problems).

Definition degraded (causes : list (string * string)) (image : Image) : Image :=
  match causes with
  | [] => image <| image_Status := (image_Status image) <| img_Conditions :=
            RemoveStatusCondition (img_Conditions (image_Status image)) ImageConditionSeederDegraded |> |>
  | [(reason, message)] => image_condition ImageConditionSeederDegraded ConditionTrue reason message image
  | _ => image_condition ImageConditionSeederDegraded ConditionTrue "SeederDegraded" (concat "; " (map snd causes)) image
  end.

(** The helpers report a change exactly when the list of conditions differs. *)
Definition updateImageSeederCondition (image : Image) (problems : list seederSiteProblem) (unsetSeederSubnetSites : list string)
  : go (option GoErr) :=
  let image' := degraded (image_causes problems unsetSeederSubnetSites) image in
  if bool_decide (img_Conditions (image_Status image') = img_Conditions (image_Status image)) then Ret None
  else
  r <- applyImageStatus image' ;;
  Ret match r with inr err => Some (wrapf "image %q: recording seeder degraded condition: %w" [Name image] err) | inl _ => None end.
End Status.

(** ** Building a seeder Deployment *)

Record seededContent := mkSeeded { seeded_name : string; seeded_infoHash : string }.

(** A resolution that carries an attachment carries its Subnet. *)
Definition seederPodAnnotations (res : Resolution) : gmap string string :=
  match SeederNetworkRef res, ResolvedSubnet res with
  | Some ref, Some subnet => {[multusDefaultNetworkAnnotation := resolveNamespace ref (Namespace subnet) +:+ "/" +:+ nr_Name ref]}
  | _, _ => ∅
  end.

Definition seederRegisterEnv (cfg : ImageSeederConfig) (res : Resolution) : list EnvVar :=
  [mkEnv "CONTENT_ROOT" ContentMountRoot;
   mkEnv "EZIO_TARGET" (sprintf "127.0.0.1:%d" [show_dec EzioGRPCPort]);
   mkEnv "EZIO_MAX_UPLOADS" (show_dec (maxUploads cfg));
   mkEnv "EZIO_MAX_CONNECTIONS" (show_dec (maxConnections cfg))] ++
  (if res_TrackerURL res <>s "" then [mkEnv "TRACKER_URL" (res_TrackerURL res)] else []).

Definition seederContentVolumeName (infoHash : string) : string :=
  "content-" +:+ (if (16 <? String.length infoHash)%nat then String.substring 0 16 infoHash else infoHash).

Definition content_volume (content : seededContent) : Volume :=
  mkVolume (seederContentVolumeName (seeded_infoHash content)) (ClaimVolume (PVCName (seeded_name content)) true).
Definition content_mount (content : seededContent) : VolumeMount :=
  mkMount (seederContentVolumeName (seeded_infoHash content)) (ContentMountPath (seeded_name content)) true.

Definition seeder_security : SecurityContext := mkSecurity None None None None (Some false) (Some true) [] ["ALL"].

Section Seeder.
Context `{ApiMachinery} `{Encodings} (hex_sha256 : string -> string).
Context (ranged : machine_map -> machine_map) (ranged_sites : list string -> list string) (Seeder : ImageSeederConfig).

Definition seeder_labels (name : string) : gmap string string :=
  <[imageSeederInstanceLabel := name]> (component_labels partitionContentSeederComponentValue).

Definition seeder_containers (contents : list seededContent) (res : Resolution) : list Container :=
  let mounts := map content_mount contents in
  [mkContainer "ezio" (isc_Image Seeder) [] []
     [mkEnv "EZIO_GRPC_LISTEN" (sprintf "0.0.0.0:%d" [show_dec EzioGRPCPort]); mkEnv "EZIO_BT_PORT" (show_dec EzioBTPort)]
     [mkPort "grpc" EzioGRPCPort ProtocolTCP; mkPort "bt" EzioBTPort ProtocolTCP] mounts (Some seeder_security) no_resources None "" "";
   mkContainer "seeder-register" (isc_Image Seeder) ["/usr/local/bin/kezio-seeder-register"] [] (seederRegisterEnv Seeder res)
     [mkPort "torrent" TorrentHTTPPort ProtocolTCP] mounts (Some seeder_security) no_resources
     (Some (mkProbe TorrentHealthzPath (inl "torrent") 0 0)) "" ""].

Definition buildImageSeederDeployment (image : Image) (siteIdentity : string) (contents : list seededContent) (res : Resolution) : Deployment :=
  let name := SeederName hex_sha256 (Name image) siteIdentity in
  let labels := seeder_labels name in
  let depLabels := match ResolvedSubnet res with
                   | Some subnet => <[partitionContentSeederSubnetLabel := Name subnet]> labels
                   | None => labels
                   end in
  mkDeployment (new_meta name (Namespace image) depLabels {[imageSeederSiteAnnotation := siteIdentity]})
    (mkDeploymentSpec 1 "" (Some labels)
      (mkTemplate labels (seederPodAnnotations res)
        (mkPodSpec "" "" (nodeSelectorOrNil (NodeSelector res))
          (Some (mkPodSecurity (Some true) None None None (Some SeccompProfileTypeRuntimeDefault))) []
          (seeder_containers contents res) (map content_volume contents)))) 0 [].

(** ** What an Image seeds *)

Fixpoint seeded_from (image : Image) (seen : list string) (slots : list ImageSlot) : go (list seededContent + GoErr) :=
  match slots with
  | [] => Ret (inl [])
  | slot :: slots =>
    match is_ContentRef slot with
    | None => seeded_from image seen slots
    | Some ref =>
      if bool_decide (nr_Name ref ∈ seen) then seeded_from image seen slots
      else
      let seen := nr_Name ref :: seen in
      r <- Get KContent (slot_key image ref) ;;
      match r with
      | inr err => if IsNotFound err then seeded_from image seen slots
                   else Ret (inr (wrapf "image %q: getting partitioncontent %q: %w" [Name image; nr_Name ref] err))
      | inl pc =>
        let pc : PartitionContent := pc in
        if negb (IsStatusConditionTrue (pc_Conditions (content_Status pc)) PartitionContentConditionReady) ||
           (pc_InfoHash (content_Status pc) =s "") then seeded_from image seen slots
        else
        r <- seeded_from image seen slots ;;
        Ret match r with inr err => inr err | inl contents => inl (mkSeeded (Name pc) (pc_InfoHash (content_Status pc)) :: contents) end
      end
    end
  end.

Definition imageSeededContents (image : Image) : go (list seededContent + GoErr) :=
  r <- seeded_from image [] (lay_Slots (img_Layout (image_Spec image))) ;;
  Ret match r with
      | inr err => inr err
      | inl contents => inl (sort_by (fun a b => String.ltb (seeded_name a) (seeded_name b)) contents)
      end.

(** ** Demand *)

Definition deployRunNamesImage (run : DeployRun) (image : Image) : bool :=
  existsb (fun key => (key_Namespace key =s Namespace image) && (key_Name key =s Name image)) (deployRunImageNames run).

Definition demandMachinesForImage (image : Image) : go (machine_map + GoErr) :=
  r <- machinesReferencingImage (key_of image) ;;
  match r with
  | inr err => Ret (inr (wrapf "image %q: listing machines referencing it: %w" [Name image] err))
  | inl live =>
    r <- List_ KRun (Namespace image) ;;
    match r with
    | inr err => Ret (inr (wrapf "image %q: listing deploy runs: %w" [Name image] err))
    | inl runs =>
      seen <- put_runs (List.filter (fun run => isDeployRunActive run && deployRunNamesImage run image) runs) (put_all live []) ;;
      Ret (inl seen)
    end
  end.

Definition imageSeedDemandBySite (image : Image) : go (gmap string seederSiteDemand * list string + GoErr) :=
  r <- demandMachinesForImage image ;;
  match r with
  | inr err => Ret (inr err)
  | inl machines => d <- seederDemandBySite ranged machines ;; Ret (inl d)
  end.

(** ** The life of a seeder Deployment *)

(** [r.Patch] of an annotation; afterwards the object is what the server returned. *)
Definition patch_dep (dep dep' : Deployment) (fmt : string) : go (Deployment + GoErr) :=
  r <- Patch KDeployment dep dep' ;;
  Ret match r with inr err => inr (wrapf fmt [Name dep] err) | inl dep => inl dep end.

Definition with_annotations (annotations : gmap string string) (dep : Deployment) : Deployment :=
  dep <| deployment_meta := (deployment_meta dep) <| Annotations := annotations |> |>.

Definition parseSeederEmptySince (dep : Deployment) : option Z :=
  Annotations dep !! imageSeederEmptySinceAnnotation ≫= ParseRFC3339.

Definition marked (annotation : string) (dep : Deployment) : bool := bool_decide (is_Some (Annotations dep !! annotation)).

Definition stampSeederEmptySince (dep : Deployment) (at_ : Z) : go (Deployment + GoErr) :=
  patch_dep dep (with_annotations (<[imageSeederEmptySinceAnnotation := FormatRFC3339 at_]> (Annotations dep)) dep)
    "seeder deployment %q: stamping empty-since: %w".

Definition cancelSeederShutdown (dep : Deployment) : go (Deployment + GoErr) :=
  if negb (marked imageSeederEmptySinceAnnotation dep) then Ret (inl dep)
  else patch_dep dep (with_annotations (delete imageSeederEmptySinceAnnotation (Annotations dep)) dep)
         "seeder deployment %q: clearing empty-since: %w".

Definition stampSeederUnreadySince (dep : Deployment) (at_ : Z) : go (Deployment + GoErr) :=
  patch_dep dep (with_annotations (<[imageSeederUnreadySinceAnnotation := FormatRFC3339 at_]> (Annotations dep)) dep)
    "seeder deployment %q: stamping unready-since: %w".

Definition cancelSeederUnready (dep : Deployment) : go (Deployment + GoErr) :=
  if negb (marked imageSeederUnreadySinceAnnotation dep) then Ret (inl dep)
  else patch_dep dep (with_annotations (delete imageSeederUnreadySinceAnnotation (Annotations dep)) dep)
         "seeder deployment %q: clearing unready-since: %w".

Definition checkSeederUnready (dep : Deployment) : go (bool + GoErr) :=
  if 0 <? dep_AvailableReplicas dep then
    if marked imageSeederUnreadySinceAnnotation dep then
      r <- cancelSeederUnready dep ;; Ret match r with inr err => inr err | inl _ => inl false end
    else Ret (inl false)
  else
  if marked imageSeederUnreadySinceAnnotation dep then Ret (inl true)
  else
  now <- Now ;;
  r <- stampSeederUnreadySince dep now ;;
  Ret match r with inr err => inr err | inl _ => inl true end.

Definition shutdownImageSeederDeployment (dep : Deployment) : go (ctrlResult + GoErr) :=
  now <- Now ;;
  match parseSeederEmptySince dep with
  | None =>
    r <- stampSeederEmptySince dep now ;;
    Ret match r with inr err => inr err | inl _ => inl (requeueAfter (gracePeriod Seeder)) end
  | Some since =>
    let remaining := gracePeriod Seeder - (now - since) in
    if 0 <? remaining then Ret (inl (requeueAfter remaining))
    else
    err <- Delete KDeployment (key_of dep) ;;
    Ret match err with
        | Some err => if IsNotFound err then inl noRequeue else inr (wrapf "deleting seeder deployment %q: %w" [Name dep] err)
        | None => inl noRequeue
        end
  end.

(** Whether the name is held by an object the Image does not control. *)
Definition createImageSeederDeployment (image : Image) (site : string) (contents : list seededContent) (res : Resolution) : go (bool + GoErr) :=
  let dep := buildImageSeederDeployment image site contents res in
  match owned (fun m => dep <| deployment_meta := m |>) dep image with
  | inr err => Ret (inr (wrapf "image %q: setting seeder deployment owner reference: %w" [Name image] err))
  | inl dep =>
    r <- Create KDeployment dep ;;
    match r with
    | inl _ => Ret (inl false)
    | inr err =>
      if negb (IsAlreadyExists err) then Ret (inr (wrapf "image %q: creating seeder deployment %q: %w" [Name image; Name dep] err))
      else
      r <- Get KDeployment (key_of dep) ;;
      Ret match r with
          | inr err => inr (wrapf "image %q: getting seeder deployment %q after AlreadyExists: %w" [Name image; Name dep] err)
          | inl existing => inl (negb (IsControlledBy (existing : Deployment) image))
          end
    end
  end.

(** The parts of a Deployment that follow the desired one. *)
Definition placed_as (desired dep : Deployment) : Deployment :=
  let tpl := ds_Template (dep_Spec dep) in
  let want := ds_Template (dep_Spec desired) in
  dep <| deployment_meta := (deployment_meta dep) <| Labels := Labels desired |> |>
      <| dep_Spec := (dep_Spec dep) <| ds_Template := tpl <| pt_Annotations := pt_Annotations want |>
           <| pt_Spec := (pt_Spec tpl) <| ps_NodeSelector := ps_NodeSelector (pt_Spec want) |>
                <| ps_Containers := ps_Containers (pt_Spec want) |> |> |> |>.

Definition placement_drift (desired dep : Deployment) : bool :=
  negb (bool_decide (pt_Annotations (ds_Template (dep_Spec dep)) = pt_Annotations (ds_Template (dep_Spec desired))) &&
        bool_decide (ps_NodeSelector (pt_Spec (ds_Template (dep_Spec dep))) = ps_NodeSelector (pt_Spec (ds_Template (dep_Spec desired)))) &&
        bool_decide (Labels dep = Labels desired) &&
        bool_decide (ps_Containers (pt_Spec (ds_Template (dep_Spec dep))) = ps_Containers (pt_Spec (ds_Template (dep_Spec desired))))).

Definition ensureImageSeederPlacement (image : Image) (site : string) (dep : Deployment) (contents : list seededContent) (res : Resolution)
  : go (Deployment + GoErr) :=
  let desired := buildImageSeederDeployment image site contents res in
  if negb (placement_drift desired dep) then Ret (inl dep)
  else
  r <- Patch KDeployment dep (placed_as desired dep) ;;
  Ret match r with
      | inr err => inr (wrapf "image %q: updating seeder deployment placement %q: %w" [Name image; Name dep] err)
      | inl dep => inl dep
      end.

(** A Site's answer: when to come back, and what is wrong there. *)
Abbreviation site_reply := (ctrlResult * option seederSiteProblem + GoErr)%type.

Definition reconcileImageSeederSite (image : Image) (site : string) (demand : option seederSiteDemand) (dep : option Deployment)
    (contents : list seededContent) : go site_reply :=
  match dep, demand with
  | Some dep, _ =>
    match DeletionTimestamp dep with
    | Some _ => Ret (inl (noRequeue, None))
    | None =>
      match demand with
      | Some d =>
        if 0 <? sd_count d then
          r <- ensureImageSeederPlacement image site dep contents (sd_resolution d) ;;
          match r with
          | inr err => Ret (inr err)
          | inl dep =>
            r <- cancelSeederShutdown dep ;;
            match r with
            | inr err => Ret (inr err)
            | inl dep =>
              r <- checkSeederUnready dep ;;
              Ret match r with
                  | inr err => inr err
                  | inl unready => inl (noRequeue, if unready then Some (seederProblemUnready site) else None)
                  end
            end
          end
        else r <- shutdownImageSeederDeployment dep ;; Ret match r with inr err => inr err | inl result => inl (result, None) end
      | None => r <- shutdownImageSeederDeployment dep ;; Ret match r with inr err => inr err | inl result => inl (result, None) end
      end
    end
  | None, Some d =>
    if 0 <? sd_count d then
      if negb (seeder_ready Seeder) then Ret (inl (noRequeue, None))
      else
      r <- createImageSeederDeployment image site contents (sd_resolution d) ;;
      Ret match r with
          | inr err => inr err
          | inl foreign => inl (noRequeue, if foreign then Some (seederProblemForeignOwner site) else None)
          end
    else Ret (inl (noRequeue, None))
  | None, None => Ret (inl (noRequeue, None))
  end.

Definition minRequeue (a b : ctrlResult) : ctrlResult :=
  if RequeueAfter a =? 0 then b
  else if RequeueAfter b =? 0 then a
  else if RequeueAfter a <? RequeueAfter b then a
  else b.

(** [errors.Join]. *)
Definition errorsJoin (errs : list GoErr) : GoErr :=
  mkErr (match errs with err :: _ => ekind err | [] => KOther end) (concat newline (map emsg errs)).

(** Every Site is processed, whatever the others answered. *)
Fixpoint reconcile_sites (image : Image) (demand : gmap string seederSiteDemand) (existing : gmap string Deployment)
    (contents : list seededContent) (sites : list string) (result : ctrlResult) (problems : list seederSiteProblem) (errs : list GoErr)
  : go (ctrlResult * list seederSiteProblem * list GoErr) :=
  match sites with
  | [] => Ret (result, problems, errs)
  | site :: sites =>
    r <- reconcileImageSeederSite image site (demand !! site) (existing !! site) contents ;;
    match r with
    | inr err => reconcile_sites image demand existing contents sites result problems (errs ++ [err])
    | inl (siteResult, problem) =>
      reconcile_sites image demand existing contents sites (minRequeue result siteResult) (problems ++ option_list problem) errs
    end
  end.

Definition reconcileImageSeeder (image : Image) : go reply :=
  r <- imageSeedDemandBySite image ;;
  match r with
  | inr err => Ret (noRequeue, Some err)
  | inl (demand, noSeederSites) =>
    r <- listImageSeederDeployments image ;;
    match r with
    | inr err => Ret (noRequeue, Some err)
    | inl existing =>
      let sites := ranged_sites (elements (dom demand ∪ dom existing)) in
      r <- (if bool_decide (demand = ∅) then Ret (inl []) else imageSeededContents image) ;;
      match r with
      | inr err => Ret (noRequeue, Some err)
      | inl contents =>
        '(result, problems, errs) <- reconcile_sites image demand existing contents sites noRequeue [] [] ;;
        match errs with
        | _ :: _ => Ret (noRequeue, Some (errorsJoin errs))
        | [] =>
          err <- updateImageSeederCondition image problems noSeederSites ;;
          Ret match err with Some err => (noRequeue, Some err) | None => (result, None) end
        end
      end
    end
  end.

(** ** The reconciler *)

Definition onChange (image : Image) : go reply :=
  err <- ensureContentOwnerRefs image ;;
  match err with
  | Some err => Ret (noRequeue, Some err)
  | None =>
    if img_State (image_Status image) =s ImageStateReady then reconcileImageSeeder image
    else
    r <- aggregateSlotContents image ;;
    match r with
    | inr err => Ret (noRequeue, Some err)
    | inl agg =>
      if agg_stale agg then Ret (requeueAfter imageStaleContentRequeueInterval, None)
      else
      let validOK := (length (agg_invalidSizes agg) =? 0)%nat in
      let image := setImageValidCondition validOK (agg_invalidSizes agg) image in
      match agg_failed agg, agg_notReady agg with
      | _ :: _, _ => recordImageFailed image (agg_failed agg)
      | [], [] =>
        if validOK then
          r <- recordImageReady image ;;
          match r with
          | inr err => Ret (noRequeue, Some err)
          | inl image => reconcileImageSeeder image
          end
        else recordInvalid image (agg_invalidSizes agg)
      | [], notReady => recordImagePending image notReady
      end
    end
  end.

Definition Reconcile (key : ObjectKey) : go reply :=
  r <- Get KImage key ;;
  match r with
  | inr err => Ret (noRequeue, if IsNotFound err then None else Some err)
  | inl image => onChange image
  end.

(** ** Watches *)

Definition mapPartitionContentToImages (pc : PartitionContent) : go (list ObjectKey) :=
  r <- imagesReferencing pc ;;
  Ret match r with inr _ => [] | inl images => map (fun i : Image => key_of i) images end.

Definition mapMachineToImages (machine : Machine) : go (list ObjectKey) :=
  r <- machineClaimImageRefs machine ;;
  Ret match r with inr _ => [] | inl refs => refs end.
Definition mapMachineClaimToImages (claim : MachineClaim) : list ObjectKey := claimImageRefs claim.
Definition mapDeployRunToImages (run : DeployRun) : list ObjectKey := deployRunImageNames run.

Definition machineProvisionedTransitionPredicate (old new : Machine) : bool :=
  negb (Bool.eqb (State (Status old) =s MachineStateProvisioned) (State (Status new) =s MachineStateProvisioned)).
End Seeder.
