(* ===== verification/ImageSafety.v ===== *)
(** * ImageSafety: what the Image reconciler may write

    What may be written after a history of calls and answers, for every run of
    [Images.Reconcile]; and two ways in which the names of a seeder Deployment
    and of its volumes are not unique. *)

From S2P Require Import Prelude Text Api Effects Workloads Cluster Store Machine AgentDeployer SiteDerive PlanBuild PlanSafety PostHooks Subnets SeedDemand Contents ContentSafety Images.
Local Open Scope string_scope.
Local Open Scope list_scope.
Local Open Scope Z_scope.

Section Guard.
Context `{ApiMachinery} `{Encodings} (hex_sha256 : string -> string).
Context (ranged : machine_map -> machine_map) (ranged_sites : list string -> list string) (Seeder : ImageSeederConfig).

Abbreviation reconcile := (Images.Reconcile hex_sha256 ranged ranged_sites Seeder).
Abbreviation past := (trace resp).

(** The Image was read, or came back from a status write of this run. *)
Definition image_of (h : past) (image : Image) : Prop :=
  (exists key, ev (R := resp) (EGet KImage key) (inl image) ∈ h) \/
  (exists sent, ev (R := resp) (EStatusApply KImage sent) (inl image) ∈ h).

(** It was read Ready, or came back from the write that made it Ready. *)
Definition ready_image (h : past) (image : Image) : Prop :=
  (exists key, ev (R := resp) (EGet KImage key) (inl image) ∈ h /\ img_State (image_Status image) = ImageStateReady) \/
  (exists sent, ev (R := resp) (EStatusApply KImage sent) (inl image) ∈ h /\ img_State (image_Status sent) = ImageStateReady).

(** What a content must satisfy for its slot to be ready. *)
Definition slot_ready (slot : ImageSlot) (content : PartitionContent) : Prop :=
  (is_SizeBytes slot = 0 \/ pc_LastExtentEnd (content_Spec content) <= is_SizeBytes slot) /\
  pc_State (content_Status content) <> PartitionContentStateFailed /\
  exists cond, FindStatusCondition (pc_Conditions (content_Status content)) PartitionContentConditionReady = Some cond /\
    cd_ObservedGeneration cond = Generation content /\ cd_Status cond = ConditionTrue.

Definition slots_ready (h : past) (image : Image) (slots : list ImageSlot) : Prop :=
  Forall (fun slot => forall ref, is_ContentRef slot = Some ref ->
    exists content, ev (R := resp) (EGet KContent (slot_key image ref)) (inl content) ∈ h /\ slot_ready slot content) slots.

(** A run of the demand computation lies in the history, and gives the Site this demand. *)
Definition demanded (h : past) (image : Image) (site : string) (demand : option seederSiteDemand) : Prop :=
  exists before t after d sites, h = before ++ t ++ after /\
    runs (imageSeedDemandBySite ranged image) t (inl (d, sites)) /\ d !! site = demand.

Definition wanted (demand : option seederSiteDemand) : Prop := exists d, demand = Some d /\ 0 < sd_count d.

(** A Deployment that was listed, is controlled by the Image and serves the Site. *)
Definition own_seeder (h : past) (image : Image) (site : string) (dep : Deployment) : Prop :=
  exists deps, ev (R := resp) (EListLabels KDeployment (Namespace image) {[partitionContentAppComponentLabel := partitionContentSeederComponentValue]})
                 (inl deps) ∈ h /\ dep ∈ deps /\ seeder_site image dep = Some site /\ DeletionTimestamp dep = None.

Definition permitted (h : past) (e : eff) : Prop :=
  match e with
  | EStatusApply KImage image' => exists image, image_of h image /\ image_meta image' = image_meta image /\ image_Spec image' = image_Spec image /\
      (img_State (image_Status image') ∈ [img_State (image_Status image); ImageStatePending; ImageStateFailed] \/
       img_State (image_Status image') = ImageStateReady /\ slots_ready h image (lay_Slots (img_Layout (image_Spec image))))
  | EPatch KContent base content => exists key image refs, ev (R := resp) (EGet KContent key) (inl base) ∈ h /\ image_of h image /\
      SetOwnerReference (OwnerReferences base) image = inl refs /\ content = base <| content_meta := set_owners refs (content_meta base) |>
  | ECreate KDeployment dep => exists image site demand, ready_image h image /\ demanded h image site demand /\ wanted demand /\
      seeder_ready Seeder = true /\ key_of (dep : Deployment) = mkKey (Namespace image) (SeederName hex_sha256 (Name image) site)
  | EPatch KDeployment base dep =>
      key_of (dep : Deployment) = key_of (base : Deployment) /\ ds_Selector (dep_Spec dep) = ds_Selector (dep_Spec base) /\
      ((exists image site, ready_image h image /\ own_seeder h image site base) \/
       (exists base' sent, ev (R := resp) (EPatch KDeployment base' sent) (inl base) ∈ h))
  | EDelete KDeployment key => exists image site demand dep now since, ready_image h image /\ own_seeder h image site dep /\ key = key_of dep /\
      demanded h image site demand /\ ~ wanted demand /\ parseSeederEmptySince dep = Some since /\
      ev (R := resp) ENow now ∈ h /\ gracePeriod Seeder <= now - since
  | _ => is_write e = false
  end.

Definition guard : monitor resp past := history permitted (fun _ _ => True).

(** ** Histories grow *)

#[local] Hint Resolve grows_refl grows_more grows_in grows_last : core.

Lemma image_of_grows h h' image : grows h h' -> image_of h image -> image_of h' image.
Proof. intros Hg [(k & Hk)|(k & Hk)]; [left|right]; eauto. Qed.
Lemma ready_grows h h' image : grows h h' -> ready_image h image -> ready_image h' image.
Proof. intros Hg [(k & Hk & ?)|(k & Hk & ?)]; [left|right]; eauto. Qed.
Lemma demanded_grows h h' image site d : grows h h' -> demanded h image site d -> demanded h' image site d.
Proof. intros [u ->] (b & t & a & d' & s & -> & Hr & Hd). exists b, t, (a ++ u), d', s. by rewrite <- !(assoc_L (++)). Qed.
Lemma own_grows h h' image site dep : grows h h' -> own_seeder h image site dep -> own_seeder h' image site dep.
Proof. intros Hg (deps & Hin & ?). exists deps. eauto. Qed.
Lemma ready_source h image : ready_image h image -> image_of h image.
Proof. intros [(k & Hk & _)|(k & Hk & _)]; [left|right]; eauto. Qed.
#[local] Hint Resolve image_of_grows ready_grows demanded_grows own_grows ready_source : core.

Lemma slots_ready_grows h h' image slots : grows h h' -> slots_ready h image slots -> slots_ready h' image slots.
Proof. intros Hg Hs. eapply Forall_impl; [exact Hs|]. intros slot Hr ref Href. destruct (Hr ref Href) as (c & Hc & ?). eauto. Qed.

(** ** Parts that read *)

Definition reads (e : eff) : Prop := is_write e = false.

Lemma image_reads_permitted h e : reads e -> permitted h e.
Proof. intros He. by destruct e as [[]|[]|[]|[]|[]|[]|[]|[]|[]|[]|[]|[]| | | | | | | | | | | | | | | | |]. Qed.

Definition image_reading {A} := wp_harmless permitted (fun _ _ => True) (X := A) reads image_reads_permitted.

Lemma content_reads {A} (p : go A) : calls ContentSafety.reads p -> calls reads p.
Proof. apply calls_impl. by intros e [He _]. Qed.

Lemma demand_reads image : calls reads (imageSeedDemandBySite ranged image).
Proof.
  apply content_reads. unfold imageSeedDemandBySite, demandMachinesForImage, machinesReferencingImage. apply calls_bind.
  - apply calls_bind.
    + apply calls_bind; [by repeat calls_step|]. intros [ms|err]; [apply demanding_read|done].
    + intros [live|err]; [|done]. apply calls_bind; [by repeat calls_step|]. intros [runs|err]; [|done].
      apply calls_bind; [apply put_runs_read|done].
  - intros [machines|err]; [|done]. apply calls_bind; [|done]. unfold seederDemandBySite. apply calls_bind; [apply group_read|].
    by intros [].
Qed.

Lemma seeded_reads image seen slots : calls reads (seeded_from image seen slots).
Proof.
  revert seen. induction slots as [|slot slots IH]; intros seen; [done|]. cbn [seeded_from].
  destruct (is_ContentRef slot) as [ref|]; [|apply IH]. destruct (bool_decide _); [apply IH|]. cbv zeta.
  apply calls_bind; [by repeat calls_step|]. intros [pc|err]; [|by destruct (IsNotFound err)].
  destruct (_ || _); [apply IH|]. apply calls_bind; [apply IH|]. by intros [].
Qed.

Lemma contents_reads image : calls reads (imageSeededContents image).
Proof. unfold imageSeededContents. apply calls_bind; [apply seeded_reads|]. by intros []. Qed.

(** ** Owner references and aggregation *)

Lemma own_slots_guarded image slots h : image_of h image -> wp guard (own_slots image slots) h (fun _ h' => grows h h').
Proof.
  revert h. induction slots as [|slot slots IH]; intros h Hi; cbn [own_slots]; [apply grows_refl|].
  destruct (is_ContentRef slot) as [ref|]; [|by apply IH]. apply wp_bind. split; [done|].
  assert (Hnext : forall h', grows h h' -> wp guard (own_slots image slots) h' (fun _ h' => grows h h')).
  { intros h' Hg. eapply wp_mono; [apply IH; eauto|]. intros ? ? ?. by eapply grows_trans. }
  intros [content|err] _; cbn [wp guard history step].
  - destruct (hasOwnerReference content image); [apply Hnext; auto|].
    destruct (SetOwnerReference (OwnerReferences content) image) as [refs|err] eqn:Hr; [|by apply grows_app].
    apply wp_bind. split; [exists (slot_key image ref), image, refs; split_and!; eauto|].
    intros [o|err] _; cbn [wp guard history step]; [apply Hnext|]; by eauto.
  - destruct (IsNotFound err); [apply Hnext; auto|by apply grows_app].
Qed.

Definition settled (agg : slotContentAggregation) : Prop :=
  agg_stale agg = false /\ agg_failed agg = [] /\ agg_notReady agg = [] /\ agg_invalidSizes agg = [].

(** A slot leaves the aggregation settled only if it was and the content is ready. *)
Lemma add_content_settled slot ref content agg : settled (add_content slot ref content agg) -> settled agg /\ slot_ready slot content.
Proof.
  unfold add_content, settled, slot_ready. cbv zeta.
  set (small := negb (is_SizeBytes slot =? 0) && (is_SizeBytes slot <? pc_LastExtentEnd (content_Spec content))).
  assert (Hsmall : small = false -> is_SizeBytes slot = 0 \/ pc_LastExtentEnd (content_Spec content) <= is_SizeBytes slot).
  { subst small. destruct (Z.eqb_spec (is_SizeBytes slot) 0), (Z.ltb_spec (is_SizeBytes slot) (pc_LastExtentEnd (content_Spec content)));
      cbn; [auto..|done|auto]. }
  assert (Hnil : forall (l : list string) x, l ++ [x] <> []) by (intros [] ?; done).
  destruct (FindStatusCondition _ _) as [cond|]; [|destruct small; cbn -[sprintf]; intros (_ & _ & Hn & _); by apply Hnil in Hn].
  destruct (conditionObservedGenerationStale (Some cond) (Generation content)) eqn:Hst; [by intros [? _]|].
  destruct (String.eqb_spec (pc_State (content_Status content)) PartitionContentStateFailed) as [Hf|Hf];
    [destruct small; cbn -[sprintf]; intros (_ & Hn & _); by apply Hnil in Hn|].
  destruct (String.eqb_spec (cd_Status cond) ConditionTrue) as [Ht|Ht]; cbn [negb];
    [|destruct small; cbn -[sprintf]; intros (_ & _ & Hn & _); by apply Hnil in Hn].
  destruct small; cbn -[sprintf]; intros (? & ? & ? & Hn); [by apply Hnil in Hn|]. split; [done|]. split_and!; [by apply Hsmall|done|].
  exists cond. split_and!; [done| |done]. unfold conditionObservedGenerationStale in Hst.
  by apply negb_false_iff, Z.eqb_eq in Hst.
Qed.

Lemma unsettled_not_found agg message : ~ settled (agg <| agg_notReady := agg_notReady agg ++ [message] |>).
Proof. intros (_ & _ & Hn & _). cbn in Hn. by destruct (agg_notReady agg). Qed.

Lemma aggregate_guarded image slots agg h : wp guard (aggregate_slots image slots agg) h (fun r h' => grows h h' /\
  forall agg', r = inl agg' -> settled agg' -> settled agg /\ slots_ready h' image slots).
Proof.
  revert agg h. induction slots as [|slot slots IH]; intros agg h; cbn [aggregate_slots].
  { split; [done|]. intros agg' [= <-] Hs. split; [done|constructor]. }
  destruct (is_ContentRef slot) as [ref|] eqn:Href.
  - apply wp_bind. split; [done|]. intros [content|err] _; cbn [wp guard history step].
    + eapply wp_mono; [apply IH|]. intros r h' [Hg Hr]. split; [eapply grows_trans; [|exact Hg]; auto|].
      intros agg' -> Hs. destruct (Hr agg' eq_refl Hs) as [Ha Hsl]. apply add_content_settled in Ha as [Ha Hc]. split; [done|].
      constructor; [|done]. intros ref' Hr'. rewrite Href in Hr'. injection Hr' as <-. exists content. eauto.
    + destruct (IsNotFound err); [|by split; [auto|]]. eapply wp_mono; [apply IH|]. intros r h' [Hg Hr].
      split; [eapply grows_trans; [|exact Hg]; auto|]. intros agg' -> Hs. destruct (Hr agg' eq_refl Hs) as [Ha _].
      by apply unsettled_not_found in Ha.
  - eapply wp_mono; [apply IH|]. intros r h' [Hg Hr]. split; [done|]. intros agg' -> Hs. destruct (Hr agg' eq_refl Hs) as [Ha Hsl].
    split; [done|]. constructor; [|done]. intros ref Hr'. congruence.
Qed.

(** ** Status writes *)

Lemma apply_guarded image image' h : image_of h image -> image_meta image' = image_meta image -> image_Spec image' = image_Spec image ->
  img_State (image_Status image') ∈ [img_State (image_Status image); ImageStatePending; ImageStateFailed] \/
  (img_State (image_Status image') = ImageStateReady /\ slots_ready h image (lay_Slots (img_Layout (image_Spec image)))) ->
  wp guard (applyImageStatus image') h (fun r h' => h' = h ++ [ev (R := resp) (EStatusApply KImage image') r]).
Proof. intros Hi Hm Hs Hst. split; [exists image; by split_and!|]. intros r _. by cbn. Qed.

Lemma record_image_guarded state reason items fmt image image' h : image_of h image -> image_meta image' = image_meta image ->
  image_Spec image' = image_Spec image -> state ∈ [ImageStatePending; ImageStateFailed] ->
  wp guard (record_image state reason items fmt image') h (fun _ _ => True).
Proof.
  intros Hi Hm Hs Hst. unfold record_image. eapply wp_seq; [apply (apply_guarded image); [done..|]|].
  - left. right. exact Hst.
  - by intros [] ? _.
Qed.

Lemma degraded_kept causes image : image_meta (degraded causes image) = image_meta image /\
  image_Spec (degraded causes image) = image_Spec image /\ img_State (image_Status (degraded causes image)) = img_State (image_Status image).
Proof. by destruct causes as [|[? ?] [|? ?]]. Qed.

Lemma condition_guarded image problems sites h : image_of h image ->
  wp guard (updateImageSeederCondition image problems sites) h (fun _ _ => True).
Proof.
  intros Hi. unfold updateImageSeederCondition. cbv zeta. destruct (bool_decide _); [exact I|].
  destruct (degraded_kept (image_causes problems sites) image) as (Hm & Hs & Hst).
  eapply wp_seq; [apply (apply_guarded image); [done..|]|by intros [] ? _]. left. rewrite Hst. left.
Qed.

(** ** Seeder Deployments *)

(** The Deployment may be patched: it is one of the Image's own, or came back from a patch. *)
Definition patchable (h : past) (dep : Deployment) : Prop :=
  (exists image site, ready_image h image /\ own_seeder h image site dep) \/
  (exists base sent, ev (R := resp) (EPatch KDeployment base sent) (inl dep) ∈ h).

Lemma patchable_grows h h' dep : grows h h' -> patchable h dep -> patchable h' dep.
Proof. intros Hg [(i & s & ? & ?)|(b & s & ?)]; [left; exists i, s|right; exists b, s]; eauto. Qed.
#[local] Hint Resolve patchable_grows : core.

(** Where a part of the reconciler leaves a Deployment. *)
Definition then_patchable (h : past) (r : Deployment + GoErr) (h' : past) : Prop :=
  grows h h' /\ forall dep, r = inl dep -> patchable h' dep.

Lemma dep_patch_guarded (dep dep' : Deployment) fmt args h : patchable h dep -> key_of dep' = key_of dep ->
  ds_Selector (dep_Spec dep') = ds_Selector (dep_Spec dep) ->
  wp guard (r <- Patch KDeployment dep dep' ;; Ret match r with inr err => inr (wrapf fmt args err) | inl dep => inl dep end) h (then_patchable h).
Proof.
  intros Hp Hk Hs. apply wp_bind. split; [by split_and!|]. intros [dep''|err] _; cbn [wp guard history step]; (split; [by auto|]); [|done].
  intros d [= <-]. right. eauto.
Qed.

Lemma placement_guarded image site dep contents res h : patchable h dep ->
  wp guard (ensureImageSeederPlacement hex_sha256 Seeder image site dep contents res) h (then_patchable h).
Proof.
  intros Hp. unfold ensureImageSeederPlacement. cbv zeta. destruct (negb _); [|by apply dep_patch_guarded].
  split; [done|]. by intros d [= <-].
Qed.

Lemma cancel_guarded dep h : patchable h dep -> wp guard (cancelSeederShutdown dep) h (then_patchable h).
Proof.
  intros Hp. unfold cancelSeederShutdown, patch_dep. destruct (negb _); [|by apply dep_patch_guarded]. split; [done|]. by intros d [= <-].
Qed.

Lemma unready_guarded dep h : patchable h dep -> wp guard (checkSeederUnready dep) h (fun _ h' => grows h h').
Proof.
  intros Hp. unfold checkSeederUnready. destruct (0 <? _).
  - destruct (marked _ dep); [|apply grows_refl]. unfold cancelSeederUnready, patch_dep. apply wp_bind. destruct (negb _); [apply grows_refl|].
    eapply wp_mono; [by apply dep_patch_guarded|]. intros [] ? [Hg _]; done.
  - destruct (marked _ dep); [apply grows_refl|]. apply wp_bind. split; [done|]. intros now _. cbn [guard history step]. cbn [wp].
    unfold stampSeederUnreadySince, patch_dep. apply wp_bind. eapply wp_mono; [apply dep_patch_guarded; [eauto|done..]|].
    intros [] ? [Hg _]; (eapply grows_trans; [|exact Hg]; auto).
Qed.

Lemma shutdown_guarded image site demand dep h : ready_image h image -> own_seeder h image site dep -> demanded h image site demand -> ~ wanted demand ->
  wp guard (shutdownImageSeederDeployment Seeder dep) h (fun _ h' => grows h h').
Proof.
  intros Hr Ho Hd Hw. unfold shutdownImageSeederDeployment. apply wp_bind. split; [done|]. intros now _. cbn [guard history step]. cbn [wp].
  destruct (parseSeederEmptySince dep) as [since|] eqn:Hs.
  - cbv zeta. destruct (Z.ltb_spec 0 (gracePeriod Seeder - (now - since))) as [?|Hge]; [apply grows_app|]. apply wp_bind. split.
    + exists image, site, demand, dep, now, since. split_and!; [by eauto..|done|by eauto|done|done|by auto|lia].
    + intros err _. cbn [guard history step]. cbn [wp]. auto.
  - unfold stampSeederEmptySince, patch_dep. apply wp_bind. assert (Hp : patchable h dep) by (left; exists image, site; by split).
    eapply wp_mono; [apply dep_patch_guarded; [eauto|done..]|].
    intros [] ? [Hg _]; (eapply grows_trans; [|exact Hg]; auto).
Qed.

Lemma create_guarded image site demand contents res h : ready_image h image -> demanded h image site demand -> wanted demand ->
  seeder_ready Seeder = true ->
  wp guard (createImageSeederDeployment hex_sha256 Seeder image site contents res) h (fun _ h' => grows h h').
Proof.
  intros Hr Hd Hw Hs. unfold createImageSeederDeployment, owned. cbv zeta. destruct (SetControllerReference _ _) as [refs|err]; [|apply grows_refl].
  apply wp_bind. split; [by exists image, site, demand|]. intros [o|err] _; cbn [guard history step]; cbn [wp]; [auto|].
  destruct (negb _); [cbn [wp]; auto|]. apply wp_bind. split; [done|]. intros [o|e] _; cbn [guard history step]; cbn [wp]; auto.
Qed.

Lemma site_guarded image site demand dep contents h : ready_image h image -> demanded h image site demand ->
  (forall d : Deployment, dep = Some d -> DeletionTimestamp d = None -> own_seeder h image site d) ->
  wp guard (reconcileImageSeederSite hex_sha256 Seeder image site demand dep contents) h (fun _ h' => grows h h').
Proof.
  intros Hr Hd Hown. unfold reconcileImageSeederSite. destruct dep as [dep|].
  - destruct (DeletionTimestamp dep) eqn:Hdel; [apply grows_refl|]. specialize (Hown dep eq_refl Hdel).
    assert (Hshut : ~ wanted demand -> wp guard (r <- shutdownImageSeederDeployment Seeder dep ;;
      Ret match r with inr err => inr err | inl result => inl (result, None) end : go (ctrlResult * option seederSiteProblem + GoErr)) h (fun _ h' => grows h h')).
    { intros Hw. eapply wp_seq; [by eapply shutdown_guarded|]. by intros []. }
    destruct demand as [d|]; [|apply Hshut; by intros (? & ? & ?)].
    destruct (Z.ltb_spec 0 (sd_count d)) as [Hlt|Hge]; [|apply Hshut; intros (? & [= <-] & ?); lia].
    assert (Hp : patchable h dep) by (left; eauto). eapply wp_seq; [by apply placement_guarded|].
    intros [dep1|err] h1 [Hg1 Hp1]; [|exact Hg1]. eapply wp_seq; [apply cancel_guarded; by apply Hp1|].
    intros [dep2|err] h2 [Hg2 Hp2]; [|by eapply grows_trans]. eapply wp_seq; [apply unready_guarded; by apply Hp2|].
    intros [b|err] h3 Hg3; (eapply grows_trans; [exact Hg1|by eapply grows_trans]).
  - destruct demand as [d|]; [|apply grows_refl]. destruct (Z.ltb_spec 0 (sd_count d)); [|apply grows_refl].
    destruct (seeder_ready Seeder) eqn:Hs; cbn [negb]; [|apply grows_refl].
    eapply wp_seq; [eapply create_guarded; eauto; by exists d|]. by intros [].
Qed.

Lemma sites_guarded image demand existing contents sites result problems errs h : ready_image h image ->
  (forall site, demanded h image site (demand !! site)) ->
  (forall site (d : Deployment), existing !! site = Some d -> DeletionTimestamp d = None -> own_seeder h image site d) ->
  wp guard (reconcile_sites hex_sha256 Seeder image demand existing contents sites result problems errs) h (fun _ h' => grows h h').
Proof.
  revert result problems errs h. induction sites as [|site sites IH]; intros result problems errs h Hr Hd Hown; cbn [reconcile_sites];
    [apply grows_refl|].
  eapply wp_seq; [apply site_guarded; [done|by apply Hd|by apply Hown]|]. intros [[res p]|err] h1 Hg;
    (eapply wp_mono; [apply IH; eauto|]; intros ? ? ?; by eapply grows_trans).
Qed.

(** A Deployment found for a Site was listed for it. *)
Lemma by_site_listed image deps site dep : deployments_by_site image deps !! site = Some dep -> dep ∈ deps /\ seeder_site image dep = Some site.
Proof.
  unfold deployments_by_site. set (f := fun _ _ => _).
  assert (Hgen : forall l out, fold_left f l out !! site = Some dep -> out !! site = Some dep \/ (dep ∈ l /\ seeder_site image dep = Some site)).
  { induction l as [|d l IH]; intros out; cbn [fold_left]; [by left|]. intros [Ho|[Hin Hs]]%IH; [|right; split; [by right|done]].
    unfold f in Ho. destruct (seeder_site image d) as [s|] eqn:Hd; [|by left].
    apply lookup_insert_Some in Ho as [[<- <-]|[_ Ho]]; [right; split; [by left|done]|by left]. }
  intros Hl. by apply Hgen in Hl as [Hl|?].
Qed.

Lemma image_seeder_guarded image h : ready_image h image ->
  wp guard (reconcileImageSeeder hex_sha256 ranged ranged_sites Seeder image) h (fun _ _ => True).
Proof.
  intros Hr. unfold reconcileImageSeeder. eapply wp_seq; [apply image_reading, demand_reads|].
  intros [[demand noSeeder]|err] h1 (t & -> & Hrun); [|exact I].
  assert (Hd : forall site, demanded (h ++ t) image site (demand !! site)).
  { intros site. exists h, t, [], demand, noSeeder. by rewrite app_nil_r. }
  unfold listImageSeederDeployments. apply wp_bind, wp_bind. split; [done|]. intros [deps|err] _; cbn [guard history step]; cbn [wp]; [|exact I].
  set (h2 := (h ++ t) ++ _). assert (Hg : grows (h ++ t) h2) by apply grows_app.
  assert (Hown : forall site (d : Deployment), deployments_by_site image deps !! site = Some d -> DeletionTimestamp d = None -> own_seeder h2 image site d).
  { intros site d [Hin Hs]%by_site_listed Hdel. exists deps. split_and!; [apply grows_last|done..]. }
  eapply wp_seq with (Q := fun _ h' => grows h2 h').
  - destruct (bool_decide _); [apply grows_refl|]. eapply wp_mono; [apply image_reading, contents_reads|]. intros ? ? (u & -> & _). apply grows_app.
  - intros [contents|err] h3 Hg3; [|exact I]. assert (Hr3 : ready_image h3 image) by (eapply ready_grows; [exact Hg3|]; eapply ready_grows; [exact Hg|]; eapply ready_grows; [apply grows_app|exact Hr]).
    eapply wp_seq; [apply sites_guarded; [done|eauto..]|]. intros [[result problems] errs] h4 Hg4. destruct errs as [|e errs]; [|exact I].
    eapply wp_seq; [by apply condition_guarded; eauto|]. by intros [] ? _.
Qed.

Lemma image_change_guarded image h key : ev (R := resp) (EGet KImage key) (inl image) ∈ h ->
  wp guard (Images.onChange hex_sha256 ranged ranged_sites Seeder image) h (fun _ _ => True).
Proof.
  intros Hin. assert (Hi : image_of h image) by (left; eauto). unfold Images.onChange, ensureContentOwnerRefs, aggregateSlotContents.
  eapply wp_seq; [by apply own_slots_guarded|]. intros [err|] h1 Hg1; [exact I|].
  destruct (String.eqb_spec (img_State (image_Status image)) ImageStateReady) as [Hs|Hs].
  { apply image_seeder_guarded. left. eauto. }
  eapply wp_seq; [apply aggregate_guarded|]. intros [agg|err] h2 [Hg2 Hagg]; [|exact I].
  assert (Hi2 : image_of h2 image) by eauto.
  destruct (agg_stale agg) eqn:Hst; [exact I|]. cbv zeta. set (image' := setImageValidCondition _ _ image).
  assert (Hm : image_meta image' = image_meta image /\ image_Spec image' = image_Spec image) by (subst image'; unfold setImageValidCondition; by destruct (_ =? _)%nat).
  destruct Hm as [Hm Hsp].
  destruct (agg_failed agg) as [|f fs] eqn:Hf; [|apply (record_image_guarded _ _ _ _ image); [done..|by right; left]].
  destruct (agg_notReady agg) as [|n ns] eqn:Hn; [|apply (record_image_guarded _ _ _ _ image); [done..|by left]].
  destruct (agg_invalidSizes agg) as [|v vs] eqn:Hv; cbn [length Nat.eqb];
    [|apply (record_image_guarded _ _ _ _ image); [done..|by left]].
  unfold recordImageReady. apply wp_bind. eapply wp_seq; [apply (apply_guarded image); [done..|]|].
  - right. split; [done|]. by apply Hagg with agg.
  - intros [image2|err] h3 ->; cbn [wp]; [|exact I]. apply image_seeder_guarded. right. eexists. split; [apply grows_last|done].
Qed.

Lemma image_Reconcile_guarded key : wp guard (reconcile key) [] (fun _ _ => True).
Proof.
  unfold Images.Reconcile. apply wp_bind. split; [done|]. intros [image|err] _; cbn [guard history step]; cbn [wp]; [|exact I].
  eapply image_change_guarded. apply (grows_last []).
Qed.

(** C11. What the Image reconciler writes, in every run and whatever the API server
    answers.  An Image is made Ready only if every content its slots name was
    read in this run as Ready at its current generation, not Failed and no
    larger than the slot; other status writes keep the state or set Pending or
    Failed.  Contents only gain this Image as an owner.  A seeder Deployment is
    created only for a Ready Image, with a configured seeder and a Site whose
    demand, computed in this run, is positive; only Deployments the Image
    controls are patched, never their selector; and one is deleted only if its
    Site has no demand and the time it was marked empty lies at least the grace
    period before the clock read in this run. *)
Theorem image_writes_are_guarded key tr1 e r tr2 res
    (Hrun : runs (reconcile key) (tr1 ++ ev e r :: tr2) res) :
  permitted tr1 e.
Proof.
  apply (history_obeyed permitted (fun _ _ => True) _ _ _ _ _ _ _ (image_Reconcile_guarded key) Hrun). by apply Forall_forall.
Qed.
End Guard.

(** ** Names that are not unique *)

Section Names.
Context `{ApiMachinery} `{Encodings} (hex_sha256 : string -> string) (Seeder : ImageSeederConfig).

(** The name depends on the first 41 characters of the Image's. *)
Lemma SeederName_prefix name1 name2 site : (8 <= String.length (hex_sha256 site))%nat ->
  String.substring 0 41 name1 = String.substring 0 41 name2 -> SeederName hex_sha256 name1 site = SeederName hex_sha256 name2 site.
Proof.
  intros Hd Hp. unfold SeederName. cbv zeta. rewrite string_length_app, substring_length by done.
  change (maxNameLength - String.length namePrefix - (String.length "-" + 8))%nat with 41%nat.
  assert (Hb : forall n, (if (41 <? String.length n)%nat then String.substring 0 41 n else n) = String.substring 0 41 n).
  { intros n. destruct (Nat.ltb_spec 41 (String.length n)); [done|]. symmetry. by apply substring_all. }
  by rewrite !Hb, Hp.
Qed.

(** Two Images of a namespace whose names agree on their first 41 characters
    want the same seeder Deployment at a Site: once the first Image has it, the
    second one's reconcile of that Site reports a foreign owner and leaves it
    without a seeder, however large its demand. *)
Theorem long_names_share_a_seeder (w : forall e, option (resp e)) (image1 image2 : Image) site demand contents (dep : Deployment) refs err
    (Hhex : (8 <= String.length (hex_sha256 site))%nat) (Hns : Namespace image1 = Namespace image2)
    (Hprefix : String.substring 0 41 (Name image1) = String.substring 0 41 (Name image2)) (Huid : UID image1 <> UID image2)
    (Hkey : key_of dep = mkKey (Namespace image1) (SeederName hex_sha256 (Name image1) site)) (Hown : IsControlledBy dep image1 = true)
    (Hseeder : seeder_ready Seeder = true) (Hdemand : 0 < sd_count demand)
    (Hrefs : SetControllerReference [] image2 = inl refs)
    (Hcreate : forall d : Deployment, key_of d = key_of dep -> w (ECreate KDeployment d) = Some (inr err)) (Hexists : IsAlreadyExists err = true)
    (Hget : w (EGet KDeployment (key_of dep)) = Some (inl dep)) :
  interp w (reconcileImageSeederSite hex_sha256 Seeder image2 site (Some demand) None contents) =
    Some (inl (noRequeue, Some (seederProblemForeignOwner site))).
Proof.
  unfold reconcileImageSeederSite, createImageSeederDeployment, owned. rewrite (proj2 (Z.ltb_lt _ _) Hdemand), Hseeder. cbn [negb].
  cbv zeta. change (OwnerReferences (buildImageSeederDeployment _ _ _ _ _ _)) with (@nil OwnerReference). rewrite Hrefs.
  assert (Hname : SeederName hex_sha256 (Name image2) site = SeederName hex_sha256 (Name image1) site) by (symmetry; by apply SeederName_prefix).
  match goal with |- context [Create KDeployment ?x] => set (d := x) end.
  assert (Hk : key_of d = key_of dep) by (rewrite Hkey, Hns, <- Hname; reflexivity).
  rewrite interp_bind, interp_bind. unfold Create, call. cbn [interp]. rewrite (Hcreate d Hk), Hexists. cbn [negb].
  rewrite interp_bind. unfold Get, call. cbn [interp]. rewrite Hk, Hget. cbn [interp].
  assert (Hf : IsControlledBy dep image2 = false); [|by rewrite Hf].
  unfold IsControlledBy in *. destruct (find_first or_Controller _) as [ref|]; [|done].
  apply String.eqb_eq in Hown. apply String.eqb_neq. congruence.
Qed.

(** The pod of a seeder is malformed when two contents of the Image have the
    same bytes: an info hash is an address of content, not of an object, and the
    volumes are named after it, so the pod lists two volumes of one name. *)
Theorem equal_contents_share_a_volume image site contents res i j c1 c2
    (Hi : contents !! i = Some c1) (Hj : contents !! j = Some c2) (Hij : i <> j) (Hhash : seeded_infoHash c1 = seeded_infoHash c2) :
  ~ NoDup (map vol_Name (ps_Volumes (pt_Spec (ds_Template (dep_Spec (buildImageSeederDeployment hex_sha256 Seeder image site contents res)))))).
Proof.
  cbn [buildImageSeederDeployment dep_Spec ds_Template pt_Spec ps_Volumes]. rewrite map_map. intros Hn. apply Hij.
  eapply (proj1 (NoDup_alt _) Hn i j (seederContentVolumeName (seeded_infoHash c1))); rewrite list_lookup_fmap.
  - by rewrite Hi.
  - by rewrite Hj, Hhash.
Qed.

(** What the server fills in counts as drift: a stored Deployment whose containers
    carry a default the builder leaves empty is patched at every reconcile. *)
Lemma defaulted_seeder_drifts image site contents res (dep : Deployment) :
  Exists (fun c => c_TerminationMessagePath c <> "") (ps_Containers (pt_Spec (ds_Template (dep_Spec dep)))) ->
  placement_drift (buildImageSeederDeployment hex_sha256 Seeder image site contents res) dep = true.
Proof.
  intros Hx. unfold placement_drift. apply negb_true_iff, andb_false_iff. right. apply bool_decide_eq_false. intros Heq.
  rewrite Heq in Hx. cbn [buildImageSeederDeployment dep_Spec ds_Template pt_Spec ps_Containers seeder_containers] in Hx.
  apply Exists_cons in Hx as [Hx|Hx]; [done|]. apply Exists_cons in Hx as [Hx|Hx]; [done|]. by apply Exists_nil in Hx.
Qed.
End Names.

(** ** Witnesses *)

Module Sample.
#[local] Existing Instance SimpleMeta.ops.
#[local] Existing Instance SimpleEncodings.encodings.

Definition digest (s : string) : string := "0123456789abcdef".
Definition cfg : ImageSeederConfig := mkSeederConfig "seeder:1" 0 0 0.

Definition meta (name uid : string) (annotations : gmap string string) (owners : list OwnerReference) : ObjectMeta :=
  mkObjectMeta name "ns" uid "1" 1 0 None [] ∅ annotations owners.

Definition slot (content : string) : ImageSlot := mkImageSlot 1 "" (Some (mkNameRef "" content)) "" "" "" "" 0.
Definition image (name uid : string) (slots : list ImageSlot) : Image :=
  mkImage (meta name uid ∅ []) (mkImageSpec "" None (mkLayout "gpt" "{}" slots) None []) (mkImageStatus ImageStateReady []).

Definition owner (i : Image) : list OwnerReference := match SetControllerReference [] i with inl refs => refs | inr _ => [] end.

(** A seeder of the Image, marked empty at time zero. *)
Definition seeder (i : Image) (site : string) : Deployment :=
  buildImageSeederDeployment digest cfg i site [] (mkResolution site "" true "" None ∅ None)
    <| deployment_meta := meta (SeederName digest (Name i) site) "uid-d"
         (<[imageSeederSiteAnnotation := site]> {[imageSeederEmptySinceAnnotation := FormatRFC3339 0]}) (owner i) |>.

Definition idle : Image := image "img" "uid-i" [].

Definition handler (e : eff) (u : unit) : option (resp e * unit) :=
  match e return option (resp e * unit) with
  | EGet KImage _ => Some (inl idle, u)
  | EList KMachine _ => Some (inl [], u)
  | EList KRun _ => Some (inl [], u)
  | EListLabels KDeployment _ _ => Some (inl [seeder idle "ns/site"], u)
  | ENow => Some (10 * Minute, u)
  | EDelete _ _ => Some (None, u)
  | _ => None
  end.

Definition prog : go reply := Images.Reconcile digest (fun l => l) (fun l => l) cfg (mkKey "ns" "img").
Definition run_trace : trace resp := match exec handler prog tt with Some (_, _, tr) => tr | None => [] end.

(** Two Images whose names differ after the 41st character. *)
Definition long : string := "ubuntu-24.04-server-cloudimg-amd64-daily-".
Definition first : Image := image (long +:+ "monday") "uid-1" [].
Definition second : Image := image (long +:+ "tuesday") "uid-2" [].

Definition taken (e : eff) : option (resp e) :=
  match e return option (resp e) with
  | ECreate _ _ => Some (inr (mkErr KAlreadyExists "exists"))
  | EGet KDeployment _ => Some (inl (seeder first "ns/site"))
  | _ => None
  end.
End Sample.

Lemma image_writes_are_guarded_witness :
  exists key r tr1, Sample.run_trace = tr1 ++ [ev (EDelete KDeployment key) r] /\
    permitted (H := SimpleMeta.ops) (H0 := SimpleEncodings.encodings) Sample.digest (fun l => l) Sample.cfg tr1 (EDelete KDeployment key).
Proof.
  assert (Hrun : exists res, runs Sample.prog Sample.run_trace res).
  { eexists. eapply (exec_runs Sample.handler _ tt _ tt). vm_compute. reflexivity. }
  destruct Hrun as [res Hrun].
  assert (Hsplit : exists key r, Sample.run_trace = firstn 5 Sample.run_trace ++ [ev (EDelete KDeployment key) r]).
  { do 2 eexists. vm_compute. reflexivity. }
  destruct Hsplit as (key & r & Hs). exists key, r, (firstn 5 Sample.run_trace). split; [exact Hs|].
  apply (image_writes_are_guarded (H := SimpleMeta.ops) (H0 := SimpleEncodings.encodings) Sample.digest (fun l => l) (fun l => l) Sample.cfg (mkKey "ns" "img")
    (firstn 5 Sample.run_trace) (EDelete KDeployment key) r [] res).
  rewrite <- Hs. exact Hrun.
Defined.

Lemma long_names_share_a_seeder_witness :
  interp Sample.taken (reconcileImageSeederSite (H := SimpleMeta.ops) (H0 := SimpleEncodings.encodings) Sample.digest Sample.cfg Sample.second "ns/site"
    (Some (mkSiteDemand 3 (mkResolution "ns/site" "" true "" None ∅ None))) None []) =
  Some (inl (noRequeue, Some (seederProblemForeignOwner "ns/site"))).
Proof.
  eapply (long_names_share_a_seeder (H := SimpleMeta.ops) (H0 := SimpleEncodings.encodings) Sample.digest Sample.cfg Sample.taken Sample.first Sample.second
    "ns/site" (mkSiteDemand 3 (mkResolution "ns/site" "" true "" None ∅ None)) [] (Sample.seeder Sample.first "ns/site")).
  - vm_compute. lia.
  - reflexivity.
  - reflexivity.
  - discriminate.
  - vm_compute. reflexivity.
  - vm_compute. reflexivity.
  - reflexivity.
  - reflexivity.
  - reflexivity.
  - intros d _. reflexivity.
  - reflexivity.
  - reflexivity.
Defined.

Lemma equal_contents_share_a_volume_witness :
  ~ NoDup (map vol_Name (ps_Volumes (pt_Spec (ds_Template (dep_Spec (buildImageSeederDeployment Sample.digest Sample.cfg Sample.idle "ns/site"
      [mkSeeded "home" PlanSafety.Sample.hex40; mkSeeded "spare" PlanSafety.Sample.hex40] (mkResolution "ns/site" "" true "" None ∅ None))))))).
Proof.
  apply (equal_contents_share_a_volume Sample.digest Sample.cfg Sample.idle "ns/site" _ _ 0 1 (mkSeeded "home" PlanSafety.Sample.hex40)
    (mkSeeded "spare" PlanSafety.Sample.hex40)); [reflexivity|reflexivity|discriminate|reflexivity].
Defined.
