(* ===== verification/Sites.v ===== *)
(** * Sites: the Site reconciler

    [src/internal/controller/site_*.go]: which Subnets belong to a Site, whether
    its seeder runs, and the tracker Deployment pinned to the Site's address on
    the seeding Subnet, with the check that the tracker's pod really holds it.

    Multus' JSON (the selection that is written, the network status that is
    read) and the digest are parameters; addresses are IPv4. *)

From S2P Require Import Prelude Text Api Effects Workloads Cluster Machine SubnetDhcp SiteDerive NetValidate Webhooks Subnets SeedDemand Images.
Local Open Scope string_scope.
Local Open Scope list_scope.
Local Open Scope Z_scope.

(** ** The tracker Deployment *)

Record TrackerDeploymentConfig := mkTrackerConfig { tc_Image : string }.
Definition tracker_enabled (c : TrackerDeploymentConfig) : bool := tc_Image c <>s "".

Definition trackerAppNameLabel : string := "app.kubernetes.io/name".
Definition trackerAppNameValue : string := "kezio".
Definition trackerAppComponentLabel : string := "app.kubernetes.io/component".
Definition trackerComponentValue : string := "tracker".
Definition trackerDeploymentSiteLabel : string := "kezio.kojuro.date/tracker-site".
Definition trackerDeploymentNamePrefix : string := "kezio-tracker-".
Definition trackerMaxNameLength : nat := 63.
Definition trackerAnnouncePort : Z := 6969.
Definition trackerNetworkStatusAnnotation : string := "k8s.v1.cni.cncf.io/network-status".
Definition trackerNetworkMissingReason : string := "TrackerNetworkMissing".
Definition trackerNetworkIPMismatchReason : string := "TrackerNetworkIPMismatch".
Definition trackerDeploymentOwnershipRequeueAfter : Z := Minute.
Definition PodRunning : string := "Running".

Record trackerNetworkSelectionElement := mkSelection { sel_Name : string; sel_Namespace : string; sel_IPs : list string }.
Record trackerNetworkStatusEntry := mkNetworkStatus { net_Name : string; net_IPs : list string }.

(** The number of leading ones of a 32-bit mask. *)
Definition mask_ones (mask : Z) : Z := 32 - Z.log2 (2 ^ 32 - mask).

Definition trackerIPWithPrefix (subnetCIDR ip : string) : string + GoErr :=
  match ParseCIDR subnetCIDR with
  | None => inr (wrapf "seeding Subnet cidr %q: %w" [subnetCIDR] (errorf "invalid CIDR address: %s" [subnetCIDR]))
  | Some (_, mask) => inl (sprintf "%s/%d" [ip; show_dec (mask_ones mask)])
  end.

Definition trackerAnnounceURL (ip : string) : string := sprintf "http://%s:%d/announce" [ip; show_dec trackerAnnouncePort].

Definition tracker_labels (siteName : string) : gmap string string :=
  <[trackerAppNameLabel := trackerAppNameValue]> (<[trackerAppComponentLabel := trackerComponentValue]> {[trackerDeploymentSiteLabel := siteName]}).

Definition trackerDeploymentUnavailableReason (dep : Deployment) : string * string :=
  match find_first (fun c => (dc_Type c =s DeploymentReplicaFailure) && (dc_Status c =s ConditionTrue)) (dep_Conditions dep) with
  | Some c => (dc_Reason c, sprintf "tracker Deployment could not create its pod: %s" [dc_Message c])
  | None =>
    match find_first (fun c => (dc_Type c =s DeploymentProgressing) && (dc_Status c =s ConditionFalse)) (dep_Conditions dep) with
    | Some c => (dc_Reason c, sprintf "tracker Deployment stopped progressing: %s" [dc_Message c])
    | None => ("TrackerDeploymentUnavailable", "tracker Deployment for this Site has not become Available yet")
    end
  end.

Section Tracker.
Context (hex_sha256 : string -> string) (MarshalSelection : list trackerNetworkSelectionElement -> string).
Context (UnmarshalStatus : string -> list trackerNetworkStatusEntry + string).

Definition trackerDeploymentName (siteName : string) : string :=
  let name := trackerDeploymentNamePrefix +:+ siteName in
  if (String.length name <=? trackerMaxNameLength)%nat then name
  else
  let suffix := "-" +:+ String.substring 0 8 (hex_sha256 siteName) in
  let maxBaseLen := (trackerMaxNameLength - String.length trackerDeploymentNamePrefix - String.length suffix)%nat in
  trackerDeploymentNamePrefix +:+ String.substring 0 maxBaseLen siteName +:+ suffix.

Definition trackerPodAnnotations (seedingSubnet : Subnet) (ip : string) : gmap string string + GoErr :=
  match sub_SeederNetworkRef (sub_Spec seedingSubnet) with
  | None => inl ∅
  | Some ref =>
    match trackerIPWithPrefix (sub_CIDR (sub_Spec seedingSubnet)) ip with
    | inr err => inr err
    | inl ipWithPrefix =>
      inl {[multusDefaultNetworkAnnotation :=
              MarshalSelection [mkSelection (nr_Name ref) (resolveNamespace ref (Namespace seedingSubnet)) [ipWithPrefix]]]}
    end
  end.

Definition tracker_container (cfg : TrackerDeploymentConfig) : Container :=
  mkContainer "tracker" (tc_Image cfg) ["/bin/opentracker"] ["-p"; show_dec trackerAnnouncePort] []
    [mkPort "announce-tcp" trackerAnnouncePort ProtocolTCP; mkPort "announce-udp" trackerAnnouncePort ProtocolUDP] []
    (Some (mkSecurity (Some 65534) (Some 65534) None None (Some false) (Some true) [] ["ALL"]))
    (mkResources (<["cpu" := "250m"]> {["memory" := "128Mi"]}) (<["cpu" := "50m"]> {["memory" := "32Mi"]})) None "" "".

Definition buildTrackerDeployment (site : Site) (seedingSubnet : Subnet) (cfg : TrackerDeploymentConfig) : Deployment + GoErr :=
  match trackerPodAnnotations seedingSubnet (tr_IP (site_Tracker (site_Spec site))) with
  | inr err => inr err
  | inl annotations =>
    let labels := tracker_labels (Name site) in
    inl (mkDeployment (new_meta (trackerDeploymentName (Name site)) (Namespace site) labels ∅)
      (mkDeploymentSpec 1 RecreateDeploymentStrategyType (Some labels)
        (mkTemplate labels annotations
          (mkPodSpec "" "" (nodeSelectorOrNil (sub_NodeSelector (sub_Spec seedingSubnet)))
            (Some (mkPodSecurity (Some true) None None None (Some SeccompProfileTypeRuntimeDefault))) []
            [tracker_container cfg] []))) 0 [])
  end.

(** [None] when the pod holds the address; the reason and message otherwise. *)
Definition trackerPodNetworkIssue (pod : Pod) (nadNamespace nadName wantIP : string) : option (string * string) :=
  let raw := default "" (Annotations pod !! trackerNetworkStatusAnnotation) in
  if raw =s "" then
    Some (trackerNetworkMissingReason, sprintf "tracker pod %s/%s carries no %s annotation; its Multus attachment cannot be confirmed"
            [Namespace pod; Name pod; trackerNetworkStatusAnnotation])
  else
  match UnmarshalStatus raw with
  | inr err => Some (trackerNetworkMissingReason, sprintf "tracker pod %s/%s carries an unparseable %s annotation: %v"
                       [Namespace pod; Name pod; trackerNetworkStatusAnnotation; err])
  | inl entries =>
    let want := nadNamespace +:+ "/" +:+ nadName in
    match find_first (fun entry => net_Name entry =s want) entries with
    | Some entry =>
      if existsb (fun ip => ip =s wantIP) (net_IPs entry) then None
      else Some (trackerNetworkIPMismatchReason, sprintf "tracker pod %s/%s is attached to NAD %s but holds %v, not spec.tracker.ip %q"
                   [Namespace pod; Name pod; want; "[" +:+ concat " " (net_IPs entry) +:+ "]"; wantIP])
    | None => Some (trackerNetworkMissingReason, sprintf "tracker pod %s/%s carries no %s entry for NAD %s; Multus may have failed to attach it"
                      [Namespace pod; Name pod; trackerNetworkStatusAnnotation; want])
    end
  end.

(** The first live pod that runs, or the first live one. *)
Definition selectTrackerPod (pods : list Pod) : option Pod :=
  let live := List.filter (fun p : Pod => bool_decide (DeletionTimestamp p = None)) pods in
  match find_first (fun p => pod_Phase p =s PodRunning) live with
  | Some pod => Some pod
  | None => head live
  end.

(** ** Conditions *)

Record siteValidationFailure := mkSiteFailure { svf_reason : string; svf_message : string }.

Definition first_verdict (v : Verdict) (checks : list CheckResult) : option CheckResult :=
  find_first (fun c => bool_decide (ck_Verdict c = v)) checks.

Abbreviation verdict := (string * string * string)%type.
Definition of_failure (f : siteValidationFailure) : verdict := (ConditionFalse, svf_reason f, svf_message f).
Definition of_check (status : string) (c : CheckResult) : verdict := (status, ck_Reason c, ck_Message c).

Definition site_valid (invalid : option siteValidationFailure) (checks : list CheckResult) : verdict :=
  match invalid, first_verdict Violation checks, first_verdict Indeterminate checks with
  | Some f, _, _ => of_failure f
  | None, Some v, _ => of_check ConditionFalse v
  | None, None, Some i => of_check ConditionUnknown i
  | None, None, None => (ConditionTrue, "SiteValid", "no blocking validation issues found")
  end.

Definition site_ready (invalid : option siteValidationFailure) (checks : list CheckResult) (trackerWanted depConfigured depAvailable : bool)
    (depReason depMessage : string) (netFailure : option siteValidationFailure) : verdict :=
  match invalid, first_verdict Violation checks with
  | Some f, _ => of_failure f
  | None, Some v => of_check ConditionFalse v
  | None, None =>
    if trackerWanted && (negb depConfigured || negb depAvailable) then (ConditionFalse, depReason, depMessage)
    else
    match netFailure, first_verdict Indeterminate checks with
    | Some f, _ => of_failure f
    | None, Some i => of_check ConditionUnknown i
    | None, None =>
      if trackerWanted then (ConditionTrue, "SiteTrackerReady", "tracker Deployment is available and validation found no issues")
      else (ConditionTrue, "SiteReady", "this Site carries no tracker Deployment of its own; validation found no issues")
    end
  end.

Definition site_network (invalid : option siteValidationFailure) (checks : list CheckResult) (trackerWanted depConfigured depAvailable : bool)
    (netFailure : option siteValidationFailure) : verdict :=
  if negb trackerWanted then (ConditionTrue, "SiteTrackerNetworkNotApplicable", "this Site carries no tracker Deployment of its own")
  else
  match invalid, first_verdict Violation checks, netFailure with
  | Some _, _, _ | None, Some _, _ =>
    (ConditionUnknown, "SiteTrackerNetworkUnchecked", "the tracker address check did not run because of a blocking validation issue")
  | None, None, Some f => of_failure f
  | None, None, None =>
    if negb depConfigured || negb depAvailable then
      (ConditionUnknown, "SiteTrackerNetworkUnchecked", "tracker Deployment is not Available yet; its Multus attachment has not been checked")
    else (ConditionTrue, "SiteTrackerNetworkReady", "tracker pod's Multus attachment matches spec.tracker.ip")
  end.
End Tracker.

Section Reconciler.
Context `{ApiMachinery} (hex_sha256 : string -> string) (MarshalSelection : list trackerNetworkSelectionElement -> string).
Context (UnmarshalStatus : string -> list trackerNetworkStatusEntry + string).
Context (UnmarshalTop : string -> option string * list (option string) + string) (UnmarshalIPAM : string -> cniIPAM + string).
Context (TrackerDeployment : TrackerDeploymentConfig).

Definition site_judged (site : Site) (invalid : option siteValidationFailure) (checks : list CheckResult)
    (trackerWanted depConfigured depAvailable : bool) (depReason depMessage : string) (netFailure : option siteValidationFailure) : Site :=
  let set type v cs := SetStatusCondition cs (condition_of type (Generation site) v) in
  site <| site_Status := (site_Status site) <| site_Conditions :=
    set SiteConditionTrackerNetworkReady (site_network invalid checks trackerWanted depConfigured depAvailable netFailure)
      (set SiteConditionReady (site_ready invalid checks trackerWanted depConfigured depAvailable depReason depMessage netFailure)
        (set SiteConditionValid (site_valid invalid checks) (site_Conditions (site_Status site)))) |> |>.

Definition updateSiteConditions (site : Site) (invalid : option siteValidationFailure) (checks : list CheckResult)
    (trackerWanted depConfigured depAvailable : bool) (depReason depMessage : string) (netFailure : option siteValidationFailure) : go (option GoErr) :=
  r <- StatusUpdate KSite (site_judged site invalid checks trackerWanted depConfigured depAvailable depReason depMessage netFailure) ;;
  Ret match r with inr err => Some (wrapf "update site status: %w" [] err) | inl _ => None end.

(** ** Reads *)

Definition listSubnetRefs (site : Site) : go (list string + GoErr) :=
  r <- List_ KSubnet (Namespace site) ;;
  Ret match r with
      | inr err => inr (wrapf "list subnets: %w" [] err)
      | inl subnets => inl (sort_by String.ltb
          (map (fun s : Subnet => Name s) (List.filter (fun s : Subnet => nr_Name (sub_SiteRef (sub_Spec s)) =s Name site) subnets)))
      end.

Definition resolveSeedingSubnet (site : Site) (ref : NameRef) : go (Subnet + siteValidationFailure + GoErr) :=
  let ns := resolveNamespace ref (Namespace site) in
  r <- Get KSubnet (mkKey ns (nr_Name ref)) ;;
  Ret match r with
      | inr err =>
        if IsNotFound err then
          inl (inr (mkSiteFailure "SeederSubnetNotFound" (sprintf "spec.seederSubnetRef names Subnet %s/%s, which does not exist" [ns; nr_Name ref])))
        else inr (wrapf "get seeder subnet %s/%s: %w" [ns; nr_Name ref] err)
      | inl subnet =>
        let subnet : Subnet := subnet in
        let named := nr_Name (sub_SiteRef (sub_Spec subnet)) in
        if named <>s Name site then
          inl (inr (mkSiteFailure "SeederSubnetNotOwned"
            (sprintf "spec.seederSubnetRef names Subnet %s/%s, but that Subnet's spec.siteRef now names %q, not %q: a Site cannot use a Subnet of another Site as its seeding Subnet, because routability is not guaranteed across that line"
               [ns; nr_Name ref; named; Name site])))
        else inl (inl subnet)
      end.

Definition seederPlacementReady (subnet : Subnet) : go (bool + GoErr) :=
  r <- ListLabels KDeployment (Namespace subnet)
         (<[partitionContentAppComponentLabel := partitionContentSeederComponentValue]>
            {[partitionContentSeederSubnetLabel := Name subnet]}) ;;
  Ret match r with
      | inr err => inr (wrapf "list seeder deployments: %w" [] err)
      | inl deps => inl (existsb (fun d : Deployment => 0 <? dep_AvailableReplicas d) deps)
      end.

Definition runTrackerAddressCheck (site : Site) (seedingSubnet : Subnet) (ref : NameRef) : go (list CheckResult + GoErr) :=
  r <- fetchNADConfig ref (Namespace seedingSubnet) ;;
  Ret match r with
      | inr err => if negb (isIndeterminateNADErr err) then inr err else inl [indeterminateFromFetchErr "Seeder" "seeder NAD" err]
      | inl seederConfig =>
        let ip := tr_IP (site_Tracker (site_Spec site)) in
        inl [CheckTrackerAddress UnmarshalTop UnmarshalIPAM (sub_CIDR (sub_Spec seedingSubnet)) seederConfig ip;
             CheckSeederStaticWithTracker UnmarshalTop UnmarshalIPAM seederConfig ip]
      end.

Definition trackerPodNetworkCheck (site : Site) (seedingSubnet : Subnet) (ref : NameRef) : go (option siteValidationFailure + GoErr) :=
  r <- ListLabels KPod (Namespace site) (tracker_labels (Name site)) ;;
  match r with
  | inr err => Ret (inr (wrapf "list tracker pods: %w" [] err))
  | inl pods =>
    match selectTrackerPod pods with
    | None => Ret (inl None)
    | Some pod =>
      match trackerPodNetworkIssue UnmarshalStatus pod (resolveNamespace ref (Namespace seedingSubnet)) (nr_Name ref) (tr_IP (site_Tracker (site_Spec site))) with
      | None => Ret (inl None)
      | Some (reason, message) => Event (Name site) EventTypeWarning reason message ;; Ret (inl (Some (mkSiteFailure reason message)))
      end
    end
  end.

(** ** The Deployment *)

(** The Deployment and whether it is someone else's, or why there can be none. *)
Definition reconcileTrackerDeployment (site : Site) (seedingSubnet : Subnet) : go (Deployment * bool + siteValidationFailure + GoErr) :=
  match buildTrackerDeployment hex_sha256 MarshalSelection site seedingSubnet TrackerDeployment with
  | inr err =>
    Ret (inl (inr (mkSiteFailure "SeederSubnetCIDRUnparseable"
      (sprintf "seeding Subnet %s/%s cidr %q cannot be parsed, so the tracker's pinned address cannot be given the CIDR notation Multus requires: %v"
         [Namespace seedingSubnet; Name seedingSubnet; sub_CIDR (sub_Spec seedingSubnet); emsg err]))))
  | inl dep =>
    match owned (fun m => dep <| deployment_meta := m |>) dep site with
    | inr err => Ret (inr (wrapf "set owner reference on tracker deployment: %w" [] err))
    | inl desired =>
      r <- Get KDeployment (key_of dep) ;;
      match r with
      | inr err =>
        if IsNotFound err then
          r <- Create KDeployment desired ;;
          Ret match r with
              | inl created => inl (inl (created, false))
              | inr err => if IsAlreadyExists err then inl (inl (desired, false)) else inr (wrapf "create tracker deployment: %w" [] err)
              end
        else Ret (inr (wrapf "get tracker deployment: %w" [] err))
      | inl existing =>
        let existing : Deployment := existing in
        if negb (IsControlledBy existing site) then Ret (inl (inl (existing, true)))
        else if bool_decide (dep_Spec existing = dep_Spec desired) && bool_decide (Labels existing = Labels desired) then
          Ret (inl (inl (existing, false)))
        else
        r <- Update KDeployment (existing <| deployment_meta := (deployment_meta existing) <| Labels := Labels desired |> |>
                                   <| dep_Spec := dep_Spec desired |>) ;;
        Ret match r with inr err => inr (wrapf "update tracker deployment: %w" [] err) | inl updated => inl (inl (updated, false)) end
      end
    end
  end.

(** ** The reconciler *)

Definition reply_of (after : Z) (err : option GoErr) : reply :=
  match err with Some err => (noRequeue, Some err) | None => (requeueAfter after, None) end.

Definition with_tracker (seederReady : bool) (url : string) (site : Site) : Site :=
  site <| site_Status := (site_Status site) <| site_SeederReady := seederReady |> <| site_TrackerURL := url |> |>.

(** From the point where the tracker is kezio's own and has an attachment. *)
Definition serve_tracker (site : Site) (subnet : Subnet) (ref : NameRef) (checks : list CheckResult) : go reply :=
  r <- reconcileTrackerDeployment site subnet ;;
  match r with
  | inr err => Ret (noRequeue, Some err)
  | inl (inr invalid) => err <- updateSiteConditions site (Some invalid) checks false false false "" "" None ;; Ret (reply_of 0 err)
  | inl (inl (dep, true)) =>
    err <- updateSiteConditions site None checks true true false "TrackerDeploymentOwnership"
             (sprintf "a Deployment named %s/%s already exists and is not controlled by this Site - refusing to adopt or overwrite it" [Namespace dep; Name dep]) None ;;
    Ret (reply_of trackerDeploymentOwnershipRequeueAfter err)
  | inl (inl (dep, false)) =>
    let depAvailable := deploymentAvailable dep in
    let '(depReason, depMessage) := trackerDeploymentUnavailableReason dep in
    r <- (if depAvailable then trackerPodNetworkCheck site subnet ref else Ret (inl None)) ;;
    match r with
    | inr err => Ret (noRequeue, Some err)
    | inl netFailure => err <- updateSiteConditions site None checks true true depAvailable depReason depMessage netFailure ;; Ret (reply_of 0 err)
    end
  end.

Definition onChange (site : Site) : go reply :=
  r <- listSubnetRefs site ;;
  match r with
  | inr err => Ret (noRequeue, Some err)
  | inl subnetRefs =>
    let site := site <| site_Status := (site_Status site) <| site_SubnetRefs := subnetRefs |> |> in
    let finish site invalid := err <- updateSiteConditions site invalid [] false false false "" "" None ;; Ret (reply_of 0 err) in
    match site_SeederSubnetRef (site_Spec site) with
    | None => finish (with_tracker false "" site) None
    | Some seederRef =>
      r <- resolveSeedingSubnet site seederRef ;;
      match r with
      | inr err => Ret (noRequeue, Some err)
      | inl (inr invalid) => finish (with_tracker false "" site) (Some invalid)
      | inl (inl subnet) =>
        r <- seederPlacementReady subnet ;;
        match r with
        | inr err => Ret (noRequeue, Some err)
        | inl seederReady =>
          let tracker := site_Tracker (site_Spec site) in
          if tr_ExternalURL tracker <>s "" then finish (with_tracker seederReady (tr_ExternalURL tracker) site) None
          else
          let site := with_tracker seederReady (trackerAnnounceURL (tr_IP tracker)) site in
          match sub_SeederNetworkRef (sub_Spec subnet) with
          | None =>
            finish site (Some (mkSiteFailure "SeederNetworkRefMissing"
              (sprintf "seeding Subnet %s/%s has no seederNetworkRef, so this Site's tracker cannot be single-homed on a pinned address" [Namespace subnet; Name subnet])))
          | Some ref =>
            r <- runTrackerAddressCheck site subnet ref ;;
            match r with
            | inr err => Ret (noRequeue, Some err)
            | inl checks =>
              if negb (tracker_enabled TrackerDeployment) then
                err <- updateSiteConditions site None checks true false false "SiteTrackerDeploymentImageUnconfigured"
                         "no tracker Deployment image is configured on the manager (TRACKER_DEPLOYMENT_IMAGE); the tracker is not reconciled for this Site" None ;;
                Ret (reply_of 0 err)
              else serve_tracker site subnet ref checks
            end
          end
        end
      end
    end
  end.

Definition onDelete (site : Site) : go reply := Ret (noRequeue, None).

Definition Reconcile (key : ObjectKey) : go reply :=
  r <- Get KSite key ;;
  match r with
  | inr err => Ret (noRequeue, if IsNotFound err then None else Some err)
  | inl site =>
    let site : Site := site in
    match DeletionTimestamp site with Some _ => onDelete site | None => onChange site end
  end.

(** ** Watches *)

Definition mapSubnetToSite (subnet : Subnet) : list ObjectKey :=
  let ref := sub_SiteRef (sub_Spec subnet) in
  if nr_Name ref =s "" then [] else [mkKey (Namespace subnet) (nr_Name ref)].

Definition mapSeederDeploymentToSite (dep : Deployment) : list ObjectKey :=
  if default "" (Labels dep !! partitionContentAppComponentLabel) <>s partitionContentSeederComponentValue then []
  else
  match cut_at "/" (default "" (Annotations dep !! imageSeederSiteAnnotation)) with
  | Some (ns, name) => if (ns =s "") || (name =s "") then [] else [mkKey ns name]
  | None => []
  end.

Definition mapTrackerPodToSite (pod : Pod) : list ObjectKey :=
  if default "" (Labels pod !! trackerAppComponentLabel) <>s trackerComponentValue then []
  else
  let site := default "" (Labels pod !! trackerDeploymentSiteLabel) in
  if site =s "" then [] else [mkKey (Namespace pod) site].
End Reconciler.

(** ** What the reconciler may write *)

Section Guard.
Context `{ApiMachinery} (hex_sha256 : string -> string) (MarshalSelection : list trackerNetworkSelectionElement -> string).
Context (UnmarshalStatus : string -> list trackerNetworkStatusEntry + string).
Context (UnmarshalTop : string -> option string * list (option string) + string) (UnmarshalIPAM : string -> cniIPAM + string).
Context (TrackerDeployment : TrackerDeploymentConfig).

Abbreviation reconcile := (Reconcile hex_sha256 MarshalSelection UnmarshalStatus UnmarshalTop UnmarshalIPAM TrackerDeployment).
Abbreviation past := (trace resp).

(** A live Site that was read. *)
Definition site_read (h : past) (site : Site) : Prop :=
  DeletionTimestamp site = None /\ exists key, ev (R := resp) (EGet KSite key) (inl site) ∈ h.

(** The Site runs a tracker of its own, on a seeding Subnet read in this run. *)
Definition tracked (h : past) (site : Site) (subnet : Subnet) : Prop :=
  exists ref, site_SeederSubnetRef (site_Spec site) = Some ref /\
    ev (R := resp) (EGet KSubnet (mkKey (resolveNamespace ref (Namespace site)) (nr_Name ref))) (inl subnet) ∈ h /\
    nr_Name (sub_SiteRef (sub_Spec subnet)) = Name site /\ sub_SeederNetworkRef (sub_Spec subnet) <> None /\
    tr_ExternalURL (site_Tracker (site_Spec site)) = "" /\ tracker_enabled TrackerDeployment = true.

Definition same_site (site site' : Site) : Prop := site_meta site' = site_meta site /\ site_Spec site' = site_Spec site.

(** The pod template pins the tracker to the Site's address. *)
Definition pinned (site : Site) (subnet : Subnet) (dep : Deployment) : Prop :=
  exists annotations, trackerPodAnnotations MarshalSelection subnet (tr_IP (site_Tracker (site_Spec site))) = inl annotations /\
    pt_Annotations (ds_Template (dep_Spec dep)) = annotations.

Definition permitted (h : past) (e : eff) : Prop :=
  match e with
  | EStatusUpdate KSite site' => exists site, site_read h site /\ same_site site site'
  | ECreate KDeployment dep => exists site subnet, site_read h site /\ tracked h site subnet /\ pinned site subnet dep /\
      key_of (dep : Deployment) = mkKey (Namespace site) (trackerDeploymentName hex_sha256 (Name site))
  | EUpdate KDeployment dep => exists site subnet existing, site_read h site /\ tracked h site subnet /\ pinned site subnet dep /\
      ev (R := resp) (EGet KDeployment (mkKey (Namespace site) (trackerDeploymentName hex_sha256 (Name site)))) (inl existing) ∈ h /\
      IsControlledBy existing site = true /\ key_of (dep : Deployment) = key_of (existing : Deployment)
  | _ => is_write e = false
  end.

Definition guard : monitor resp past := history permitted (fun _ _ => True).

Definition reads (e : eff) : Prop := is_write e = false.

Lemma site_reads_permitted h e : reads e -> permitted h e.
Proof. intros He. by destruct e as [[]|[]|[]|[]|[]|[]|[]|[]|[]|[]|[]|[]| | | | | | | | | | | | | | | | |]. Qed.

Definition site_reading {A} := wp_harmless permitted (fun _ _ => True) (X := A) reads site_reads_permitted.

Lemma site_read_app h t site : site_read h site -> site_read (h ++ t) site.
Proof. intros (Hd & key & Hin). split; [done|]. exists key. apply elem_of_app. by left. Qed.

Lemma tracked_app h t site subnet : tracked h site subnet -> tracked (h ++ t) site subnet.
Proof. intros (ref & ? & Hin & ?). exists ref. split; [done|]. split; [apply elem_of_app; by left|done]. Qed.
#[local] Hint Resolve site_read_app tracked_app : core.

Lemma same_site_eq site site' : same_site site site' -> Name site' = Name site /\ Namespace site' = Namespace site.
Proof. by intros [-> _]. Qed.

Lemma site_update_guarded site site' invalid checks a b c d e f h : site_read h site -> same_site site site' ->
  wp guard (updateSiteConditions site' invalid checks a b c d e f) h (fun _ _ => True).
Proof.
  intros Hr Hs. unfold updateSiteConditions. apply wp_bind. split; [|by intros [] _]. exists site. by split.
Qed.

Lemma site_deployment_guarded site site' subnet h : site_read h site -> same_site site site' -> tracked h site subnet ->
  wp guard (reconcileTrackerDeployment hex_sha256 MarshalSelection TrackerDeployment site' subnet) h (fun _ h' => site_read h' site).
Proof.
  intros Hr Hs Ht. destruct Hs as [Hm Hsp]. unfold reconcileTrackerDeployment, buildTrackerDeployment. rewrite Hsp.
  destruct (trackerPodAnnotations _ _ _) as [annotations|err] eqn:Ha; [|exact Hr]. unfold owned. rewrite Hm.
  destruct (SetControllerReference _ _) as [refs|err]; [|exact Hr]. apply wp_bind. split; [done|].
  intros [existing|err] _; cbn [guard history step]; cbn [wp].
  - destruct (IsControlledBy existing (site_meta site)) eqn:Hc; cbn [negb]; [|cbn [wp]; auto]. destruct (_ && _); [cbn [wp]; auto|].
    apply wp_bind. split; [|intros [] _; cbn [guard history step]; cbn [wp]; auto].
    exists site, subnet, existing. split_and!; eauto; [by exists annotations| |done..]. apply elem_of_app. right. by left.
  - destruct (IsNotFound err); cbn [wp]; [|by auto].
    apply wp_bind. split; [|intros [] _; cbn [guard history step]; cbn [wp]; auto].
    exists site, subnet. split_and!; eauto. by exists annotations.
Qed.

Lemma network_reads site subnet ref : calls reads (trackerPodNetworkCheck UnmarshalStatus site subnet ref).
Proof.
  unfold trackerPodNetworkCheck. apply calls_bind; [by repeat calls_step|]. intros [pods|err]; [|done].
  destruct (selectTrackerPod pods); [|done]. destruct (trackerPodNetworkIssue _ _ _ _ _) as [[]|]; [|done].
  apply calls_bind; [by repeat calls_step|done].
Qed.

Lemma serve_guarded site site' subnet ref checks h : site_read h site -> same_site site site' -> tracked h site subnet ->
  wp guard (serve_tracker hex_sha256 MarshalSelection UnmarshalStatus TrackerDeployment site' subnet ref checks) h (fun _ _ => True).
Proof.
  intros Hr Hs Ht. unfold serve_tracker. eapply wp_seq; [by apply site_deployment_guarded|].
  intros [[[dep []]|invalid]|err] h1 Hr1; [| | |exact I].
  - eapply wp_seq; [by eapply site_update_guarded|]. done.
  - cbv zeta. destruct (trackerDeploymentUnavailableReason dep) as [reason message].
    eapply wp_seq with (Q := fun _ h' => site_read h' site).
    + destruct (deploymentAvailable dep); [|exact Hr1]. eapply wp_mono; [apply site_reading, network_reads|]. intros ? ? (t & -> & _). auto.
    + intros [netFailure|err] h2 Hr2; [|exact I]. eapply wp_seq; [by eapply site_update_guarded|]. done.
  - eapply wp_seq; [by eapply site_update_guarded|]. done.
Qed.

(** A reading part followed by one that goes on with the Site read. *)
Lemma wp_reading {A B} (p : go A) (f : A -> go B) h Q : calls reads p ->
  (forall a t, runs p t a -> wp guard (f a) (h ++ t) Q) -> wp guard (bind p f) h Q.
Proof. intros Hc Hf. eapply wp_seq; [by apply site_reading|]. intros a h' (t & -> & Hr). by apply Hf. Qed.

Lemma site_change_guarded site h : site_read h site ->
  wp guard (onChange hex_sha256 MarshalSelection UnmarshalStatus UnmarshalTop UnmarshalIPAM TrackerDeployment site) h (fun _ _ => True).
Proof.
  intros Hr. unfold onChange. apply wp_reading; [unfold listSubnetRefs; apply calls_bind; [by repeat calls_step|by intros []]|].
  intros [refs|err] t1 _; [|exact I]. cbv zeta. set (site1 := site <| site_Status := (site_Status site) <| site_SubnetRefs := refs |> |>).
  assert (Hs1 : same_site site site1) by done.
  assert (Hfin : forall h site' invalid, site_read h site -> same_site site site' ->
    wp guard (err <- updateSiteConditions site' invalid [] false false false "" "" None ;; Ret (reply_of 0 err)) h (fun _ _ => True)).
  { intros h' site' invalid Hr' Hs'. eapply wp_seq; [by eapply site_update_guarded|]. done. }
  change (site_SeederSubnetRef (site_Spec site1)) with (site_SeederSubnetRef (site_Spec site)).
  destruct (site_SeederSubnetRef (site_Spec site)) as [seederRef|] eqn:Href; [|by apply Hfin; [auto|]].
  apply wp_bind. unfold resolveSeedingSubnet. apply wp_bind. split; [done|]. intros [subnet|err] _; cbn [guard history step]; cbn [wp].
  2: { destruct (IsNotFound err); [apply Hfin; [auto|done]|exact I]. }
  set (h2 := (h ++ t1) ++ _). assert (Hr2 : site_read h2 site) by (apply site_read_app; auto).
  destruct (String.eqb_spec (nr_Name (sub_SiteRef (sub_Spec subnet))) (Name site1)) as [Hn|Hn]; cbn [negb]; [|by apply Hfin].
  apply wp_reading; [unfold seederPlacementReady; apply calls_bind; [by repeat calls_step|by intros []]|].
  intros [seederReady|err] t2 _; [|exact I]. cbv zeta.
  change (site_Tracker (site_Spec site1)) with (site_Tracker (site_Spec site)).
  destruct (String.eqb_spec (tr_ExternalURL (site_Tracker (site_Spec site))) "") as [Hx|Hx]; cbn [negb]; [|apply Hfin; [auto|done]].
  destruct (sub_SeederNetworkRef (sub_Spec subnet)) as [ref|] eqn:Hnet; [|apply Hfin; [auto|done]].
  apply wp_reading.
  { unfold runTrackerAddressCheck, fetchNADConfig. apply calls_bind; [apply calls_bind; [by repeat calls_step|by intros []]|by intros []]. }
  intros [checks|err] t3 _; [|exact I]. destruct (tracker_enabled TrackerDeployment) eqn:He; cbn [negb].
  - apply (serve_guarded site); [auto|done|]. exists seederRef. split_and!; try done; [|by rewrite Hnet].
    apply elem_of_app. left. apply elem_of_app. left. apply elem_of_app. right. by left.
  - eapply wp_seq; [eapply (site_update_guarded site); [auto|done]|]. done.
Qed.

Lemma site_Reconcile_guarded key : wp guard (reconcile key) [] (fun _ _ => True).
Proof.
  unfold Reconcile. apply wp_bind. split; [done|]. intros [site|err] _; cbn [guard history step]; cbn [wp]; [|exact I].
  destruct (DeletionTimestamp site) eqn:Hd; [exact I|]. apply site_change_guarded. split; [done|]. exists key. by left.
Qed.

(** What the Site reconciler writes, in every run and whatever the API server
    answers: the status of the live Site that was read, and its tracker
    Deployment.  The Deployment is created or changed only when the Site names a
    seeding Subnet that was read in this run, names the Site and has an
    attachment, the Site has no external tracker and an image is configured;
    its pod template pins the Site's address in the Subnet's notation; an existing
    Deployment is changed only if this Site controls it, and nothing is deleted. *)
Theorem tracker_is_guarded key tr1 e r tr2 res
    (Hrun : runs (reconcile key) (tr1 ++ ev e r :: tr2) res) :
  permitted tr1 e.
Proof.
  apply (history_obeyed permitted (fun _ _ => True) _ _ _ _ _ _ _ (site_Reconcile_guarded key) Hrun). by apply Forall_forall.
Qed.
End Guard.

(** ** The conditions *)

Lemma first_verdict_none v checks : first_verdict v checks = None <-> Forall (fun c => ck_Verdict c <> v) checks.
Proof.
  unfold first_verdict. rewrite find_first_None, Forall_forall. split; intros Hx c Hc; specialize (Hx c Hc).
  - by apply bool_decide_eq_false in Hx.
  - by apply bool_decide_eq_false.
Qed.

Section Verdicts.
Context `{ApiMachineryLaws}.

Definition no_blocker (invalid : option siteValidationFailure) (checks : list CheckResult) : Prop :=
  invalid = None /\ Forall (fun c => ck_Verdict c <> Violation /\ ck_Verdict c <> Indeterminate) checks.

Lemma no_blocker_iff invalid checks : no_blocker invalid checks <->
  invalid = None /\ first_verdict Violation checks = None /\ first_verdict Indeterminate checks = None.
Proof. unfold no_blocker. rewrite Forall_and, !first_verdict_none. done. Qed.

Lemma condition_true t g v : (cd_Status (condition_of t g v) =s ConditionTrue) = (v.1.1 =s ConditionTrue).
Proof. by destruct v as [[? ?] ?]. Qed.

(** The conditions of a Site: it is valid exactly when no reference is broken
    and every check of the tracker's address decided in its favour; it is ready
    exactly when it is valid and, if it runs a tracker of its own, the Deployment
    is configured and available and the pod holds the pinned address; so a ready
    Site is valid.  The network condition is true for a ready Site, and false
    exactly when the pod was seen without its address. *)
Theorem site_conditions_spec site invalid checks trackerWanted depConfigured depAvailable depReason depMessage netFailure
    (Hnet : netFailure <> None -> trackerWanted = true /\ invalid = None /\ depConfigured = true /\ depAvailable = true) :
  let cs := site_Conditions (site_Status (site_judged site invalid checks trackerWanted depConfigured depAvailable depReason depMessage netFailure)) in
  (IsStatusConditionTrue cs SiteConditionValid = true <-> no_blocker invalid checks) /\
  (IsStatusConditionTrue cs SiteConditionReady = true <->
     no_blocker invalid checks /\ netFailure = None /\ (trackerWanted = true -> depConfigured = true /\ depAvailable = true)) /\
  (IsStatusConditionTrue cs SiteConditionReady = true -> IsStatusConditionTrue cs SiteConditionTrackerNetworkReady = true) /\
  (forall f, netFailure = Some f -> Forall (fun c => ck_Verdict c <> Violation) checks ->
     FindStatusCondition cs SiteConditionTrackerNetworkReady =
       Some (mkCondition SiteConditionTrackerNetworkReady ConditionFalse (Generation site) (svf_reason f) (svf_message f))).
Proof.
  intros cs. set (vv := site_valid invalid checks).
  set (rv := site_ready invalid checks trackerWanted depConfigured depAvailable depReason depMessage netFailure).
  set (nv := site_network invalid checks trackerWanted depConfigured depAvailable netFailure).
  assert (Ht : forall t g v, cd_Type (condition_of t g v) = t) by (intros ? ? [[? ?] ?]; done).
  assert (Hset : forall l t g v, FindStatusCondition (SetStatusCondition l (condition_of t g v)) t = Some (condition_of t g v)).
  { intros l t g v. rewrite <- (Ht t g v) at 2. apply find_set_same. }
  assert (Hoth : forall l t t' g v, t' <> t -> FindStatusCondition (SetStatusCondition l (condition_of t g v)) t' = FindStatusCondition l t').
  { intros l t t' g v Hne. apply find_set_other. by rewrite Ht. }
  assert (Hn : FindStatusCondition cs SiteConditionTrackerNetworkReady = Some (condition_of SiteConditionTrackerNetworkReady (Generation site) nv)) by apply Hset.
  assert (Hr : FindStatusCondition cs SiteConditionReady = Some (condition_of SiteConditionReady (Generation site) rv)).
  { subst cs. unfold site_judged. cbn -[SetStatusCondition FindStatusCondition condition_of]. rewrite Hoth by done. apply Hset. }
  assert (Hv : FindStatusCondition cs SiteConditionValid = Some (condition_of SiteConditionValid (Generation site) vv)).
  { subst cs. unfold site_judged. cbn -[SetStatusCondition FindStatusCondition condition_of]. rewrite !Hoth by done. apply Hset. }
  rewrite !is_true_find, Hn, Hr, Hv, !condition_true, no_blocker_iff. unfold vv, rv, nv, site_valid, site_ready, site_network.
  destruct invalid as [f|]; [split_and!; cbn; try (by split; [|intros (? & _)]); [by split; [|intros [[? _] _]]|done|]|].
  { intros g ->. by destruct Hnet as (_ & ? & _). }
  pose proof (first_verdict_none Violation checks) as Hfv.
  destruct (first_verdict Violation checks) as [v|].
  { split_and!; cbn; [by split; [|intros (_ & ? & _)]|by split; [|intros [(_ & ? & _) _]]|done|]. intros f _ Hall. by apply Hfv in Hall. }
  destruct (first_verdict Indeterminate checks) as [i|], trackerWanted, depConfigured, depAvailable, netFailure as [f|];
    cbn; split_and!; try done; try (by split; [|intros (? & ? & ?)]); try (by split; [|intros [(? & ? & ?) (? & ?)]]);
    try (by intros g [= <-]); try (by destruct Hnet as (? & ? & ? & ?)); try tauto;
    try (split; [done|]; intros (_ & _ & Hx); by destruct (Hx eq_refl)).
Qed.
End Verdicts.

(** ** A Subnet of another Site *)

Lemma qualified_inj ns ns' name : qualified ns name = qualified ns' name -> ns = ns'.
Proof. unfold qualified. apply string_app_inj_r. Qed.

(** Admission and reconciliation disagree on which Site a seeding Subnet belongs
    to: admission compares namespace and name, the reconciler the bare name.  A
    Subnet whose Site reference names a Site of the same name in another namespace
    is refused by admission of the Site that designates it, and accepted by the
    reconciler, which goes on to place the seeder and the tracker on it. *)
Theorem namesake_subnet_is_accepted (w : forall e, option (resp e)) (site : Site) ref (subnet : Subnet)
    (Href : site_SeederSubnetRef (site_Spec site) = Some ref)
    (Hget : w (EGet KSubnet (mkKey (resolveNamespace ref (Namespace site)) (nr_Name ref))) = Some (inl subnet))
    (Hname : nr_Name (sub_SiteRef (sub_Spec subnet)) = Name site)
    (Hns : resolveNamespace (sub_SiteRef (sub_Spec subnet)) (Namespace subnet) <> Namespace site) :
  interp w (resolveSeedingSubnet site ref) = Some (inl (inl subnet)) /\
  exists err, interp w (validateSeederSubnetRef site) = Some (Some err).
Proof.
  assert (Hres : forall (r : NameRef) d, (if nr_Namespace r =s "" then d else nr_Namespace r) = resolveNamespace r d).
  { intros r d. unfold resolveNamespace. by destruct (nr_Namespace r =s ""). }
  split.
  - unfold resolveSeedingSubnet. cbv zeta. rewrite interp_bind. unfold Get, call. cbn [interp]. rewrite Hget, Hname, String.eqb_refl. reflexivity.
  - unfold validateSeederSubnetRef. rewrite Href. cbv zeta. rewrite Hres, interp_bind. unfold Get, call. cbn [interp]. rewrite Hget.
    assert (Hid : (SiteRefIdentity subnet =s SiteIdentity site) = false).
    { apply String.eqb_neq. unfold SiteRefIdentity, SiteIdentity. rewrite Hres, Hname. by intros ?%qualified_inj. }
    rewrite Hid. cbn [negb]. eexists. reflexivity.
Qed.

(** A Site whose seeding Subnet is gone is judged as one without a tracker, so its
    network condition is true although nothing was checked. *)
Lemma invalid_site_reports_network checks f :
  site_network (Some f) checks false false false None =
    (ConditionTrue, "SiteTrackerNetworkNotApplicable", "this Site carries no tracker Deployment of its own").
Proof. reflexivity. Qed.

(** ** Witnesses *)

Module Sample.
#[local] Existing Instance SimpleMeta.ops.

Definition subnet (ns : string) : Subnet :=
  mkSubnet (Demo.meta "net" ∅) (mkSubnetSpec (mkNameRef ns "site") "10.0.0.0/24" "" None (Some (mkNameRef "" "nad")) ∅ None)
    (mkSubnetStatus [] None).
Definition site : Site :=
  mkSite (Demo.meta "site" ∅) (mkSiteSpec (Some (mkNameRef "" "net")) (mkTracker "10.0.0.3" "")) (mkSiteStatus [] false "" []).

Definition handler (e : eff) (u : unit) : option (resp e * unit) :=
  match e return option (resp e * unit) with
  | EGet KSite _ => Some (inl site, u)
  | EGet KSubnet _ => Some (inl (subnet ""), u)
  | EGet _ _ => Some (inr Demo.not_found, u)
  | EList KSubnet _ => Some (inl [subnet ""], u)
  | EListLabels KDeployment _ _ => Some (inl [], u)
  | ECreate _ o | EStatusUpdate _ o => Some (inl o, u)
  | _ => None
  end.

Definition marshal (l : list trackerNetworkSelectionElement) : string := concat "," (flat_map sel_IPs l).
Definition no_status (s : string) : list trackerNetworkStatusEntry + string := inr "not JSON".
Definition cfg : TrackerDeploymentConfig := mkTrackerConfig "tracker:1".
Definition prog : go reply := Reconcile (fun s => s) marshal no_status no_top no_ipam cfg (mkKey "ns" "site").
Definition run_trace : trace resp := match exec handler prog tt with Some (_, _, tr) => tr | None => [] end.

Definition elsewhere (e : eff) : option (resp e) :=
  match e return option (resp e) with EGet KSubnet _ => Some (inl (subnet "other")) | _ => None end.
End Sample.

Lemma tracker_is_guarded_witness :
  exists dep r tr1 tr2, Sample.run_trace = tr1 ++ ev (ECreate KDeployment dep) r :: tr2 /\
    pt_Annotations (ds_Template (dep_Spec dep)) = {[multusDefaultNetworkAnnotation := "10.0.0.3/24"]} /\
    permitted (fun s => s) Sample.marshal Sample.cfg tr1 (ECreate KDeployment dep).
Proof.
  assert (Hrun : exists res, runs Sample.prog Sample.run_trace res).
  { eexists. eapply (exec_runs Sample.handler _ tt _ tt). vm_compute. reflexivity. }
  destruct Hrun as [res Hrun].
  assert (Hsplit : exists dep r tr2, Sample.run_trace = firstn 6 Sample.run_trace ++ ev (ECreate KDeployment dep) r :: tr2 /\
    pt_Annotations (ds_Template (dep_Spec dep)) = {[multusDefaultNetworkAnnotation := "10.0.0.3/24"]}).
  { do 3 eexists. split; [vm_compute; reflexivity|vm_compute; reflexivity]. }
  destruct Hsplit as (dep & r & tr2 & Hs & Ha). exists dep, r, (firstn 6 Sample.run_trace), tr2. split; [exact Hs|]. split; [exact Ha|].
  apply (tracker_is_guarded (H := SimpleMeta.ops) (fun s => s) Sample.marshal Sample.no_status no_top no_ipam Sample.cfg (mkKey "ns" "site")
    (firstn 6 Sample.run_trace) (ECreate KDeployment dep) r tr2 res).
  rewrite <- Hs. exact Hrun.
Defined.

Lemma site_conditions_spec_witness :
  IsStatusConditionTrue (ApiMachinery := SimpleMeta.ops) (site_Conditions (site_Status (site_judged (H := SimpleMeta.ops) Sample.site None [] true true true "" ""
    (Some (mkSiteFailure trackerNetworkMissingReason "m"))))) SiteConditionReady = true <->
  no_blocker None [] /\ Some (mkSiteFailure trackerNetworkMissingReason "m") = None /\ (true = true -> true = true /\ true = true).
Proof.
  apply (site_conditions_spec (H := SimpleMeta.ops) (H0 := SimpleMeta.laws) Sample.site None [] true true true "" ""
    (Some (mkSiteFailure trackerNetworkMissingReason "m"))). intros _. auto.
Defined.

Lemma namesake_subnet_is_accepted_witness :
  interp Sample.elsewhere (resolveSeedingSubnet Sample.site (mkNameRef "" "net")) = Some (inl (inl (Sample.subnet "other"))) /\
  exists err, interp Sample.elsewhere (validateSeederSubnetRef Sample.site) = Some (Some err).
Proof.
  apply (namesake_subnet_is_accepted Sample.elsewhere Sample.site (mkNameRef "" "net") (Sample.subnet "other"));
    [reflexivity|reflexivity|reflexivity|discriminate].
Defined.
