(* ===== verification/Imports.v ===== *)
(** * Imports: the ImageImport reconciler

    [src/internal/controller/imageimport_*.go]: the ingest Job and its scratch
    claim, the size of that claim, and what becomes of the Job's result: one
    PartitionContent per partition that is not swap, one Image that binds them,
    and the end of the import, with its time to live.

    An object that a write goes through is afterwards what the server returned.
    The digest, the decoder of Job results and the value Go's conversion from
    [float64] to [int64] gives out of range are parameters. *)

From S2P Require Import Prelude Text Api Effects Workloads Cluster Store Machine SiteDerive PlanBuild Subnets SeedDemand Contents.
Local Open Scope string_scope.
Local Open Scope list_scope.
Local Open Scope Z_scope.

(** ** Configuration *)

Definition AttachModeNBD : string := "nbd".
Definition AttachModeCopy : string := "copy".
Definition StagedURLScheme : string := "kezio-staged".

Definition defaultIngestJobTTL : Z := 60 * Minute.
Definition defaultIngestSourceFormat : string := "qcow2".
Definition defaultIngestScratchSizeBytes : Z := 16 * 1024 * 1024 * 1024.
Definition defaultIngestScratchAccessModes : list string := [ReadWriteMany].
Definition defaultIngestIOBandwidthBytesPerSec : Z := 64 * 1024 * 1024.

Record ImageIngestConfig := mkIngestConfig {
  ig_Image : string; ig_SourceFormat : string; ig_ServiceAccountName : string; ig_ScratchStorageClassName : string;
  ig_ScratchSizeBytes : Z; ig_ScratchAccessModes : list string; ig_StagingPVCName : string; ig_ImageServiceURL : string;
  ig_ImageServiceToken : string; ig_IOBandwidthBytesPerSec : Z; ig_Unprivileged : bool; ig_JobTTL : Z }.

Definition ingest_ready (cfg : ImageIngestConfig) : bool := ig_Image cfg <>s "".
Definition sourceFormat (cfg : ImageIngestConfig) : string :=
  if ig_SourceFormat cfg <>s "" then ig_SourceFormat cfg else defaultIngestSourceFormat.
Definition scratchSizeBytes (cfg : ImageIngestConfig) : Z :=
  if 0 <? ig_ScratchSizeBytes cfg then ig_ScratchSizeBytes cfg else defaultIngestScratchSizeBytes.
Definition scratchAccessModes (cfg : ImageIngestConfig) : list string :=
  match ig_ScratchAccessModes cfg with [] => defaultIngestScratchAccessModes | modes => modes end.
Definition ioBandwidthBytesPerSec (cfg : ImageIngestConfig) : Z :=
  if 0 <? ig_IOBandwidthBytesPerSec cfg then ig_IOBandwidthBytesPerSec cfg else defaultIngestIOBandwidthBytesPerSec.
Definition attachMode (cfg : ImageIngestConfig) : string := if ig_Unprivileged cfg then AttachModeCopy else AttachModeNBD.

(** ** Scratch size *)

Definition gibiByte : Z := 1024 * 1024 * 1024.

(** A [float64] that is at least 0 is written [m / 2^52]: a power of two in the
    denominator does not change how [round53] rounds a quotient. *)
Definition one : Z := 2 ^ 52.
Definition scratchSizeSourceFactor : Z := 3 * one.
Definition scratchSizeSourceFactorRaw : Z := 2 * one.
(** The [float64] nearest to 1.2. *)
Definition scratchSizeAttachFactor : Z := 5404319552844595.

(** [strconv.ParseInt] in base 10 with 64 bits is [Atoi]. *)
Definition parseContentRangeTotal (value : string) : option Z :=
  match cut_at "/" value with
  | None => None
  | Some (_, total) =>
    if total =s "*" then None
    else match Atoi total with
         | Some n => if n <=? 0 then None else Some n
         | None => None
         end
  end.

Definition contentLengthOf (resp : HttpResponse) : option Z :=
  if hr_ContentLength resp <? 0 then None else Some (hr_ContentLength resp).

Definition StatusOK : Z := 200.
Definition StatusPartialContent : Z := 206.

Definition discoverStagedSourceSizeBytes (baseURL token name : string) : go (option Z) :=
  let url := TrimSuffix baseURL "/" +:+ "/uploads/" +:+ name in
  r <- Http "HEAD" url (if token <>s "" then [("Authorization", "Bearer " +:+ token)] else []) ;;
  Ret match r with
      | inr _ => None
      | inl resp => if negb (hr_StatusCode resp =? StatusOK) then None else contentLengthOf resp
      end.

Definition headContentLength (sourceURL : string) : go (option Z) :=
  r <- Http "HEAD" sourceURL [] ;;
  Ret match r with
      | inr _ => None
      | inl resp => if (hr_StatusCode resp <? 200) || (300 <=? hr_StatusCode resp) then None else contentLengthOf resp
      end.

Definition rangeContentLength (sourceURL : string) : go (option Z) :=
  r <- Http "GET" sourceURL [("Range", "bytes=0-0")] ;;
  Ret match r with
      | inr _ => None
      | inl resp => if negb (hr_StatusCode resp =? StatusPartialContent) then None
                    else parseContentRangeTotal (hr_ContentRange resp)
      end.

Definition discoverHTTPSourceSizeBytes (sourceURL : string) : go (option Z) :=
  r <- headContentLength sourceURL ;;
  match r with
  | Some size => Ret (Some size)
  | None => rangeContentLength sourceURL
  end.

Definition staged (sourceURL : string) : bool := HasPrefix sourceURL (StagedURLScheme +:+ "://").

(** The size, or [None] when it is not known. *)
Definition discoverSourceSizeBytes (cfg : ImageIngestConfig) (sourceURL : string) : go (option Z) :=
  if staged sourceURL then
    if ig_ImageServiceURL cfg =s "" then Ret None
    else discoverStagedSourceSizeBytes (ig_ImageServiceURL cfg) (ig_ImageServiceToken cfg)
           (TrimPrefix sourceURL (StagedURLScheme +:+ "://"))
  else if HasPrefix sourceURL "http://" || HasPrefix sourceURL "https://" then discoverHTTPSourceSizeBytes sourceURL
  else Ret None.

Definition scratchSizeUnknownEventReason : string := "ScratchSizeUnknown".
Definition scratchSizeUnknownEventMessage (sourceURL : string) : string :=
  sprintf "could not discover the size of source %q; the ingest scratch volume was sized from the configured floor instead" [sourceURL].

Definition roundUpGiB (n : Z) : Z :=
  let rem := Z.rem n gibiByte in if negb (rem =? 0) then int64 (n + (gibiByte - rem)) else n.

(** ** The layout *)

Definition import_slot (imp : ImageImport) (part : ResultPartition) : ImageSlot :=
  let swap := rp_Role part =s PartitionRoleSwap in
  mkImageSlot (rp_Number part) (rp_Role part)
    (if swap then None else Some (mkNameRef "" (ContentName (imp_ContentPrefix (import_Spec imp)) (rp_Number part))))
    "" (if swap then rp_UUID part else "") (rp_TypeGUID part) (rp_PartUUID part) (rp_SizeBytes part).

Definition importLayout (imp : ImageImport) (disk : ResultDisk) : ImageDiskLayout + GoErr :=
  if rd_SfdiskJSON disk =s "" then inr (errorf "ingest result carries no partition table dump" [])
  else
  match rd_Partitions disk with
  | [] => inr (errorf "ingest result carries no partitions" [])
  | parts => inl (mkLayout (rd_PartitionTable disk) (rd_SfdiskJSON disk) (map (import_slot imp) parts))
  end.

(** ** Names *)

Definition imageImportAnnotation : string := "kezio.kojuro.date/image-import".
Definition legacyReadyState : string := "Ready".
Definition imageIngestPollInterval : Z := 30 * Second.
Definition ingestJobNamePrefix : string := "image-ingest-".
Definition imageIngestJobComponentValue : string := "image-ingest-job".
Definition imageIngestScratchComponentValue : string := "image-ingest-scratch".
Definition ingestWorkVolumeName : string := "work".
Definition ingestStagingVolumeName : string := "staging".
Definition ingestStagingMountPath : string := "/staging".
Definition ingestDevVolumeName : string := "dev".
Definition ingestDevHostPath : string := "/dev".
Definition ingestUnprivilegedRunAsUser : Z := ContentOwnerUID.

Definition importNameConflictError (kind name : string) : GoErr :=
  mkErr KNameConflict (sprintf "%s %q already exists and was not created by this import: %s is immutable, so the import will not write over it; re-run the import with a different name"
    [kind; name; kind]).

(** [errors.As] for the type above. *)
Definition IsNameConflict (err : GoErr) : bool := bool_decide (ekind err = KNameConflict).

Definition ingestPodSecurityContext (unprivileged : bool) : PodSecurityContext * SecurityContext :=
  if unprivileged then
    (mkPodSecurity (Some true) (Some ingestUnprivilegedRunAsUser) (Some ingestUnprivilegedRunAsUser) None
       (Some SeccompProfileTypeRuntimeDefault),
     mkSecurity None None None None (Some false) None [] ["ALL"])
  else (mkPodSecurity None (Some 0) (Some 0) None None, mkSecurity None None None (Some true) None None [] []).

Section Reconciler.
Context `{ApiMachinery} (hex_sha256 : string -> string) (UnmarshalResult : string -> IngestResult + GoErr).
Context (out_of_range : Z) (Ingest : ImageIngestConfig).

(** ** Sizing the scratch claim *)

(** [int64(float64(sourceSizeBytes) * factor)] for a positive size. *)
Definition scaled (sourceSizeBytes factor : Z) : Z :=
  let product := round53 (round53 sourceSizeBytes * factor) / one in
  if product <? 2 ^ 63 then product else out_of_range.

Definition computeIngestScratchSizeBytes (floorBytes : Z) (sourceSize : option Z) (factor : Z) : Z :=
  match sourceSize with
  | None => floorBytes
  | Some sourceSizeBytes =>
    if sourceSizeBytes <=? 0 then floorBytes
    else
    let computed := roundUpGiB (scaled sourceSizeBytes factor) in
    if floorBytes <? computed then computed else floorBytes
  end.

Definition scratch_factor : Z :=
  if ig_Unprivileged Ingest then
    if EqualFold (sourceFormat Ingest) "raw" then scratchSizeSourceFactorRaw else scratchSizeSourceFactor
  else scratchSizeAttachFactor.

Definition ingestScratchSizeBytes (imp : ImageImport) : go Z :=
  match imp_ScratchSize (import_Spec imp) with
  | Some size => Ret size
  | None =>
    let url := src_URL (imp_Source (import_Spec imp)) in
    sourceSize <- discoverSourceSizeBytes Ingest url ;;
    (if bool_decide (sourceSize = None)
     then Event (Name imp) EventTypeWarning scratchSizeUnknownEventReason (scratchSizeUnknownEventMessage url) else Ret tt) ;;
    Ret (computeIngestScratchSizeBytes (scratchSizeBytes Ingest) sourceSize scratch_factor)
  end.

Definition buildIngestScratchPVC (imp : ImageImport) (name : string) (sizeBytes : Z) : PersistentVolumeClaim :=
  mkPVC (new_meta name (Namespace imp) (component_labels imageIngestScratchComponentValue) ∅) (scratchAccessModes Ingest) sizeBytes
    (if ig_ScratchStorageClassName Ingest <>s "" then Some (ig_ScratchStorageClassName Ingest) else None).

Definition ensureIngestScratchPVC (imp : ImageImport) : go (PersistentVolumeClaim + GoErr) :=
  let name := ingestScratchPVCName hex_sha256 (Name imp) in
  r <- Get KPVC (mkKey (Namespace imp) name) ;;
  match r with
  | inl existing => Ret (inl existing)
  | inr err =>
    if negb (IsNotFound err) then Ret (inr (wrapf "imageimport %q: getting ingest scratch PVC %q: %w" [Name imp; name] err))
    else
    sizeBytes <- ingestScratchSizeBytes imp ;;
    let pvc := buildIngestScratchPVC imp name sizeBytes in
    match owned (fun m => pvc <| pvc_meta := m |>) pvc imp with
    | inr err => Ret (inr (wrapf "imageimport %q: setting ingest scratch PVC %q owner reference: %w" [Name imp; name] err))
    | inl pvc =>
      r <- Create KPVC pvc ;;
      Ret match r with
          | inl created => inl created
          | inr err => if IsAlreadyExists err then inl pvc
                       else inr (wrapf "imageimport %q: creating ingest scratch PVC %q: %w" [Name imp; name] err)
          end
    end
  end.

(** ** The ingest Job *)

Definition ingestJobName (imp : ImageImport) : string := truncatedName hex_sha256 (ingestJobNamePrefix +:+ Name imp) k8sNameMaxLength.

Definition ingestJobFor (imp : ImageImport) : go (option Job + GoErr) :=
  r <- Get KJob (mkKey (Namespace imp) (ingestJobName imp)) ;;
  Ret match r with
      | inl job => inl (Some job)
      | inr err => if IsNotFound err then inl None
                   else inr (wrapf "imageimport %q: getting ingest job %q: %w" [Name imp; ingestJobName imp] err)
      end.

Definition buildIngestJob (imp : ImageImport) (scratchPVCName : string) : Job :=
  let labels := component_labels imageIngestJobComponentValue in
  let source := imp_Source (import_Spec imp) in
  let fromStaging := staged (src_URL source) in
  let privileged := negb (ig_Unprivileged Ingest) in
  let '(podSecurity, containerSecurity) := ingestPodSecurityContext (ig_Unprivileged Ingest) in
  let env := [mkEnv "INGEST_MODE" "ingest"; mkEnv "SOURCE_URL" (src_URL source); mkEnv "SOURCE_CHECKSUM" (src_Checksum source);
              mkEnv "SOURCE_FORMAT" (sourceFormat Ingest); mkEnv "WORK_DIR" DefaultWorkDir;
              mkEnv "IO_BANDWIDTH_BYTES_PER_SEC" (show_dec (ioBandwidthBytesPerSec Ingest));
              mkEnv "IMAGE_INGEST_ATTACH" (attachMode Ingest)]
    ++ (if fromStaging then [mkEnv "STAGING_ROOT" ingestStagingMountPath] else []) in
  let mounts := [mkMount ingestWorkVolumeName DefaultWorkDir false]
    ++ (if fromStaging then [mkMount ingestStagingVolumeName ingestStagingMountPath false] else [])
    ++ (if privileged then [mkMount ingestDevVolumeName ingestDevHostPath false] else []) in
  let volumes := [mkVolume ingestWorkVolumeName (ClaimVolume scratchPVCName false)]
    ++ (if fromStaging then [mkVolume ingestStagingVolumeName (ClaimVolume (ig_StagingPVCName Ingest) false)] else [])
    ++ (if privileged then [mkVolume ingestDevVolumeName (HostPath ingestDevHostPath)] else []) in
  mkJob (new_meta (ingestJobName imp) (Namespace imp) labels ∅) 0 (jobTTLSeconds (ig_JobTTL Ingest) defaultIngestJobTTL)
    (mkTemplate labels ∅
      (mkPodSpec RestartPolicyNever (ig_ServiceAccountName Ingest) ∅ (Some podSecurity) []
        [mkContainer "ingest" (ig_Image Ingest) [] [] env [] mounts (Some containerSecurity) no_resources None
           "/dev/termination-log" TerminationMessageReadFile]
        volumes)) 0 0.

Definition createIngestJob (imp : ImageImport) (scratchPVCName : string) : go (option GoErr) :=
  let job := buildIngestJob imp scratchPVCName in
  match owned (fun m => job <| job_meta := m |>) job imp with
  | inr err => Ret (Some (wrapf "imageimport %q: setting ingest job owner reference: %w" [Name imp] err))
  | inl job =>
    r <- Create KJob job ;;
    Ret match r with
        | inl _ => None
        | inr err => if IsAlreadyExists err then None
                     else Some (wrapf "imageimport %q: creating ingest job %q: %w" [Name imp; Name job] err)
        end
  end.

(** ** Status *)

Definition import_status (f : ImageImportStatus -> ImageImportStatus) (imp : ImageImport) : ImageImport :=
  imp <| import_Status := f (import_Status imp) |>.

Definition import_state (state : string) : ImageImport -> ImageImport := import_status (fun st => st <| imp_State := state |>).

Definition setImageImportReadyCondition (status reason message : string) (imp : ImageImport) : ImageImport :=
  import_status (fun st => st <| imp_Conditions := SetStatusCondition (imp_Conditions st)
    (mkCondition ImageImportConditionReady status (Generation imp) reason message) |>) imp.

(** The import as the server returned it, or the error. *)
Definition applyImageImportStatus (imp : ImageImport) : go (ImageImport + GoErr) := StatusApply KImport imp.

Definition stampCompletionTime (imp : ImageImport) : go ImageImport :=
  match imp_CompletionTime (import_Status imp) with
  | Some _ => Ret imp
  | None => now <- Now ;; Ret (import_status (fun st => st <| imp_CompletionTime := Some now |>) imp)
  end.

(** [time.Time.Sub] saturates. *)
Definition Sub (t u : Z) : Z := Z.max (- 2 ^ 63) (Z.min (2 ^ 63 - 1) (t - u)).

Definition enforceImportTTL (imp : ImageImport) : go reply :=
  match imp_TTLSecondsAfterFinished (import_Spec imp) with
  | None => Ret (noRequeue, None)
  | Some seconds =>
    let ttl := int64 (seconds * Second) in
    match imp_CompletionTime (import_Status imp) with
    | None => panic "CompletionTime is nil"
    | Some completed =>
      now <- Now ;;
      let remaining := int64 (ttl - Sub now completed) in
      if 0 <? remaining then Ret (requeueAfter remaining, None)
      else
      err <- Delete KImport (key_of imp) ;;
      Ret match err with
          | Some err => if IsNotFound err then (noRequeue, None)
                        else (noRequeue, Some (wrapf "imageimport %q: deleting after ttlSecondsAfterFinished: %w" [Name imp] err))
          | None => (noRequeue, None)
          end
    end
  end.

(** A status write, the error it may give, and what follows it. *)
Definition applied (imp : ImageImport) (fmt : string) (after : ImageImport -> go reply) : go reply :=
  r <- applyImageImportStatus imp ;;
  match r with
  | inr err => Ret (noRequeue, Some (wrapf fmt [Name imp] err))
  | inl imp => after imp
  end.

Definition recordImportPending (imp : ImageImport) (reason message : string) : go reply :=
  applied (setImageImportReadyCondition ConditionFalse reason message (import_state ImageImportStatePending imp))
    "imageimport %q: recording Pending: %w" (fun _ => Ret (noRequeue, None)).

Definition recordIngesting (imp : ImageImport) (reason message : string) : go reply :=
  applied (setImageImportReadyCondition ConditionFalse reason message (import_state ImageImportStateIngesting imp))
    "imageimport %q: recording Ingesting: %w" (fun _ => Ret (requeueAfter imageIngestPollInterval, None)).

Definition recordImportSucceeded (imp : ImageImport) (contentRefs : list NameRef) : go reply :=
  let imageName := imp_ImageName (import_Spec imp) in
  imp <- stampCompletionTime (import_status (fun st => st <| imp_State := ImageImportStateSucceeded |>
           <| imp_ImageRef := Some (mkNameRef "" imageName) |> <| imp_ContentRefs := contentRefs |>) imp) ;;
  applied (setImageImportReadyCondition ConditionTrue "ImportComplete"
             (sprintf "captured %d partition content object(s) and created Image %q" [show_dec (Z.of_nat (length contentRefs)); imageName]) imp)
    "imageimport %q: recording Succeeded: %w" enforceImportTTL.

Definition recordImportFailed (imp : ImageImport) (message : string) : go reply :=
  imp <- stampCompletionTime (import_state ImageImportStateFailed imp) ;;
  applied (setImageImportReadyCondition ConditionFalse "ImportFailed" message imp)
    "imageimport %q: recording Failed: %w" enforceImportTTL.

Definition migrateLegacyReadyState (imp : ImageImport) : go reply :=
  imp <- stampCompletionTime (import_state ImageImportStateSucceeded imp) ;;
  applied imp "imageimport %q: rewriting legacy Ready state to Succeeded: %w" enforceImportTTL.

Definition reconcileFinished (imp : ImageImport) : go reply :=
  match imp_CompletionTime (import_Status imp) with
  | Some _ => enforceImportTTL imp
  | None => imp <- stampCompletionTime imp ;; applied imp "imageimport %q: backfilling completionTime: %w" enforceImportTTL
  end.

(** ** What an import creates *)

Definition imported_content (imp : ImageImport) (name : string) (part : ResultPartition) : PartitionContent :=
  mkContent (new_meta name (Namespace imp) ∅ ∅)
    (mkContentSpec (rp_FSType part) (rp_UsedBytes part) (rp_SizeBytes part) (rp_LastExtentEnd part) (rp_PieceLength part)
       (mkContentSource (Name imp) (rp_Number part)))
    (mkContentStatus "" "" None [] []).

Definition ensureImportedContent (imp : ImageImport) (name : string) (part : ResultPartition) : go (option GoErr) :=
  r <- Get KContent (mkKey (Namespace imp) name) ;;
  match r with
  | inl existing =>
    Ret (if pcs_ImportName (pc_Source (content_Spec existing)) =s Name imp then None
         else Some (importNameConflictError "PartitionContent" name))
  | inr err =>
    if negb (IsNotFound err) then Ret (Some (wrapf "imageimport %q: getting PartitionContent %q: %w" [Name imp; name] err))
    else
    r <- Create KContent (imported_content imp name part) ;;
    Ret match r with
        | inl _ => None
        | inr err => if IsAlreadyExists err then None
                     else Some (wrapf "imageimport %q: creating PartitionContent %q: %w" [Name imp; name] err)
        end
  end.

Definition imported_image (imp : ImageImport) (layout : ImageDiskLayout) : Image :=
  let spec := import_Spec imp in
  mkImage (new_meta (imp_ImageName spec) (Namespace imp) ∅ {[imageImportAnnotation := Name imp]})
    (mkImageSpec (imp_OSFamily spec) (imp_Bootable spec) layout (imp_Params spec) (imp_PostHookRefs spec))
    (mkImageStatus "" []).

(** A missing annotation reads as the empty string. *)
Definition ensureImportedImage (imp : ImageImport) (layout : ImageDiskLayout) : go (option GoErr) :=
  let name := imp_ImageName (import_Spec imp) in
  r <- Get KImage (mkKey (Namespace imp) name) ;;
  match r with
  | inl existing =>
    Ret (if default "" (Annotations (existing : Image) !! imageImportAnnotation) =s Name imp then None
         else Some (importNameConflictError "Image" name))
  | inr err =>
    if negb (IsNotFound err) then Ret (Some (wrapf "imageimport %q: getting Image %q: %w" [Name imp; name] err))
    else
    r <- Create KImage (imported_image imp layout) ;;
    Ret match r with
        | inl _ => None
        | inr err => if IsAlreadyExists err then None
                     else Some (wrapf "imageimport %q: creating Image %q: %w" [Name imp; name] err)
        end
  end.

Definition content_name (imp : ImageImport) (part : ResultPartition) : string :=
  ContentName (imp_ContentPrefix (import_Spec imp)) (rp_Number part).

(** The loop of [completeIngest]: the references in order, or the first error. *)
Fixpoint ensure_contents (imp : ImageImport) (parts : list ResultPartition) (contentRefs : list NameRef)
  : go (list NameRef + GoErr) :=
  match parts with
  | [] => Ret (inl contentRefs)
  | part :: parts =>
    if rp_Role part =s PartitionRoleSwap then ensure_contents imp parts contentRefs
    else
    let name := content_name imp part in
    err <- ensureImportedContent imp name part ;;
    match err with
    | Some err => Ret (inr err)
    | None => ensure_contents imp parts (contentRefs ++ [mkNameRef "" name])
    end
  end.

(** A name conflict ends the import; another error is returned. *)
Definition conclude (imp : ImageImport) (err : GoErr) : go reply :=
  if IsNameConflict err then recordImportFailed imp (emsg err) else Ret (noRequeue, Some err).

Definition completeIngest (imp : ImageImport) (job : Job) : go reply :=
  r <- readJobResult UnmarshalResult (Namespace imp) job ;;
  match r with
  | inr err => recordImportFailed imp (sprintf "reading ingest result: %s" [emsg err])
  | inl result =>
    if negb (ir_Success result) then recordImportFailed imp ("ingest job reported failure: " +:+ ir_Error result)
    else
    match ir_Disk result with
    | None => recordImportFailed imp "ingest job reported success with no disk result"
    | Some disk =>
      match importLayout imp disk with
      | inr err => recordImportFailed imp (emsg err)
      | inl layout =>
        r <- ensure_contents imp (rd_Partitions disk) [] ;;
        match r with
        | inr err => conclude imp err
        | inl contentRefs =>
          err <- ensureImportedImage imp layout ;;
          match err with
          | Some err => conclude imp err
          | None => recordImportSucceeded imp contentRefs
          end
        end
      end
    end
  end.

(** ** The reconciler *)

Definition reconcileIngesting (imp : ImageImport) : go reply :=
  if staged (src_URL (imp_Source (import_Spec imp))) && (ig_StagingPVCName Ingest =s "") then
    recordImportPending imp "StagingUnconfigured"
      "spec.source.url uses a staged upload but no staging PVC is configured on the manager; the import stays Pending until it is"
  else
  r <- ensureIngestScratchPVC imp ;;
  match r with
  | inr err => Ret (noRequeue, Some err)
  | inl scratchPVC =>
    r <- ingestJobFor imp ;;
    match r with
    | inr err => Ret (noRequeue, Some err)
    | inl None =>
      err <- createIngestJob imp (Name (scratchPVC : PersistentVolumeClaim)) ;;
      match err with
      | Some err => Ret (noRequeue, Some err)
      | None => recordIngesting imp "IngestJobCreated" "ingest job created"
      end
    | inl (Some job) =>
      match outcomeOf job with
      | jobSucceeded => completeIngest imp job
      | jobFailed => recordImportFailed imp (sprintf "ingest job %q failed" [Name job])
      | jobRunning => recordIngesting imp "IngestRunning" "ingest job is running"
      end
    end
  end.

Definition finished (imp : ImageImport) : bool :=
  let state := imp_State (import_Status imp) in (state =s ImageImportStateSucceeded) || (state =s ImageImportStateFailed).

Definition onChange (imp : ImageImport) : go reply :=
  if finished imp then reconcileFinished imp
  else if imp_State (import_Status imp) =s legacyReadyState then migrateLegacyReadyState imp
  else if negb (ingest_ready Ingest) then
    recordImportPending imp "IngestUnconfigured" "no ingest Job image is configured on the manager; the import stays Pending until it is"
  else reconcileIngesting imp.

Definition Reconcile (key : ObjectKey) : go reply :=
  r <- Get KImport key ;;
  match r with
  | inr err => Ret (noRequeue, if IsNotFound err then None else Some err)
  | inl imp => onChange imp
  end.

End Reconciler.
