(* ===== verification/ImportSafety.v ===== *)
(** * ImportSafety: what the ImageImport reconciler may write

    What may be written after a history of calls and answers, for every run of
    [Imports.Reconcile]: the Job and its claim only for an import that has not
    finished, a PartitionContent only from the Job's result, the Image only when
    all it refers to is in place, and the deletion of the import only when its
    time to live has passed.  The size of the scratch claim; the layout of the
    Image; and a race by which an import binds a content it did not create. *)

From S2P Require Import Prelude Text Api Effects Workloads Cluster Store Machine SiteDerive PlanBuild Subnets SeedDemand Contents Imports.
Local Open Scope string_scope.
Local Open Scope list_scope.
Local Open Scope Z_scope.

Section Guard.
Context `{ApiMachinery} (hex_sha256 : string -> string) (UnmarshalResult : string -> IngestResult + GoErr).
Context (out_of_range : Z) (Ingest : ImageIngestConfig).

Abbreviation past := (trace resp).
Abbreviation reconcile := (Imports.Reconcile hex_sha256 UnmarshalResult out_of_range Ingest).

Definition state_of (imp : ImageImport) : string := imp_State (import_Status imp).
Definition source_url (imp : ImageImport) : string := src_URL (imp_Source (import_Spec imp)).

Definition read_import (h : past) (imp : ImageImport) : Prop := exists key, ev (R := resp) (EGet KImport key) (inl imp) ∈ h.

(** An import that was read and may still ingest. *)
Definition open_import (h : past) (imp : ImageImport) : Prop :=
  read_import h imp /\ finished imp = false /\ state_of imp <> legacyReadyState /\ ingest_ready Ingest = true.

Definition free (h : past) (k : kind) (key : ObjectKey) : Prop :=
  exists err, ev (R := resp) (EGet k key) (inr err) ∈ h /\ IsNotFound err = true.

(** The claim the Job is to write to: read, created, or just created by another. *)
Definition scratch (h : past) (imp : ImageImport) (pvc : PersistentVolumeClaim) : Prop :=
  ev (R := resp) (EGet KPVC (mkKey (Namespace imp) (ingestScratchPVCName hex_sha256 (Name imp)))) (inl pvc) ∈ h \/
  (exists sent r, ev (R := resp) (ECreate KPVC sent) r ∈ h /\
     match r with inl created => pvc = created | inr err => IsAlreadyExists err = true /\ pvc = sent end).

(** The import's Job was read as succeeded, and its pods as carrying this disk. *)
Definition captured (h : past) (imp : ImageImport) (disk : ResultDisk) : Prop :=
  exists job pods message result,
    ev (R := resp) (EGet KJob (mkKey (Namespace imp) (ingestJobName hex_sha256 imp))) (inl job) ∈ h /\ outcomeOf job = jobSucceeded /\
    ev (R := resp) (EListLabels KPod (Namespace imp) {["job-name" := Name job]}) (inl pods) ∈ h /\
    termination_message pods = Some message /\ UnmarshalResult message = inl result /\ ir_Success result = true /\ ir_Disk result = Some disk.

(** The object of that name: one that [ours] was read, or the name was free and
    a create was answered with the object or with [AlreadyExists]. *)
Definition in_place (h : past) (k : kind) (key : ObjectKey) (ours : obj k -> Prop) (o : obj k) : Prop :=
  (exists x, ev (R := resp) (EGet k key) (inl x) ∈ h /\ ours x) \/
  (free h k key /\ exists r, ev (R := resp) (ECreate k o) r ∈ h /\ match r with inl _ => True | inr err => IsAlreadyExists err = true end).

Definition content_of (imp : ImageImport) (c : PartitionContent) : Prop := pcs_ImportName (pc_Source (content_Spec c)) = Name imp.
Definition image_from (imp : ImageImport) (i : Image) : Prop := default "" (Annotations i !! imageImportAnnotation) = Name imp.

Definition content_key (imp : ImageImport) (part : ResultPartition) : ObjectKey := mkKey (Namespace imp) (content_name imp part).
Definition image_key (imp : ImageImport) : ObjectKey := mkKey (Namespace imp) (imp_ImageName (import_Spec imp)).

(** The partitions whose bytes are kept, and the references to their contents. *)
Definition kept_parts (parts : list ResultPartition) : list ResultPartition :=
  List.filter (fun part => rp_Role part <>s PartitionRoleSwap) parts.
Definition content_refs (imp : ImageImport) (parts : list ResultPartition) : list NameRef :=
  map (fun part => mkNameRef "" (content_name imp part)) (kept_parts parts).

Definition contents_in_place (h : past) (imp : ImageImport) (parts : list ResultPartition) : Prop :=
  Forall (fun part => in_place h KContent (content_key imp part) (content_of imp) (imported_content imp (content_name imp part) part))
    (kept_parts parts).

(** The write keeps what the import says it made. *)
Definition same_refs (imp imp' : ImageImport) : Prop :=
  imp_ImageRef (import_Status imp') = imp_ImageRef (import_Status imp) /\
  imp_ContentRefs (import_Status imp') = imp_ContentRefs (import_Status imp).

(** The status of a write, given the import that was read: a completion time
    added to a finished import, a legacy Ready renamed, work still to be done or
    given up, or a success. *)
Definition status_write (h : past) (imp imp' : ImageImport) : Prop :=
  (state_of imp' = state_of imp /\ finished imp = true /\ imp_CompletionTime (import_Status imp) = None /\ same_refs imp imp' \/
   state_of imp' = ImageImportStateSucceeded /\ state_of imp = legacyReadyState /\ same_refs imp imp' \/
   state_of imp' ∈ [ImageImportStatePending; ImageImportStateIngesting; ImageImportStateFailed] /\
     finished imp = false /\ state_of imp <> legacyReadyState \/
   state_of imp' = ImageImportStateSucceeded /\ open_import h imp /\
     exists disk layout, captured h imp disk /\ importLayout imp disk = inl layout /\ contents_in_place h imp (rd_Partitions disk) /\
       in_place h KImage (image_key imp) (image_from imp) (imported_image imp layout) /\
       imp_ImageRef (import_Status imp') = Some (mkNameRef "" (imp_ImageName (import_Spec imp))) /\
       imp_ContentRefs (import_Status imp') = content_refs imp (rd_Partitions disk)) /\
  (finished imp' = true -> imp_CompletionTime (import_Status imp') <> None) /\
  (forall t, imp_CompletionTime (import_Status imp) = Some t -> imp_CompletionTime (import_Status imp') = Some t).

(** The import was read finished, or came back from the write that finished it. *)
Definition ended (h : past) (imp : ImageImport) : Prop :=
  (read_import h imp /\ finished imp = true) \/
  (exists sent, ev (R := resp) (EStatusApply KImport sent) (inl imp) ∈ h /\ finished sent = true).

Definition permitted (h : past) (e : eff) : Prop :=
  match e with
  | ECreate KPVC pvc => exists imp size refs, open_import h imp /\ SetControllerReference [] imp = inl refs /\
      let base := buildIngestScratchPVC Ingest imp (ingestScratchPVCName hex_sha256 (Name imp)) size in
      pvc = base <| pvc_meta := set_owners refs (pvc_meta base) |> /\ free h KPVC (key_of (pvc : PersistentVolumeClaim))
  | ECreate KJob job => exists imp pvc refs, open_import h imp /\ SetControllerReference [] imp = inl refs /\ scratch h imp pvc /\
      (staged (source_url imp) = true -> ig_StagingPVCName Ingest <> "") /\
      let base := buildIngestJob hex_sha256 Ingest imp (Name pvc) in
      job = base <| job_meta := set_owners refs (job_meta base) |> /\ free h KJob (key_of (job : Job))
  | ECreate KContent c => exists imp disk part, open_import h imp /\ captured h imp disk /\ part ∈ kept_parts (rd_Partitions disk) /\
      c = imported_content imp (content_name imp part) part /\ free h KContent (content_key imp part)
  | ECreate KImage image => exists imp disk layout, open_import h imp /\ captured h imp disk /\ importLayout imp disk = inl layout /\
      contents_in_place h imp (rd_Partitions disk) /\ image = imported_image imp layout /\ free h KImage (image_key imp)
  | EStatusApply KImport imp' => exists imp, read_import h imp /\ import_meta imp' = import_meta imp /\ import_Spec imp' = import_Spec imp /\
      status_write h imp imp'
  | EDelete KImport key => exists imp seconds completed now, ended h imp /\ key = key_of imp /\
      imp_TTLSecondsAfterFinished (import_Spec imp) = Some seconds /\ imp_CompletionTime (import_Status imp) = Some completed /\
      ev (R := resp) ENow now ∈ h /\
      (0 <= seconds < 2 ^ 31 -> - 2 ^ 62 <= now - completed -> seconds * Second <= now - completed)
  | _ => is_write e = false
  end.

Definition guard : monitor resp past := history permitted (fun _ _ => True).

(** ** Histories grow *)

#[local] Hint Resolve grows_refl grows_more grows_in grows_last : core.

Lemma read_import_grows h h' imp : grows h h' -> read_import h imp -> read_import h' imp.
Proof. intros Hg [k Hk]. exists k. eauto. Qed.
#[local] Hint Resolve read_import_grows : core.
Lemma open_grows h h' imp : grows h h' -> open_import h imp -> open_import h' imp.
Proof. intros Hg [Hr ?]. split; eauto. Qed.
Lemma free_grows h h' k key : grows h h' -> free h k key -> free h' k key.
Proof. intros Hg (err & Hk & ?). exists err. eauto. Qed.
#[local] Hint Resolve open_grows free_grows : core.
Lemma captured_grows h h' imp disk : grows h h' -> captured h imp disk -> captured h' imp disk.
Proof. intros Hg (job & pods & m & res & Hj & Ho & Hp & ? & ? & ? & ?). exists job, pods, m, res. split_and!; eauto. Qed.
Lemma in_place_grows h h' k key ours o : grows h h' -> in_place h k key ours o -> in_place h' k key ours o.
Proof. intros Hg [(x & Hx & ?)|(Hf & r & Hr & ?)]; [left; exists x; eauto|right; split; [eauto|exists r; eauto]]. Qed.
Lemma contents_grows h h' imp parts : grows h h' -> contents_in_place h imp parts -> contents_in_place h' imp parts.
Proof. intros Hg Hp. eapply Forall_impl; [exact Hp|]. intros part. by apply in_place_grows. Qed.
#[local] Hint Resolve captured_grows in_place_grows contents_grows : core.

(** ** Parts that read *)

Definition reads (e : eff) : Prop := is_write e = false.

Lemma import_reads_permitted h e : reads e -> permitted h e.
Proof. intros He. by destruct e as [[]|[]|[]|[]|[]|[]|[]|[]|[]|[]|[]|[]| | | | | | | | | | | | | | | | |]. Qed.

Definition import_reading {A} := wp_harmless permitted (fun _ _ => True) (X := A) reads import_reads_permitted.

Lemma size_reads imp : calls reads (ingestScratchSizeBytes out_of_range Ingest imp).
Proof.
  unfold ingestScratchSizeBytes. destruct (imp_ScratchSize _); [done|]. apply calls_bind.
  - unfold discoverSourceSizeBytes. destruct (staged _); [destruct (_ =s _); [done|]|destruct (_ || _); [|done]].
    + unfold discoverStagedSourceSizeBytes. apply calls_bind; [done|]. by intros [].
    + unfold discoverHTTPSourceSizeBytes, headContentLength. apply calls_bind; [apply calls_bind; [done|by intros []]|].
      intros [size|]; [done|]. unfold rangeContentLength. apply calls_bind; [done|]. by intros [].
  - intros size. apply calls_bind; [by destruct (bool_decide _)|done].
Qed.

(** ** The end of an import *)

Lemma expired seconds completed now : (0 <? int64 (int64 (seconds * Second) - Sub now completed)) = false ->
  0 <= seconds < 2 ^ 31 -> - 2 ^ 62 <= now - completed -> seconds * Second <= now - completed.
Proof.
  intros He Hs Hd. apply Z.ltb_ge in He. unfold Second, Millisecond in *.
  rewrite (int64_id (seconds * _)) in He by lia. unfold Sub in He. rewrite int64_id in He by lia. lia.
Qed.

Lemma ttl_guarded imp h : ended h imp -> wp guard (enforceImportTTL imp) h (fun _ _ => True).
Proof.
  intros He. unfold enforceImportTTL. destruct (imp_TTLSecondsAfterFinished _) as [seconds|] eqn:Hs; [|done].
  destruct (imp_CompletionTime _) as [completed|] eqn:Hc; [|split; [done|by intros []]].
  apply wp_bind. split; [done|]. intros now _. cbn [wp guard history step]. destruct (0 <? _) eqn:Hr; [done|].
  apply wp_bind. split; [|by intros [err|] _]. exists imp, seconds, completed, now. split_and!; auto; [|by apply expired].
  destruct He as [[Hk ?]|(sent & Hk & ?)]; [left|right]; eauto 6.
Qed.

Lemma applied_guarded imp imp' fmt after h : read_import h imp -> import_meta imp' = import_meta imp -> import_Spec imp' = import_Spec imp ->
  status_write h imp imp' ->
  (forall o, wp guard (after o) (h ++ [ev (R := resp) (EStatusApply KImport imp') (inl o)]) (fun _ _ => True)) ->
  wp guard (applied imp' fmt after) h (fun _ _ => True).
Proof.
  intros Hr Hm Hsp Hw Ha. apply wp_bind. split; [exists imp; by split_and!|]. intros [o|err] _; cbn [wp guard history step]; [apply Ha|done].
Qed.

(** A write that finishes the import, or finds it finished, goes on to the time to live. *)
Lemma finish_guarded imp imp' fmt h : read_import h imp -> import_meta imp' = import_meta imp -> import_Spec imp' = import_Spec imp ->
  status_write h imp imp' -> finished imp' = true -> wp guard (applied imp' fmt enforceImportTTL) h (fun _ _ => True).
Proof. intros Hr Hm Hsp Hw Hf. apply (applied_guarded imp); try done. intros o. apply ttl_guarded. right. exists imp'. eauto. Qed.

(** What stamping leaves. *)
Definition stamped (imp imp' : ImageImport) : Prop :=
  import_meta imp' = import_meta imp /\ import_Spec imp' = import_Spec imp /\ state_of imp' = state_of imp /\
  imp_ImageRef (import_Status imp') = imp_ImageRef (import_Status imp) /\ imp_ContentRefs (import_Status imp') = imp_ContentRefs (import_Status imp) /\
  imp_CompletionTime (import_Status imp') <> None /\
  (forall t, imp_CompletionTime (import_Status imp) = Some t -> imp_CompletionTime (import_Status imp') = Some t).

Lemma stamp_guarded imp h : wp guard (stampCompletionTime imp) h (fun imp' h' => grows h h' /\ stamped imp imp').
Proof.
  unfold stampCompletionTime, stamped. destruct (imp_CompletionTime (import_Status imp)) eqn:Hc.
  - cbn. rewrite Hc. by split_and!.
  - apply wp_bind. split; [done|]. intros now _. cbn. split; [apply grows_app|]. by split_and!.
Qed.

Lemma finished_state imp imp' : state_of imp' = state_of imp -> finished imp' = finished imp.
Proof. unfold state_of, finished. by intros ->. Qed.

(** Both records of an outcome, once the state is set. *)
Lemma outcome_guarded imp imp1 reason message status fmt h : read_import h imp -> import_meta imp1 = import_meta imp ->
  import_Spec imp1 = import_Spec imp -> finished imp1 = true ->
  imp_CompletionTime (import_Status imp1) = imp_CompletionTime (import_Status imp) ->
  (forall h' imp', grows h h' -> state_of imp' = state_of imp1 -> imp_ImageRef (import_Status imp') = imp_ImageRef (import_Status imp1) ->
     imp_ContentRefs (import_Status imp') = imp_ContentRefs (import_Status imp1) ->
     imp_CompletionTime (import_Status imp') <> None ->
     (forall t, imp_CompletionTime (import_Status imp) = Some t -> imp_CompletionTime (import_Status imp') = Some t) ->
     status_write h' imp imp') ->
  wp guard (imp2 <- stampCompletionTime imp1 ;; applied (setImageImportReadyCondition status reason message imp2) fmt enforceImportTTL) h
    (fun _ _ => True).
Proof.
  intros Hr Hm Hsp Hf Hc Hw. eapply wp_seq; [apply stamp_guarded|]. intros imp2 h' [Hg (S1 & S2 & S3 & S4 & S5 & S6 & S7)].
  apply (finish_guarded imp); cbn; [eauto|by rewrite S1|by rewrite S2| |].
  - apply Hw; cbn; auto. intros t Ht. apply S7. by rewrite Hc.
  - by rewrite (finished_state imp2), (finished_state imp1).
Qed.

Lemma import_failed_guarded imp message h : read_import h imp -> finished imp = false -> state_of imp <> legacyReadyState ->
  wp guard (recordImportFailed imp message) h (fun _ _ => True).
Proof.
  intros Hr Hf Hl. apply (outcome_guarded imp); try done. intros h' imp' _ Hs _ _ Hc Ht. split; [|done].
  right. right. left. split; [rewrite Hs; cbn; set_solver|done].
Qed.

Lemma waiting_guarded imp state reason message fmt result h : read_import h imp -> finished imp = false -> state_of imp <> legacyReadyState ->
  state ∈ [ImageImportStatePending; ImageImportStateIngesting] ->
  wp guard (applied (setImageImportReadyCondition ConditionFalse reason message (import_state state imp)) fmt (fun _ => Ret result)) h (fun _ _ => True).
Proof.
  intros Hr Hf Hl Hs. apply (applied_guarded imp); try done. split; [|split; [|by intros t]].
  - right. right. left. split; [cbn|done]. set_solver.
  - cbn. intros Hfin. exfalso. unfold finished in Hfin. cbn in Hfin.
    apply elem_of_cons in Hs as [->|[->|[]%elem_of_nil]%elem_of_cons]; done.
Qed.

(** ** What an import creates *)

Lemma content_guarded imp disk part h : open_import h imp -> captured h imp disk -> part ∈ kept_parts (rd_Partitions disk) ->
  wp guard (ensureImportedContent imp (content_name imp part) part) h (fun r h' => grows h h' /\
    (r = None -> in_place h' KContent (content_key imp part) (content_of imp) (imported_content imp (content_name imp part) part))).
Proof.
  intros Ho Hc Hp. unfold ensureImportedContent. apply wp_bind. split; [done|]. intros [c|err] _; cbn [wp guard history step].
  - split; [apply grows_app|]. destruct (String.eqb_spec (pcs_ImportName (pc_Source (content_Spec c))) (Name imp)) as [Hn|]; [|done].
    intros _. left. exists c. auto.
  - destruct (IsNotFound err) eqn:He; cbn [negb]; [|split; [apply grows_app|done]].
    assert (Hfree : free (h ++ [ev (R := resp) (EGet KContent (content_key imp part)) (inr err)]) KContent (content_key imp part))
      by (exists err; auto).
    apply wp_bind. split; [exists imp, disk, part; split_and!; eauto|].
    intros [o|err'] _; cbn [wp guard history step]; (split; [auto|]).
    + intros _. right. split; [eauto|]. exists (inl o). auto.
    + destruct (IsAlreadyExists err') eqn:Ha; [|done]. intros _. right. split; [eauto|]. exists (inr err'). auto.
Qed.

(** The loop keeps [done] in place and adds a reference per partition kept. *)
Lemma contents_guarded imp disk before parts refs h : open_import h imp -> captured h imp disk -> rd_Partitions disk = before ++ parts ->
  contents_in_place h imp before -> refs = content_refs imp before ->
  wp guard (ensure_contents imp parts refs) h (fun r h' => grows h h' /\
    forall refs', r = inl refs' -> contents_in_place h' imp (rd_Partitions disk) /\ refs' = content_refs imp (rd_Partitions disk)).
Proof.
  revert before refs h. induction parts as [|part parts IH]; intros before refs h Ho Hc Hd Hb ->; cbn [ensure_contents].
  { rewrite app_nil_r in Hd. split; [done|]. intros ? [= <-]. by rewrite Hd. }
  assert (Hd' : rd_Partitions disk = (before ++ [part]) ++ parts) by (by rewrite <- app_assoc).
  assert (Hk : kept_parts (before ++ [part]) = kept_parts before ++ kept_parts [part]) by apply List.filter_app.
  destruct (rp_Role part =s PartitionRoleSwap) eqn:Hs.
  - assert (Hn : kept_parts [part] = []) by (unfold kept_parts; cbn; by rewrite Hs). rewrite Hn, app_nil_r in Hk.
    apply (IH (before ++ [part])); auto; [|by unfold content_refs; rewrite Hk]. unfold contents_in_place. by rewrite Hk.
  - assert (Hn : kept_parts [part] = [part]) by (unfold kept_parts; cbn; by rewrite Hs). rewrite Hn in Hk.
    assert (Hin : part ∈ kept_parts (rd_Partitions disk)).
    { rewrite Hd'. unfold kept_parts at 1. rewrite List.filter_app. fold (kept_parts (before ++ [part])). rewrite Hk. set_solver. }
    eapply wp_seq; [by apply (content_guarded imp disk)|]. intros [err|] h' [Hg Hp]; [by split|].
    eapply wp_mono; [apply (IH (before ++ [part])); eauto|].
    + unfold contents_in_place. rewrite Hk. apply Forall_app. split; [eapply contents_grows; eauto|]. constructor; [by apply Hp|done].
    + unfold content_refs. by rewrite Hk, map_app.
    + intros r h'' [Hg' Hr]. split; [by eapply grows_trans|exact Hr].
Qed.

Lemma import_image_guarded imp disk layout h : open_import h imp -> captured h imp disk -> importLayout imp disk = inl layout ->
  contents_in_place h imp (rd_Partitions disk) ->
  wp guard (ensureImportedImage imp layout) h (fun r h' => grows h h' /\
    (r = None -> in_place h' KImage (image_key imp) (image_from imp) (imported_image imp layout))).
Proof.
  intros Ho Hc Hl Hp. unfold ensureImportedImage. apply wp_bind. split; [done|]. intros [i|err] _; cbn [wp guard history step].
  - split; [apply grows_app|]. destruct (String.eqb_spec (default "" (Annotations (i : Image) !! imageImportAnnotation)) (Name imp)) as [Hn|]; [|done].
    intros _. left. exists i. auto.
  - destruct (IsNotFound err) eqn:He; cbn [negb]; [|split; [apply grows_app|done]].
    assert (Hfree : free (h ++ [ev (R := resp) (EGet KImage (image_key imp)) (inr err)]) KImage (image_key imp)) by (exists err; auto).
    apply wp_bind. split; [exists imp, disk, layout; split_and!; eauto|].
    intros [o|err'] _; cbn [wp guard history step]; (split; [auto|]).
    + intros _. right. split; [eauto|]. exists (inl o). auto.
    + destruct (IsAlreadyExists err') eqn:Ha; [|done]. intros _. right. split; [eauto|]. exists (inr err'). auto.
Qed.

Lemma conclude_guarded imp err h : open_import h imp -> wp guard (conclude imp err) h (fun _ _ => True).
Proof. intros (Hr & Hf & Hl & _). unfold conclude. destruct (IsNameConflict err); [by apply import_failed_guarded|done]. Qed.

Lemma succeeded_guarded imp disk layout h : open_import h imp -> captured h imp disk -> importLayout imp disk = inl layout ->
  contents_in_place h imp (rd_Partitions disk) -> in_place h KImage (image_key imp) (image_from imp) (imported_image imp layout) ->
  wp guard (recordImportSucceeded imp (content_refs imp (rd_Partitions disk))) h (fun _ _ => True).
Proof.
  intros Ho Hc Hl Hp Hi. unfold recordImportSucceeded.
  apply (outcome_guarded imp (import_status (fun st => st <| imp_State := ImageImportStateSucceeded |>
           <| imp_ImageRef := Some (mkNameRef "" (imp_ImageName (import_Spec imp))) |> <| imp_ContentRefs := content_refs imp (rd_Partitions disk) |>) imp));
    try done; [apply Ho|].
  intros h' imp' Hg Hs Hir Hcr Hct Ht. split; [|done]. right. right. right. split; [done|]. split; [eauto|].
  exists disk, layout. split_and!; eauto.
Qed.

Lemma import_complete_guarded imp job h : open_import h imp -> outcomeOf job = jobSucceeded ->
  ev (R := resp) (EGet KJob (mkKey (Namespace imp) (ingestJobName hex_sha256 imp))) (inl job) ∈ h ->
  wp guard (completeIngest UnmarshalResult imp job) h (fun _ _ => True).
Proof.
  intros Ho Hj Hin. unfold completeIngest. apply wp_bind. unfold readJobResult. apply wp_bind. split; [done|].
  intros pods' _. cbn [wp guard history step]. pose proof Ho as (Hr & Hf & Hl & _).
  assert (Hfail : forall h' message, grows h h' -> wp guard (recordImportFailed imp message) h' (fun _ _ => True)) by (intros; apply import_failed_guarded; eauto).
  destruct pods' as [pods|err]; [|by apply Hfail; auto].
  destruct (termination_message pods) as [message|] eqn:Hm; [|by apply Hfail; auto].
  destruct (UnmarshalResult message) as [result|err] eqn:Hu; [|by apply Hfail; auto].
  destruct (ir_Success result) eqn:Hsu; cbn [negb]; [|by apply Hfail; auto].
  destruct (ir_Disk result) as [disk|] eqn:Hd; [|by apply Hfail; auto].
  destruct (importLayout imp disk) as [layout|err] eqn:Hla; [|by apply Hfail; auto].
  set (h1 := h ++ _). assert (Hg1 : grows h h1) by apply grows_app.
  assert (Hcap : captured h1 imp disk) by (exists job, pods, message, result; split_and!; eauto; apply grows_last).
  eapply wp_seq; [apply (contents_guarded imp disk [] (rd_Partitions disk)); eauto; constructor|].
  intros [refs|err] h2 [Hg2 Hrefs]; [|by apply conclude_guarded; eauto]. destruct (Hrefs refs eq_refl) as [Hplace ->].
  eapply wp_seq; [apply (import_image_guarded imp disk); eauto|]. intros [err|] h3 [Hg3 Hi]; [by apply conclude_guarded; eauto|].
  apply (succeeded_guarded imp disk layout); eauto.
Qed.

(** ** The claim and the Job *)

Lemma scratch_guarded imp h : open_import h imp ->
  wp guard (ensureIngestScratchPVC hex_sha256 out_of_range Ingest imp) h (fun r h' => grows h h' /\ forall pvc, r = inl pvc -> scratch h' imp pvc).
Proof.
  intros Ho. unfold ensureIngestScratchPVC. apply wp_bind. split; [done|]. intros [pvc|err] _; cbn [wp guard history step].
  - split; [apply grows_app|]. intros ? [= <-]. left. auto.
  - destruct (IsNotFound err) eqn:He; cbn [negb]; [|split; [apply grows_app|done]].
    eapply wp_seq; [apply import_reading, size_reads|]. intros size h' (t & -> & _).
    set (h1 := h ++ _). assert (Hg : grows h1 (h1 ++ t)) by apply grows_app.
    assert (Hfree : free h1 KPVC (mkKey (Namespace imp) (ingestScratchPVCName hex_sha256 (Name imp)))) by (exists err; split; [apply grows_last|done]).
    unfold owned. change (OwnerReferences (buildIngestScratchPVC Ingest imp _ size)) with (@nil OwnerReference).
    destruct (SetControllerReference [] imp) as [refs|e] eqn:Hrefs; [|split; [subst h1; rewrite <- app_assoc; apply grows_app|done]].
    assert (Hg0 : grows h h1) by apply grows_app. assert (Hg2 : grows h (h1 ++ t)) by (by eapply grows_trans).
    apply wp_bind. split; [exists imp, size, refs; split_and!; eauto|].
    intros [o|err'] _; cbn [wp guard history step]; (split; [auto|]).
    + intros pvc [= <-]. right. eexists _, (inl o). auto.
    + destruct (IsAlreadyExists err') eqn:Ha; [|done]. intros pvc [= <-]. right. eexists _, (inr err'). auto.
Qed.

Lemma create_job_guarded imp pvc h : open_import h imp -> scratch h imp pvc -> (staged (source_url imp) = true -> ig_StagingPVCName Ingest <> "") ->
  free h KJob (mkKey (Namespace imp) (ingestJobName hex_sha256 imp)) ->
  wp guard (createIngestJob hex_sha256 Ingest imp (Name pvc)) h (fun _ h' => grows h h').
Proof.
  intros Ho Hs Hst Hf. unfold createIngestJob, owned. set (base := buildIngestJob hex_sha256 Ingest imp (Name pvc)).
  assert (Hm : job_meta base = new_meta (ingestJobName hex_sha256 imp) (Namespace imp) (component_labels imageIngestJobComponentValue) ∅).
  { subst base. unfold buildIngestJob. by destruct (ingestPodSecurityContext _). }
  assert (Hrefs : OwnerReferences base = []) by (by rewrite Hm). rewrite Hrefs.
  destruct (SetControllerReference [] imp) as [refs|e] eqn:Hset; [|apply grows_refl].
  apply wp_bind. split; [|intros [o|err] _; apply grows_app].
  exists imp, pvc, refs. split_and!; try done. cbv zeta. fold base. split; [done|]. unfold key_of. cbn [upd job_meta]. by rewrite Hm.
Qed.

Lemma scratch_grows h h' imp pvc : grows h h' -> scratch h imp pvc -> scratch h' imp pvc.
Proof. intros Hg [Hk|(s & r & Hk & ?)]; [left; eauto|right; exists s, r; eauto]. Qed.
#[local] Hint Resolve scratch_grows : core.

Lemma ingesting_guarded imp h : open_import h imp ->
  wp guard (reconcileIngesting hex_sha256 UnmarshalResult out_of_range Ingest imp) h (fun _ _ => True).
Proof.
  intros Ho. pose proof Ho as (Hr & Hf & Hl & _). unfold reconcileIngesting.
  destruct (_ && _) eqn:Hstage; [apply waiting_guarded; try done; set_solver|].
  eapply wp_seq; [by apply scratch_guarded|]. intros [pvc|err] h1 [Hg1 Hs]; [|done]. specialize (Hs pvc eq_refl).
  apply wp_bind. unfold ingestJobFor. apply wp_bind. split; [done|]. intros [job|err] _; cbn [wp guard history step].
  - destruct (outcomeOf job) eqn:Hout.
    + apply waiting_guarded; try done; [eauto|set_solver].
    + apply import_complete_guarded; eauto.
    + apply import_failed_guarded; eauto.
  - destruct (IsNotFound err) eqn:He; [|done]. set (h2 := h1 ++ _).
    assert (Hg : grows h h2) by (subst h2; auto). assert (Hg2 : grows h1 h2) by apply grows_app.
    eapply wp_seq; [apply create_job_guarded; eauto|].
    + intros Hst Hn. unfold source_url in Hst. by rewrite Hst, Hn in Hstage.
    + exists err. split; [apply grows_last|done].
    + intros [e|] h3 Hg3; [done|]. assert (grows h h3) by (by eapply grows_trans). apply waiting_guarded; try done; [eauto|set_solver].
Qed.

Lemma import_Reconcile_guarded key : wp guard (reconcile key) [] (fun _ _ => True).
Proof.
  unfold Imports.Reconcile. apply wp_bind. split; [done|]. intros [imp|err] _; cbn [wp guard history step]; [|done].
  set (h := [] ++ _). assert (Hr : read_import h imp) by (exists key; apply grows_last). unfold onChange.
  destruct (finished imp) eqn:Hf.
  - unfold reconcileFinished. destruct (imp_CompletionTime (import_Status imp)) as [t|] eqn:Hc; [apply ttl_guarded; left; auto|].
    eapply wp_seq; [apply stamp_guarded|]. intros imp2 h' [Hg (S1 & S2 & S3 & S4 & S5 & S6 & S7)].
    apply (finish_guarded imp); eauto; [|by rewrite (finished_state imp)]. split; [left; by split_and!|]. split; [done|by rewrite Hc].
  - destruct (String.eqb_spec (imp_State (import_Status imp)) legacyReadyState) as [Hl|Hl].
    + unfold migrateLegacyReadyState. eapply wp_seq; [apply stamp_guarded|]. intros imp2 h' [Hg (S1 & S2 & S3 & S4 & S5 & S6 & S7)].
      apply (finish_guarded imp); eauto.
      * split; [right; left; by split_and!|auto].
      * by rewrite (finished_state (import_state ImageImportStateSucceeded imp)).
    + destruct (ingest_ready Ingest) eqn:Hi; cbn [negb]; [|apply waiting_guarded; try done; set_solver].
      apply ingesting_guarded. by split_and!.
Qed.

(** C12. Every write of the ImageImport reconciler is earned by what this run has
    seen.  The scratch claim and the ingest Job are created only for an import
    that has not finished, under names read as free (the Job only with a claim to
    write to, and only with a staging volume if the source is staged); a
    PartitionContent only from a kept partition of the disk that the import's own
    succeeded Job reported, under a name read as free; the Image only, under a
    name read as free, once every content its layout refers to is in place, with
    exactly that layout.  In place means: read with this import as its origin, or
    its name read as free and the create answered with the object or with
    AlreadyExists (so the object of a racing creator counts).  Succeeded is
    recorded for an unfinished import only with all of them in place, and names
    exactly them; for an import read in the legacy Ready state it is recorded with
    the references it already had.  A recorded completion time is never moved; the
    import is deleted only when finished and its time to live has passed.  No
    Image or PartitionContent is ever updated, patched or deleted. *)
Theorem import_writes_are_guarded key tr1 e (r : resp e) tr2 res
    (Hrun : runs (reconcile key) (tr1 ++ ev e r :: tr2) res) : permitted tr1 e.
Proof.
  apply (history_obeyed permitted (fun _ _ => True) _ _ _ _ _ _ _ (import_Reconcile_guarded key) Hrun). by apply Forall_forall.
Qed.
End Guard.

(** ** The size of the scratch claim *)

Lemma round53_close n : 0 < n -> Z.abs (round53 n - n) * 2 ^ 53 <= n.
Proof.
  intros Hn. unfold round53. cbv zeta. destruct (Z.leb_spec (Z.log2 n - 52) 0) as [|Hs]; [replace (n - n) with 0 by lia; cbn; lia|].
  set (s := Z.log2 n - 52) in *. assert (Hb : 2 ^ s * 2 ^ 53 <= 2 * n).
  { rewrite <- Z.pow_add_r by lia. replace (s + 53) with (Z.succ (Z.log2 n)) by lia. rewrite Z.pow_succ_r by apply Z.log2_nonneg.
    pose proof (proj1 (Z.log2_spec n Hn)). lia. }
  assert (Hu : 0 < 2 ^ s) by (apply Z.pow_pos_nonneg; lia).
  pose proof (Z.div_mod n (2 ^ s) ltac:(lia)) as Hd. pose proof (Z.mod_pos_bound n (2 ^ s) Hu) as Hm.
  set (u := 2 ^ s) in *. set (q := n / u) in *. set (r := n mod u) in *.
  assert (Hdown : 2 * r <= u -> Z.abs (q * u - n) * 2 ^ 53 <= n) by (replace (q * u - n) with (- r) by lia; rewrite Z.abs_neq by lia; lia).
  assert (Hup : u <= 2 * r -> Z.abs ((q + 1) * u - n) * 2 ^ 53 <= n).
  { replace ((q + 1) * u - n) with (u - r) by lia. rewrite Z.abs_eq by lia. lia. }
  destruct (Z.ltb_spec (2 * r) u); [apply Hdown; lia|]. destruct (Z.ltb_spec u (2 * r)); [apply Hup; lia|].
  destruct (Z.even q); [apply Hdown|apply Hup]; lia.
Qed.

Lemma roundUpGiB_spec n : 0 <= n < 2 ^ 62 -> n <= roundUpGiB n < n + gibiByte /\ roundUpGiB n mod gibiByte = 0.
Proof.
  intros Hn. unfold roundUpGiB. cbv zeta. rewrite Z.rem_mod_nonneg by (unfold gibiByte; lia).
  pose proof (Z.mod_pos_bound n gibiByte ltac:(unfold gibiByte; lia)) as Hm. pose proof (Z.div_mod n gibiByte ltac:(unfold gibiByte; lia)) as Hd.
  assert (gibiByte = 2 ^ 30) as Hg by done.
  destruct (Z.eqb_spec (n mod gibiByte) 0) as [He|He]; cbn [negb]; [lia|]. rewrite int64_id by lia. split; [lia|].
  replace (n + (gibiByte - n mod gibiByte)) with ((n / gibiByte + 1) * gibiByte) by lia. apply Z.mod_mul. lia.
Qed.

Section Size.
Context (out_of_range : Z).

(** The product of a size and a factor between 1 and 3, in [float64] and back. *)
Lemma scaled_spec s factor : 0 < s <= 2 ^ 60 -> scratchSizeAttachFactor <= factor <= scratchSizeSourceFactor ->
  s <= scaled out_of_range s factor <= 3 * s + 1024.
Proof.
  intros Hs Hf. unfold scaled, scratchSizeAttachFactor, scratchSizeSourceFactor, one in *. cbv zeta.
  pose proof (round53_close s ltac:(lia)) as H1. set (x := round53 s) in *.
  assert (Hx : 0 < x /\ s * (2 ^ 53 - 1) <= x * 2 ^ 53 <= s * (2 ^ 53 + 1)) by lia. destruct Hx as (Hx0 & Hx1 & Hx2).
  pose proof (round53_close (x * factor) ltac:(nia)) as H2. set (y := round53 (x * factor)) in *.
  assert (Hy : x * factor * (2 ^ 53 - 1) <= y * 2 ^ 53 <= x * factor * (2 ^ 53 + 1)) by lia.
  assert (Hlo : s * 2 ^ 52 <= y) by nia. assert (Hhi : y <= (3 * s + 1024) * 2 ^ 52) by nia.
  assert (Hd : s <= y / 2 ^ 52 <= 3 * s + 1024).
  { split; [apply Z.div_le_lower_bound; lia|]. apply Z.div_le_upper_bound; lia. }
  destruct (Z.ltb_spec (y / 2 ^ 52) (2 ^ 63)); lia.
Qed.

(** C13. The scratch claim of an import is never smaller than the configured floor
    nor than its source: whatever the attach mode and the format, for a source of
    up to 2^60 bytes whose size was learned, the rounding of the two [float64]
    steps never eats the margin, and the request is the floor or a whole number
    of GiB of at most three times the source (and at most 2 GiB more). *)
Theorem scratch_covers_source Ingest floorBytes s (Hs : 0 < s <= 2 ^ 60) :
  let n := computeIngestScratchSizeBytes out_of_range floorBytes (Some s) (scratch_factor Ingest) in
  floorBytes <= n /\ s <= n <= Z.max floorBytes (3 * s + 2 * gibiByte) /\ (n = floorBytes \/ n mod gibiByte = 0).
Proof.
  cbv zeta. unfold computeIngestScratchSizeBytes. destruct (Z.leb_spec s 0); [lia|]. cbv zeta.
  assert (Hf : scratchSizeAttachFactor <= scratch_factor Ingest <= scratchSizeSourceFactor).
  { unfold scratch_factor. destruct (ig_Unprivileged Ingest); [destruct (EqualFold _ _)|]; done. }
  pose proof (scaled_spec s _ Hs Hf) as Hsc. pose proof (roundUpGiB_spec (scaled out_of_range s (scratch_factor Ingest)) ltac:(lia)) as [Hr Hm].
  assert (gibiByte = 2 ^ 30) by done. destruct (Z.ltb_spec floorBytes (roundUpGiB (scaled out_of_range s (scratch_factor Ingest)))); split_and!; auto; lia.
Qed.
End Size.

(** ** Layout *)

Section Layout.
Context `{ApiMachinery}.

(** The Image's slots refer to the recorded contents, in order and to nothing
    else; a slot with content declares no file system, one without keeps its UUID. *)
Lemma layout_binds_contents imp disk layout : importLayout imp disk = inl layout ->
  omap is_ContentRef (lay_Slots layout) = content_refs imp (rd_Partitions disk) /\
  map is_Number (lay_Slots layout) = map rp_Number (rd_Partitions disk) /\ lay_Slots layout <> [] /\
  Forall (fun slot => is_FSType slot = "" /\ (is_ContentRef slot <> None -> is_UUID slot = "")) (lay_Slots layout).
Proof.
  unfold importLayout. destruct (_ =s _); [done|]. intros Hl.
  assert (Hs : lay_Slots layout = map (import_slot imp) (rd_Partitions disk) /\ rd_Partitions disk <> []).
  { by destruct (rd_Partitions disk) as [|part parts]; [|injection Hl as <-]. }
  destruct Hs as [-> Hne]. clear Hl. split_and!.
  - unfold content_refs, kept_parts. clear Hne. induction (rd_Partitions disk) as [|part parts IH]; [done|].
    cbn. cbn in IH. destruct (rp_Role part =s PartitionRoleSwap); cbn; by rewrite IH.
  - by rewrite map_map.
  - by destruct (rd_Partitions disk).
  - apply Forall_forall. intros slot (part & -> & _)%list_elem_of_fmap. cbn. by destruct (rp_Role part =s PartitionRoleSwap).
Qed.

(** Partitions of different numbers have contents of different names. *)
Lemma content_names_distinct imp part1 part2 : content_name imp part1 = content_name imp part2 -> rp_Number part1 = rp_Number part2.
Proof.
  unfold content_name, ContentName. intros Heq.
  do 2 apply string_app_inj_length in Heq as [_ Heq]; [|done..]. by apply show_dec_inj.
Qed.

(** ** Ends *)

(** What is left to a finished import. *)
Definition own_affairs (e : eff) : Prop :=
  match e with ENow | EPanic _ | EStatusApply KImport _ | EDelete KImport _ => True | _ => False end.

Lemma ttl_calls imp : calls own_affairs (enforceImportTTL imp).
Proof.
  unfold enforceImportTTL. destruct (imp_TTLSecondsAfterFinished _); [|done].
  destruct (imp_CompletionTime _); [|apply calls_vis; [done|by intros []]].
  apply calls_bind; [done|]. intros now. destruct (0 <? _); [done|]. apply calls_bind; [done|]. by intros [].
Qed.

Lemma stamp_calls imp : calls own_affairs (stampCompletionTime imp).
Proof. unfold stampCompletionTime. by destruct (imp_CompletionTime _). Qed.

Lemma applied_calls imp fmt : calls own_affairs (applied imp fmt enforceImportTTL).
Proof. unfold applied. apply calls_bind; [done|]. intros []; [apply ttl_calls|done]. Qed.

(** An import that has finished never ingests again, whatever becomes of its Job:
    all that is left to it is the clock, its own status and its own deletion. *)
Theorem finished_import_never_ingests hex_sha256 UnmarshalResult out_of_range Ingest imp tr res
    (Hf : finished imp = true \/ state_of imp = legacyReadyState)
    (Hrun : runs (onChange hex_sha256 UnmarshalResult out_of_range Ingest imp) tr res) :
  Forall (fun x => own_affairs (projT1 x)) tr.
Proof.
  eapply calls_runs; [|exact Hrun]. unfold onChange. destruct (finished imp) eqn:Hfin.
  - unfold reconcileFinished. destruct (imp_CompletionTime _); [apply ttl_calls|].
    apply calls_bind; [apply stamp_calls|]. intros o. apply applied_calls.
  - destruct Hf as [|Hf]; [done|]. unfold state_of in Hf. rewrite Hf, String.eqb_refl.
    apply calls_bind; [apply stamp_calls|]. intros o. apply applied_calls.
Qed.

(** The time to live, to the nanosecond: after it the import is deleted, before it
    the import is looked at again when exactly what is left has passed. *)
Theorem ttl_decides imp seconds completed tr res
    (Hs : imp_TTLSecondsAfterFinished (import_Spec imp) = Some seconds) (Hc : imp_CompletionTime (import_Status imp) = Some completed)
    (Hr : 0 <= seconds < 2 ^ 31) (Hrun : runs (enforceImportTTL imp) tr res) :
  exists now t, tr = ev (R := resp) ENow now :: t /\
    (- 2 ^ 62 <= now - completed < 2 ^ 62 ->
     if now - completed <? seconds * Second
     then t = [] /\ res = (requeueAfter (seconds * Second - (now - completed)), None)
     else exists err, t = [ev (R := resp) (EDelete KImport (key_of imp)) err] /\ fst res = noRequeue).
Proof.
  revert Hrun. unfold enforceImportTTL. rewrite Hs, Hc. intros (now & t & -> & Hrun). exists now, t. split; [done|]. intros Hd.
  unfold Second, Millisecond in *. cbn [bind] in Hrun. cbv zeta in Hrun. rewrite (int64_id (seconds * _)) in Hrun by lia. unfold Sub in Hrun.
  rewrite Z.min_r, Z.max_r in Hrun by lia. rewrite int64_id in Hrun by lia.
  destruct (Z.ltb_spec (now - completed) (seconds * (1000 * 1000000))) as [Hl|Hl].
  - rewrite (proj2 (Z.ltb_lt 0 _)) in Hrun by lia. by destruct Hrun as [-> ->].
  - rewrite (proj2 (Z.ltb_ge 0 _)) in Hrun by lia. destruct Hrun as (err & t' & -> & Hrun). exists err.
    cbn [runs bind] in Hrun. destruct Hrun as [-> ->]. split; [done|]. destruct err as [err|]; [|done]. by destruct (IsNotFound err).
Qed.

(** A content of another origin that takes the name between the look and the
    create is taken for the import's own: the answer [AlreadyExists] ends the
    check without a look at who made the object. *)
Theorem raced_content_is_accepted (w : forall e, option (resp e)) imp part missing taken
    (Hget : w (EGet KContent (content_key imp part)) = Some (inr missing)) (Hm : IsNotFound missing = true)
    (Hcreate : w (ECreate KContent (imported_content imp (content_name imp part) part)) = Some (inr taken)) (Ht : IsAlreadyExists taken = true) :
  interp w (ensureImportedContent imp (content_name imp part) part) = Some None.
Proof.
  unfold ensureImportedContent. rewrite interp_bind. unfold Get, call. cbn [interp]. fold (content_key imp part). rewrite Hget. cbn [interp].
  rewrite Hm. cbn [negb]. rewrite interp_bind. unfold Create, call. cbn [interp]. rewrite Hcreate. cbn [interp]. by rewrite Ht.
Qed.
End Layout.

(** ** Samples *)

Module Sample.
#[local] Existing Instance SimpleMeta.ops.

Definition digest (s : string) : string := "0123456789abcdef".
Definition cfg : ImageIngestConfig := mkIngestConfig "ingest:1" "" "" "" 0 [] "" "" "" 0 false 0.

Definition import (state : string) (completed ttl : option Z) : ImageImport :=
  mkImport (mkObjectMeta "noble" "ns" "uid-import" "1" 1 0 None [] ∅ ∅ [])
    (mkImportSpec (mkImportSource "https://example.org/noble.img" "sha256:00") "noble" "noble" "Linux" None None [] None ttl)
    (mkImportStatus state None [] completed []).

Definition part (number : Z) (role : string) : ResultPartition := mkResultPartition number role "ext4" 10 20 15 4 "u" "t" "p".
Definition disk : ResultDisk := mkResultDisk 100 "gpt" "{}" [part 1 ""; part 2 PartitionRoleSwap; part 3 ""].
Definition decode (message : string) : IngestResult + GoErr := inl (mkIngestResult true "" (Some disk) None).

Definition job : Job := buildIngestJob digest cfg (import "" None None) "scratch" <| job_Succeeded := 1 |>.
Definition pod : Pod := mkPod (mkObjectMeta "pod" "ns" "" "" 0 0 None [] ∅ ∅ []) "" "Succeeded" [] [Some "result"].
Definition claim : PersistentVolumeClaim :=
  let base := buildIngestScratchPVC cfg (import "" None None) (ingestScratchPVCName digest "noble") gibiByte in
  match SetControllerReference [] (import "" None None) with inl refs => base <| pvc_meta := set_owners refs (pvc_meta base) |> | inr _ => base end.

(** The Job of an import has succeeded; contents and Image do not exist, and a
    create of a content is answered with [answer]. *)
Definition handler (imp : ImageImport) (answer : PartitionContent -> PartitionContent + GoErr) (e : eff) (u : unit) : option (resp e * unit) :=
  match e return option (resp e * unit) with
  | EGet KImport _ => Some (inl imp, u)
  | EGet KPVC _ => Some (inl claim, u)
  | EGet KJob _ => Some (inl job, u)
  | EGet KContent _ => Some (inr Demo.not_found, u)
  | EGet KImage _ => Some (inr Demo.not_found, u)
  | EListLabels KPod _ _ => Some (inl [pod], u)
  | ECreate KContent c => Some (answer c, u)
  | ECreate KImage i => Some (inl i, u)
  | EStatusApply KImport o => Some (inl o, u)
  | ENow => Some (1000%Z, u)
  | EDelete _ _ => Some (None, u)
  | _ => None
  end.

Definition reconcile : go reply := Imports.Reconcile digest decode 0 cfg (mkKey "ns" "noble").
Definition trace_of (imp : ImageImport) (answer : PartitionContent -> PartitionContent + GoErr) : trace resp :=
  match exec (handler imp answer) reconcile tt with Some (_, _, tr) => tr | None => [] end.
Definition healthy : trace resp := trace_of (import ImageImportStateIngesting None (Some 0)) inl.

Definition taken : GoErr := mkErr KAlreadyExists "exists".

Definition answers_of (e : eff) : option (resp e) :=
  match e return option (resp e) with
  | EGet KContent _ => Some (inr Demo.not_found)
  | ECreate _ _ => Some (inr taken)
  | _ => None
  end.
End Sample.

Lemma import_writes_are_guarded_witness :
  exists i r tr2, Sample.healthy = firstn 9 Sample.healthy ++ ev (ECreate KImage i) r :: tr2 /\
    permitted (H := SimpleMeta.ops) Sample.digest Sample.decode Sample.cfg (firstn 9 Sample.healthy) (ECreate KImage i).
Proof.
  assert (Hrun : exists res, runs Sample.reconcile Sample.healthy res).
  { eexists. eapply (exec_runs (Sample.handler (Sample.import ImageImportStateIngesting None (Some 0)) inl) _ tt _ tt). vm_compute. reflexivity. }
  destruct Hrun as [res Hrun].
  assert (Hsplit : exists i r tr2, Sample.healthy = firstn 9 Sample.healthy ++ ev (ECreate KImage i) r :: tr2).
  { do 3 eexists. vm_compute. reflexivity. }
  destruct Hsplit as (i & r & tr2 & Hs). exists i, r, tr2. split; [exact Hs|].
  apply (import_writes_are_guarded (H := SimpleMeta.ops) Sample.digest Sample.decode 0 Sample.cfg (mkKey "ns" "noble") (firstn 9 Sample.healthy) (ECreate KImage i) r tr2 res).
  rewrite <- Hs. exact Hrun.
Defined.

Lemma scratch_covers_source_witness :
  let n := computeIngestScratchSizeBytes 0 gibiByte (Some (5 * gibiByte)) (scratch_factor Sample.cfg) in
  gibiByte <= n /\ 5 * gibiByte <= n <= Z.max gibiByte (3 * (5 * gibiByte) + 2 * gibiByte) /\ (n = gibiByte \/ n mod gibiByte = 0).
Proof. apply (scratch_covers_source 0 Sample.cfg gibiByte (5 * gibiByte)). done. Defined.

(** With the nbd path 5 GiB become 6. *)
Example five_become_six : computeIngestScratchSizeBytes 0 gibiByte (Some (5 * gibiByte)) (scratch_factor Sample.cfg) = 6 * gibiByte.
Proof. reflexivity. Qed.

Lemma finished_import_never_ingests_witness :
  exists tr res, runs (onChange (H := SimpleMeta.ops) Sample.digest Sample.decode 0 Sample.cfg (Sample.import ImageImportStateFailed None None)) tr res /\
    Forall (fun x => own_affairs (projT1 x)) tr.
Proof.
  set (imp := Sample.import ImageImportStateFailed None None).
  assert (Hrun : exists tr res, runs (onChange (H := SimpleMeta.ops) Sample.digest Sample.decode 0 Sample.cfg imp) tr res).
  { do 2 eexists. eapply (exec_runs (Sample.handler imp inl) _ tt _ tt). vm_compute. reflexivity. }
  destruct Hrun as (tr & res & Hrun). exists tr, res. split; [exact Hrun|].
  apply (finished_import_never_ingests (H := SimpleMeta.ops) Sample.digest Sample.decode 0 Sample.cfg imp tr res); [by left|exact Hrun].
Defined.

Lemma raced_content_is_accepted_witness :
  interp Sample.answers_of (ensureImportedContent (Sample.import "" None None) (content_name (Sample.import "" None None) (Sample.part 1 "")) (Sample.part 1 "")) = Some None.
Proof. by apply (raced_content_is_accepted Sample.answers_of (Sample.import "" None None) (Sample.part 1 "") Demo.not_found Sample.taken). Defined.

(** The race to its end: both contents belong to another, and the import creates
    the Image that binds them and records Succeeded. *)
Example raced_import_succeeds :
  let tr := Sample.trace_of (Sample.import ImageImportStateIngesting None None) (fun _ => inr Sample.taken) in
  omap (fun x => match x with
                 | existT (ECreate KImage i) _ => Some (map (fun r => nr_Name r) (omap is_ContentRef (lay_Slots (img_Layout (image_Spec i)))))
                 | existT (EStatusApply KImport o) _ => Some [imp_State (import_Status o)]
                 | _ => None
                 end) tr = [["noble-p1"; "noble-p3"]; [ImageImportStateSucceeded]].
Proof. vm_compute. reflexivity. Qed.

(** A time to live of zero deletes the import in the reconcile that succeeds, and
    with it, through the owner reference, the claim that the publish Jobs of the
    contents just created are to read: each of their pods mounts it. *)
Example zero_ttl_discards_scratch :
  let publish := mkPublishConfig "publish:1" "" "" [] 0 in
  omap (fun x => match x with
                 | existT (ECreate KContent c) _ =>
                   Some (pc_State (content_Status c) +:+ "/" +:+
                     concat "," (omap (fun v => match vol_Source v with ClaimVolume name true => Some name | _ => None end)
                       (ps_Volumes (pt_Spec (job_Template (buildPublishJob Sample.digest publish c "content"))))))
                 | existT (EDelete KImport key) _ => Some ("delete " +:+ key_Name key)
                 | _ => None
                 end) Sample.healthy = ["/image-ingest-scratch-noble"; "/image-ingest-scratch-noble"; "delete noble"] /\
  Name Sample.claim = "image-ingest-scratch-noble" /\ IsControlledBy Sample.claim (Sample.import "" None None) = true.
Proof. vm_compute. auto. Qed.
