(* ===== verification/Ingest.v ===== *)
(** * Ingest: the ingest and publish Jobs

    [src/internal/ingest]: [orchestrator.go], [source.go], [checksum.go],
    [diskspace.go], [sfdisk.go], [role.go] and [publish.go]: from a source image
    to a content directory per partition, and from there to the volume of a
    content.  The external tools, the staging volume and the file system are
    calls of the signature [tool]; the calls of [Store] are among them.

    Parameters: the decoding of an sfdisk dump, [json.Compact] and SHA-1. *)

From S2P Require Import Prelude Text Api Effects Cluster Store AgentExec SeedDemand Contents Imports.
Local Open Scope string_scope.
Local Open Scope list_scope.
Local Open Scope Z_scope.

(** ** Calls *)

Record QemuImgInfo := mkQemuImgInfo { qi_Format : string; qi_VirtualSizeBytes : Z }.
Record FSInfo := mkFSInfo { fi_FSType : string; fi_UUID : string }.

(** One visit of [filepath.WalkDir] below a root: the path relative to it, the
    kind of the entry, and the error the walk passes to its function. *)
Record visit := mkVisit { v_rel : string; v_IsDir : bool; v_IsRegular : bool; v_err : option GoErr }.

Inductive tool :=
| TFs (e : fs)
| TDownload (url destPath : string)
| TResolveUpload (name : string)
| TRemoveUpload (name : string)
| TOpen (path : string)
| TSha256 (path : string)
| TSeek (path : string) (offset : Z)
| TCreate (path : string)
| TCopyN (src dst : string) (size bytesPerSec : Z)
| TCopy (src dst : string)
| TClose (path : string)
| TRemove (path : string)
| TSize (path : string)
| TStatfs (path : string)
| TGeteuid
| TChown (dir : string) (uid gid : Z)
| TWalkDir (root : string)
| TInfo (path : string)
| TConvert (src srcFormat dst : string)
| TDump (diskPath : string)
| TDetect (path : string)
| TClone (fsType source targetDir : string)
| TAttach (image format : string)
| TDetach (dev : string)
| TPartitionDevice (dev : string) (num : Z)
| TLog (message : string).

(** [TSha256] reads an open file to its end and gives the digest in hexadecimal.
    [TWalkDir] gives the visits in order, as if the tree did not change while it
    is walked. *)
Definition tool_resp (e : tool) : Type :=
  match e with
  | TFs e => fs_resp e
  | TResolveUpload _ | TSha256 _ | TDump _ | TAttach _ _ | TPartitionDevice _ _ => (string + GoErr)%type
  | TSize _ | TStatfs _ => (Z + GoErr)%type
  | TInfo _ => (QemuImgInfo + GoErr)%type
  | TDetect _ => (FSInfo + GoErr)%type
  | TGeteuid => Z
  | TWalkDir _ => list visit
  | TDetach _ | TLog _ => unit
  | _ => option GoErr
  end.

Abbreviation job := (prog tool_resp).
Abbreviation tool_call := (call (R := tool_resp)).

(** A program of [Store] as part of a Job. *)
Fixpoint on_disk {A} (p : fsgo A) : job A :=
  match p with
  | Ret a => Ret a
  | Vis e k => Vis (R := tool_resp) (TFs e) (fun r => on_disk (k r))
  end.

(** ** Errors

    [let! x := p or w in q] goes on with the value of [p] or returns its error
    under [w]; [do! p or w in q] is the same for a call without a value. *)
Definition try {A B} (p : job (A + GoErr)) (w : GoErr -> GoErr) (f : A -> job (B + GoErr)) : job (B + GoErr) :=
  r <- p ;;
  match r with
  | inl a => f a
  | inr err => Ret (inr (w err))
  end.

Definition check {B} (p : job (option GoErr)) (w : GoErr -> GoErr) (f : job (B + GoErr)) : job (B + GoErr) :=
  r <- p ;;
  match r with
  | None => f
  | Some err => Ret (inr (w err))
  end.

Definition verbatim (err : GoErr) : GoErr := err.

Notation "'let!' x := p 'or' w 'in' q" := (try p w (fun x => q))
  (at level 10, x name, p at level 100, w at level 100, q at level 200, format "'[' 'let!'  x  :=  p  'or'  w  'in' '//' q ']'").
Notation "'do!' p 'or' w 'in' q" := (check p w q)
  (at level 10, p at level 100, w at level 100, q at level 200, format "'[' 'do!'  p  'or'  w  'in' '//' q ']'").

Definition pure_or {A} (r : A + GoErr) : job (A + GoErr) := Ret r.

(** ** The source *)

Record Config := mkConfig {
  cf_SourceURL : string; cf_SourceFormat : string; cf_SourceChecksum : string; cf_WorkDir : string;
  cf_IOBandwidthBytesPerSec : Z; cf_AttachMode : string }.

Definition usesAttach (cfg : Config) : bool := cf_AttachMode cfg <>s AttachModeCopy.

(** Which of the optional dependencies are set; the others are always. *)
Record Dependencies := mkDependencies { dep_Staging : bool; dep_StagedRemover : bool }.

Definition StagedNameFromURL (sourceURL : string) : string := TrimPrefix sourceURL (StagedURLScheme +:+ "://").

(** The path and whether it is a staged upload. *)
Definition ResolveSource (sourceURL : string) (staging : bool) (destPath : string) : job ((string * bool) + GoErr) :=
  if HasPrefix sourceURL "http://" || HasPrefix sourceURL "https://" then
    do! tool_call (TDownload sourceURL destPath) or wrapf "download source %s: %w" [sourceURL] in
    Ret (inl (destPath, false))
  else if HasPrefix sourceURL (StagedURLScheme +:+ "://") then
    if negb staging then
      Ret (inr (errorf "source %s requires a staging resolver, but none is configured: set STAGING_ROOT on the ingest Job" [sourceURL]))
    else
    let name := TrimPrefix sourceURL (StagedURLScheme +:+ "://") in
    let! p := tool_call (TResolveUpload name) or wrapf "resolve staged source %s: %w" [sourceURL] in
    Ret (inl (p, true))
  else Ret (inr (errorf "unsupported source URL scheme in %q: expected http://, https://, or %s://" [sourceURL; StagedURLScheme])).

Definition CleanupStagedSource (name : string) : job (option GoErr) :=
  r <- tool_call (TRemoveUpload name) ;;
  Ret match r with Some err => Some (wrapf "remove staged upload %s: %w" [name] err) | None => None end.

Definition ChecksumAlgorithm : string := "sha256".

Definition malformed_checksum (want : string) : GoErr :=
  errorf "checksum %q is not in %s form" [want; dquote +:+ "<algorithm>:<hex digest>" +:+ dquote].

Definition VerifyChecksum (path want : string) : job (option GoErr) :=
  if want =s "" then Ret None
  else
  match cut_at ":" want with
  | None => Ret (Some (malformed_checksum want))
  | Some (algorithm, digest) =>
    if (algorithm =s "") || (digest =s "") then Ret (Some (malformed_checksum want))
    else if negb (EqualFold algorithm ChecksumAlgorithm) then
      Ret (Some (errorf "unsupported checksum algorithm %q, only %q is supported" [algorithm; ChecksumAlgorithm]))
    else
    r <- tool_call (TOpen path) ;;
    match r with
    | Some err => Ret (Some (wrapf "open %s for checksum verification: %w" [path] err))
    | None =>
      r <- tool_call (TSha256 path) ;;
      tool_call (TClose path) ;;
      Ret match r with
          | inr err => Some (wrapf "read %s for checksum verification: %w" [path] err)
          | inl got => if negb (EqualFold got digest)
                       then Some (errorf "checksum mismatch for %s: computed sha256:%s, expected %s" [path; got; want]) else None
          end
    end
  end.

(** ** Partition tables *)

Definition defaultSectorSize : Z := 512.

Record sfdiskPartition := mkDumpPartition { sf_Node : string; sf_Start : Z; sf_Size : Z; sf_Type : string; sf_UUID : string }.
Record sfdiskPartitionTable := mkDumpTable {
  sf_Label : string; sf_ID : string; sf_SectorSize : Z; sf_Partitions : list sfdiskPartition }.

Record ParsedPartition := mkParsedPartition {
  pp_Number : Z; pp_StartBytes : Z; pp_SizeBytes : Z; pp_TypeGUID : string; pp_PartUUID : string }.
Record ParsedDisk := mkParsedDisk {
  pd_PartitionTable : string; pd_DiskGUID : string; pd_SectorSize : Z; pd_Partitions : list ParsedPartition }.

(** The digits before the position, from the end of the name. *)
Fixpoint digits_back (l : list ascii) (acc : list ascii) : list ascii :=
  match l with
  | [] => acc
  | c :: l => if is_digit c then digits_back l (c :: acc) else acc
  end.

Definition node_digits (node : string) : list ascii := digits_back (List.rev (list_ascii_of_string node)) [].

(** The number is accumulated in [int32]. *)
Definition partitionNumber (node : string) (listIndex : Z) : Z :=
  match node_digits node with
  | [] => int32 (listIndex + 1)
  | ds => fold_left (fun n c => int32 (int32 (n * 10) + (Z.of_nat (nat_of_ascii c) - 48))) ds 0
  end.

Definition parsed_partition (sectorSize i : Z) (p : sfdiskPartition) : ParsedPartition :=
  mkParsedPartition (partitionNumber (sf_Node p) i) (int64 (sf_Start p * sectorSize)) (int64 (sf_Size p * sectorSize))
    (ToLower (sf_Type p)) (sf_UUID p).

Fixpoint parsed_partitions (sectorSize i : Z) (ps : list sfdiskPartition) : list ParsedPartition :=
  match ps with
  | [] => []
  | p :: ps => parsed_partition sectorSize i p :: parsed_partitions sectorSize (i + 1) ps
  end.

Definition table_kind (label : string) : option string :=
  let l := ToLower label in
  if l =s PartitionTableGPT then Some PartitionTableGPT
  else if (l =s "dos") || (l =s "mbr") then Some PartitionTableMBR
  else None.

(** ** Roles *)

Definition espTypeGUIDGPT : string := "c12a7328-f81f-11d2-ba4b-00a0c93ec93b".
Definition espTypeMBR : string := "ef".
Definition msrTypeGUIDGPT : string := "e3c9e316-0b5c-4db8-817d-f92df00215ae".
Definition blkidSwapType : string := "swap".

Definition classifyRole (typeGUID fsType : string) : string :=
  let normalizedType := ToLower typeGUID in
  if (normalizedType =s espTypeGUIDGPT) || (normalizedType =s espTypeMBR) then PartitionRoleESP
  else if normalizedType =s msrTypeGUIDGPT then PartitionRoleMSR
  else if EqualFold fsType blkidSwapType then PartitionRoleSwap
  else PartitionRoleData.

(** ** Space and ownership *)

(** 64 MiB. *)
Definition scratchSpaceHeadroom : Z := 64 * 1024 * 1024.

Definition ensureScratchSpace (workDir : string) (partitionBytes : Z) : job (option GoErr) :=
  if partitionBytes <? 0 then Ret (Some (errorf "partition size %d is negative" [show_dec partitionBytes]))
  else
  r <- tool_call (TStatfs workDir) ;;
  Ret match r with
      | inr err => Some (wrapf "check ingest scratch space: %w" [] err)
      | inl available =>
        if available <? partitionBytes + scratchSpaceHeadroom
        then Some (errorf "insufficient ingest scratch space: partition needs up to %d bytes, %d bytes available on the work volume"
                     [show_dec partitionBytes; show_dec available])
        else None
      end.

Definition ContentOwnerGID : Z := 65532.

Definition fixContentOwnership (contentDir : string) : job (option GoErr) :=
  uid <- tool_call TGeteuid ;;
  if negb (uid =? 0) then Ret None
  else
  r <- tool_call (TChown contentDir ContentOwnerUID ContentOwnerGID) ;;
  Ret match r with Some err => Some (wrapf "fix content dir %s ownership: %w" [contentDir] err) | None => None end.

(** ** Partitions *)

Definition partition_path (workDir fmt : string) (number : Z) : string := Join [workDir; sprintf fmt [show_dec number]].

(** Sum of the lengths and largest end; ends are computed in [uint64]. *)
Definition extent_totals (extents : list Extent) : Z * Z :=
  fold_left (fun '(used, last) e =>
    let end_ := int64 ((Offset e + Length e) mod 2 ^ 64) in
    (int64 (used + int64 (Length e)), if last <? end_ then end_ else last)) extents (0, 0).

Definition finalizeContent (contentDir : string) : job ((Z * Z) + GoErr) :=
  let! torrentInfo := on_disk (LoadContentDirTorrentInfo contentDir) or verbatim in
  do! on_disk (NestExtentFiles contentDir torrentInfo) or verbatim in
  do! on_disk (ValidateContentDir contentDir torrentInfo) or verbatim in
  Ret (inl (extent_totals (Extents torrentInfo))).

Definition finishPartition (cfg : Config) (source : string) (part : ParsedPartition) : job (ResultPartition + GoErr) :=
  let! fsInfo := tool_call (TDetect source) or wrapf "detect file system: %w" [] in
  let role := classifyRole (pp_TypeGUID part) (fi_FSType fsInfo) in
  let result fsType used last piece uuid :=
    mkResultPartition (pp_Number part) role fsType used (pp_SizeBytes part) last piece uuid (pp_TypeGUID part) (pp_PartUUID part) in
  if role =s PartitionRoleSwap then Ret (inl (result "" 0 0 0 (fi_UUID fsInfo)))
  else
  do! ensureScratchSpace (cf_WorkDir cfg) (pp_SizeBytes part) or wrapf "check ingest scratch space: %w" [] in
  let contentDir := partition_path (cf_WorkDir cfg) "content-%d" (pp_Number part) in
  do! tool_call (TFs (FMkdirAll contentDir)) or wrapf "create content scratch dir: %w" [] in
  do! tool_call (TClone (fi_FSType fsInfo) source contentDir) or wrapf "clone partition content: %w" [] in
  let! totals := finalizeContent contentDir or wrapf "finalize partition content: %w" [] in
  do! fixContentOwnership contentDir or verbatim in
  Ret (inl (result (fi_FSType fsInfo) (fst totals) (snd totals) PieceSize "")).

(** The deferred closes run in reverse order; an error of the copy wins over the
    one of closing the new file. *)
Definition extractPartition (src : string) (start size : Z) (dst : string) (bytesPerSec : Z) : job (option GoErr) :=
  r <- tool_call (TOpen src) ;;
  match r with
  | Some err => Ret (Some (wrapf "open %s: %w" [src] err))
  | None =>
    r <- tool_call (TSeek src start) ;;
    match r with
    | Some err => tool_call (TClose src) ;; Ret (Some (wrapf "seek %s to %d: %w" [src; show_dec start] err))
    | None =>
      r <- tool_call (TCreate dst) ;;
      match r with
      | Some err => tool_call (TClose src) ;; Ret (Some (wrapf "create %s: %w" [dst] err))
      | None =>
        r <- tool_call (TCopyN src dst size bytesPerSec) ;;
        cerr <- tool_call (TClose dst) ;;
        tool_call (TClose src) ;;
        Ret match r with
            | Some err => Some (wrapf "copy %d bytes from %s at %d: %w" [show_dec size; src; show_dec start] err)
            | None => cerr
            end
      end
    end
  end.

Definition processPartition (cfg : Config) (rawPath : string) (part : ParsedPartition) : job (ResultPartition + GoErr) :=
  let slicePath := partition_path (cf_WorkDir cfg) "part-%d.raw" (pp_Number part) in
  do! extractPartition rawPath (pp_StartBytes part) (pp_SizeBytes part) slicePath (cf_IOBandwidthBytesPerSec cfg)
    or wrapf "extract partition slice: %w" [] in
  r <- finishPartition cfg slicePath part ;;
  tool_call (TRemove slicePath) ;;
  Ret r.

Definition processPartitionDevice (cfg : Config) (partDev : string) (part : ParsedPartition) : job (ResultPartition + GoErr) :=
  finishPartition cfg partDev part.

(** The loop over the partitions of both pipelines, with what each does with one. *)
Fixpoint each_partition (process : ParsedPartition -> job (ResultPartition + GoErr)) (parts : list ParsedPartition) (done : list ResultPartition)
  : job (list ResultPartition + GoErr) :=
  match parts with
  | [] => Ret (inl done)
  | part :: parts =>
    let! r := process part or wrapf "partition %d: %w" [show_dec (pp_Number part)] in
    each_partition process parts (done ++ [r])
  end.

Definition attached_partition (cfg : Config) (dev : string) (part : ParsedPartition) : job (ResultPartition + GoErr) :=
  let! partDev := tool_call (TPartitionDevice dev (pp_Number part)) or verbatim in
  processPartitionDevice cfg partDev part.

(** ** The two pipelines *)

(** [os.Remove] where a file that is gone already is no error. *)
Definition remove_file (path : string) : job (option GoErr) :=
  r <- tool_call (TRemove path) ;;
  Ret match r with Some err => if IsNotFound err then None else Some err | None => None end.

(** Removing the upload is best effort. *)
Definition drop_upload (cfg : Config) (deps : Dependencies) (staged : bool) : job unit :=
  if staged && dep_StagedRemover deps then
    r <- CleanupStagedSource (StagedNameFromURL (cf_SourceURL cfg)) ;;
    match r with
    | Some err => tool_call (TLog (sprintf "kezio-ingest: %v" [emsg err]))
    | None => Ret tt
    end
  else Ret tt.

Section Pipelines.
Context (UnmarshalDump : string -> sfdiskPartitionTable + GoErr) (compact : string -> string + GoErr) (sha1 : string -> InfoHash).

Definition ParseSfdiskJSON (data : string) : ParsedDisk + GoErr :=
  match UnmarshalDump data with
  | inr err => inr (wrapf "parse sfdisk JSON: %w" [] err)
  | inl table =>
    match table_kind (sf_Label table) with
    | None => inr (errorf "unsupported partition table label %q" [sf_Label table])
    | Some partitionTable =>
      let sectorSize := if sf_SectorSize table =? 0 then defaultSectorSize else sf_SectorSize table in
      inl (mkParsedDisk partitionTable (if partitionTable =s PartitionTableGPT then sf_ID table else "") sectorSize
             (parsed_partitions sectorSize 0 (sf_Partitions table)))
    end
  end.

Definition compactJSON (data : string) : string + GoErr := compact data.

Definition ensureRawDisk (cfg : Config) (sourcePath sourceFormat : string) (staged : bool) : job (string + GoErr) :=
  if EqualFold sourceFormat "raw" then Ret (inl sourcePath)
  else
  let rawPath := Join [cf_WorkDir cfg; "disk.raw"] in
  do! tool_call (TConvert sourcePath sourceFormat rawPath) or wrapf "convert source image to raw: %w" [] in
  if staged then Ret (inl rawPath)
  else
  do! remove_file sourcePath or wrapf "remove converted source %s: %w" [sourcePath] in
  Ret (inl rawPath).

Definition fileSize (path : string) : job (Z + GoErr) := tool_call (TSize path).

(** What is read while the source is attached: the dump, its table and the partitions. *)
Definition read_attached (cfg : Config) (dev : string) : job ((string * ParsedDisk * list ResultPartition) + GoErr) :=
  let! sfdiskJSON := tool_call (TDump dev) or wrapf "dump partition table: %w" [] in
  let! parsed := pure_or (ParseSfdiskJSON sfdiskJSON) or wrapf "parse partition table: %w" [] in
  let! partitions := each_partition (attached_partition cfg dev) (pd_Partitions parsed) [] or verbatim in
  Ret (inl (sfdiskJSON, parsed, partitions)).

(** The device is detached once, on every path: after the last partition, or when
    the function returns an error from before that. *)
Definition runAttached (cfg : Config) (deps : Dependencies) (sourcePath : string) (info : QemuImgInfo) (staged : bool) : job (ResultDisk + GoErr) :=
  let! dev := tool_call (TAttach sourcePath (qi_Format info)) or wrapf "attach source via nbd: %w" [] in
  r <- read_attached cfg dev ;;
  tool_call (TDetach dev) ;;
  let! all := pure_or r or verbatim in
  let '(sfdiskJSON, parsed, partitions) := all : string * ParsedDisk * list ResultPartition in
  do! (if staged then Ret None else remove_file sourcePath) or wrapf "remove %s: %w" [sourcePath] in
  drop_upload cfg deps staged ;;
  let! compactSfdisk := pure_or (compactJSON sfdiskJSON) or wrapf "compact partition table dump: %w" [] in
  Ret (inl (mkResultDisk (qi_VirtualSizeBytes info) (pd_PartitionTable parsed) compactSfdisk partitions)).

Definition run_copied (cfg : Config) (deps : Dependencies) (sourcePath : string) (info : QemuImgInfo) (staged : bool) : job (ResultDisk + GoErr) :=
  let! rawPath := ensureRawDisk cfg sourcePath (qi_Format info) staged or verbatim in
  let! diskSize := fileSize rawPath or wrapf "stat converted raw disk: %w" [] in
  let! sfdiskJSON := tool_call (TDump rawPath) or wrapf "dump partition table: %w" [] in
  let! parsed := pure_or (ParseSfdiskJSON sfdiskJSON) or wrapf "parse partition table: %w" [] in
  let! partitions := each_partition (processPartition cfg rawPath) (pd_Partitions parsed) [] or verbatim in
  do! (if negb staged || (rawPath <>s sourcePath) then remove_file rawPath else Ret None) or wrapf "remove %s: %w" [rawPath] in
  drop_upload cfg deps staged ;;
  let! compactSfdisk := pure_or (compactJSON sfdiskJSON) or wrapf "compact partition table dump: %w" [] in
  Ret (inl (mkResultDisk diskSize (pd_PartitionTable parsed) compactSfdisk partitions)).

Definition run (cfg : Config) (deps : Dependencies) : job (ResultDisk + GoErr) :=
  let! source := ResolveSource (cf_SourceURL cfg) (dep_Staging deps) (Join [cf_WorkDir cfg; "source.img"]) or verbatim in
  let '(sourcePath, staged) := source : string * bool in
  do! VerifyChecksum sourcePath (cf_SourceChecksum cfg) or verbatim in
  let! info := tool_call (TInfo sourcePath) or wrapf "inspect source image: %w" [] in
  if negb (EqualFold (qi_Format info) (cf_SourceFormat cfg)) then
    Ret (inr (errorf "source format mismatch: qemu-img reports %q, Image declares %q" [qi_Format info; cf_SourceFormat cfg]))
  else if usesAttach cfg then runAttached cfg deps sourcePath info staged
  else run_copied cfg deps sourcePath info staged.

Definition FailureResult (err : GoErr) : IngestResult := mkIngestResult false (emsg err) None None.

Definition Run (cfg : Config) (deps : Dependencies) : job IngestResult :=
  r <- run cfg deps ;;
  Ret match r with
      | inr err => FailureResult err
      | inl disk => mkIngestResult true "" (Some disk) None
      end.

(** ** Publishing *)

Record PublishPartition := mkPublishPartition { pub_Number : Z; pub_SourceDir : string; pub_DestDir : string }.

Definition copyFile (src dst : string) : job (option GoErr) :=
  r <- tool_call (TFs (FMkdirAll (Dir dst))) ;;
  match r with
  | Some err => Ret (Some (wrapf "create parent dir for %s: %w" [dst] err))
  | None =>
    r <- tool_call (TOpen src) ;;
    match r with
    | Some err => Ret (Some (wrapf "open %s: %w" [src] err))
    | None =>
      r <- tool_call (TCreate dst) ;;
      match r with
      | Some err => tool_call (TClose src) ;; Ret (Some (wrapf "create %s: %w" [dst] err))
      | None =>
        r <- tool_call (TCopy src dst) ;;
        cerr <- tool_call (TClose dst) ;;
        tool_call (TClose src) ;;
        Ret match r with Some err => Some (wrapf "copy %s to %s: %w" [src; dst] err) | None => cerr end
      end
    end
  end.

Fixpoint copy_visits (src dst : string) (visits : list visit) : job (option GoErr) :=
  match visits with
  | [] => Ret None
  | v :: visits =>
    match v_err v with
    | Some err => Ret (Some err)
    | None =>
      let path := Join [src; v_rel v] in
      let target := Join [dst; v_rel v] in
      r <- (if v_IsDir v then tool_call (TFs (FMkdirAll target))
            else if negb (v_IsRegular v) then Ret (Some (errorf "unexpected non-regular file %s" [path]))
            else copyFile path target) ;;
      match r with
      | Some err => Ret (Some err)
      | None => copy_visits src dst visits
      end
    end
  end.

Definition copyDir (src dst : string) : job (option GoErr) :=
  visits <- tool_call (TWalkDir src) ;;
  copy_visits src dst visits.

Definition publishPartition (p : PublishPartition) : job (string + GoErr) :=
  let! info := on_disk (LoadContentDirTorrentInfo (pub_SourceDir p)) or wrapf "load source torrent.info: %w" [] in
  do! copyDir (pub_SourceDir p) (pub_DestDir p) or wrapf "copy content: %w" [] in
  do! on_disk (ValidateContentDir (pub_DestDir p) info) or wrapf "validate published content: %w" [] in
  let! published := on_disk (LoadContentDirTorrentInfo (pub_DestDir p)) or wrapf "load published torrent.info: %w" [] in
  let! hash := pure_or (ComputeInfoHash sha1 published) or wrapf "compute published info hash: %w" [] in
  Ret (inl (InfoHash_String hash)).

Fixpoint runPublish (partitions : list PublishPartition) (hash : string) : job (string + GoErr) :=
  match partitions with
  | [] => Ret (inl hash)
  | p :: partitions =>
    let! h := publishPartition p or wrapf "partition %d: %w" [show_dec (pub_Number p)] in
    runPublish partitions h
  end.

Definition RunPublish (partitions : list PublishPartition) : job IngestResult :=
  r <- runPublish partitions "" ;;
  Ret match r with
      | inr err => FailureResult err
      | inl hash => mkIngestResult true "" None (Some (mkResultPublish hash))
      end.

End Pipelines.
