(* ===== verification/IngestSafety.v ===== *)
(** * IngestSafety: what an ingest Job does to its source

    What an ingest may call after a history of calls and answers, for every run
    of [Ingest.Run]: nothing looks into a source before its checksum, if one is
    given, is verified, partitions are read only off the attached device or off
    slices of the raw disk, and a staged upload is removed only when everything it
    holds is stored.  What a success means; that
    no device stays attached; that the partitions of the Image an import makes are
    the ones the agent's sfdisk script makes; and what publishing checks. *)

From S2P Require Import Prelude Text Api Effects Workloads Cluster Store AgentExec SeedDemand Contents Imports ImportSafety Ingest.
Local Open Scope string_scope.
Local Open Scope list_scope.
Local Open Scope Z_scope.

(** ** Histories of a Job *)

Abbreviation jobtrace := (trace tool_resp).

(** The device that is attached after a history. *)
Definition device_step (d : option string) (x : event tool_resp) : option string :=
  match x with
  | existT (TAttach _ _) r => match r with inl dev => Some dev | inr _ => d end
  | existT (TDetach _) _ => None
  | _ => d
  end.
Definition device (h : jobtrace) : option string := fold_left device_step h None.

Lemma device_snoc h x : device (h ++ [x]) = device_step (device h) x.
Proof. unfold device. by rewrite fold_left_app. Qed.

(** A history that goes on without the device changing. *)
Definition on (h h' : jobtrace) : Prop := grows h h' /\ device h' = device h.

Lemma on_refl h : on h h.
Proof. split; [apply grows_refl|done]. Qed.
Lemma on_trans h1 h2 h3 : on h1 h2 -> on h2 h3 -> on h1 h3.
Proof. intros [? ?] [? ?]. split; [by eapply grows_trans|congruence]. Qed.
Lemma on_step h e (r : tool_resp e) : match e with TAttach _ _ | TDetach _ => False | _ => True end -> on h (h ++ [ev e r]).
Proof. intros He. split; [apply grows_app|]. rewrite device_snoc. by destruct e. Qed.

(** A run of a program lies in the history. *)
Definition within {A} (h : jobtrace) (p : job A) (a : A) : Prop := exists h1 t h2, h = h1 ++ t ++ h2 /\ runs p t a.

Lemma within_grows {A} h h' (p : job A) a : grows h h' -> within h p a -> within h' p a.
Proof. intros [u ->] (h1 & t & h2 & -> & Hr). exists h1, t, (h2 ++ u). by rewrite <- !(assoc_L (++)). Qed.

#[local] Hint Resolve on_refl on_step grows_refl grows_more grows_in grows_last grows_app within_grows : core.

Section Guard.
Context (UnmarshalDump : string -> sfdiskPartitionTable + GoErr) (compact : string -> string + GoErr).
Context (cfg : Config) (deps : Dependencies).

(** The checksum of the file is the one asked for, if one was. *)
Definition verified (h : jobtrace) (path : string) : Prop :=
  cf_SourceChecksum cfg = "" \/
  exists algorithm digest got, cut_at ":" (cf_SourceChecksum cfg) = Some (algorithm, digest) /\ EqualFold algorithm ChecksumAlgorithm = true /\
    ev (R := tool_resp) (TSha256 path) (inl got) ∈ h /\ EqualFold got digest = true.

(** ... and qemu-img found it in the declared format. *)
Definition inspected (h : jobtrace) (path format : string) : Prop :=
  verified h path /\ exists info, ev (R := tool_resp) (TInfo path) (inl info) ∈ h /\ format = qi_Format info /\
    EqualFold format (cf_SourceFormat cfg) = true.

(** A partition was captured as this result. *)
Definition captured_as (h : jobtrace) (part : ParsedPartition) (rp : ResultPartition) : Prop :=
  rp_Number rp = pp_Number part /\ rp_SizeBytes rp = pp_SizeBytes part /\ rp_TypeGUID rp = pp_TypeGUID part /\
  rp_PartUUID rp = pp_PartUUID part /\
  exists source fsInfo, ev (R := tool_resp) (TDetect source) (inl fsInfo) ∈ h /\ rp_Role rp = classifyRole (pp_TypeGUID part) (fi_FSType fsInfo) /\
    if rp_Role rp =s PartitionRoleSwap
    then rp_FSType rp = "" /\ rp_UUID rp = fi_UUID fsInfo /\ rp_UsedBytes rp = 0 /\ rp_LastExtentEnd rp = 0 /\ rp_PieceLength rp = 0
    else rp_FSType rp = fi_FSType fsInfo /\ rp_UUID rp = "" /\ rp_PieceLength rp = PieceSize /\
      let dir := partition_path (cf_WorkDir cfg) "content-%d" (pp_Number part) in
      exists data info, ev (R := tool_resp) (TClone (fi_FSType fsInfo) source dir) None ∈ h /\
        ev (R := tool_resp) (TFs (FReadFile (ContentDirTorrentInfoPath dir))) (inl data) ∈ h /\ ParseTorrentInfo data = inl info /\
        within h (on_disk (NestExtentFiles dir info)) None /\ within h (on_disk (ValidateContentDir dir info)) None /\
        within h (fixContentOwnership dir) None /\
        (rp_UsedBytes rp, rp_LastExtentEnd rp) = extent_totals (Extents info).

(** Everything a dump of the source lists is captured. *)
Definition all_captured (h : jobtrace) (json : string) (parsed : ParsedDisk) (parts : list ResultPartition) : Prop :=
  (exists path, ev (R := tool_resp) (TDump path) (inl json) ∈ h) /\ ParseSfdiskJSON UnmarshalDump json = inl parsed /\
  Forall2 (captured_as h) (pd_Partitions parsed) parts.

Definition stored (h : jobtrace) : Prop := device h = None /\ exists json parsed parts, all_captured h json parsed parts.

(** The raw disk of the copying pipeline: the inspected source itself, or what
    qemu-img converted an inspected source to. *)
Definition raw_disk (h : jobtrace) (raw : string) : Prop :=
  (exists format, inspected h raw format /\ EqualFold format "raw" = true) \/
  (exists src format, inspected h src format /\ ev (R := tool_resp) (TConvert src format raw) None ∈ h).

(** A path partitions are read from: a device of the attached disk, or, in the
    copying pipeline, a slice that was copied out of the raw disk. *)
Definition readable (h : jobtrace) (source : string) : Prop :=
  if usesAttach cfg then exists dev num, device h = Some dev /\ ev (R := tool_resp) (TPartitionDevice dev num) (inl source) ∈ h
  else exists number raw start size rate, source = partition_path (cf_WorkDir cfg) "part-%d.raw" number /\
    raw_disk h raw /\ within h (extractPartition raw start size source rate) None.

Definition permitted (h : jobtrace) (e : tool) : Prop :=
  match e with
  | TInfo path => verified h path
  | TConvert src format _ => inspected h src format /\ usesAttach cfg = false
  | TAttach image format => inspected h image format /\ device h = None
  | TDetach dev | TPartitionDevice dev _ => device h = Some dev
  | TDump path => if usesAttach cfg then device h = Some path else raw_disk h path
  | TDetect source => readable h source
  | TClone fsType source dir => readable h source /\ (exists number, dir = partition_path (cf_WorkDir cfg) "content-%d" number) /\
      (exists fsInfo, ev (R := tool_resp) (TDetect source) (inl fsInfo) ∈ h /\ fsType = fi_FSType fsInfo) /\
      (exists available size, ev (R := tool_resp) (TStatfs (cf_WorkDir cfg)) (inl available) ∈ h /\ 0 <= size /\ size + scratchSpaceHeadroom <= available)
  | TRemoveUpload name => name = StagedNameFromURL (cf_SourceURL cfg) /\ stored h
  | TRemove path =>
      stored h \/ usesAttach cfg = false /\
        ((exists number, path = partition_path (cf_WorkDir cfg) "part-%d.raw" number) \/
         (exists format dst, ev (R := tool_resp) (TConvert path format dst) None ∈ h))
  | TChown dir uid gid => uid = ContentOwnerUID /\ gid = ContentOwnerGID /\ exists info, within h (on_disk (ValidateContentDir dir info)) None
  | _ => True
  end.

Definition guard : monitor tool_resp jobtrace := history permitted (fun _ _ => True).

(** ** Growth *)

Lemma verified_grows h h' path : grows h h' -> verified h path -> verified h' path.
Proof. intros Hg [?|(a & d & g & ? & ? & Hi & ?)]; [by left|]. right. exists a, d, g. split_and!; eauto. Qed.
#[local] Hint Resolve verified_grows : core.
Lemma inspected_grows h h' path format : grows h h' -> inspected h path format -> inspected h' path format.
Proof. intros Hg (Hv & info & Hi & ? & ?). split; [eauto|]. exists info. split_and!; eauto. Qed.
Lemma raw_grows h h' raw : grows h h' -> raw_disk h raw -> raw_disk h' raw.
Proof.
  intros Hg [(f & Hi & He)|(src & f & Hi & Hc)]; [left; exists f|right; exists src, f];
    (split; [by eapply inspected_grows|]); [done|eauto].
Qed.
#[local] Hint Resolve raw_grows : core.
Lemma readable_on h h' source : on h h' -> readable h source -> readable h' source.
Proof.
  unfold readable. intros [Hg Hd]. rewrite Hd. destruct (usesAttach cfg); [intros (dev & num & ? & ?); eauto|].
  intros (n & raw & start & size & rate & -> & Hraw & Hw). exists n, raw, start, size, rate. split_and!; eauto.
Qed.
Lemma captured_grows' h h' part rp : grows h h' -> captured_as h part rp -> captured_as h' part rp.
Proof.
  intros Hg (? & ? & ? & ? & source & fsInfo & Hd & Hr & Hb). do 4 (split; [done|]). exists source, fsInfo. split; [eauto|]. split; [done|].
  destruct (rp_Role rp =s PartitionRoleSwap); [done|]. destruct Hb as (? & ? & ? & data & info & ? & ? & ? & ? & ? & ? & ?).
  do 3 (split; [done|]). exists data, info. split_and!; eauto.
Qed.
#[local] Hint Resolve inspected_grows readable_on captured_grows' : core.

(** ** Rules *)

Lemma wp_try {S A B} (M : monitor tool_resp S) (p : job (A + GoErr)) w (f : A -> job (B + GoErr)) s Q :
  wp M p s (fun r s' => match r with inl a => wp M (f a) s' Q | inr err => Q (inr (w err)) s' end) -> wp M (try p w f) s Q.
Proof. intros Hp. eapply wp_seq; [exact Hp|]. by intros []. Qed.

Lemma wp_check {S B} (M : monitor tool_resp S) (p : job (option GoErr)) w (f : job (B + GoErr)) s Q :
  wp M p s (fun r s' => match r with None => wp M f s' Q | Some err => Q (inr (w err)) s' end) -> wp M (check p w f) s Q.
Proof. intros Hp. eapply wp_seq; [exact Hp|]. by intros []. Qed.

Lemma wp_call {S} (M : monitor tool_resp S) e s (Q : tool_resp e -> S -> Prop) :
  allowed M s e -> (forall r, Q r (step M s e r)) -> wp M (tool_call e) s Q.
Proof. intros Ha Hq. split; [done|]. intros r _. apply Hq. Qed.

(** A part of a program that leaves the device alone, and what its run is. *)
Definition part_of {A} (p : job A) (h : jobtrace) (a : A) (h' : jobtrace) : Prop := on h h' /\ exists t, h' = h ++ t /\ runs p t a.

Lemma disk_part {A} (p : fsgo A) h : wp guard (on_disk p) h (part_of (on_disk p) h).
Proof.
  revert h. induction p as [a|e k IH]; intros h; cbn [on_disk wp].
  - split; [done|]. exists []. by rewrite app_nil_r.
  - split; [done|]. intros r _. cbn [guard history step]. eapply wp_mono; [apply IH|]. intros a h' [Ho (t & -> & Hr)]. split.
    + eapply on_trans; [|exact Ho]. by apply on_step.
    + exists (ev (TFs e) r :: t). split; [by rewrite <- app_assoc|]. exists r, t. done.
Qed.

Lemma part_within {A} (p : job A) h a h' : part_of p h a h' -> within h' p a.
Proof. intros [_ (t & -> & Hr)]. exists h, t, []. by rewrite app_nil_r. Qed.

Lemma load_reads dir t info : runs (on_disk (LoadContentDirTorrentInfo dir)) t (inl info) ->
  exists data, ev (R := tool_resp) (TFs (FReadFile (ContentDirTorrentInfoPath dir))) (inl data) ∈ t /\ ParseTorrentInfo data = inl info.
Proof.
  intros (r & t' & -> & Hr). cbn in Hr. destruct r as [data|err]; [|by destruct Hr]. destruct (ParseTorrentInfo data) eqn:Hp; [|by destruct Hr].
  destruct Hr as [-> [= <-]]. exists data. split; [left|done].
Qed.

Lemma space_guarded dir size h : wp guard (ensureScratchSpace dir size) h (fun r h' => on h h' /\
  (r = None -> exists available, ev (R := tool_resp) (TStatfs dir) (inl available) ∈ h' /\ 0 <= size /\ size + scratchSpaceHeadroom <= available)).
Proof.
  unfold ensureScratchSpace. destruct (Z.ltb_spec size 0); [by split|]. apply wp_bind, wp_call; [done|]. intros [available|err]; cbn.
  - split; [by apply on_step|]. destruct (Z.ltb_spec available (size + scratchSpaceHeadroom)); [done|]. intros _. exists available. auto.
  - split; [by apply on_step|done].
Qed.

Lemma owner_guarded dir info h : within h (on_disk (ValidateContentDir dir info)) None ->
  wp guard (fixContentOwnership dir) h (part_of (fixContentOwnership dir) h).
Proof.
  intros Hv. unfold fixContentOwnership. apply wp_bind, wp_call; [done|]. intros uid. cbn [guard history step].
  assert (Ho : on h (h ++ [ev TGeteuid uid])) by (by apply on_step). cbn in uid. destruct (negb (uid =? 0)) eqn:Hu.
  - split; [done|]. eexists. split; [done|]. exists uid, []. cbn [bind]. by rewrite Hu.
  - apply wp_bind, wp_call; [|intros r; cbn [guard history step]].
    { split_and!; [done..|]. exists info. eauto. }
    split; [eapply on_trans; [exact Ho|by apply on_step]|]. eexists. split; [by rewrite <- app_assoc|].
    exists uid, [ev (TChown dir ContentOwnerUID ContentOwnerGID) r]. cbn [bind]. rewrite Hu. split; [done|]. by exists r, [].
Qed.

(** Finalizing: the content was loaded, nested and validated. *)
Lemma finalize_guarded dir h : wp guard (finalizeContent dir) h (fun r h' => on h h' /\ forall totals, r = inl totals ->
  exists data info, ev (R := tool_resp) (TFs (FReadFile (ContentDirTorrentInfoPath dir))) (inl data) ∈ h' /\ ParseTorrentInfo data = inl info /\
    within h' (on_disk (NestExtentFiles dir info)) None /\ within h' (on_disk (ValidateContentDir dir info)) None /\
    totals = extent_totals (Extents info)).
Proof.
  unfold finalizeContent. apply wp_try. eapply wp_mono; [apply disk_part|]. intros [info|err] h1 [Ho1 (t & -> & Hr)]; [|by split].
  apply load_reads in Hr as (data & Hin & Hp).
  apply wp_check. eapply wp_mono; [apply disk_part|]. intros [err|] h2 P2; [destruct P2; split; [by eapply on_trans|done]|].
  pose proof (part_within _ _ _ _ P2) as W2. destruct P2 as [Ho2 _].
  apply wp_check. eapply wp_mono; [apply disk_part|]. intros [err|] h3 P3; (assert (Ho : on h h3) by (destruct P3; eauto using on_trans)); [by split|].
  split; [done|]. intros ? [= <-]. exists data, info. pose proof (part_within _ _ _ _ P3) as W3. destruct P3 as [[Hg3 _] _], Ho2 as [Hg2 _].
  assert (grows (h ++ t) h3) by (by eapply grows_trans). split_and!; eauto. eapply grows_in; [done|]. apply elem_of_app. by right.
Qed.

Lemma partition_finished source part h : readable h source ->
  wp guard (finishPartition cfg source part) h (fun r h' => on h h' /\ forall rp, r = inl rp -> captured_as h' part rp).
Proof.
  intros Hread. unfold finishPartition. apply wp_try, wp_call; [done|]. intros [fsInfo|err]; cbn [guard history step]; [|split; [by apply on_step|done]].
  set (h1 := h ++ _). assert (H1 : on h h1) by (by apply on_step).
  assert (Hd : ev (R := tool_resp) (TDetect source) (inl fsInfo) ∈ h1) by apply grows_last. cbv zeta.
  destruct (classifyRole (pp_TypeGUID part) (fi_FSType fsInfo) =s PartitionRoleSwap) eqn:Hswap.
  { split; [done|]. intros rp [= <-]. unfold captured_as. cbn. split_and!; try done. exists source, fsInfo. split_and!; try done. by rewrite Hswap. }
  apply wp_check. eapply wp_mono; [apply space_guarded|]. intros [err|] h2 [H2 Hsp]; [split; [by eapply on_trans|done]|].
  destruct (Hsp eq_refl) as (available & Hst & Hsize). assert (H12 : on h h2) by (by eapply on_trans).
  set (dir := partition_path (cf_WorkDir cfg) "content-%d" (pp_Number part)).
  apply wp_check, wp_call; [done|]. intros [err|]; cbn [guard history step]; [split; [eapply on_trans; [exact H12|by apply on_step]|done]|].
  set (h3 := h2 ++ _). assert (H23 : on h2 h3) by (by apply on_step). assert (H13 : on h h3) by (by eapply on_trans).
  apply wp_check, wp_call.
  { split_and!; [eauto|by eexists|exists fsInfo; split; [|done]|exists available, (pp_SizeBytes part); split; [|done]].
    - destruct H2 as [G2 _], H23 as [G3 _]. eauto.
    - destruct H23 as [G3 _]. eauto. }
  intros [err|]; cbn [guard history step]; [split; [eapply on_trans; [exact H13|by apply on_step]|done]|].
  set (h4 := h3 ++ _). assert (H34 : on h3 h4) by (by apply on_step). assert (H14 : on h h4) by (by eapply on_trans).
  apply wp_try. eapply wp_mono; [apply finalize_guarded|]. intros [totals|err] h5 [H5 Hfin]; [|split; [by eapply on_trans|done]].
  destruct (Hfin totals eq_refl) as (data & info & Hrd & Hp & Hnest & Hval & ->). assert (H15 : on h h5) by (by eapply on_trans).
  apply wp_check. eapply wp_mono; [by eapply owner_guarded|]. intros [err|] h6 P6; (assert (H16 : on h h6) by (destruct P6; by eapply on_trans)); [by split|].
  split; [done|]. intros rp [= <-]. pose proof (part_within _ _ _ _ P6) as W6. destruct P6 as [[G6 _] _].
  assert (G45 : grows h4 h5) by apply H5. assert (G46 : grows h4 h6) by (by eapply grows_trans).
  assert (G16 : grows h1 h6) by (destruct H2 as [? _], H23 as [? _], H34 as [? _]; eauto 6 using grows_trans).
  unfold captured_as. cbn [rp_Number rp_SizeBytes rp_TypeGUID rp_PartUUID rp_Role]. do 4 (split; [done|]). exists source, fsInfo.
  split; [eauto|]. split; [done|]. rewrite Hswap. do 3 (split; [done|]). exists data, info. split_and!; eauto.
  - eapply grows_in; [exact G46|]. apply grows_last.
  - cbn. by destruct (extent_totals (Extents info)).
Qed.

(** Slicing a partition out of the raw disk. *)
Definition quiet (e : tool) : Prop :=
  match e with TOpen _ | TSeek _ _ | TCreate _ | TCopyN _ _ _ _ | TClose _ | TSha256 _ => True | _ => False end.

Lemma quiet_part {A} (p : job A) h : calls quiet p -> wp guard p h (part_of p h).
Proof.
  revert h. induction p as [a|e k IH]; intros h Hc.
  - split; [exact (on_refl h)|]. exists []. by rewrite app_nil_r.
  - destruct Hc as [He Hk]. split; [by destruct e|]. intros r _. cbn [guard history step].
    eapply wp_mono; [apply IH; exact (Hk r I)|]. intros a h' [Ho (t & -> & Hr)]. split.
    + eapply on_trans; [|exact Ho]. apply on_step. by destruct e.
    + exists (ev e r :: t). split; [by rewrite <- app_assoc|]. by exists r, t.
Qed.

Lemma extract_quiet src start size dst rate : calls quiet (extractPartition src start size dst rate).
Proof.
  unfold extractPartition. apply calls_bind; [done|]. intros [|]; [done|]. apply calls_bind; [done|].
  intros [|]; [by apply calls_bind|]. apply calls_bind; [done|]. intros [|]; [by apply calls_bind|].
  apply calls_bind; [done|]. intros r. apply calls_bind; [done|]. intros cerr. by apply calls_bind.
Qed.

(** Both ways of processing a partition. *)
Definition processes (process : ParsedPartition -> job (ResultPartition + GoErr)) (h : jobtrace) : Prop :=
  forall part h1, on h h1 -> wp guard (process part) h1 (fun r h2 => on h1 h2 /\ forall rp, r = inl rp -> captured_as h2 part rp).

Lemma slice_processed rawPath h : usesAttach cfg = false -> raw_disk h rawPath -> processes (processPartition cfg rawPath) h.
Proof.
  intros Hc Hraw part h1 [G1 _]. unfold processPartition. apply wp_check. eapply wp_mono; [apply quiet_part, extract_quiet|].
  intros [err|] h2 P2; [destruct P2; by split|]. pose proof (part_within _ _ _ _ P2) as W2. destruct P2 as [H2 _].
  eapply wp_seq.
  { apply partition_finished. unfold readable. rewrite Hc. do 5 eexists. split; [done|]. split; [|exact W2].
    destruct H2 as [G2 _]. eapply raw_grows; [|exact Hraw]. by eapply grows_trans. }
  intros r h3 [H3 Hr]. apply wp_bind, wp_call.
  - right. split; [done|]. left. by eexists.
  - intros x. cbn [guard history step]. assert (H : on h3 (h3 ++ [ev (TRemove (partition_path (cf_WorkDir cfg) "part-%d.raw" (pp_Number part))) x]))
      by (by apply on_step). split; [eapply on_trans; [|exact H]; by eapply on_trans|]. intros rp ->. eapply captured_grows'; [apply H|]. by apply Hr.
Qed.

Lemma device_processed dev h : usesAttach cfg = true -> device h = Some dev -> processes (attached_partition cfg dev) h.
Proof.
  intros Hc Hd part h1 [_ Hd1]. unfold attached_partition. apply wp_try, wp_call; [cbn; congruence|].
  intros [partDev|err]; cbn [guard history step]; [|split; [by apply on_step|done]].
  assert (H : on h1 (h1 ++ [ev (R := tool_resp) (TPartitionDevice dev (pp_Number part)) (inl partDev)])) by (by apply on_step).
  eapply wp_mono; [apply partition_finished|].
  - unfold readable. rewrite Hc. exists dev, (pp_Number part). split; [|apply grows_last]. destruct H as [_ ->]. congruence.
  - intros r h2 [H2 Hr]. split; [by eapply on_trans|done].
Qed.

Lemma all_processed process before parts acc h : processes process h -> Forall2 (captured_as h) before acc ->
  wp guard (each_partition process parts acc) h (fun r h' => on h h' /\ forall l, r = inl l -> Forall2 (captured_as h') (before ++ parts) l).
Proof.
  revert before acc h. induction parts as [|part parts IH]; intros before acc h Hp Hb; cbn [each_partition].
  { split; [done|]. intros l [= <-]. by rewrite app_nil_r. }
  apply wp_try. eapply wp_mono; [by apply Hp|]. intros [rp|err] h1 [H1 Hr]; [|by split].
  eapply wp_mono; [apply (IH (before ++ [part]))|].
  - intros p' h2 H2. apply Hp. by eapply on_trans.
  - apply Forall2_app; [|constructor; [by apply Hr|done]]. eapply Forall2_impl; [exact Hb|]. intros a b. apply captured_grows', H1.
  - intros r h2 [H2 Hl]. split; [by eapply on_trans|]. intros l Hrl. specialize (Hl l Hrl). by rewrite <- app_assoc in Hl.
Qed.

(** ** The source *)

Lemma checksum_guarded path h : wp guard (VerifyChecksum path (cf_SourceChecksum cfg)) h (fun r h' => on h h' /\ (r = None -> verified h' path)).
Proof.
  unfold VerifyChecksum. destruct (String.eqb_spec (cf_SourceChecksum cfg) "") as [He|He]; [split; [done|by left]|].
  destruct (cut_at ":" (cf_SourceChecksum cfg)) as [[algorithm digest]|] eqn:Hcut; [|by split].
  destruct (_ || _); [by split|]. destruct (EqualFold algorithm ChecksumAlgorithm) eqn:Ha; cbn [negb]; [|by split].
  apply wp_bind, wp_call; [done|]. intros [err|]; cbn [guard history step]; [split; [by apply on_step|done]|].
  apply wp_bind, wp_call; [done|]. intros got. cbn [guard history step]. apply wp_bind, wp_call; [done|]. intros c. cbn [guard history step wp].
  set (h1 := h ++ _). set (h2 := h1 ++ _). set (h3 := h2 ++ _).
  assert (H1 : on h h1) by (by apply on_step). assert (H2 : on h1 h2) by (by apply on_step). assert (H3 : on h2 h3) by (by apply on_step).
  split; [by eapply on_trans; [exact H1|eapply on_trans]|]. destruct got as [got|err]; [|done].
  destruct (EqualFold got digest) eqn:Hg; [|done]. intros _. right. exists algorithm, digest, got. split_and!; try done.
  eapply grows_in; [apply H3|]. apply grows_last.
Qed.

(** Removing what is not needed any more. *)
Lemma remove_guarded path h : permitted h (TRemove path) -> wp guard (remove_file path) h (fun _ h' => on h h').
Proof. intros Hp. apply wp_bind, wp_call; [done|]. intros r. by apply on_step. Qed.

Lemma drop_guarded staged h : stored h -> wp guard (drop_upload cfg deps staged) h (fun _ h' => on h h').
Proof.
  intros Hs. unfold drop_upload. destruct (_ && _); [|done]. apply wp_bind. unfold CleanupStagedSource. apply wp_bind, wp_call; [done|].
  intros [err|]; cbn [guard history step wp]; [|by apply on_step]. apply wp_call; [done|]. intros u.
  eapply on_trans; [by apply (on_step h (TRemoveUpload (StagedNameFromURL (cf_SourceURL cfg))) (Some err))|by apply on_step].
Qed.

(** What both pipelines end with. *)
Definition ends (r : ResultDisk + GoErr) (h : jobtrace) : Prop :=
  device h = None /\ forall disk, r = inl disk -> exists json parsed, all_captured h json parsed (rd_Partitions disk) /\
    compact json = inl (rd_SfdiskJSON disk) /\ rd_PartitionTable disk = pd_PartitionTable parsed.

Lemma all_captured_grows h h' json parsed parts : grows h h' -> all_captured h json parsed parts -> all_captured h' json parsed parts.
Proof.
  intros Hg ((path & Hp) & ? & Hf). split_and!; [by eauto|done|]. eapply Forall2_impl; [exact Hf|]. intros a b. by apply captured_grows'.
Qed.
#[local] Hint Resolve all_captured_grows : core.

(** The tail of both pipelines: remove the source, the upload, and compact. *)
Lemma tail_guarded (removal : job (option GoErr)) w staged json parsed parts size h :
  device h = None -> all_captured h json parsed parts -> (stored h -> wp guard removal h (fun _ h' => on h h')) ->
  wp guard (do! removal or w in
            drop_upload cfg deps staged ;;
            let! compactSfdisk := pure_or (compactJSON compact json) or wrapf "compact partition table dump: %w" [] in
            Ret (inl (mkResultDisk size (pd_PartitionTable parsed) compactSfdisk parts))) h ends.
Proof.
  intros Hd Ha Hrm. assert (Hs : stored h) by (split; [done|by exists json, parsed, parts]).
  apply wp_check. eapply wp_mono; [by apply Hrm|]. intros r h1 [G1 D1]. rewrite Hd in D1. destruct r as [err|]; [by split|].
  assert (Hs1 : stored h1) by (split; [done|exists json, parsed, parts; eauto]).
  eapply wp_seq; [by apply drop_guarded|]. intros u h2 [G2 D2]. rewrite D1 in D2. apply wp_try. cbn [pure_or wp].
  unfold compactJSON. destruct (compact json) as [c|err] eqn:Hc; [|by split]. split; [done|]. intros disk [= <-]. exists json, parsed.
  split_and!; try done. eauto.
Qed.

Lemma attached_guarded path info staged h : usesAttach cfg = true -> inspected h path (qi_Format info) -> device h = None ->
  wp guard (runAttached UnmarshalDump compact cfg deps path info staged) h ends.
Proof.
  intros Hc Hi Hd. unfold runAttached. apply wp_try, wp_call; [done|]. intros [dev|err]; cbn [guard history step].
  2: { split; [|done]. by rewrite device_snoc. }
  set (h1 := h ++ _). assert (Hd1 : device h1 = Some dev) by (subst h1; by rewrite device_snoc).
  eapply wp_seq with (Q := fun r h2 => on h1 h2 /\ forall x, r = inl x -> all_captured h2 x.1.1 x.1.2 x.2).
  - unfold read_attached. apply wp_try, wp_call; [cbn; by rewrite Hc|]. intros [json|err]; cbn [guard history step]; [|split; [by apply on_step|done]].
    set (h2 := h1 ++ _). assert (H2 : on h1 h2) by (by apply on_step).
    assert (Hd2 : device h2 = Some dev) by (destruct H2; congruence).
    apply wp_try. cbn [pure_or wp]. destruct (ParseSfdiskJSON UnmarshalDump json) as [parsed|err] eqn:Hp; [|by split].
    apply wp_try. eapply wp_mono; [by apply (all_processed _ []); [apply device_processed|constructor]|].
    intros [parts|err] h3 [H3 Hf]; (assert (H13 : on h1 h3) by (by eapply on_trans)); [|by split]. split; [done|].
    intros ? [= <-]. split_and!; [|done|by apply Hf]. exists dev. eapply grows_in; [apply H3|]. apply grows_last.
  - intros r h2 [[G2 D2] Hr]. apply wp_bind, wp_call; [cbn; congruence|]. intros u. cbn [guard history step]. set (h3 := h2 ++ _).
    assert (Hd3 : device h3 = None) by (subst h3; by rewrite device_snoc). apply wp_try. cbn [pure_or wp].
    destruct r as [[[json parsed] parts]|err]; [|by split]. specialize (Hr _ eq_refl). cbn in Hr.
    apply tail_guarded; [done|eapply all_captured_grows; [apply grows_app|done]|]. intros Hs.
    destruct staged; [exact (on_refl h3)|]. apply remove_guarded. by left.
Qed.

Lemma copied_guarded path info staged h : usesAttach cfg = false -> inspected h path (qi_Format info) -> device h = None ->
  wp guard (run_copied UnmarshalDump compact cfg deps path info staged) h ends.
Proof.
  intros Hc Hi Hd. unfold run_copied. apply wp_try. eapply wp_mono with (Q := fun r h' => on h h' /\ forall raw, r = inl raw -> raw_disk h' raw).
  { unfold ensureRawDisk. destruct (EqualFold (qi_Format info) "raw") eqn:Hfmt.
    { split; [exact (on_refl h)|]. intros raw [= <-]. left. eauto. }
    cbv zeta. apply wp_check, wp_call; [done|].
    intros [err|]; cbn [guard history step]; [split; [by apply on_step|done]|]. set (h1 := h ++ _). assert (H1 : on h h1) by (by apply on_step).
    assert (Hr1 : raw_disk h1 (Join [cf_WorkDir cfg; "disk.raw"])).
    { right. exists path, (qi_Format info). split; [destruct H1; eauto|apply grows_last]. }
    destruct staged; [split; [exact H1|by intros raw [= <-]]|]. apply wp_check. eapply wp_mono; [apply remove_guarded|].
    - right. split; [done|]. right. do 2 eexists. apply grows_last.
    - intros [err|] h2 H2; (split; [by eapply on_trans|]); [done|]. intros raw [= <-]. destruct H2; eauto. }
  intros [raw|err] h1 [H1 Hraw]; [|split; [destruct H1; congruence|done]]. specialize (Hraw raw eq_refl). assert (Hd1 : device h1 = None) by (destruct H1; congruence).
  apply wp_try, wp_call; [done|]. intros [size|err]; cbn [guard history step]; [|split; [by rewrite device_snoc|done]].
  set (h2 := h1 ++ _). assert (Hd2 : device h2 = None) by (subst h2; by rewrite device_snoc).
  apply wp_try, wp_call; [cbn; rewrite Hc; eapply raw_grows; [apply grows_app|exact Hraw]|]. intros [json|err]; cbn [guard history step]; [|split; [by rewrite device_snoc|done]].
  set (h3 := h2 ++ _). assert (Hd3 : device h3 = None) by (subst h3; by rewrite device_snoc).
  apply wp_try. cbn [pure_or wp]. destruct (ParseSfdiskJSON UnmarshalDump json) as [parsed|err] eqn:Hp; [|by split].
  apply wp_try. eapply wp_mono; [apply (all_processed _ []); [apply slice_processed; [done|]|constructor]|].
  { do 2 (eapply raw_grows; [apply grows_app|]). exact Hraw. }
  intros [parts|err] h4 [H4 Hf]; (assert (Hd4 : device h4 = None) by (destruct H4; congruence)); [|by split].
  apply tail_guarded; [done| |].
  - split_and!; [|done|by apply Hf]. exists raw. eapply grows_in; [apply H4|]. apply grows_last.
  - intros Hs. destruct (_ || _); [|exact (on_refl h4)]. apply remove_guarded. by left.
Qed.

Lemma resolve_guarded dest h : wp guard (ResolveSource (cf_SourceURL cfg) (dep_Staging deps) dest) h (fun _ h' => on h h').
Proof.
  unfold ResolveSource. destruct (_ || _).
  { apply wp_check, wp_call; [done|]. intros [err|]; by apply on_step. }
  destruct (HasPrefix _ _); [|exact (on_refl h)]. destruct (negb _); [exact (on_refl h)|].
  apply wp_try, wp_call; [done|]. intros [p|err]; by apply on_step.
Qed.

Lemma run_guarded : wp guard (run UnmarshalDump compact cfg deps) [] ends.
Proof.
  unfold run. apply wp_try. eapply wp_mono; [apply resolve_guarded|]. intros [[path staged]|err] h1 [_ D1]; [|by split].
  apply wp_check. eapply wp_mono; [apply checksum_guarded|]. intros [err|] h2 [[_ D2] Hv]; [split; [cbn in *; congruence|done]|].
  apply wp_try, wp_call; [by apply Hv|]. intros [info|err]; cbn [guard history step].
  2: { split; [rewrite device_snoc; cbn in *; congruence|done]. }
  set (h3 := h2 ++ _). assert (D3 : device h3 = None) by (subst h3; rewrite device_snoc; cbn in *; congruence).
  destruct (EqualFold (qi_Format info) (cf_SourceFormat cfg)) eqn:Hf; cbn [negb]; [|by split].
  assert (Hi : inspected h3 path (qi_Format info)).
  { split; [eapply verified_grows; [apply grows_app|by apply Hv]|]. exists info. split; [apply grows_last|done]. }
  destruct (usesAttach cfg) eqn:Hu; [by apply attached_guarded|by apply copied_guarded].
Qed.

Lemma Run_guarded : wp guard (Run UnmarshalDump compact cfg deps) [] (fun res h => exists r, ends r h /\
  res = match r with inr err => FailureResult err | inl disk => mkIngestResult true "" (Some disk) None end).
Proof. unfold Run. eapply wp_seq; [apply run_guarded|]. intros r h Hr. by exists r. Qed.


Lemma Run_ends tr res : runs (Run UnmarshalDump compact cfg deps) tr res -> exists r, ends r tr /\
  res = match r with inr err => FailureResult err | inl disk => mkIngestResult true "" (Some disk) None end.
Proof.
  intros Hrun. pose proof (wp_final guard _ [] _ tr res Run_guarded Hrun) as Hf. unfold guard in Hf. rewrite final_history in Hf. apply Hf.
  apply (assumes_forall guard (fun _ _ => True)); [done|]. by apply Forall_forall.
Qed.

(** C16. No finished ingest leaves a device attached, and one that reports success
    has captured the whole disk: each partition of the dump, in order, is in the
    result with its own number, size and identifiers, a swap partition with the
    UUID blkid found and no content, any other with a content directory whose
    torrent.info was parsed and whose files were nested and validated against it,
    with the sizes that torrent.info gives; and the dump the result carries is the
    one that was read. *)
Theorem ingest_captures_the_disk tr res (Hrun : runs (Run UnmarshalDump compact cfg deps) tr res) :
  device tr = None /\
  (if ir_Success res
   then exists disk json parsed, ir_Disk res = Some disk /\ all_captured tr json parsed (rd_Partitions disk) /\
     compact json = inl (rd_SfdiskJSON disk) /\ rd_PartitionTable disk = pd_PartitionTable parsed
   else ir_Disk res = None).
Proof.
  destruct (Run_ends tr res Hrun) as ([disk|err] & [Hd Hdisk] & ->); (split; [done|]); [|done]. destruct (Hdisk disk eq_refl) as (json & parsed & ? & ? & ?).
  by exists disk, json, parsed.
Qed.
End Guard.

(** ** From the source's table to the agent's *)

Section EndToEnd.
Context (UnmarshalDump : string -> sfdiskPartitionTable + GoErr) (compact : string -> string + GoErr).
Context (Unmarshal : string -> sfdiskJSONTable + GoErr).

(** Two decoders read the same label and nodes. *)
Definition same_table (t : sfdiskPartitionTable) (t' : sfdiskJSONTable) : Prop :=
  sf_Label t = st_Label t' /\ map sf_Node (sf_Partitions t) = map sp_Node (st_Partitions t').

Definition line_for (targetDisk : string) (line : string) (slot : ImageSlot) : Prop :=
  exists fields, line = DevicePartitionPath targetDisk (is_Number slot) +:+ " : " +:+ fields.

Lemma lines_for_slots imp targetDisk ps qs parts sectorSize i h cfg : map sf_Node ps = map sp_Node qs ->
  Forall2 (captured_as cfg h) (parsed_partitions sectorSize i ps) parts ->
  Forall2 (line_for targetDisk) (partition_lines i targetDisk qs) (map (import_slot imp) parts).
Proof.
  revert qs parts i. induction ps as [|p ps IH]; intros [|q qs] parts i Hm Hf; cbn in Hm; try done; inversion Hf; subst; cbn [partition_lines map]; [constructor|].
  injection Hm as Hn Hm. constructor; [|by apply IH]. match goal with Hc : captured_as _ _ _ _ |- _ => destruct Hc as (Hnum & _) end.
  cbn [parsed_partition pp_Number] in Hnum. unfold line_for. cbn [import_slot is_Number]. rewrite Hnum, Hn. change (partitionNumber (sp_Node q) i) with (sfdiskPartitionNumber (sp_Node q) i). eexists. cbn [sprintf]. cbn -[DevicePartitionPath sfdiskPartitionNumber]. by rewrite string_app_nil.
Qed.

(** C15. The slots of an imported Image are the partitions the agent makes: when an
    ingest reported success and an import made a layout of its disk, and the agent
    decodes the table text the layout carries with the label and the nodes the
    ingest read from its dump, then the agent's sfdisk script for that layout
    exists on any target disk, and its partition lines are, in order, for the
    devices of the layout's slots, no more and no fewer. *)
Theorem imported_slots_are_created cfg deps tr res disk imp layout targetDisk table
    (Hrun : runs (Run UnmarshalDump compact cfg deps) tr res) (Hok : ir_Success res = true)
    (Hdisk : ir_Disk res = Some disk) (Hlayout : importLayout imp disk = inl layout)
    (Ht : Unmarshal (rd_SfdiskJSON disk) = inl table)
    (Hsame : forall path json t, ev (R := tool_resp) (TDump path) (inl json) ∈ tr -> UnmarshalDump json = inl t -> same_table t table) :
  SfdiskScript Unmarshal (lay_SfdiskJSON layout) targetDisk =
    inl (String.concat "" (map (fun l => l +:+ newline) (header_lines table ++ partition_lines 0 targetDisk (st_Partitions table)))) /\
  Forall2 (line_for targetDisk) (partition_lines 0 targetDisk (st_Partitions table)) (lay_Slots layout).
Proof.
  destruct (Run_ends UnmarshalDump compact cfg deps tr res Hrun) as ([d|err] & [_ Hd] & ->); [|done]. cbn in Hdisk. injection Hdisk as ->.
  destruct (Hd disk eq_refl) as (json & parsed & ((path & Hdump) & Hp & Hall) & Hc & _). unfold importLayout in Hlayout.
  destruct (rd_SfdiskJSON disk =s ""); [done|].
  assert (Hl : lay_SfdiskJSON layout = rd_SfdiskJSON disk /\ lay_Slots layout = map (import_slot imp) (rd_Partitions disk) /\ rd_Partitions disk <> []).
  { by destruct (rd_Partitions disk) as [|part parts]; [|injection Hlayout as <-]. }
  destruct Hl as (-> & -> & Hne). unfold ParseSfdiskJSON in Hp. destruct (UnmarshalDump json) as [t|] eqn:Hu; [|done].
  destruct (Hsame path json t Hdump Hu) as [Hlabel Hnodes].
  destruct (table_kind (sf_Label t)) as [kind|] eqn:Hk; [|done]. injection Hp as <-. cbn [pd_Partitions] in Hall.
  split; [|by eapply lines_for_slots]. unfold SfdiskScript. rewrite Ht.
  assert (Hlab : (st_Label table =s "") = false). { rewrite <- Hlabel. apply String.eqb_neq. intros Hz. by rewrite Hz in Hk. }
  rewrite Hlab. destruct (st_Partitions table); [|done]. destruct (sf_Partitions t); [|done]. inversion Hall. congruence.
Qed.
End EndToEnd.

(** ** Publishing *)

Section Publish.
Context (sha1 : string -> InfoHash).

(** A published content: what was validated, and what the hash is of. *)
Definition published_as (t : jobtrace) (p : PublishPartition) (hash : string) : Prop :=
  exists info published data, within t (on_disk (LoadContentDirTorrentInfo (pub_SourceDir p))) (inl info) /\
    within t (copyDir (pub_SourceDir p) (pub_DestDir p)) None /\
    within t (on_disk (ValidateContentDir (pub_DestDir p) info)) None /\
    ev (R := tool_resp) (TFs (FReadFile (ContentDirTorrentInfoPath (pub_DestDir p)))) (inl data) ∈ t /\ ParseTorrentInfo data = inl published /\
    exists h, ComputeInfoHash sha1 published = inl h /\ hash = InfoHash_String h.

Lemma runs_try {A B} (p : job (A + GoErr)) w (f : A -> job (B + GoErr)) tr b : runs (try p w f) tr (inl b) ->
  exists t1 t2 a, tr = t1 ++ t2 /\ runs p t1 (inl a) /\ runs (f a) t2 (inl b).
Proof. intros (t1 & t2 & [a|err] & -> & Hp & Hf)%runs_bind; [eauto 6|by destruct Hf]. Qed.

Lemma runs_check {B} (p : job (option GoErr)) w (f : job (B + GoErr)) tr b : runs (check p w f) tr (inl b) ->
  exists t1 t2, tr = t1 ++ t2 /\ runs p t1 None /\ runs f t2 (inl b).
Proof. intros (t1 & t2 & [err|] & -> & Hp & Hf)%runs_bind; [by destruct Hf|eauto]. Qed.

Lemma publish_one p tr hash : runs (publishPartition sha1 p) tr (inl hash) -> published_as tr p hash.
Proof.
  intros (t1 & r1 & info & -> & H1 & (t2 & r2 & -> & H2 & (t3 & r3 & -> & H3 & (t4 & r4 & pub & -> & H4 & Hr)%runs_try)%runs_check)%runs_check)%runs_try.
  apply runs_try in Hr as (t5 & t6 & h & -> & [-> Hh] & [-> [= ->]]). destruct (load_reads _ _ _ H4) as (data & Hin & Hp).
  exists info, pub, data. split_and!; [by eexists [], t1, _|by eexists t1, t2, _|eexists (t1 ++ t2), t3, _; by rewrite <- !app_assoc|set_solver|done|by exists h].
Qed.

Lemma publish_last ps p acc tr hash : runs (runPublish sha1 (ps ++ [p]) acc) tr (inl hash) ->
  exists t1 t2, tr = t1 ++ t2 /\ published_as t2 p hash.
Proof.
  revert acc tr. induction ps as [|q ps IH]; intros acc tr; cbn [runPublish app].
  - intros (t1 & t2 & h & -> & H1 & [-> [= ->]])%runs_try. exists [], t1. rewrite app_nil_r. split; [done|]. by apply publish_one.
  - intros (t1 & t2 & h & -> & H1 & H2)%runs_try. apply IH in H2 as (u1 & u2 & -> & H2). exists (t1 ++ u1), u2. by rewrite app_assoc.
Qed.

(** A publish Job that reports success reports the info hash of the torrent.info
    that it read back from the volume of the last content, after the files there
    were validated against the torrent.info of the source. *)
Theorem published_hash_is_read_back ps p tr res
    (Hrun : runs (RunPublish sha1 (ps ++ [p])) tr res) (Hok : ir_Success res = true) :
  exists hash t1 t2, ir_Publish res = Some (mkResultPublish hash) /\ tr = t1 ++ t2 /\ published_as t2 p hash.
Proof.
  apply runs_bind in Hrun as (t1 & t2 & [hash|err] & -> & Hr & [-> ->]); [|done]. rewrite app_nil_r.
  apply publish_last in Hr as (u1 & u2 & -> & Hp). by exists hash, u1, u2.
Qed.
End Publish.

(** ** Samples *)

Module JobSample.
Definition cfg : Config := mkConfig "kezio-staged://noble" "qcow2" "sha256:AB" "/work" 0 "".
Definition deps : Dependencies := mkDependencies true true.
Definition dump (json : string) : sfdiskPartitionTable + GoErr :=
  inl (mkDumpTable "gpt" "guid" 0 [mkDumpPartition "/dev/nbd0p1" 2048 1000 "0FC6" "u1"; mkDumpPartition "/dev/nbd0p5" 4096 1000 "0657" "u5"]).
Definition table (json : string) : sfdiskJSONTable + GoErr :=
  inl (mkSfTable "gpt" "guid" 0 [mkSfPartition "/dev/nbd0p1" 2048 1000 "0FC6" "u1" "" false; mkSfPartition "/dev/nbd0p5" 4096 1000 "0657" "u5" "" false]).

(** The file system of a healthy run; [published] is what the volume of the
    content holds as torrent.info. *)
Definition disk (published : TorrentInfo) (e : fs) : fs_resp e :=
  match e with
  | FReadDir d => inl (if HasSuffix d "/content" then Example.data else Example.top)
  | FMkdirAll _ => None
  | FRename _ _ => None
  | FReadFile path => inl (WriteTorrentInfo (if HasPrefix path "/pvc" then published else Example.ti))
  end.

Definition handler (published : TorrentInfo) (e : tool) (u : unit) : option (tool_resp e * unit) :=
  match e return option (tool_resp e * unit) with
  | TFs e => Some (disk published e, u)
  | TResolveUpload _ => Some (inl "/staging/noble", u)
  | TSha256 _ => Some (inl "ab", u)
  | TInfo _ => Some (inl (mkQemuImgInfo "qcow2" 1000000), u)
  | TAttach _ _ => Some (inl "/dev/nbd0", u)
  | TDump _ => Some (inl "{}", u)
  | TPartitionDevice dev num => Some (inl (dev +:+ "p" +:+ show_dec num), u)
  | TDetect path => Some (inl (mkFSInfo (if HasSuffix path "p5" then "swap" else "ext4") "uuid"), u)
  | TStatfs _ => Some (inl (2 ^ 40), u)
  | TSize _ => Some (inl 0, u)
  | TGeteuid => Some (0, u)
  | TDetach _ | TLog _ => Some (tt, u)
  | TWalkDir _ => Some ([mkVisit "." true false None; mkVisit "torrent.info" false true None], u)
  | _ => Some (None, u)
  end.

Definition run : job IngestResult := Run dump inl cfg deps.
Definition outcome_of : option (IngestResult * unit * jobtrace) := exec (handler Example.ti) run tt.
Definition run_trace : jobtrace := match outcome_of with Some (_, _, tr) => tr | None => [] end.
Definition result : IngestResult := match outcome_of with Some (res, _, _) => res | None => FailureResult (errorf "none" []) end.

Lemma runs_ok : runs run run_trace result.
Proof. eapply (exec_runs (handler Example.ti) _ tt _ tt). vm_compute. reflexivity. Qed.

(** A published torrent.info with the files of the source's and other hashes. *)
Definition other : TorrentInfo := Example.ti <| PieceHashes := [repeat 205 20] |>.
Definition sum (s : string) : InfoHash := if Contains s (bytes_string (repeat 205 20)) then repeat 1 20 else repeat 2 20.
End JobSample.

(** What the sample ingests: a content and a swap partition, with the upload
    removed last. *)
Example sample_result :
  option_map (fun d => map (fun p => (rp_Number p, rp_Role p, rp_UsedBytes p, rp_LastExtentEnd p)) (rd_Partitions d)) (ir_Disk JobSample.result)
    = Some [(1, PartitionRoleData, 12288, 20480); (5, PartitionRoleSwap, 0, 0)] /\
  option_map (fun x => projT1 x) (last JobSample.run_trace) = Some (TRemoveUpload "noble").
Proof. vm_compute. auto. Qed.


Lemma ingest_captures_the_disk_witness : device JobSample.run_trace = None /\
  exists d, ir_Disk JobSample.result = Some d /\ length (rd_Partitions d) = 2%nat.
Proof.
  destruct (ingest_captures_the_disk JobSample.dump inl JobSample.cfg JobSample.deps JobSample.run_trace JobSample.result JobSample.runs_ok) as [Hd _].
  split; [exact Hd|]. eexists. split; [vm_compute; reflexivity|reflexivity].
Defined.

Lemma imported_slots_are_created_witness :
  exists d layout table, ir_Disk JobSample.result = Some d /\ importLayout (Sample.import "" None None) d = inl layout /\
    Forall2 (line_for "/dev/sda") (partition_lines 0 "/dev/sda" (st_Partitions table)) (lay_Slots layout).
Proof.
  assert (Hl : exists d layout, ir_Disk JobSample.result = Some d /\ importLayout (Sample.import "" None None) d = inl layout).
  { do 2 eexists. split; vm_compute; reflexivity. }
  destruct Hl as (d & layout & Hd & Hl). exists d, layout.
  eexists. split; [exact Hd|]. split; [exact Hl|].
  eapply (imported_slots_are_created JobSample.dump inl JobSample.table JobSample.cfg JobSample.deps JobSample.run_trace JobSample.result d
    (Sample.import "" None None) layout "/dev/sda").
  - exact JobSample.runs_ok.
  - vm_compute. reflexivity.
  - exact Hd.
  - exact Hl.
  - unfold JobSample.table. reflexivity.
  - intros path json t _ Ht. unfold JobSample.dump in Ht. injection Ht as <-. split; reflexivity.
Defined.

(** The copy of torrent.info is never compared with its source: when it arrives
    with other piece hashes, the Job reports success and, as the content's
    identity, the hash of a torrent none of whose pieces the files match. *)
Example altered_torrent_info_is_published :
  match exec (JobSample.handler JobSample.other) (RunPublish JobSample.sum [mkPublishPartition 1 "/work/content-1" "/pvc"]) tt with
  | Some (res, _, _) => res
  | None => FailureResult (errorf "none" [])
  end = mkIngestResult true "" None (Some (mkResultPublish (InfoHash_String (repeat 1 20)))) /\
  ComputeInfoHash JobSample.sum Example.ti = inl (repeat 2 20).
Proof. vm_compute. auto. Qed.
