(* ===== verification/Concurrent.v ===== *)
(** * Concurrent: programs that share a state

    A pool of programs over one signature runs by interleaving: a step is one
    call of one program, answered by the shared state.  A program is [ok] from a
    local state when each of its calls, made in any state that satisfies the
    invariant, keeps the invariant and the guarantee and leaves it in a local
    state from which the rest is [ok].  The invariant speaks about the shared
    state and the local states of all programs, so that what one knows survives
    the calls of the others. *)

From S2P Require Import Prelude Effects.
From stdpp Require Import relations.
Local Open Scope list_scope.

Section Pool.
Context {E : Type} {R : E -> Type} {W : Type}.
(** [act i w e r w']: the call [e] of program [i] in [w] may be answered [r] and leave [w']. *)
Context (act : nat -> W -> forall e : E, R e -> W -> Prop).

Inductive pool_step {A} : W * list (prog R A) -> W * list (prog R A) -> Prop :=
| pool_call i w ps e k r w' : ps !! i = Some (Vis e k) -> act i w e r w' -> pool_step (w, ps) (w', <[i := k r]> ps).

Context {L : Type} (Inv : W -> list L -> Prop) (G : W -> W -> Prop).

Fixpoint ok {A} (Q : L -> A -> Prop) (l : L) (p : prog R A) : Prop :=
  match p with
  | Ret a => Q l a
  | Vis e k => forall i w ls r w', Inv w ls -> ls !! i = Some l -> act i w e r w' ->
      exists l', Inv w' (<[i := l']> ls) /\ G w w' /\ ok Q l' (k r)
  end.

Lemma ok_mono {A} (Q Q' : L -> A -> Prop) l p : ok Q l p -> (forall l a, Q l a -> Q' l a) -> ok Q' l p.
Proof.
  intros Hp HQ. revert l Hp. induction p as [a|e k IH]; cbn; intros l Hp; [auto|]. intros i w ls r w' Hi Hl Ha.
  destruct (Hp i w ls r w' Hi Hl Ha) as (l' & ? & ? & ?). exists l'. split_and!; auto.
Qed.

Lemma ok_bind {A B} (Q : L -> B -> Prop) l (p : prog R A) (f : A -> prog R B) :
  ok (fun l a => ok Q l (f a)) l p -> ok Q l (bind p f).
Proof.
  revert l. induction p as [a|e k IH]; cbn; intros l Hp; [done|]. intros i w ls r w' Hi Hl Ha.
  destruct (Hp i w ls r w' Hi Hl Ha) as (l' & ? & ? & ?). exists l'. split_and!; auto.
Qed.

Lemma ok_seq {A B} (P : L -> A -> Prop) (Q : L -> B -> Prop) l (p : prog R A) (f : A -> prog R B) :
  ok P l p -> (forall l a, P l a -> ok Q l (f a)) -> ok Q l (bind p f).
Proof. intros Hp Hf. apply ok_bind. by eapply ok_mono. Qed.

(** All reachable states satisfy the invariant, and are reached by guaranteed
    steps; [Q i] is what program [i] finishes with. *)
Theorem pool_safe {A} (Q : nat -> L -> A -> Prop) w (ps : list (prog R A)) ls w' ps' :
  Inv w ls -> (forall i p, ps !! i = Some p -> exists l, ls !! i = Some l /\ ok (Q i) l p) -> rtc pool_step (w, ps) (w', ps') ->
  exists ls', Inv w' ls' /\ (forall i p, ps' !! i = Some p -> exists l, ls' !! i = Some l /\ ok (Q i) l p) /\
    length ls' = length ls /\ length ps' = length ps /\ rtc G w w'.
Proof.
  intros Hi Hf Hs. remember (w, ps) as c eqn:Hc. remember (w', ps') as c' eqn:Hc'. revert w ps ls w' ps' Hc Hc' Hi Hf.
  induction Hs as [c|c c1 c2 Hstep Hs IH]; intros w ps ls w' ps' -> Hc' Hi Hf.
  - injection Hc' as -> ->. exists ls. split_and!; [done..|constructor].
  - inversion Hstep as [i w0 ps0 e k r w1 Hp Ha]; subst. destruct (Hf i _ Hp) as (l & Hl & Hok). cbn in Hok.
    destruct (Hok i w ls r w1 Hi Hl Ha) as (l' & Hi' & Hg & Hok').
    destruct (IH w1 (<[i := k r]> ps) (<[i := l']> ls) w' ps' eq_refl eq_refl Hi') as (ls' & ? & ? & Hlen & Hlen' & ?).
    + intros j p Hj. apply list_lookup_insert_Some in Hj as [(-> & <- & _)|[Hne Hj]].
      * exists l'. split; [|done]. apply list_lookup_insert_Some. left. split_and!; [done..|by eapply lookup_lt_Some].
      * destruct (Hf j p Hj) as (lj & ? & ?). exists lj. by rewrite list_lookup_insert_ne.
    + rewrite !length_insert in *. exists ls'. split_and!; [done..|by econstructor].
Qed.
End Pool.
