(* ===== verification/ImageService.v ===== *)
(** * ImageService: staging uploaded disk images

    [src/internal/imageservice]: [staging.go], [admission.go], [auth.go] and
    [server.go].  Requests run concurrently; what they share, the files of the
    staging volume, the ledger of reservations and the two mutexes, is behind the
    calls of the signature [srv].

    Files are named by what they are for, and [path_of] gives their paths.
    Parameters: SHA-256 and [validation.IsDNS1123Label]. *)

From S2P Require Import Prelude Text DiskMatch Effects Store Imports Ingest.
Local Open Scope string_scope.
Local Open Scope list_scope.
Local Open Scope Z_scope.

(** ** Calls *)

Definition uploadFileName : string := "upload.bin".
Definition uploadMetaFileName : string := "upload.sha256".

(** A partial upload, and the two files of a named one. *)
Inductive loc := LTmp (id : string) | LBin (name : string) | LMeta (name : string).

#[export] Instance loc_eq_dec : EqDecision loc.
Proof. solve_decision. Defined.
#[export] Instance loc_countable : Countable loc.
Proof.
  refine (inj_countable' (fun l => match l with LTmp s => (0%nat, s) | LBin s => (1%nat, s) | LMeta s => (2%nat, s) end)
            (fun x => match x with (0%nat, s) => LTmp s | (1%nat, s) => LBin s | (_, s) => LMeta s end) _).
  by intros [].
Defined.

Definition uploadsDir (root : string) : string := Join [root; "uploads"].
Definition tmpDir (root : string) : string := Join [uploadsDir root; ".tmp"].

Definition path_of (root : string) (l : loc) : string :=
  match l with
  | LTmp id => Join [tmpDir root; id]
  | LBin name => Join [Join [uploadsDir root; name]; uploadFileName]
  | LMeta name => Join [Join [uploadsDir root; name]; uploadMetaFileName]
  end.

Inductive mutex := FinalizeMu | AdmissionMu.

Inductive srv :=
| SMkdirAll (dir : string)
| SReadDir (dir : string)
| SCreateTemp
| SWrite (id data : string)
| SClose (id : string)
| SReadFile (l : loc)
| SWriteFile (l : loc) (content : string)
| SRename (id name : string)
| SRemove (l : loc)
| SRemoveTmp (id : string)
| SRemoveUpload (name : string)
| SStatfs (dir : string)
| SLock (m : mutex)
| SUnlock (m : mutex)
| SLedger
| SSetLedger (reserved : Z)
| SLogError (message : string).

(** [SRemoveTmp] and [SRemoveUpload] are [os.RemoveAll] of a temporary file and of
    an upload's directory. *)
Definition srv_resp (e : srv) : Type :=
  match e with
  | SReadDir _ => (list DirEntry + GoErr)%type
  | SCreateTemp => (string + GoErr)%type
  | SReadFile _ => (string + GoErr)%type
  | SStatfs _ => (Z + GoErr)%type
  | SLedger => Z
  | SLock _ | SUnlock _ | SSetLedger _ | SLogError _ => unit
  | _ => option GoErr
  end.

Abbreviation svc := (prog srv_resp).
Abbreviation srv_call := (call (R := srv_resp)).

(** ** Errors *)

Definition ErrInvalidName : GoErr := mkErr KInvalidName "invalid upload name".
Definition ErrChecksumMismatch : GoErr := mkErr KChecksumMismatch "checksum mismatch".
Definition ErrNameConflict : GoErr := mkErr KNameConflict "upload name already in use with different content".
Definition ErrUploadNotComplete : GoErr := mkErr KUploadNotComplete "upload has not completed".
Definition ErrInsufficientSpace : GoErr := mkErr KNoSpace "insufficient staging space".
Definition ErrQuotaExceeded : GoErr := mkErr KQuota "staging quota exceeded".
Definition ErrEmptyToken : GoErr := mkErr KOther "bearer token must not be empty".

(** [fmt.Errorf] with a leading [%w]. *)
Definition tagged (err : GoErr) (fmt : string) (args : list string) : GoErr := mkErr (ekind err) (sprintf fmt (emsg err :: args)).

(** ** Metadata *)

Record uploadMeta := mkMeta { um_SizeBytes : Z; um_Checksum : string }.

(** [fmt.Sscanf] with [%d]: an optional sign and the digits that follow it; what
    comes after them is not looked at. *)
Fixpoint leading_digits (s : string) : string :=
  match s with
  | String c s => if is_digit c then String c (leading_digits s) else ""
  | "" => ""
  end.
Definition scan_d (s : string) : option Z :=
  match s with
  | String "+" s => Atoi (leading_digits s)
  | String "-" s => Atoi ("-" +:+ leading_digits s)
  | s => Atoi (leading_digits s)
  end.

Definition parse_meta (dir data : string) : uploadMeta + GoErr :=
  match cut_at " " (TrimSpace data) with
  | None => inr (errorf "malformed upload metadata in %s" [dir])
  | Some (size, checksum) =>
    match scan_d size with
    | None => inr (errorf "malformed upload metadata size in %s: %w" [dir; "expected integer"])
    | Some n => inl (mkMeta n checksum)
    end
  end.

Definition format_meta (m : uploadMeta) : string := sprintf "%d %s" [show_dec (um_SizeBytes m); um_Checksum m] +:+ newline.

Section Service.
Context (sha256 : string -> string) (IsDNS1123Label : string -> list string) (root : string).

Definition readMeta (name : string) : svc (uploadMeta + GoErr) :=
  r <- srv_call (SReadFile (LMeta name)) ;;
  Ret match r with
      | inr err => inr err
      | inl data => parse_meta (Join [uploadsDir root; name]) data
      end.

Definition writeMeta (name : string) (m : uploadMeta) : svc (option GoErr) := srv_call (SWriteFile (LMeta name) (format_meta m)).

(** ** Names *)

Definition ValidateName (name : string) : option GoErr :=
  match IsDNS1123Label name with
  | [] => None
  | msgs => Some (tagged ErrInvalidName "%w: %s" [String.concat "; " msgs])
  end.

Definition uploadDir (name : string) : string + GoErr :=
  match ValidateName name with
  | Some err => inr err
  | None =>
    let dir := Join [uploadsDir root; name] in
    if AgentExec.Dir dir <>s uploadsDir root then inr (tagged ErrInvalidName "%w: resolves outside the uploads directory" [])
    else inl dir
  end.

Definition UploadedRef (name : string) : string := StagedURLScheme +:+ "://" +:+ name.

Definition parseChecksum (checksum : string) : (string * string) + GoErr :=
  match cut_at ":" checksum with
  | None => inr (malformed_checksum checksum)
  | Some (algorithm, digest) =>
    if (algorithm =s "") || (digest =s "") then inr (malformed_checksum checksum)
    else if negb (EqualFold algorithm ChecksumAlgorithm) then
      inr (errorf "unsupported checksum algorithm %q, only %q is supported" [algorithm; ChecksumAlgorithm])
    else match DecodeString digest with
         | None => inr (errorf "checksum digest %q is not valid hex: %w" [digest; "encoding/hex"])
         | Some _ => inl (algorithm, digest)
         end
  end.

(** ** Staging *)

Fixpoint sweep (entries : list DirEntry) : svc (option GoErr) :=
  match entries with
  | [] => Ret None
  | e :: entries =>
    r <- srv_call (SRemoveTmp (de_Name e)) ;;
    match r with
    | Some err => Ret (Some (wrapf "sweep orphaned staging tmp file %q: %w" [de_Name e] err))
    | None => sweep entries
    end
  end.

Definition NewStaging : svc (option GoErr) :=
  r <- srv_call (SMkdirAll (tmpDir root)) ;;
  match r with
  | Some err => Ret (Some (wrapf "create staging tmp dir: %w" [] err))
  | None =>
    r <- srv_call (SReadDir (tmpDir root)) ;;
    match r with
    | inr err => Ret (Some (wrapf "read staging tmp dir: %w" [] err))
    | inl entries => sweep entries
    end
  end.

Definition StatUpload (name : string) : svc (Z + GoErr) :=
  match uploadDir name with
  | inr err => Ret (inr err)
  | inl _ =>
    r <- readMeta name ;;
    Ret match r with
        | inl meta => inl (um_SizeBytes meta)
        | inr err => inr (if IsNotFound err then tagged ErrUploadNotComplete "%w: %q" [name] else wrapf "check upload %q: %w" [name] err)
        end
  end.

Definition ResolveUpload (name : string) : svc (string + GoErr) :=
  match uploadDir name with
  | inr err => Ret (inr err)
  | inl dir =>
    r <- readMeta name ;;
    Ret match r with
        | inl _ => inl (Join [dir; uploadFileName])
        | inr err => inr (if IsNotFound err then errorf "upload %q has not completed" [name] else wrapf "check upload %q: %w" [name] err)
        end
  end.

Definition RemoveUpload (name : string) : svc (option GoErr) :=
  match uploadDir name with
  | inr err => Ret (Some err)
  | inl _ =>
    r <- srv_call (SRemoveUpload name) ;;
    Ret match r with Some err => Some (wrapf "remove upload %q: %w" [name] err) | None => None end
  end.

Fixpoint used_from (entries : list DirEntry) (total : Z) : svc (Z + GoErr) :=
  match entries with
  | [] => Ret (inl total)
  | e :: entries =>
    if negb (de_IsDir e) || (de_Name e =s AgentExec.path_base (tmpDir root)) then used_from entries total
    else
    r <- readMeta (de_Name e) ;;
    match r with
    | inr err => if IsNotFound err then used_from entries total
                 else Ret (inr (wrapf "read upload metadata for %q: %w" [de_Name e] err))
    | inl meta => used_from entries (int64 (total + um_SizeBytes meta))
    end
  end.

Definition UsedBytes : svc (Z + GoErr) :=
  r <- srv_call (SReadDir (uploadsDir root)) ;;
  match r with
  | inr err => Ret (if IsNotFound err then inl 0 else inr (wrapf "read uploads directory: %w" [] err))
  | inl entries => used_from entries 0
  end.

Record UploadResult := mkUploadResult {
  ur_Name : string; ur_Path : string; ur_SizeBytes : Z; ur_Checksum : string; ur_Idempotent : bool }.

(** What is read from a request's body: the bytes, and the error reading ended with, if any. *)
Record Body := mkBody { b_data : string; b_err : option GoErr }.

Definition size_of (data : string) : Z := Z.of_nat (String.length data).
Definition checksum_of (data : string) : string := ChecksumAlgorithm +:+ ":" +:+ sha256 data.

(** The critical section of [Receive]: whether the temporary file was renamed, and the outcome. *)
Definition finalize (name dir id data : string) : svc (bool * (UploadResult + GoErr)) :=
  let got := checksum_of data in
  let finalPath := Join [dir; uploadFileName] in
  r <- readMeta name ;;
  match r with
  | inl existing =>
    Ret (false, if EqualFold (um_Checksum existing) got
                then inl (mkUploadResult name finalPath (um_SizeBytes existing) (um_Checksum existing) true)
                else inr (tagged ErrNameConflict "%w: existing checksum %s, new upload computed %s" [um_Checksum existing; got]))
  | inr err =>
    if negb (IsNotFound err) then Ret (false, inr (wrapf "check existing upload: %w" [] err))
    else
    r <- srv_call (SMkdirAll dir) ;;
    match r with
    | Some err => Ret (false, inr (wrapf "create upload dir: %w" [] err))
    | None =>
      r <- srv_call (SRename id name) ;;
      match r with
      | Some err => Ret (false, inr (wrapf "finalize upload: %w" [] err))
      | None =>
        r <- writeMeta name (mkMeta (size_of data) got) ;;
        match r with
        | Some err => srv_call (SRemove (LBin name)) ;; Ret (true, inr (wrapf "record upload metadata: %w" [] err))
        | None => Ret (true, inl (mkUploadResult name finalPath (size_of data) got false))
        end
      end
    end
  end.

(** From the first byte to the decision. *)
Definition receive_into (name dir id : string) (body : Body) (wantChecksum : string) : svc (bool * (UploadResult + GoErr)) :=
  werr <- srv_call (SWrite id (b_data body)) ;;
  match (match werr with Some err => Some err | None => b_err body end) with
  | Some err => Ret (false, inr (wrapf "write upload: %w" [] err))
  | None =>
    cerr <- srv_call (SClose id) ;;
    match cerr with
    | Some err => Ret (false, inr (wrapf "close upload temp file: %w" [] err))
    | None =>
      let got := checksum_of (b_data body) in
      if (wantChecksum <>s "") && negb (EqualFold got wantChecksum) then
        Ret (false, inr (tagged ErrChecksumMismatch "%w: computed %s, expected %s" [got; wantChecksum]))
      else
      srv_call (SLock FinalizeMu) ;;
      r <- finalize name dir id (b_data body) ;;
      srv_call (SUnlock FinalizeMu) ;;
      Ret r
    end
  end.

Definition Receive (name : string) (body : Body) (wantChecksum : string) : svc (UploadResult + GoErr) :=
  match uploadDir name with
  | inr err => Ret (inr err)
  | inl dir =>
    match (if wantChecksum <>s "" then match parseChecksum wantChecksum with inr err => Some err | inl _ => None end else None) with
    | Some err => Ret (inr err)
    | None =>
      r <- srv_call SCreateTemp ;;
      match r with
      | inr err => Ret (inr (wrapf "create temp file: %w" [] err))
      | inl id =>
        '(renamed, result) <- receive_into name dir id body wantChecksum ;;
        (if renamed : bool then Ret tt else srv_call (SClose id) ;; srv_call (SRemove (LTmp id)) ;; Ret tt) ;;
        Ret result
      end
    end
  end.

(** ** Admission *)

(** 64 MiB. *)
Definition StagingSpaceHeadroom : Z := 64 * 1024 * 1024.

(** [None] when [length] is reserved. *)
Definition Reserve (quotaBytes length : Z) : svc (option GoErr) :=
  if length <? 0 then Ret (Some (errorf "declared upload length %d is negative" [show_dec length]))
  else
  srv_call (SLock AdmissionMu) ;;
  over <- (if 0 <? quotaBytes then
             used <- UsedBytes ;;
             match used with
             | inr err => Ret (Some (wrapf "check staging quota usage: %w" [] err))
             | inl used =>
               reserved <- srv_call SLedger ;;
               Ret (if quotaBytes <? int64 (used + reserved + length)
                    then Some (tagged ErrQuotaExceeded "%w: quota %d bytes, %d already used or reserved, upload declares %d more bytes"
                                 [show_dec quotaBytes; show_dec (int64 (used + reserved)); show_dec length])
                    else None)
             end
           else Ret None) ;;
  match over with
  | Some err => srv_call (SUnlock AdmissionMu) ;; Ret (Some err)
  | None =>
    r <- srv_call (SStatfs root) ;;
    match r with
    | inr err => srv_call (SUnlock AdmissionMu) ;; Ret (Some (wrapf "check staging volume space: %w" [] err))
    | inl available =>
      reserved <- srv_call SLedger ;;
      if available <? (length + reserved mod 2 ^ 64 + StagingSpaceHeadroom) mod 2 ^ 64 then
        srv_call (SUnlock AdmissionMu) ;;
        Ret (Some (tagged ErrInsufficientSpace "%w: upload declares %d bytes, %d bytes already reserved by other uploads, %d bytes available on the staging volume"
                     [show_dec length; show_dec reserved; show_dec available]))
      else
      srv_call (SSetLedger (int64 (reserved + length))) ;;
      srv_call (SUnlock AdmissionMu) ;;
      Ret None
    end
  end.

(** The function [Reserve] returns, called once. *)
Definition release (length : Z) : svc unit :=
  srv_call (SLock AdmissionMu) ;;
  reserved <- srv_call SLedger ;;
  srv_call (SSetLedger (int64 (reserved - length))) ;;
  srv_call (SUnlock AdmissionMu).

(** ** Authentication *)

Definition NewAuthenticator (token : string) : string + GoErr := if token =s "" then inr ErrEmptyToken else inl (sha256 token).

(** [data] is the token file, or the error of reading it. *)
Definition LoadToken (path : string) (data : string + GoErr) : string + GoErr :=
  match data with
  | inr err => inr (wrapf "read token file %s: %w" [path] err)
  | inl data =>
    let token := TrimSuffix data newline in
    if token =s "" then inr (wrapf "token file %s: %w" [path] ErrEmptyToken) else inl token
  end.

Definition Check_token (tokenHash presented : string) : bool := sha256 presented =s tokenHash.

Definition bearer (authorization : string) : option string := CutPrefix authorization "Bearer ".

(** ** The server *)

Definition ChecksumHeader : string := "X-Kezio-Checksum".
Definition DefaultMaxUploadBytes : Z := 2 ^ 40.

Record uploadRequest := mkUploadRequest {
  rq_Authorization : string; rq_ContentLength : Z; rq_Checksum : string; rq_Body : string; rq_BodyErr : option GoErr }.

Inductive route := Healthz | PutUpload (name : string) | HeadUpload (name : string).

Inductive reply :=
| StatusOnly (status : Z)
| ErrorText (status : Z) (text : string)
| Size (status size : Z)
| Uploaded (status : Z) (url : string) (result : UploadResult).

Record Server := mkServer { sv_tokenHash : string; sv_maxUploadBytes : Z; sv_admission : option Z }.

(** [sv_admission] is the quota of the admission guard, if there is one. *)
Definition NewServer (tokenHash : string) (maxUploadBytes : Z) (admission : option Z) : Server :=
  mkServer tokenHash (if maxUploadBytes <=? 0 then DefaultMaxUploadBytes else maxUploadBytes) admission.

Definition IsKind (k : ErrKind) (err : GoErr) : bool := bool_decide (ekind err = k).

Definition writeUploadError (name : string) (err : GoErr) : svc reply :=
  if IsKind KInvalidName err then Ret (ErrorText 400 (emsg err))
  else if IsKind KChecksumMismatch err then Ret (ErrorText 422 (emsg err))
  else if IsKind KNameConflict err then Ret (ErrorText 409 (emsg err))
  else if IsKind KMaxBytes err then Ret (ErrorText 413 "upload exceeds the maximum allowed size")
  else srv_call (SLogError (emsg err)) ;; Ret (ErrorText 500 "Internal Server Error").

(** [http.MaxBytesReader] over the body. *)
Definition max_bytes (limit : Z) (r : uploadRequest) : Body :=
  if limit <? size_of (rq_Body r)
  then mkBody (String.substring 0 (Z.to_nat limit) (rq_Body r)) (Some (mkErr KMaxBytes "http: request body too large"))
  else mkBody (rq_Body r) (rq_BodyErr r).

Definition store_upload (s : Server) (name : string) (r : uploadRequest) : svc reply :=
  res <- Receive name (max_bytes (sv_maxUploadBytes s) r) (rq_Checksum r) ;;
  match res with
  | inr err => writeUploadError name err
  | inl result => Ret (Uploaded (if ur_Idempotent result then 200 else 201) (UploadedRef (ur_Name result)) result)
  end.

Definition handleUpload (s : Server) (name : string) (r : uploadRequest) : svc reply :=
  if rq_ContentLength r <? 0 then Ret (ErrorText 411 "Content-Length is required")
  else if sv_maxUploadBytes s <? rq_ContentLength r then Ret (ErrorText 413 "upload exceeds the maximum allowed size")
  else
  match sv_admission s with
  | None => store_upload s name r
  | Some quotaBytes =>
    err <- Reserve quotaBytes (rq_ContentLength r) ;;
    match err with
    | Some err => Ret (ErrorText 507 (emsg err))
    | None =>
      answer <- store_upload s name r ;;
      release (rq_ContentLength r) ;;
      Ret answer
    end
  end.

Definition handleUploadStat (name : string) : svc reply :=
  r <- StatUpload name ;;
  match r with
  | inl size => Ret (Size 200 size)
  | inr err =>
    if IsKind KInvalidName err then Ret (ErrorText 400 (emsg err))
    else if IsKind KUploadNotComplete err then Ret (StatusOnly 404)
    else srv_call (SLogError (emsg err)) ;; Ret (StatusOnly 500)
  end.

Definition requireAuth (s : Server) (r : uploadRequest) (next : svc reply) : svc reply :=
  match bearer (rq_Authorization r) with
  | None => Ret (ErrorText 401 "Unauthorized")
  | Some token => if Check_token (sv_tokenHash s) token then next else Ret (ErrorText 401 "Unauthorized")
  end.

Definition Handler (s : Server) (rt : route) (r : uploadRequest) : svc reply :=
  match rt with
  | Healthz => Ret (StatusOnly 200)
  | PutUpload name => requireAuth s r (handleUpload s name r)
  | HeadUpload name => requireAuth s r (handleUploadStat name)
  end.

End Service.
