(* ===== verification/StagingSafety.v ===== *)
(** * StagingSafety: concurrent uploads

    Every interleaving of requests to the upload service, with any answer the
    file system may give, keeps the staging volume consistent: a completion
    marker describes the bytes next to it.  A completed upload is never changed,
    an acknowledged one is stored, and the ledger of reservations is the sum of
    the requests in flight.  A marker that is written in part, or left behind by a
    removal, breaks this. *)

From S2P Require Import Prelude Text DiskMatch Effects Concurrent Store Bootd Imports Ingest ImageService.
From stdpp Require Import relations.
Local Open Scope string_scope.
Local Open Scope list_scope.
Local Open Scope Z_scope.

(** ** The marker is read back *)

Lemma digit_value_char d : 0 <= d < 10 -> digit_value (digit_char d) = Some d /\ is_digit (digit_char d) = true.
Proof.
  intros Hd. assert (Hc : d = 0 \/ d = 1 \/ d = 2 \/ d = 3 \/ d = 4 \/ d = 5 \/ d = 6 \/ d = 7 \/ d = 8 \/ d = 9) by lia.
  by repeat destruct Hc as [->|Hc]; [..|subst].
Qed.

Lemma decimal_digits ds : ds <> [] -> Forall (fun d => 0 <= d < 10) ds -> decimal (string_of_digits ds) = Some (undigits 10 ds).
Proof.
  intros Hne Hf. unfold decimal, string_of_digits. rewrite list_ascii_of_string_of_list_ascii.
  assert (Hm : mapM digit_value (map digit_char ds) = Some ds).
  { clear Hne. induction Hf as [|d ds Hd _ IH]; [done|]. cbn. rewrite (proj1 (digit_value_char d Hd)). cbn. by rewrite IH. }
  rewrite Hm. by destruct ds.
Qed.

Lemma leading_digits_all ds t : Forall (fun d => 0 <= d < 10) ds -> leading_digits (string_of_digits ds +:+ t) = string_of_digits ds +:+ leading_digits t.
Proof.
  unfold string_of_digits. induction 1 as [|d ds Hd _ IH]; [done|]. cbn [map string_of_list_ascii].
  rewrite !append_cons. cbn [leading_digits]. rewrite (proj2 (digit_value_char d Hd)). by rewrite IH.
Qed.

Lemma Atoi_dec n : 0 <= n < 2 ^ 63 -> Atoi (show_dec n) = Some n.
Proof.
  intros Hn. unfold show_dec. destruct (Z.ltb_spec n 0); [lia|]. destruct (digits_spec 10 n) as [Hu Hf]; [lia|lia|].
  pose proof (digits_nonempty 10 n) as Hne. pose proof (decimal_digits _ Hne Hf) as Hd. rewrite Hu in Hd. clear Hu.
  destruct (digits 10 n) as [|d ds]; [done|]. apply Forall_cons in Hf as [Hd0 _].
  assert (Hc : string_of_digits (d :: ds) = String (digit_char d) (string_of_digits ds)) by done.
  unfold Atoi. rewrite Hc in *. assert (Hs : exists a, digit_char d = a /\ a <> "+"%char /\ a <> "-"%char).
  { exists (digit_char d). split; [done|]. split; intros He; pose proof (proj2 (digit_value_char d Hd0)) as Hdig; by rewrite He in Hdig. }
  destruct Hs as (a & Ha & Hp & Hm). rewrite Ha in *.
  assert (Hmatch : (match String a (string_of_digits ds) with String "+" rest => (1, rest) | String "-" rest => (-1, rest) | _ => (1, String a (string_of_digits ds)) end)
    = (1, String a (string_of_digits ds))) by (destruct a as [[] [] [] [] [] [] [] []]; done).
  rewrite Hmatch. rewrite Hd. cbn [mbind option_bind]. replace (1 * n) with n by lia.
  by rewrite (proj2 (Z.leb_le _ _)), (proj2 (Z.ltb_lt _ _)) by lia.
Qed.

Lemma scan_dec n : 0 <= n < 2 ^ 63 -> scan_d (show_dec n) = Some n.
Proof.
  intros Hn. pose proof (Atoi_dec n Hn) as Ha. unfold show_dec in *. destruct (Z.ltb_spec n 0); [lia|]. destruct (digits_spec 10 n) as [_ Hf]; [lia|lia|].
  pose proof (digits_nonempty 10 n) as Hne. pose proof (leading_digits_all _ "" Hf) as Hl.
  rewrite string_app_nil in Hl. cbn [leading_digits] in Hl. rewrite string_app_nil in Hl.
  destruct (digits 10 n) as [|d ds]; [done|]. apply Forall_cons in Hf as [Hd0 _].
  assert (Hc : string_of_digits (d :: ds) = String (digit_char d) (string_of_digits ds)) by done.
  unfold scan_d. rewrite Hl, Hc in *. pose proof (proj2 (digit_value_char d Hd0)) as Hdig.
  destruct (digit_char d) as [[] [] [] [] [] [] [] []]; done.
Qed.

(** A character that neither begins nor ends a space in UTF-8. *)
Definition solid (c : ascii) : Prop := forall l,
  strip_any space_encodings (nat_of_ascii c :: l) = None /\ strip_any (map (@rev nat) space_encodings) (nat_of_ascii c :: l) = None.

Lemma hex_solid c : is_hex c = true -> solid c.
Proof. intros Hc l. by destruct c as [[] [] [] [] [] [] [] []]. Qed.

Lemma nat_ascii_list l : map ascii_of_nat (map nat_of_ascii l) = l.
Proof. rewrite map_map. erewrite map_ext; [apply map_id|]. intros a. apply ascii_nat_embedding. Qed.

(** A line between two such characters is what is left of it with its newline. *)
Lemma TrimSpace_line a s z : solid a -> solid z -> TrimSpace (String a (s +:+ String z newline)) = String a (s +:+ String z "").
Proof.
  intros Ha Hz. unfold TrimSpace. cbv zeta. cbn [list_ascii_of_string]. rewrite list_ascii_app. cbn [list_ascii_of_string newline].
  set (l := list_ascii_of_string s). cbn [map length trim_left]. rewrite (proj1 (Ha _)).
  rewrite map_app. cbn [map]. cbn [rev]. rewrite rev_app_distr. cbn [rev app length]. rewrite length_app. cbn [length].
  replace (length (map nat_of_ascii l) + 2)%nat with (S (S (length (map nat_of_ascii l)))) by lia. cbn [trim_left].
  change (nat_of_ascii (ascii_of_nat 10)) with 10%nat.
  assert (Hnl : forall t, strip_any (map (@rev nat) space_encodings) (10%nat :: t) = Some t) by done. rewrite Hnl. cbn [trim_left].
  rewrite (proj2 (Hz _)). cbn [rev]. rewrite rev_app_distr, rev_involutive. cbn [rev app].
  cbn [map]. rewrite map_app, nat_ascii_list. cbn [map]. rewrite !ascii_nat_embedding. cbn [string_of_list_ascii].
  rewrite string_of_list_ascii_app. subst l. by rewrite string_of_list_ascii_of_string.
Qed.

Lemma string_snoc s : s <> "" -> exists s' z, s = s' +:+ String z "".
Proof.
  induction s as [|a s IH]; [done|]. intros _. destruct s as [|b s]; [by exists "", a|].
  destruct IH as (s' & z & E); [done|]. exists (String a s'), z. by rewrite append_cons, <- E.
Qed.

Section Marker.
Context (sha256 : string -> string).

(** A hexadecimal digest. *)
Definition hex_digests : Prop := forall data, sha256 data <> "" /\ forallb is_hex (list_ascii_of_string (sha256 data)) = true.

Definition marker (data : string) : uploadMeta := mkMeta (size_of data) (checksum_of sha256 data).

Lemma marker_roundtrip dir data : hex_digests -> size_of data < 2 ^ 63 -> parse_meta dir (format_meta (marker data)) = inl (marker data).
Proof.
  intros Hx Hs. destruct (Hx data) as [Hne Hhex]. destruct (string_snoc _ Hne) as (h & z & Ez).
  assert (Hz : solid z).
  { apply hex_solid. rewrite Ez, list_ascii_app in Hhex. rewrite forallb_app in Hhex. apply andb_true_iff in Hhex as [_ Hz]. cbn in Hz.
    by rewrite andb_true_r in Hz. }
  assert (Hn : 0 <= size_of data) by (unfold size_of; lia).
  assert (Hd : exists a s, show_dec (size_of data) = String a s /\ solid a).
  { unfold show_dec. destruct (Z.ltb_spec (size_of data) 0); [lia|]. destruct (digits_spec 10 (size_of data)) as [_ Hf]; [lia|lia|].
    pose proof (digits_nonempty 10 (size_of data)) as Hnn. destruct (digits 10 (size_of data)) as [|d ds]; [done|].
    apply Forall_cons in Hf as [Hd _]. exists (digit_char d), (string_of_digits ds). split; [done|]. apply hex_solid.
    apply (digits_forall (fun d => is_hex (digit_char d)) d eq_refl). lia. }
  destruct Hd as (a & s & Ea & Ha).
  assert (Hf : format_meta (marker data) = show_dec (size_of data) +:+ String " " (checksum_of sha256 data +:+ newline)).
  { unfold format_meta, marker. cbn [um_SizeBytes um_Checksum].
    change (sprintf "%d %s" [show_dec (size_of data); checksum_of sha256 data])
      with (show_dec (size_of data) +:+ String " " (checksum_of sha256 data +:+ "")).
    by rewrite string_app_nil, string_app_assoc, append_cons. }
  unfold parse_meta. rewrite Hf, Ea, append_cons.
  assert (Hc : checksum_of sha256 data = (ChecksumAlgorithm +:+ ":" +:+ h) +:+ String z "") by (unfold checksum_of; by rewrite Ez, !string_app_assoc).
  assert (Hin : s +:+ String " " (checksum_of sha256 data +:+ newline) = (s +:+ String " " (ChecksumAlgorithm +:+ ":" +:+ h)) +:+ String z newline).
  { rewrite Hc, !string_app_assoc. by rewrite !append_cons, !string_app_assoc. }
  rewrite Hin, TrimSpace_line by done.
  assert (Hout : String a ((s +:+ String " " (ChecksumAlgorithm +:+ ":" +:+ h)) +:+ String z "") = show_dec (size_of data) +:+ String " " (checksum_of sha256 data)).
  { rewrite Ea, append_cons, Hc, !string_app_assoc. by rewrite !append_cons, !string_app_assoc. }
  rewrite Hout, cut_at_app by (by apply show_dec_free). by rewrite scan_dec.
Qed.
End Marker.

(** ** The shared state *)

Record world := mkWorld { files : gmap loc string; finalizer : option nat; admitter : option nat; ledger : Z }.

#[export] Instance eta_world : Eta world := fun w => mkWorld (files w) (finalizer w) (admitter w) (ledger w).

Definition with_files (f : gmap loc string -> gmap loc string) (w : world) : world := w <| files := f (files w) |>.

(** What a call may answer and do.  Files fail as they please: a write may leave
    any bytes in a temporary file, any call may return an error.  With [torn] a
    failed [os.WriteFile] may leave any bytes in its file too, otherwise it leaves
    the file as it was. *)
Definition act (torn : bool) (i : nat) (w : world) (e : srv) : srv_resp e -> world -> Prop :=
  match e return srv_resp e -> world -> Prop with
  | SCreateTemp => fun r w' =>
      match r with
      | inl id => files w !! LTmp id = None /\ w' = with_files <[LTmp id := ""]> w
      | inr _ => w' = w
      end
  | SWrite id data => fun r w' => exists written, w' = with_files <[LTmp id := written]> w /\ (r = None -> written = data)
  | SReadFile l => fun r w' => w' = w /\
      match r with
      | inl data => files w !! l = Some data
      | inr err => IsNotFound err = true -> files w !! l = None
      end
  | SWriteFile l content => fun r w' =>
      match r with
      | None => w' = with_files <[l := content]> w
      | Some _ => w' = w \/ torn = true /\ exists part, w' = with_files <[l := part]> w
      end
  | SRename id name => fun r w' =>
      match r with
      | None => exists data, files w !! LTmp id = Some data /\ w' = with_files (fun f => <[LBin name := data]> (delete (LTmp id) f)) w
      | Some _ => w' = w
      end
  | SRemove l => fun r w' => match r with None => w' = with_files (delete l) w | Some _ => w' = w end
  | SRemoveTmp id => fun r w' => match r with None => w' = with_files (delete (LTmp id)) w | Some _ => w' = w end
  | SRemoveUpload name => fun r w' =>
      match r with
      | None => w' = with_files (fun f => delete (LMeta name) (delete (LBin name) f)) w
      | Some _ => exists f, w' = with_files (fun _ => f) w /\ f ∈ [files w; delete (LBin name) (files w); delete (LMeta name) (files w)]
      end
  | SLock FinalizeMu => fun _ w' => finalizer w = None /\ w' = w <| finalizer := Some i |>
  | SUnlock FinalizeMu => fun _ w' => w' = w <| finalizer := (None : option nat) |>
  | SLock AdmissionMu => fun _ w' => admitter w = None /\ w' = w <| admitter := Some i |>
  | SUnlock AdmissionMu => fun _ w' => w' = w <| admitter := (None : option nat) |>
  | SLedger => fun r w' => r = ledger w /\ w' = w
  | SSetLedger reserved => fun _ w' => w' = w <| ledger := reserved |>
  | SMkdirAll _ | SReadDir _ | SClose _ | SStatfs _ | SLogError _ => fun _ w' => w' = w
  end.

(** ** What a request knows *)

(** In the critical section of an upload: nothing, that the name has no marker, or
    that it has these bytes and no marker. *)
Inductive fin := FFree | FHeld | FAbsent (name : string) | FRenamed (name data : string).
(** In the critical section of the ledger: nothing, or its value. *)
Inductive adm := AFree | AHeld | ARead (reserved : Z).

Record local := mkLocal {
  l_tmp : option string; l_data : option string; l_fin : fin; l_adm : adm; l_res : Z; l_seen : option (string * string) }.

#[export] Instance eta_local : Eta local := fun l => mkLocal (l_tmp l) (l_data l) (l_fin l) (l_adm l) (l_res l) (l_seen l).

Definition start : local := mkLocal None None FFree AFree 0 None.

Section Invariant.
Context (sha256 : string -> string) (B : Z).

(** Every marker describes the bytes next to it. *)
Definition consistent (f : gmap loc string) : Prop := forall name c, f !! LMeta name = Some c ->
  exists data, f !! LBin name = Some data /\ c = format_meta (marker sha256 data) /\ size_of data < 2 ^ 63.

Definition fin_ok (f : gmap loc string) (s : fin) : Prop :=
  match s with
  | FFree | FHeld => True
  | FAbsent name => f !! LMeta name = None
  | FRenamed name data => f !! LMeta name = None /\ f !! LBin name = Some data
  end.

Definition good (w : world) (i : nat) (l : local) : Prop :=
  (finalizer w = Some i <-> l_fin l <> FFree) /\ (admitter w = Some i <-> l_adm l <> AFree) /\
  (forall id, l_tmp l = Some id -> is_Some (files w !! LTmp id) /\ forall data, l_data l = Some data -> files w !! LTmp id = Some data) /\
  fin_ok (files w) (l_fin l) /\ (forall v, l_adm l = ARead v -> ledger w = v) /\ 0 <= l_res l <= B /\
  (forall name c, l_seen l = Some (name, c) -> files w !! LMeta name = Some c).

Fixpoint total (ls : list local) : Z := match ls with [] => 0 | l :: ls => l_res l + total ls end.

Definition Inv (w : world) (ls : list local) : Prop :=
  consistent (files w) /\ (forall i l, ls !! i = Some l -> good w i l) /\
  (forall i j l l' id, ls !! i = Some l -> ls !! j = Some l' -> l_tmp l = Some id -> l_tmp l' = Some id -> i = j) /\
  ledger w = total ls /\ Z.of_nat (length ls) * B < 2 ^ 63.

(** A completed upload stays as it is. *)
Definition kept (w w' : world) : Prop := forall name c, files w !! LMeta name = Some c ->
  files w' !! LMeta name = Some c /\ files w' !! LBin name = files w !! LBin name.

(** What a step of one request leaves to the others. *)
Definition frame (i : nat) (l : local) (w w' : world) : Prop :=
  (forall j, j <> i -> (finalizer w' = Some j <-> finalizer w = Some j) /\ (admitter w' = Some j <-> admitter w = Some j)) /\
  (forall id, files w' !! LTmp id = files w !! LTmp id \/ files w !! LTmp id = None \/ l_tmp l = Some id) /\
  (l_fin l = FFree -> forall name, files w' !! LMeta name = files w !! LMeta name /\ files w' !! LBin name = files w !! LBin name) /\
  (l_adm l = AFree -> ledger w' = ledger w) /\ kept w w'.

Lemma total_insert ls i l l' : ls !! i = Some l -> total (<[i := l']> ls) = total ls - l_res l + l_res l'.
Proof.
  revert i. induction ls as [|x ls IH]; intros [|i] Hi; try done; [injection Hi as ->; cbn; lia|].
  change (<[S i := l']> (x :: ls)) with (x :: <[i := l']> ls). cbn [total]. rewrite (IH i Hi). lia.
Qed.

Lemma others_good i j l lj w w' ls : frame i l w w' -> Inv w ls -> ls !! i = Some l -> ls !! j = Some lj -> j <> i -> good w' j lj.
Proof.
  intros (Hlock & Htmp & Hfin & Hadm & Hkept) (_ & Hgood & Hdis & _ & _) Hi Hj Hne.
  destruct (Hgood j lj Hj) as (G1 & G2 & G3 & G4 & G5 & G6 & G7), (Hgood i l Hi) as (I1 & I2 & _). destruct (Hlock j Hne) as [L1 L2].
  split_and!; [by rewrite L1|by rewrite L2| | | |lia..|].
  - intros id Hid. destruct (G3 id Hid) as [Hs Hd]. destruct (Htmp id) as [->|[Hn|Hl]]; [done|by rewrite Hn in Hs; destruct Hs|].
    destruct Hne. eapply Hdis; eauto.
  - assert (Hcase : l_fin l = FFree \/ l_fin lj = FFree).
    { destruct (decide (finalizer w = Some i)) as [Hi'|Hi'].
      - right. destruct (l_fin lj); [done|..]; assert (finalizer w = Some j) by (by apply G1); congruence.
      - left. destruct (l_fin l); [done|..]; destruct Hi'; by apply I1. }
    destruct Hcase as [Hf| ->]; [|done]. unfold fin_ok in *.
    destruct (l_fin lj) as [| |name|name data]; [done|done|by rewrite (proj1 (Hfin Hf name))|].
    by rewrite (proj1 (Hfin Hf name)), (proj2 (Hfin Hf name)).
  - intros v Hv. destruct (l_adm l) eqn:Ha; [rewrite Hadm by done; by apply G5|..];
      assert (admitter w = Some i) by (by apply I2); assert (admitter w = Some j) by (apply G2; congruence); congruence.
  - intros name c Hs. apply Hkept. by apply G7.
Qed.

(** A step of one request keeps the invariant. *)
Lemma staging_step i w ls l l' w' : Inv w ls -> ls !! i = Some l -> frame i l w w' -> consistent (files w') -> good w' i l' ->
  (forall id, l_tmp l' = Some id -> l_tmp l = Some id \/ files w !! LTmp id = None) -> ledger w' - l_res l' = ledger w - l_res l ->
  Inv w' (<[i := l']> ls) /\ kept w w'.
Proof.
  intros Hinv Hi Hfr Hc Hg Ht Hled. split; [|apply Hfr]. pose proof Hinv as (_ & Hgood & Hdis & Htot & Hb).
  assert (Hlen : (i < length ls)%nat) by (by eapply lookup_lt_Some). split_and!.
  - done.
  - intros j lj Hj. destruct (decide (j = i)) as [->|Hne].
    + rewrite list_lookup_insert in Hj. case_decide; [|lia]. by injection Hj as <-.
    + rewrite list_lookup_insert_ne in Hj by done. by eapply others_good.
  - assert (Hnew : forall j lj id, j <> i -> ls !! j = Some lj -> l_tmp l' = Some id -> l_tmp lj = Some id -> False).
    { intros j lj id Hne Hj Hid Hlj. destruct (Ht id Hid) as [Hold|Hn]; [destruct Hne; by eapply Hdis|].
      destruct (Hgood j lj Hj) as (_ & _ & G3 & _). destruct (G3 id Hlj) as [[? Hs] _]. congruence. }
    intros j k lj lk id Hj Hk Hidj Hidk. destruct (decide (j = i)) as [->|Hji], (decide (k = i)) as [->|Hki]; [done|..].
    + rewrite list_lookup_insert in Hj. case_decide; [|lia]. injection Hj as <-. rewrite list_lookup_insert_ne in Hk by done. by destruct (Hnew k lk id).
    + rewrite list_lookup_insert in Hk. case_decide; [|lia]. injection Hk as <-. rewrite list_lookup_insert_ne in Hj by done. by destruct (Hnew j lj id).
    + rewrite list_lookup_insert_ne in Hj, Hk by done. by eapply Hdis.
  - rewrite (total_insert ls i l l' Hi). lia.
  - by rewrite length_insert.
Qed.

Lemma total_bound ls : (forall i l, ls !! i = Some l -> 0 <= l_res l <= B) -> 0 <= total ls <= Z.of_nat (length ls) * B.
Proof.
  induction ls as [|l ls IH]; intros Hb; cbn [total length]; [lia|]. pose proof (Hb 0%nat l eq_refl) as Hl.
  assert (Hr : 0 <= total ls <= Z.of_nat (length ls) * B) by (apply IH; intros j lj Hj; by apply (Hb (S j))). lia.
Qed.

Lemma kept_refl w : kept w w.
Proof. by intros name c Hc. Qed.

Lemma frame_refl i l w : frame i l w w.
Proof. split_and!; auto using kept_refl. Qed.

(** A step that changes no state. *)
Lemma step_same i w ls l l' : Inv w ls -> ls !! i = Some l -> good w i l' -> l_tmp l' = l_tmp l -> l_res l' = l_res l ->
  Inv w (<[i := l']> ls) /\ kept w w.
Proof.
  intros Hinv Hi Hg Ht Hr. apply (staging_step i w ls l); auto using frame_refl; [by destruct Hinv|rewrite Ht; auto|lia].
Qed.

(** A step that changes temporary files only. *)
Lemma frame_tmp i l w id (f : gmap loc string -> gmap loc string) :
  (forall x, x <> LTmp id -> f (files w) !! x = files w !! x) -> files w !! LTmp id = None \/ l_tmp l = Some id ->
  frame i l w (with_files f w).
Proof.
  intros Hf Hid. unfold frame. split_and!.
  - done.
  - intros id'. cbn. destruct (decide (id' = id)) as [->|]; [auto|]. left. apply Hf. congruence.
  - intros Hfree name. cbn. by rewrite !Hf.
  - done.
  - intros name c Hc. cbn. by rewrite !Hf.
Qed.

Lemma consistent_tmp w id (f : gmap loc string -> gmap loc string) : (forall x, x <> LTmp id -> f (files w) !! x = files w !! x) ->
  consistent (files w) -> consistent (f (files w)).
Proof. intros Hf Hc name c. rewrite !Hf by done. apply Hc. Qed.

(** ** Rules for calls *)

Abbreviation safe := (ok (act false) Inv kept).

Definition idle_call (e : srv) : Prop :=
  match e with SMkdirAll _ | SReadDir _ | SClose _ | SStatfs _ | SLogError _ | SReadFile _ | SLedger => True | _ => False end.

Lemma safe_idle {A} (Q : local -> A -> Prop) l e k : idle_call e -> (forall r, safe Q l (k r)) -> safe Q l (Vis e k).
Proof.
  intros He Hk i w ls r w' Hinv Hi Ha. exists l. assert (w' = w) as -> by (destruct e; try done; by destruct Ha).
  rewrite list_insert_id by done. split_and!; auto using kept_refl.
Qed.

Lemma idle_safe {A} (Q : local -> A -> Prop) l (p : svc A) : calls idle_call p -> (forall a, Q l a) -> safe Q l p.
Proof.
  intros Hc Hq. induction p as [a|e k IH]; [exact (Hq a)|]. destruct Hc as [He Hk]. apply safe_idle; [done|]. intros r. apply IH. exact (Hk r I).
Qed.

(** A call that may change the state: what its answer leaves, and what the request knows then. *)
Definition leaves (i : nat) (w w' : world) (l l' : local) : Prop :=
  frame i l w w' /\ consistent (files w') /\ good w' i l' /\
  (forall id, l_tmp l' = Some id -> l_tmp l = Some id \/ files w !! LTmp id = None) /\ ledger w' - l_res l' = ledger w - l_res l.

Lemma safe_call {A} (Q : local -> A -> Prop) l e k :
  (forall i w ls r w', Inv w ls -> ls !! i = Some l -> good w i l -> consistent (files w) -> act false i w e r w' ->
     exists l', leaves i w w' l l' /\ safe Q l' (k r)) -> safe Q l (Vis e k).
Proof.
  intros Hcall i w ls r w' Hinv Hi Ha. pose proof Hinv as (Hc & Hgood & _).
  destruct (Hcall i w ls r w' Hinv Hi (Hgood i l Hi) Hc Ha) as (l' & (? & ? & ? & ? & ?) & Hk). exists l'.
  destruct (staging_step i w ls l l' w') as [? ?]; auto.
Qed.

Lemma leaves_refl i w l : consistent (files w) -> good w i l -> leaves i w w l l.
Proof. intros. unfold leaves. split_and!; auto using frame_refl. Qed.

Lemma leaves_same i w l l' : consistent (files w) -> good w i l' -> l_tmp l' = l_tmp l -> l_res l' = l_res l -> leaves i w w l l'.
Proof. intros ? ? Ht Hr. unfold leaves. rewrite Ht, Hr. split_and!; auto using frame_refl. Qed.

Lemma safe_read_marker {A} (Q : local -> A -> Prop) l name k : l_fin l = FHeld ->
  (forall data, size_of data < 2 ^ 63 -> safe Q (l <| l_seen := Some (name, format_meta (marker sha256 data)) |>) (k (inl (format_meta (marker sha256 data))))) ->
  (forall err, IsNotFound err = true -> safe Q (l <| l_fin := FAbsent name |>) (k (inr err))) ->
  (forall err, IsNotFound err = false -> safe Q l (k (inr err))) ->
  safe Q l (Vis (R := srv_resp) (SReadFile (LMeta name)) k).
Proof.
  intros Hh Hin Hno Herr. apply safe_call. intros i w ls r w' Hinv Hi Hg Hc [-> Hr].
  pose proof Hg as (G1 & G2 & G3 & G4 & G5 & G6 & G7). destruct r as [c|err]; [|destruct (IsNotFound err) eqn:He].
  - destruct (Hc name c Hr) as (data & _ & -> & Hs). eexists. split; [|by apply Hin]. apply leaves_same; [done| |done..].
    unfold good. cbn. split_and!; [done..|lia|lia|]. by intros ? ? [= <- <-].
  - eexists. split; [|by apply Hno]. apply leaves_same; [done| |done..].
    unfold good. cbn. split_and!; [by rewrite G1, Hh|done..|by apply Hr|done|lia|lia|done].
  - eexists. split; [|by apply Herr]. by apply leaves_refl.
Qed.

(** Rewrites the parts of [good] and [frame] that a change of one temporary file keeps. *)
Lemma good_tmp i w l l' id (f : gmap loc string -> gmap loc string) : (forall x, x <> LTmp id -> f (files w) !! x = files w !! x) ->
  good w i l -> l_fin l' = l_fin l -> l_adm l' = l_adm l -> l_res l' = l_res l -> l_seen l' = l_seen l ->
  (forall id, l_tmp l' = Some id -> is_Some (f (files w) !! LTmp id) /\ forall data, l_data l' = Some data -> f (files w) !! LTmp id = Some data) ->
  good (with_files f w) i l'.
Proof.
  intros Hf (G1 & G2 & G3 & G4 & G5 & G6 & G7) E1 E2 E3 E4 Ht. unfold good. rewrite E1, E2, E3, E4. cbn. split_and!; [done..| |done|lia|lia|].
  - unfold fin_ok in *. destruct (l_fin l); rewrite ?Hf by done; done.
  - intros name c Hs. rewrite Hf by done. by apply G7.
Qed.

Lemma insert_other (f : gmap loc string) x v y : y <> x -> <[x := v]> f !! y = f !! y.
Proof. intros. by rewrite lookup_insert_ne. Qed.
Lemma delete_other (f : gmap loc string) x y : y <> x -> delete x f !! y = f !! y.
Proof. intros. by rewrite lookup_delete_ne. Qed.
Lemma insert_at (f : gmap loc string) x v : <[x := v]> f !! x = Some v.
Proof. rewrite lookup_insert. by case_decide. Qed.

Lemma safe_create {A} (Q : local -> A -> Prop) l k : l_tmp l = None ->
  (forall id, safe Q (l <| l_tmp := Some id |> <| l_data := (None : option string) |>) (k (inl id))) -> (forall err, safe Q l (k (inr err))) ->
  safe Q l (Vis (R := srv_resp) SCreateTemp k).
Proof.
  intros Ht Hin Herr. apply safe_call. intros i w ls r w' Hinv Hi Hg Hc Ha. cbn in r, Ha.
  destruct r as [id|err]; [|subst; exists l; split; [by apply leaves_refl|done]]. destruct Ha as [Hfresh ->].
  pose proof (fun x => insert_other (files w) (LTmp id) "" x) as Hx. eexists. split; [|apply Hin]. unfold leaves. split_and!.
  - apply frame_tmp with id; auto.
  - by apply (consistent_tmp w id).
  - apply (good_tmp i w l) with id; auto. cbn. intros ? [= <-]. rewrite insert_at. split; [done|]. done.
  - cbn. intros id' [= <-]. by right.
  - done.
Qed.

Lemma safe_write {A} (Q : local -> A -> Prop) l id data k : l_tmp l = Some id ->
  safe Q (l <| l_data := Some data |>) (k None) -> (forall err, safe Q (l <| l_data := (None : option string) |>) (k (Some err))) ->
  safe Q l (Vis (R := srv_resp) (SWrite id data) k).
Proof.
  intros Ht Hin Herr. apply safe_call. intros i w ls r w' Hinv Hi Hg Hc (written & -> & Hw).
  pose proof (fun x => insert_other (files w) (LTmp id) written x) as Hx.
  exists (match r with None => l <| l_data := Some data |> | Some _ => l <| l_data := (None : option string) |> end).
  split; [|by destruct r]. unfold leaves. split_and!.
  - apply frame_tmp with id; auto.
  - by apply (consistent_tmp w id).
  - apply (good_tmp i w l) with id; auto; try by destruct r. intros id' Hid'. assert (id' = id) as -> by (destruct r; cbn in Hid'; congruence).
    rewrite insert_at. split; [done|]. destruct r; cbn; [done|]. intros d [= <-]. by rewrite Hw.
  - intros id' Hid'. left. by destruct r.
  - by destruct r.
Qed.

Lemma safe_remove_tmp {A} (Q : local -> A -> Prop) l id k : l_tmp l = Some id ->
  (forall r, safe Q (l <| l_tmp := (None : option string) |>) (k r)) -> safe Q l (Vis (R := srv_resp) (SRemove (LTmp id)) k).
Proof.
  intros Ht Hin. apply safe_call. intros i w ls r w' Hinv Hi Hg Hc Ha. cbn in r, Ha. eexists. split; [|apply Hin].
  pose proof (fun x => delete_other (files w) (LTmp id) x) as Hx. pose proof Hg as (G1 & G2 & G3 & G4 & G5 & G6 & G7).
  destruct r as [err|]; subst; unfold leaves; split_and!; auto using frame_refl; try done; try (unfold good; cbn; by split_and!).
  - apply frame_tmp with id; auto.
  - by apply (consistent_tmp w id).
  - apply (good_tmp i w l) with id; auto. done.
Qed.

(** ** Rules for the mutexes and the ledger *)

(** Who holds a mutex before and after a call of its holder. *)
Ltac mutexes w := unfold leaves, frame, good; cbn; split_and!; try done; try lia; eauto;
  try (intros j Hj; match goal with H : ?f w = _ |- _ => rewrite H end); repeat split; intros; try done; try congruence; auto.

Lemma safe_lock_fin {A} (Q : local -> A -> Prop) l k : l_fin l = FFree ->
  safe Q (l <| l_fin := FHeld |>) (k tt) -> safe Q l (Vis (R := srv_resp) (SLock FinalizeMu) k).
Proof.
  intros Hf Hin. apply safe_call. intros i w ls [] w' Hinv Hi (G1 & G2 & G3 & G4 & G5 & G6 & G7) Hc [Hfree ->].
  eexists. split; [|done]. mutexes w.
Qed.

Lemma safe_unlock_fin {A} (Q : local -> A -> Prop) l k : l_fin l <> FFree ->
  safe Q (l <| l_fin := FFree |>) (k tt) -> safe Q l (Vis (R := srv_resp) (SUnlock FinalizeMu) k).
Proof.
  intros Hf Hin. apply safe_call. intros i w ls [] w' Hinv Hi (G1 & G2 & G3 & G4 & G5 & G6 & G7) Hc ->.
  eexists. split; [|done]. assert (Hheld : finalizer w = Some i) by (by apply G1). mutexes w.
Qed.

Lemma safe_lock_adm {A} (Q : local -> A -> Prop) l k : l_adm l = AFree ->
  safe Q (l <| l_adm := AHeld |>) (k tt) -> safe Q l (Vis (R := srv_resp) (SLock AdmissionMu) k).
Proof.
  intros Hf Hin. apply safe_call. intros i w ls [] w' Hinv Hi (G1 & G2 & G3 & G4 & G5 & G6 & G7) Hc [Hfree ->].
  eexists. split; [|done]. mutexes w.
Qed.

Lemma safe_unlock_adm {A} (Q : local -> A -> Prop) l k : l_adm l <> AFree ->
  safe Q (l <| l_adm := AFree |>) (k tt) -> safe Q l (Vis (R := srv_resp) (SUnlock AdmissionMu) k).
Proof.
  intros Hf Hin. apply safe_call. intros i w ls [] w' Hinv Hi (G1 & G2 & G3 & G4 & G5 & G6 & G7) Hc ->.
  eexists. split; [|done]. assert (Hheld : admitter w = Some i) by (by apply G2). mutexes w.
Qed.

Lemma safe_ledger {A} (Q : local -> A -> Prop) l k : l_adm l <> AFree ->
  (forall v, 0 <= v < 2 ^ 63 -> safe Q (l <| l_adm := ARead v |>) (k v)) -> safe Q l (Vis (R := srv_resp) SLedger k).
Proof.
  intros Hf Hin. apply safe_call. intros i w ls v w' Hinv Hi (G1 & G2 & G3 & G4 & G5 & G6 & G7) Hc [-> ->].
  eexists. split; [|apply Hin]. 
  - apply leaves_same; [done| |done..]. assert (Hheld : admitter w = Some i) by (by apply G2).
    unfold good. cbn. split_and!; [done|done|done|done| |lia|lia|done]. by intros v [= <-].
  - destruct Hinv as (_ & Hgood & _ & -> & Hb). pose proof (total_bound ls (fun i l Hl => proj1 (proj2 (proj2 (proj2 (proj2 (proj2 (Hgood i l Hl)))))))). lia.
Qed.

(** A reservation of [d] bytes made or given back. *)
Lemma safe_set_ledger {A} (Q : local -> A -> Prop) l v d k : l_adm l = ARead v -> 0 <= l_res l + d <= B ->
  safe Q (l <| l_adm := AHeld |> <| l_res := l_res l + d |>) (k tt) -> safe Q l (Vis (R := srv_resp) (SSetLedger (int64 (v + d))) k).
Proof.
  intros Hf Hd Hin. apply safe_call. intros i w ls [] w' Hinv Hi (G1 & G2 & G3 & G4 & G5 & G6 & G7) Hc ->.
  pose proof (G5 v Hf) as Hv. destruct Hinv as (_ & Hgood & _ & Htot & Hb).
  assert (Hrange : 0 <= v + d < 2 ^ 63).
  { rewrite <- Hv, Htot. assert (Hl : (i < length ls)%nat) by (by eapply lookup_lt_Some).
    pose proof (total_insert ls i l (l <| l_res := l_res l + d |>) Hi) as Hins. cbn in Hins.
    pose proof (total_bound (<[i := l <| l_res := l_res l + d |>]> ls)) as Hbound. rewrite length_insert in Hbound.
    assert (0 <= total (<[i := l <| l_res := l_res l + d |>]> ls) <= Z.of_nat (length ls) * B); [|lia].
    apply Hbound. intros j lj Hj. rewrite list_lookup_insert_Some in Hj. destruct Hj as [(_ & <- & _)|[_ Hj]]; [done|]. apply (Hgood j lj Hj). }
  rewrite int64_id by lia. eexists. split; [|done]. unfold leaves, frame, good. cbn.
  assert (Hheld : admitter w = Some i) by (apply G2; congruence). rewrite Hf in *. split_and!; try done; auto; lia.
Qed.

(** ** Rules for a named upload, in its critical section *)

(** The files of one unmarked upload may change. *)
Lemma frame_name i l w name (f : gmap loc string -> gmap loc string) :
  (forall x, x <> LBin name -> x <> LMeta name -> (forall id, x = LTmp id -> l_tmp l <> Some id) -> f (files w) !! x = files w !! x) ->
  files w !! LMeta name = None -> l_fin l <> FFree -> frame i l w (with_files f w).
Proof.
  intros Hf Hn Hfin. assert (Hother : forall n, n <> name -> f (files w) !! LBin n = files w !! LBin n /\ f (files w) !! LMeta n = files w !! LMeta n).
  { intros n Hne. split; apply Hf; congruence. }
  unfold frame. cbn. split_and!; try done.
  - intros id. destruct (decide (l_tmp l = Some id)); [auto|]. left. apply Hf; [congruence..|]. by intros ? [= <-].
  - intros n c Hc. cbn. destruct (decide (n = name)) as [->|Hne]; [congruence|]. destruct (Hother n Hne) as [-> ->]. done.
Qed.

Lemma safe_rename {A} (Q : local -> A -> Prop) l id name data k : l_fin l = FAbsent name -> l_tmp l = Some id -> l_data l = Some data ->
  safe Q (l <| l_fin := FRenamed name data |> <| l_tmp := (None : option string) |>) (k None) -> (forall err, safe Q l (k (Some err))) ->
  safe Q l (Vis (R := srv_resp) (SRename id name) k).
Proof.
  intros Hf Ht Hd Hin Herr. apply safe_call. intros i w ls r w' Hinv Hi Hg Hc Ha. cbn in r, Ha.
  destruct r as [err|]; [subst; exists l; split; [by apply leaves_refl|done]|]. destruct Ha as (data' & Hdata & ->).
  pose proof Hg as (G1 & G2 & G3 & G4 & G5 & G6 & G7). assert (data' = data) as -> by (destruct (G3 id Ht) as [_ H]; specialize (H _ Hd); congruence).
  rewrite Hf in G4. cbn in G4. eexists. split; [|exact Hin]. unfold leaves. split_and!; try done.
  - apply frame_name with name; [|done|congruence]. intros x Hb _ Hx. rewrite insert_other by done. apply delete_other. by intros ->; destruct (Hx id).
  - intros n c. cbn. rewrite insert_other, delete_other by done. intros Hn. destruct (Hc n c Hn) as (d & Hbin & Hrest). exists d.
    assert (n <> name) by congruence. by rewrite insert_other, delete_other by congruence.
  - unfold good. cbn. split_and!; try done; try lia; [by rewrite G1, Hf|by rewrite insert_other, delete_other|by rewrite insert_at|].
    intros n c Hs. rewrite insert_other, delete_other by done. by apply G7.
Qed.

Lemma safe_mark {A} (Q : local -> A -> Prop) l name data k : l_fin l = FRenamed name data -> size_of data < 2 ^ 63 ->
  safe Q (l <| l_fin := FHeld |> <| l_seen := Some (name, format_meta (marker sha256 data)) |>) (k None) -> (forall err, safe Q l (k (Some err))) ->
  safe Q l (Vis (R := srv_resp) (SWriteFile (LMeta name) (format_meta (marker sha256 data))) k).
Proof.
  intros Hf Hs Hin Herr. apply safe_call. intros i w ls r w' Hinv Hi Hg Hc Ha. cbn in r, Ha.
  destruct r as [err|]; [destruct Ha as [->|[? _]]; [exists l; split; [by apply leaves_refl|done]|done]|]. subst.
  pose proof Hg as (G1 & G2 & G3 & G4 & G5 & G6 & G7). rewrite Hf in G4. destruct G4 as [Hn Hb]. eexists. split; [|exact Hin].
  unfold leaves. split_and!; try done.
  - apply frame_name with name; [|done|congruence]. intros x _ Hx _. by apply insert_other.
  - intros n c. cbn. destruct (decide (n = name)) as [->|Hne].
    + rewrite insert_at. intros [= <-]. exists data. by rewrite insert_other.
    + rewrite !insert_other by congruence. apply Hc.
  - unfold good. cbn. split_and!; try done; try lia; [by rewrite G1, Hf| |by intros n c [= <- <-]; rewrite insert_at].
    intros id Hid. rewrite insert_other by done. by apply G3.
  - cbn. auto.
Qed.

Lemma safe_remove_bin {A} (Q : local -> A -> Prop) l name data k : l_fin l = FRenamed name data ->
  (forall r, safe Q (l <| l_fin := FAbsent name |>) (k r)) -> safe Q l (Vis (R := srv_resp) (SRemove (LBin name)) k).
Proof.
  intros Hf Hin. apply safe_call. intros i w ls r w' Hinv Hi Hg Hc Ha. cbn in r, Ha. eexists. split; [|apply Hin].
  pose proof Hg as (G1 & G2 & G3 & G4 & G5 & G6 & G7). rewrite Hf in G4. destruct G4 as [Hn Hb].
  destruct r as [err|]; subst; [apply leaves_same; try done; unfold good; cbn; split_and!; try done; try lia; by rewrite G1, Hf|].
  unfold leaves. split_and!; try done.
  - apply frame_name with name; [|done|congruence]. intros x Hx _ _. by apply delete_other.
  - intros n c. cbn. rewrite delete_other by done. intros Hm. assert (n <> name) by congruence. rewrite delete_other by congruence. by apply Hc.
  - unfold good. cbn. split_and!; try done; try lia; [by rewrite G1, Hf| |by rewrite delete_other|].
    + intros id Hid. rewrite delete_other by done. by apply G3.
    + intros n c Hsn. rewrite delete_other by done. by apply G7.
  - cbn. auto.
Qed.

(** ** The operations *)

Context (IsDNS1123Label : string -> list string) (root : string) (Hhex : hex_digests sha256) (HB : 0 <= B < 2 ^ 63).

(** An acknowledged upload: bytes with the reported size and checksum, the
    checksum of the bytes received, are stored and marked as complete. *)
Definition stored (f : gmap loc string) (data : string) (u : UploadResult) : Prop :=
  exists bytes, f !! LBin (ur_Name u) = Some bytes /\ f !! LMeta (ur_Name u) = Some (format_meta (marker sha256 bytes)) /\
    ur_SizeBytes u = size_of bytes /\ ur_Checksum u = checksum_of sha256 bytes /\ EqualFold (ur_Checksum u) (checksum_of sha256 data) = true.

Definition seen_stored (data : string) (u : UploadResult) (l : local) : Prop :=
  exists bytes, l_seen l = Some (ur_Name u, format_meta (marker sha256 bytes)) /\ size_of bytes < 2 ^ 63 /\
    ur_SizeBytes u = size_of bytes /\ ur_Checksum u = checksum_of sha256 bytes /\ EqualFold (ur_Checksum u) (checksum_of sha256 data) = true.

Definition received (name : string) (body : Body) (want : string) (u : UploadResult) (l : local) : Prop :=
  ur_Name u = name /\ seen_stored (b_data body) u l /\ b_err body = None /\
  (want = "" \/ EqualFold (checksum_of sha256 (b_data body)) want = true).

Lemma finalize_safe l name dir id data : l_fin l = FHeld -> l_tmp l = Some id -> l_data l = Some data -> size_of data < 2 ^ 63 ->
  safe (fun l' r => l_fin l' <> FFree /\ l_adm l' = l_adm l /\ l_res l' = l_res l /\ l_tmp l' = (if r.1 : bool then None else Some id) /\
                    (forall u, r.2 = inl u -> ur_Name u = name /\ seen_stored data u l'))
    l (finalize sha256 root name dir id data).
Proof.
  intros Hf Ht Hd Hs. unfold finalize, readMeta. cbn [bind call]. apply safe_read_marker; [done| | |].
  - intros bytes Hb. cbn [bind]. rewrite marker_roundtrip by done. cbn [ok]. split_and!; try done; [cbn; congruence|].
    intros u. cbn [snd]. change (um_Checksum (marker sha256 bytes)) with (checksum_of sha256 bytes).
    destruct (EqualFold (checksum_of sha256 bytes) (checksum_of sha256 data)) eqn:He; [|by intros [=]]. intros [= <-]. split; [done|]. by exists bytes.
  - intros err He. cbn [bind]. rewrite He. cbn [negb bind call]. apply safe_idle; [done|]. intros [e|]; [cbn; by split_and!|].
    cbn [bind call]. apply (safe_rename _ _ id name data); [done..| |by intros e; cbn; split_and!].
    unfold writeMeta. cbn [bind call]. apply (safe_mark _ _ name data); try done.
    + cbn. split_and!; try done. intros u [= <-]. split; [done|]. exists data. split_and!; try done. apply String.eqb_refl.
    + intros e. cbn [bind call]. apply (safe_remove_bin _ _ name data); [done|]. intros r. cbn. by split_and!.
  - intros err He. cbn [bind]. rewrite He. cbn. split_and!; try done. congruence.
Qed.

Lemma receive_into_safe l name dir id body want : l_fin l = FFree -> l_tmp l = Some id -> (b_err body = None -> size_of (b_data body) < 2 ^ 63) ->
  safe (fun l' r => l_fin l' = FFree /\ l_adm l' = l_adm l /\ l_res l' = l_res l /\ l_tmp l' = (if r.1 : bool then None else Some id) /\
                    (forall u, r.2 = inl u -> received name body want u l'))
    l (receive_into sha256 root name dir id body want).
Proof.
  intros Hf Ht Hs. unfold receive_into. cbn [bind call]. apply safe_write; [done| |by intros err; cbn; split_and!].
  destruct (b_err body) as [err|] eqn:He; [cbn; by split_and!|]. cbn [bind call]. apply safe_idle; [done|].
  intros [err|]; [cbn; by split_and!|]. cbv zeta. destruct (_ && _) eqn:Hw; [cbn; by split_and!|].
  assert (Hwant : want = "" \/ EqualFold (checksum_of sha256 (b_data body)) want = true).
  { apply andb_false_iff in Hw as [Hw|Hw]; [left|right; by apply negb_false_iff in Hw].
    apply negb_false_iff in Hw. by apply String.eqb_eq in Hw. }
  cbn [bind call]. apply safe_lock_fin; [done|]. cbn [bind]. eapply ok_seq; [by apply finalize_safe; auto|].
  intros l' [renamed res] (Hfin & Hadm & Hres & Htmp & Hu). cbn [bind call]. apply safe_unlock_fin; [done|]. cbn [bind ok].
  split_and!; try done. intros u Hr. destruct (Hu u Hr) as [Hn Hst]. by split_and!.
Qed.

Definition ready (l : local) : Prop := l_tmp l = None /\ l_fin l = FFree /\ l_adm l = AFree.

Lemma Receive_safe l name body want : ready l -> (b_err body = None -> size_of (b_data body) < 2 ^ 63) ->
  safe (fun l' r => ready l' /\ l_res l' = l_res l /\ forall u, r = inl u -> received name body want u l')
    l (Receive sha256 IsDNS1123Label root name body want).
Proof.
  intros (Ht & Hf & Ha) Hs. unfold Receive. destruct (uploadDir _ _ _) as [dir|err]; [|cbn; by split_and!].
  destruct (if want <>s "" then _ else _) as [err|]; [cbn; by split_and!|]. cbn [bind call]. apply safe_create; [done| |by intros err; cbn; split_and!].
  intros id. eapply ok_seq; [by apply receive_into_safe|]. intros l' [renamed res] (Hfin & Hadm & Hres & Htmp & Hu). cbn [fst snd] in *. cbn in Hadm, Hres. rewrite Ha in Hadm.
  destruct renamed; cbn [bind call]; [cbn; by split_and!|]. apply safe_idle; [done|]. intros r. cbn [bind call].
  apply safe_remove_tmp; [done|]. intros r'. cbn. by split_and!.
Qed.

Lemma UsedBytes_idle : calls idle_call (UsedBytes root).
Proof.
  apply calls_vis; [done|]. intros [entries|err]; [|apply calls_ret]. generalize 0.
  induction entries as [|e entries IH]; intros n; [apply calls_ret|]. cbn. destruct (_ || _); [apply IH|].
  apply calls_vis; [done|]. intros [data|err]; cbn; [destruct (parse_meta _ _) as [m|err]; [apply IH|]|];
    (destruct (IsNotFound err); [apply IH|apply calls_ret]).
Qed.

Lemma StatUpload_idle name : calls idle_call (StatUpload IsDNS1123Label root name).
Proof.
  unfold StatUpload. destruct (uploadDir _ _ _); [|apply calls_ret]. apply calls_vis; [done|]. intros [data|err]; apply calls_ret.
Qed.

Lemma Reserve_safe l quota n : ready l -> l_res l = 0 -> n <= B ->
  safe (fun l' r => ready l' /\ l_res l' = match r with None => n | Some _ => 0 end) l (Reserve root quota n).
Proof.
  intros (Ht & Hf & Ha) Hr Hn. unfold Reserve. destruct (Z.ltb_spec n 0); [cbn; by split_and!|]. cbn [bind call].
  apply safe_lock_adm; [done|]. cbn [bind].
  apply (ok_seq _ _ _ (fun l' _ => l' = l <| l_adm := AHeld |>)).
  { apply idle_safe; [|done]. destruct (0 <? quota); [|apply calls_ret]. apply calls_bind; [apply UsedBytes_idle|].
    intros [used|err]; [|apply calls_ret]. apply calls_vis; [done|]. intros r. apply calls_ret. }
  intros l' over ->. destruct over as [err|]; cbn [bind call]; [by apply safe_unlock_adm; cbn; [|split_and!]|].
  apply safe_idle; [done|]. intros [available|err]; cbn [bind call]; [|by apply safe_unlock_adm; cbn; [|split_and!]].
  apply safe_ledger; [done|]. intros v Hv. destruct (_ <? _); cbn [bind call]; [by apply safe_unlock_adm; cbn; [|split_and!]|].
  apply safe_set_ledger; [done|cbn; lia|]. cbn [bind call]. apply safe_unlock_adm; [done|]. cbn. split_and!; try done. lia.
Qed.

Lemma release_safe l n : ready l -> l_res l = n ->
  safe (fun l' _ => ready l' /\ l_res l' = 0 /\ l_seen l' = l_seen l) l (release n).
Proof.
  intros (Ht & Hf & Ha) Hr. unfold release. cbn [bind call]. apply safe_lock_adm; [done|]. cbn [bind call].
  apply safe_ledger; [done|]. intros v Hv. cbn [bind call]. unfold Z.sub. apply safe_set_ledger; [done|cbn; lia|].
  cbn [bind call]. apply safe_unlock_adm; [done|]. cbn. split_and!; try done. lia.
Qed.

Lemma max_bytes_none limit r : b_err (max_bytes limit r) = None ->
  b_data (max_bytes limit r) = rq_Body r /\ rq_BodyErr r = None /\ size_of (rq_Body r) <= limit.
Proof. unfold max_bytes. destruct (Z.ltb_spec limit (size_of (rq_Body r))); [done|]. by intros. Qed.

Context (s : Server) (Hmax : sv_maxUploadBytes s = B).

(** What an acknowledgement says about its request. *)
Definition genuine (rt : route) (r : uploadRequest) (u : UploadResult) : Prop :=
  rt = PutUpload (ur_Name u) /\ (exists token, bearer (rq_Authorization r) = Some token /\ Check_token sha256 (sv_tokenHash s) token = true) /\
  rq_BodyErr r = None /\ size_of (rq_Body r) <= sv_maxUploadBytes s /\
  (rq_Checksum r = "" \/ EqualFold (checksum_of sha256 (rq_Body r)) (rq_Checksum r) = true).

Definition acked (r : uploadRequest) (a : reply) (P : UploadResult -> Prop) : Prop := forall status url u, a = Uploaded status url u -> P u.

Lemma store_upload_safe l name r : ready l ->
  safe (fun l' a => ready l' /\ l_res l' = l_res l /\ acked r a (fun u => received name (max_bytes (sv_maxUploadBytes s) r) (rq_Checksum r) u l'))
    l (store_upload sha256 IsDNS1123Label root s name r).
Proof.
  intros Hl. unfold store_upload. eapply ok_seq.
  { apply Receive_safe; [done|]. intros He. destruct (max_bytes_none _ _ He) as (-> & _ & ?). lia. }
  intros l' [u|err] (Hr & Hres & Hu); cbn [ok]; [split_and!; try done; intros ? ? ? [= <- <- <-]; by apply Hu|].
  unfold writeUploadError. do 4 (destruct (IsKind _ _); [by split_and!|]). apply safe_idle; [done|]. intros _. by cbn; split_and!.
Qed.

Lemma handleUpload_safe l name r : ready l -> l_res l = 0 ->
  safe (fun l' a => ready l' /\ l_res l' = 0 /\ acked r a (fun u => received name (max_bytes (sv_maxUploadBytes s) r) (rq_Checksum r) u l'))
    l (handleUpload sha256 IsDNS1123Label root s name r).
Proof.
  intros Hl Hr. unfold handleUpload. destruct (Z.ltb_spec (rq_ContentLength r) 0); [by split_and!|].
  destruct (Z.ltb_spec (sv_maxUploadBytes s) (rq_ContentLength r)); [by split_and!|]. destruct (sv_admission s) as [quota|].
  - eapply ok_seq; [apply Reserve_safe; [done..|lia]|]. intros l1 [err|] [Hl1 Hr1]; [by split_and!|].
    eapply ok_seq; [by apply store_upload_safe|]. intros l2 a (Hl2 & Hr2 & Hu). rewrite Hr1 in Hr2.
    eapply ok_seq; [by apply release_safe|]. intros l3 _ (Hl3 & Hr3 & Hs). cbn [ok]. split_and!; try done.
    intros status url u Ha. destruct (Hu status url u Ha) as (? & (bytes & Hb & ?) & ?).
    split; [done|split; [|done]]. exists bytes. by rewrite Hs.
  - eapply ok_mono; [by apply store_upload_safe|]. cbv beta. intros l' a (? & -> & ?). by split_and!.
Qed.

(** The answer is not an acknowledgement. *)
Ltac refused := cbn [ok bind]; split; [repeat split|]; split; [done|]; intros ? ? ? [=].

Lemma Handler_safe rt r :
  safe (fun l' a => ready l' /\ l_res l' = 0 /\ acked r a (fun u => genuine rt r u /\ seen_stored (rq_Body r) u l'))
    start (Handler sha256 IsDNS1123Label root s rt r).
Proof.
  unfold Handler. destruct rt as [|name|name]; [refused|..]; unfold requireAuth;
    (destruct (bearer _) as [token|] eqn:Hb; [|refused]);
    (destruct (Check_token _ _ _) eqn:Hc; [|refused]).
  - eapply ok_mono; [by apply handleUpload_safe|]. cbv beta. intros l' a (? & ? & Ha). split_and!; try done.
    intros status url u E. destruct (Ha status url u E) as (Hn & Hs & He & Hw). destruct (max_bytes_none _ _ He) as (Hd & Hbe & Hsz).
    rewrite Hd in *. split; [|done]. unfold genuine. rewrite Hn, Hb. split_and!; try done. by exists token.
  - unfold handleUploadStat. apply (ok_seq _ _ _ (fun l' _ => l' = start)); [apply idle_safe; [apply StatUpload_idle|done]|].
    intros l' [size|err] ->; [refused|]. do 2 (destruct (IsKind _ _); [refused|]).
    apply safe_idle; [done|]. intros _. refused.
Qed.
End Invariant.

(** ** All requests together *)

Lemma kept_trans w1 w2 w3 : kept w1 w2 -> kept w2 w3 -> kept w1 w3.
Proof.
  intros H1 H2 name c Hc. destruct (H1 name c Hc) as [Hc' Hb]. destruct (H2 name c Hc') as [Hc'' Hb']. split; [done|congruence].
Qed.

Lemma kept_rtc w w' : rtc kept w w' -> kept w w'.
Proof. induction 1; [apply kept_refl|by eapply kept_trans]. Qed.

Lemma total_zero ls : (forall i l, ls !! i = Some l -> l_res l = 0) -> total ls = 0.
Proof.
  induction ls as [|l ls IH]; intros H; [done|]. cbn. rewrite (H 0%nat l eq_refl). rewrite IH; [done|]. intros i l' Hi. exact (H (S i) l' Hi).
Qed.

Lemma start_inv sha256 B w n : 0 <= B -> Z.of_nat n * B < 2 ^ 63 -> consistent sha256 (files w) -> finalizer w = None -> admitter w = None ->
  ledger w = 0 -> Inv sha256 B w (replicate n start).
Proof.
  intros HB Hn Hc Hf Ha Hl. assert (Hs : forall i l, replicate n start !! i = Some l -> l = start).
  { intros i l Hi. by apply lookup_replicate_1 in Hi as [-> _]. }
  unfold Inv. rewrite length_replicate. split_and!; try done.
  - intros i l Hi. rewrite (Hs i l Hi). unfold good. rewrite Hf, Ha. cbn. split_and!; done.
  - intros i j l l' id Hi Hj. by rewrite (Hs i l Hi).
  - rewrite total_zero; [done|]. intros i l Hi. by rewrite (Hs i l Hi).
Qed.

Lemma seen_stored_now sha256 B w i l data u : hex_digests sha256 -> consistent sha256 (files w) -> good B w i l -> seen_stored sha256 data u l ->
  stored sha256 (files w) data u.
Proof.
  intros Hhex Hc (_ & _ & _ & _ & _ & _ & G7) (bytes & Hs & Hsz & H1 & H2 & H3). pose proof (G7 _ _ Hs) as Hm.
  destruct (Hc _ _ Hm) as (data' & Hbin & Heq & Hsz').
  pose proof (marker_roundtrip sha256 "" bytes Hhex Hsz) as Hr. rewrite Heq, marker_roundtrip in Hr by done. assert (Hmk : marker sha256 data' = marker sha256 bytes) by congruence.
  pose proof (f_equal um_SizeBytes Hmk) as Hsize. pose proof (f_equal um_Checksum Hmk) as Hsum. cbn [um_SizeBytes um_Checksum marker] in Hsize, Hsum.
  exists data'. rewrite <- Heq. split_and!; congruence.
Qed.

(** C17. Uploads, concurrently.  Start any number of requests to the service on a
    volume whose markers describe the bytes next to them, with no mutex held and
    an empty ledger, and let their calls interleave in any way, with any call of
    the file system failing except that a marker write which fails leaves the
    marker as it was (without that, [failed_marker_loses_the_upload]).  Then in
    every state reached the markers describe the bytes next to them; an upload
    that was complete at the start has its marker and its bytes unchanged; the
    ledger stays within its type and is zero again when all requests are done;
    and each request answered with an acknowledgement was an authorised upload
    whose body arrived whole, within the limit and with the checksum the client
    asked for, and bytes with that checksum are on the volume under its name,
    marked as complete.  SHA-256 is taken to print hexadecimal digits, and the
    number of requests times the size limit to fit an int64. *)
Theorem uploads_are_safe sha256 IsDNS1123Label root tokenHash maxUploadBytes admission reqs w w' ps :
  let s := NewServer tokenHash maxUploadBytes admission in
  hex_digests sha256 -> Z.of_nat (length reqs) * sv_maxUploadBytes s < 2 ^ 63 ->
  consistent sha256 (files w) -> finalizer w = None -> admitter w = None -> ledger w = 0 ->
  rtc (pool_step (act false)) (w, map (fun q => Handler sha256 IsDNS1123Label root s q.1 q.2) reqs) (w', ps) ->
  consistent sha256 (files w') /\ kept w w' /\ 0 <= ledger w' < 2 ^ 63 /\
  ((forall i p, ps !! i = Some p -> exists a, p = Ret a) -> ledger w' = 0) /\
  (forall i rt r status url u, reqs !! i = Some (rt, r) -> ps !! i = Some (Ret (Uploaded status url u)) ->
     genuine sha256 s rt r u /\ stored sha256 (files w') (rq_Body r) u).
Proof.
  intros s Hhex Hn Hc Hf Ha Hl Hrun. set (B := sv_maxUploadBytes s) in *.
  assert (HB : 0 <= B) by (unfold B, s, NewServer, DefaultMaxUploadBytes; cbn; destruct (Z.leb_spec maxUploadBytes 0); lia).
  set (Q := fun (q : option (route * uploadRequest)) l a => ready l /\ l_res l = 0 /\
    forall rt r, q = Some (rt, r) -> acked r a (fun u => genuine sha256 s rt r u /\ seen_stored sha256 (rq_Body r) u l)).
  destruct (pool_safe (act false) (Inv sha256 B) kept (fun i => Q (reqs !! i)) w (map (fun q => Handler sha256 IsDNS1123Label root s q.1 q.2) reqs) (replicate (length reqs) start) w' ps
    (start_inv _ _ _ _ HB Hn Hc Hf Ha Hl)) as (ls & (Hc' & Hgood & _ & Htot & Hb) & Hps & Hlen & Hlenp & Hg); [|exact Hrun|].
  { intros i p Hp. rewrite list_lookup_fmap in Hp. destruct (reqs !! i) as [[rt r]|] eqn:Hi; [|done]. injection Hp as <-.
    assert (Hlt : (i < length reqs)%nat) by (by eapply lookup_lt_Some). exists start. split; [by apply lookup_replicate_2|].
    eapply ok_mono; [apply Handler_safe; [done|split; [done|nia]|done]|]. cbn. intros l a (? & ? & ?). split_and!; try done.
    by intros ? ? [= <- <-]. }
  rewrite length_replicate in Hlen. rewrite length_map in Hlenp.
  pose proof (total_bound B ls (fun i l Hl => proj1 (proj2 (proj2 (proj2 (proj2 (proj2 (Hgood i l Hl)))))))) as Hbound.
  split_and!; [done|by apply kept_rtc|lia|lia|..].
  - intros Hdone. rewrite Htot. apply total_zero. intros i l Hi. assert (Hlt : (i < length ps)%nat) by (rewrite Hlenp, <- Hlen; by eapply lookup_lt_Some).
    apply lookup_lt_is_Some_2 in Hlt as [p Hp]. destruct (Hdone i p Hp) as [a ->]. destruct (Hps i _ Hp) as (l' & Hl' & _ & Hz & _). congruence.
  - intros i rt r status url u Hq Hp. destruct (Hps i _ Hp) as (l & Hi & _ & _ & Hu).
    destruct (Hu rt r Hq status url u eq_refl) as [Hgen Hs]. split; [done|]. exact (seen_stored_now sha256 B w' i l _ _ Hhex Hc' (Hgood i l Hi) Hs).
Qed.

(** ** Runs *)

(** An answer [act] allows, with which [fail] calls fail. *)
Definition answer (fail : srv -> bool) (i : nat) (w : world) (e : srv) : option (srv_resp e * world) :=
  let broken := mkErr KOther "input/output error" in
  match e return option (srv_resp e * world) with
  | SCreateTemp => let id := show_dec (Z.of_nat (size (files w))) in
      match files w !! LTmp id with None => Some (inl id, with_files <[LTmp id := ""]> w) | Some _ => None end
  | SWrite id data => Some (None, with_files <[LTmp id := data]> w)
  | SReadFile l => Some (match files w !! l with Some data => inl data | None => inr (mkErr KNotFound "no such file or directory") end, w)
  | SWriteFile l content => Some (if fail (SWriteFile l content) then Some broken else None, with_files <[l := content]> w)
  | SRename id name =>
      match files w !! LTmp id with
      | Some data => Some (None, with_files (fun f => <[LBin name := data]> (delete (LTmp id) f)) w)
      | None => None
      end
  | SRemove l => Some (None, with_files (delete l) w)
  | SRemoveTmp id => Some (None, with_files (delete (LTmp id)) w)
  | SRemoveUpload name => if fail (SRemoveUpload name) then Some (Some broken, with_files (fun _ => delete (LBin name) (files w)) w)
                          else Some (None, with_files (fun f => delete (LMeta name) (delete (LBin name) f)) w)
  | SLock FinalizeMu => match finalizer w with None => Some (tt, w <| finalizer := Some i |>) | Some _ => None end
  | SUnlock FinalizeMu => Some (tt, w <| finalizer := (None : option nat) |>)
  | SLock AdmissionMu => match admitter w with None => Some (tt, w <| admitter := Some i |>) | Some _ => None end
  | SUnlock AdmissionMu => Some (tt, w <| admitter := (None : option nat) |>)
  | SLedger => Some (ledger w, w)
  | SSetLedger reserved => Some (tt, w <| ledger := reserved |>)
  | SReadDir _ => Some (inl [], w)
  | SStatfs _ => Some (inl (2 ^ 40), w)
  | SMkdirAll _ | SClose _ => Some (None, w)
  | SLogError _ => Some (tt, w)
  end.

(** A failed write needs [torn]. *)
Lemma answer_act torn fail i w e r w' : (forall l c, fail (SWriteFile l c) = true -> torn = true) ->
  answer fail i w e = Some (r, w') -> act torn i w e r w'.
Proof.
  intros Ht. unfold answer, act.
  destruct e as [d|d| |id dt|id|l|l c|id name|l|id|name|d|[]|[]| |rs|m]; cbn; intros Ha;
    repeat (case_match; simplify_eq; try done); simplify_eq; eauto 6; try done.
  eexists. split; [done|]. set_solver.
Qed.

(** Programs take turns as [turns] says; one that cannot move waits. *)
Fixpoint take_turns {A} (fail : srv -> bool) (turns : list nat) (c : world * list (svc A)) : world * list (svc A) :=
  match turns with
  | [] => c
  | i :: turns =>
    take_turns fail turns
      match c.2 !! i with
      | Some (Vis e k) => match answer fail i c.1 e with Some (r, w) => (w, <[i := k r]> c.2) | None => c end
      | _ => c
      end
  end.

Lemma take_turns_runs {A} torn fail turns (c : world * list (svc A)) : (forall l x, fail (SWriteFile l x) = true -> torn = true) ->
  rtc (pool_step (act torn)) c (take_turns fail turns c).
Proof.
  intros Ht. revert c. induction turns as [|i turns IH]; intros [w ps]; [constructor|]. cbn [take_turns fst snd].
  destruct (ps !! i) as [[a|e k]|] eqn:Hi; [apply IH| |apply IH]. destruct (answer fail i w e) as [[r w']|] eqn:Ha; [|apply IH].
  econstructor; [|apply IH]. econstructor; [done|]. by eapply answer_act.
Qed.

Lemma runs_to {A} torn fail turns (c : world * list (svc A)) ps : (forall l x, fail (SWriteFile l x) = true -> torn = true) ->
  (take_turns fail turns c).2 = ps -> rtc (pool_step (act torn)) c ((take_turns fail turns c).1, ps).
Proof. intros Ht <-. rewrite <- surjective_pairing. by apply take_turns_runs. Qed.

Module Upload.
Definition sha (s : string) : string := if s =s "secret" then "5e" else if s =s "disk" then "d1" else "00".
Definition request : uploadRequest := mkUploadRequest "Bearer secret" 4 "sha256:D1" "disk" None.
Definition server : Server := NewServer (sha "secret") 100 (Some 1000).
Definition put : svc reply := Handler sha (fun _ => []) "/staging" server (PutUpload "img") request.
Definition empty_volume : world := mkWorld ∅ None None 0.
Definition result (idempotent : bool) : UploadResult := mkUploadResult "img" "/staging/uploads/img/upload.bin" 4 "sha256:d1" idempotent.
Definition never (_ : srv) : bool := false.
Definition writes_fail (e : srv) : bool := match e with SWriteFile _ _ => true | _ => false end.
Definition removals_fail (e : srv) : bool := match e with SRemoveUpload _ => true | _ => false end.
Definition alternate (n : nat) : list nat := concat (replicate n [0%nat; 1%nat]).
Definition both : world * list (svc reply) := take_turns never (alternate 60) (empty_volume, [put; put]).
Definition once (w : world) : world * list (svc reply) := take_turns never (replicate 30 0%nat) (w, [put]).

Lemma hex_sha : hex_digests sha.
Proof. intros data. unfold sha. by repeat case_match. Qed.
End Upload.
Import Upload.

(** Two clients send the same image at once: one upload is stored, the other one is told it is there. *)
Lemma uploads_are_safe_witness :
  both.2 = [Ret (Uploaded 201 "kezio-staged://img" (result false)); Ret (Uploaded 200 "kezio-staged://img" (result true))] /\
  stored sha (files both.1) "disk" (result true) /\ ledger both.1 = 0 /\ consistent sha (files both.1).
Proof.
  destruct (uploads_are_safe sha (fun _ => []) "/staging" (sha "secret") 100 (Some 1000) [(PutUpload "img", request); (PutUpload "img", request)]
    empty_volume both.1 both.2 hex_sha eq_refl ltac:(by intros name c Hc) eq_refl eq_refl eq_refl) as (Hc & _ & _ & Hl & Hu).
  { change (rtc (pool_step (act false)) (empty_volume, [put; put]) (both.1, both.2)). rewrite <- surjective_pairing. by apply take_turns_runs. }
  assert (Hboth : both.2 = [Ret (Uploaded 201 "kezio-staged://img" (result false)); Ret (Uploaded 200 "kezio-staged://img" (result true))])
    by (vm_compute; reflexivity).
  split; [exact Hboth|]. rewrite Hboth in Hl, Hu. split; [|split; [|exact Hc]].
  - exact (proj2 (Hu 1%nat _ _ _ _ _ eq_refl eq_refl)).
  - apply Hl. intros [|[|i]] p; [by intros [= <-]; eexists..|done].
Defined.

(** A marker whose write fails after its last byte stays, while the bytes are
    removed: the client is told that it failed, and its second attempt is
    acknowledged with nothing on the volume. *)
Theorem failed_marker_loses_the_upload :
  exists w1 w2, rtc (pool_step (act true)) (empty_volume, [put]) (w1, [Ret (ErrorText 500 "Internal Server Error")]) /\
    rtc (pool_step (act false)) (w1, [put]) (w2, [Ret (Uploaded 200 "kezio-staged://img" (result true))]) /\ files w2 !! LBin "img" = None.
Proof.
  eexists _, _. split; [|split].
  - refine (runs_to true writes_fail (replicate 30 0%nat) (empty_volume, [put]) _ (fun _ _ _ => eq_refl) _). vm_compute. reflexivity.
  - refine (runs_to false never (replicate 30 0%nat) (_, [put]) _ (fun _ _ H => H) _). vm_compute. reflexivity.
  - vm_compute. reflexivity.
Qed.

(** A removal that deletes the bytes and fails on the marker leaves an upload that
    is acknowledged again with nothing on the volume. *)
Theorem failed_removal_loses_the_next_upload :
  exists w1 w2 w3 err, rtc (pool_step (act false)) (empty_volume, [put]) (w1, [Ret (Uploaded 201 "kezio-staged://img" (result false))]) /\
    rtc (pool_step (act false)) (w1, [RemoveUpload (fun _ => []) "/staging" "img"]) (w2, [Ret (Some err)]) /\
    rtc (pool_step (act false)) (w2, [put]) (w3, [Ret (Uploaded 200 "kezio-staged://img" (result true))]) /\ files w3 !! LBin "img" = None.
Proof.
  eexists _, _, _, _. split; [|split; [|split]].
  - refine (runs_to false never (replicate 30 0%nat) (empty_volume, [put]) _ (fun _ _ H => H) _). vm_compute. reflexivity.
  - refine (runs_to false removals_fail [0%nat] (_, [_]) _ _ _); [done|]. vm_compute. reflexivity.
  - refine (runs_to false never (replicate 30 0%nat) (_, [put]) _ (fun _ _ H => H) _). vm_compute. reflexivity.
  - vm_compute. reflexivity.
Qed.
