(* ===== verification/AgentLive.v ===== *)
(** * AgentLive: kezio-agent in the live environment

    [src/internal/agent]: [run.go], [client.go], [httpreporter.go],
    [torrentfetcher.go], [ezio.go], [execrunner.go], [inventory.go] and
    [cmdline.go], put together as [src/cmd/agent/main.go] does: the poll loop
    around the executor of [AgentExec.v], whose calls are answered by the runner,
    the launcher, the fetcher and the reporter of this package.

    Parameters: JSON ([AgentJSON]).  Log lines are left out.  The context of a
    deploy is done when the reporter has cancelled it; that of the process may be
    done at any [select], and a request or command cut short answers an error; so
    does a request that cannot be built. *)

From S2P Require Import Prelude Text Api AgentApi Effects Cluster DiskMatch Bootd BootServer PlanBuild AgentExec AgentServer.
Local Open Scope string_scope.
Local Open Scope list_scope.
Local Open Scope Z_scope.

(** ** Calls *)

Record HttpRequest := mkHttpRequest { q_Method : string; q_URL : string; q_Headers : list (string * string); q_Body : string }.

(** The bytes of the body that could be read, and the error that ended them. *)
Record HttpReply := mkHttpReply { y_StatusCode : Z; y_Status : string; y_Body : string; y_BodyErr : option GoErr }.

Inductive env :=
| VDo (q : HttpRequest)
| VDone
| VWait (d : Z)
| VIdle
| VReadFile (path : string)
| VReadDir (path : string)
| VReadlink (path : string)
| VStart (binary : string) (args : list string)
| VKill
| VDial (addr : string)
| VHealthy
| VHangUp
| VNow
| VAct (a : act)
| VDiverge.

(** [VDone] and [VWait] answer whether the context is done; [VIdle] is waiting for
    that; [VAct] is a command, a file operation or a call of the daemon. *)
Definition env_resp (e : env) : Type :=
  match e with
  | VDo _ => (HttpReply + GoErr)%type
  | VDone | VWait _ => bool
  | VIdle => unit
  | VReadFile _ | VReadlink _ => (string + GoErr)%type
  | VReadDir _ => (list string + GoErr)%type
  | VNow => Z
  | VAct a => ans a
  | VDiverge => Empty_set
  | _ => option GoErr
  end.

Abbreviation live := (prog env_resp).
Abbreviation env_call := (call (R := env_resp)).

Definition context_canceled : GoErr := mkErr KOther "context canceled".

(** ** The kernel command line *)

Definition ProcCmdlinePath : string := "/proc/cmdline".

Record Cmdline := mkCmdline { cl_Server : string; cl_Token : string }.
#[export] Instance eta_Cmdline : Eta Cmdline := fun c => mkCmdline (cl_Server c) (cl_Token c).

Definition cmdline_token (c : Cmdline) (tok : string) : Cmdline :=
  match cut_at "=" tok with
  | None => c
  | Some (key, value) =>
    if key =s "kezio.server" then c <| cl_Server := value |>
    else if key =s "kezio.token" then c <| cl_Token := value |>
    else c
  end.

Definition ParseCmdline (raw : string) : Cmdline := fold_left cmdline_token (Fields raw) (mkCmdline "" "").

Definition ReadCmdline (path : string) : live (Cmdline + GoErr) :=
  r <- env_call (VReadFile path) ;;
  Ret match r with
      | inr err => inr (wrapf "reading kernel cmdline: %w" [] err)
      | inl data => inl (ParseCmdline data)
      end.

(** ** Inventory *)

Definition virtualBlockDevicePrefixes : list string := ["loop"; "ram"].

Definition isVirtualBlockDevice (name : string) : bool := existsb (HasPrefix name) virtualBlockDevicePrefixes.

Definition readTrimmed (path : string) : live string :=
  r <- env_call (VReadFile path) ;; Ret match r with inr _ => "" | inl data => TrimSpace data end.

Definition readUint (path : string) : live (option Z) :=
  v <- readTrimmed path ;; Ret (if v =s "" then None else ParseUint v 10 64).

(** [pciePathPattern] and [hctlPattern]. *)
Definition pciePathPattern (seg : string) : bool :=
  match list_ascii_of_string seg with
  | [a; b; c; d; ":"; e; f; ":"; g; h; "."; i]%char => forallb is_hex [a; b; c; d; e; f; g; h; i]
  | _ => false
  end.

Definition digits_only (s : string) : bool := negb (s =s "") && forallb is_digit (list_ascii_of_string s).

Definition hctlPattern (seg : string) : bool :=
  match split_on ":" seg with
  | [h; c; t; l] => forallb digits_only [h; c; t; l]
  | _ => false
  end.

Definition lastMatch (re : string -> bool) (target : string) : string :=
  fold_left (fun found seg => if re seg then seg else found) (split_on "/" target) "".

Definition collectOneDisk (blockDir name : string) : live MachineHardwareDisk :=
  let devDir := Join [blockDir; name] in
  serial <- readTrimmed (Join [devDir; "device"; "serial"]) ;;
  wwn <- readTrimmed (Join [devDir; "wwid"]) ;;
  model <- readTrimmed (Join [devDir; "device"; "model"]) ;;
  vendor <- readTrimmed (Join [devDir; "device"; "vendor"]) ;;
  serial <- (if serial =s "" then readTrimmed (Join [devDir; "serial"]) else Ret serial) ;;
  sectors <- readUint (Join [devDir; "size"]) ;;
  let size := match sectors with Some n => int64 (int64 n * 512) | None => 0 end in
  v <- readTrimmed (Join [devDir; "queue"; "rotational"]) ;;
  let rotational := if v =s "" then None else Some (v =s "1") in
  target <- env_call (VReadlink devDir) ;;
  let '(pcie, hctl) := match target with
                       | inr _ => ("", "")
                       | inl target => (lastMatch pciePathPattern target, lastMatch hctlPattern target)
                       end in
  Ret (mkDisk (String.append "/dev/" name) serial wwn model vendor size rotational pcie hctl None).

Fixpoint each_disk (blockDir : string) (names : list string) : live (list MachineHardwareDisk) :=
  match names with
  | [] => Ret []
  | name :: names =>
    if isVirtualBlockDevice name then each_disk blockDir names
    else disk <- collectOneDisk blockDir name ;; disks <- each_disk blockDir names ;; Ret (disk :: disks)
  end.

Definition collectDisks (root : string) : live (list MachineHardwareDisk + GoErr) :=
  let blockDir := Join [root; "sys"; "block"] in
  r <- env_call (VReadDir blockDir) ;;
  match r with
  | inr err => Ret (inr err)
  | inl entries =>
    disks <- each_disk blockDir entries ;;
    Ret (inl (sort_by (fun a b => String.ltb (d_DeviceName a) (d_DeviceName b)) disks))
  end.

Fixpoint each_nic (netDir : string) (names : list string) : live (list MachineHardwareNIC) :=
  match names with
  | [] => Ret []
  | name :: names =>
    if name =s "lo" then each_nic netDir names
    else mac <- readTrimmed (Join [netDir; name; "address"]) ;; nics <- each_nic netDir names ;; Ret (mkNIC name mac :: nics)
  end.

Definition collectNICs (root : string) : live (list MachineHardwareNIC + GoErr) :=
  let netDir := Join [root; "sys"; "class"; "net"] in
  r <- env_call (VReadDir netDir) ;;
  match r with
  | inr err => Ret (inr err)
  | inl entries =>
    nics <- each_nic netDir entries ;;
    Ret (inl (sort_by (fun a b => String.ltb (nic_Name a) (nic_Name b)) nics))
  end.

(** *** [meminfoTotalPattern] *)

Definition re_space (c : ascii) : bool := existsb (Nat.eqb (nat_of_ascii c)) [32; 9; 10; 12; 13]%nat.

Fixpoint skip (f : ascii -> bool) (s : string) : string :=
  match s with
  | String c s' => if f c then skip f s' else s
  | "" => ""
  end.

Fixpoint span_digits (s : string) : string * string :=
  match s with
  | String c s' => if is_digit c then (String c (span_digits s').1, (span_digits s').2) else ("", s)
  | "" => ("", "")
  end.

(** The match at the beginning of a line: at least one space, the digits, spaces and the unit. *)
Definition total_here (s : string) : option string :=
  match CutPrefix s "MemTotal:" with
  | None => None
  | Some rest =>
    match rest with
    | String c _ =>
      if re_space c then
        let '(n, after) := span_digits (skip re_space rest) in
        if (n <>s "") && HasPrefix (skip re_space after) "kB" then Some n else None
      else None
    | "" => None
    end
  end.

(** The leftmost match; [start] says whether a line begins here. *)
Fixpoint total_from (start : bool) (s : string) : option string :=
  match (if start then total_here s else None) with
  | Some n => Some n
  | None => match s with String c s => total_from (Ascii.eqb c (ascii_of_nat 10)) s | "" => None end
  end.

Definition meminfoTotal (data : string) : option string := total_from true data.

Definition collectMemoryBytes (root : string) : live (Z + GoErr) :=
  r <- env_call (VReadFile (Join [root; "proc"; "meminfo"])) ;;
  Ret match r with
      | inr err => inr err
      | inl data =>
        inl match meminfoTotal data with
            | None => 0
            | Some n => match Atoi n with None => 0 | Some kb => int64 (kb * 1024) end
            end
      end.

Definition collectCPUCount (root : string) : live (Z + GoErr) :=
  r <- env_call (VReadFile (Join [root; "proc"; "cpuinfo"])) ;;
  Ret match r with
      | inr err => inr err
      | inl data =>
        inl (fold_left (fun count line => if HasPrefix line "processor" then int32 (count + 1) else count)
               (split_on (ascii_of_nat 10) data) 0)
      end.

Definition Collect (root : string) : live (MachineHardwareSpec + GoErr) :=
  disks <- collectDisks root ;;
  match disks with
  | inr err => Ret (inr err)
  | inl disks =>
    nics <- collectNICs root ;;
    match nics with
    | inr err => Ret (inr err)
    | inl nics =>
      memBytes <- collectMemoryBytes root ;;
      match memBytes with
      | inr err => Ret (inr err)
      | inl memBytes =>
        cpuCount <- collectCPUCount root ;;
        Ret match cpuCount with
            | inr err => inr err
            | inl cpuCount => inl (mkHardwareSpec disks nics memBytes cpuCount)
            end
      end
    end
  end.

(** ** The client *)

Definition RegisterPath : string := "/agent/register".
Definition NextPath : string := "/agent/next".
Definition ProgressPath : string := "/agent/progress".

Record NextResponse := mkNextResponse { nx_Action : string; nx_PollIntervalSeconds : Z; nx_Plan : option DeployPlan }.

Class AgentJSON := {
  enc_register : RegisterRequest -> string; dec_register : string -> option (string * string);
  dec_next : string -> option NextResponse;
  enc_progress : ProgressRequest -> string; dec_progress : string -> option string }.

Record RegisterResult := mkRegisterResult { rr_MachineName : string; rr_SessionToken : string }.

Section Client.
Context `{AgentJSON}.

Definition client_url (BaseURL path : string) : string := TrimRight is_slash BaseURL +:+ path.

Definition setCommonHeaders : list (string * string) :=
  [(AgentSchemaVersionHeader, show_dec AgentSchemaVersion); ("Content-Type", "application/json")].

Definition authorized (method url token body : string) : HttpRequest :=
  mkHttpRequest method url (setCommonHeaders ++ [("Authorization", "Bearer " +:+ token)]) body.

(** The first 4096 bytes of the body. *)
Definition statusSummary (y : HttpReply) : string :=
  sprintf "%s: %s" [y_Status y; TrimSpace (String.substring 0 4096 (y_Body y))].

(** One exchange: the body of a 200 reply as [decode] reads it. *)
Definition exchange {A} (doing rejected decoding : string) (q : HttpRequest) (decode : string -> option A) : live (A + GoErr) :=
  r <- env_call (VDo q) ;;
  Ret match r with
      | inr err => inr (wrapf doing [] err)
      | inl y =>
        if negb (y_StatusCode y =? 200) then inr (errorf rejected [statusSummary y])
        else match decode (y_Body y) with
             | None => inr (errorf decoding ["invalid JSON"])
             | Some v => inl v
             end
      end.

Definition Register (BaseURL token : string) (hardware : MachineHardwareSpec) : live (RegisterResult + GoErr) :=
  r <- exchange "registration request failed: %w" "registration rejected: %s" "decoding registration response: %w"
         (authorized "POST" (client_url BaseURL RegisterPath) token (enc_register (mkRegisterRequest hardware))) dec_register ;;
  Ret match r with
      | inr err => inr err
      | inl (machineName, sessionToken) =>
        if machineName =s "" then inr (errorf "registration response has no machine name" [])
        else if sessionToken =s "" then inr (errorf "registration response has no session token" [])
        else inl (mkRegisterResult machineName sessionToken)
      end.

Definition Next (BaseURL sessionToken : string) : live (NextResponse + GoErr) :=
  exchange "poll request failed: %w" "poll rejected: %s" "decoding poll response: %w"
    (authorized "GET" (client_url BaseURL NextPath) sessionToken "") dec_next.

Definition Progress (BaseURL sessionToken : string) (req : ProgressRequest) : live (string + GoErr) :=
  exchange "progress request failed: %w" "progress report rejected: %s" "decoding progress response: %w"
    (authorized "POST" (client_url BaseURL ProgressPath) sessionToken (enc_progress req)) dec_progress.

(** ** Reporting *)

Definition httpReporterMaxAttempts : nat := 3.
Definition httpReporterRetryDelay : Z := 2 * Second.

(** [HTTPReporter]: [rp_aborted] is its [sync.Once], [rp_cancelled] whether
    [Cancel], set for the deploy in progress, was called. *)
Record HTTPReporter := mkReporter { rp_BaseURL : string; rp_SessionToken : string; rp_aborted : bool; rp_cancelled : bool }.
#[export] Instance eta_HTTPReporter : Eta HTTPReporter :=
  fun r => mkReporter (rp_BaseURL r) (rp_SessionToken r) (rp_aborted r) (rp_cancelled r).

(** [r.aborted.Do]. *)
Definition abort (r : HTTPReporter) : HTTPReporter :=
  if rp_aborted r then r else r <| rp_aborted := true |> <| rp_cancelled := true |>.

(** [select] on the deploy's context and a timer. *)
Definition deploy_wait (r : HTTPReporter) (d : Z) : live bool := if rp_cancelled r then Ret true else env_call (VWait d).

Fixpoint report_attempts (n : nat) (r : HTTPReporter) (req : ProgressRequest) (last : option GoErr) : live (option GoErr * HTTPReporter) :=
  match n with
  | O => Ret (last, r)
  | S n =>
    stop <- match last with None => Ret false | Some _ => deploy_wait r httpReporterRetryDelay end ;;
    if (stop : bool) then Ret (last, r)
    else
    resp <- Progress (rp_BaseURL r) (rp_SessionToken r) req ;;
    match resp with
    | inr err => report_attempts n r req (Some err)
    | inl action => Ret (None, if action =s ProgressActionAbort then abort r else r)
    end
  end.

Definition Report (r : HTTPReporter) (req : ProgressRequest) : live (option GoErr * HTTPReporter) :=
  report_attempts httpReporterMaxAttempts r req None.

(** ** Fetching torrents *)

Definition DefaultTorrentFetchRetries : nat := 5.
Definition DefaultTorrentFetchRetryInterval : Z := 2 * Second.

Definition fetchOnce (r : HTTPReporter) (url : string) : live (string + GoErr) :=
  if rp_cancelled r then Ret (inr context_canceled)
  else
  reply <- env_call (VDo (mkHttpRequest "GET" url [] "")) ;;
  Ret match reply with
      | inr err => inr err
      | inl y =>
        if negb (y_StatusCode y =? 200) then inr (errorf "unexpected status %s" [y_Status y])
        else match y_BodyErr y with Some err => inr err | None => inl (y_Body y) end
      end.

Fixpoint fetch_attempts (n : nat) (first : bool) (r : HTTPReporter) (url : string) (last : GoErr) : live (string + GoErr) :=
  match n with
  | O => Ret (inr (wrapf "fetching %s after %d attempts: %w" [url; show_dec (Z.of_nat DefaultTorrentFetchRetries)] last))
  | S n =>
    stop <- (if first then Ret false else deploy_wait r DefaultTorrentFetchRetryInterval) ;;
    if (stop : bool) then Ret (inr context_canceled)
    else
    body <- fetchOnce r url ;;
    match body with
    | inl body => Ret (inl body)
    | inr err => fetch_attempts n false r url err
    end
  end.

Definition FetchTorrent (r : HTTPReporter) (url : string) : live (string + GoErr) :=
  fetch_attempts DefaultTorrentFetchRetries true r url context_canceled.

(** ** The local daemon *)

Definition DefaultEzioBinary : string := "ezio".
Definition DefaultEzioListenAddress : string := "127.0.0.1:9001".
Definition DefaultEzioReadyTimeout : Z := 10 * Second.
Definition DefaultMeminfoPath : string := "/proc/meminfo".

(** 2 GiB. *)
Definition autoCacheReserveBytes : Z := 2 * 2 ^ 30.
Definition autoCacheMinMB : Z := 64.
Definition autoCacheMaxMB : Z := 8192.

(** On [uint64]. *)
Definition AutoCacheSizeMB (memTotalBytes : Z) : Z :=
  if memTotalBytes <=? autoCacheReserveBytes then autoCacheMinMB
  else int32 (Z.min (Z.max ((memTotalBytes - autoCacheReserveBytes) / 2 / 2 ^ 20) autoCacheMinMB) autoCacheMaxMB).

Definition readMemTotalBytes (path : string) : live (Z + GoErr) :=
  r <- env_call (VReadFile path) ;;
  Ret match r with
      | inr err => inr err
      | inl data =>
        match meminfoTotal data with
        | None => inr (errorf "MemTotal not found in %s" [path])
        | Some n =>
          match ParseUint n 10 64 with
          | None => inr (errorf "parsing MemTotal in %s: %w" [path; "value out of range"])
          | Some kb => inl ((kb * 1024) mod 2 ^ 64)
          end
        end
      end.

Definition resolveCacheSizeMB (cfg : EzioLaunchConfig) : live (option Z) :=
  match lc_CacheSizeMB cfg with
  | Some n => Ret (Some n)
  | None =>
    memTotal <- readMemTotalBytes DefaultMeminfoPath ;;
    Ret match memTotal with inr _ => None | inl memTotal => Some (AutoCacheSizeMB memTotal) end
  end.

Definition int_flag (name : string) (v : option Z) : list string := match v with Some n => [name; show_dec n] | None => [] end.

Definition not_healthy (last : option GoErr) : GoErr :=
  let fmt := "ezio did not become healthy within 10s: %w" in
  match last with Some err => wrapf fmt [] err | None => errorf fmt ["%!w(<nil>)"] end.

(** [rounds] bounds the attempts that are followed. *)
Fixpoint health_rounds (rounds : nat) (deadline : Z) (last : option GoErr) : live (option GoErr) :=
  match rounds with
  | O => r <- env_call VDiverge ;; match r : Empty_set with end
  | S rounds =>
    now <- env_call VNow ;;
    if negb (now <? deadline) then Ret (Some (not_healthy last))
    else
    err <- env_call VHealthy ;;
    match err with
    | None => Ret None
    | Some err =>
      stop <- env_call (VWait (100 * Millisecond)) ;;
      if (stop : bool) then Ret (Some context_canceled) else health_rounds rounds deadline (Some err)
    end
  end.

Definition waitHealthy (rounds : nat) (timeout : Z) : live (option GoErr) :=
  now <- env_call VNow ;; health_rounds rounds (now + timeout) None.

(** The answer says that the handle has a [Stop]. *)
Definition Launch (rounds : nat) (r : HTTPReporter) (cfg : EzioLaunchConfig) : live (bool + GoErr) :=
  cacheSizeMB <- resolveCacheSizeMB cfg ;;
  let args := ["--listen"; DefaultEzioListenAddress] ++ int_flag "--cache-size" cacheSizeMB
                ++ int_flag "--aio-threads" (lc_AioThreads cfg) ++ int_flag "--port" (lc_Port cfg) in
  err <- (if rp_cancelled r then Ret (Some context_canceled) else env_call (VStart DefaultEzioBinary args)) ;;
  match err with
  | Some err => Ret (inr (wrapf "starting %s: %w" [DefaultEzioBinary] err))
  | None =>
    err <- env_call (VDial DefaultEzioListenAddress) ;;
    match err with
    | Some err => env_call VKill ;; Ret (inr (wrapf "dialing ezio at %s: %w" [DefaultEzioListenAddress] err))
    | None =>
      err <- waitHealthy rounds DefaultEzioReadyTimeout ;;
      match err with
      | Some err => env_call VHangUp ;; env_call VKill ;; Ret (inr err)
      | None => Ret (inl true)
      end
    end
  end.

(** ** The executor at work *)

(** A command or daemon call under the deploy's context. *)
Definition under_deploy {A} (r : HTTPReporter) (refused : A) (p : live A) : live (A * HTTPReporter) :=
  if rp_cancelled r then Ret (refused, r) else a <- p ;; Ret (a, r).

Definition plainly {A} (r : HTTPReporter) (p : live A) : live (A * HTTPReporter) := a <- p ;; Ret (a, r).

Definition act_call (a : act) : live (ans a) := env_call (VAct a).

(** Only [umount] runs under a context of its own, the clean-up's. *)
Definition uncancellable (name : string) : bool := name =s "umount".

(** How the runner, the launcher, the fetcher, the reporter and the daemon's client
    answer the executor. *)
Definition perform (rounds : nat) (r : HTTPReporter) (a : act) : live (ans a * HTTPReporter) :=
  match a return live (ans a * HTTPReporter) with
  | ARun stdin name args =>
      if uncancellable name then plainly r (act_call (ARun stdin name args))
      else under_deploy r (inr (wrapf "%s: %w" [name] context_canceled)) (act_call (ARun stdin name args))
  | ARunEnv env name args => under_deploy r (inr (wrapf "%s: %w" [name] context_canceled)) (act_call (ARunEnv env name args))
  | ALaunch cfg => plainly r (Launch rounds r cfg)
  | AStop => plainly r (env_call VKill)
  | AFetchTorrent url => plainly r (FetchTorrent r url)
  | AAddTorrent t p m u c => under_deploy r (Some context_canceled) (act_call (AAddTorrent t p m u c))
  | AGetTorrentStatus hs => under_deploy r (inr context_canceled) (act_call (AGetTorrentStatus hs))
  | APauseTorrent h => under_deploy r (Some context_canceled) (act_call (APauseTorrent h))
  | AShutdown => under_deploy r (Some context_canceled) (act_call AShutdown)
  | AReport req => Report r req
  | a => plainly r (act_call a)
  end.

Fixpoint perform_all {A} (rounds : nat) (r : HTTPReporter) (p : agent A) : live (A * HTTPReporter) :=
  match p with
  | Ret a => Ret (a, r)
  | Vis e k => '(x, r) <- perform rounds r e ;; perform_all rounds r (k x)
  end.

(** ** The life of the agent *)

Definition DefaultRegisterRetryInterval : Z := 5 * Second.
Definition DefaultPollInterval : Z := 10 * Second.

Record RunConfig := mkRunConfig { rc_Cmdline : Cmdline; rc_InventoryRoot : string }.

Section Life.
Context (Unmarshal : string -> sfdiskJSONTable + GoErr) (GOARCH : string) (rounds : nat).

(** The [Deploy] of [cmd/agent], with a context and a [Cancel] of its own. *)
Definition Deploy (r : HTTPReporter) (plan : DeployPlan) : live (option GoErr * HTTPReporter) :=
  perform_all rounds (r <| rp_cancelled := false |>) (Execute Unmarshal GOARCH true false rounds plan).

Fixpoint registerWithRetry (n : nat) (BaseURL token : string) (hardware : MachineHardwareSpec) : live (RegisterResult + GoErr) :=
  match n with
  | O => r <- env_call VDiverge ;; match r : Empty_set with end
  | S n =>
    result <- Register BaseURL token hardware ;;
    match result with
    | inl result => Ret (inl result)
    | inr _ =>
      stop <- env_call (VWait DefaultRegisterRetryInterval) ;;
      if (stop : bool) then Ret (inr context_canceled) else registerWithRetry n BaseURL token hardware
    end
  end.

Definition poll_interval (resp : NextResponse) : Z :=
  if 0 <? nx_PollIntervalSeconds resp then nx_PollIntervalSeconds resp * Second else DefaultPollInterval.

Fixpoint pollLoop (n : nat) (BaseURL : string) (r : HTTPReporter) (reg : RegisterResult) : live HTTPReporter :=
  match n with
  | O => x <- env_call VDiverge ;; match x : Empty_set with end
  | S n =>
    done <- env_call VDone ;;
    if (done : bool) then Ret r
    else
    resp <- Next BaseURL (rr_SessionToken reg) ;;
    '(interval, r) <- match resp with
                      | inr _ => Ret (DefaultPollInterval, r)
                      | inl resp =>
                        r <- match nx_Plan resp with
                             | Some plan => if nx_Action resp =s ActionDeploy then '(_, r) <- Deploy r plan ;; Ret r else Ret r
                             | None => Ret r
                             end ;;
                        Ret (poll_interval resp, r)
                      end ;;
    stop <- env_call (VWait interval) ;;
    if (stop : bool) then Ret r else pollLoop n BaseURL r reg
  end.

(** [Run] with the reporter of [cmd/agent], which gets the session token when the machine is registered. *)
Definition RunAgent (cfg : RunConfig) : live (option GoErr) :=
  let cl := rc_Cmdline cfg in
  let reporter := mkReporter (cl_Server cl) "" false false in
  if (cl_Server cl =s "") || (cl_Token cl =s "") then env_call VIdle ;; Ret None
  else
  hardware <- Collect (rc_InventoryRoot cfg) ;;
  match hardware with
  | inr err => Ret (Some (wrapf "collecting hardware inventory: %w" [] err))
  | inl hardware =>
    result <- registerWithRetry rounds (cl_Server cl) (cl_Token cl) hardware ;;
    match result with
    | inr err => Ret (Some err)
    | inl result => pollLoop rounds (cl_Server cl) (reporter <| rp_SessionToken := rr_SessionToken result |>) result ;; Ret None
    end
  end.
End Life.

(** [main] of [cmd/agent]. *)
Definition main (Unmarshal : string -> sfdiskJSONTable + GoErr) (GOARCH : string) (rounds : nat) (cmdlinePath inventoryRoot : string) : live (option GoErr) :=
  cmdline <- ReadCmdline cmdlinePath ;;
  match cmdline with
  | inr err => Ret (Some (wrapf "kezio-agent: reading kernel cmdline: %w" [] err))
  | inl cmdline => RunAgent Unmarshal GOARCH rounds (mkRunConfig cmdline inventoryRoot)
  end.

Definition redactToken (token : string) : string :=
  if token =s "" then "<empty>"
  else if Z.of_nat (String.length token) <=? 8 then "<redacted>"
  else String.substring 0 4 token +:+ "..." +:+ String.substring (String.length token - 4) 4 token.
End Client.
