(* ===== verification/AgentLiveSafety.v ===== *)
(** * AgentLiveSafety: the agent's life

    The guarantees of the executor hold for the agent as it runs: every command
    is one that the plan the last poll returned allows, and the size checks of
    that plan were made since.  An aborted deploy runs no further command but
    umount, and only the first abort of a process is heeded.  What the boot server
    writes as kernel arguments is what the agent reads from them, and the
    requests of the client are the ones the agent server understands. *)

From S2P Require Import Prelude Text Api AgentApi Effects Cluster DiskMatch Bootd BootServer PlanBuild AgentExec AgentExecSafety AgentBoot AgentServer AgentLive.
Local Open Scope string_scope.
Local Open Scope list_scope.
Local Open Scope Z_scope.

(** ** The disks *)

Section Life.
Context (Unmarshal : string -> sfdiskJSONTable + GoErr) (GOARCH : string) (rounds : nat) `{AgentJSON}.

(** A poll with this session, and the plan its reply hands out. *)
Definition poll_of (server session : string) : HttpRequest := authorized "GET" (client_url server NextPath) session "".

Definition handed_out (y : HttpReply) : option DeployPlan :=
  if y_StatusCode y =? 200 then
    match dec_next (y_Body y) with
    | Some resp => if nx_Action resp =s ActionDeploy then nx_Plan resp else None
    | None => None
    end
  else None.

(** The plan was handed out in this history, and [rest] is what happened since. *)
Definition since_plan (server session : string) (plan : DeployPlan) (s rest : trace env_resp) : Prop :=
  exists before y, s = before ++ ev (R := env_resp) (VDo (poll_of server session)) (inl y) :: rest /\ handed_out y = Some plan.

(** The plan passed the structural checks, and every disk of it reported a size
    its layout fits in. *)
Definition ready (plan : DeployPlan) (rest : trace env_resp) : Prop :=
  check_structure ∅ (diskPlans plan) = None /\
  forall dp, dp ∈ diskPlans plan -> exists out,
    ev (R := env_resp) (VAct (size_query (dp_disk dp))) (inl out) ∈ rest /\ fits Unmarshal dp out = true.

(** What the plan allows, [rest] having happened since it was handed out: a
    command, a file operation, a call of the daemon and its start. *)
Definition allowed_by (plan : DeployPlan) (rest : trace env_resp) (e : env) : Prop :=
  match e with
  | VAct a => if is_query a then True else ready plan rest /\ named Unmarshal plan a
  | VStart _ _ => ready plan rest
  | _ => True
  end.

Definition touches (e : env) : bool := match e with VAct _ | VStart _ _ => true | _ => false end.

Definition live_policy (server session : string) (s : trace env_resp) (e : env) : Prop :=
  touches e = true -> exists plan rest, since_plan server session plan s rest /\ allowed_by plan rest e.

(** Nothing is assumed of what is answered. *)
Abbreviation unasked := (fun _ _ => True).

Definition bystander (e : env) : Prop := touches e = false.

(** The event behind the answer of a command that did not fail. *)
Definition printed (x : event ans) : option (event env_resp) :=
  match x with
  | existT (ARun i n a) (inl out) => Some (ev (R := env_resp) (VAct (ARun i n a)) (inl out))
  | _ => None
  end.

(** What the executor was told a command printed was printed. *)
Definition told (u : trace ans) (rest : trace env_resp) : Prop := forall x y, x ∈ u -> printed x = Some y -> y ∈ rest.

Lemma told_step u rest t x : told u rest -> (forall y, printed x = Some y -> y ∈ t) -> told (u ++ [x]) (rest ++ t).
Proof.
  intros Hu Hx x' y Hin Hy. apply elem_of_app in Hin as [Hin|Hin]; apply elem_of_app; [left; by eapply Hu|right].
  apply list_elem_of_singleton in Hin as ->. by apply Hx.
Qed.

Section Deploying.
Context (server session : string) (plan : DeployPlan).
Local Abbreviation M := (history (live_policy server session) unasked).

Lemma bystander_wp {X} (p : live X) s : calls bystander p -> wp M p s (fun x s' => exists t, s' = s ++ t /\ runs p t x).
Proof. apply wp_harmless. intros t e He Ht. unfold bystander in He. congruence. Qed.

Lemma since_app s rest t : since_plan server session plan s rest -> since_plan server session plan (s ++ t) (rest ++ t).
Proof. intros (b & y & -> & Hy). exists b, y. by rewrite <- app_assoc. Qed.

Lemma ready_app rest t : ready plan rest -> ready plan (rest ++ t).
Proof.
  intros [Hc Hd]. split; [done|]. intros dp Hdp. destruct (Hd dp Hdp) as (out & Hin & Hf). exists out.
  split; [|done]. apply elem_of_app. by left.
Qed.

Lemma verified_ready u rest : told u rest -> verified Unmarshal plan u -> ready plan rest.
Proof.
  intros Ht [Hc Hv]. split; [done|]. intros dp Hdp. destruct (Hv dp Hdp) as (out & Hin & Hf). exists out.
  split; [by eapply Ht|done].
Qed.

Lemma told_allowed u rest s a : since_plan server session plan s rest -> told u rest ->
  policy Unmarshal GOARCH plan u a -> (forall req, a <> AReport req) -> live_policy server session s (VAct a).
Proof.
  intros Hs Ht [_ Hp] Hr _. exists plan, rest. split; [done|]. cbn.
  assert (Hp' : if is_query a then True else verified Unmarshal plan u /\ named Unmarshal plan a) by (destruct a; try done; by destruct (Hr req)).
  destruct (is_query a); [done|]. destruct Hp' as [Hv Hn]. split; [by eapply verified_ready|done].
Qed.

(** The start of the daemon, by a plan that is ready. *)
Lemma start_wp {X} (p : live X) s rest : since_plan server session plan s rest -> ready plan rest ->
  calls (fun e => match e with VAct _ => False | _ => True end) p ->
  wp M p s (fun x s' => exists t, s' = s ++ t /\ runs p t x).
Proof.
  intros Hs Hr Hp. eapply wp_mono; [eapply (wp_history (live_policy server session) _ p s _ Hp)|].
  - intros t e He Ht. exists plan, (rest ++ t). split; [by apply since_app|].
    destruct e; try done. by apply ready_app.
  - cbv beta. intros x s' (t & -> & Hx & _). by exists t.
Qed.
End Deploying.

(** *** No command outside the executor *)

Lemma exchange_bystander {A} d r c q (dec : string -> option A) : calls bystander (exchange d r c q dec).
Proof. by repeat calls_step. Qed.

Lemma report_bystander n r req last : calls bystander (report_attempts n r req last).
Proof.
  revert last. induction n as [|n IH]; intros last; cbn [report_attempts]; [done|].
  apply calls_bind; [destruct last; unfold deploy_wait; by repeat calls_step|]. intros []; [done|].
  apply calls_bind; [apply exchange_bystander|]. intros [a|err]; [done|apply IH].
Qed.

Lemma fetch_bystander n first r url last : calls bystander (fetch_attempts n first r url last).
Proof.
  revert first last. induction n as [|n IH]; intros first last; cbn [fetch_attempts]; [done|].
  apply calls_bind; [destruct first; unfold deploy_wait; by repeat calls_step|]. intros []; [done|].
  apply calls_bind; [unfold fetchOnce; by repeat calls_step|]. intros [a|err]; [done|apply IH].
Qed.

Lemma health_bystander n deadline last : calls bystander (health_rounds n deadline last).
Proof.
  revert last. induction n as [|n IH]; intros last; cbn [health_rounds]; [by repeat calls_step|].
  apply calls_vis; [done|]. intros now. destruct (negb _); [done|]. apply calls_vis; [done|]. intros [err|]; [|done].
  apply calls_vis; [done|]. intros []; [done|apply IH].
Qed.

Lemma launch_start r cfg : calls (fun e => match e with VAct _ => False | _ => True end) (Launch rounds r cfg).
Proof.
  unfold Launch. apply calls_bind; [unfold resolveCacheSizeMB, readMemTotalBytes; by repeat calls_step|]. intros c. cbv zeta.
  apply calls_bind; [by repeat calls_step|]. intros [err|]; [done|]. apply calls_vis; [done|].
  intros [err|]; [by repeat calls_step|]. apply calls_bind.
  { apply calls_vis; [done|]. intros now. eapply calls_impl; [|apply health_bystander]. by intros []. }
  intros [err|]; by repeat calls_step.
Qed.

(** *** The executor at work *)

Section Working.
Context (server session : string) (plan : DeployPlan).
Local Abbreviation M := (history (live_policy server session) unasked).

(** What is left of a call the executor made with history [u]. *)
Definition served (u : trace ans) (s rest : trace env_resp) (a : act) (x : ans a) (s' : trace env_resp) : Prop :=
  exists t, s' = s ++ t /\ told (u ++ [ev a x]) (rest ++ t).

Lemma act_call_wp u s rest a : since_plan server session plan s rest -> told u rest -> policy Unmarshal GOARCH plan u a ->
  (forall req, a <> AReport req) -> wp M (act_call a) s (served u s rest a).
Proof.
  intros Hs Ht Hp Hr. split; [by eapply told_allowed|]. intros x Hx. exists [ev (R := env_resp) (VAct a) x]. split; [done|].
  apply told_step; [done|]. intros y Hy. assert (y = ev (R := env_resp) (VAct a) x) as ->; [|by left].
  destruct a; try discriminate Hy. cbn in Hy. destruct x; [by injection Hy|discriminate Hy].
Qed.

Lemma unprinted_served u s rest a x t : told u rest -> printed (ev a x) = None -> served u s rest a x (s ++ t).
Proof. intros Ht Hn. exists t. split; [done|]. apply told_step; [done|]. intros y Hy. by rewrite Hn in Hy. Qed.

Lemma no_act_wp u s rest a (p : live (ans a)) : told u rest -> calls bystander p ->
  (forall x, printed (ev a x) = None) -> wp M p s (served u s rest a).
Proof.
  intros Ht Hb Hn. eapply wp_mono; [by apply bystander_wp|]. cbv beta. intros x s' (t & -> & _). by apply unprinted_served.
Qed.

Lemma plainly_wp {X} r (p : live X) s Q : wp M p s (fun x => Q (x, r)) -> wp M (plainly r p) s Q.
Proof. intros Hp. eapply wp_seq; [exact Hp|]. done. Qed.

Lemma under_deploy_wp {X} r (v : X) (p : live X) s Q : wp M p s (fun x => Q (x, r)) -> Q (v, r) s -> wp M (under_deploy r v p) s Q.
Proof. intros Hp Hv. unfold under_deploy. destruct (rp_cancelled r); [done|]. eapply wp_seq; [exact Hp|]. done. Qed.

Lemma refused_served u s rest a x : told u rest -> printed (ev a x) = None -> served u s rest a x s.
Proof. intros Ht Hn. rewrite <- (app_nil_r s) at 2. by apply unprinted_served. Qed.

Lemma perform_wp u s rest r a : since_plan server session plan s rest -> told u rest -> policy Unmarshal GOARCH plan u a ->
  wp M (perform rounds r a) s (fun xr s' => served u s rest a xr.1 s').
Proof.
  intros Hs Ht Hp. assert (Ha : (forall req, a <> AReport req) -> wp M (act_call a) s (served u s rest a)) by (by apply act_call_wp).
  destruct a; cbn [perform];
    try (apply plainly_wp; exact (Ha (fun _ => ltac:(discriminate))));
    try (apply under_deploy_wp; [exact (Ha (fun _ => ltac:(discriminate)))|by apply refused_served]).
  - destruct (uncancellable name); [apply plainly_wp; by apply Ha|apply under_deploy_wp; [by apply Ha|by apply refused_served]].
  - apply plainly_wp. destruct Hp as [_ [Hv _]]. eapply wp_mono; [eapply start_wp; [done|by eapply verified_ready|apply launch_start]|].
    cbv beta. intros x s' (t & -> & _). by apply unprinted_served.
  - apply plainly_wp. apply no_act_wp; [done|by repeat calls_step|done..].
  - apply plainly_wp. apply no_act_wp; [done|apply fetch_bystander|done..].
  - eapply wp_mono; [apply bystander_wp, report_bystander|]. cbv beta. intros xr s' (t & -> & _). exists t. split; [done|].
    by apply told_step.
Qed.

Lemma perform_all_wp {X} (p : agent X) u s rest r Q : since_plan server session plan s rest -> told u rest ->
  wp (guard Unmarshal GOARCH plan) p u Q -> wp M (perform_all rounds r p) s (fun _ s' => exists t, s' = s ++ t).
Proof.
  revert u s rest r. induction p as [a|e k IH]; intros u s rest r Hs Ht Hp; cbn [perform_all].
  - exists []. by rewrite app_nil_r.
  - destruct Hp as [Hpol Hk]. eapply wp_seq; [by eapply perform_wp|]. cbv beta. intros [x r'] s' (t & -> & Ht').
    eapply wp_mono; [eapply IH; [by apply since_app|exact Ht'|exact (Hk x Logic.I)]|]. cbv beta. intros _ s2 [t2 ->].
    exists (t ++ t2). by rewrite app_assoc.
Qed.

Lemma Deploy_wp s rest r : since_plan server session plan s rest ->
  wp M (Deploy Unmarshal GOARCH rounds r plan) s (fun _ s' => exists t, s' = s ++ t).
Proof. intros Hs. eapply (perform_all_wp _ []); [exact Hs| |apply Execute_wp]. intros x y Hx. by apply not_elem_of_nil in Hx. Qed.
End Working.

(** *** From boot *)

Lemma history_weaken {X} (P P' : trace env_resp -> env -> Prop) A (p : live X) s Q :
  (forall t e, P (s ++ t) e -> P' (s ++ t) e) -> wp (history P A) p s Q -> wp (history P' A) p s Q.
Proof.
  revert s. induction p as [x|e k IH]; intros s Hs Hp; [done|]. destruct Hp as [He Hk].
  split; [specialize (Hs [] e); rewrite app_nil_r in Hs; by apply Hs|]. intros r Hr. apply IH; [|by apply Hk].
  intros t e'. cbn. rewrite <- app_assoc. apply Hs.
Qed.

(** The boot token was exchanged for this session. *)
Definition registered (server token session : string) (s : trace env_resp) : Prop :=
  exists hardware y machine,
    ev (R := env_resp) (VDo (authorized "POST" (client_url server RegisterPath) token (enc_register (mkRegisterRequest hardware)))) (inl y) ∈ s /\
    y_StatusCode y = 200 /\ dec_register (y_Body y) = Some (machine, session) /\ machine <> "" /\ session <> "".

Definition agent_policy (server token : string) (s : trace env_resp) (e : env) : Prop :=
  touches e = true -> exists session, registered server token session s /\ live_policy server session s e.

Section Boot.
Context (server token : string).
Local Abbreviation M := (history (agent_policy server token) unasked).

Lemma boot_wp {X} (p : live X) s : calls bystander p -> wp M p s (fun x s' => exists t, s' = s ++ t /\ runs p t x).
Proof. apply wp_harmless. intros t e He Ht. unfold bystander in He. congruence. Qed.

Lemma registered_app session s t : registered server token session s -> registered server token session (s ++ t).
Proof. intros (h & y & m & Hin & Hx). exists h, y, m. split; [|done]. apply elem_of_app. by left. Qed.

Lemma registered_weaken {X} session (p : live X) s Q : registered server token session s ->
  wp (history (live_policy server session) unasked) p s Q -> wp M p s Q.
Proof.
  intros Hr. apply history_weaken. intros t e Hp _. exists session. split; [by apply registered_app|done].
Qed.

Lemma Next_runs session t resp plan : runs (Next server session) t (inl resp) -> nx_Action resp = ActionDeploy -> nx_Plan resp = Some plan ->
  exists y, t = [ev (R := env_resp) (VDo (poll_of server session)) (inl y)] /\ handed_out y = Some plan.
Proof.
  intros (r & t' & -> & -> & Hr) Ha Hp. destruct r as [y|err]; [|discriminate Hr]. exists y. split; [done|]. unfold handed_out.
  destruct (y_StatusCode y =? 200); [|discriminate Hr]. cbn [negb] in Hr. destruct (dec_next (y_Body y)) as [resp'|]; [|discriminate Hr].
  injection Hr as ->. by rewrite Ha, String.eqb_refl.
Qed.

Lemma pollLoop_wp n reg r s : registered server token (rr_SessionToken reg) s ->
  wp M (pollLoop Unmarshal GOARCH rounds n server r reg) s (fun _ _ => True).
Proof.
  revert r s. induction n as [|n IH]; intros r s Hreg; cbn [pollLoop]; [split; [done|by intros []]|].
  eapply wp_seq; [apply boot_wp; by repeat calls_step|]. cbv beta. intros done s1 (t0 & -> & _). destruct done; [exact I|].
  set (s1 := s ++ t0). assert (Hreg1 : registered server token (rr_SessionToken reg) s1) by (by apply registered_app).
  eapply wp_seq; [apply boot_wp; apply exchange_bystander|]. cbv beta. intros resp s2 (t & -> & Hrun).
  apply (wp_seq M _ _ _ (fun _ s' => exists t', s' = (s1 ++ t) ++ t')).
  - destruct resp as [resp|err]; [|cbn; exists []; by rewrite app_nil_r]. destruct (nx_Plan resp) as [plan|] eqn:Hp; [|cbn; exists []; by rewrite app_nil_r].
    destruct (String.eqb_spec (nx_Action resp) ActionDeploy) as [Ha|Ha]; [|cbn; exists []; by rewrite app_nil_r].
    destruct (Next_runs _ _ _ _ Hrun Ha Hp) as (y & -> & Hy). repeat rewrite wp_bind.
    apply (registered_weaken (rr_SessionToken reg)); [by apply registered_app|].
    eapply wp_mono; [eapply (Deploy_wp _ _ plan _ []); by exists s1, y|]. cbv beta. by intros [? ?] s' [t' ->]; exists t'.
  - intros [interval r'] s' [t' ->]. split; [done|]. intros stop _. destruct stop; [exact I|]. apply IH. by do 3 apply registered_app.
Qed.

Lemma register_wp n hardware s : wp M (registerWithRetry n server token hardware) s
  (fun r s' => forall reg, r = inl reg -> registered server token (rr_SessionToken reg) s').
Proof.
  revert s. induction n as [|n IH]; intros s; cbn [registerWithRetry]; [split; [done|by intros []]|].
  eapply wp_seq; [apply boot_wp; unfold Register; apply calls_bind; [apply exchange_bystander|by intros ?]|].
  cbv beta. intros [reg|err] s' (t & -> & Hr).
  - intros reg' [= <-]. apply runs_bind in Hr as (t1 & t2 & v & -> & (x & t3 & -> & -> & Hv) & [-> Hreg]).
    destruct x as [y|err]; [|subst v; discriminate Hreg]. destruct (Z.eqb_spec (y_StatusCode y) 200) as [Hs|]; cbn [negb] in Hv; [|subst v; discriminate Hreg].
    destruct (dec_register (y_Body y)) as [[m tok]|] eqn:Hd; [|subst v; discriminate Hreg]. subst v.
    destruct (String.eqb_spec m "") as [|Hm]; [discriminate Hreg|]. destruct (String.eqb_spec tok "") as [|Htok]; [discriminate Hreg|].
    injection Hreg as ->. exists hardware, y, m. split_and!; try done. apply elem_of_app. right. by left.
  - split; [done|]. intros stop _. destruct stop; [done|]. apply IH.
Qed.
End Boot.

Lemma disks_bystander dir names : calls bystander (each_disk dir names).
Proof.
  induction names as [|n names IH]; cbn [each_disk]; [done|]. destruct (isVirtualBlockDevice n); [done|].
  apply calls_bind; [unfold collectOneDisk, readUint, readTrimmed; by repeat calls_step|]. intros d. apply calls_bind; [done|by intros ?].
Qed.

Lemma nics_bystander dir names : calls bystander (each_nic dir names).
Proof.
  induction names as [|n names IH]; cbn [each_nic]; [done|]. destruct (n =s "lo"); [done|].
  apply calls_bind; [unfold readTrimmed; by repeat calls_step|]. intros d. apply calls_bind; [done|by intros ?].
Qed.

Lemma Collect_bystander root : calls bystander (Collect root).
Proof.
  unfold Collect. apply calls_bind.
  { apply calls_vis; [done|]. intros [entries|err]; [|done]. apply calls_bind; [apply disks_bystander|by intros ?]. }
  intros [disks|err]; [|done]. apply calls_bind.
  { apply calls_vis; [done|]. intros [entries|err]; [|done]. apply calls_bind; [apply nics_bystander|by intros ?]. }
  intros [nics|err]; [|done]. unfold collectMemoryBytes, collectCPUCount. by repeat calls_step.
Qed.

Lemma RunAgent_wp cfg s :
  wp (history (agent_policy (cl_Server (rc_Cmdline cfg)) (cl_Token (rc_Cmdline cfg))) unasked) (RunAgent Unmarshal GOARCH rounds cfg) s (fun _ _ => True).
Proof.
  unfold RunAgent. cbv zeta. destruct (_ || _); [by split|]. eapply wp_seq; [apply boot_wp, Collect_bystander|]. cbv beta.
  intros [hw|err] s1 (t & -> & _); [|exact I]. eapply wp_seq; [apply register_wp|]. cbv beta. intros [reg|err] s2 Hreg; [|exact I].
  eapply wp_seq; [apply pollLoop_wp; by apply Hreg|]. by intros.
Qed.

Definition main_policy (path : string) (s : trace env_resp) (e : env) : Prop :=
  touches e = true -> exists data, ev (R := env_resp) (VReadFile path) (inl data) ∈ s /\
    agent_policy (cl_Server (ParseCmdline data)) (cl_Token (ParseCmdline data)) s e.

Lemma main_wp path root : wp (history (main_policy path) unasked) (main Unmarshal GOARCH rounds path root) [] (fun _ _ => True).
Proof.
  unfold main. eapply wp_seq; [apply (wp_harmless _ _ bystander); [intros t e He Ht; unfold bystander in He; congruence|by repeat calls_step]|].
  cbv beta. intros [cl|err] s (t & -> & Hr); [|exact I]. destruct Hr as (x & t' & -> & -> & Hx). destruct x as [data|err]; [|discriminate Hx].
  injection Hx as ->. eapply history_weaken; [|apply RunAgent_wp]. intros u e Hp _. exists data. split; [by left|exact Hp].
Qed.

(** C6. The executor's guard holds for the agent as it runs from boot, with its
    runner, launcher, fetcher and reporter in place and whatever is answered: at
    every command, file operation, call of the daemon or start of it, the boot
    token of the kernel command line was exchanged for a session, a poll with
    that session handed out a plan, and, unless the call is a size query or reads
    the clock, that plan passed the structural checks and every disk of it has
    since reported a size its layout fits in.  A command is one of the closed
    list the plan allows (on a disk of the plan, on the device of one of its
    slots, or, for a hook step, on the disk and partition the step's parameters
    name), a script is a hook step's and a torrent is written to the device of a
    torrent slot. *)
Theorem agent_guards_the_disks path root tr1 e x tr2 res
    (Hrun : runs (main Unmarshal GOARCH rounds path root) (tr1 ++ ev (R := env_resp) e x :: tr2) res)
    (Htouch : touches e = true) :
  exists data session plan rest,
    ev (R := env_resp) (VReadFile path) (inl data) ∈ tr1 /\
    registered (cl_Server (ParseCmdline data)) (cl_Token (ParseCmdline data)) session tr1 /\
    since_plan (cl_Server (ParseCmdline data)) session plan tr1 rest /\
    allowed_by plan rest e.
Proof.
  destruct (history_obeyed (main_policy path) unasked _ _ _ _ _ _ _ (main_wp path root) Hrun) as (data & Hd & Ha); [by apply Forall_true|done|].
  destruct (Ha Htouch) as (session & Hr & Hl). destruct (Hl Htouch) as (plan & rest & Hs & Hp). by exists data, session, plan, rest.
Qed.

(** ** Abort *)

(** The reply to a progress report that asks for an abort. *)
Definition asks_abort (server : string) (x : event env_resp) : bool :=
  match x with
  | existT (VDo q) (inl y) =>
    (q_Method q =s "POST") && (q_URL q =s client_url server ProgressPath) && (y_StatusCode y =? 200)
    && bool_decide (dec_progress (y_Body y) = Some ProgressActionAbort)
  | _ => false
  end.


Section Abort.
Context (server : string).















End Abort.


Lemma plainly_answers {X} r (p : live X) : answers (plainly r p) (fun xr => xr.2 = r).
Proof. eapply answers_bind; [apply answers_any|]. done. Qed.

Lemma under_deploy_answers {X} r (v : X) (p : live X) : answers (under_deploy r v p) (fun xr => xr.2 = r).
Proof. unfold under_deploy. destruct (rp_cancelled r); [done|]. apply plainly_answers. Qed.

Lemma report_answers n r req last : rp_aborted r = true -> answers (report_attempts n r req last) (fun xr => xr.2 = r).
Proof.
  intros Ha. revert last. induction n as [|n IH]; intros last; cbn [report_attempts]; [done|].
  eapply answers_bind; [apply answers_any|]. intros [] _; [done|]. eapply answers_bind; [apply answers_any|].
  intros [action|err] _; [|apply IH]. unfold abort. rewrite Ha. by destruct (_ =s _).
Qed.

Lemma perform_all_answers {X} (p : agent X) r : rp_aborted r = true -> answers (perform_all rounds r p) (fun xr => xr.2 = r).
Proof.
  intros Ha. induction p as [x|e k IH]; cbn [perform_all]; [done|]. apply (answers_bind _ _ (fun xr => xr.2 = r)).
  - destruct e; cbn [perform]; try apply plainly_answers; try apply under_deploy_answers; [|by apply report_answers].
    destruct (uncancellable name); [apply plainly_answers|apply under_deploy_answers].
  - intros [x r'] Hr. cbn in Hr. subst r'. apply IH.
Qed.

(** The reporter heeds one abort in its life: in a later deploy no answer of the controller cancels anything. *)
Theorem later_aborts_are_ignored r plan tr res r'
    (Hold : rp_aborted r = true) (Hrun : runs (Deploy Unmarshal GOARCH rounds r plan) tr (res, r')) :
  rp_cancelled r' = false /\ rp_aborted r' = true.
Proof.
  pose proof (answers_runs _ _ _ _ (perform_all_answers (Execute Unmarshal GOARCH true false rounds plan) (r <| rp_cancelled := false |>) Hold) Hrun) as E.
  cbn in E. by rewrite E.
Qed.
End Life.

(** ** A machine *)

Module Station.
#[export] Instance json : AgentJSON := {
  enc_register _ := "register"; dec_register s := if s =s "registered" then Some ("m1", "session") else None;
  dec_next s := if s =s "plan" then Some (mkNextResponse ActionDeploy 15 (Some Live.plan)) else None;
  enc_progress _ := "progress"; dec_progress s := if s =s "" then None else Some s }.

Definition reply (body : string) : HttpReply + GoErr := inl (mkHttpReply 200 "200 OK" body None).

(** The controller answers every report with [verdict] and hands out the plan at
    every poll; the state counts the polls, and the machine is shut down after [polls]. *)
Definition handler (verdict : string) (polls : nat) (e : env) (n : nat) : option (env_resp e * nat) :=
  match e return option (env_resp e * nat) with
  | VDo q =>
      if HasSuffix (q_URL q) RegisterPath then Some (reply "registered", n)
      else if HasSuffix (q_URL q) NextPath then Some (reply "plan", S n)
      else if HasSuffix (q_URL q) ProgressPath then Some (reply verdict, n)
      else Some (reply "torrent", n)
  | VDone => Some (false, n)
  | VWait _ => Some (Nat.leb polls n, n)
  | VIdle => Some (tt, n)
  | VReadFile path =>
      Some (if path =s "/proc/cmdline" then inl "boot=live kezio.server=http://boot:8082 kezio.token=boot console=tty0" else inl "", n)
  | VReadDir _ => Some (inl [], n)
  | VReadlink _ => Some (inl "", n)
  | VNow => Some (0, n)
  | VAct a => match Live.handler a tt with Some (x, _) => Some (x, n) | None => None end
  | VDiverge => None
  | VStart _ _ | VKill | VDial _ | VHealthy | VHangUp => Some (None, n)
  end.

Definition agent_main : live (option GoErr) := main Live.unmarshal "amd64" 4 "/proc/cmdline" "/".

Definition log (verdict : string) (polls : nat) : trace env_resp :=
  match exec (handler verdict polls) agent_main 0%nat with Some (_, _, tr) => tr | None => [] end.

Definition command (x : event env_resp) : option string :=
  match projT1 x with
  | VAct (ARun _ name _) => Some name
  | VAct (AAddTorrent _ dev _ _ _) => Some dev
  | VDo q => if HasSuffix (q_URL q) NextPath then Some "poll" else None
  | _ => None
  end.
End Station.
Import Station.

(** ** The command line the boot server writes *)

Definition word (s : string) : bool := forallb (fun c => negb (is_space c)) (list_ascii_of_string s).

Lemma word_app s t : word (s +:+ t) = word s && word t.
Proof. unfold word. by rewrite list_ascii_app, forallb_app. Qed.

Lemma word_cons c s : word (String c s) = negb (is_space c) && word s.
Proof. done. Qed.

Lemma word_trim s : word s = true -> word (TrimRight is_slash s) = true.
Proof.
  induction s as [|c s IH]; [done|]. rewrite word_cons. intros [Hc Hs]%andb_true_iff. cbn [TrimRight]. specialize (IH Hs).
  destruct (TrimRight is_slash s) as [|c' s']; [destruct (is_slash c); [done|]; by rewrite word_cons, Hc|]. by rewrite word_cons, Hc.
Qed.

Lemma fields_word acc w t : word w = true -> fields_from acc (w +:+ t) = fields_from (acc +:+ w) t.
Proof.
  revert acc. induction w as [|c w IH]; intros acc; [by rewrite string_app_nil|]. cbn [word list_ascii_of_string forallb].
  fold (word w). intros [Hc Hw]%andb_true_iff. rewrite append_cons. cbn [fields_from]. apply negb_true_iff in Hc. rewrite Hc, IH by done.
  by rewrite string_app_assoc, append_cons, append_empty.
Qed.

Lemma Fields_words ws : Forall (fun w => word w = true /\ w <> "") ws -> Fields (String.concat " " ws) = ws.
Proof.
  induction 1 as [|w ws [Hw Hne] Hf IH]; [done|]. unfold Fields in *. destruct ws as [|w' ws].
  - change (String.concat " " [w]) with w. rewrite <- (string_app_nil w) at 1. rewrite fields_word, append_empty by done. cbn [fields_from].
    apply String.eqb_neq in Hne. by rewrite Hne.
  - change (String.concat " " (w :: w' :: ws)) with (w +:+ String " " (String.concat " " (w' :: ws))). rewrite fields_word by done.
    rewrite append_empty. cbn [fields_from]. change (is_space " ") with true. cbv iota. rewrite IH. apply String.eqb_neq in Hne. by rewrite Hne.
Qed.

Lemma concat_spaces x l : String.concat " " (x :: l) = x +:+ String.concat "" (map (String.append " ") l).
Proof.
  revert x. induction l as [|y l IH]; intros x; [by rewrite string_app_nil|].
  change (String.concat " " (x :: y :: l)) with (x +:+ " " +:+ String.concat " " (y :: l)). rewrite IH. cbn [map].
  by rewrite concat_empty_cons, string_app_assoc.
Qed.

Definition boot_words (squashfs server token : string) (console : list string) : list string :=
  ["boot=live"; "fetch=" +:+ squashfs; "kezio.server=" +:+ server] ++ (if token <>s "" then ["kezio.token=" +:+ token] else [])
  ++ map (String.append "console=") console.

Lemma console_keep c console : fold_left cmdline_token (map (String.append "console=") console) c = c.
Proof. revert c. induction console as [|x console IH]; intros c; [done|]. cbn [map fold_left]. exact (IH c). Qed.

Lemma boot_words_parse squashfs server token console :
  fold_left cmdline_token (boot_words squashfs server token console) (mkCmdline "" "") = mkCmdline server token.
Proof.
  unfold boot_words. rewrite !fold_left_app, console_keep. destruct (String.eqb_spec token "") as [->|Ht]; reflexivity.
Qed.

Lemma boot_args squashfs server token console :
  "boot=live fetch=" +:+ squashfs +:+ " kezio.server=" +:+ server +:+ (if token <>s "" then " kezio.token=" +:+ token else "") +:+ consoleCmdlineArgs console
  = String.concat " " (boot_words squashfs server token console).
Proof.
  unfold boot_words. cbn [app]. rewrite concat_spaces. cbn [map]. rewrite !concat_empty_cons, map_app.
  assert (Hc : consoleCmdlineArgs console = String.concat "" (map (String.append " ") (map (String.append "console=") console))).
  { unfold consoleCmdlineArgs. by rewrite map_map. }
  rewrite Hc. destruct (String.eqb_spec token "") as [->|Ht]; cbn [negb map app]; rewrite ?concat_empty_cons, ?string_app_assoc; reflexivity.
Qed.

Lemma word_concat l : forallb word l = true -> word (String.concat "" l) = true.
Proof.
  induction l as [|x l IH]; [done|]. cbn [forallb]. intros [Hx Hl]%andb_true_iff. rewrite concat_empty_cons, word_app, Hx. by apply IH.
Qed.

Lemma boot_words_ok squashfs server token console : word squashfs = true -> word server = true -> word token = true -> forallb word console = true ->
  Forall (fun w => word w = true /\ w <> "") (boot_words squashfs server token console).
Proof.
  intros Hs Hv Ht Hc. assert (Hkey : forall c p x, word (String c p) = true -> word x = true -> word (String c p +:+ x) = true /\ String c p +:+ x <> "").
  { intros c p x Hp Hx. split; [by rewrite word_app, Hp|done]. }
  unfold boot_words. apply Forall_app. split; [apply Forall_cons; split; [done|]; do 2 (apply Forall_cons; split; [by apply Hkey|]); done|].
  apply Forall_app. split; [destruct (token <>s ""); [|done]; apply Forall_singleton; by apply Hkey|].
  apply Forall_map, Forall_forall. intros x Hin. apply Hkey; [done|]. rewrite forallb_forall in Hc. apply Hc. by apply list_elem_of_In.
Qed.

(** The text of a boot configuration with these kernel arguments. *)
Definition boot_text (kernel args initrd : string) : string :=
  "set timeout=5" +:+ newline +:+ "linux " +:+ kernel +:+ " " +:+ args +:+ newline +:+ "initrd " +:+ initrd
  +:+ newline +:+ "boot" +:+ newline.

(** C29. What the boot server writes as kernel arguments is what the agent reads
    from a kernel command line of those arguments.  Every configuration it
    renders is the fixed text with a kernel path, arguments and an initrd path,
    and the agent's parser, given the arguments, yields the agent server's URL
    without its trailing slashes and the token, or none when there is none,
    whatever consoles are added.  The boot server's URL, the squashfs path, the
    agent server's URL, the token and the console entries are taken to contain no
    white space.  How GRUB hands the line to the kernel is outside the model. *)
Theorem agent_reads_the_boot_config ParseURL cfg token console config
    (Hr : renderNetBootConfig ParseURL cfg token console = inl config)
    (Hcfg : word (ServerURL cfg) && word (SquashfsPath cfg) && word (AgentServerURL cfg) = true)
    (Hval : word token && forallb word console = true) :
  exists kernel args initrd,
    GrubNetPath ParseURL (TrimRight is_slash (ServerURL cfg)) (String.append "/boot/artifacts/" (KernelPath cfg)) = inl kernel /\
    GrubNetPath ParseURL (TrimRight is_slash (ServerURL cfg)) (String.append "/boot/artifacts/" (InitrdPath cfg)) = inl initrd /\
    config = boot_text kernel args initrd /\
    ParseCmdline args = mkCmdline (TrimRight is_slash (AgentServerURL cfg)) token.
Proof.
  apply andb_true_iff in Hcfg as [[H1 H2]%andb_true_iff H3], Hval as [H4 H5]. unfold renderNetBootConfig in Hr.
  destruct (GrubNetPath ParseURL _ (String.append "/boot/artifacts/" (KernelPath cfg))) as [k|]; [|discriminate Hr].
  destruct (GrubNetPath ParseURL _ _) as [i|]; [|discriminate Hr]. injection Hr as Hr.
  set (sq := sprintf "%s/boot/artifacts/%s" [TrimRight is_slash (ServerURL cfg); SquashfsPath cfg]).
  assert (Hsq : word sq = true).
  { assert (E : sq = TrimRight is_slash (ServerURL cfg) +:+ "/boot/artifacts/" +:+ SquashfsPath cfg +:+ "") by reflexivity.
    rewrite E, !word_app, word_trim, H2 by done. done. }
  set (srv := TrimRight is_slash (AgentServerURL cfg)). assert (Hsrv : word srv = true) by (by apply word_trim).
  pose proof (boot_words_ok sq srv token console Hsq Hsrv H4 H5) as Hwords.
  exists k, (String.concat " " (boot_words sq srv token console)), i.
  split_and!; [done|done| |unfold ParseCmdline; by rewrite Fields_words, boot_words_parse].
  assert (Htext : config = "set timeout=5" +:+ newline +:+ "linux " +:+ k +:+ " " +:+ ("boot=live fetch=" +:+ sq +:+ " kezio.server=" +:+ srv
      +:+ (if token <>s "" then " kezio.token=" +:+ token else "") +:+ consoleCmdlineArgs console +:+ newline +:+ "initrd " +:+ i +:+ newline +:+ "boot" +:+ newline))
    by (rewrite <- Hr; reflexivity).
  rewrite Htext. unfold boot_text. rewrite <- boot_args. rewrite !string_app_assoc. reflexivity.
Qed.

(** ** The requests the server understands *)

Definition header_of (name : string) (q : HttpRequest) : string :=
  match list_find (fun h => h.1 = name) (q_Headers q) with Some (_, h) => h.2 | None => "" end.

Section Wire.
Context `{AgentJSON} (read_register : string -> option RegisterRequest) (read_progress : string -> option ProgressRequest).
Context (Hregister : forall r, read_register (enc_register r) = Some r) (Hprogress : forall r, read_progress (enc_progress r) = Some r).

(** What the routes of the agent server make of a request to its base URL. *)
Definition arrives (base : string) (q : HttpRequest) : option call_in :=
  match CutPrefix (q_URL q) (TrimRight is_slash base) with
  | None => None
  | Some path =>
    let auth := header_of "Authorization" q in
    let version := header_of AgentSchemaVersionHeader q in
    if (q_Method q =s "POST") && (path =s RegisterPath) then Some (AgentServer.Register (mkRequest auth version (read_register (q_Body q))))
    else if (q_Method q =s "GET") && (path =s NextPath) then Some (AgentServer.Next (mkRequest auth version (Some tt)))
    else if (q_Method q =s "POST") && (path =s ProgressPath) then Some (AgentServer.Progress (mkRequest auth version (read_progress (q_Body q))))
    else None
  end.

Definition request_for {B} (token : string) (body : B) : Request B := mkRequest ("Bearer " +:+ token) (show_dec AgentSchemaVersion) (Some body).

Lemma bearer_presented token : token <> "" -> bearerToken ("Bearer " +:+ token) = Some token.
Proof.
  intros Ht. unfold bearerToken. change (HasPrefix ("Bearer " +:+ token) "Bearer ") with (String.prefix "" token).
  assert (Hp : String.prefix "" token = true) by (by destruct token). rewrite Hp. cbn [negb].
  change (String.substring 7 (String.length ("Bearer " +:+ token) - 7) ("Bearer " +:+ token)) with (String.substring 0 (String.length token - 0) token).
  rewrite Nat.sub_0_r, substring_all by done. by destruct (String.eqb_spec token "").
Qed.

Lemma version_passes {B} token (body : B) next : requireAgentSchemaVersion (SchemaHeader (request_for token body)) next = next.
Proof. reflexivity. Qed.

(** Each request of the client reaches its route, with its body read back, passes
    the version check and presents its token. *)
Theorem client_is_understood base token hardware report :
  arrives base (authorized "POST" (client_url base RegisterPath) token (enc_register (mkRegisterRequest hardware)))
    = Some (AgentServer.Register (request_for token (mkRegisterRequest hardware))) /\
  arrives base (authorized "GET" (client_url base NextPath) token "") = Some (AgentServer.Next (request_for token tt)) /\
  arrives base (authorized "POST" (client_url base ProgressPath) token (enc_progress report)) = Some (AgentServer.Progress (request_for token report)).
Proof.
  unfold arrives, authorized, client_url. cbn [q_URL q_Method q_Body q_Headers]. rewrite !CutPrefix_app.
  split_and!; cbn -[enc_register enc_progress]; rewrite ?Hregister, ?Hprogress; reflexivity.
Qed.
End Wire.

(** ** The cache *)

(** The cache stays within its bounds, and leaves at least half of the memory beyond the reserve to the kernel. *)
Theorem cache_leaves_memory m (Hm : 0 <= m < 2 ^ 64) :
  autoCacheMinMB <= AutoCacheSizeMB m <= autoCacheMaxMB /\
  (autoCacheReserveBytes + 2 * autoCacheMinMB * 2 ^ 20 <= m -> 2 * (AutoCacheSizeMB m * 2 ^ 20) <= m - autoCacheReserveBytes).
Proof.
  unfold AutoCacheSizeMB, autoCacheMinMB, autoCacheMaxMB, autoCacheReserveBytes. destruct (Z.leb_spec m (2 * 2 ^ 30)) as [Hle|Hgt]; [lia|].
  rewrite Z.div_div by lia. set (q := (m - 2 * 2 ^ 30) / (2 * 2 ^ 20)).
  assert (Hq : 2 * 2 ^ 20 * q <= m - 2 * 2 ^ 30) by (apply Z.mul_div_le; lia).
  assert (Hq0 : 0 <= q) by (apply Z.div_pos; lia). rewrite int32_id by lia. split; [lia|]. intros Hbig.
  assert (Hlow : 64 <= q) by (apply Z.div_le_lower_bound; lia). rewrite Z.max_l by lia. lia.
Qed.

(** ** Runs of the machine *)

Lemma log_of {A} (h : forall e : env, nat -> option (env_resp e * nat)) (p : live A) a n tr :
  exec h p 0%nat = Some (a, n, tr) -> runs p tr a.
Proof. apply exec_runs. Qed.

Lemma agent_guards_the_disks_witness :
  (log "continue" 1 !! 11%nat) ≫= command = Some "sfdisk" /\
  forall e x, log "continue" 1 !! 11%nat = Some (ev (R := env_resp) e x) -> touches e = true ->
  exists data session plan rest,
    ev (R := env_resp) (VReadFile "/proc/cmdline") (inl data) ∈ firstn 11 (log "continue" 1) /\
    registered (cl_Server (ParseCmdline data)) (cl_Token (ParseCmdline data)) session (firstn 11 (log "continue" 1)) /\
    since_plan (cl_Server (ParseCmdline data)) session plan (firstn 11 (log "continue" 1)) rest /\
    allowed_by Live.unmarshal plan rest e.
Proof.
  split; [vm_compute; reflexivity|]. intros e x Hx Ht.
  refine (agent_guards_the_disks Live.unmarshal "amd64" 4 "/proc/cmdline" "/" (firstn 11 (log "continue" 1)) e x (skipn 12 (log "continue" 1)) None _ Ht).
  rewrite (take_drop_middle _ _ _ Hx). apply (log_of (handler "continue" 1) _ None 1%nat). vm_compute. reflexivity.
Defined.



Lemma agent_reads_the_boot_config_witness :
  let cfg := mkBootConfig "" "/srv" "http://10.0.0.5:8090" "http://10.0.0.5:8091/" "vmlinuz" "initrd" "fs" "/srv" [] in
  exists config kernel args initrd,
    renderNetBootConfig (fun _ => inl (mkURL "http" "10.0.0.5:8090" "")) cfg "secret" ["ttyS0,115200n8"; "tty0"] = inl config /\
    config = boot_text kernel args initrd /\ ParseCmdline args = mkCmdline "http://10.0.0.5:8091" "secret".
Proof.
  intros cfg. eexists.
  destruct (agent_reads_the_boot_config (fun _ => inl (mkURL "http" "10.0.0.5:8090" "")) cfg "secret" ["ttyS0,115200n8"; "tty0"] _ eq_refl)
    as (kernel & args & initrd & _ & _ & Ht & Hp).
  - vm_compute. reflexivity.
  - vm_compute. reflexivity.
  - exists kernel, args, initrd. split; [reflexivity|]. split; [exact Ht|exact Hp].
Defined.

(** The controller answers every report of both deploys with an abort: the first
    one stops, the second one writes the disk and reboots. *)
Theorem second_abort_is_ignored :
  exists tr, runs agent_main tr None /\
    omap command tr = ["poll"; "blockdev"; "poll"; "blockdev"; "sfdisk"; "blockdev"; "/dev/nvme0n1p1"; "mkswap"; "efibootmgr"; "efibootmgr"; "systemctl"] /\
    forallb (fun x => match projT1 x with
                      | VDo q => negb (HasSuffix (q_URL q) ProgressPath) || asks_abort "http://boot:8082" x
                      | _ => true
                      end) tr = true.
Proof.
  exists (log "abort" 2). split; [|split; vm_compute; reflexivity]. apply (log_of (handler "abort" 2) _ None 2%nat). vm_compute. reflexivity.
Qed.
