(* ===== verification/Seeding.v ===== *)
(** * Seeding: registering contents with ezio, and leeching one

    [src/internal/seeder/client.go], the registration loop of a seeder pod
    ([src/cmd/seeder]) and the leecher that puts a partition together again
    ([src/internal/leech], [src/cmd/leechctl]).

    Parameters: SHA-1 and SHA-256, durations as text, the environment and the
    command-line flags as their values, with a positive poll interval.  Log lines are left out; the index the HTTP
    server reads is swapped in one step and threaded through the loop. *)

From S2P Require Import Prelude Text Effects Store Cluster AgentExec SiteDerive PlanBuild SeedDemand Contents Images AgentLive.
Local Open Scope string_scope.
Local Open Scope list_scope.
Local Open Scope Z_scope.

(** ** Calls *)

Inductive swarm :=
| WReadDir (dir : string)
| WStat (path : string)
| WOpen (path : string)
| WReadFile (path : string)
| WCreate (path : string)
| WTruncate (path : string) (size : Z)
| WWriteAt (path data : string) (offset : Z)
| WCloseFile (path : string)
| WInterfaceAddrs (name : string)
| WFetch (url : string)
| WDial (target : string)
| WHangUp
| WRpcAddTorrent (torrent savePath : string) (seedingMode : bool) (maxUploads maxConnections : Z)
| WRpcGetTorrentStatus (hashes : list string)
| WRpcPauseTorrent (hash : string)
| WRpcResumeTorrent (hash : string)
| WRpcShutdown
| WRpcGetVersion
| WTick
| WDiverge.

(** [WRpcAddTorrent] answers the result field; [WInterfaceAddrs] which addresses are
    networks and whether they are IPv4; [WTick] answers [ctx.Err()] when the context
    is done first. *)
Definition swarm_resp (e : swarm) : Type :=
  match e with
  | WReadDir _ => (list DirEntry + GoErr)%type
  | WReadFile _ => (string + GoErr)%type
  | WInterfaceAddrs _ => (list (option bool) + GoErr)%type
  | WFetch _ => (HttpReply + GoErr)%type
  | WRpcAddTorrent _ _ _ _ _ => (bool + GoErr)%type
  | WRpcGetTorrentStatus _ => (list (string * Torrent) + GoErr)%type
  | WHangUp => unit
  | WDiverge => Empty_set
  | _ => option GoErr
  end.

Abbreviation swarmgo := (prog swarm_resp).
Abbreviation wcall := (call (R := swarm_resp)).

(** ** The client of ezio *)

Definition wrap_err (fmt : string) (r : option GoErr) : option GoErr := match r with Some err => Some (wrapf fmt [] err) | None => None end.

Definition Dial (target : string) : swarmgo (option GoErr) :=
  r <- wcall (WDial target) ;; Ret match r with Some err => Some (wrapf "dial ezio at %s: %w" [target] err) | None => None end.

Definition AddTorrent (torrent savePath : string) (seedMode : bool) (maxUploads maxConnections : Z) : swarmgo (option GoErr) :=
  r <- wcall (WRpcAddTorrent torrent savePath seedMode maxUploads maxConnections) ;;
  Ret match r with
      | inr err => Some (wrapf "AddTorrent: %w" [] err)
      | inl true => None
      | inl false => Some (errorf "AddTorrent: ezio reported failure for save_path %s" [savePath])
      end.

Definition GetTorrentStatus (hashes : list string) : swarmgo (gmap string Torrent + GoErr) :=
  r <- wcall (WRpcGetTorrentStatus hashes) ;;
  Ret match r with
      | inr err => inr (wrapf "GetTorrentStatus: %w" [] err)
      | inl torrents => inl (list_to_map torrents)
      end.

Definition PauseTorrent (hash : string) : swarmgo (option GoErr) := r <- wcall (WRpcPauseTorrent hash) ;; Ret (wrap_err "PauseTorrent: %w" r).
Definition ResumeTorrent (hash : string) : swarmgo (option GoErr) := r <- wcall (WRpcResumeTorrent hash) ;; Ret (wrap_err "ResumeTorrent: %w" r).
Definition Shutdown : swarmgo (option GoErr) := r <- wcall WRpcShutdown ;; Ret (wrap_err "Shutdown: %w" r).
Definition Healthy : swarmgo (option GoErr) := r <- wcall WRpcGetVersion ;; Ret (wrap_err "GetVersion: %w" r).

(** ** The registration loop *)

Definition defaultEzioTarget : string := "127.0.0.1:50051".
Definition defaultInterval : Z := 30 * Second.
Definition defaultHTTPAddr : string := ":8080".
Definition defaultSeederInterface : string := "eth0".

Record seeder_config := mkSeederConfig {
  sc_ContentRoot : string; sc_EzioTarget : string; sc_TrackerURL : string; sc_Interface : string;
  sc_Interval : Z; sc_MaxUploads : Z; sc_MaxConnections : Z }.
#[export] Instance eta_seeder_config : Eta seeder_config := fun c =>
  mkSeederConfig (sc_ContentRoot c) (sc_EzioTarget c) (sc_TrackerURL c) (sc_Interface c) (sc_Interval c) (sc_MaxUploads c) (sc_MaxConnections c).

Section Config.
Context (Getenv : string -> string) (ParseDuration : string -> option Z).

Definition envOr (key fallback : string) : string := if Getenv key <>s "" then Getenv key else fallback.

(** [strconv.ParseInt] to 32 bits. *)
Definition ParseInt32 (s : string) : option Z :=
  match Atoi s with Some n => if (- 2 ^ 31 <=? n) && (n <? 2 ^ 31) then Some n else None | None => None end.

Definition int_override (key : string) (set : Z -> seeder_config -> seeder_config) (cfg : seeder_config) : seeder_config + GoErr :=
  let v := Getenv key in
  if v =s "" then inl cfg
  else match ParseInt32 v with
       | None => inr (errorf (String.append "parse " (String.append key " %q: %w")) [v; "invalid syntax"])
       | Some n => inl (set n cfg)
       end.

Definition configFromEnv : seeder_config + GoErr :=
  let cfg := mkSeederConfig (envOr "CONTENT_ROOT" ContentMountRoot) (envOr "EZIO_TARGET" defaultEzioTarget) (Getenv "TRACKER_URL")
               (envOr "SEEDER_INTERFACE" defaultSeederInterface) defaultInterval DefaultMaxUploads DefaultSeederMaxConnections in
  if sc_TrackerURL cfg =s "" then inr (errorf "TRACKER_URL is required" [])
  else
  let v := Getenv "REGISTER_INTERVAL" in
  match (if v =s "" then inl cfg
         else match ParseDuration v with
              | None => inr (errorf "parse REGISTER_INTERVAL %q: %w" [v; "invalid duration"])
              | Some d => if d <=? 0 then inr (errorf "REGISTER_INTERVAL must be positive, got %q" [v]) else inl (cfg <| sc_Interval := d |>)
              end) with
  | inr err => inr err
  | inl cfg =>
    match int_override "EZIO_MAX_UPLOADS" (fun n cfg => cfg <| sc_MaxUploads := n |>) cfg with
    | inr err => inr err
    | inl cfg => int_override "EZIO_MAX_CONNECTIONS" (fun n cfg => cfg <| sc_MaxConnections := n |>) cfg
    end
  end.
End Config.

Record contentEntry := mkContentEntry { ce_dir : string; ce_hash : string; ce_torrentBytes : string }.

(** [torrentIndex]: torrent files by info hash. *)
Abbreviation torrentIndex := (gmap string string).

(** Later entries win. *)
Definition index_set (entries : list contentEntry) : torrentIndex :=
  fold_left (fun m e => <[ce_hash e := ce_torrentBytes e]> m) entries ∅.

Section Register.
Context (sha1 : string -> InfoHash) (cfg : seeder_config).

(** [LoadContentDirTorrentInfo] over these calls. *)
Definition load_info (dir : string) : swarmgo (TorrentInfo + GoErr) :=
  r <- wcall (WReadFile (ContentDirTorrentInfoPath dir)) ;;
  Ret match r with
      | inr err => inr (wrapf "open torrent.info in %s: %w" [dir] err)
      | inl data => match ParseTorrentInfo data with inr err => inr (wrapf "content dir %s: %w" [dir] err) | inl info => inl info end
      end.

Definition content_entry (dir : string) (info : TorrentInfo) : contentEntry + GoErr :=
  match ComputeInfoHash sha1 info with
  | inr err => inr (wrapf "%s: compute info hash: %w" [dir] err)
  | inl hash =>
    match BuildTorrentFile info (sc_TrackerURL cfg) with
    | inr err => inr (wrapf "%s: build torrent file: %w" [dir] err)
    | inl torrentBytes => inl (mkContentEntry dir (InfoHash_String hash) torrentBytes)
    end
  end.

Fixpoint loadContentEntries (dirs : list string) : swarmgo (list contentEntry * list GoErr) :=
  match dirs with
  | [] => Ret ([], [])
  | dir :: dirs =>
    info <- load_info dir ;;
    '(entries, errs) <- loadContentEntries dirs ;;
    Ret match info with
        | inr err => (entries, wrapf "%s: load torrent.info: %w" [dir] err :: errs)
        | inl info => match content_entry dir info with inr err => (entries, err :: errs) | inl e => (e :: entries, errs) end
        end
  end.

Fixpoint content_dirs_from (root : string) (entries : list DirEntry) : swarmgo (list string) :=
  match entries with
  | [] => Ret []
  | e :: entries =>
    if negb (de_IsDir e) then content_dirs_from root entries
    else
    let dir := Join [root; de_Name e] in
    r <- wcall (WStat (ContentDirTorrentInfoPath dir)) ;;
    dirs <- content_dirs_from root entries ;;
    Ret match r with Some _ => dirs | None => dir :: dirs end
  end.

Definition contentDirs (root : string) : swarmgo (list string + GoErr) :=
  r <- wcall (WReadDir root) ;;
  match r with
  | inr err => Ret (if IsNotFound err then inl [] else inr (wrapf "read content root %s: %w" [root] err))
  | inl entries => dirs <- content_dirs_from root entries ;; Ret (inl dirs)
  end.

Definition addContentDir (entry : contentEntry) (existing : gmap string Torrent) : swarmgo (bool + GoErr) :=
  match existing !! ce_hash entry with
  | Some _ => Ret (inl false)
  | None =>
    r <- AddTorrent (ce_torrentBytes entry) (ce_dir entry) true (sc_MaxUploads cfg) (sc_MaxConnections cfg) ;;
    Ret match r with Some err => inr (wrapf "add torrent %s: %w" [ce_hash entry] err) | None => inl true end
  end.

Fixpoint add_entries (entries : list contentEntry) (existing : gmap string Torrent) : swarmgo (list contentEntry * list GoErr) :=
  match entries with
  | [] => Ret ([], [])
  | entry :: entries =>
    r <- addContentDir entry existing ;;
    '(served, errs) <- add_entries entries existing ;;
    Ret match r with inr err => (served, wrapf "%s: %w" [ce_dir entry] err :: errs) | inl _ => (entry :: served, errs) end
  end.

(** The errors joined, and the index the HTTP server has from then on. *)
Definition reconcile (idx : torrentIndex) : swarmgo (list GoErr * torrentIndex) :=
  dirs <- contentDirs (sc_ContentRoot cfg) ;;
  match dirs with
  | inr err => Ret ([err], idx)
  | inl [] => Ret ([], idx)
  | inl dirs =>
    '(entries, errs) <- loadContentEntries dirs ;;
    r <- Dial (sc_EzioTarget cfg) ;;
    match r with
    | Some err => Ret (errs ++ [wrapf "dial ezio at %s: %w" [sc_EzioTarget cfg] err], idx)
    | None =>
      existing <- GetTorrentStatus [] ;;
      match existing with
      | inr err => wcall WHangUp ;; Ret (errs ++ [wrapf "get torrent status: %w" [] err], idx)
      | inl existing =>
        '(served, errs') <- add_entries entries existing ;;
        wcall WHangUp ;;
        Ret (errs ++ errs', index_set served)
      end
    end
  end.

(** The loop of [main], followed for a number of rounds: every index the server has had. *)
Fixpoint register_loop (rounds : nat) (idx : torrentIndex) : swarmgo torrentIndex :=
  match rounds with
  | O => r <- wcall WDiverge ;; match r : Empty_set with end
  | S rounds =>
    '(_, idx) <- reconcile idx ;;
    r <- wcall WTick ;;
    match r with Some _ => Ret idx | None => register_loop rounds idx end
  end.
End Register.

(** ** The HTTP server of the pod *)

Definition torrentsPathPrefix : string := "/torrents/".

Definition interfaceHasIPv4 (name : string) : swarmgo (option GoErr) :=
  r <- wcall (WInterfaceAddrs name) ;;
  Ret match r with
      | inr err => Some (wrapf "looking up interface %q: %w" [name] err)
      | inl addrs => if existsb (fun a => match a with Some true => true | _ => false end) addrs then None
                     else Some (errorf "interface %q has no IPv4 address" [name])
      end.

Inductive torrent_answer := Torrent200 (bytes : string) | Torrent404 | Ready200 | NotReady503 (message : string).

Definition torrentMux (idx : torrentIndex) (ifaceName path : string) : swarmgo torrent_answer :=
  if path =s TorrentHealthzPath then
    r <- interfaceHasIPv4 ifaceName ;;
    Ret match r with Some err => NotReady503 (sprintf "not ready: %v" [emsg err]) | None => Ready200 end
  else match CutPrefix path torrentsPathPrefix with
       | Some hash => Ret match idx !! hash with Some bytes => Torrent200 bytes | None => Torrent404 end
       | None => Ret Torrent404
       end.

(** ** The leecher *)

Definition leech_FetchTorrent (url : string) : swarmgo (string + GoErr) :=
  r <- wcall (WFetch url) ;;
  Ret match r with
      | inr err => inr (wrapf "fetch %s: %w" [url] err)
      | inl y =>
        if negb (y_StatusCode y =? 200) then inr (errorf "fetch %s: unexpected status %s" [url; y_Status y])
        else match y_BodyErr y with
             | Some err => inr (wrapf "read response body from %s: %w" [url] err)
             | None => inl (y_Body y)
             end
      end.

Fixpoint WaitFinished (rounds : nat) (hash : string) : swarmgo (option GoErr) :=
  match rounds with
  | O => r <- wcall WDiverge ;; match r : Empty_set with end
  | S rounds =>
    statuses <- GetTorrentStatus [hash] ;;
    match statuses with
    | inr err => Ret (Some (wrapf "get torrent status for %s: %w" [hash] err))
    | inl statuses =>
      if match statuses !! hash with Some t => t_IsFinished t | None => false end then Ret None
      else
      r <- wcall WTick ;;
      match r with
      | Some err => Ret (Some (wrapf "torrent %s did not finish: %w" [hash] err))
      | None => WaitFinished rounds hash
      end
    end
  end.

(** The loop of [Reconstruct] over the extent files. *)
Fixpoint place_extents (extentsDir outPath : string) (partitionSizeBytes : Z) (entries : list DirEntry) : swarmgo (option GoErr) :=
  match entries with
  | [] => Ret None
  | e :: entries =>
    if de_IsDir e then place_extents extentsDir outPath partitionSizeBytes entries
    else
    match ParseExtentFileName (de_Name e) with
    | inr perr => Ret (Some (wrapf "extents dir %s: %w" [extentsDir] perr))
    | inl offset =>
      r <- wcall (WReadFile (Join [extentsDir; de_Name e])) ;;
      match r with
      | inr rerr => Ret (Some (wrapf "read extent file %s: %w" [de_Name e] rerr))
      | inl data =>
        let end_ := int64 (int64 offset + Z.of_nat (String.length data)) in
        if partitionSizeBytes <? end_ then
          Ret (Some (errorf "extent file %s: offset+length %d exceeds partition size %d" [de_Name e; show_dec end_; show_dec partitionSizeBytes]))
        else
        r <- wcall (WWriteAt outPath data (int64 offset)) ;;
        match r with
        | Some werr => Ret (Some (wrapf "write extent file %s at offset %#x: %w" [de_Name e; sharp_hex offset] werr))
        | None => place_extents extentsDir outPath partitionSizeBytes entries
        end
      end
    end
  end.

(** The file is closed whatever happens; the error of closing counts when there is no other. *)
Definition Reconstruct (extentsDir outPath : string) (partitionSizeBytes : Z) : swarmgo (option GoErr) :=
  r <- wcall (WCreate outPath) ;;
  match r with
  | Some err => Ret (Some (wrapf "create %s: %w" [outPath] err))
  | None =>
    err <- (r <- wcall (WTruncate outPath partitionSizeBytes) ;;
            match r with
            | Some err => Ret (Some (wrapf "truncate %s to %d bytes: %w" [outPath; show_dec partitionSizeBytes] err))
            | None =>
              r <- wcall (WReadDir extentsDir) ;;
              match r with
              | inr err => Ret (Some (wrapf "read extents dir %s: %w" [extentsDir] err))
              | inl entries => place_extents extentsDir outPath partitionSizeBytes entries
              end
            end) ;;
    cerr <- wcall (WCloseFile outPath) ;;
    Ret match err with Some err => Some err | None => cerr end
  end.

Definition SHA256File (sha256 : string -> string) (path : string) : swarmgo (string + GoErr) :=
  r <- wcall (WOpen path) ;;
  match r with
  | Some err => Ret (inr (wrapf "open %s: %w" [path] err))
  | None => r <- wcall (WReadFile path) ;; Ret match r with inr err => inr (wrapf "hash %s: %w" [path] err) | inl data => inl (sha256 data) end
  end.

Record leech_options := mkLeech {
  lo_TorrentURL : string; lo_InfoHash : string; lo_SavePath : string; lo_OutPath : string; lo_PartitionSizeBytes : Z;
  lo_MaxUploads : Z; lo_MaxConnections : Z; lo_PollInterval : Z; lo_WantSHA256 : string }.

(** The digest, as far as it was computed, and the error. *)
Definition leech_Run (sha256 : string -> string) (rounds : nat) (opts : leech_options) : swarmgo (string * option GoErr) :=
  torrent <- leech_FetchTorrent (lo_TorrentURL opts) ;;
  match torrent with
  | inr err => Ret ("", Some err)
  | inl torrent =>
    r <- AddTorrent torrent (lo_SavePath opts) false (lo_MaxUploads opts) (lo_MaxConnections opts) ;;
    match r with
    | Some err => Ret ("", Some (wrapf "add torrent %s: %w" [lo_InfoHash opts] err))
    | None =>
      r <- WaitFinished rounds (lo_InfoHash opts) ;;
      match r with
      | Some err => Ret ("", Some err)
      | None =>
        let extentsDir := ContentDataDir (lo_SavePath opts) in
        r <- Reconstruct extentsDir (lo_OutPath opts) (lo_PartitionSizeBytes opts) ;;
        match r with
        | Some err => Ret ("", Some (wrapf "reconstruct partition from %s: %w" [extentsDir] err))
        | None =>
          digest <- SHA256File sha256 (lo_OutPath opts) ;;
          Ret match digest with
              | inr err => ("", Some err)
              | inl digest =>
                if (lo_WantSHA256 opts <>s "") && (digest <>s lo_WantSHA256 opts)
                then (digest, Some (errorf "reconstructed partition sha256 %s does not match expected %s" [digest; lo_WantSHA256 opts]))
                else (digest, None)
              end
        end
      end
    end
  end.

(** [run] of [leechctl], with its flags: the required ones in the order the map is
    ranged over, the deadline in the answers of the ticker. *)
Definition leechctl_run (sha256 : string -> string) (rounds : nat) (ezioTarget : string) (required : list (string * string)) (opts : leech_options) :
    swarmgo (string * option GoErr) :=
  match List.find (fun f => f.2 =s "") required with
  | Some f => Ret ("", Some (errorf "--%s is required" [f.1]))
  | None =>
    if lo_PartitionSizeBytes opts <=? 0
    then Ret ("", Some (errorf "--partition-size-bytes must be positive, got %d" [show_dec (lo_PartitionSizeBytes opts)]))
    else
    r <- Dial ezioTarget ;;
    match r with
    | Some err => Ret ("", Some err)
    | None => result <- leech_Run sha256 rounds opts ;; wcall WHangUp ;; Ret result
    end
  end.
