(* ===== verification/SeedingSafety.v ===== *)
(** * SeedingSafety: what a seeder serves and what a leecher puts together

    A torrent file is served only for content the pod's ezio holds, under the info
    hash of its own info dict, and what a leecher reconstructs is the partition at
    the extents and zero elsewhere. *)

From S2P Require Import Prelude Text Effects Store Cluster Workloads Api AgentExec SiteDerive PlanBuild SeedDemand Contents Images AgentLive StagingSafety Seeding.
Local Open Scope string_scope.
Local Open Scope list_scope.
Local Open Scope Z_scope.

(** ** What is served *)

Section Served.
Context (sha1 : string -> InfoHash) (cfg : seeder_config).

(** The entry was made from a torrent.info read in this part of the history. *)
Definition made (tr : trace swarm_resp) (e : contentEntry) : Prop :=
  exists data info dict, ev (R := swarm_resp) (WReadFile (ContentDirTorrentInfoPath (ce_dir e))) (inl data) ∈ tr /\
    ParseTorrentInfo data = inl info /\ BuildInfoDict info = inl dict /\ ce_hash e = InfoHash_String (sha1 dict) /\
    BuildTorrentFile info (sc_TrackerURL cfg) = inl (ce_torrentBytes e).

Definition added (tr : trace swarm_resp) (e : contentEntry) : Prop :=
  ev (R := swarm_resp) (WRpcAddTorrent (ce_torrentBytes e) (ce_dir e) true (sc_MaxUploads cfg) (sc_MaxConnections cfg)) (inl true) ∈ tr.

Definition held (tr : trace swarm_resp) (e : contentEntry) : Prop :=
  exists torrents, ev (R := swarm_resp) (WRpcGetTorrentStatus []) (inl torrents) ∈ tr /\ ce_hash e ∈ torrents.*1.

Lemma made_app_l t u e : made t e -> made (t ++ u) e.
Proof. intros (d & i & x & Hin & Hr). exists d, i, x. split; [|done]. apply elem_of_app. by left. Qed.
Lemma made_app_r t u e : made u e -> made (t ++ u) e.
Proof. intros (d & i & x & Hin & Hr). exists d, i, x. split; [|done]. apply elem_of_app. by right. Qed.

Lemma load_runs dirs tr entries errs : runs (loadContentEntries sha1 cfg dirs) tr (entries, errs) -> forall e, e ∈ entries -> made tr e.
Proof.
  revert tr entries errs. induction dirs as [|dir dirs IH]; cbn [loadContentEntries]; intros tr entries errs Hr e He.
  { destruct Hr as [_ Hr]. injection Hr as -> _. by apply not_elem_of_nil in He. }
  apply runs_bind in Hr as (t1 & t2 & info & -> & Hload & Hr). apply runs_bind in Hr as (t3 & t4 & [es er] & -> & Hrest & [-> Hr]).
  assert (Hes : forall e, e ∈ es -> made (t1 ++ t3 ++ []) e) by (intros x Hx; apply made_app_r, made_app_l; by eapply IH).
  destruct info as [info|err]; [|injection Hr as -> _; by apply Hes].
  destruct (content_entry sha1 cfg dir info) as [x|err] eqn:Hx; [|injection Hr as -> _; by apply Hes].
  injection Hr as -> _. apply elem_of_cons in He as [->|He]; [|by apply Hes]. apply made_app_l.
  destruct Hload as (r & t5 & -> & -> & Hl). destruct r as [data|err]; [|discriminate Hl].
  destruct (ParseTorrentInfo data) as [info'|err] eqn:Hp; [|discriminate Hl]. injection Hl as ->.
  unfold content_entry, ComputeInfoHash in Hx. destruct (BuildInfoDict info') as [dict|err] eqn:Hd; [|discriminate Hx].
  destruct (BuildTorrentFile info' (sc_TrackerURL cfg)) as [bytes|err] eqn:Hb; [|discriminate Hx]. injection Hx as <-.
  exists data, info', dict. split_and!; try done. by left.
Qed.

Definition is_add (x : event swarm_resp) : Prop := match projT1 x with WRpcAddTorrent _ _ _ _ _ => True | _ => False end.

Lemma add_runs entries existing tr served errs : runs (add_entries cfg entries existing) tr (served, errs) ->
  (forall e, e ∈ served -> e ∈ entries /\ (is_Some (existing !! ce_hash e) \/ added tr e)) /\
  (forall x, x ∈ tr -> exists e, e ∈ entries /\ existing !! ce_hash e = None /\
     projT1 x = WRpcAddTorrent (ce_torrentBytes e) (ce_dir e) true (sc_MaxUploads cfg) (sc_MaxConnections cfg)).
Proof.
  revert tr served errs. induction entries as [|e entries IH]; cbn [add_entries]; intros tr served errs Hr.
  { destruct Hr as [-> Hr]. injection Hr as -> _. split; intros ? H; by apply not_elem_of_nil in H. }
  apply runs_bind in Hr as (t1 & t2 & r & -> & Hadd & Hr). apply runs_bind in Hr as (t3 & t4 & [sv er] & -> & Hrest & [-> Hr]).
  destruct (IH _ _ _ Hrest) as [Hs Ha]. rewrite app_nil_r.
  assert (Hone : (forall b, r = inl b -> is_Some (existing !! ce_hash e) \/ added t1 e) /\
    forall x, x ∈ t1 -> existing !! ce_hash e = None /\ projT1 x = WRpcAddTorrent (ce_torrentBytes e) (ce_dir e) true (sc_MaxUploads cfg) (sc_MaxConnections cfg)).
  { unfold addContentDir in Hadd. destruct (existing !! ce_hash e) as [t|] eqn:Hx.
    - destruct Hadd as [-> ->]. split; [left; by eexists|]. intros x H. by apply not_elem_of_nil in H.
    - destruct Hadd as (ok & t5 & -> & -> & Hres). split; [|intros x H; apply list_elem_of_singleton in H as ->; done].
      intros b ->. right. destruct ok as [[]|err]; try discriminate Hres. by left. }
  destruct Hone as [H1 H2].
  assert (Hserved : forall x, x ∈ sv -> x ∈ e :: entries /\ (is_Some (existing !! ce_hash x) \/ added (t1 ++ t3) x)).
  { intros x Hx. destruct (Hs x Hx) as [? [?|?]]; (split; [by right|]); [by left|]. right. apply elem_of_app. by right. }
  split.
  - intros x Hx. destruct r as [b|err]; injection Hr as -> _; [|by apply Hserved]. apply elem_of_cons in Hx as [->|Hx]; [|by apply Hserved].
    split; [by left|]. destruct (H1 b eq_refl) as [?|?]; [by left|]. right. apply elem_of_app. by left.
  - intros x Hx. apply elem_of_app in Hx as [Hx|Hx].
    + exists e. split; [by left|]. by apply H2.
    + destruct (Ha x Hx) as (e' & ? & ? & ?). exists e'. split; [by right|done].
Qed.

Lemma index_set_lookup entries h b : index_set entries !! h = Some b -> exists e, e ∈ entries /\ ce_hash e = h /\ ce_torrentBytes e = b.
Proof.
  unfold index_set. assert (Hg : forall m : torrentIndex, fold_left (fun m e => <[ce_hash e := ce_torrentBytes e]> m) entries m !! h = Some b ->
    m !! h = Some b \/ exists e, e ∈ entries /\ ce_hash e = h /\ ce_torrentBytes e = b).
  { induction entries as [|e entries IH]; intros m Hm; [by left|]. cbn [fold_left] in Hm. destruct (IH _ Hm) as [H|(e' & ? & ? & ?)].
    - destruct (decide (ce_hash e = h)) as [<-|Hne].
      + rewrite lookup_insert in H. case_decide; [|done]. injection H as <-. right. exists e. split_and!; [by left|done..].
      + rewrite lookup_insert_ne in H by done. by left.
    - right. exists e'. split_and!; [by right|done..]. }
  intros H. destruct (Hg ∅ H) as [Hl|?]; [by rewrite lookup_empty in Hl|done].
Qed.

(** Nothing is added here. *)
Definition no_add (e : swarm) : Prop := match e with WRpcAddTorrent _ _ _ _ _ => False | _ => True end.

Lemma no_add_runs {X} (p : swarmgo X) tr x y : calls no_add p -> runs p tr x -> y ∈ tr -> ~ is_add y.
Proof.
  intros Hc Hr Hy Ha. pose proof (calls_runs _ _ _ _ Hc Hr) as Hf. rewrite Forall_forall in Hf. specialize (Hf y Hy).
  unfold is_add in Ha. by destruct (projT1 y).
Qed.

Lemma dirs_no_add root entries : calls no_add (content_dirs_from root entries).
Proof.
  induction entries as [|e entries IH]; [done|]. cbn [content_dirs_from]. destruct (negb _); [done|]. cbv zeta.
  apply calls_vis; [done|]. intros r. apply calls_bind; [done|by intros ?].
Qed.

Lemma contentDirs_no_add root : calls no_add (contentDirs root).
Proof. apply calls_vis; [done|]. intros [es|err]; [|done]. apply calls_bind; [apply dirs_no_add|by intros ?]. Qed.

Lemma load_no_add dirs : calls no_add (loadContentEntries sha1 cfg dirs).
Proof.
  induction dirs as [|d dirs IH]; [done|]. cbn [loadContentEntries]. apply calls_bind; [by repeat calls_step|]. intros i.
  apply calls_bind; [done|by intros []].
Qed.

(** An entry ezio held or took in this pass. *)
Definition confirmed (tr : trace swarm_resp) (h bytes : string) : Prop :=
  exists e, ce_hash e = h /\ ce_torrentBytes e = bytes /\ made tr e /\ (held tr e \/ added tr e).

(** An addition is of an entry made in this pass that ezio did not list. *)
Definition add_ok (tr : trace swarm_resp) (x : event swarm_resp) : Prop :=
  exists e torrents, made tr e /\ ev (R := swarm_resp) (WRpcGetTorrentStatus []) (inl torrents) ∈ tr /\ (ce_hash e ∉ torrents.*1) /\
    projT1 x = WRpcAddTorrent (ce_torrentBytes e) (ce_dir e) true (sc_MaxUploads cfg) (sc_MaxConnections cfg).

Lemma reconcile_runs idx tr errs idx' : runs (reconcile sha1 cfg idx) tr (errs, idx') ->
  (idx' = idx \/ forall h b, idx' !! h = Some b -> confirmed tr h b) /\ (forall x, x ∈ tr -> is_add x -> add_ok tr x).
Proof.
  unfold reconcile. intros (t1 & t2 & dirs & -> & Hdirs & Hr)%runs_bind.
  assert (N1 : forall x, x ∈ t1 -> ~ is_add x) by (intros x; apply (no_add_runs _ _ _ _ (contentDirs_no_add _) Hdirs)).
  assert (Hquiet : forall t, (forall x, x ∈ t -> ~ is_add x) -> forall x, x ∈ t1 ++ t -> is_add x -> add_ok (t1 ++ t) x).
  { intros t Ht x Hx Ha. apply elem_of_app in Hx as [Hx|Hx]; [by destruct (N1 x Hx)|by destruct (Ht x Hx)]. }
  assert (Hnil : forall x : event swarm_resp, x ∈ [] -> ~ is_add x) by (intros x Hx; by apply not_elem_of_nil in Hx).
  destruct dirs as [[|d dirs]|err]; [destruct Hr as [-> Hr]; injection Hr as _ ->; split; [by left|by apply Hquiet]| |
    destruct Hr as [-> Hr]; injection Hr as _ ->; split; [by left|by apply Hquiet]].
  apply runs_bind in Hr as (t3 & t4 & [entries er] & -> & Hload & Hr). pose proof (load_runs _ _ _ _ Hload) as Hmade.
  assert (N3 : forall x, x ∈ t3 -> ~ is_add x) by (intros x; apply (no_add_runs _ _ _ _ (load_no_add _) Hload)).
  apply runs_bind in Hr as (t5 & t6 & r & -> & (r5 & t' & -> & -> & Hr5) & Hr). destruct r as [err|].
  { destruct Hr as [-> Hr]. injection Hr as _ ->. split; [by left|]. apply Hquiet. intros x Hx.
    apply elem_of_app in Hx as [Hx|Hx]; [by apply N3|]. apply list_elem_of_singleton in Hx as ->. by intros []. }
  apply runs_bind in Hr as (t7 & t8 & st & -> & (r7 & t' & -> & -> & Hr7) & Hr).
  assert (Hhead : forall t, (forall x, x ∈ t -> ~ is_add x) ->
    forall x, x ∈ t3 ++ [ev (R := swarm_resp) (WDial (sc_EzioTarget cfg)) r5] ++ [ev (R := swarm_resp) (WRpcGetTorrentStatus []) r7] ++ t -> ~ is_add x).
  { intros t Ht x Hx. apply elem_of_app in Hx as [Hx|Hx]; [by apply N3|]. apply elem_of_cons in Hx as [->|Hx]; [by intros []|].
    apply elem_of_cons in Hx as [->|Hx]; [by intros []|]. by apply Ht. }
  destruct r7 as [torrents|err]; subst st.
  2: { destruct Hr as (u & t' & -> & -> & Hr). injection Hr as _ ->. split; [by left|]. apply Hquiet, Hhead.
       intros x Hx. apply list_elem_of_singleton in Hx as ->. by intros []. }
  apply runs_bind in Hr as (t9 & t10 & [served er'] & -> & Hadds & Hr). destruct Hr as (u & t' & -> & -> & Hr). injection Hr as _ ->.
  destruct (add_runs _ _ _ _ _ Hadds) as [Hs Ha]. set (T := t1 ++ t3 ++ _).
  assert (Hm : forall e, e ∈ entries -> made T e) by (intros e He; apply made_app_r, made_app_l; by apply Hmade).
  assert (Hst : ev (R := swarm_resp) (WRpcGetTorrentStatus []) (inl torrents) ∈ T) by (unfold T; rewrite !elem_of_app; set_solver).
  assert (Hin : forall x, x ∈ t9 -> x ∈ T) by (intros x Hx; unfold T; rewrite !elem_of_app; set_solver). split.
  - right. intros h b Hh. apply index_set_lookup in Hh as (e & He & Hh & Hb). destruct (Hs e He) as [Hent Hor]. exists e. split_and!; [done..|by apply Hm|].
    destruct Hor as [[t Ht]|Hadd]; [left|right; by apply Hin]. exists torrents. split; [done|].
    apply elem_of_list_to_map_2 in Ht. apply list_elem_of_fmap. by exists (ce_hash e, t).
  - intros x Hx Hadd. assert (Hx9 : x ∈ t9).
    { unfold T in Hx. rewrite !elem_of_app in Hx. destruct Hx as [Hx|[Hx|[Hx|[Hx|[Hx|Hx]]]]]; [by destruct (N1 x Hx)|by destruct (N3 x Hx)| | |done|];
        apply list_elem_of_singleton in Hx as ->; by destruct Hadd. }
    destruct (Ha x Hx9) as (e & He & Hnone & Hp). exists e, torrents. split_and!; [by apply Hm|done| |done].
    by apply not_elem_of_list_to_map_2.
Qed.

(** One pass of the registration loop lies in this history and has this property. *)
Definition in_a_pass (P : trace swarm_resp -> Prop) (tr : trace swarm_resp) : Prop :=
  exists t1 t2 t3 idx res, tr = t1 ++ t2 ++ t3 /\ runs (reconcile sha1 cfg idx) t2 res /\ P t2.

Lemma in_a_pass_l P t u : in_a_pass P t -> in_a_pass P (t ++ u).
Proof. intros (t1 & t2 & t3 & i & r & -> & Hr & Hp). exists t1, t2, (t3 ++ u), i, r. by rewrite <- !app_assoc. Qed.
Lemma in_a_pass_r P t u : in_a_pass P u -> in_a_pass P (t ++ u).
Proof. intros (t1 & t2 & t3 & i & r & -> & Hr & Hp). exists (t ++ t1), t2, t3, i, r. by rewrite <- !app_assoc. Qed.

Lemma loop_runs rounds pre idx tr idx' : runs (register_loop sha1 cfg rounds idx) tr idx' ->
  (forall h b, idx !! h = Some b -> in_a_pass (fun t => confirmed t h b) pre) ->
  (forall h b, idx' !! h = Some b -> in_a_pass (fun t => confirmed t h b) (pre ++ tr)) /\
  (forall x, x ∈ tr -> is_add x -> in_a_pass (fun t => x ∈ t /\ add_ok t x) tr).
Proof.
  revert pre idx tr. induction rounds as [|rounds IH]; cbn [register_loop]; intros pre idx tr Hr Hidx; [destruct Hr as ([] & _)|].
  apply runs_bind in Hr as (t1 & t2 & [errs idx1] & -> & Hpass & (r & t3 & -> & Hr)).
  destruct (reconcile_runs _ _ _ _ Hpass) as [Hnew Hadds].
  assert (Hone : forall P, P t1 -> in_a_pass P t1) by (intros P Hp; exists [], t1, [], idx, (errs, idx1); by rewrite app_nil_r).
  assert (Hidx1 : forall h b, idx1 !! h = Some b -> in_a_pass (fun t => confirmed t h b) (pre ++ t1)).
  { intros h b Hb. destruct Hnew as [->|Hnew]; [by apply in_a_pass_l, Hidx|by apply in_a_pass_r, Hone, Hnew]. }
  set (tick := ev _ r).
  assert (Hx1 : forall x t, x ∈ t1 -> is_add x -> in_a_pass (fun t => x ∈ t /\ add_ok t x) (t1 ++ t)).
  { intros x t Hx Ha. apply in_a_pass_l, Hone. split; [done|by apply Hadds]. }
  destruct r as [err|].
  - destruct Hr as [-> ->]. split; [intros h b Hb; rewrite app_assoc; by apply in_a_pass_l, Hidx1|].
    intros x [Hx|Hx]%elem_of_app; [by apply Hx1|]. apply list_elem_of_singleton in Hx as ->. by intros [].
  - destruct (IH (pre ++ t1 ++ [tick]) _ _ Hr) as [Hb Ha]; [intros h b Hb; rewrite app_assoc; by apply in_a_pass_l, Hidx1|].
    split; [intros h b H; specialize (Hb h b H); by rewrite <- !app_assoc in Hb|].
    intros x [Hx|Hx]%elem_of_app Hadd; [by apply Hx1|]. apply elem_of_cons in Hx as [->|Hx]; [by destruct Hadd|].
    apply in_a_pass_r. change (tick :: t3) with ([tick] ++ t3). apply in_a_pass_r. by apply Ha.
Qed.
End Served.

(** C18. What the pod's HTTP server hands out under an info hash is the torrent file of
    a content read in one pass of the registration loop, hashed from that content's
    own info dict, that ezio listed or took in that same pass; and every torrent the
    loop adds to ezio, for seeding, is one read in that pass that ezio did not list. *)
Theorem served_torrents_are_seeded (sha1 : string -> InfoHash) (cfg : seeder_config) rounds tr idx iface h bytes tr' :
  runs (register_loop sha1 cfg rounds ∅) tr idx ->
  (runs (torrentMux idx iface (torrentsPathPrefix +:+ h)) tr' (Torrent200 bytes) -> in_a_pass sha1 cfg (fun t => confirmed sha1 cfg t h bytes) tr) /\
  (forall x, x ∈ tr -> is_add x -> in_a_pass sha1 cfg (fun t => x ∈ t /\ add_ok sha1 cfg t x) tr).
Proof.
  intros Hloop. destruct (loop_runs sha1 cfg rounds [] ∅ tr idx Hloop) as [Hserved Hadds]; [intros k b Hb; by rewrite lookup_empty in Hb|].
  split; [|done]. intros Hmux. apply Hserved. unfold torrentMux in Hmux. destruct (_ =s TorrentHealthzPath).
  - destruct Hmux as (r & t & -> & _ & Hr). destruct r as [addrs|err]; [|discriminate Hr]. destruct (existsb _ addrs); discriminate Hr.
  - rewrite CutPrefix_app in Hmux. destruct Hmux as [_ Hm]. destruct (idx !! h); [by injection Hm as ->|discriminate Hm].
Qed.

(** ** What a leecher puts together *)

Definition bytes_of (s : string) : list ascii := list_ascii_of_string s.

Lemma bytes_of_length s : length (bytes_of s) = String.length s.
Proof. induction s as [|c s IH]; [done|]. cbn. by f_equal. Qed.

(** The file system: a file created is empty, resizing pads with zeros, and a write
    past the end fills the gap with zeros. *)
Definition resized (n : nat) (f : list ascii) : list ascii := firstn n f ++ replicate (n - length f) zero.
Definition written (o : nat) (d f : list ascii) : list ascii :=
  firstn o f ++ replicate (o - length f) zero ++ d ++ skipn (o + length d) f.

Definition file_step (path : string) (f : list ascii) (x : event swarm_resp) : list ascii :=
  match x with
  | existT (WCreate p) None => if p =s path then [] else f
  | existT (WTruncate p n) None => if p =s path then resized (Z.to_nat n) f else f
  | existT (WWriteAt p d o) None => if p =s path then written (Z.to_nat o) (bytes_of d) f else f
  | _ => f
  end.

Definition file_after (path : string) (tr : trace swarm_resp) (f : list ascii) : list ascii := fold_left (file_step path) tr f.

(** The limits of [File.WriteAt]: a negative offset or one past the largest file is an error. *)
Definition write_limits (tr : trace swarm_resp) : Prop :=
  forall p d o, ev (R := swarm_resp) (WWriteAt p d o) None ∈ tr -> 0 <= o /\ o + Z.of_nat (String.length d) < 2 ^ 63.

(** An extent file of the listing that was read, with its place. *)
Definition extent_read (dir : string) (entries : list DirEntry) (tr : trace swarm_resp) (o : nat) (d : list ascii) : Prop :=
  exists e offset data, e ∈ entries /\ de_IsDir e = false /\ ParseExtentFileName (de_Name e) = inl offset /\ o = Z.to_nat (int64 offset) /\
    d = bytes_of data /\ ev (R := swarm_resp) (WReadFile (Join [dir; de_Name e])) (inl data) ∈ tr.

Definition place (f : list ascii) (x : nat * list ascii) : list ascii := written x.1 x.2 f.
Definition covers (i : nat) (x : nat * list ascii) : bool := (x.1 <=? i)%nat && (i <? x.1 + length x.2)%nat.

Lemma place_runs dir out size entries tr : runs (place_extents dir out size entries) tr None -> write_limits tr ->
  exists placed, (forall f, file_after out tr f = fold_left place placed f) /\
    (forall x, x ∈ placed -> Z.of_nat (x.1 + length x.2) <= size /\ extent_read dir entries tr x.1 x.2) /\
    (forall e, e ∈ entries -> de_IsDir e = false -> exists x, x ∈ placed /\ extent_read dir [e] tr x.1 x.2).
Proof.
  revert tr. induction entries as [|e entries IH]; cbn [place_extents]; intros tr Hr Hlim.
  { destruct Hr as [-> _]. exists []. split_and!; [done|intros x Hx|intros x Hx]; by apply not_elem_of_nil in Hx. }
  destruct (de_IsDir e) eqn:Hd.
  { destruct (IH tr Hr Hlim) as (placed & Hf & Hp & He). exists placed. split_and!; [done| |].
    - intros x Hx. destruct (Hp x Hx) as [? (e' & o & d & ? & ?)]. split; [done|]. exists e', o, d. split; [by right|done].
    - intros e' [->|He']%elem_of_cons Hd'; [congruence|by apply He]. }
  destruct (ParseExtentFileName (de_Name e)) as [offset|perr] eqn:Hoff; [|by destruct Hr].
  destruct Hr as ([data|rerr] & t1 & -> & Hr); [|by destruct Hr]. cbn [bind] in Hr.
  destruct (Z.ltb_spec size (int64 (int64 offset + Z.of_nat (String.length data)))) as [|Hend]; [by destruct Hr|].
  destruct Hr as ([werr|] & t2 & -> & Hr); [by destruct Hr|].
  destruct (Hlim out data (int64 offset)) as [Hpos Hmax]; [by right; left|].
  destruct (IH t2 Hr) as (placed & Hf & Hp & He); [intros p d o Ho; apply (Hlim p d o); by right; right|].
  rewrite int64_id in Hend by lia.
  assert (Hmine : extent_read dir [e] (ev (R := swarm_resp) (WReadFile (Join [dir; de_Name e])) (inl data) :: ev (R := swarm_resp) (WWriteAt out data (int64 offset)) None :: t2)
    (Z.to_nat (int64 offset)) (bytes_of data)) by (exists e, offset, data; split_and!; try done; by left).
  exists ((Z.to_nat (int64 offset), bytes_of data) :: placed). split_and!.
  - intros f. unfold file_after. cbn [fold_left file_step ev place]. by rewrite String.eqb_refl, <- Hf.
  - intros x [->|Hx]%elem_of_cons.
    + cbn [fst snd]. rewrite bytes_of_length. split; [lia|]. destruct Hmine as (e' & o & d & Hin & Hr'). apply list_elem_of_singleton in Hin as ->.
      exists e, o, d. split; [by left|done].
    + destruct (Hp x Hx) as [? (e' & o & d & ? & ? & ? & ? & ? & ?)]. split; [done|]. exists e', o, d. split_and!; try done; [by right|by right; right].
  - intros e' [->|He']%elem_of_cons Hd'; [exists (Z.to_nat (int64 offset), bytes_of data); split; [by left|done]|].
    destruct (He e' He' Hd') as (x & Hx & (e'' & o & d & ? & ? & ? & ? & ? & ?)). exists x. split; [by right|].
    exists e'', o, d. split_and!; try done; by right; right.
Qed.

Lemma written_length o d f : (o + length d <= length f)%nat -> length (written o d f) = length f.
Proof. intros H. unfold written. rewrite !length_app, length_take, length_replicate, length_drop. lia. Qed.

Lemma written_lookup o d f i : (o + length d <= length f)%nat ->
  written o d f !! i = if covers i (o, d) then d !! (i - o)%nat else f !! i.
Proof.
  intros H. unfold written, covers. cbn [fst snd]. assert (Hz : (o - length f = 0)%nat) by lia. rewrite Hz. cbn [replicate app].
  assert (Ho : length (firstn o f) = o) by (rewrite length_take; lia).
  destruct (Nat.leb_spec o i) as [Hoi|Hoi]; cbn [andb].
  - rewrite lookup_app_r, Ho by lia. destruct (Nat.ltb_spec i (o + length d)).
    + by rewrite lookup_app_l by lia.
    + rewrite lookup_app_r, lookup_drop by lia. f_equal. lia.
  - rewrite lookup_app_l by lia. by rewrite lookup_take_lt.
Qed.

(** The bytes of the partition at this place. *)
Definition slice_of (part : list ascii) (o : nat) (d : list ascii) : Prop := forall j, (j < length d)%nat -> d !! j = part !! (o + j)%nat.

Lemma places_lookup part placed f : (forall x, x ∈ placed -> (x.1 + length x.2 <= length f)%nat /\ slice_of part x.1 x.2) ->
  length (fold_left place placed f) = length f /\
  forall i, fold_left place placed f !! i = if existsb (covers i) placed then part !! i else f !! i.
Proof.
  revert f. induction placed as [|[o d] placed IH]; intros f Hp; [done|]. cbn [fold_left]. change (place f (o, d)) with (written o d f).
  destruct (Hp (o, d)) as [Hb Hs]; [by left|]. cbn [fst snd] in Hb, Hs. pose proof (written_length o d f Hb) as Hlen.
  destruct (IH (written o d f)) as [Hl Hi]; [intros x Hx; rewrite Hlen; apply Hp; by right|]. split; [congruence|].
  intros i. rewrite Hi. cbn [existsb]. destruct (existsb (covers i) placed); [by rewrite orb_true_r|]. rewrite orb_false_r, written_lookup by done.
  destruct (covers i (o, d)) eqn:Hc; [|done]. unfold covers in Hc. cbn [fst snd] in Hc. rewrite andb_true_iff, Nat.leb_le, Nat.ltb_lt in Hc.
  rewrite Hs by lia. f_equal. lia.
Qed.

(** C19. A reconstruction that succeeds placed every regular file of the extents
    directory, and nothing else; the file it leaves has the size of the partition,
    and where the extent files hold the partition's own bytes it agrees with the
    partition on every extent and is zero everywhere else. *)
Theorem reconstruct_is_the_partition dir out size part before tr :
  runs (Reconstruct dir out size) tr None -> write_limits tr -> 0 <= size ->
  (forall entries o d, ev (R := swarm_resp) (WReadDir dir) (inl entries) ∈ tr -> extent_read dir entries tr o d -> slice_of part o d) ->
  exists entries placed, ev (R := swarm_resp) (WReadDir dir) (inl entries) ∈ tr /\
    (forall e, e ∈ entries -> de_IsDir e = false -> exists x, x ∈ placed /\ extent_read dir [e] tr x.1 x.2) /\
    (forall x, x ∈ placed -> extent_read dir entries tr x.1 x.2) /\
    length (file_after out tr before) = Z.to_nat size /\
    forall i, (i < Z.to_nat size)%nat -> file_after out tr before !! i = if existsb (covers i) placed then part !! i else Some zero.
Proof.
  intros Hr Hlim Hsize Hpart. destruct Hr as ([err|] & t1 & -> & Hr); [by destruct Hr|]. cbn [bind] in Hr.
  destruct Hr as ([err|] & t2 & -> & Hr); [destruct Hr as (? & ? & -> & [_ Hr]); discriminate Hr|]. cbn [bind] in Hr.
  destruct Hr as ([entries|err] & t3 & -> & Hr); [|destruct Hr as (? & ? & -> & [_ Hr]); discriminate Hr]. cbn [bind] in Hr.
  apply runs_bind in Hr as (t4 & t5 & res & -> & Hplace & Hr). destruct Hr as (cerr & t6 & -> & -> & Hr). destruct res as [err|]; [discriminate Hr|].
  set (T := _ :: _ :: _ :: _) in *.
  assert (Hsub : forall x, x ∈ t4 -> x ∈ T) by (intros x Hx; unfold T; do 3 right; apply elem_of_app; by left).
  assert (Hmono : forall es o d, extent_read dir es t4 o d -> extent_read dir es T o d).
  { intros es o d (e & off & data & H1 & H2 & H3 & H4 & H5 & H6). exists e, off, data. split_and!; try done. by apply Hsub. }
  assert (Hls : ev (R := swarm_resp) (WReadDir dir) (inl entries) ∈ T) by (unfold T; by do 2 right; left).
  destruct (place_runs _ _ _ _ _ Hplace) as (placed & Hf & Hp & He); [intros p d o Ho; by apply (Hlim p d o), Hsub|].
  exists entries, placed. split; [done|]. split; [intros e Hin Hd; destruct (He e Hin Hd) as (x & ? & ?); exists x; split; [done|by apply Hmono]|].
  split; [intros x Hx; by apply Hmono, Hp|].
  assert (Hfile : file_after out T before = fold_left place placed (replicate (Z.to_nat size) zero)).
  { unfold T, file_after. cbn [fold_left file_step ev]. rewrite !String.eqb_refl, fold_left_app. unfold resized.
    rewrite take_nil, Nat.sub_0_r. cbn [app length]. fold (file_after out t4 (replicate (Z.to_nat size) zero)). rewrite Hf. by destruct cerr. }
  rewrite Hfile. destruct (places_lookup part placed (replicate (Z.to_nat size) zero)) as [Hl Hi].
  - intros x Hx. destruct (Hp x Hx) as [Hb Hx']. rewrite length_replicate. split; [lia|]. by apply (Hpart entries), Hmono.
  - rewrite length_replicate in Hl. split; [done|]. intros i Hlt. rewrite Hi. destruct (existsb _ _); [done|]. by apply lookup_replicate_2.
Qed.

(** ** The environment of the pod *)

(** The value a container finds in its environment: the last of its name, else nothing. *)
Definition getenv (env : list EnvVar) (k : string) : string :=
  fold_left (fun v e => if env_Name e =s k then env_Value e else v) env "".

(** What the Image reconciler writes into the container of the registration loop is
    read back by it: the content root it mounts, the pod's own ezio, the limits of
    the controller and the tracker of the Subnet; without a tracker the loop does
    not start. *)
Theorem register_reads_its_environment ParseDuration (cfg : ImageSeederConfig) res :
  0 < maxUploads cfg < 2 ^ 31 -> 0 < maxConnections cfg < 2 ^ 31 ->
  configFromEnv (getenv (seederRegisterEnv cfg res)) ParseDuration =
    if res_TrackerURL res =s "" then inr (errorf "TRACKER_URL is required" [])
    else inl (mkSeederConfig ContentMountRoot "127.0.0.1:50051" (res_TrackerURL res) "eth0" defaultInterval (maxUploads cfg) (maxConnections cfg)).
Proof.
  intros Hu Hc. unfold configFromEnv, envOr, int_override. set (g := getenv _).
  assert (Hg : g "CONTENT_ROOT" = ContentMountRoot /\ g "EZIO_TARGET" = "127.0.0.1:50051" /\ g "EZIO_MAX_UPLOADS" = show_dec (maxUploads cfg) /\
    g "EZIO_MAX_CONNECTIONS" = show_dec (maxConnections cfg) /\ g "TRACKER_URL" = res_TrackerURL res /\ g "REGISTER_INTERVAL" = "" /\ g "SEEDER_INTERFACE" = "").
  { unfold g, getenv, seederRegisterEnv. destruct (String.eqb_spec (res_TrackerURL res) "") as [->|]; by vm_compute. }
  destruct Hg as (-> & -> & -> & -> & -> & -> & ->).
  assert (Hn : forall n, 0 < n < 2 ^ 31 -> ParseInt32 (show_dec n) = Some n /\ (show_dec n =s "") = false).
  { intros n Hn. pose proof (Atoi_dec n ltac:(lia)) as Ha. unfold ParseInt32. rewrite Ha, (proj2 (Z.leb_le _ _)), (proj2 (Z.ltb_lt _ _)) by lia.
    split; [done|]. destruct (String.eqb_spec (show_dec n) "") as [He|]; [by rewrite He in Ha|done]. }
  destruct (Hn _ Hu) as [Hu1 Hu2], (Hn _ Hc) as [Hc1 Hc2]. cbn [sc_TrackerURL]. destruct (res_TrackerURL res =s ""); [done|].
  cbn [String.eqb]. rewrite Hu2, Hu1, Hc2, Hc1. reflexivity.
Qed.

(** ** A concrete swarm *)

Module Swarm.
Definition sha1 (_ : string) : InfoHash := repeat 171 20.
Definition cfg : seeder_config := mkSeederConfig "/content" "127.0.0.1:50051" "http://10.0.0.5:6969/announce" "eth0" defaultInterval 3 5.
Definition hash : string := InfoHash_String (sha1 "").
Definition torrent : string := match BuildTorrentFile Example.ti (sc_TrackerURL cfg) with inl b => b | inr _ => "" end.

(** Two extents of a partition of 16 bytes: the first three bytes and two in the middle. *)
Definition part : list ascii := list_ascii_of_string "abcdefghijklmnop".
Definition handler (e : swarm) (s : unit) : option (swarm_resp e * unit) :=
  match e return option (swarm_resp e * unit) with
  | WReadDir d => Some (inl (if d =s "/content" then [mkEntry "root" true (inl 0)] else [mkEntry (ExtentFileName 0) false (inl 3); mkEntry (ExtentFileName 8) false (inl 2)]), s)
  | WReadFile p => Some (inl (if HasSuffix p "torrent.info" then WriteTorrentInfo Example.ti else if HasSuffix p (ExtentFileName 0) then "abc" else "ij"), s)
  | WRpcGetTorrentStatus _ => Some (inl [], s)
  | WRpcAddTorrent _ _ _ _ _ => Some (inl true, s)
  | WHangUp => Some (tt, s)
  | WTick => Some (Some (errorf "context canceled" []), s)
  | WOpen _ | WStat _ | WCreate _ | WTruncate _ _ | WWriteAt _ _ _ | WCloseFile _ | WDial _ => Some (None, s)
  | _ => None
  end.
Definition index : torrentIndex := {[hash := torrent]}.
Definition loop_trace : trace swarm_resp := match exec handler (register_loop sha1 cfg 1 ∅) tt with Some (_, _, tr) => tr | None => [] end.
Definition rebuild_trace : trace swarm_resp := match exec handler (Reconstruct "/save/content" "/out" 16) tt with Some (_, _, tr) => tr | None => [] end.
End Swarm.

Lemma served_torrents_are_seeded_witness :
  in_a_pass Swarm.sha1 Swarm.cfg (fun t => confirmed Swarm.sha1 Swarm.cfg t Swarm.hash Swarm.torrent) Swarm.loop_trace.
Proof.
  apply (served_torrents_are_seeded Swarm.sha1 Swarm.cfg 1 Swarm.loop_trace Swarm.index "eth0" Swarm.hash Swarm.torrent []).
  - apply (exec_runs Swarm.handler _ tt _ tt). vm_compute. reflexivity.
  - vm_compute. by split.
Defined.

(** What each event of the rebuilding says. *)
Definition rebuild_event (x : event swarm_resp) : Prop :=
  match x with
  | existT (WReadDir _) r => r = inl [mkEntry (ExtentFileName 0) false (inl 3); mkEntry (ExtentFileName 8) false (inl 2)]
  | existT (WReadFile p) r => r = inl (if HasSuffix p (ExtentFileName 0) then "abc" else "ij")
  | existT (WWriteAt p d o) r => 0 <= o /\ o + Z.of_nat (String.length d) < 2 ^ 63
  | _ => True
  end.

Lemma rebuild_events x : x ∈ Swarm.rebuild_trace -> rebuild_event x.
Proof.
  assert (Hf : Forall rebuild_event Swarm.rebuild_trace)
    by (unfold Swarm.rebuild_trace; cbn -[Z.pow]; repeat (apply Forall_cons; split; [by vm_compute|]); done).
  rewrite Forall_forall in Hf. apply Hf.
Qed.

Lemma rebuild_slices entries o d : ev (R := swarm_resp) (WReadDir "/save/content") (inl entries) ∈ Swarm.rebuild_trace ->
  extent_read "/save/content" entries Swarm.rebuild_trace o d -> slice_of Swarm.part o d.
Proof.
  intros Hls%rebuild_events (e & off & data & He & _ & Hoff & -> & -> & Hread%rebuild_events). cbn in Hls. injection Hls as ->.
  cbn [rebuild_event ev] in Hread. injection Hread as ->. apply elem_of_cons in He as [->|He%list_elem_of_singleton]; [|subst e].
  - vm_compute in Hoff. injection Hoff as <-. intros j Hj. change (j < 3)%nat in Hj. do 3 (destruct j as [|j]; [by vm_compute|]). lia.
  - vm_compute in Hoff. injection Hoff as <-. intros j Hj. change (j < 2)%nat in Hj. do 2 (destruct j as [|j]; [by vm_compute|]). lia.
Qed.

Lemma reconstruct_is_the_partition_witness :
  string_of_list_ascii (firstn 3 (file_after "/out" Swarm.rebuild_trace (bytes_of "old"))) = "abc" /\
  length (file_after "/out" Swarm.rebuild_trace (bytes_of "old")) = 16%nat.
Proof.
  split; [vm_compute; reflexivity|].
  destruct (reconstruct_is_the_partition "/save/content" "/out" 16 Swarm.part (bytes_of "old") Swarm.rebuild_trace) as (entries & placed & _ & _ & _ & Hl & _).
  - apply (exec_runs Swarm.handler _ tt _ tt). vm_compute. reflexivity.
  - intros p d o Ho. exact (rebuild_events _ Ho).
  - lia.
  - exact rebuild_slices.
  - exact Hl.
Defined.
