(* ===== verification/Bmc.v ===== *)
(** * Bmc: the drivers of board management controllers

    [src/internal/bmc/registry.go] over its drivers, [src/internal/bmc/ipmi] and
    [src/internal/bmc/redfish], and what their commands do to a machine.

    Parameters: [url.Parse], the redacted text of a URL, the escaping of a host and
    the names of Redfish's reset types.  The two protocol libraries are calls with
    arbitrary answers. *)

From S2P Require Import Prelude Text Effects Api Cluster Bootd AgentDeployer Webhooks.
Local Open Scope string_scope.
Local Open Scope list_scope.
Local Open Scope Z_scope.

(** ** Calls *)

Inductive ChassisControl := ChassisControlPowerUp | ChassisControlPowerDown | ChassisControlPowerCycle | ChassisControlSoftShutdown.
Inductive BootDeviceSelector := BootDeviceSelectorForcePXE.
Inductive BIOSBootType := BIOSBootTypeEFI.
Inductive PrivilegeLevel := PrivilegeLevelAdministrator.

Inductive ResetType := OnResetType | GracefulShutdownResetType | ForceOffResetType | ForceRestartResetType.
Inductive SystemPower := OnPowerState | OffPowerState | OtherPowerState.
Record Boot := mkBoot { BootSourceOverrideTarget : string; BootSourceOverrideEnabled : string }.
Definition PxeBootSource : string := "Pxe".
Definition OnceBootSourceOverrideEnabled : string := "Once".

(** What a driver reads of a [ComputerSystem]. *)
Record ComputerSystem := mkSystem { ODataID : string; sys_PowerState : SystemPower }.

Record ClientConfig := mkClientConfig { cc_Endpoint : string; cc_Username : string; cc_Password : string; cc_Insecure : bool; cc_BasicAuth : bool }.

Inductive board :=
| BNewClient (host : string) (port : Z) (username password : string)
| BOpenSession (level : PrivilegeLevel)
| BChassisControl (control : ChassisControl)
| BGetChassisStatus
| BSetBootDevice (selector : BootDeviceSelector) (bootType : BIOSBootType) (persist : bool)
| BCloseSession
| BConnectService (config : ClientConfig)
| BGetSystem (uri : string)
| BListSystems
| BReset (uri : string) (resetType : ResetType)
| BSetBoot (uri : string) (boot : Boot).

Definition board_resp (e : board) : Type :=
  match e with
  | BGetChassisStatus => (bool + GoErr)%type
  | BGetSystem _ => (ComputerSystem + GoErr)%type
  | BListSystems => (list ComputerSystem + GoErr)%type
  | _ => option GoErr
  end.

Abbreviation boardgo := (prog board_resp).
Abbreviation bcall := (call (R := board_resp)).

Definition PowerStateOff : string := "Off".
Definition PowerStateUnknown : string := "Unknown".

(** The names of Redfish's reset types. *)
Class RedfishNames := reset_name : ResetType -> string.

(** *** The interface

    Each method of [bmc.BMC], with the answer its caller gets. *)
Class BMC (D : Type) := bmc_do : D -> forall op : bmc_op, boardgo (resp (EBmc op)).

(** ** IPMI *)

Definition defaultPort : Z := 623.

Record ipmi_driver := mkIpmi { ipmi_host : string; ipmi_port : Z; ipmi_username : string; ipmi_password : string }.

Section Url.
Context (urlParse : string -> URL + GoErr) (redacted : URL -> string) (escapeHost : string -> string) `{RedfishNames}.

(** The text after the last colon, and what is before it. *)
Fixpoint cut_last_colon (s : string) : option (string * string) :=
  match s with
  | "" => None
  | String c rest =>
    match cut_last_colon rest with
    | Some (a, b) => Some (String c a, b)
    | None => if Ascii.eqb c ":" then Some ("", rest) else None
    end
  end.

(** [URL.Hostname] and [URL.Port]. *)
Definition splitHostPort (hostPort : string) : string * string :=
  let '(host, port) := match cut_last_colon hostPort with
                       | Some (h, p) => if forallb is_digit (list_ascii_of_string p) then (h, p) else (hostPort, "")
                       | None => (hostPort, "")
                       end in
  if HasPrefix host "[" && HasSuffix host "]" then (String.substring 1 (String.length host - 2) host, port) else (host, port).
Definition Hostname (u : URL) : string := (splitHostPort (Host u)).1.
Definition Port (u : URL) : string := (splitHostPort (Host u)).2.

Definition hostPort (address : URL) : (string * Z) + GoErr :=
  let host := Hostname address in
  if host =s "" then inr (errorf "ipmi: address %s has no host" [redacted address])
  else
  let path := TrimLeft is_slash (TrimRight is_slash (Path address)) in
  if path <>s "" then inr (errorf "ipmi: address %s must not include a path" [redacted address])
  else
  let p := Port address in
  if p =s "" then inl (host, defaultPort)
  else match Atoi p with
       | None => inr (errorf "ipmi: address %s has an invalid port: %w" [redacted address; "value out of range"])
       | Some parsed => inl (host, parsed)
       end.

Definition ipmi_connect (address : URL) (creds : string * string) : ipmi_driver + GoErr :=
  match hostPort address with
  | inr err => inr err
  | inl (host, port) => inl (mkIpmi host port creds.1 creds.2)
  end.

Definition dial (d : ipmi_driver) : boardgo (option GoErr) :=
  r <- bcall (BNewClient (ipmi_host d) (ipmi_port d) (ipmi_username d) (ipmi_password d)) ;;
  match r with
  | Some err => Ret (Some (wrapf "ipmi: creating client: %w" [] err))
  | None =>
    r <- bcall (BOpenSession PrivilegeLevelAdministrator) ;;
    Ret match r with Some err => Some (wrapf "ipmi: connecting: %w" [] err) | None => None end
  end.

(** The session is closed whatever [fn] does; the error of closing is dropped. *)
Definition withSession {A} (d : ipmi_driver) (fn : boardgo (A + GoErr)) : boardgo (A + GoErr) :=
  r <- dial d ;;
  match r with
  | Some err => Ret (inr err)
  | None => r <- fn ;; bcall BCloseSession ;; Ret r
  end.

Definition in_session (d : ipmi_driver) (what : string) (fn : boardgo (option GoErr)) : boardgo (option GoErr) :=
  r <- withSession d (r <- fn ;; Ret match r with Some err => inr err | None => inl tt end) ;;
  Ret match r with inr err => Some (wrapf what [] err) | inl _ => None end.

Definition powerState (on : bool) : string := if on then PowerStateOn else PowerStateOff.

Definition ipmi_GetPowerState (d : ipmi_driver) : boardgo (string + GoErr) :=
  r <- withSession d (r <- bcall BGetChassisStatus ;; Ret match r with inr err => inr err | inl on => inl (powerState on) end) ;;
  Ret match r with inr err => inr (wrapf "ipmi: reading power state: %w" [] err) | inl state => inl state end.

Definition ipmi_SetOneTimePXEBoot (d : ipmi_driver) : boardgo (option GoErr) :=
  in_session d "ipmi: setting one-time PXE boot: %w" (bcall (BSetBootDevice BootDeviceSelectorForcePXE BIOSBootTypeEFI false)).

Definition ipmi_do (d : ipmi_driver) (op : bmc_op) : boardgo (resp (EBmc op)) :=
  match op return boardgo (resp (EBmc op)) with
  | PowerOn => in_session d "ipmi: power on: %w" (bcall (BChassisControl ChassisControlPowerUp))
  | PowerOff => in_session d "ipmi: power off: %w" (bcall (BChassisControl ChassisControlSoftShutdown))
  | ForcePowerOff => in_session d "ipmi: force power off: %w" (bcall (BChassisControl ChassisControlPowerDown))
  | PowerCycle => in_session d "ipmi: power cycle: %w" (bcall (BChassisControl ChassisControlPowerCycle))
  | SetOneTimePXEBoot => ipmi_SetOneTimePXEBoot d
  | GetPowerState => ipmi_GetPowerState d
  end.
#[export] Instance ipmi_BMC : BMC ipmi_driver := ipmi_do.

(** ** Redfish *)

Record redfish_driver := mkRedfish { rf_system : ComputerSystem; rf_systemURI : string }.

Definition endpointFor (address : URL) : string + GoErr :=
  if Host address =s "" then inr (errorf "redfish: address has no host" [])
  else
  let scheme := if EqualFold (Scheme address) "redfish+http" then "http" else "https" in
  inl (scheme +:+ "://" +:+ escapeHost (Host address)).

Definition resolveSystem (path : string) : boardgo (ComputerSystem + GoErr) :=
  let path := TrimSuffix path "/" in
  if match String.index 0 "/Systems/" path with Some idx => (idx + String.length "/Systems/" <? String.length path)%nat | None => false end then
    r <- bcall (BGetSystem path) ;;
    Ret match r with inr err => inr (wrapf "redfish: resolving system %q: %w" [path] err) | inl system => inl system end
  else
  r <- bcall BListSystems ;;
  Ret match r with
      | inr err => inr (wrapf "redfish: listing systems: %w" [] err)
      | inl [] => inr (errorf "redfish: no systems found" [])
      | inl [system] => inl system
      | inl systems => inr (errorf "redfish: found %d systems, address path must select one (e.g. .../Systems/<id>)" [show_dec (Z.of_nat (length systems))])
      end.

Definition redfish_connect (address : URL) (creds : string * string) (insecure : bool) : boardgo (redfish_driver + GoErr) :=
  match endpointFor address with
  | inr err => Ret (inr err)
  | inl endpoint =>
    r <- bcall (BConnectService (mkClientConfig endpoint creds.1 creds.2 insecure true)) ;;
    match r with
    | Some err => Ret (inr (wrapf "redfish: %w" [] err))
    | None =>
      r <- resolveSystem (Path address) ;;
      Ret match r with inr err => inr err | inl system => inl (mkRedfish system (ODataID system)) end
    end
  end.

Definition reset (d : redfish_driver) (resetType : ResetType) : boardgo (option GoErr) :=
  r <- bcall (BReset (ODataID (rf_system d)) resetType) ;;
  Ret match r with Some err => Some (wrapf "redfish: reset %s: %w" [reset_name resetType] err) | None => None end.

Definition redfish_GetPowerState (d : redfish_driver) : boardgo (string + GoErr) :=
  r <- bcall (BGetSystem (rf_systemURI d)) ;;
  Ret match r with
      | inr err => inr (wrapf "redfish: reading power state: %w" [] err)
      | inl system => inl match sys_PowerState system with OnPowerState => PowerStateOn | OffPowerState => PowerStateOff | OtherPowerState => PowerStateUnknown end
      end.

Definition redfish_SetOneTimePXEBoot (d : redfish_driver) : boardgo (option GoErr) :=
  r <- bcall (BSetBoot (ODataID (rf_system d)) (mkBoot PxeBootSource OnceBootSourceOverrideEnabled)) ;;
  Ret match r with Some err => Some (wrapf "redfish: setting one-time PXE boot: %w" [] err) | None => None end.

Definition redfish_do (d : redfish_driver) (op : bmc_op) : boardgo (resp (EBmc op)) :=
  match op return boardgo (resp (EBmc op)) with
  | PowerOn => reset d OnResetType
  | PowerOff => reset d GracefulShutdownResetType
  | ForcePowerOff => reset d ForceOffResetType
  | PowerCycle => reset d ForceRestartResetType
  | SetOneTimePXEBoot => redfish_SetOneTimePXEBoot d
  | GetPowerState => redfish_GetPowerState d
  end.
#[export] Instance redfish_BMC : BMC redfish_driver := redfish_do.

(** ** Connecting *)

(** The drivers the binary registers: a value of the interface [bmc.BMC]. *)
Inductive bmc_client := IpmiClient (d : ipmi_driver) | RedfishClient (d : redfish_driver).

Definition client_do (d : bmc_client) : forall op : bmc_op, boardgo (resp (EBmc op)) :=
  match d with IpmiClient d => bmc_do d | RedfishClient d => bmc_do d end.
#[export] Instance client_BMC : BMC bmc_client := client_do.

Abbreviation board_driver := (URL -> string * string -> bool -> boardgo (bmc_client + GoErr)).

Definition ipmi_registered : board_driver := fun address creds _ =>
  Ret match ipmi_connect address creds with inr err => inr err | inl d => inl (IpmiClient d) end.
Definition redfish_registered : board_driver := fun address creds insecure =>
  r <- redfish_connect address creds insecure ;; Ret match r with inr err => inr err | inl d => inl (RedfishClient d) end.

(** What the two [init] functions leave in the registry. *)
Definition drivers : gmap string board_driver :=
  list_to_map [("ipmi", ipmi_registered); ("redfish", redfish_registered); ("redfishs", redfish_registered); ("redfish+http", redfish_registered)].

(** [Connect] with drivers that talk to the board. *)
Definition board_Connect (address : string) (creds : string * string) (insecure : bool) : boardgo (bmc_client + GoErr) :=
  match urlParse address with
  | inr err => Ret (inr (wrapf "bmc: invalid address: %w" [] err))
  | inl parsed =>
    if Scheme parsed =s "" then Ret (inr (errorf "bmc: address %q has no scheme" [redacted parsed]))
    else
    let scheme := ToLower (Scheme parsed) in
    match drivers !! scheme with
    | None => Ret (inr (errorf "bmc: no driver registered for scheme %q (known: %s)"
                          [scheme; String.concat ", " (sort_by String.ltb (map fst (map_to_list drivers)))]))
    | Some driver =>
      r <- driver parsed creds insecure ;;
      Ret match r with inr err => inr (wrapf "bmc: connecting to %s: %w" [redacted parsed] err) | inl client => inl client end
    end
  end.
End Url.
