(* ===== verification/BmcSafety.v ===== *)
(** * BmcSafety: what a method of the interface does to the board

    Both drivers keep one contract: a method sends its own command at most once,
    inside a session that is closed again, and succeeds exactly when the board took
    it.  What the deployer does with power is proved over that contract. *)

From S2P Require Import Prelude Text Effects Api Cluster Bootd AgentDeployer AgentSafety Bmc.
Local Open Scope string_scope.
Local Open Scope list_scope.
Local Open Scope Z_scope.

(** ** The contract *)

(** The method a command stands for. *)
Definition means (e : board) : option bmc_op :=
  match e with
  | BChassisControl ChassisControlPowerUp | BReset _ OnResetType => Some PowerOn
  | BChassisControl ChassisControlSoftShutdown | BReset _ GracefulShutdownResetType => Some PowerOff
  | BChassisControl ChassisControlPowerDown | BReset _ ForceOffResetType => Some ForcePowerOff
  | BChassisControl ChassisControlPowerCycle | BReset _ ForceRestartResetType => Some PowerCycle
  | BSetBootDevice BootDeviceSelectorForcePXE BIOSBootTypeEFI false => Some SetOneTimePXEBoot
  | BSetBoot _ b => if (BootSourceOverrideTarget b =s PxeBootSource) && (BootSourceOverrideEnabled b =s OnceBootSourceOverrideEnabled)
                    then Some SetOneTimePXEBoot else None
  | _ => None
  end.

Definition is_none {A} (o : option A) : bool := match o with None => true | Some _ => false end.
Definition is_inl {A B} (s : A + B) : bool := match s with inl _ => true | inr _ => false end.

(** The board took the command. *)
Definition taken (x : event board_resp) : bool :=
  match x with
  | existT e r =>
    match e return board_resp e -> bool with
    | BGetChassisStatus | BGetSystem _ | BListSystems => is_inl
    | _ => is_none
    end r
  end.

Definition reading (x : event board_resp) : option string :=
  match x with
  | existT BGetChassisStatus (inl on) => Some (powerState on)
  | existT (BGetSystem _) (inl system) =>
    Some match sys_PowerState system with OnPowerState => PowerStateOn | OffPowerState => PowerStateOff | OtherPowerState => PowerStateUnknown end
  | _ => None
  end.

Definition sent (w : trace board_resp) : list bmc_op := omap (fun x => means (projT1 x)) w.
Definition performed (w : trace board_resp) : list bmc_op := omap (fun x => op ← means (projT1 x); if taken x then Some op else None) w.

(** A session is opened at most once at a time, IPMI commands are sent in one. *)
Definition session_step (open : bool) (x : event board_resp) : option bool :=
  match x with
  | existT (BOpenSession _) None => if open then None else Some true
  | existT BCloseSession _ => if open then Some false else None
  | existT (BChassisControl _) _ | existT BGetChassisStatus _ | existT (BSetBootDevice _ _ _) _ => if open then Some true else None
  | _ => Some open
  end.
Definition sessions (w : trace board_resp) : option bool := foldl (fun s x => s ≫= fun open => session_step open x) (Some false) w.

Definition succeeds (op : bmc_op) : resp (EBmc op) -> bool :=
  match op with GetPowerState => is_inl | _ => is_none end.
Definition is_read (op : bmc_op) : bool := match op with GetPowerState => true | _ => false end.

Definition option_list {A} (o : option A) : list A := match o with Some a => [a] | None => [] end.
Definition answered (op : bmc_op) : resp (EBmc op) -> option string :=
  match op with GetPowerState => fun r => match r with inl s => Some s | inr _ => None end | _ => fun _ => None end.

Class BMCContract D `{BMC D} := {
  contract_sent : forall (d : D) op w r, runs (bmc_do d op) w r -> sent w = [] \/ sent w = [op] /\ is_read op = false;
  contract_performed : forall (d : D) op w r, runs (bmc_do d op) w r -> performed w = if succeeds op r && negb (is_read op) then [op] else [];
  contract_reading : forall (d : D) op w r, runs (bmc_do d op) w r -> omap reading w = option_list (answered op r);
  contract_sessions : forall (d : D) op w r, runs (bmc_do d op) w r -> sessions w = Some false }.

(** Every run of a method of a driver, call by call. *)
Ltac wire_runs :=
  repeat first
    [ match goal with H : ex _ |- _ => destruct H | H : _ /\ _ |- _ => destruct H end
    | match goal with H : runs ?p _ _ |- _ => match p with context [match ?x with _ => _ end] => is_var x; destruct x; cbn in H end end
    | progress (subst; simplify_eq/=)
    | match goal with |- context [match ?x with _ => _ end] => is_var x; destruct x end ].

Ltac contract := intros d op w r Hr; destruct op; cbn in Hr; wire_runs; auto.

#[export] Instance ipmi_contract : BMCContract ipmi_driver.
Proof. split; contract. Qed.

#[export] Instance redfish_contract `{RedfishNames} : BMCContract redfish_driver.
Proof. split; contract. Qed.

#[export] Instance client_contract `{RedfishNames} : BMCContract bmc_client.
Proof.
  split.
  - intros [d|d] op w r Hr; exact (contract_sent d op w r Hr).
  - intros [d|d] op w r Hr; exact (contract_performed d op w r Hr).
  - intros [d|d] op w r Hr; exact (contract_reading d op w r Hr).
  - intros [d|d] op w r Hr; exact (contract_sessions d op w r Hr).
Qed.

(** ** The deployer over a driver *)

(** What goes over the wire for the calls of a run of the deployer. *)
Fixpoint carried {D} `{BMC D} (d : D) (tr : trace resp) (w : trace board_resp) : Prop :=
  match tr with
  | [] => w = []
  | x :: tr => exists w1 w2, w = w1 ++ w2 /\
      match x with existT (EBmc op) r => runs (bmc_do d op) w1 r | _ => w1 = [] end /\ carried d tr w2
  end.

(** The commands the deployer was told were taken, and the power states it read. *)
Definition took (x : event resp) : list bmc_op :=
  match x with existT (EBmc op) r => if succeeds op r && negb (is_read op) then [op] else [] | _ => [] end.
Definition told_state (x : event resp) : list string :=
  match x with existT (EBmc op) r => option_list (answered op r) | _ => [] end.

Lemma sessions_app v w : sessions v = Some false -> sessions w = Some false -> sessions (v ++ w) = Some false.
Proof. unfold sessions. intros Hv Hw. by rewrite foldl_app, Hv. Qed.

(** What the board did is what the deployer was told, whichever the driver. *)
Lemma carried_wire {D} `{BMCContract D} (d : D) tr w : carried d tr w ->
  performed w = flat_map took tr /\ omap reading w = flat_map told_state tr /\ sessions w = Some false.
Proof.
  revert w. induction tr as [|[e r] tr IH]; intros w Hw; [by rewrite Hw|]. destruct Hw as (w1 & w2 & -> & Hx & Hw2).
  destruct (IH _ Hw2) as (Hp & Hr & Hs). unfold performed in *. rewrite !omap_app, Hp, Hr. cbn [flat_map].
  destruct e; try (by rewrite Hx). split_and!; [f_equal..|].
  - exact (contract_performed _ _ _ _ Hx).
  - exact (contract_reading _ _ _ _ Hx).
  - apply sessions_app; [exact (contract_sessions _ _ _ _ Hx)|done].
Qed.

(** No call of this kind reaches the board. *)
Definition no_power (e : eff) : Prop := match e with EBmc _ => False | _ => True end.

Section Deployer.
Context `{ApiMachinery} `{Encodings} (digest : string -> string) (rounds retries : nat) (dep : AgentDeployer).

Lemma status_retry_no_power n first key desired m : calls no_power (status_retry n first key desired m).
Proof. revert first m. induction n as [|n IH]; intros first m; cbn [status_retry]; repeat (apply IH || calls_step); done. Qed.
Lemma reserve_loop_no_power n key name mac s : calls no_power (reserve_loop digest n key name mac s).
Proof. revert s. induction n as [|n IH]; intros s; cbn [reserve_loop]; repeat (apply IH || calls_step); done. Qed.
Lemma exhausted_loop_no_power n key : calls no_power (exhausted_loop n key).
Proof. induction n as [|n IH]; cbn [exhausted_loop]; repeat (apply IH || calls_step); done. Qed.

Ltac quiet :=
  repeat lazymatch goal with
  | |- calls _ (status_retry _ _ _ _ _) => apply status_retry_no_power
  | |- calls _ (reserve_loop _ _ _ _ _ _) => apply reserve_loop_no_power
  | |- calls _ (exhausted_loop _ _) => apply exhausted_loop_no_power
  | |- calls _ _ => calls_step
  end; try done.

Lemma connect_no_power m : calls no_power (connectBMC m).
Proof. quiet. Qed.
Lemma reserve_no_power m : calls no_power (reserveAndAwaitDHCP digest rounds dep m).
Proof. quiet. Qed.
Lemma token_no_power m force : calls no_power (issueBootToken retries dep m force).
Proof. quiet. Qed.
Lemma armPXE_no_power m : calls no_power (armPXE m).
Proof. quiet. Qed.
Lemma armProvisionBoot_no_power m : calls no_power (armProvisionBoot m).
Proof. quiet. Qed.
Lemma disarmPXE_no_power m : calls no_power (disarmPXE m).
Proof. quiet. Qed.
Lemma disarmProvisionBoot_no_power m : calls no_power (disarmProvisionBoot m).
Proof. quiet. Qed.

(** *** The commands of a step *)

Lemma quiet_took tr : Forall (fun x => no_power (projT1 x)) tr -> flat_map took tr = [] /\ flat_map told_state tr = [].
Proof. induction 1 as [|[e r] tr He _ [IH1 IH2]]; [done|]. cbn [flat_map]. rewrite IH1, IH2. by destruct e. Qed.

Lemma powerless_part {A B} (p : go A) (f : A -> go B) tr b : calls no_power p -> runs (bind p f) tr b ->
  exists tr1 tr2 a, runs p tr1 a /\ runs (f a) tr2 b /\
    flat_map took tr = flat_map took tr2 /\ flat_map told_state tr = flat_map told_state tr2.
Proof.
  intros Hp (tr1 & tr2 & a & -> & Hr1 & Hr2)%runs_bind. exists tr1, tr2, a. rewrite !flat_map_app.
  by destruct (quiet_took _ (calls_runs _ _ _ _ Hp Hr1)) as [-> ->].
Qed.

(** The commands of a net boot, the power state having been read as [s]. *)
Definition boot_commands (s : string) : list bmc_op :=
  [SetOneTimePXEBoot; if s =s PowerStateOn then PowerCycle else PowerOn].

(** What [powerOnForNetBoot] and what it is part of send: all of it, or no power
    command at all. *)
Definition booted (went_on : bool) (tr : trace resp) : Prop :=
  if went_on then exists s, flat_map told_state tr = [s] /\ flat_map took tr = boot_commands s
  else flat_map took tr = [] \/ flat_map took tr = [SetOneTimePXEBoot].

Lemma power_on_booted tr res : runs powerOnForNetBoot tr res -> booted (is_none res) tr.
Proof.
  intros ([err|] & t1 & -> & Hr); [destruct Hr as [-> ->]; by left|]. destruct Hr as ([s|err] & t2 & -> & Hr); cbn [bind] in Hr.
  2: { destruct Hr as [-> ->]. by right. }
  destruct (s =s PowerStateOn) eqn:Es; destruct Hr as ([err|] & t3 & -> & Hr); destruct Hr as [-> ->]; cbn; try (by right);
    exists s; unfold boot_commands; by rewrite Es.
Qed.

Definition goes_on (res : Result + GoErr) : bool :=
  match res with inl r => bool_decide (res_Outcome r = Continuing) | inr _ => false end.

Lemma stopped_not_on x : stopped x -> goes_on (inl x) = false.
Proof. intros [_ Hs]. by apply bool_decide_eq_false_2. Qed.

Lemma arm_booted arm disarm m force tr m' res : (forall m, calls no_power (arm m)) -> (forall m, calls no_power (disarm m)) ->
  runs (arm_and_power_on digest rounds retries dep arm disarm m force) tr (m', res) -> booted (goes_on res) tr.
Proof.
  intros Harm Hdis Hr. unfold arm_and_power_on in Hr. unfold booted.
  destruct (powerless_part _ _ _ _ (connect_no_power m) Hr) as (t1 & u1 & [err|] & _ & Hr1 & -> & ->).
  { destruct Hr1 as [-> [= _ ->]]. rewrite (stopped_not_on _ (classify_stopped err)). by left. }
  destruct (powerless_part _ _ _ _ (reserve_no_power m) Hr1) as (t2 & u2 & [[x|]|err] & Ha & Hr2 & -> & ->).
  - destruct Hr2 as [-> [= _ ->]]. rewrite (stopped_not_on x); [by left|].
    exact (answers_runs _ _ _ _ (reserveAndAwaitDHCP_stopped digest rounds dep m) Ha x eq_refl).
  - destruct (powerless_part _ _ _ _ (token_no_power m force) Hr2) as (t3 & u3 & [m3 [err|]] & _ & Hr3 & -> & ->);
      [destruct Hr3 as [-> [= _ ->]]; by left|].
    destruct (powerless_part _ _ _ _ (Harm m3) Hr3) as (t4 & u4 & [m4 [err|]] & _ & Hr4 & -> & ->);
      [destruct Hr4 as [-> [= _ ->]]; by left|].
    apply runs_bind in Hr4 as (t5 & u5 & on & -> & Hon & Hr5). pose proof (power_on_booted _ _ Hon) as Hb. rewrite !flat_map_app.
    destruct on as [x|].
    + destruct (powerless_part _ _ _ _ (Hdis m4) Hr5) as (t6 & u6 & [m6 [err|]] & _ & [-> [= _ ->]] & -> & ->); rewrite !app_nil_r; [done|].
      rewrite (stopped_not_on x); [done|]. exact (answers_runs _ _ _ _ powerOnForNetBoot_stopped Hon x eq_refl).
    + destruct Hr5 as [-> [= _ ->]]. rewrite !app_nil_r. exact Hb.
  - destruct Hr2 as [-> [= _ ->]]. by left.
Qed.

Lemma not_complete err : outcome Complete <> classifyBMCError err.
Proof. intros He. destruct (classify_stopped err) as [Hs _]. by rewrite <- He in Hs. Qed.

Ltac took_ok Hr := destruct Hr as ([?|] & ? & -> & Hr); cbn [bind] in Hr;
  [destruct Hr as [_ Hr]; injection Hr as _ Hr; by destruct (not_complete _ Hr)|].

(** A soft reboot that completes asked for an orderly shutdown and at once for
    power, without looking at the power state in between. *)
Theorem soft_reboot_does_not_wait m tr m' : runs (Reboot m false) tr (m', inl (outcome Complete)) ->
  flat_map took tr = [PowerOff; PowerOn] /\ flat_map told_state tr = [].
Proof.
  intros Hr. unfold Reboot in Hr. destruct (powerless_part _ _ _ _ (connect_no_power m) Hr) as (t1 & u1 & [err|] & _ & Hr1 & -> & ->).
  { destruct Hr1 as [_ Hr1]. injection Hr1 as _ Hr1. by destruct (not_complete _ Hr1). }
  took_ok Hr1. took_ok Hr1. by destruct Hr1 as [-> _].
Qed.
End Deployer.

(** ** The registered drivers *)

Section Registered.
Context `{RedfishNames} (urlParse : string -> URL + GoErr) (redacted : URL -> string) (escapeHost : string -> string).

Lemma connect_sends_nothing address creds insecure w r : runs (board_Connect urlParse redacted escapeHost address creds insecure) w r ->
  sent w = [] /\ sessions w = Some false.
Proof.
  unfold board_Connect. destruct (urlParse address) as [u|err]; [|intros [-> _]; done]. destruct (Scheme u =s ""); [intros [-> _]; done|].
  destruct (drivers redacted escapeHost !! ToLower (Scheme u)) as [driver|] eqn:Hd; [|intros [-> _]; done].
  intros (w1 & w2 & x & -> & Hr & [-> _])%runs_bind. rewrite app_nil_r. clear r.
  assert (Hc : driver = ipmi_registered redacted \/ driver = redfish_registered escapeHost).
  { unfold drivers in Hd. apply elem_of_list_to_map_2 in Hd. rewrite !elem_of_cons in Hd. set_solver. }
  destruct Hc as [-> | ->]; [destruct Hr as [-> _]; done|]. apply runs_bind in Hr as (w3 & w4 & y & -> & Hr & [-> _]). rewrite app_nil_r.
  unfold redfish_connect in Hr. destruct (endpointFor escapeHost u) as [e|err]; [|destruct Hr as [-> _]; done].
  destruct Hr as ([err|] & t & -> & Hr); cbn [bind] in Hr; [destruct Hr as [-> _]; done|].
  apply runs_bind in Hr as (w5 & w6 & z & -> & Hr & [-> _]). rewrite app_nil_r. unfold resolveSystem in Hr.
  destruct (String.index _ _ _) as [n|]; [destruct (_ <? _)%nat|]; destruct Hr as (a & b & -> & -> & _); done.
Qed.

(** C21. Whichever driver an address selects, connecting sends no command, and a
    method of the client sends its own command at most once and no other, inside a
    session that is closed again (Redfish keeps none); it succeeds exactly when the
    board took that command, and the power state it answers is the one the board
    reported. *)
Theorem drivers_keep_the_contract address creds insecure wc client op w r :
  runs (board_Connect urlParse redacted escapeHost address creds insecure) wc (inl client) ->
  runs (bmc_do client op) w r ->
  sent wc = [] /\ sessions (wc ++ w) = Some false /\
  (sent w = [] \/ sent w = [op] /\ is_read op = false) /\
  performed w = (if succeeds op r && negb (is_read op) then [op] else []) /\
  omap reading w = option_list (answered op r).
Proof.
  intros Hc Hr. apply connect_sends_nothing in Hc as [Hs Ho]. split; [done|]. split.
  { unfold sessions in *. rewrite foldl_app, Ho. exact (contract_sessions _ _ _ _ Hr). }
  split; [exact (contract_sent _ _ _ _ Hr)|]. split; [exact (contract_performed _ _ _ _ Hr)|exact (contract_reading _ _ _ _ Hr)].
Qed.

End Registered.

(** C20. The wire of a net boot, whichever driver the machine's address selects and
    whatever fails: when the step that arms and powers on (of Inspect or of
    Provision) goes on to wait for the agent, the board took exactly two commands,
    the one-time network boot and then one power command, a cycle if the one power
    state it reported was on and a power-on if it was off or unknown; in every
    other case the board took no power command at all.  No session is left open. *)
Theorem net_boot_commands_the_board `{RedfishNames} `{ApiMachinery} `{Encodings} digest rounds retries dep m force tr m' res (client : bmc_client) w
    (Hrun : runs (armPXEAndPowerOn digest rounds retries dep m force) tr (m', res) \/
            runs (armProvisionBootAndPowerOn digest rounds retries dep m force) tr (m', res))
    (Hwire : carried client tr w) :
  sessions w = Some false /\
  if goes_on res then exists s, omap reading w = [s] /\ performed w = [SetOneTimePXEBoot; if s =s PowerStateOn then PowerCycle else PowerOn]
  else performed w = [] \/ performed w = [SetOneTimePXEBoot].
Proof.
  destruct (carried_wire client tr w Hwire) as (Hp & Hr & Hs). split; [done|]. rewrite Hp, Hr.
  destruct Hrun as [Hrun|Hrun]; (eapply arm_booted in Hrun; [exact Hrun|..]).
  - apply armPXE_no_power.
  - apply disarmPXE_no_power.
  - apply armProvisionBoot_no_power.
  - apply disarmProvisionBoot_no_power.
Qed.

(** ** A concrete board *)

#[local] Existing Instance SimpleMeta.ops.
#[local] Existing Instance SimpleEncodings.encodings.

Module Board.
#[export] Instance names : RedfishNames := fun _ => "".
Definition url : URL := mkURL "redfish" "10.0.0.10" "/redfish/v1/Systems/1".
Definition parse (_ : string) : URL + GoErr := inl url.
Definition system (p : SystemPower) : ComputerSystem := mkSystem "/redfish/v1/Systems/1" p.
Definition client : bmc_client := RedfishClient (mkRedfish (system OffPowerState) "/redfish/v1/Systems/1").

(** The answers of a board whose machine is on. *)
Definition handler (e : board) (s : unit) : option (board_resp e * unit) :=
  match e with
  | BGetChassisStatus => Some (inl true, s)
  | BGetSystem _ => Some (inl (system OnPowerState), s)
  | BListSystems => Some (inl [system OnPowerState], s)
  | _ => Some (None, s)
  end.
Definition wire {A} (p : boardgo A) : trace board_resp := match exec handler p tt with Some (_, _, w) => w | None => [] end.

Definition boot_wire : trace board_resp :=
  wire (bmc_do client SetOneTimePXEBoot) ++ wire (bmc_do client GetPowerState) ++ wire (bmc_do client PowerCycle) ++ [].
End Board.
#[local] Existing Instance Board.names.

Lemma carried_bmc {D} `{BMC D} (d : D) tr w :
  carried d (List.filter (fun x => match projT1 x with EBmc _ => true | _ => false end) tr) w -> carried d tr w.
Proof.
  revert w. induction tr as [|[e r] tr IH]; intros w Hc; [done|]. cbn [List.filter projT1] in Hc.
  destruct e; try (exists [], w; split_and!; [done|done|by apply IH]). destruct Hc as (w1 & w2 & -> & Hx & Hc). exists w1, w2. split_and!; [done|done|by apply IH].
Qed.

Lemma drivers_keep_the_contract_witness :
  performed (Board.wire (bmc_do Board.client ForcePowerOff)) = [ForcePowerOff].
Proof.
  refine (proj1 (proj2 (proj2 (proj2 (drivers_keep_the_contract Board.parse (fun _ => "") id "redfish://10.0.0.10" ("admin", "secret") false
    (Board.wire (board_Connect Board.parse (fun _ => "") id "redfish://10.0.0.10" ("admin", "secret") false))
    (RedfishClient (mkRedfish (Board.system OnPowerState) "/redfish/v1/Systems/1")) ForcePowerOff (Board.wire (bmc_do Board.client ForcePowerOff)) None _ _))))).
  - apply (exec_runs Board.handler _ tt _ tt). vm_compute. reflexivity.
  - apply (exec_runs Board.handler _ tt _ tt). vm_compute. reflexivity.
Defined.

Lemma net_boot_commands_the_board_witness :
  performed Board.boot_wire = [SetOneTimePXEBoot; PowerCycle] /\
  exists s, omap reading Board.boot_wire = [s] /\ performed Board.boot_wire = [SetOneTimePXEBoot; if s =s PowerStateOn then PowerCycle else PowerOn].
Proof.
  split; [vm_compute; reflexivity|].
  destruct (exec (Demo.handler (boot_world [])) (armPXEAndPowerOn no_digest 3 3 the_deployer idle_machine true) tt) as [[[[m' res] u] tr]|] eqn:E.
  2: { vm_compute in E. discriminate E. }
  assert (Hres : res = inl (outcome Continuing)) by (vm_compute in E; injection E as _ <- _ _; reflexivity). subst res.
  refine (proj2 (net_boot_commands_the_board no_digest 3 3 the_deployer idle_machine true tr m' (inl (outcome Continuing)) Board.client Board.boot_wire _ _)).
  - left. exact (exec_runs _ _ _ _ _ _ E).
  - apply carried_bmc. vm_compute in E. injection E as _ _ <-. cbn [List.filter projT1].
    exists (Board.wire (bmc_do Board.client SetOneTimePXEBoot)). eexists. split; [reflexivity|]. split; [vm_compute; by repeat eexists|].
    exists (Board.wire (bmc_do Board.client GetPowerState)). eexists. split; [reflexivity|]. split; [vm_compute; by repeat eexists|].
    exists (Board.wire (bmc_do Board.client PowerCycle)), []. split; [reflexivity|]. split; [vm_compute; by repeat eexists|reflexivity].
Defined.
