(* ===== verification/FakeDeployer.v ===== *)
(** * FakeDeployer: the deployer the tests and the fast lane run on

    [src/internal/deployer/fake.go]: a deployer that touches no hardware, walks a run
    through its phases one call at a time and fails as an annotation scripts it. *)

From S2P Require Import Prelude Text Effects Api Cluster Bootd AgentDeployer AgentProgress StagingSafety.
Local Open Scope string_scope.
Local Open Scope list_scope.
Local Open Scope Z_scope.

Definition FakeFailAnnotation : string := "kezio.kojuro.date/fake-fail".
Definition fakeFailForever : string := "forever".
Definition FakeDisksAnnotation : string := "kezio.kojuro.date/fake-disks".

(** ** Inventories *)

Definition fakeSingleDisk : list MachineHardwareDisk := [mkDisk "/dev/vda" "" "" "" "" (32 * 2 ^ 30) None "" "" None].

Definition fakeTwoDisks : list MachineHardwareDisk :=
  [mkDisk "/dev/vda" "fake-disk-0" "0x5000000000000000" "FakeDisk0" "FakeVendor" (32 * 2 ^ 30) (Some false) "" "" None;
   mkDisk "/dev/vdb" "fake-disk-1" "0x5000000000000001" "FakeDisk1" "FakeVendor" (64 * 2 ^ 30) (Some false) "" "" None].

Definition fakeDisks (machine : Machine) : list MachineHardwareDisk :=
  if default "" (Annotations machine !! FakeDisksAnnotation) =s "2" then fakeTwoDisks else fakeSingleDisk.

(** ** Scripted failures *)

(** [None] falls through to the default behaviour. *)
Definition fakeFailOverride (machine : Machine) (step : string) : option Result :=
  match Annotations machine !! FakeFailAnnotation with
  | None => None
  | Some raw =>
    let failed := mkResult Failed 0 MachineErrorTypeTransient (sprintf "fake deployer: scripted failure via %s=%q" [FakeFailAnnotation; raw]) in
    match cut_at ":" raw with
    | None => None
    | Some (annStep, countRaw) =>
      if annStep <>s step then None
      else if countRaw =s fakeFailForever then Some failed
      else match Atoi countRaw with
           | None => None
           | Some count => if (count <? 0) || (count <=? ErrorCount (Status machine)) then None else Some failed
           end
    end
  end.

(** ** Phases *)

Definition deployRunPhaseOrder : list string :=
  [DeployRunPhasePending; DeployRunPhasePartitioning; DeployRunPhaseWritingContent; DeployRunPhaseRunningPostHook; DeployRunPhaseFinalizing;
   DeployRunPhaseSucceeded].

(** The place after [current] in the order, 0 when it is not in it. *)
Fixpoint phase_index (current : string) (phases : list string) (i : nat) : nat :=
  match phases with
  | [] => 0
  | phase :: phases => if phase =s current then S i else phase_index current phases (S i)
  end.

Definition nextDeployRunPhase (current : string) : (string * bool) + GoErr :=
  let index := phase_index current deployRunPhaseOrder 0 in
  if (current <>s "") && (index =? 0)%nat then inr (errorf "run status.phase %q is not one the fake deployer can advance from" [current])
  else match deployRunPhaseOrder !! index with
       | None => inr (errorf "run status.phase %q is already terminal" [current])
       | Some next => inl (next, (index =? length deployRunPhaseOrder - 1)%nat)
       end.

(** ** The deployer *)

(** The functions a test may put in the place of each method. *)
Record FakeDeployer := mkFake {
  InspectFunc : option (Machine -> bool -> go (Result + GoErr));
  ProvisionFunc : option (Machine -> DeployRun -> bool -> go (DeployRun * (Result + GoErr)));
  DeprovisionFunc : option (Machine -> bool -> go (Result + GoErr));
  PowerOffFunc : option (Machine -> go (Result + GoErr));
  RebootFunc : option (Machine -> bool -> go (Result + GoErr)) }.

Section Fake.
Context `{ApiMachinery} (fake : FakeDeployer).

Definition fake_hardware (machine : Machine) : MachineHardware :=
  mkHardware (mkObjectMeta (Name machine) (Namespace machine) "" "" 0 0 None [] ∅ ∅ [machineOwnerReference machine])
    (mkHardwareSpec (fakeDisks machine) [mkNIC "eth0" (BootMACAddress (Spec machine))] (4 * 2 ^ 30) 2).

Definition fake_Inspect (machine : Machine) (restartOnFailure : bool) : go (Result + GoErr) :=
  match InspectFunc fake with
  | Some g => g machine restartOnFailure
  | None =>
    r <- Create KHardware (fake_hardware machine) ;;
    Ret match r with
        | inl _ => inl (outcome Complete)
        | inr err => if IsAlreadyExists err then inl (outcome Complete)
                     else inr (wrapf "fake deployer: writing synthetic MachineHardware for %q: %w" [Name machine] err)
        end
  end.

(** The status of the run after one more phase. *)
Definition advance_run (now : Z) (next : string) (done : bool) (run : DeployRun) : DeployRun :=
  let s := run_Status run in
  let timings := close_last now (PhaseTimings s) ++ [mkPhaseTiming next now (if done then Some now else None)] in
  let conditions := if done then SetStatusCondition (run_Conditions s)
                      (mkCondition DeployRunConditionSucceeded ConditionTrue (Generation run) "FakeDeploySucceeded"
                         "fake deployer completed this run without touching real hardware")
                    else run_Conditions s in
  with_run_status (fun s => s <| Phase := next |> <| PhaseTimings := timings |> <| run_Conditions := conditions |>) run.

(** The run as the caller has it afterwards, and the reply. *)
Definition fake_Provision (machine : Machine) (run : DeployRun) (restartOnFailure : bool) : go (DeployRun * (Result + GoErr)) :=
  match ProvisionFunc fake with
  | Some g => g machine run restartOnFailure
  | None =>
    match fakeFailOverride machine "provision" with
    | Some result => Ret (run, inl result)
    | None =>
      match nextDeployRunPhase (Phase (run_Status run)) with
      | inr err => Ret (run, inr (wrapf "fake deployer: %w" [] err))
      | inl (next, done) =>
        now <- Now ;;
        let run := advance_run now next done run in
        r <- StatusUpdate KRun run ;;
        Ret match r with
            | inr err => (run, inr (wrapf "fake deployer: writing DeployRun %q status: %w" [Name run] err))
            | inl stored => (stored : DeployRun, inl (outcome (if done then Complete else Continuing)))
            end
      end
    end
  end.

Definition fake_Deprovision (machine : Machine) (restartOnFailure : bool) : go (Result + GoErr) :=
  match DeprovisionFunc fake with
  | Some g => g machine restartOnFailure
  | None => Ret (inl (match fakeFailOverride machine "deprovision" with Some result => result | None => outcome Complete end))
  end.

Definition fake_PowerOff (machine : Machine) : go (Result + GoErr) :=
  match PowerOffFunc fake with Some g => g machine | None => Ret (inl (outcome Complete)) end.

Definition fake_Reboot (machine : Machine) (hard : bool) : go (Result + GoErr) :=
  match RebootFunc fake with Some g => g machine hard | None => Ret (inl (outcome Complete)) end.
End Fake.

(** ** Scripts *)

(** A script of a number of failures fails the step it names while fewer errors are
    counted, and no other step. *)
Theorem fake_fails_as_scripted (m : Machine) step step' n : free_of ":" step = true -> 0 <= n < 2 ^ 63 ->
  Annotations m !! FakeFailAnnotation = Some (step +:+ ":" +:+ show_dec n) ->
  (is_Some (fakeFailOverride m step') <-> step' = step /\ ErrorCount (Status m) < n).
Proof.
  intros Hf Hn Ha. unfold fakeFailOverride. rewrite Ha. change (":" +:+ show_dec n) with (String ":" (show_dec n)). rewrite cut_at_app by done. cbv zeta.
  destruct (String.eqb_spec step step') as [<-|Hne]; cbn [negb]; [|split; [by intros []|by intros [-> _]]].
  destruct (String.eqb_spec (show_dec n) fakeFailForever) as [Hx|_]; [pose proof (Atoi_dec n Hn) as Hd; by rewrite Hx in Hd|].
  rewrite Atoi_dec by done. destruct (Z.ltb_spec n 0); [lia|]. cbn [orb].
  destruct (Z.leb_spec n (ErrorCount (Status m))); split; [by intros []|lia|done|by eexists].
Qed.

(** ** The walk *)

(** What [k] calls leave: the first [k] phases entered in order, each ended when the
    next began. *)
Fixpoint chained (ts : list DeployRunPhaseTiming) : Prop :=
  match ts with
  | t :: (u :: _) as rest => pt_FinishedAt t = Some (pt_StartedAt u) /\ chained rest
  | _ => True
  end.

Definition walked (k : nat) (run : DeployRun) : Prop :=
  let s := run_Status run in
  Phase s = default "" (last (firstn k deployRunPhaseOrder)) /\
  map pt_Phase (PhaseTimings s) = firstn k deployRunPhaseOrder /\ chained (PhaseTimings s) /\
  match last (PhaseTimings s) with
  | Some t => pt_FinishedAt t = if (k =? length deployRunPhaseOrder)%nat then Some (pt_StartedAt t) else None
  | None => True
  end.

Lemma chained_snoc now u ts : chained ts -> match last ts with Some t => pt_FinishedAt t = None | None => True end -> pt_StartedAt u = now ->
  chained (close_last now ts ++ [u]).
Proof.
  intros Hc Hl Hu. induction ts as [|t [|t' ts] IH]; [done| |].
  - cbn in *. rewrite Hl. cbn. by rewrite Hu.
  - destruct Hc as [Ht Hc]. specialize (IH Hc Hl). destruct ts as [|t'' ts].
    + cbn in Ht, Hl, IH |- *. rewrite Hl in *. by split.
    + split; [exact Ht|exact IH].
Qed.

Lemma close_last_phases now ts : map pt_Phase (close_last now ts) = map pt_Phase ts.
Proof. induction ts as [|t [|t' ts] IH]; [done|cbn; by destruct (pt_FinishedAt t)|]. cbn in *. by rewrite IH. Qed.

Lemma next_after_walked k : (k <= length deployRunPhaseOrder)%nat ->
  let current := default "" (last (firstn k deployRunPhaseOrder)) in
  phase_index current deployRunPhaseOrder 0 = k /\ (k = 0%nat <-> current = "").
Proof. intros Hk. assert (Hc : (k <= 6)%nat) by exact Hk. do 7 (destruct k as [|k]; [by vm_compute|]). lia. Qed.

Lemma nextDeployRunPhase_walked k run : (k <= length deployRunPhaseOrder)%nat -> walked k run ->
  nextDeployRunPhase (Phase (run_Status run)) =
    match deployRunPhaseOrder !! k with
    | Some next => inl (next, (k =? length deployRunPhaseOrder - 1)%nat)
    | None => inr (errorf "run status.phase %q is already terminal" [Phase (run_Status run)])
    end.
Proof.
  intros Hk (Hp & _). destruct (next_after_walked k Hk) as [Hi Hz]. rewrite <- Hp in Hi, Hz. unfold nextDeployRunPhase. rewrite Hi. cbv zeta.
  destruct (String.eqb_spec (Phase (run_Status run)) "") as [He|Hne]; cbn [negb andb]; [done|].
  destruct (Nat.eqb_spec k 0) as [->|]; [by destruct Hne; apply Hz|done].
Qed.

Lemma advance_walked `{ApiMachinery} k now next run : walked k run -> deployRunPhaseOrder !! k = Some next ->
  walked (S k) (advance_run now next (k =? length deployRunPhaseOrder - 1)%nat run).
Proof.
  intros (Hp & Hm & Hc & Hl) Hk. assert (Hlt : (k < length deployRunPhaseOrder)%nat) by (by apply lookup_lt_Some in Hk).
  assert (Htake : firstn (S k) deployRunPhaseOrder = firstn k deployRunPhaseOrder ++ [next]) by (by apply take_S_r).
  set (fin := (k =? _)%nat).
  assert (Hs : Phase (run_Status (advance_run now next fin run)) = next /\ PhaseTimings (run_Status (advance_run now next fin run)) =
    close_last now (PhaseTimings (run_Status run)) ++ [mkPhaseTiming next now (if fin then Some now else None)]) by done.
  destruct Hs as [Hsp Hst]. unfold walked. cbv zeta. rewrite Hsp, Hst. split; [by rewrite Htake, last_snoc|].
  split; [rewrite map_app, close_last_phases, Hm, Htake; done|]. split.
  - apply chained_snoc; [done| |done]. destruct (last (PhaseTimings (run_Status run))); [|done].
    rewrite Hl. destruct (Nat.eqb_spec k (length deployRunPhaseOrder)); [lia|done].
  - rewrite last_snoc. unfold fin. cbn [pt_FinishedAt pt_StartedAt]. change (length deployRunPhaseOrder) with 6%nat in *. destruct (Nat.eqb_spec k (6 - 1)) as [->|]; [done|]. destruct (Nat.eqb_spec (S k) 6); [lia|done].
Qed.

(** Calls of Provision one after another, each on the run the one before left. *)
Fixpoint provision_calls `{ApiMachinery} (fake : FakeDeployer) (m : Machine) (n : nat) (run : DeployRun) : go (DeployRun * list (Result + GoErr)) :=
  match n with
  | O => Ret (run, [])
  | S n =>
    '(run, r) <- fake_Provision fake m run false ;;
    '(run, rs) <- provision_calls fake m n run ;;
    Ret (run, r :: rs)
  end.

(** The API server stores every status it is sent. *)
Definition stores_runs (tr : trace resp) : Prop := forall o r, ev (R := resp) (EStatusUpdate KRun o) r ∈ tr -> r = inl o.

Lemma provision_step `{ApiMachinery} fake m k run tr run' r : ProvisionFunc fake = None -> fakeFailOverride m "provision" = None ->
  walked k run -> (k < length deployRunPhaseOrder)%nat -> stores_runs tr -> runs (fake_Provision fake m run false) tr (run', r) ->
  exists now next, deployRunPhaseOrder !! k = Some next /\ run' = advance_run now next (k =? length deployRunPhaseOrder - 1)%nat run /\
    r = inl (outcome (if (k =? length deployRunPhaseOrder - 1)%nat then Complete else Continuing)).
Proof.
  intros Hf Ho Hw Hk Hs Hr. unfold fake_Provision in Hr. rewrite Hf, Ho, (nextDeployRunPhase_walked k run) in Hr by (done || lia).
  destruct (deployRunPhaseOrder !! k) as [next|] eqn:Hn; [|apply lookup_ge_None in Hn; lia].
  destruct Hr as (now & t1 & -> & Hr). cbn [bind] in Hr. destruct Hr as (st & t2 & -> & [-> Hr]).
  specialize (Hs _ st ltac:(right; by left)). subst st. injection Hr as -> ->. by exists now, next.
Qed.

(** Calls until a run is done: from a run that entered [k] phases the remaining ones
    are entered in order, each call but the last answers Continuing, the last one
    Complete with the Succeeded condition set. *)
Theorem fake_walks_the_phases `{ApiMachineryLaws} fake m n k run tr run' rs : ProvisionFunc fake = None -> fakeFailOverride m "provision" = None ->
  walked k run -> (k + S n = length deployRunPhaseOrder)%nat -> stores_runs tr -> runs (provision_calls fake m (S n) run) tr (run', rs) ->
  walked (length deployRunPhaseOrder) run' /\ Phase (run_Status run') = DeployRunPhaseSucceeded /\
  rs = replicate n (inl (outcome Continuing)) ++ [inl (outcome Complete)] /\
  IsStatusConditionTrue (run_Conditions (run_Status run')) DeployRunConditionSucceeded = true.
Proof.
  intros Hf Ho. revert k run tr rs. induction n as [|n IH]; intros k run tr rs Hw Hk Hs Hr.
  all: cbn [provision_calls] in Hr; apply runs_bind in Hr as (t1 & t2 & [run1 r] & -> & Hp & Hr).
  all: destruct (provision_step fake m k run t1 run1 r Hf Ho Hw ltac:(lia) ltac:(intros o x Hx; apply Hs, elem_of_app; by left) Hp) as (now & next & Hn & -> & ->).
  all: pose proof (advance_walked k now next run Hw Hn) as Hw1.
  - destruct Hr as [_ Hr]. assert (Hk5 : k = 5%nat) by (change (length deployRunPhaseOrder) with 6%nat in Hk; lia).
    subst k. injection Hr as -> ->. split; [done|]. split; [exact (proj1 Hw1)|]. split; [done|].
    unfold advance_run, with_run_status. cbn. by rewrite is_true_find, find_set_same.
  - change (match n with 0%nat => Ret _ | S _ => _ end) with (provision_calls fake m (S n)) in Hr.
    rewrite (proj2 (Nat.eqb_neq k (length deployRunPhaseOrder - 1))) in Hr, Hw1 by lia.
    apply runs_bind in Hr as (t3 & t4 & [run2 rs2] & -> & Hrest & [-> Hr]). injection Hr as -> ->.
    assert (Hs3 : stores_runs t3) by (intros o x Hx; apply Hs, elem_of_app; right; apply elem_of_app; by left).
    destruct (IH (S k) _ t3 rs2 Hw1 ltac:(lia) Hs3 Hrest) as (? & ? & -> & ?). split_and!; done.
Qed.
