(* ===== verification/Kezioctl.v ===== *)
(** * Kezioctl: what the commands of the CLI ask for

    [src/internal/kezioctl]: uploading an image and following its import, deploying,
    choosing a disk, enrolling a machine, deleting and listing Images, and reporting a
    deploy.  Each command is the function behind it; flags are its arguments.

    Parameters: SHA-256 in hexadecimal, JSON, durations as text, the environment, and
    which errors are those of a context.  The progress lines of the upload's own
    reader are left out; every other line is a call. *)

From S2P Require Import Prelude Text Effects Api Cluster Bootd AgentLive.
Local Open Scope string_scope.
Local Open Scope list_scope.
Local Open Scope Z_scope.

(** ** Calls *)

Inductive ctl :=
| LKube (e : eff)
| LOpen (path : string)
| LStat (path : string)
| LReadFile (path : string)
| LNewRequest (url : string)
| LPut (url authorization : string) (contentLength : Z)
| LPrint (line : string)
| LTick
| LDiverge.

(** [LPut] streams the open file as the body of the request: it answers the bytes
    that were streamed with the reply.  [LTick] answers [ctx.Err()] when the context
    is done first. *)
Definition ctl_resp (e : ctl) : Type :=
  match e with
  | LKube e => resp e
  | LStat _ => (Z + GoErr)%type
  | LReadFile _ => (string + GoErr)%type
  | LPut _ _ _ => ((string * HttpReply) + GoErr)%type
  | LPrint _ => unit
  | LDiverge => Empty_set
  | _ => option GoErr
  end.

Abbreviation ctlgo := (prog ctl_resp).
Abbreviation lcall := (call (R := ctl_resp)).

Definition kube_get (k : kind) (key : ObjectKey) : ctlgo (obj k + GoErr) := lcall (LKube (EGet k key)).
Definition kube_create (k : kind) (o : obj k) : ctlgo (obj k + GoErr) := lcall (LKube (ECreate k o)).
Definition kube_update (k : kind) (o : obj k) : ctlgo (obj k + GoErr) := lcall (LKube (EUpdate k o)).
Definition kube_delete (k : kind) (key : ObjectKey) : ctlgo (option GoErr) := lcall (LKube (EDelete k key)).

#[export] Instance eta_MachineClaimSpec : Eta MachineClaimSpec := fun r =>
  mkClaimSpec (cl_MachineName r) (cl_Selector r) (cl_ImageRef r) (cl_DataImages r) (cl_TargetDisk r) (cl_PostHookRefs r) (cl_Params r) (cl_Ezio r)
    (cl_AfterDeploy r).

(** ** Where to upload, and as whom *)

Definition ServerEnvVar : string := "KEZIOCTL_SERVER".
Definition TokenEnvVar : string := "KEZIOCTL_TOKEN".
Definition TokenFileEnvVar : string := "KEZIOCTL_TOKEN_FILE".
Definition carriage_return : string := String (ascii_of_nat 13) "".

Section Env.
Context (Getenv : string -> string).

Definition ResolveServerURL (flagValue : string) : string + GoErr :=
  if flagValue <>s "" then inl flagValue
  else if Getenv ServerEnvVar <>s "" then inl (Getenv ServerEnvVar)
  else inr (errorf "no image service URL given: set --server or %s" [ServerEnvVar]).

(** What is left of the content of a token file. *)
Definition token_of_file (data : string) : string := TrimSuffix (TrimSuffix data newline) carriage_return.

Definition readTokenFile (path : string) : ctlgo (string + GoErr) :=
  r <- lcall (LReadFile path) ;;
  Ret match r with
      | inr err => inr (wrapf "read token file %s: %w" [path] err)
      | inl data => let token := token_of_file data in
                    if token =s "" then inr (errorf "token file %s is empty" [path]) else inl token
      end.

Definition ResolveToken (tokenFlag tokenFileFlag : string) : ctlgo (string + GoErr) :=
  if tokenFlag <>s "" then Ret (inl tokenFlag)
  else if Getenv TokenEnvVar <>s "" then Ret (inl (Getenv TokenEnvVar))
  else if tokenFileFlag <>s "" then readTokenFile tokenFileFlag
  else if Getenv TokenFileEnvVar <>s "" then readTokenFile (Getenv TokenFileEnvVar)
  else Ret (inr (errorf "no upload token given: set --token, --token-file, %s, or %s" [TokenEnvVar; TokenFileEnvVar])).
End Env.

(** ** Uploading *)

Record UploadResponse := mkUploadResponse { up_Name : string; up_URL : string; up_SizeBytes : Z; up_Checksum : string; up_Idempotent : bool }.

Definition is_line_end (c : ascii) : bool := Nat.eqb (nat_of_ascii c) 10 || Nat.eqb (nat_of_ascii c) 13.
Definition trimNewline (s : string) : string := TrimRight is_line_end s.
Definition trimRightSlash (s : string) : string := TrimSuffix s "/".

Definition maxBodyPreview : nat := 4096.

Definition uploadError (y : HttpReply) : GoErr :=
  let msg := trimNewline (String.substring 0 maxBodyPreview (y_Body y)) in
  let c := y_StatusCode y in
  if c =? 401 then errorf "upload rejected: not authorized (check --token/--token-file or KEZIOCTL_TOKEN): %s" [msg]
  else if c =? 409 then errorf "upload rejected: name already in use with different content; choose a different --name or delete the existing Image first: %s" [msg]
  else if c =? 422 then errorf "upload rejected: checksum mismatch, the bytes received did not match: %s" [msg]
  else if c =? 413 then errorf "upload rejected: file exceeds the server's maximum upload size: %s" [msg]
  else if c =? 411 then errorf "upload rejected: server requires a known content length: %s" [msg]
  else if c =? 507 then errorf "upload rejected: image service has insufficient staging space or quota: %s" [msg]
  else errorf "upload failed with status %s: %s" [y_Status y; msg].

Section Commands.
Context `{ApiMachinery} (hex_sha256 : string -> string) (decode_upload : string -> UploadResponse + GoErr).
Context (encode_params : gmap string string -> string + GoErr) (show_duration : Z -> string) (isDeadlineExceeded isCanceled : GoErr -> bool).

Definition isContextError (err : GoErr) : bool := isDeadlineExceeded err || isCanceled err.

Definition Upload (ServerURL Token name : string) (progress : bool) (size : Z) : ctlgo (UploadResponse + GoErr) :=
  if ServerURL =s "" then Ret (inr (errorf "upload server URL is empty" []))
  else if name =s "" then Ret (inr (errorf "upload name is empty" []))
  else
  let url := trimRightSlash ServerURL +:+ "/uploads/" +:+ name in
  r <- lcall (LNewRequest url) ;;
  match r with
  | Some err => Ret (inr (wrapf "build upload request: %w" [] err))
  | None =>
    r <- lcall (LPut url ("Bearer " +:+ Token) size) ;;
    match r with
    | inr err => Ret (inr (wrapf "upload to %s: %w" [url] err))
    | inl (streamed, y) =>
      if negb (y_StatusCode y =? 200) && negb (y_StatusCode y =? 201) then Ret (inr (uploadError y))
      else
      match (match y_BodyErr y with Some err => inr err | None => decode_upload (y_Body y) end) with
      | inr err => Ret (inr (wrapf "decode upload response: %w" [] err))
      | inl out =>
        if up_Checksum out =s "" then
          Ret (inr (errorf "upload integrity check failed: server response carried no checksum; cannot verify upload integrity" []))
        else
        let streamedChecksum := "sha256:" +:+ hex_sha256 streamed in
        if streamedChecksum <>s up_Checksum out then
          Ret (inr (errorf "upload integrity check failed: streamed content hashed to %s but the server reports %s" [streamedChecksum; up_Checksum out]))
        else
        (if progress && (0 <? size) then lcall (LPrint (sprintf "uploaded %d/%d bytes (100%)" [show_dec size; show_dec size])) else Ret tt) ;;
        Ret (inl out)
      end
    end
  end.

Definition imageImportWaitPollInterval : Z := 5 * Second.

Record ImageUploadOptions := mkImageUpload {
  iu_File : string; iu_Name : string; iu_Namespace : string; iu_ImageName : string; iu_ContentPrefix : string; iu_OSFamily : string;
  iu_Server : string; iu_Token : string; iu_Progress : bool; iu_Wait : bool; iu_WaitTimeout : Z }.

Definition orDash (s : string) : string := if s =s "" then "-" else s.

Definition conditionDetail (conditions : list Condition) (conditionType : string) : string :=
  match FindStatusCondition conditions conditionType with
  | None => "no " +:+ conditionType +:+ " condition recorded"
  | Some cond => if cd_Message cond =s "" then cd_Reason cond else cd_Reason cond +:+ ": " +:+ cd_Message cond
  end.

Record importWaitState := mkWaitState { ws_line : string; ws_ready : bool; ws_failure : option GoErr }.

(** A state that was not read is the empty one of a new object. *)
Definition wait_verdict (opts : ImageUploadOptions) (imageName : string) (imp : option ImageImport) (image : option Image) : importWaitState :=
  let ns := iu_Namespace opts in
  let imageState := match image with Some i => orDash (img_State (image_Status i)) | None => "absent" end in
  let importState := match imp with Some i => orDash (imp_State (import_Status i)) | None => "absent" end in
  let line := sprintf "imageimport %s/%s: state=%s, image %s/%s: state=%s" [ns; iu_Name opts; importState; ns; imageName; imageState] in
  let in_image (s : string) := match image with Some i => img_State (image_Status i) =s s | None => false end in
  let in_import (s : string) := match imp with Some i => imp_State (import_Status i) =s s | None => false end in
  if in_image ImageStateReady then mkWaitState line true None
  else if in_import ImageImportStateFailed then
    mkWaitState line false (Some (errorf "imageimport %s/%s failed: %s" [ns; iu_Name opts;
      conditionDetail (match imp with Some i => imp_Conditions (import_Status i) | None => [] end) ImageImportConditionReady]))
  else if in_image ImageStateFailed then
    mkWaitState line false (Some (errorf "image %s/%s failed: %s" [ns; imageName;
      conditionDetail (match image with Some i => img_Conditions (image_Status i) | None => [] end) ImageConditionReady]))
  else mkWaitState line false None.

Definition observeImportWait (opts : ImageUploadOptions) (imageName : string) : ctlgo (importWaitState + GoErr) :=
  let ns := iu_Namespace opts in
  r <- kube_get KImport (mkKey ns (iu_Name opts)) ;;
  match (match r with
         | inl imp => inl (inl (Some (imp : ImageImport)))
         | inr err =>
           if IsNotFound err then
             inl (inr (mkWaitState (sprintf "imageimport %s/%s: state=absent" [ns; iu_Name opts]) false
               (Some (errorf "imageimport %s/%s was removed while waiting for Image %s/%s" [ns; iu_Name opts; ns; imageName]))))
           else if isContextError err then inl (inl None)
           else inr (wrapf "get ImageImport %s/%s: %w" [ns; iu_Name opts] err)
         end) with
  | inr err => Ret (inr err)
  | inl (inr gone) => Ret (inl gone)
  | inl (inl imp) =>
    r <- kube_get KImage (mkKey ns imageName) ;;
    Ret match r with
        | inl image => inl (wait_verdict opts imageName imp (Some (image : Image)))
        | inr err => if IsNotFound err || isContextError err then inl (wait_verdict opts imageName imp None)
                     else inr (wrapf "get Image %s/%s: %w" [ns; imageName] err)
        end
  end.

(** The loop of [waitForImportedImage], with the line printed last. *)
Fixpoint wait_rounds (rounds : nat) (opts : ImageUploadOptions) (imageName lastPrinted : string) : ctlgo (option GoErr) :=
  match rounds with
  | O => r <- lcall LDiverge ;; match r : Empty_set with end
  | S rounds =>
    state <- observeImportWait opts imageName ;;
    match state with
    | inr err => Ret (Some err)
    | inl state =>
      lastPrinted <- (if iu_Progress opts && (ws_line state <>s lastPrinted) then lcall (LPrint (ws_line state)) ;; Ret (ws_line state) else Ret lastPrinted) ;;
      match ws_failure state with
      | Some err => Ret (Some err)
      | None =>
        if ws_ready state then Ret None
        else
        r <- lcall LTick ;;
        match r with
        | None => wait_rounds rounds opts imageName lastPrinted
        | Some err =>
          if (0 <? iu_WaitTimeout opts) && isDeadlineExceeded err then
            Ret (Some (errorf "timed out after %s waiting for Image %s/%s to become Ready" [show_duration (iu_WaitTimeout opts); iu_Namespace opts; imageName]))
          else Ret (Some (wrapf "canceled while waiting for Image %s/%s to become Ready: %w" [iu_Namespace opts; imageName] err))
        end
      end
    end
  end.
Definition waitForImportedImage (rounds : nat) (opts : ImageUploadOptions) (imageName : string) : ctlgo (option GoErr) := wait_rounds rounds opts imageName "".

Definition or_name (s : string) (opts : ImageUploadOptions) : string := if s =s "" then iu_Name opts else s.

Definition import_of (opts : ImageUploadOptions) (u : UploadResponse) : ImageImport :=
  mkImport (mkObjectMeta (iu_Name opts) (iu_Namespace opts) "" "" 0 0 None [] ∅ ∅ [])
    (mkImportSpec (mkImportSource (up_URL u) (up_Checksum u)) (or_name (iu_ImageName opts) opts) (or_name (iu_ContentPrefix opts) opts) (iu_OSFamily opts)
       None None [] None None)
    (mkImportStatus "" None [] None []).

(** What was created, as far as it was, and the error. *)
Definition ImageUpload (rounds : nat) (opts : ImageUploadOptions) : ctlgo (option (UploadResponse * ImageImport) * option GoErr) :=
  r <- lcall (LOpen (iu_File opts)) ;;
  match r with
  | Some err => Ret (None, Some (wrapf "open %s: %w" [iu_File opts] err))
  | None =>
    r <- lcall (LStat (iu_File opts)) ;;
    match r with
    | inr err => Ret (None, Some (wrapf "stat %s: %w" [iu_File opts] err))
    | inl size =>
      r <- Upload (iu_Server opts) (iu_Token opts) (iu_Name opts) (iu_Progress opts) size ;;
      match r with
      | inr err => Ret (None, Some err)
      | inl u =>
        r <- kube_create KImport (import_of opts u) ;;
        match r with
        | inr err =>
          Ret (None, Some (if IsAlreadyExists err then
            errorf "upload %s succeeded (checksum %s) but ImageImport %s/%s already exists: delete it first, or use a different --name"
              [iu_Name opts; up_Checksum u; iu_Namespace opts; iu_Name opts]
            else wrapf "upload %s succeeded (checksum %s) but creating the ImageImport failed: %w" [iu_Name opts; up_Checksum u] err))
        | inl imp =>
          if negb (iu_Wait opts) then Ret (Some (u, imp : ImageImport), None)
          else
          err <- waitForImportedImage rounds opts (or_name (iu_ImageName opts) opts) ;;
          Ret (Some (u, imp : ImageImport), err)
        end
      end
    end
  end.

(** ** Deploying *)

Definition claim_name (machineName : string) : string := machineName +:+ "-claim".

(** [None] is a flag that was not given. *)
Record DeployOptions := mkDeploy {
  do_MachineName : string; do_Namespace : string; do_ImageName : string; do_ImageNamespace : string;
  do_DataImages : option (list MachineDataImage); do_PostHookRefs : option (list NameRef); do_Params : option (gmap string string) }.

Definition payload (opts : DeployOptions) (params : option string) (s : MachineClaimSpec) : MachineClaimSpec :=
  let s := if do_ImageName opts <>s "" then s <| cl_ImageRef := Some (mkNameRef (do_ImageNamespace opts) (do_ImageName opts)) |> else s in
  let s := match do_DataImages opts with Some l => s <| cl_DataImages := Some l |> | None => s end in
  let s := match do_PostHookRefs opts with Some l => s <| cl_PostHookRefs := l |> | None => s end in
  match params with Some raw => s <| cl_Params := Some raw |> | None => s end.

Definition new_claim (opts : DeployOptions) : MachineClaim :=
  mkClaim (mkObjectMeta (claim_name (do_MachineName opts)) (do_Namespace opts) "" "" 0 0 None [] ∅ ∅ [])
    (mkClaimSpec (do_MachineName opts) None None None None [] None None "") (mkClaimStatus "" "" None None None []).

(** The Machine a command names is there. *)
Definition machine_there (ns name : string) : ctlgo (Machine + GoErr) :=
  r <- kube_get KMachine (mkKey ns name) ;;
  Ret match r with
      | inl m => inl (m : Machine)
      | inr err => inr (if IsNotFound err then errorf "machine %s/%s not found" [ns; name] else wrapf "get Machine %s/%s: %w" [ns; name] err)
      end.

Definition ctl_Deploy (opts : DeployOptions) : ctlgo (option GoErr) :=
  let ns := do_Namespace opts in
  let claimName := claim_name (do_MachineName opts) in
  r <- machine_there ns (do_MachineName opts) ;;
  match r with
  | inr err => Ret (Some err)
  | inl _ =>
    r <- kube_get KClaim (mkKey ns claimName) ;;
    match (match r with
           | inl claim => inl (claim : MachineClaim, false)
           | inr err => if IsNotFound err then inl (new_claim opts, true) else inr (wrapf "get MachineClaim %s/%s: %w" [ns; claimName] err)
           end) with
    | inr err => Ret (Some err)
    | inl (claim, create) =>
      match (match do_Params opts with None => inl None | Some p => match encode_params p with inl raw => inl (Some raw) | inr err => inr err end end) with
      | inr err => Ret (Some (wrapf "encode --param values: %w" [] err))
      | inl params =>
        let claim := claim <| claim_Spec := payload opts params (claim_Spec claim) |> in
        if (create : bool) then
          r <- kube_create KClaim claim ;;
          Ret match r with inr err => Some (wrapf "create MachineClaim %s/%s: %w" [ns; claimName] err) | inl _ => None end
        else
          r <- kube_update KClaim claim ;;
          Ret match r with inr err => Some (wrapf "update MachineClaim %s/%s: %w" [ns; claimName] err) | inl _ => None end
      end
    end
  end.

Definition MachineSetDisk (ns name : string) (hints : TargetDiskHints) : ctlgo (option GoErr) :=
  r <- machine_there ns name ;;
  match r with
  | inr err => Ret (Some err)
  | inl _ =>
    r <- kube_get KClaim (mkKey ns (claim_name name)) ;;
    match r with
    | inr err => Ret (Some (if IsNotFound err then errorf "machineclaim %s/%s not found" [ns; claim_name name]
                            else wrapf "get MachineClaim %s/%s: %w" [ns; claim_name name] err))
    | inl claim =>
      let claim : MachineClaim := claim in
      r <- kube_update KClaim (claim <| claim_Spec := claim_Spec claim <| cl_TargetDisk := Some hints |> |>) ;;
      Ret match r with inr err => Some (wrapf "update MachineClaim %s/%s: %w" [ns; claim_name name] err) | inl _ => None end
    end
  end.

(** ** Enrolling *)

Record MachineEnrollOptions := mkEnroll {
  en_Name : string; en_Namespace : string; en_BMCAddress : string; en_BMCCredentialsSecret : string; en_BootMACAddress : string;
  en_SubnetName : string; en_SubnetNamespace : string }.

Definition no_credentials : MachineCredentialsStatus := mkCredentialsStatus None "".

Definition enrolled (opts : MachineEnrollOptions) : Machine :=
  mkMachine (mkObjectMeta (en_Name opts) (en_Namespace opts) "" "" 0 0 None [] ∅ ∅ [])
    (mkMachineSpec (mkBMC (en_BMCAddress opts) (mkSecretReference (en_BMCCredentialsSecret opts))) (en_BootMACAddress opts)
       (mkNameRef (en_SubnetNamespace opts) (en_SubnetName opts)) None [] None)
    (mkMachineStatus "" "" "" 0 0 "" no_credentials no_credentials None None None None None None None []).

Definition MachineEnroll (opts : MachineEnrollOptions) : ctlgo (Machine + GoErr) :=
  r <- kube_create KMachine (enrolled opts) ;;
  Ret match r with
      | inl m => inl (m : Machine)
      | inr err => inr (if IsAlreadyExists err then errorf "machine %s/%s already exists" [en_Namespace opts; en_Name opts]
                        else wrapf "create Machine %s/%s: %w" [en_Namespace opts; en_Name opts] err)
      end.

(** ** Deleting and listing Images *)

Definition imageDeletePollInterval : Z := 2 * Second.

Fixpoint waitForImageGone (rounds : nat) (ns name : string) (timeout : Z) : ctlgo (option GoErr) :=
  match rounds with
  | O => r <- lcall LDiverge ;; match r : Empty_set with end
  | S rounds =>
    r <- kube_get KImage (mkKey ns name) ;;
    match (match r with
           | inr err => if IsNotFound err then Some None
                        else if negb (isContextError err) then Some (Some (wrapf "get Image %s/%s: %w" [ns; name] err)) else None
           | inl _ => None
           end) with
    | Some result => Ret result
    | None =>
      r <- lcall LTick ;;
      match r with
      | None => waitForImageGone rounds ns name timeout
      | Some err =>
        Ret (Some (if (0 <? timeout) && isDeadlineExceeded err
                   then errorf "timed out after %s waiting for Image %s/%s to be removed" [show_duration timeout; ns; name]
                   else wrapf "canceled while waiting for Image %s/%s to be removed: %w" [ns; name] err))
      end
    end
  end.

Definition ImageDelete (rounds : nat) (ns name : string) (wait : bool) (timeout : Z) : ctlgo (option GoErr) :=
  r <- kube_get KImage (mkKey ns name) ;;
  match r with
  | inr err => Ret (Some (if IsNotFound err then errorf "image %s/%s not found" [ns; name] else wrapf "get Image %s/%s: %w" [ns; name] err))
  | inl image =>
    r <- kube_delete KImage (mkKey (Namespace (image : Image)) (Name (image : Image))) ;;
    match (match r with Some err => if IsNotFound err then None else Some err | None => None end) with
    | Some err => Ret (Some (wrapf "delete Image %s/%s: %w" [ns; name] err))
    | None => if negb wait then Ret None else waitForImageGone rounds ns name timeout
    end
  end.

Definition ImageList (ns : string) (allNamespaces : bool) : ctlgo (list Image + GoErr) :=
  r <- lcall (LKube (EList KImage (if allNamespaces then "" else ns))) ;;
  Ret match (r : list Image + GoErr) with inr err => inr (wrapf "list Images: %w" [] err) | inl l => inl l end.

Definition show_bool (b : bool) : string := if b then "true" else "false".

(** The cells handed to the tab writer, one list a row. *)
Definition image_row (now : Z) (allNamespaces : bool) (img : Image) : list string :=
  let state := if img_State (image_Status img) =s "" then ImageStatePending else img_State (image_Status img) in
  let ready := IsStatusConditionTrue (img_Conditions (image_Status img)) ImageConditionReady in
  (if allNamespaces then [Namespace img] else []) ++
  [Name img; state; show_bool ready; show_bool (EffectiveBootable (image_Spec img)); EffectiveOSFamily (image_Spec img); show_duration (now - CreationTimestamp img)].

Definition WriteImageList (now : Z) (images : list Image) (allNamespaces : bool) : list (list string) :=
  ((if allNamespaces then ["NAMESPACE"] else []) ++ ["NAME"; "STATE"; "READY"; "BOOTABLE"; "OSFAMILY"; "AGE"]) :: map (image_row now allNamespaces) images.

(** ** Following a deploy *)

Definition statusPollInterval : Z := 2 * Second.
Definition terminalDeployRunPhases (phase : string) : bool := (phase =s DeployRunPhaseSucceeded) || (phase =s DeployRunPhaseFailed).

(** The run a report is about: the current one, else the last attempted, else the last successful. *)
Definition reported_run (s : MachineStatus) : option NameRef :=
  match CurrentRunRef s with
  | Some r => Some r
  | None => match LastAttemptedRunRef s with Some r => Some r | None => LastSuccessfulRunRef s end
  end.

Definition statusLine (ns name : string) : ctlgo ((string * option DeployRun) + GoErr) :=
  r <- machine_there ns name ;;
  match r with
  | inr err => Ret (inr err)
  | inl machine =>
    let mns := Namespace machine in
    match reported_run (Status machine) with
    | None => Ret (inl (sprintf "machine %s/%s: state=%s (no deploy recorded)" [mns; Name machine; orDash (State (Status machine))], None))
    | Some ref =>
      let runNamespace := if nr_Namespace ref =s "" then mns else nr_Namespace ref in
      r <- kube_get KRun (mkKey runNamespace (nr_Name ref)) ;;
      Ret match r with
          | inr err => inr (if IsNotFound err then errorf "deployrun %s/%s (referenced by Machine %s/%s) not found" [runNamespace; nr_Name ref; mns; Name machine]
                            else wrapf "get DeployRun %s/%s: %w" [runNamespace; nr_Name ref] err)
          | inl run =>
            let run : DeployRun := run in
            let succeededStr := match FindStatusCondition (run_Conditions (run_Status run)) DeployRunConditionSucceeded with
                                | Some c => cd_Status c | None => "unknown" end in
            inl (sprintf "machine %s/%s: state=%s deployrun=%s phase=%s succeeded=%s"
                   [mns; Name machine; orDash (State (Status machine)); Name run; orDash (Phase (run_Status run)); succeededStr], Some run)
          end
    end
  end.

(** Whether the run is at its end, and the line printed last. *)
Definition printIfChanged (ns name lastPrinted : string) : ctlgo ((bool * string) + GoErr) :=
  r <- statusLine ns name ;;
  match r with
  | inr err => Ret (inr err)
  | inl (line, run) =>
    (if line <>s lastPrinted then lcall (LPrint line) else Ret tt) ;;
    Ret (inl (match run with Some run => terminalDeployRunPhases (Phase (run_Status run)) | None => false end, line))
  end.

Fixpoint watch_rounds (rounds : nat) (ns name lastPrinted : string) : ctlgo (option GoErr) :=
  match rounds with
  | O => r <- lcall LDiverge ;; match r : Empty_set with end
  | S rounds =>
    r <- lcall LTick ;;
    match r with
    | Some err => Ret (Some (wrapf "canceled while watching Machine %s/%s: %w" [ns; name] err))
    | None =>
      r <- printIfChanged ns name lastPrinted ;;
      match r with
      | inr err => Ret (Some err)
      | inl (true, _) => Ret None
      | inl (false, lastPrinted) => watch_rounds rounds ns name lastPrinted
      end
    end
  end.

Definition ctl_Status (rounds : nat) (ns name : string) (watch : bool) : ctlgo (option GoErr) :=
  r <- printIfChanged ns name "" ;;
  match r with
  | inr err => Ret (Some err)
  | inl (done, lastPrinted) => if negb watch || (done : bool) then Ret None else watch_rounds rounds ns name lastPrinted
  end.
End Commands.
