(* ===== verification/KezioctlSafety.v ===== *)
(** * KezioctlSafety: what the commands of the CLI write

    An import is created only for content whose streamed bytes have the checksum it
    carries; a deploy changes nothing of a claim but its payload; a watch prints
    changes only. *)

From S2P Require Import Prelude Text Effects Api Cluster Bootd AgentLive ImageService Kezioctl.
Local Open Scope string_scope.
Local Open Scope list_scope.
Local Open Scope Z_scope.

Section Ctl.
Context `{ApiMachinery} (hex_sha256 : string -> string) (decode_upload : string -> UploadResponse + GoErr).
Context (encode_params : gmap string string -> string + GoErr) (show_duration : Z -> string) (isDeadlineExceeded isCanceled : GoErr -> bool).

(** A call that changes the cluster. *)
Definition ctl_writes (e : ctl) : bool := match e with LKube e => is_write e | _ => false end.
Definition reads_only (e : ctl) : Prop := ctl_writes e = false.

(** ** Uploading *)

(** The bytes of a request to the upload service that was answered as stored with this response. *)
Definition streamed_as (opts : ImageUploadOptions) (tr : trace ctl_resp) (bytes : string) (u : UploadResponse) : Prop :=
  exists size y, ev (R := ctl_resp) (LPut (trimRightSlash (iu_Server opts) +:+ "/uploads/" +:+ iu_Name opts) ("Bearer " +:+ iu_Token opts) size) (inl (bytes, y)) ∈ tr /\
    (y_StatusCode y = 200 \/ y_StatusCode y = 201) /\ decode_upload (y_Body y) = inl u /\ up_Checksum u = "sha256:" +:+ hex_sha256 bytes.

Lemma Upload_runs opts progress size tr u :
  runs (Upload hex_sha256 decode_upload (iu_Server opts) (iu_Token opts) (iu_Name opts) progress size) tr (inl u) -> exists bytes, streamed_as opts tr bytes u.
Proof.
  unfold Upload. destruct (iu_Server opts =s ""); [by intros []|]. destruct (iu_Name opts =s ""); [by intros []|]. cbv zeta.
  intros ([err|] & t1 & -> & Hr); cbn [bind] in Hr; [by destruct Hr|]. destruct Hr as ([[bytes y]|err] & t2 & -> & Hr); cbn [bind] in Hr; [|by destruct Hr].
  destruct (negb _ && negb _) eqn:Hc; [by destruct Hr|]. destruct (y_BodyErr y); [by destruct Hr|].
  destruct (decode_upload (y_Body y)) as [out|err] eqn:Hd; [|by destruct Hr]. destruct (up_Checksum out =s ""); [by destruct Hr|].
  destruct (String.eqb_spec ("sha256:" +:+ hex_sha256 bytes) (up_Checksum out)) as [He|]; cbn [negb] in Hr; [|by destruct Hr].
  apply runs_bind in Hr as (t3 & t4 & [] & -> & _ & [-> Hu]). injection Hu as ->. exists bytes, size, y. split; [by right; left|].
  split_and!; [|done|done]. apply andb_false_iff in Hc as [Hc|Hc]; apply negb_false_iff, Z.eqb_eq in Hc; auto.
Qed.

Lemma Upload_reads srv tok name progress size : calls reads_only (Upload hex_sha256 decode_upload srv tok name progress size).
Proof. repeat calls_step; done. Qed.

Lemma observe_reads opts image : calls reads_only (observeImportWait isDeadlineExceeded isCanceled opts image).
Proof. repeat calls_step; done. Qed.

Lemma wait_reads rounds opts image last : calls reads_only (wait_rounds show_duration isDeadlineExceeded isCanceled rounds opts image last).
Proof.
  revert last. induction rounds as [|rounds IH]; intros last; cbn [wait_rounds]; [by apply calls_vis|].
  apply calls_bind; [apply observe_reads|]. intros [st|err]; [|apply calls_ret]. apply calls_bind; [by destruct (_ && _); repeat calls_step|]. intros l.
  destruct (ws_failure st); [apply calls_ret|]. destruct (ws_ready st); [apply calls_ret|]. apply calls_vis; [done|]. intros [e|]; [|apply IH].
  destruct (_ && _); apply calls_ret.
Qed.

(** The Image was read Ready. *)
Definition seen_ready (ns image : string) (tr : trace ctl_resp) : Prop :=
  exists i, ev (R := ctl_resp) (LKube (EGet KImage (mkKey ns image))) (inl i) ∈ tr /\ img_State (image_Status i) = ImageStateReady.

Lemma wait_verdict_ready opts name imp image : ws_ready (wait_verdict opts name imp image) = true ->
  exists i, image = Some i /\ img_State (image_Status i) = ImageStateReady.
Proof.
  unfold wait_verdict. cbv zeta. generalize (sprintf "imageimport %s/%s: state=%s, image %s/%s: state=%s"). intros line.
  destruct image as [i|]; [destruct (String.eqb_spec (img_State (image_Status i)) ImageStateReady) as [Hs|]; [by exists i|]|].
  all: destruct (match imp with Some _ => _ | None => _ end); [intros Hx; cbn [ws_ready] in Hx; congruence|].
  - destruct (_ =s ImageStateFailed); intros Hx; cbn [ws_ready] in Hx; congruence.
  - intros Hx. cbn [ws_ready] in Hx. congruence.
Qed.

Lemma observe_ready opts image tr st : runs (observeImportWait isDeadlineExceeded isCanceled opts image) tr (inl st) -> ws_ready st = true ->
  seen_ready (iu_Namespace opts) image tr.
Proof.
  unfold observeImportWait, kube_get. intros (r & t1 & -> & Hr) Hready. cbn [bind] in Hr.
  destruct (match r with inl _ => _ | inr _ => _ end) as [[imp|gone]|err] eqn:Hm; [| |destruct Hr as [_ Hr]; congruence].
  2: { destruct Hr as [_ Hr]. assert (Hg : ws_ready gone = true) by congruence. destruct r as [i|err]; cbv beta iota in Hm; [congruence|].
       destruct (IsNotFound err); [apply (f_equal (fun x => match x with inl (inr g) => ws_ready g | _ => false end)) in Hm; cbn in Hm; congruence|].
       destruct (isContextError _ _ err); congruence. }
  destruct Hr as ([i|err] & t2 & -> & [-> Hr]).
  - injection Hr as ->. apply wait_verdict_ready in Hready as (i' & Hi & Hs).
    injection Hi as <-. exists i. split; [by right; left|done].
  - cbv beta iota in Hr. destruct (_ || _); [|congruence]. injection Hr as ->.
    apply wait_verdict_ready in Hready as (i' & Hi & _). congruence.
Qed.

Lemma wait_ready rounds opts image last tr : runs (wait_rounds show_duration isDeadlineExceeded isCanceled rounds opts image last) tr None ->
  seen_ready (iu_Namespace opts) image tr.
Proof.
  assert (Hmono : forall t u v, seen_ready (iu_Namespace opts) image u -> seen_ready (iu_Namespace opts) image (t ++ u ++ v)).
  { intros t u v (i & Hin & Hs). exists i. split; [|done]. rewrite !elem_of_app. auto. }
  revert last tr. induction rounds as [|rounds IH]; cbn [wait_rounds]; intros last tr Hr; [by destruct Hr as ([] & _)|].
  apply runs_bind in Hr as (t1 & t2 & [st|err] & -> & Hst & Hr); [|by destruct Hr]. apply runs_bind in Hr as (t3 & t4 & l & -> & _ & Hr).
  destruct (ws_failure st); [by destruct Hr|]. destruct (ws_ready st) eqn:Hready; [apply (Hmono []); by apply (observe_ready _ _ _ st)|].
  destruct Hr as ([e|] & t5 & -> & Hr); cbn [bind] in Hr; [by destruct (_ && _); destruct Hr|]. apply IH in Hr.
  rewrite app_assoc. change (ev (R := ctl_resp) LTick None :: t5) with ([ev (R := ctl_resp) LTick None] ++ t5).
  rewrite app_assoc. specialize (Hmono ((t1 ++ t3) ++ [ev (R := ctl_resp) LTick None]) t5 [] Hr). by rewrite app_nil_r in Hmono.
Qed.

Lemma only_reads {A} (p : ctlgo A) tr a x : calls reads_only p -> runs p tr a -> x ∈ tr -> ctl_writes (projT1 x) = false.
Proof. intros Hc Hr Hx. pose proof (calls_runs _ _ _ _ Hc Hr) as Hf. rewrite Forall_forall in Hf. exact (Hf x Hx). Qed.

(** C22. An upload makes at most one write to the cluster: the import, created after a
    request that the service answered as stored, carrying the service's URL for it and
    a checksum that is the SHA-256 of the bytes that were streamed; without it, and
    when the import is refused, the command fails; and a waiting command succeeds only
    after it read the Image as Ready. *)
Theorem import_is_of_what_was_streamed rounds opts tr res err :
  runs (ImageUpload hex_sha256 decode_upload show_duration isDeadlineExceeded isCanceled rounds opts) tr (res, err) ->
  (res = None /\ err <> None /\ forall x, x ∈ tr -> ctl_writes (projT1 x) = false) \/
  exists t1 bytes u created t2, tr = t1 ++ ev (R := ctl_resp) (LKube (ECreate KImport (import_of opts u))) created :: t2 /\
    streamed_as opts t1 bytes u /\ (forall x, x ∈ t1 ++ t2 -> ctl_writes (projT1 x) = false) /\
    match created with
    | inl imp => res = Some (u, imp) /\ (err = None -> iu_Wait opts = true -> seen_ready (iu_Namespace opts) (or_name (iu_ImageName opts) opts) t2)
    | inr _ => res = None /\ err <> None
    end.
Proof.
  unfold ImageUpload. intros ([e1|] & t1 & -> & Hr); cbn [bind] in Hr.
  { left. destruct Hr as [-> Hr]. injection Hr as -> ->. split_and!; [done|done|]. by intros x [->|[]%not_elem_of_nil]%elem_of_cons. }
  destruct Hr as ([size|e2] & t2 & -> & Hr); cbn [bind] in Hr.
  2: { left. destruct Hr as [-> Hr]. injection Hr as -> ->. split_and!; [done|done|]. by intros x [->|[->|[]%not_elem_of_nil]%elem_of_cons]%elem_of_cons. }
  apply runs_bind in Hr as (t3 & t4 & up & -> & Hup & Hr).
  assert (Hno : forall x, x ∈ [ev (R := ctl_resp) (LOpen (iu_File opts)) None; ev (R := ctl_resp) (LStat (iu_File opts)) (inl size)] ++ t3 -> ctl_writes (projT1 x) = false).
  { intros x [Hx|Hx]%elem_of_app; [by apply elem_of_cons in Hx as [->|[->|[]%not_elem_of_nil]%elem_of_cons]|].
    exact (only_reads _ _ _ _ (Upload_reads _ _ _ _ _) Hup Hx). }
  destruct up as [u|e3].
  2: { left. destruct Hr as [-> Hr]. injection Hr as -> ->. rewrite app_nil_r. split_and!; [done|done|exact Hno]. }
  apply Upload_runs in Hup as [bytes (size' & y & Hput & Hrest)]. right. destruct Hr as (created & t5 & -> & Hr). cbn [bind] in Hr.
  exists ([ev (R := ctl_resp) (LOpen (iu_File opts)) None; ev (R := ctl_resp) (LStat (iu_File opts)) (inl size)] ++ t3), bytes, u, created, t5.
  split; [done|]. split; [exists size', y; split; [by right; right|done]|].
  assert (Ht5 : forall t, (forall x, x ∈ t -> ctl_writes (projT1 x) = false) -> forall x, x ∈ (([ev (R := ctl_resp) (LOpen (iu_File opts)) None; ev (R := ctl_resp) (LStat (iu_File opts)) (inl size)] ++ t3) ++ t) -> ctl_writes (projT1 x) = false).
  { intros t Ht x [Hx|Hx]%elem_of_app; [by apply Hno|by apply Ht]. }
  assert (Hnil : forall x : event ctl_resp, x ∈ [] -> ctl_writes (projT1 x) = false) by (intros x Hx; by apply not_elem_of_nil in Hx).
  destruct created as [imp|e4].
  - destruct (iu_Wait opts) eqn:Hw; cbn [negb] in Hr.
    + apply runs_bind in Hr as (t6 & t7 & werr & -> & Hwait & [-> Hr]). injection Hr as -> ->. rewrite app_nil_r. split.
      * apply Ht5. intros x Hx. exact (only_reads _ _ _ _ (wait_reads _ _ _ _) Hwait Hx).
      * split; [done|]. intros -> _. by apply wait_ready in Hwait.
    + destruct Hr as [-> Hr]. injection Hr as -> ->. split; [by apply Ht5|]. by split.
  - destruct Hr as [-> Hr]. injection Hr as -> ->. split; [by apply Ht5|]. split; [done|]. by destruct (IsAlreadyExists e4).
Qed.

(** ** Deploying *)

(** A payload sets what its flags name and keeps the rest of the claim. *)
Lemma payload_keeps opts params s :
  let s' := payload opts params s in
  cl_MachineName s' = cl_MachineName s /\ cl_Selector s' = cl_Selector s /\ cl_TargetDisk s' = cl_TargetDisk s /\ cl_Ezio s' = cl_Ezio s /\
  cl_AfterDeploy s' = cl_AfterDeploy s /\
  (do_ImageName opts = "" -> cl_ImageRef s' = cl_ImageRef s) /\ (do_DataImages opts = None -> cl_DataImages s' = cl_DataImages s) /\
  (do_PostHookRefs opts = None -> cl_PostHookRefs s' = cl_PostHookRefs s) /\ (params = None -> cl_Params s' = cl_Params s).
Proof.
  unfold payload. destruct (String.eqb_spec (do_ImageName opts) ""), (do_DataImages opts), (do_PostHookRefs opts), params; cbn; by split_and!.
Qed.

(** A deploy writes at most once, its last call: the claim named after the Machine it
    read, updated from what was read with the payload set, or created for that Machine
    when there was none. *)
Theorem deploy_writes_its_claim opts tr err : runs (ctl_Deploy encode_params opts) tr err ->
  let key := mkKey (do_Namespace opts) (claim_name (do_MachineName opts)) in
  (forall x, x ∈ tr -> ctl_writes (projT1 x) = false) /\ err <> None \/
  exists t m params x, tr = t ++ [x] /\ (forall y, y ∈ t -> ctl_writes (projT1 y) = false) /\
    ev (R := ctl_resp) (LKube (EGet KMachine (mkKey (do_Namespace opts) (do_MachineName opts)))) (inl m) ∈ t /\
    ((exists claim, ev (R := ctl_resp) (LKube (EGet KClaim key)) (inl claim) ∈ t /\
        projT1 x = LKube (EUpdate KClaim (claim <| claim_Spec := payload opts params (claim_Spec claim) |>))) \/
     (exists e, ev (R := ctl_resp) (LKube (EGet KClaim key)) (inr e) ∈ t /\ IsNotFound e = true /\
        projT1 x = LKube (ECreate KClaim (new_claim opts <| claim_Spec := payload opts params (claim_Spec (new_claim opts)) |>)))).
Proof.
  unfold ctl_Deploy, machine_there, kube_get. cbv zeta. intros (r & t1 & -> & Hr). cbn [bind] in Hr.
  assert (H1 : forall x, x ∈ [ev (R := ctl_resp) (LKube (EGet KMachine (mkKey (do_Namespace opts) (do_MachineName opts)))) r] -> ctl_writes (projT1 x) = false)
    by (by intros x ->%list_elem_of_singleton).
  destruct r as [m|e]; [|left; destruct Hr as [-> ->]; by split]. destruct Hr as (c & t2 & -> & Hr). cbn [bind] in Hr.
  set (g := ev (R := ctl_resp) (LKube (EGet KMachine (mkKey (do_Namespace opts) (do_MachineName opts)))) (inl m)) in *. set (gc := ev (R := ctl_resp) (LKube (EGet KClaim _)) c).
  assert (H2 : forall x, x ∈ [g; gc] -> ctl_writes (projT1 x) = false) by (by intros x [->|[->|[]%not_elem_of_nil]%elem_of_cons]%elem_of_cons).
  destruct (match c with inl _ => _ | inr _ => _ end) as [[claim create]|e] eqn:Hc; [|left; destruct Hr as [-> ->]; by split].
  destruct (match do_Params opts with Some _ => _ | None => _ end) as [params|e]; [|left; destruct Hr as [-> ->]; by split].
  right. destruct create; destruct Hr as (w & t3 & -> & [-> _]); exists [g; gc], m, params; eexists; (split; [reflexivity|]); (split; [exact H2|]); (split; [by left|]).
  - right. destruct c as [cl|e]; [discriminate Hc|]. destruct (IsNotFound e) eqn:He; [|discriminate Hc].
    injection Hc as <-. exists e. split_and!; [by right; left|done|reflexivity].
  - left. destruct c as [cl|e]; [|by destruct (IsNotFound e)]. injection Hc as <-. exists cl. split; [by right; left|reflexivity].
Qed.
End Ctl.

(** ** The token *)

Lemma TrimSuffix_eq s p : TrimSuffix s p = if s =s p then "" else match s with EmptyString => "" | String a rest => String a (TrimSuffix rest p) end.
Proof. by destruct s. Qed.

Lemma TrimSuffix_app s p : TrimSuffix (s +:+ p) p = s.
Proof.
  induction s as [|c s IH]; rewrite TrimSuffix_eq.
  - change ("" +:+ p) with p. by destruct (String.eqb_spec p p).
  - change (String c s +:+ p) with (String c (s +:+ p)). cbv iota. rewrite IH. destruct (String.eqb_spec (String c (s +:+ p)) p) as [He|]; [|done].
    exfalso. apply (f_equal String.length) in He. cbn in He. rewrite string_length_app in He. lia.
Qed.

(** The client and the service read the same token from one file, unless its line ends
    with a carriage return: the client drops it and the service keeps it. *)
Theorem crlf_token_differs path t : t <> "" ->
  token_of_file (t +:+ carriage_return +:+ newline) = t /\
  LoadToken path (inl (t +:+ carriage_return +:+ newline)) = inl (t +:+ carriage_return).
Proof.
  intros Ht. change (t +:+ carriage_return +:+ newline) with (t +:+ (carriage_return +:+ newline)). unfold token_of_file, LoadToken.
  rewrite <- string_app_assoc, TrimSuffix_app. split; [by apply TrimSuffix_app|]. cbv zeta.
  destruct (String.eqb_spec (t +:+ carriage_return) "") as [He|]; [|done]. destruct t; [done|discriminate He].
Qed.

(** ** Following a deploy *)

Definition printed (tr : trace ctl_resp) : list string := omap (fun x => match projT1 x with LPrint l => Some l | _ => None end) tr.

Fixpoint changes (last : string) (lines : list string) : Prop :=
  match lines with [] => True | l :: lines => l <> last /\ changes l lines end.

Section Watch.
Context `{ApiMachinery}.

Lemma print_runs ns name last tr res : runs (printIfChanged ns name last) tr res ->
  match res with
  | inr _ => printed tr = []
  | inl (_, line) => printed tr = [] /\ line = last \/ printed tr = [line] /\ line <> last
  end.
Proof.
  unfold printIfChanged. intros (t1 & t2 & r & -> & Hs & Hr)%runs_bind.
  assert (Hq : printed t1 = []).
  { assert (Hc : calls (fun e => match e with LPrint _ => False | _ => True end) (statusLine ns name)) by (repeat calls_step; done).
    pose proof (calls_runs _ _ _ _ Hc Hs) as Hf. clear -Hf. induction Hf as [|[e r] t Hx _ IH]; [done|]. destruct e; first [done|exact IH]. }
  assert (Happ : forall u v, printed (u ++ v) = printed u ++ printed v) by (intros u v; apply omap_app).
  destruct r as [[line run]|err]; [|destruct Hr as [-> ->]; rewrite app_nil_r; exact Hq].
  destruct (String.eqb_spec line last) as [->|Hne]; cbn [negb] in Hr.
  - destruct Hr as [-> ->]. left. rewrite app_nil_r. by split.
  - destruct Hr as (u & t & -> & [-> ->]). right. rewrite Happ, Hq. by split.
Qed.

Lemma watch_runs rounds ns name last tr err : runs (watch_rounds rounds ns name last) tr err -> changes last (printed tr).
Proof.
  revert last tr. induction rounds as [|rounds IH]; cbn [watch_rounds]; intros last tr Hr; [by destruct Hr as ([] & _)|].
  destruct Hr as ([e|] & t1 & -> & Hr); cbn [bind] in Hr; [by destruct Hr as [-> _]|].
  apply runs_bind in Hr as (t2 & t3 & r & -> & Hp & Hr). apply print_runs in Hp.
  change (changes last (printed (t2 ++ t3))). unfold printed. rewrite omap_app. fold (printed t2). fold (printed t3).
  destruct r as [[[] line]|e]; [destruct Hr as [-> _]; by destruct Hp as [[-> _]|[-> Hne]]| |destruct Hr as [-> _]; by rewrite Hp].
  apply IH in Hr. destruct Hp as [[-> ->]|[-> Hne]]; [done|]. by split.
Qed.

(** A report prints a line only when it differs from the one before. *)
Theorem status_prints_changes rounds ns name watch tr err : runs (ctl_Status rounds ns name watch) tr err -> changes "" (printed tr).
Proof.
  unfold ctl_Status. intros (t1 & t2 & r & -> & Hp & Hr)%runs_bind. apply print_runs in Hp. unfold printed. rewrite omap_app. fold (printed t1). fold (printed t2).
  destruct r as [[done line]|e]; [|destruct Hr as [-> _]; by rewrite Hp].
  assert (Hw : changes line (printed t2)) by (destruct (negb watch || done); [by destruct Hr as [-> _]|by apply watch_runs in Hr]).
  destruct Hp as [[-> ->]|[-> Hne]]; [done|by split].
Qed.
End Watch.

(** ** A concrete upload *)

#[local] Existing Instance SimpleMeta.ops.

Module Upload_example.
Definition hash (s : string) : string := s.
Definition decode (_ : string) : UploadResponse + GoErr := inl (mkUploadResponse "noble" "staged://noble" 3 "sha256:abc" false).
Definition opts : ImageUploadOptions := mkImageUpload "noble.img" "noble" "ns" "" "" "Linux" "http://images/" "secret" false false 0.
Definition handler (e : ctl) (s : unit) : option (ctl_resp e * unit) :=
  match e return option (ctl_resp e * unit) with
  | LStat _ => Some (inl 3, s)
  | LPut _ _ _ => Some (inl ("abc", mkHttpReply 201 "201 Created" "{}" None), s)
  | LKube (ECreate k o) => Some (inl o, s)
  | LOpen _ | LNewRequest _ => Some (None, s)
  | _ => None
  end.
Definition run : ctlgo (option (UploadResponse * ImageImport) * option GoErr) :=
  ImageUpload hash decode (fun _ => "") (fun _ => false) (fun _ => false) 1 opts.
Definition log : trace ctl_resp := match exec handler run tt with Some (_, _, tr) => tr | None => [] end.
End Upload_example.

Lemma import_is_of_what_was_streamed_witness :
  length Upload_example.log = 5%nat /\
  exists t1 bytes u created t2,
    Upload_example.log = t1 ++ ev (R := ctl_resp) (LKube (ECreate KImport (import_of Upload_example.opts u))) created :: t2 /\
    streamed_as Upload_example.hash Upload_example.decode Upload_example.opts t1 bytes u.
Proof.
  split; [vm_compute; reflexivity|].
  destruct (import_is_of_what_was_streamed Upload_example.hash Upload_example.decode (fun _ => "") (fun _ => false) (fun _ => false) 1 Upload_example.opts
    Upload_example.log (Some (mkUploadResponse "noble" "staged://noble" 3 "sha256:abc" false,
      import_of Upload_example.opts (mkUploadResponse "noble" "staged://noble" 3 "sha256:abc" false))) None) as [(Hn & _)|(t1 & bytes & u & created & t2 & Hl & Hs & _)].
  - apply (exec_runs Upload_example.handler _ tt _ tt). vm_compute. reflexivity.
  - discriminate Hn.
  - exists t1, bytes, u, created, t2. split; [exact Hl|exact Hs].
Defined.
