(* ===== verification/IngestTools.v ===== *)
(** * IngestTools: the binary of the ingest and publish Jobs

    [src/cmd/ingest]: the tools behind the pipeline of [Ingest] (attaching an image
    to a device, [blkid], [partclone], [qemu-img], [sfdisk], the download), and the
    process around it, from its environment to the termination message.

    Parameters: JSON, the environment.  The pipeline itself is a call here; log lines
    are left out. *)

From S2P Require Import Prelude Text Effects Store Api Cluster Workloads SeedDemand AgentExec AgentLive Contents DiskMatch Imports Ingest StagingSafety SeedingSafety.
Local Open Scope string_scope.
Local Open Scope list_scope.
Local Open Scope Z_scope.

(** ** Calls *)

(** How a command failed: its exit status, if it ran, the error and what it printed. *)
Record ExecErr := mkExecErr { xe_Code : option Z; xe_Err : GoErr; xe_Out : string }.

Record PublishConfig := mkPublish { pc_Partitions : list PublishPartition }.

Inductive shell :=
| XRun (argv : list string)
| XGlob (pattern : string)
| XStat (path : string)
| XLookPath (name : string)
| XNow
| XAfter (wait : Z)
| XFetch (url : string)
| XCreate (path : string)
| XCopyBody (dst : string) (bytesPerSec : Z) (data : string)
| XClose (path : string)
| XMkdirAll (path : string)
| XWriteFile (path data : string)
| XOpenStaging (root : string)
| XIngest (cfg : Config) (deps : Dependencies) (attacher : bool)
| XPublish (cfg : PublishConfig)
| XDiverge.

(** [XAfter] answers [ctx.Err()] when the context is done first. *)
Definition shell_resp (e : shell) : Type :=
  match e with
  | XRun _ => (string + ExecErr)%type
  | XGlob _ => (list string + GoErr)%type
  | XNow => Z
  | XFetch _ => (HttpReply + GoErr)%type
  | XIngest _ _ _ | XPublish _ => IngestResult
  | XDiverge => Empty_set
  | _ => option GoErr
  end.

Abbreviation shellgo := (prog shell_resp).
Abbreviation xcall := (call (R := shell_resp)).

(** ** Attaching *)

Definition nbdDeviceDir : string := "/dev".
Definition nbdSysBlockDir : string := "/sys/block".
Definition partitionDeviceWait : Z := 10 * Second.
Definition partitionDevicePollInterval : Z := Second / 10.

Definition nbdDeviceNumber (dev : string) : Z := default (-1) (Atoi (TrimPrefix (path_base dev) "nbd")).

Definition pid_path (dev : string) : string := Join [nbdSysBlockDir; path_base dev; "pid"].

Fixpoint first_free (devices : list string) : shellgo (string + GoErr) :=
  match devices with
  | [] => Ret (inr (errorf "no free /dev/nbd* device found (is the nbd kernel module loaded? modprobe nbd max_part=16)" []))
  | dev :: devices =>
    if Contains (path_base dev) "p" then first_free devices
    else
    r <- xcall (XStat (pid_path dev)) ;;
    match r with Some _ => Ret (inl dev) | None => first_free devices end
  end.

Definition findFreeNBDDevice : shellgo (string + GoErr) :=
  r <- xcall (XGlob (Join [nbdDeviceDir; "nbd[0-9]*"])) ;;
  match r with
  | inr err => Ret (inr (wrapf "list %s/nbd*: %w" [nbdDeviceDir] err))
  | inl entries => first_free (sort_by (fun a b => nbdDeviceNumber a <? nbdDeviceNumber b) entries)
  end.

Definition connect_argv (dev format image : string) : list string := ["qemu-nbd"; "--read-only"; "--connect=" +:+ dev; "--format=" +:+ format; image].

Definition Attach (image format : string) : shellgo (string + GoErr) :=
  r <- findFreeNBDDevice ;;
  match r with
  | inr err => Ret (inr err)
  | inl dev =>
    r <- xcall (XRun (connect_argv dev format image)) ;;
    match r with
    | inr x => Ret (inr (errorf "qemu-nbd --connect=%s --format=%s %s: %w: %s" [dev; format; image; emsg (xe_Err x); xe_Out x]))
    | inl _ => xcall (XRun ["blockdev"; "--rereadpt"; dev]) ;; Ret (inl dev)
    end
  end.

(** The function [Attach] returns. *)
Definition detach (dev : string) : shellgo unit := xcall (XRun ["qemu-nbd"; "--disconnect"; dev]) ;; Ret tt.

Fixpoint await_device (rounds : nat) (dev path : string) (deadline : Z) : shellgo (string + GoErr) :=
  match rounds with
  | O => r <- xcall XDiverge ;; match r : Empty_set with end
  | S rounds =>
    r <- xcall (XStat path) ;;
    match r with
    | None => Ret (inl path)
    | Some _ =>
      now <- xcall XNow ;;
      if deadline <? now then
        Ret (inr (errorf "partition device %s did not appear within %s after attaching %s (is the nbd kernel module loaded with max_part>0, e.g. modprobe nbd max_part=16?)"
                    [path; "10s"; dev]))
      else
      r <- xcall (XAfter partitionDevicePollInterval) ;;
      match r with Some err => Ret (inr err) | None => await_device rounds dev path deadline end
    end
  end.

Definition PartitionDevice (rounds : nat) (dev : string) (num : Z) : shellgo (string + GoErr) :=
  let path := dev +:+ "p" +:+ show_dec num in
  now <- xcall XNow ;; await_device rounds dev path (now + partitionDeviceWait).

(** ** The other tools *)

Definition blkidNoSignatureExitCode : Z := 2.

(** [None] is a file system without the tag. *)
Definition interpretBlkidError (x : ExecErr) (tag path : string) : option string + GoErr :=
  if bool_decide (xe_Code x = Some blkidNoSignatureExitCode) then inl None else inr (wrapf "blkid -s %s %s: %w" [tag; path] (xe_Err x)).

Definition blkidValue (path tag : string) : shellgo (option string + GoErr) :=
  r <- xcall (XRun ["blkid"; "-o"; "value"; "-s"; tag; path]) ;;
  Ret match r with inr x => interpretBlkidError x tag path | inl out => inl (Some (TrimSpace out)) end.

Definition Detect (path : string) : shellgo (FSInfo + GoErr) :=
  r <- blkidValue path "TYPE" ;;
  match r with
  | inr err => Ret (inr err)
  | inl None => Ret (inl (mkFSInfo "" ""))
  | inl (Some fsType) =>
    r <- blkidValue path "UUID" ;;
    Ret match r with inr err => inr err | inl uuid => inl (mkFSInfo fsType (default "" uuid)) end
  end.

Definition ddFallbackBinary : string := "partclone.dd".
Definition blkidToPartcloneFSType (fsType : string) : string := if fsType =s "msdos" then "fat" else fsType.

Definition partcloneBinary (fsType : string) : shellgo string :=
  if fsType =s "" then Ret ddFallbackBinary
  else
  let candidate := "partclone." +:+ blkidToPartcloneFSType fsType in
  r <- xcall (XLookPath candidate) ;;
  Ret match r with Some _ => ddFallbackBinary | None => candidate end.

(** The command with what is found of [nice] and [ionice] before it. *)
Definition throttledCommand (binary : string) (args : list string) : shellgo (list string) :=
  let cmd := binary :: args in
  r <- xcall (XLookPath "nice") ;;
  let cmd := match r with None => ["nice"; "-n"; "19"] ++ cmd | Some _ => cmd end in
  r <- xcall (XLookPath "ionice") ;;
  Ret match r with None => ["ionice"; "-c2"; "-n7"] ++ cmd | Some _ => cmd end.

Definition Clone (fsType source targetDir : string) : shellgo (option GoErr) :=
  binary <- partcloneBinary fsType ;;
  let logPath := Join [Dir targetDir; "partclone." +:+ path_base targetDir +:+ ".log"] in
  let args := ["-F"; "-s"; source; "-o"; targetDir; "-T"; "-L"; logPath] in
  let args := if binary <>s ddFallbackBinary then "-c" :: args else args in
  argv <- throttledCommand binary args ;;
  r <- xcall (XRun argv) ;;
  Ret match r with
      | inr x => Some (errorf "%s %s: %w: %s" [binary; String.concat " " args; emsg (xe_Err x); xe_Out x])
      | inl _ => None
      end.

Definition Info (parse_info : string -> QemuImgInfo + GoErr) (path : string) : shellgo (QemuImgInfo + GoErr) :=
  r <- xcall (XRun ["qemu-img"; "info"; "--output=json"; path]) ;;
  Ret match r with
      | inr x => inr (wrapf "qemu-img info %s: %w" [path] (xe_Err x))
      | inl out => match parse_info out with inr err => inr (wrapf "parse qemu-img info output for %s: %w" [path] err) | inl i => inl i end
      end.

Definition ConvertToRaw (src srcFormat dst : string) : shellgo (option GoErr) :=
  argv <- throttledCommand "qemu-img" ["convert"; "-f"; srcFormat; "-O"; "raw"; src; dst] ;;
  r <- xcall (XRun argv) ;;
  Ret match r with inr x => Some (errorf "qemu-img convert %s -> %s: %w: %s" [src; dst; emsg (xe_Err x); xe_Out x]) | inl _ => None end.

Definition Dump (diskPath : string) : shellgo (string + GoErr) :=
  r <- xcall (XRun ["sfdisk"; "--json"; diskPath]) ;;
  Ret match r with inr x => inr (wrapf "sfdisk --json %s: %w" [diskPath] (xe_Err x)) | inl out => inl out end.

(** The file is closed whatever happens; the error of closing counts when there is no other. *)
Definition Download (bytesPerSec : Z) (url destPath : string) : shellgo (option GoErr) :=
  r <- xcall (XFetch url) ;;
  match r with
  | inr err => Ret (Some (wrapf "fetch %s: %w" [url] err))
  | inl y =>
    if negb (y_StatusCode y =? 200) then Ret (Some (errorf "fetch %s: unexpected status %s" [url; y_Status y]))
    else
    r <- xcall (XCreate destPath) ;;
    match r with
    | Some err => Ret (Some (wrapf "create %s: %w" [destPath] err))
    | None =>
      werr <- xcall (XCopyBody destPath bytesPerSec (y_Body y)) ;;
      cerr <- xcall (XClose destPath) ;;
      Ret match (match y_BodyErr y with Some err => Some err | None => werr end) with
          | Some err => Some (wrapf "write %s: %w" [destPath] err)
          | None => cerr
          end
    end
  end.

(** ** The process *)

Definition defaultTerminationMessagePath : string := "/dev/termination-log".
Definition TerminationMessageLimit : Z := 4096.

Section Process.
Context (Getenv : string -> string) (marshal : IngestResult -> string + GoErr).

Definition publishConfigFromEnv : PublishConfig + GoErr :=
  let contentName := Getenv "PARTITION_CONTENT_NAME" in
  let sourceDir := Getenv "SOURCE_CONTENT_DIR" in
  if (contentName =s "") || (sourceDir =s "") then
    inr (errorf "missing required environment: PARTITION_CONTENT_NAME=%q SOURCE_CONTENT_DIR=%q" [contentName; sourceDir])
  else inl (mkPublish [mkPublishPartition 0 sourceDir (ContentMountPath contentName)]).

Definition bandwidth_of (v : string) : Z := match Atoi v with Some n => if n <? 0 then 0 else n | None => 0 end.

(** The configuration, the optional dependencies and whether there is an attacher. *)
Definition buildFromEnv : shellgo ((Config * Dependencies * bool) + GoErr) :=
  let sourceURL := Getenv "SOURCE_URL" in
  let sourceFormat := Getenv "SOURCE_FORMAT" in
  if (sourceURL =s "") || (sourceFormat =s "") then
    Ret (inr (errorf "missing required environment: SOURCE_URL=%q SOURCE_FORMAT=%q" [sourceURL; sourceFormat]))
  else
  let workDir := if Getenv "WORK_DIR" =s "" then DefaultWorkDir else Getenv "WORK_DIR" in
  r <- xcall (XMkdirAll workDir) ;;
  match r with
  | Some err => Ret (inr (wrapf "create work dir %s: %w" [workDir] err))
  | None =>
    let cfg := mkConfig sourceURL sourceFormat (Getenv "SOURCE_CHECKSUM") workDir (bandwidth_of (Getenv "IO_BANDWIDTH_BYTES_PER_SEC")) (Getenv "IMAGE_INGEST_ATTACH") in
    let attacher := cf_AttachMode cfg <>s AttachModeCopy in
    let stagingRoot := Getenv "STAGING_ROOT" in
    if stagingRoot =s "" then Ret (inl (cfg, mkDependencies false false, attacher))
    else
    r <- xcall (XOpenStaging stagingRoot) ;;
    Ret match r with
        | Some err => inr (wrapf "open staging volume at %s: %w" [stagingRoot] err)
        | None => inl (cfg, mkDependencies true true, attacher)
        end
  end.

Definition boundResult (result : IngestResult) : IngestResult :=
  if negb (ir_Success result) then result
  else match marshal result with
       | inr err => FailureResult err
       | inl data =>
         if TerminationMessageLimit <? Z.of_nat (String.length data) then
           FailureResult (errorf "ingest result is %d bytes, over the %d-byte container termination message limit: this disk's partition table dump is too large to hand back to the controller"
             [show_dec (Z.of_nat (String.length data)); show_dec TerminationMessageLimit])
         else result
       end.

Definition writeResult (result : IngestResult) : shellgo unit :=
  match marshal result with
  | inr _ => Ret tt
  | inl data =>
    let path := if Getenv "TERMINATION_MESSAGE_PATH" =s "" then defaultTerminationMessagePath else Getenv "TERMINATION_MESSAGE_PATH" in
    r <- xcall (XMkdirAll (Dir path)) ;;
    match r with
    | Some _ => Ret tt
    | None => xcall (XWriteFile path data) ;; Ret tt
    end
  end.

(** The exit status. *)
Definition runIngest : shellgo Z :=
  r <- buildFromEnv ;;
  match r with
  | inr err => writeResult (FailureResult err) ;; Ret 1
  | inl (cfg, deps, attacher) =>
    r <- xcall (XIngest cfg deps attacher) ;;
    let result := boundResult r in
    writeResult result ;;
    Ret (if ir_Success result then 0 else 1)
  end.

Definition main_runPublish : shellgo Z :=
  match publishConfigFromEnv with
  | inr err => writeResult (FailureResult err) ;; Ret 1
  | inl cfg =>
    result <- xcall (XPublish cfg) ;;
    writeResult result ;;
    Ret (if ir_Success result then 0 else 1)
  end.

Definition main_run : shellgo Z := if Getenv "INGEST_MODE" =s "publish" then main_runPublish else runIngest.
End Process.

(** ** Attaching takes the lowest free device *)

Definition busy (dev : string) (tr : trace shell_resp) : Prop := ev (R := shell_resp) (XStat (pid_path dev)) None ∈ tr.

Lemma first_free_runs devices tr dev : runs (first_free devices) tr (inl dev) ->
  exists before after err, devices = before ++ dev :: after /\ Contains (path_base dev) "p" = false /\
    ev (R := shell_resp) (XStat (pid_path dev)) (Some err) ∈ tr /\ (forall d, d ∈ before -> Contains (path_base d) "p" = false -> busy d tr) /\
    (forall x, x ∈ tr -> exists d, projT1 x = XStat d).
Proof.
  revert tr. induction devices as [|d devices IH]; intros tr Hr; cbn [first_free] in Hr; [by destruct Hr|].
  destruct (Contains (path_base d) "p") eqn:Hp.
  { destruct (IH _ Hr) as (b & a & err & -> & Hn & Hs & Hb & Ht). exists (d :: b), a, err. split_and!; try done.
    intros x [->|Hx]%elem_of_cons Hxp; [congruence|by apply Hb]. }
  destruct Hr as ([err|] & t & -> & Hr); cbn [bind] in Hr.
  - destruct Hr as [-> [= ->]]. exists [], devices, err. split_and!; try done; [by left|intros x Hx; by apply not_elem_of_nil in Hx|].
    intros x ->%list_elem_of_singleton. by eexists.
  - destruct (IH _ Hr) as (b & a & err & -> & Hn & Hs & Hb & Ht). exists (d :: b), a, err. split_and!; try done; [by right| |].
    + intros x [->|Hx]%elem_of_cons Hxp; [by left|]. right. by apply Hb.
    + intros x [->|Hx]%elem_of_cons; [by eexists|by apply Ht].
Qed.

Lemma first_free_quiet devices : calls (fun e => match e with XStat _ => True | _ => False end) (first_free devices).
Proof. induction devices as [|d devices IH]; cbn [first_free]; [done|]. destruct (Contains _ _); [done|]. apply calls_vis; [done|]. by intros [err|]. Qed.

Lemma insert_by_key {A} (key : A -> Z) x l : StronglySorted (fun a b => key a <= key b) l ->
  StronglySorted (fun a b => key a <= key b) (insert_by (fun a b => key a <? key b) x l).
Proof.
  induction l as [|y l IH]; intros Hs; cbn; [repeat constructor|]. apply StronglySorted_inv in Hs as [Hs Hy].
  destruct (Z.ltb_spec (key y) (key x)).
  - constructor; [by apply IH|]. rewrite insert_by_perm. constructor; [lia|done].
  - constructor; [by constructor|]. constructor; [lia|]. eapply Forall_impl; [exact Hy|]. cbn. intros z Hz. lia.
Qed.

Lemma sort_by_key {A} (key : A -> Z) l : StronglySorted (fun a b => key a <= key b) (sort_by (fun a b => key a <? key b) l).
Proof. induction l as [|x l IH]; [constructor|]. by apply insert_by_key. Qed.

(** The image is connected only read-only, with its declared format, to a device that
    nothing holds, the lowest of them that is a whole device; after an error nothing is
    connected. *)
Theorem attach_takes_a_free_device image format tr res : runs (Attach image format) tr res ->
  (forall x argv, x ∈ tr -> projT1 x = XRun argv -> hd "" argv = "qemu-nbd" -> exists dev, argv = connect_argv dev format image) /\
  match res with
  | inl dev => exists entries err out, ev (R := shell_resp) (XGlob (Join [nbdDeviceDir; "nbd[0-9]*"])) (inl entries) ∈ tr /\ dev ∈ entries /\
      Contains (path_base dev) "p" = false /\ ev (R := shell_resp) (XStat (pid_path dev)) (Some err) ∈ tr /\
      ev (R := shell_resp) (XRun (connect_argv dev format image)) (inl out) ∈ tr /\
      forall d, d ∈ entries -> Contains (path_base d) "p" = false -> nbdDeviceNumber d < nbdDeviceNumber dev -> busy d tr
  | inr _ => forall argv out, ev (R := shell_resp) (XRun argv) (inl out) ∉ tr
  end.
Proof.
  unfold Attach, findFreeNBDDevice. intros (t1 & t2 & r & -> & (g & t3 & -> & Hf) & Hr)%runs_bind. cbn [bind] in Hf.
  assert (Hq : forall x, x ∈ (ev (R := shell_resp) (XGlob (Join [nbdDeviceDir; "nbd[0-9]*"])) g :: t3) -> match projT1 x with XRun _ => False | _ => True end).
  { intros x [->|Hx]%elem_of_cons; [done|]. destruct g as [entries|err]; [|destruct Hf as [-> _]; by apply not_elem_of_nil in Hx].
    pose proof (calls_runs _ _ _ _ (first_free_quiet _) Hf) as Hall. rewrite Forall_forall in Hall. specialize (Hall x Hx). by destruct (projT1 x). }
  destruct r as [dev|err].
  2: { destruct Hr as [-> ->]. rewrite app_nil_r. split; [intros x argv Hx Ha; specialize (Hq x Hx); by rewrite Ha in Hq|].
       intros argv out Hx. exact (Hq _ Hx). }
  destruct g as [entries|err]; [|by destruct Hf]. destruct (first_free_runs _ _ _ Hf) as (b & a & err & Hsort & Hp & Hs & Hb & _).
  assert (Hperm : sort_by (fun x y => nbdDeviceNumber x <? nbdDeviceNumber y) entries ≡ₚ entries) by apply sort_by_perm.
  destruct Hr as (r & t4 & -> & Hr). cbn [bind] in Hr. set (T := _ :: t3) in *.
  destruct r as [out|x].
  - destruct Hr as (rr & t5 & -> & [-> ->]). split.
    { intros x argv [Hx|Hx]%elem_of_app Ha Hh; [specialize (Hq x Hx); by rewrite Ha in Hq|].
      apply elem_of_cons in Hx as [->|Hx]; [injection Ha as <-; by exists dev|]. apply list_elem_of_singleton in Hx as ->. injection Ha as <-. discriminate Hh. }
    exists entries, err, out. split_and!; [by left| |done| | |].
    + rewrite <- Hperm, Hsort. apply elem_of_app. right. by left.
    + apply elem_of_app. left. by right.
    + apply elem_of_app. right. by left.
    + intros d Hd Hdp Hlt. rewrite <- Hperm, Hsort in Hd. unfold busy. apply elem_of_app. left. right.
      apply elem_of_app in Hd as [Hd|Hd]; [by apply Hb|]. exfalso.
      pose proof (sort_by_key nbdDeviceNumber entries) as Hs'. rewrite Hsort in Hs'. apply StronglySorted_app_1_r in Hs'.
      apply StronglySorted_inv in Hs' as [_ Hle]. rewrite Forall_forall in Hle.
      apply elem_of_cons in Hd as [->|Hd]; [lia|]. specialize (Hle d Hd). lia.
  - destruct Hr as [-> ->]. split.
    { intros y argv [Hx|Hx]%elem_of_app Ha Hh; [specialize (Hq y Hx); by rewrite Ha in Hq|]. apply list_elem_of_singleton in Hx as ->. injection Ha as <-. by exists dev. }
    intros argv out [Hx|Hx]%elem_of_app; [exact (Hq _ Hx)|]. apply list_elem_of_singleton in Hx.
    apply (f_equal (fun y : event shell_resp => match y with existT (XRun _) (inl _) => true | _ => false end)) in Hx. discriminate Hx.
Qed.

(** ** The process *)

(** Whatever message is left is that of a result, a successful one exactly when the
    process exits with 0, and then it fits the termination message. *)
Theorem exit_tells_the_result Getenv marshal tr code : runs (runIngest Getenv marshal) tr code ->
  (code = 0 \/ code = 1) /\
  forall path data r, ev (R := shell_resp) (XWriteFile path data) r ∈ tr ->
    exists result, marshal result = inl data /\ (ir_Success result = true <-> code = 0) /\
      (ir_Success result = true -> Z.of_nat (String.length data) <= TerminationMessageLimit).
Proof.
  assert (Hw : forall result t u path data r, runs (writeResult Getenv marshal result) t u -> ev (R := shell_resp) (XWriteFile path data) r ∈ t -> marshal result = inl data).
  { intros result t u path data r Hr Hin. unfold writeResult in Hr. destruct (marshal result) as [d|e]; [|destruct Hr as [-> _]; by apply not_elem_of_nil in Hin].
    cbv zeta in Hr. destruct Hr as ([e|] & t1 & -> & Hr); cbn [bind] in Hr.
    - destruct Hr as [-> _]. apply list_elem_of_singleton in Hin. apply (f_equal (fun x : event shell_resp => projT1 x)) in Hin. discriminate Hin.
    - destruct Hr as (w & t2 & -> & [-> _]). apply elem_of_cons in Hin as [Hin|Hin]; [apply (f_equal (fun x : event shell_resp => projT1 x)) in Hin; discriminate Hin|].
      apply list_elem_of_singleton in Hin. apply (f_equal (fun x : event shell_resp => projT1 x)) in Hin. cbn in Hin. by injection Hin as _ ->. }
  unfold runIngest. intros (t1 & t2 & b & -> & Hb & Hr)%runs_bind.
  assert (Hq : forall path data r, ev (R := shell_resp) (XWriteFile path data) r ∉ t1).
  { assert (Hc : calls (fun e => match e with XWriteFile _ _ => False | _ => True end) (buildFromEnv Getenv)) by (repeat calls_step; done).
    pose proof (calls_runs _ _ _ _ Hc Hb) as Hf. rewrite Forall_forall in Hf. intros path data r Hin. exact (Hf _ Hin). }
  destruct b as [[[cfg deps] att]|err].
  - destruct Hr as (res & t3 & -> & Hr). cbn [bind] in Hr. apply runs_bind in Hr as (t4 & t5 & u & -> & Hwr & [-> ->]). rewrite app_nil_r.
    split; [destruct (ir_Success _); auto|]. intros path data r [Hin|Hin]%elem_of_app; [by destruct (Hq path data r)|].
    apply elem_of_cons in Hin as [Hin|Hin]; [apply (f_equal (fun x : event shell_resp => projT1 x)) in Hin; discriminate Hin|].
    pose proof (Hw _ _ _ _ _ _ Hwr Hin) as Hm. exists (boundResult marshal res). split; [done|]. split; [by destruct (ir_Success (boundResult marshal res))|].
    unfold boundResult in *. destruct (ir_Success res) eqn:Hs; cbn [negb] in *; [|congruence]. destruct (marshal res) as [d|e] eqn:Hd; [|done].
    destruct (Z.ltb_spec TerminationMessageLimit (Z.of_nat (String.length d))); [done|]. intros _. rewrite Hd in Hm. injection Hm as <-. done.
  - apply runs_bind in Hr as (t4 & t5 & u & -> & Hwr & [-> ->]). rewrite app_nil_r. split; [auto|].
    intros path data r [Hin|Hin]%elem_of_app; [by destruct (Hq path data r)|]. exists (FailureResult err). split; [exact (Hw _ _ _ _ _ _ Hwr Hin)|]. by split.
Qed.

(** The process of an ingest Job reads back what the ImageImport reconciler wrote into
    its container: the source with its checksum, the work directory that is mounted,
    the bandwidth and how to attach; the staging volume exactly for a staged source. *)
Theorem ingest_reads_its_job hex_sha256 (cfg : ImageIngestConfig) imp pvc tr c deps attacher :
  let source := imp_Source (import_Spec imp) in
  let env := match ps_Containers (pt_Spec (job_Template (buildIngestJob hex_sha256 cfg imp pvc))) with k :: _ => c_Env k | [] => [] end in
  src_URL source <> "" -> sourceFormat cfg <> "" -> ioBandwidthBytesPerSec cfg < 2 ^ 63 ->
  runs (buildFromEnv (getenv env)) tr (inl (c, deps, attacher)) ->
  c = mkConfig (src_URL source) (sourceFormat cfg) (src_Checksum source) DefaultWorkDir (ioBandwidthBytesPerSec cfg) (attachMode cfg) /\
  deps = mkDependencies (staged (src_URL source)) (staged (src_URL source)) /\ attacher = negb (ig_Unprivileged cfg).
Proof.
  intros source env Hurl Hfmt Hbw Hr. set (g := getenv env) in Hr.
  assert (Hg : g "SOURCE_URL" = src_URL source /\ g "SOURCE_FORMAT" = sourceFormat cfg /\ g "SOURCE_CHECKSUM" = src_Checksum source /\ g "WORK_DIR" = DefaultWorkDir /\
    g "IO_BANDWIDTH_BYTES_PER_SEC" = show_dec (ioBandwidthBytesPerSec cfg) /\ g "IMAGE_INGEST_ATTACH" = attachMode cfg /\
    g "STAGING_ROOT" = if staged (src_URL source) then ingestStagingMountPath else "").
  { unfold g, env, getenv, buildIngestJob. fold source. destruct (ingestPodSecurityContext _) as [ps cs]. cbn [job_Template pt_Spec ps_Containers c_Env].
    destruct (staged (src_URL source)); cbn -[staged]; by split_and!. }
  destruct Hg as (G1 & G2 & G3 & G4 & G5 & G6 & G7). unfold buildFromEnv in Hr. rewrite G1, G2, G3, G4, G5, G6, G7 in Hr. cbv zeta in Hr.
  destruct (String.eqb_spec (src_URL source) ""); [done|]. destruct (String.eqb_spec (sourceFormat cfg) ""); [done|]. cbn [orb] in Hr.
  destruct (String.eqb_spec DefaultWorkDir "") as [He|_]; [discriminate He|].
  destruct Hr as ([err|] & t1 & -> & Hr); cbn [bind] in Hr; [by destruct Hr|].
  assert (Hb : bandwidth_of (show_dec (ioBandwidthBytesPerSec cfg)) = ioBandwidthBytesPerSec cfg).
  { assert (Hpos : 0 < ioBandwidthBytesPerSec cfg) by (unfold ioBandwidthBytesPerSec; destruct (Z.ltb_spec 0 (ig_IOBandwidthBytesPerSec cfg)); [lia|done]).
    unfold bandwidth_of. rewrite Atoi_dec by lia. destruct (Z.ltb_spec (ioBandwidthBytesPerSec cfg) 0); [lia|done]. }
  assert (Ha : (attachMode cfg <>s AttachModeCopy) = negb (ig_Unprivileged cfg)) by (unfold attachMode; by destruct (ig_Unprivileged cfg)).
  rewrite Hb in Hr. cbn [cf_AttachMode] in Hr. rewrite Ha in Hr. destruct (staged (src_URL source)).
  - destruct (String.eqb_spec ingestStagingMountPath "") as [He|_]; [discriminate He|]. destruct Hr as ([err|] & t2 & -> & [_ Hr]); [discriminate Hr|].
    by injection Hr as -> -> ->.
  - destruct Hr as [_ Hr]. by injection Hr as -> -> ->.
Qed.
